(* ===== verification/_CoqProject ===== *)
-Q . S2P
Prelude.v
PyStr.v
FileTree.v
Rat.v
RadUtil.v
Measures.v
Topsort.v
Cycles.v
Ns3rc.v
Jobs.v
Workers.v
Markup.v
Results.v
RunTests.v
TestRun.v
Report.v
Patch.v
Style.v
ShellCmd.v
Timeline.v
Cflags.v
Wutils.v
Runner.v
RunnerRuns.v
RunnerResults.v
Viewer.v
Drawing.v
Picture.v
SimThread.v
VizBase.v
Scene.v
Transmissions.v
Topology.v
WifiMonitor.v
VizWindow.v
Hud.v
VizPlugins.v
Console.v
Transcript.v
ModuleScan.v
ModularScan.v
ModuleGen.v
CommandTask.v
MiscTools.v
CreateModule.v
FlowMon.v
Haystack.v
Wscript.v
WscriptModules.v
WscriptBuild.v
