(* ===== verification/Prelude.v ===== *)
(** * The Python tooling of the repository, verified

    The repository holds a Facebook Haystack exercise and a PortLand data-centre
    simulation inside a copy of the ns-3 network simulator.  Most of it is C++,
    generated bindings and vendored build systems.  What carries Python logic of
    its own are the tools in [src/portland-ns3/ntu-dsi-dcn/] (all paths below
    are relative to it), and this development models those:

    - [test.py] selects test suites and examples, runs them on worker threads,
      collects the results, writes XML, text and HTML, and computes the exit
      status; it reads the build configuration with [utils.py];
    - [bindings/python/topsort.py] sorts dependencies and finds cycles, with
      [is_rotated] from [bindings/python/rad_util.py], a file of integer and list
      utilities;
    - [utils/check-style.py] re-indents C++ through patches;
    - [waf-tools/shellcmd.py] is a portable shell, [waf-tools/cflags.py] chooses
      compiler flags and [wutils.py] launches the built programs;
    - [utils/grid.py] draws time lines in a window;
    - [src/visualizer/visualizer/] shows a running simulation: one thread runs
      the simulator in steps, the Gtk thread draws nodes, links and traffic
      between the steps and answers the mouse; plugins add the wireless links
      and the windows with statistics, routes and packets, and a console runs
      lines of Python;
    - [bindings/python/ns3modulescan.py] and [ns3modulescan-modular.py] decide how
      the scanned C++ headers are annotated and divided into sections, which
      [ns3modulegen.py] turns into the Python bindings;
    - [waf-tools/command.py] and [misc.py] run commands in the build, the former
      through [shellcmd.py];
    - [wscript] and [src/wscript] decide which modules, test libraries and programs
      are built; [src/create-module.py] makes the skeleton of a module;
    - [src/flow-monitor/examples/flowmon-parse-results.py] reports the statistics
      of a simulation.

    Outside that directory, [src/facebook_haystack/haystackStoreController/] is
    the photo cache of the Haystack exercise.

    ** Files

    - [Prelude]: exceptions and the [result] monad, the loops [fold_res] with
      their rule, Python indexing and slicing, dictionaries with an arbitrary
      lawful iteration order (the classes [DictOrder] and [DictOrderOk]; the
      theorems hold for every instance, the witnesses use [tree_order]),
      counting, walks in a graph.
    - [PyStr]: the string methods and path functions of the standard library;
      [FileTree]: directories and files, the resolution of paths, and the calls on
      them as a state and error monad; a [system] says which calls are refused.
    - [RadUtil] ([rad_util.py]): Module [Binary] has [int2bin], [bin2int],
      [binary_range], [lsb], [gray_encode]; [Numbers] has [gcf], [lcm],
      [reduce_fraction]; [Lists] has [transpose], [permutations],
      [find_common_fixes], [is_rotated], [uniquify], [reverse_dict].
    - [Rat]: the comparisons of Python on rationals, numbers that are integers or
      floats ([num]), and the counting loop [float_loop].
    - [Measures] ([rad_util.py]): [polygon_area], [quantile], [trim],
      [float_range], [round_grid], [nice_units], [random_vec], [get_args].
    - [Topsort] and [Cycles] ([topsort.py]): the three algorithms, and the proof
      that the cycle search is exact.
    - [Ns3rc] ([utils.py]): the line scanners and [read_config_file].
    - [Jobs] ([test.py] 664-917 and the options of [main]): [Job] and its
      setters, [run_job_synchronously], and [worker_body], one turn of
      [worker_thread.run].
    - [Workers] (843-917, 1155-1183, 1423-1447, 1585): queues, threads, main
      thread and interrupt as the step relation [step] on [state].
    - [Markup]: well-nested tags, for the outputs.
    - [Results] (1433-1641): the collecting loop [collect], the results file,
      the counters and [exit_status].
    - [RunTests] (39-151, 501-582, 922-1421): configuration, environment, search
      for examples, and the jobs the options dispatch.
    - [TestRun]: the relation [run_tests], which composes [prepare], any run of
      [step], [report] and the closing actions; each [ending] has its exit status,
      those of [sys.exit] and of exceptions included.
    - [Report] (167-470): the two translations of the results.
    - [Patch] and [Style] ([check-style.py] 27-283 and 286-431): patches, their
      parser and printer and the white-space filter; the driver.
    - [ShellCmd] ([shellcmd.py]): [parse] as a machine over [parser] states,
      [run] with its short circuits, the files that cannot be opened and the
      programs that cannot be started.
    - [Timeline] and [Viewer] ([grid.py] 10-249 with 985-1045, and 250-313,
      472-613, 750-893, 1055-1060): ranges, events, searches and the reader of
      the data; the legend, the scale and the window with its mouse handlers.
      [Drawing] (282-470, 514-551, 618-749, 777-783, 894-935): the layout of the
      rows and the draw methods, each as the list of its cairo calls; [Picture]
      proves the height of the rows, the whole picture and what the widget shows.
    - [Cflags] ([cflags.py]) and [Wutils] ([wutils.py] 23-232).
    - [Runner] ([wutils.py] 236-320 with [waflib/Runner.py], [TaskBase.process] and
      [Task.runnable_status] of the waf in the repository): the scheduler of the build as the step
      relation [step] of the main thread and the consumers; [RunnerRuns] proves
      that it ends, [RunnerResults] what it has done then.
    - [SimThread] ([core.py] 345-394, 425-458, 676-689, 895-900, 1056-1129,
      1166-1171, 1362-1418): the two threads of the visualizer as the step relation
      [step]; the Gtk thread has a stack of frames, since [update_view_timeout]
      dispatches other handlers while it waits for the lock, as do the dialogs;
      the code typed in the IPython shell runs in a frame that holds the lock.
    - [VizBase] ([base.py], [svgitem.py], [higcontainer.py]): units, device
      traits, plugins, icons, containers.
    - [Scene] ([core.py] 113-345 and [WifiLink]): nodes, channels and links on
      the canvas, with the lists of links that every move goes through.
    - [Topology] ([core.py] 744-815, 862-869): [scan_topology] fills the scene
      from the network and the layout of Graphviz; a device may have no channel.
    - [WifiMonitor] ([wifi_intrastructure_link.py] 66-110): the plugin that
      moves the wireless links; it uses the scene only through its operations.
    - [Transmissions] ([core.py] 902-1054): windows of recent samples, their sums,
      and the arrows and labels that show them; a transmission may have no
      receiver.
    - [VizWindow] ([core.py] 465-478, 562-641, 862-875, 1133-1160, 1204-1420):
      selection, panning, dragging, following, zoom, as handlers of one state.
    - [Hud] ([hud.py]): the axes. [VizPlugins] ([interface_statistics.py],
      [ipv4_routing_table.py], [olsr.py], [show_last_packets.py] and
      [Node.tooltip_query]): Modules [Statistics], [Routing], [LastPackets] and
      [Tooltip].
    - [Console] ([ipython_view.py]): completion, history, the text view and the
      keys, in a state and error monad over the classes [TextBuffer] and [IPShell];
      [Transcript] has the theorems and a text buffer with the laws.
    - [ModuleScan] ([ns3modulescan.py] 28-293): the path of a header, the hook
      with its table, the sections, which it orders with [Topsort.topsort].
      [ModularScan] ([ns3modulescan-modular.py] 34-202): the hook of the scan of
      one module, over the table of [ModuleScan].  [ModuleGen]
      ([ns3modulegen.py] 54-70 and 126-160, [ns3modulegen_core_customizations.py]
      25-66 and 355-366): sinks, disabled features, smart pointers.
    - [CommandTask] ([command.py]): substitution in a pipeline of [ShellCmd], and
      its run.  [MiscTools] ([misc.py] 83-142 and 148-404): [subst_func] and
      [apply_cmd_output].
    - [Wscript] ([wscript] 372-400, 424-462, 566-787, [src/wscript] 75-162,
      170-305, 594-632, [utils/wscript] and [waflib/Build.py] of the waf in the
      repository): what the scripts declare and which of it is built.
      [WscriptModules] proves the closure of the enabled modules and the
      configuration, [WscriptBuild] what the build keeps: the generators of the
      modules, the test libraries, the programs, the bindings and the others that
      scripts declare, with those of [bindings/python] and [utils] that come after
      the loop.
    - [CreateModule] ([create-module.py], [src/wscript] 25-34): the templates, the
      script as a computation on the tree of [FileTree], and the scan that finds
      the modules.
    - [FlowMon] ([flowmon-parse-results.py]): flows, classifiers, probes, report.
    - [Haystack] ([haystackCacheController.py], [server.py]): the configuration,
      the controller and the routes, against the class [Memcache], which says
      what a cache promises; [map_memcache] is an instance.

    ** How the code is represented

    A Python integer is a [Z], a string a [string] (a [list ascii] in [RadUtil],
    whose functions treat strings as sequences), a list a [list], a dictionary or
    the environment a [gmap].  A function that can raise returns a [result]; the
    objects that the code mutates are records passed on, and where two names
    share an object the owner keeps it and the other name is a position
    ([Patch.parser]).  A generator is the list it yields.  The file system is a
    map from paths to contents, and a tree of directories ([FileTree]) where the
    code makes directories.  A float is a rational ([Q]), so the
    rounding errors of floating point are not modelled; where the code mixes
    integers and floats, and division depends on which, a number is a [num].
    Objects of the canvas and of Gtk are records of the properties last set on
    them, and objects shared between lists are named by numbers.  Elapsed times are in milliseconds.

    What is not code of the repository is an argument: [eval] and [exec] on
    configuration text, the outcome of a shell command, the exit code of a
    process, [uncrustify], [difflib] and [patch], [shlex.split] (the model starts
    from the words), [os.path.abspath], the objects of waf, the text extents of
    cairo, the tree [ElementTree] builds, the simulator's objects, the layout of
    Graphviz, the conversions of the canvas between pixels and points, [log] and
    [atan2], [random.random], and the calls that the operating system refuses.  Printing for the user, redraw requests
    and temporary file names are left out.

    Loops that are not structural take fuel: [topsort] one unit per item and one
    more, [find_cycles] a bound on the number of simple paths ([search_fuel]),
    [gcf] the size of the smaller number, [binary_range] [2 ^ bits] rounds, the
    binary searches the length of the list, [node_to_text] the depth of the tree,
    the searches for a power of ten (scale, axes) a binary logarithm,
    [float_loop] the quotient of the interval by the step ([float_steps]; for a
    step that is not positive [float_range_diverges] shows that the code itself
    does not end), [pop_front] the length of the window, [type_is_good] a bound
    on the depth of the types, the loop that adds to the enabled modules their
    number and that of everything used ([visit_fuel]), the functions on paths and on texts with
    variables the length of the text.  The step relations need no fuel: [start_ends]
    proves that the scheduler has no infinite run.  The theorems about each
    show that the fuel never runs out ([Diverges] is never a result).

    ** What is proved

    - Dependencies: [topsort_correct], [topsort_levels_depth] and
      [topsort_cycle_payload] (total correctness of both sorts and of the error),
      [find_cycles_exact] (every elementary cycle once, up to rotation).
    - Threads: [workers_no_deadlock], [workers_terminate],
      [workers_conserve_jobs], [workers_collect_all], for every number of workers,
      schedule, outcome and moment of the interrupt.
    - Build: [start_ends], [precedence_kept] (for the tasks that inherit
      [runnable_status]), [start_runs_all], for every number of threads, graph of
      tasks, outcome and interleaving.
    - Verdicts: [exit_status_zero], [collect_counts], and
      [run_tests_exit_status], which ties the exit status of a whole run to the
      jobs dispatched; [dispatched_jobs_table] and [skip_policy] for the options,
      [make_paths_spec] for the environment.
    - Outputs: [results_file_balanced], [translate_to_html_balanced],
      [translate_to_text_preorder].
    - Texts read and written: [read_config_file_roundtrip],
      [get_list_from_file_finds], [parse_patchset_roundtrip],
      [parse_print_roundtrip] with [parse_shape], [read_data_contents].
    - Patches: [remove_trailing_whitespace_keeps_shape],
      [whitespace_chunk_aligned]; style: [indent_files_spec].
    - Shell: [run_groups], a refinement of the loop by the evaluation of its
      groups, up to the first obstacle.
    - Timelines: [get_ranges_spec], [get_events_spec], [timelines_bounds_cover];
      window: [viewer_range_bounded], [release_attribute_error], [legend_fits],
      [integer_scale]; drawing: [ranges_drawn], [scale_marks], [drawing_height],
      [graphic_drawn].
    - Visualizer threads: [sim_lock_exclusive], [handlers_progress],
      [pause_messages_conserved], [update_timer_unique], [view_lag_bounded],
      [simulated_rate], for every interleaving of the two threads and events.
    - Visualizer objects: [nodes_show_their_state], [links_never_stale],
      [set_ap_moves_link], [scan_topology_spec], [all_links_drawn],
      [wifi_links_follow_association], [scan_nodes_sound],
      [lookup_netdevice_traits_spec], [load_plugins_once], [svg_paint_fits],
      [higcontainer_fits].
    - Visualizer window: [selection_consistent], [drag_moves_node],
      [panning_moves_view], [panning_double_press], [followed_node_centred],
      [autoscale_fits]; traffic: [averages_of_last_periods],
      [arrows_show_transmissions]; axes: [axis_marks], [labels_match_marks];
      plugins: [interface_rates], [capture_follows_filter], [tooltip_lines]; console: [transcript_kept],
      [return_runs_line], [completed_line_extends], [history_back].
    - Measures: [polygon_area_invariant], [quantile_spec], [round_grid_spec],
      [nice_units_readable], [get_args_spec].
    - Utilities: [int2bin_roundtrip], [binary_range_enumerates], [gcf_family],
      [permutations_exact], [find_common_fixes_longest]; launching:
      [relpath_follows], [run_argv_safe].
    - Bindings: [relative_path_spec], [modular_relative_path],
      [params_once], [sections_follow_dependencies], [every_section_has_sink],
      [generated_by_owner], [disable_features_exact], [pointer_canonical].
    - Build commands: [subst_template], [command_task_runs] (over the groups of
      [run_groups]), [subst_tasks_spec], [cmd_output_dependencies].
    - Selection of modules and programs: [enabled_modules_closure],
      [configure_modules_spec], [build_selects], [no_library_missing]; new modules:
      [create_module_atomic], [created_sources_exist], [created_module_found].
    - Flow statistics: [flow_metrics], [simulation_flows], [report_complete].
    - Haystack: [servers_roundtrip], and [photos_served_were_stored] for any
      lawful cache.

    Some statements have hypotheses that the code does not check.  Lemmas next to
    them show what happens otherwise: [crashed_suite_unbalanced],
    [valgrind_suite_not_reported], [skipped_example_unbalanced],
    [failure_details_unbalanced], [removed_dashes_read_as_header],
    [two_blanks_not_neutralised], [context_line_corrupted],
    [debug_empties_diff], [or_then_and_stops], [final_cd_fails],
    [left_edge_on_right_edge], [mark_outside_pane], [drawing_overflows],
    [png_is_blank],
    [abbreviation_drops_or], [get_ranges_loses_inner],
    [get_bool_missing_file], [int2bin_zero_width], [failure_unreported],
    [status_error_unreported], [command_overtakes]; for the visualizer
    [shell_selects_node], [unattached_device_fails],
    [two_update_timers], [autoscale_races], [autoscale_compounds],
    [reading_width_resets], [new_wifi_link_visible], [unknown_access_point],
    [failed_update_leaks], [shown_without_labels], [added_interface_fails],
    [lone_global_routing_stale], [broken_plugin_keeps_path],
    [opening_reads_nothing], [completed_loses_line], [text_taken_for_colour],
    [pasted_line_kept], [paste_changes_transcript], [tab_leaves_line_open], [forward_shows_oldest]; for the measures
    [area_twice], [area_depends_on_direction], [round_grid_negative],
    [binary_units_truncate], [negative_value_in_yocto], [random_vec_overflows],
    [get_args_losses]; for the bindings, commands, modules, flows and the cache
    [missing_module_fails], [colliding_names], [enum_import_keeps_dashes],
    [cannot_construct_message], [cwd_unassigned],
    [missing_input_message], [disabled_header_stays], [flag_message_dots],
    [missing_dependency], [lost_flow_stops_report], [blank_line_fails],
    [first_server_connected], [dashed_name_breaks_test], [cvs_is_module],
    [interrupted_module_stays], [quoted_name_breaks_sources],
    [bench_simulator_misses_core], [dependency_bindings_skipped].

    ** What is not modelled, and what comes next

    Left out for good: the C++ simulator, the generated [modulegen__*.py], the
    vendored waf trees (but for the scheduler), the C++ text that the
    customizations of the bindings emit through [pybindgen], the creation of
    widgets, and the background grid of the
    visualizer, which only issues cairo calls.  Rounding errors of floats, and with them [pt2str] and
    the significant figures of [nice_units], which print the digits of a float,
    are left out.

    Planned, in this order: theorems on [read_waf_config], [get_proc_env] and
    [transpose]; [pkgconfig.py]. *)

From stdpp Require Export base gmap sets list strings pretty sorting relations.
From Stdlib Require Export Lia.

Create HintDb pydb.

(** ** Python exceptions and the result monad

    A call either returns a value or raises.  The constructors are the
    built-in exceptions the modelled code can raise, [PyException] for
    [raise Exception(...)], [WafError] for the build system's own error and
    [SystemExit] for [sys.exit].  [Diverges] is not an exception of the
    language: it marks a loop whose fuel ran out, and the termination theorems
    show that it is never the result. *)
Inductive exn : Type :=
  | KeyError
  | IndexError
  | ValueError (msg : string)
  | AssertionError
  | AttributeError
  | TypeError
  | UnboundLocalError
  | ZeroDivisionError
  | IOError
  | OSError
  | PyException (msg : string)
  | WafError (msg : string)
  | SystemExit (code : Z)
  | Diverges.

#[export] Instance exn_eq_dec : EqDecision exn.
Proof. solve_decision. Defined.

Inductive result (E A : Type) : Type :=
  | Ok (a : A)
  | Raise (e : E).
Arguments Ok {E A} a.
Arguments Raise {E A} e.

#[export] Instance result_eq_dec {E A} `{EqDecision E, EqDecision A} :
  EqDecision (result E A).
Proof. solve_decision. Defined.

#[export] Instance result_ret {E} : MRet (result E) := λ A a, Ok a.
#[export] Instance result_bind {E} : MBind (result E) :=
  λ A B f m, match m with Ok a => f a | Raise e => Raise e end.
#[export] Instance result_fmap {E} : FMap (result E) :=
  λ A B f m, match m with Ok a => Ok (f a) | Raise e => Raise e end.

Definition is_ok {E A} (r : result E A) : bool :=
  match r with Ok _ => true | Raise _ => false end.

Definition guard_exn {E} (b : bool) (e : E) : result E unit :=
  if b then Ok tt else Raise e.

Definition of_option {E A} (e : E) (o : option A) : result E A :=
  match o with Some a => Ok a | None => Raise e end.

(** [for x in l: acc = f(acc, x)], stopping at the first exception. *)
Fixpoint fold_res {E S A} (f : S → A → result E S) (s : S) (l : list A) :
    result E S :=
  match l with
  | [] => Ok s
  | x :: l' => s' ← f s x; fold_res f s' l'
  end.

Section result_laws.
Context {E : Type}.

Lemma bind_Ok {A B} (a : A) (f : A → result E B) : (Ok a ≫= f) = f a.
Proof. done. Qed.

Lemma bind_Ok_inv {A B} (m : result E A) (f : A → result E B) b :
  m ≫= f = Ok b → ∃ a, m = Ok a ∧ f a = Ok b.
Proof. destruct m; naive_solver. Qed.

Lemma bind_Raise_inv {A B} (m : result E A) (f : A → result E B) e :
  m ≫= f = Raise e → m = Raise e ∨ ∃ a, m = Ok a ∧ f a = Raise e.
Proof. destruct m; naive_solver. Qed.

Lemma bind_assoc {A B C} (m : result E A) (f : A → result E B) (g : B → result E C) :
  (m ≫= f) ≫= g = m ≫= λ x, f x ≫= g.
Proof. by destruct m. Qed.

Lemma bind_ret {A} (m : result E A) : m ≫= Ok = m.
Proof. by destruct m. Qed.

Lemma fold_res_app {S A} (f : S → A → result E S) s l1 l2 :
  fold_res f s (l1 ++ l2) = s' ← fold_res f s l1; fold_res f s' l2.
Proof.
  revert s; induction l1 as [|x l1 IH]; intros s; [done|]; simpl.
  destruct (f s x); simpl; [apply IH|done].
Qed.

(** The rule of a [for] loop: an invariant indexed by the part of the list
    still to be visited. *)
Lemma fold_res_inv {S A} (P : list A → S → Prop) (f : S → A → result E S) l s :
  P l s →
  (∀ x l' s, P (x :: l') s → ∃ s', f s x = Ok s' ∧ P l' s') →
  ∃ s', fold_res f s l = Ok s' ∧ P [] s'.
Proof.
  revert s; induction l as [|x l IH]; intros s HP Hstep; simpl; [by eauto|].
  destruct (Hstep _ _ _ HP) as (s' & -> & HP'). simpl. eauto.
Qed.
End result_laws.

(** ** Tactics of the development *)

(** Invert every [bind] hypothesis that is known to return. *)
Ltac res_inv :=
  repeat match goal with
  | H : Ok _ = Ok _ |- _ => injection H as H; subst
  | H : Raise _ = Raise _ |- _ => injection H as H; subst
  | H : Ok _ = Raise _ |- _ => discriminate H
  | H : Raise _ = Ok _ |- _ => discriminate H
  | H : mret _ = Ok _ |- _ => cbv [mret result_ret] in H
  | H : (_ ≫= _) = Ok _ |- _ =>
      apply bind_Ok_inv in H; destruct H as (? & ? & H); cbn beta in H
  end.

(** Case on the scrutinee of the innermost [if decide]/[match] in the goal. *)
Ltac case_goal :=
  repeat (case_match; simplify_eq/=; try done).

(** ** Lists: Python indexing and slicing

    A negative index counts from the end; slicing clamps to the bounds and
    never raises. *)
Definition py_norm (len : nat) (i : Z) : Z :=
  if bool_decide (i < 0)%Z then (i + Z.of_nat len)%Z else i.

Definition py_index {A} (l : list A) (i : Z) : result exn A :=
  let j := py_norm (length l) i in
  if bool_decide (0 ≤ j)%Z then of_option IndexError (l !! Z.to_nat j)
  else Raise IndexError.

Definition py_clamp (len : nat) (i : Z) : nat :=
  Z.to_nat (Z.min (Z.max 0 (py_norm len i)) (Z.of_nat len)).

Definition py_slice {A} (l : list A) (i j : Z) : list A :=
  let a := py_clamp (length l) i in
  let b := py_clamp (length l) j in
  take (b - a) (drop a l).

Definition py_len {A} (l : list A) : Z := Z.of_nat (length l).

Section py_lists.
Context {A : Type}.
Implicit Types l : list A.

Lemma py_norm_nonneg (n : nat) (i : Z) : (0 ≤ i)%Z → py_norm n i = i.
Proof. intros. unfold py_norm. rewrite bool_decide_eq_false_2 by lia. done. Qed.

Lemma py_index_nat l (i : nat) :
  py_index l (Z.of_nat i) = of_option IndexError (l !! i).
Proof.
  unfold py_index. rewrite py_norm_nonneg by lia.
  rewrite bool_decide_eq_true_2 by lia.
  by rewrite Nat2Z.id.
Qed.

Lemma py_index_last l x : py_index (l ++ [x]) (-1) = Ok x.
Proof.
  unfold py_index, py_norm. rewrite (bool_decide_eq_true_2 (-1 < 0)%Z) by lia.
  rewrite length_app; simpl.
  rewrite bool_decide_eq_true_2 by lia.
  replace (Z.to_nat _) with (length l) by lia.
  rewrite lookup_app_r by lia. by rewrite Nat.sub_diag.
Qed.

Lemma py_clamp_nat (n i : nat) : i ≤ n → py_clamp n (Z.of_nat i) = i.
Proof.
  intros. unfold py_clamp. rewrite py_norm_nonneg by lia. lia.
Qed.

Lemma py_clamp_ge (n : nat) (i : Z) : (Z.of_nat n ≤ i)%Z → py_clamp n i = n.
Proof.
  intros. unfold py_clamp. rewrite py_norm_nonneg by lia. lia.
Qed.

Lemma py_slice_from l (i : nat) :
  i ≤ length l → py_slice l (Z.of_nat i) (py_len l) = drop i l.
Proof.
  intros. unfold py_slice, py_len. rewrite !py_clamp_nat by lia.
  apply take_ge. rewrite length_drop. lia.
Qed.

Lemma py_slice_nat l (i j : nat) :
  i ≤ j ≤ length l →
  py_slice l (Z.of_nat i) (Z.of_nat j) = take (j - i) (drop i l).
Proof. intros. unfold py_slice. by rewrite !py_clamp_nat by lia. Qed.
End py_lists.

(** ** Dictionaries

    A Python 2 dictionary is a finite map; the order in which its keys are
    enumerated is a property of the interpreter.  [DictOrder] is that order,
    [DictOrderOk] the documented law (every key once), and the components that
    iterate over a dictionary are verified for every lawful order. *)
Class DictOrder (K : Type) `{Countable K} : Type :=
  dict_keys : ∀ V : Type, gmap K V → list K.
Arguments dict_keys {K _ _ _ V} m : rename.

Class DictOrderOk (K : Type) `{DictOrder K} : Prop :=
  dict_keys_perm : ∀ V (m : gmap K V), dict_keys m ≡ₚ (map_to_list m).*1.

(** The order of [map_to_list], a lawful instance that computes. *)
Definition tree_order {K} `{Countable K} : DictOrder K :=
  λ V m, (map_to_list m).*1.

Lemma tree_order_ok {K} `{Countable K} : @DictOrderOk K _ _ tree_order.
Proof. intros V m. reflexivity. Qed.

Section dict.
Context {K : Type} `{DictOrderOk K} {V : Type}.
Implicit Types m : gmap K V.

Lemma dict_keys_NoDup m : NoDup (dict_keys m).
Proof. rewrite dict_keys_perm. apply NoDup_fst_map_to_list. Qed.

Lemma elem_of_dict_keys m k : k ∈ dict_keys m ↔ is_Some (m !! k).
Proof.
  rewrite dict_keys_perm, list_elem_of_fmap. split.
  - intros ([k' v] & -> & Hin). apply elem_of_map_to_list in Hin.
    simpl. eauto.
  - intros [v Hv]. exists (k, v). by rewrite elem_of_map_to_list.
Qed.
End dict.

(** [d[k]] and [del d[k]]. *)
Definition dict_get {K V} `{Countable K} {E} (e : E) (m : gmap K V) (k : K) :
    result E V := of_option e (m !! k).

Definition dict_del {K V} `{Countable K} {E} (e : E) (m : gmap K V) (k : K) :
    result E (gmap K V) :=
  match m !! k with Some _ => Ok (delete k m) | None => Raise e end.

(** [d.has_key(k)], [k in d]. *)
Definition has_key {K V} `{Countable K} (m : gmap K V) (k : K) : bool :=
  bool_decide (is_Some (m !! k)).

Lemma has_key_true {K V} `{Countable K} (m : gmap K V) k :
  has_key m k = true ↔ is_Some (m !! k).
Proof. apply bool_decide_eq_true. Qed.

Lemma has_key_false {K V} `{Countable K} (m : gmap K V) k :
  has_key m k = false ↔ m !! k = None.
Proof. unfold has_key. rewrite bool_decide_eq_false, eq_None_not_Some. done. Qed.

(** ** Counting and ordering in lists *)
Definition count {A} `{EqDecision A} (x : A) (l : list A) : nat :=
  length (filter (x =.) l).

Section counting.
Context {A : Type} `{EqDecision A}.
Implicit Types (x y : A) (l : list A).

Lemma count_nil x : count x [] = 0.
Proof. done. Qed.

Lemma count_cons x y l :
  count x (y :: l) = (if decide (x = y) then 1 else 0) + count x l.
Proof. unfold count. rewrite filter_cons. by destruct (decide (x = y)). Qed.

Lemma count_app x l1 l2 : count x (l1 ++ l2) = count x l1 + count x l2.
Proof. unfold count. by rewrite filter_app, length_app. Qed.

#[global] Instance count_perm x : Proper ((≡ₚ) ==> (=)) (count x).
Proof. intros l1 l2 Hp. unfold count. by rewrite Hp. Qed.

Lemma count_pos x l : 0 < count x l ↔ x ∈ l.
Proof.
  induction l as [|y l IH]; [rewrite count_nil, elem_of_nil; lia|].
  rewrite count_cons, elem_of_cons, <- IH. case_decide; naive_solver lia.
Qed.

Lemma count_zero x l : count x l = 0 ↔ x ∉ l.
Proof. rewrite <- count_pos. lia. Qed.
End counting.

Section filters.
Context {A : Type} (P : A → Prop) `{∀ x, Decision (P x)}.

Lemma filter_all l : Forall P l → filter P l = l.
Proof. induction 1 as [|x l Hx _ IH]; [done|]. by rewrite filter_cons_True, IH. Qed.

Lemma filter_none l : Forall (λ x, ¬ P x) l → filter P l = [].
Proof. induction 1 as [|x l Hx _ IH]; [done|]. by rewrite filter_cons_False. Qed.
End filters.

(** [x] occurs before [y] in [l]. *)
Definition before {A} (x y : A) (l : list A) : Prop :=
  ∃ i j : nat, i < j ∧ l !! i = Some x ∧ l !! j = Some y.

Lemma before_app_r {A} (x y : A) l k : before x y l → before x y (l ++ k).
Proof.
  intros (i & j & Hij & Hi & Hj). exists i, j.
  split_and!; [done|by apply lookup_app_l_Some..].
Qed.

Lemma elem_of_take_lookup {A} (x : A) (n : nat) (l : list A) :
  x ∈ take n l ↔ ∃ i, i < n ∧ l !! i = Some x.
Proof.
  rewrite list_elem_of_lookup. split.
  - intros [i Hi]. apply lookup_take_Some in Hi as [??]. eauto.
  - intros (i & Hi & Hl). exists i. by rewrite lookup_take_lt.
Qed.

(** A list and its updates at one position, split there. *)
Lemma insert_split {A} (l : list A) i x :
  l !! i = Some x →
  ∃ l1 l2, l = l1 ++ x :: l2 ∧ ∀ y, <[i:=y]> l = l1 ++ y :: l2.
Proof.
  intros Hi. exists (take i l), (drop (S i) l). split.
  - symmetry. by apply take_drop_middle.
  - intros y. apply insert_take_drop. by eapply lookup_lt_Some.
Qed.

(** A loop that alters the entries at given positions. *)
Lemma foldl_alter_lookup {A} (f : A → A) (l : list nat) (st : list A) i :
  NoDup l → foldl (λ st j, alter f j st) st l !! i = (if decide (i ∈ l) then f else id) <$> st !! i.
Proof.
  intros Hnd. revert st; induction Hnd as [|j l Hj Hnd IH]; intros st; cbn [foldl].
  { rewrite decide_False by set_solver. by destruct (st !! i). }
  rewrite IH. destruct (decide (i = j)) as [->|Hij].
  - rewrite (decide_False (P:=j ∈ l)) by done. rewrite decide_True by set_solver.
    rewrite list_lookup_alter_eq. by destruct (st !! j).
  - rewrite list_lookup_alter_ne by done.
    destruct (decide (i ∈ l)); [rewrite decide_True by set_solver|rewrite decide_False by set_solver];
      done.
Qed.

Lemma foldl_alter_length {A} (f : A → A) (l : list nat) (st : list A) :
  length (foldl (λ st j, alter f j st) st l) = length st.
Proof.
  revert st; induction l as [|j l IH]; intros st; cbn [foldl]; [done|].
  by rewrite IH, length_alter.
Qed.

Lemma Forall2_impl_in {A B} (P R : A → B → Prop) l k :
  Forall2 P l k → (∀ x y, x ∈ l → y ∈ k → P x y → R x y) → Forall2 R l k.
Proof. induction 1; intros HR; constructor; [apply HR; set_solver|set_solver]. Qed.

(** ** Finite graphs *)

Lemma not_NoDup_dup {A} `{EqDecision A} (l : list A) :
  ¬ NoDup l → ∃ (i j : nat) x, i < j ∧ l !! i = Some x ∧ l !! j = Some x.
Proof.
  induction l as [|y l IH]; intros Hnd; [destruct Hnd; constructor|].
  destruct (decide (y ∈ l)) as [Hy|Hy].
  - apply list_elem_of_lookup in Hy as [j Hj]. exists 0, (S j), y. naive_solver lia.
  - destruct IH as (i & j & x & Hij & Hi & Hj).
    { intros Hnd'. apply Hnd. by constructor. }
    exists (S i), (S j), x. naive_solver lia.
Qed.

(** A walk is a list whose consecutive elements are related. *)
Definition walk {A} (R : relation A) (l : list A) : Prop :=
  ∀ (i : nat) a b, l !! i = Some a → l !! S i = Some b → R a b.

Section walks.
Context {A : Type} (R : relation A).
Implicit Types l : list A.

Lemma walk_singleton x : walk R [x].
Proof. intros i a b _ Hb. done. Qed.

Lemma walk_cons x y l : R x y → walk R (y :: l) → walk R (x :: y :: l).
Proof. intros Hxy Hw [|i] a b Ha Hb; [naive_solver|by eapply Hw]. Qed.

Lemma walk_app_inv_l l1 l2 : walk R (l1 ++ l2) → walk R l1.
Proof. intros Hw i a b Ha Hb. eapply Hw; by apply lookup_app_l_Some. Qed.

Lemma walk_app_inv_r l1 l2 : walk R (l1 ++ l2) → walk R l2.
Proof.
  intros Hw i a b Ha Hb. apply (Hw (length l1 + i)).
  - by rewrite lookup_app_r, Nat.add_comm, Nat.add_sub by lia.
  - rewrite lookup_app_r by lia. by replace (_ - _) with (S i) by lia.
Qed.

Lemma walk_app l1 x l2 : walk R (l1 ++ [x]) → walk R (x :: l2) → walk R (l1 ++ x :: l2).
Proof.
  induction l1 as [|y [|z l1] IH]; intros H1 H2; simpl in *; [done|..].
  - apply walk_cons; [|done]. by apply (H1 0).
  - apply walk_cons; [by apply (H1 0)|]. apply IH; [|done].
    by eapply (walk_app_inv_r [y]).
Qed.

Lemma walk_snoc l x y : walk R (l ++ [x]) → R x y → walk R (l ++ [x; y]).
Proof. intros Hw Hxy. apply walk_app; [done|]. by apply walk_cons, walk_singleton. Qed.

Lemma walk_rtc l i j a b :
  walk R l → i ≤ j → l !! i = Some a → l !! j = Some b → rtc R a b.
Proof.
  intros Hw Hij Ha. revert b. induction Hij as [|j Hij IH]; intros b Hb.
  { simplify_eq. done. }
  destruct (l !! j) as [c|] eqn:Hc.
  - eapply rtc_r; [by apply IH|by eapply Hw].
  - apply lookup_lt_Some in Hb. apply lookup_ge_None in Hc. lia.
Qed.

Lemma walk_tc l i j a b :
  walk R l → i < j → l !! i = Some a → l !! j = Some b → tc R a b.
Proof.
  intros Hw Hij Ha Hb.
  destruct (l !! S i) as [c|] eqn:Hc.
  - eapply tc_rtc_r; [apply tc_once; by eapply Hw|]. by eapply (walk_rtc l (S i) j).
  - apply lookup_lt_Some in Hb. apply lookup_ge_None in Hc. lia.
Qed.
End walks.

(** A finite non-empty set in which every element has a predecessor inside
    the set contains a cycle. *)
Lemma predecessor_cycle {A} `{Countable A} (R : relation A) (X : gset A) x0 :
  x0 ∈ X →
  (∀ x, x ∈ X → ∃ y, y ∈ X ∧ R y x) →
  ∃ x, tc R x x.
Proof.
  intros Hx0 Hpred.
  assert (Hpath : ∀ n, ∃ l, length l = S n ∧ walk R l ∧ ∀ x, x ∈ l → x ∈ X).
  { induction n as [|n (l & Hlen & Hw & HX)].
    - exists [x0]. split_and!; [done|apply walk_singleton|set_solver].
    - destruct l as [|x l]; [done|].
      destruct (Hpred x) as (y & Hy & Hyx); [set_solver|].
      exists (y :: x :: l).
      split_and!; [simpl in *; lia|by apply walk_cons|set_solver]. }
  destruct (Hpath (size X)) as (l & Hlen & Hw & HX).
  destruct (not_NoDup_dup l) as (i & j & x & Hij & Hi & Hj).
  { intros Hnd. rewrite <- (size_list_to_set (C:=gset A) l Hnd) in Hlen.
    assert (size (list_to_set (C:=gset A) l) ≤ size X); [|lia].
    apply subseteq_size. intros z. rewrite elem_of_list_to_set. apply HX. }
  exists x. by eapply walk_tc.
Qed.

#[export] Hint Resolve dict_keys_NoDup : pydb.
