(* ===== verification/PyStr.v ===== *)
(** * Python strings and POSIX paths

    The string methods and [os.path] functions the modelled code uses, as the
    standard library defines them on byte strings. *)

From S2P Require Import Prelude.
From Stdlib Require Import Ascii.

Local Open Scope string_scope.

Definition newline : ascii := "010"%char.
Definition nl : string := String newline "".

(** ** [str] methods *)

(** [s.startswith(p)]. *)
Fixpoint startswith (p s : string) : bool :=
  match p, s with
  | "", _ => true
  | String a p', String b s' => bool_decide (a = b) && startswith p' s'
  | _, "" => false
  end.

(** [sub in s]. *)
Fixpoint contains (sub s : string) : bool :=
  startswith sub s ||
  match s with "" => false | String _ s' => contains sub s' end.

Fixpoint contains_char (c : ascii) (s : string) : bool :=
  match s with
  | "" => false
  | String d s' => bool_decide (c = d) || contains_char c s'
  end.

Fixpoint all_chars (p : ascii → bool) (s : string) : bool :=
  match s with "" => true | String c s' => p c && all_chars p s' end.

(** [s.split(c)] for a one-character separator: never empty. *)
Fixpoint split (c : ascii) (s : string) : list string :=
  match s with
  | "" => [""]
  | String d s' =>
      if decide (d = c) then "" :: split c s'
      else match split c s' with
           | [] => [String d ""]
           | w :: ws => String d w :: ws
           end
  end.

(** [s.split(c, 1)]: at most two pieces. *)
Fixpoint split_once (c : ascii) (s : string) : string * option string :=
  match s with
  | "" => ("", None)
  | String d s' =>
      if decide (d = c) then ("", Some s')
      else let '(a, b) := split_once c s' in (String d a, b)
  end.

(** [sep.join(l)]. *)
Fixpoint join (sep : string) (l : list string) : string :=
  match l with
  | [] => ""
  | [s] => s
  | s :: l' => s +:+ sep +:+ join sep l'
  end.

Definition is_space (c : ascii) : bool :=
  match c with
  | " " | "009" | "010" | "011" | "012" | "013" => true
  | _ => false
  end%char.

Fixpoint lstrip (s : string) : string :=
  match s with
  | "" => ""
  | String c s' => if is_space c then lstrip s' else s
  end.

Fixpoint rstrip (s : string) : string :=
  match s with
  | "" => ""
  | String c s' =>
      match rstrip s' with
      | "" => if is_space c then "" else String c ""
      | r => String c r
      end
  end.

Definition strip (s : string) : string := lstrip (rstrip s).

(** The characters after the first [n]. *)
Fixpoint str_drop (n : nat) (s : string) : string :=
  match n, s with
  | S n', String _ s' => str_drop n' s'
  | _, _ => s
  end.

(** [s.endswith(q)]. *)
Fixpoint endswith (q s : string) : bool :=
  bool_decide (s = q) || match s with "" => false | String _ s' => endswith q s' end.

(** [s[:-2]]. *)
Fixpoint drop_last2 (s : string) : string :=
  match s with
  | String c (String _ (String _ _) as t) => String c (drop_last2 t)
  | _ => ""
  end.

(** The lines of a text with their terminators, as iterating over an open
    file yields them. *)
Fixpoint lines (s : string) : list string :=
  match s with
  | "" => []
  | String c s' =>
      if decide (c = newline) then nl :: lines s'
      else match lines s' with
           | [] => [String c ""]
           | w :: ws => String c w :: ws
           end
  end.

(** ** [os.path] *)
Fixpoint ends_with_slash (s : string) : bool :=
  match s with
  | "" => false
  | String c "" => bool_decide (c = "/"%char)
  | String _ s' => ends_with_slash s'
  end.

Definition path_join (a b : string) : string :=
  if startswith "/" b then b
  else if bool_decide (a = "") || ends_with_slash a then a +:+ b
  else a +:+ "/" +:+ b.

(** [rfind('/') + 1] cuts the path; the head keeps its slash until
    [path_split] strips it. *)
Fixpoint last_component (s : string) : string * string :=
  match s with
  | "" => ("", "")
  | String c s' =>
      let '(h, t) := last_component s' in
      if bool_decide (h = "") then
        if decide (c = "/"%char) then ("/", t) else ("", String c t)
      else (String c h, t)
  end.

Fixpoint rstrip_slash (s : string) : string :=
  match s with
  | "" => ""
  | String c s' =>
      match rstrip_slash s' with
      | "" => if decide (c = "/"%char) then "" else String c ""
      | r => String c r
      end
  end.

Definition path_split (p : string) : string * string :=
  let '(h, t) := last_component p in
  (if bool_decide (rstrip_slash h = "") then h else rstrip_slash h, t).

Definition basename (p : string) : string := (last_component p).2.

(** [s] up to its last dot, and from it. *)
Fixpoint last_dot (s : string) : option (string * string) :=
  match s with
  | "" => None
  | String c s' =>
      match last_dot s' with
      | Some (a, b) => Some (String c a, b)
      | None => if bool_decide (c = "."%char) then Some ("", s) else None
      end
  end.

Fixpoint all_dots (s : string) : bool :=
  match s with "" => true | String c s' => bool_decide (c = "."%char) && all_dots s' end.

(** [os.path.splitext]: leading dots of the last component are not an
    extension. *)
Definition splitext (p : string) : string * string :=
  let '(dir, comp) := last_component p in
  match last_dot comp with
  | Some (a, b) => if all_dots a then (p, "") else (dir +:+ a, b)
  | None => (p, "")
  end.

(** [d[k] = v] on a dictionary of strings seen as an environment. *)
Abbreviation environ := (gmap string string).

(** ** Lemmas *)
Lemma app_empty_r s : s +:+ "" = s.
Proof. induction s as [|c s IH]; [done|]. change (String c (s +:+ "") = String c s). by rewrite IH. Qed.

Lemma str_app_assoc (a b c : string) : a +:+ (b +:+ c) = (a +:+ b) +:+ c.
Proof.
  induction a as [|x a IH]; [done|].
  change (String x (a +:+ (b +:+ c)) = String x ((a +:+ b) +:+ c)). by rewrite IH.
Qed.

Lemma str_app_cons c a b : String c a +:+ b = String c (a +:+ b).
Proof. done. Qed.

Lemma str_length_app a b : String.length (a +:+ b) = String.length a + String.length b.
Proof. induction a as [|c a IH]; [done|]. rewrite str_app_cons. simpl. by rewrite IH. Qed.

Lemma startswith_app p s : startswith p (p +:+ s) = true.
Proof.
  induction p as [|c p IH]; [by destruct s|]. rewrite str_app_cons. cbn [startswith].
  by rewrite bool_decide_eq_true_2, IH.
Qed.

Lemma startswith_spec p s : startswith p s = true ↔ ∃ t, s = p +:+ t.
Proof.
  split; [|by intros [t ->]; apply startswith_app].
  revert s. induction p as [|c p IH]; intros s Hs; [by exists s|].
  destruct s as [|d s]; [done|]. cbn [startswith] in Hs.
  apply andb_true_iff in Hs as [->%bool_decide_eq_true Hs].
  destruct (IH s Hs) as [t ->]. by exists t.
Qed.

Lemma contains_spec sub s : contains sub s = true ↔ ∃ a b, s = a +:+ sub +:+ b.
Proof.
  split.
  - induction s as [|c s IH]; cbn [contains].
    + rewrite orb_false_r, startswith_spec. intros [t Ht]. by exists "", t.
    + rewrite orb_true_iff, startswith_spec. intros [[t Ht]|Hs]; [by exists "", t|].
      destruct (IH Hs) as (a & b & ->). by exists (String c a), b.
  - intros (a & b & ->). induction a as [|c a IH].
    + change ("" +:+ sub +:+ b) with (sub +:+ b).
      destruct (sub +:+ b) eqn:E; cbn [contains]; rewrite <- E, startswith_app; done.
    + rewrite str_app_cons. cbn [contains]. rewrite IH. apply orb_true_r.
Qed.

Lemma split_no_sep c s : contains_char c s = false → split c s = [s].
Proof.
  induction s as [|d s IH]; intros Hs; [done|]. cbn [contains_char] in Hs.
  apply orb_false_iff in Hs as [Hd%bool_decide_eq_false Hs]. cbn [split].
  rewrite decide_False by congruence. by rewrite IH.
Qed.

Lemma split_app c a b :
  contains_char c a = false → split c (a +:+ String c b) = a :: split c b.
Proof.
  induction a as [|d a IH]; intros Ha.
  - change ("" +:+ String c b) with (String c b). cbn [split]. by rewrite decide_True.
  - cbn [contains_char] in Ha. apply orb_false_iff in Ha as [Hd%bool_decide_eq_false Ha].
    rewrite str_app_cons. cbn [split]. rewrite decide_False by congruence. by rewrite IH.
Qed.

Lemma split_join c l :
  l ≠ [] → Forall (λ s, contains_char c s = false) l → split c (join (String c "") l) = l.
Proof.
  intros Hne Hl. induction Hl as [|s l Hs Hl IH]; [done|].
  destruct l as [|t l]; [by apply split_no_sep|].
  change (join (String c "") (s :: t :: l))
    with (s +:+ String c (join (String c "") (t :: l))).
  by rewrite split_app, IH.
Qed.

Lemma contains_char_app c a b :
  contains_char c (a +:+ b) = contains_char c a || contains_char c b.
Proof.
  induction a as [|d a IH]; [done|]. rewrite str_app_cons. cbn [contains_char].
  by rewrite IH, orb_assoc.
Qed.

Lemma contains_single c s : contains (String c "") s = contains_char c s.
Proof.
  induction s as [|d s IH]; [done|]. cbn [contains contains_char startswith].
  rewrite IH. f_equal. destruct s; apply andb_true_r.
Qed.

Lemma split_once_app c a b :
  contains_char c a = false → split_once c (a +:+ String c b) = (a, Some b).
Proof.
  induction a as [|d a IH]; intros Ha.
  - change ("" +:+ String c b) with (String c b). cbn [split_once]. by rewrite decide_True.
  - cbn [contains_char] in Ha. apply orb_false_iff in Ha as [Hd%bool_decide_eq_false Ha].
    rewrite str_app_cons. cbn [split_once]. rewrite decide_False by congruence.
    by rewrite IH.
Qed.

Lemma split_once_none c a : contains_char c a = false → split_once c a = (a, None).
Proof.
  induction a as [|d a IH]; intros Ha; [done|].
  cbn [contains_char] in Ha. apply orb_false_iff in Ha as [Hd%bool_decide_eq_false Ha].
  cbn [split_once]. rewrite decide_False by congruence. by rewrite IH.
Qed.

(** A text is its first line and the rest. *)
Lemma first_line s :
  contains_char newline s = false ∨
  ∃ l s', s = l +:+ nl +:+ s' ∧ contains_char newline l = false.
Proof.
  induction s as [|c s IH]; [by left|].
  destruct (decide (c = newline)) as [->|Hc].
  { right. by exists "", s. }
  destruct IH as [IH|(l & s' & -> & Hl)].
  - left. cbn [contains_char]. by rewrite bool_decide_eq_false_2 by congruence.
  - right. exists (String c l), s'. split; [done|]. cbn [contains_char].
    by rewrite bool_decide_eq_false_2 by congruence.
Qed.

Lemma lines_first l s :
  contains_char newline l = false → lines (l +:+ nl +:+ s) = (l +:+ nl) :: lines s.
Proof.
  induction l as [|c l IH]; intros Hl; [done|].
  cbn [contains_char] in Hl. apply orb_false_iff in Hl as [Hc%bool_decide_eq_false Hl].
  rewrite !str_app_cons. cbn [lines]. rewrite decide_False by congruence. by rewrite IH.
Qed.

Lemma lines_app a b : lines ((a +:+ nl) +:+ b) = (lines (a +:+ nl) ++ lines b)%list.
Proof.
  induction a as [|c a IH]; [done|]. rewrite !str_app_cons. cbn [lines].
  destruct (decide (c = newline)); [by rewrite IH|]. rewrite IH.
  destruct (lines (a +:+ nl)) eqn:E; [|done].
  destruct a as [|d a]; [done|]. rewrite str_app_cons in E. cbn [lines] in E. case_goal.
Qed.

Lemma startswith_trans p q s :
  startswith p q = true → startswith p (q +:+ s) = true.
Proof.
  rewrite !startswith_spec. intros [t ->]. exists (t +:+ s). by rewrite str_app_assoc.
Qed.

(** A prefix without newline of a text is a prefix of its first line. *)
Lemma startswith_first_line p l s :
  contains_char newline p = false → startswith p (l +:+ nl +:+ s) = true →
  startswith p l = true.
Proof.
  revert l. induction p as [|c p IH]; intros l Hp Hs; [by destruct l|].
  cbn [contains_char] in Hp. apply orb_false_iff in Hp as [Hc%bool_decide_eq_false Hp].
  destruct l as [|d l].
  - cbn in Hs. apply andb_true_iff in Hs as [?%bool_decide_eq_true _]. congruence.
  - rewrite str_app_cons in Hs. cbn [startswith] in *. apply andb_true_iff in Hs as [-> Hs].
    by apply IH.
Qed.

Lemma startswith_contains p s : startswith p s = true → contains p s = true.
Proof. intros Hp. destruct s; cbn [contains]; by rewrite Hp. Qed.

Lemma rstrip_end s c t :
  is_space c = false → rstrip t = "" → rstrip (s +:+ String c t) = s +:+ String c "".
Proof.
  intros Hc Ht. induction s as [|d s IH].
  - change ("" +:+ String c t) with (String c t). cbn [rstrip]. by rewrite Ht, Hc.
  - rewrite !str_app_cons. cbn [rstrip]. rewrite IH. by destruct s.
Qed.

(** *** Stripping *)
Definition blank (s : string) : Prop := rstrip s = "".

Lemma rstrip_app a b : rstrip b ≠ "" → rstrip (a +:+ b) = a +:+ rstrip b.
Proof.
  intros Hb. induction a as [|c a IH]; [done|]. rewrite !str_app_cons. cbn [rstrip].
  rewrite IH. destruct (a +:+ rstrip b) eqn:E; [|done]. by destruct a; [destruct (rstrip b)|].
Qed.

Lemma rstrip_blank a b : blank b → rstrip (a +:+ b) = rstrip a.
Proof.
  intros Hb. induction a as [|c a IH]; [done|]. rewrite str_app_cons. cbn [rstrip]. by rewrite IH.
Qed.

Lemma lstrip_blank a b : blank a → lstrip (a +:+ b) = lstrip b.
Proof.
  unfold blank. induction a as [|c a IH]; [done|]. rewrite str_app_cons. cbn [rstrip lstrip].
  destruct (rstrip a) eqn:E; [|done]. destruct (is_space c); [|done]. intros _. by apply IH.
Qed.

Lemma strip_blanks a x b :
  blank a → blank b → x ≠ "" → lstrip x = x → rstrip x = x → strip (a +:+ x +:+ b) = x.
Proof.
  intros Ha Hb Hx Hl Hr. unfold strip. rewrite str_app_assoc, rstrip_blank by done.
  rewrite rstrip_app by by rewrite Hr. by rewrite Hr, lstrip_blank.
Qed.

Lemma lstrip_solid s : all_chars (λ c, negb (is_space c)) s = true → lstrip s = s.
Proof.
  destruct s as [|c s]; [done|]. cbn [all_chars lstrip]. by destruct (is_space c).
Qed.

Lemma rstrip_solid s : all_chars (λ c, negb (is_space c)) s = true → rstrip s = s.
Proof.
  induction s as [|c s IH]; [done|]. cbn [all_chars rstrip]. intros [Hc Hs]%andb_true_iff.
  rewrite IH by done. destruct s; [|done]. by destruct (is_space c).
Qed.

Example path_join_1 : path_join "utils" "test-runner" = "utils/test-runner".
Proof. reflexivity. Qed.
Example path_join_2 : path_join "a/" "/b" = "/b".
Proof. reflexivity. Qed.
Example path_split_1 : path_split "/home/ns3/build" = ("/home/ns3", "build").
Proof. reflexivity. Qed.
Example path_split_2 : path_split "/build" = ("/", "build").
Proof. reflexivity. Qed.
Example basename_1 : basename "src/wifi/examples/wifi-ap" = "wifi-ap".
Proof. reflexivity. Qed.
Example strip_1 : strip "  a b  " = "a b".
Proof. reflexivity. Qed.
