(* ===== verification/FileTree.v ===== *)
(** * Directories and files

    A tree of directories and files, the resolution of the paths of POSIX in
    it, and the calls of the standard library that the scripts make on it:
    [os.path.exists], [os.path.isdir], [os.mkdir], [file(path, 'wt')] and
    [write].  A path is walked component by component from the root or from the
    working directory, and every component but the last must be a directory;
    there are no symbolic links.  The operating system may refuse any call for
    reasons of its own (a permission, the length of a name, a full disk): a
    [system] says which calls, and how much of a text reaches a full disk. *)

From S2P Require Import Prelude PyStr.
From Stdlib Require Import Ascii.

Local Open Scope string_scope.
Local Open Scope list_scope.
Local Open Scope nat_scope.

Inductive tree_entry := Dir | File (contents : string).

#[export] Instance entry_eq_dec : EqDecision tree_entry.
Proof. solve_decision. Defined.

(** The names on the way from the root. *)
Abbreviation location := (list string).
Abbreviation tree := (gmap (list string) tree_entry).

Definition is_dir (t : tree) (l : location) : bool := bool_decide (t !! l = Some Dir).

(** The name of an entry of a directory. *)
Definition entry_name (c : string) : Prop := c ∉ [""; "."; ".."] ∧ contains_char "/"%char c = false.

#[export] Instance entry_name_dec c : Decision (entry_name c).
Proof. unfold entry_name. apply _. Defined.

(** Every entry has a name and is in a directory. *)
Definition wf (t : tree) : Prop :=
  t !! [] = Some Dir ∧ ∀ l c, is_Some (t !! (l ++ [c])) → entry_name c ∧ t !! l = Some Dir.

(** ** Resolution *)
Definition walk_step (cur : location) (c : string) : location :=
  if bool_decide (c ∈ [""; "."]) then cur
  else if bool_decide (c = "..") then take (pred (length cur)) cur
  else cur ++ [c].

Fixpoint walk (t : tree) (cur : location) (cs : list string) : option location :=
  match cs with
  | [] => Some cur
  | c :: cs => if is_dir t cur then walk t (walk_step cur c) cs else None
  end.

Definition resolve_path (t : tree) (cwd : location) (p : string) : option location :=
  if decide (p = "") then None
  else walk t (if startswith "/" p then [] else cwd) (split "/"%char p).

Definition entry_at (t : tree) (cwd : location) (p : string) : option tree_entry :=
  l ← resolve_path t cwd p; t !! l.

(** [os.path.exists(p)], [os.path.isdir(p)]. *)
Definition exists_at (t : tree) (cwd : location) (p : string) : bool :=
  bool_decide (is_Some (entry_at t cwd p)).
Definition isdir_at (t : tree) (cwd : location) (p : string) : bool :=
  bool_decide (entry_at t cwd p = Some Dir).

(** ** Calls: the tree is the state, also after an exception *)
Definition io (A : Type) : Type := tree → result exn A * tree.

#[export] Instance io_ret : MRet io := λ A a t, (Ok a, t).
#[export] Instance io_bind : MBind io := λ A B f m t,
  match m t with
  | (Ok a, t) => f a t
  | (Raise e, t) => (Raise e, t)
  end.

Definition lift {A} (r : result exn A) : io A := λ t, (r, t).

(** The refusals of the operating system, by the tree at the time of the call:
    of [stat] on a path, and of making a directory or opening a file at a place;
    [written t l s] is [Some n] when only the first [n] characters of [s] reach
    the file at [l]. *)
Record system := System {
  stat_refused : tree → string → bool;
  mkdir_refused : tree → location → bool;
  open_refused : tree → location → bool;
  written : tree → location → string → option nat
}.

(** The system that refuses nothing. *)
Definition willing : system := System (λ _ _, false) (λ _ _, false) (λ _ _, false) (λ _ _ _, None).

Section calls.
Context (sys : system) (cwd : location).

(** A [stat] that is refused counts as a path that does not exist. *)
Definition os_path_exists (p : string) : io bool := λ t,
  (Ok (negb (stat_refused sys t p) && exists_at t cwd p), t).

(** [os.mkdir(p)]. *)
Definition mkdir (p : string) : io unit := λ t,
  match resolve_path t cwd p with
  | Some l =>
      if decide (t !! l = None ∧ mkdir_refused sys t l = false) then (Ok tt, <[l := Dir]> t)
      else (Raise OSError, t)
  | None => (Raise OSError, t)
  end.

(** [file(p, 'wt')]: an empty file; the handle is its place. *)
Definition open_wt (p : string) : io location := λ t,
  match resolve_path t cwd p with
  | Some l =>
      if is_dir t l || open_refused sys t l then (Raise IOError, t)
      else (Ok l, <[l := File ""]> t)
  | None => (Raise IOError, t)
  end.

(** [f.write(s)] at the end of an open file and [f.close()]; the exception is
    raised by either, when the text is flushed. *)
Definition fwrite (l : location) (s : string) : io unit := λ t,
  match t !! l with
  | Some (File s0) =>
      match written sys t l s with
      | None => (Ok tt, <[l := File (s0 +:+ s)]> t)
      | Some n => (Raise IOError, <[l := File (s0 +:+ String.substring 0 n s)]> t)
      end
  | _ => (Raise IOError, t)
  end.
End calls.

(** ** What a system lets through *)

(** One entry made at a free place of a directory: the exception and what is
    left of the entry when it is refused. *)
Definition put (sys : system) (l : location) (e : tree_entry) (t : tree) : result exn unit * tree :=
  match e with
  | Dir => if mkdir_refused sys t l then (Raise OSError, t) else (Ok tt, <[l := Dir]> t)
  | File s =>
      if open_refused sys t l then (Raise IOError, t)
      else match written sys (<[l := File ""]> t) l s with
           | None => (Ok tt, <[l := File s]> t)
           | Some n => (Raise IOError, <[l := File (String.substring 0 n s)]> t)
           end
  end.

(** Entries below [loc], one after the other until one is refused. *)
Fixpoint put_entries (sys : system) (loc : location) (es : list (location * tree_entry)) :
    io unit := λ t,
  match es with
  | [] => (Ok tt, t)
  | e :: es =>
      match put sys (loc ++ e.1) e.2 t with
      | (Ok _, t') => put_entries sys loc es t'
      | refused => refused
      end
  end.

(** The system refuses none of these entries. *)
Fixpoint granted (sys : system) (loc : location) (es : list (location * tree_entry)) (t : tree) :
    bool :=
  match es with
  | [] => true
  | (p, e) :: es =>
      let l := loc ++ p in
      match e with
      | Dir => negb (mkdir_refused sys t l)
      | File s =>
          negb (open_refused sys t l) &&
          bool_decide (written sys (<[l := File ""]> t) l s = None)
      end && granted sys loc es (<[l := e]> t)
  end.

(** ** Entries added to a tree *)

(** [es] below [loc], one after the other. *)
Definition add_entries (loc : location) (es : list (location * tree_entry)) (t : tree) : tree :=
  foldl (λ t e, <[loc ++ e.1 := e.2]> t) t es.

Section add_entries.
Context (loc : location).
Implicit Types (t : tree) (es : list (location * tree_entry)).

Lemma add_entries_snoc es e t :
  add_entries loc (es ++ [e]) t = <[loc ++ e.1 := e.2]> (add_entries loc es t).
Proof. unfold add_entries. by rewrite foldl_app. Qed.

Lemma add_entries_other es t l :
  (∀ p, l = loc ++ p → p ∉ es.*1) → add_entries loc es t !! l = t !! l.
Proof.
  revert t. induction es as [|[p e] es IH]; intros t Hl; [done|].
  change (add_entries loc ((p, e) :: es) t) with (add_entries loc es (<[loc ++ p := e]> t)).
  rewrite IH; [|intros q Hq; specialize (Hl q Hq); set_solver].
  apply lookup_insert_ne. intros <-. specialize (Hl p eq_refl). set_solver.
Qed.

Lemma add_entries_new es t p e :
  NoDup es.*1 → (p, e) ∈ es → add_entries loc es t !! (loc ++ p) = Some e.
Proof.
  revert t. induction es as [|[q f] es IH]; intros t Hnd Hp; [set_solver|].
  cbn [fmap list_fmap fst] in Hnd. apply NoDup_cons in Hnd as [Hq Hnd].
  change (add_entries loc ((q, f) :: es) t) with (add_entries loc es (<[loc ++ q := f]> t)).
  apply elem_of_cons in Hp as [[= -> ->]|Hp]; [|by apply IH].
  rewrite add_entries_other; [by rewrite lookup_insert_eq|].
  intros p' Hp'. apply app_inv_head in Hp' as <-. done.
Qed.

(** What a refused entry leaves: nothing, or the beginning of its text. *)
Definition remainder (e : location * tree_entry) (rest : list (location * tree_entry)) : Prop :=
  rest = [] ∨ ∃ s s' n, e.2 = File s ∧ s' = String.substring 0 n s ∧ rest = [(e.1, File s')].

Lemma put_granted sys e t :
  granted sys loc [e] t = true ↔ put sys (loc ++ e.1) e.2 t = (Ok tt, <[loc ++ e.1 := e.2]> t).
Proof.
  destruct e as [p [|s]]; cbn [granted put fst snd]; rewrite andb_true_r.
  - by destruct (mkdir_refused sys t (loc ++ p)).
  - destruct (open_refused sys t (loc ++ p)); [done|]. cbn [negb andb]. case_match; case_bool_decide; naive_solver.
Qed.

Lemma put_refused sys e t :
  granted sys loc [e] t = false →
  ∃ x rest, put sys (loc ++ e.1) e.2 t = (Raise x, add_entries loc rest t) ∧
    (x = OSError ∨ x = IOError) ∧ remainder e rest.
Proof.
  destruct e as [p [|s]]; cbn [granted put fst snd]; rewrite andb_true_r.
  - intros ->%negb_false_iff. exists OSError, []. by repeat split; left.
  - destruct (open_refused sys t (loc ++ p)); cbn [negb andb].
    { intros _. exists IOError, []. repeat split; [by right|by left]. }
    intros Hw%bool_decide_eq_false. destruct (written _ _ _ _) as [n|]; [|done].
    eexists IOError, [(p, File (String.substring 0 n s))]. split; [done|]. split; [by right|].
    right. by exists s, (String.substring 0 n s), n.
Qed.

(** The entries up to the first that is refused. *)
Lemma put_entries_spec sys es t :
  if granted sys loc es t then put_entries sys loc es t = (Ok tt, add_entries loc es t)
  else ∃ k e x rest, es !! k = Some e ∧ (x = OSError ∨ x = IOError) ∧ remainder e rest ∧
         put_entries sys loc es t = (Raise x, add_entries loc (take k es ++ rest) t).
Proof.
  revert t. induction es as [|e es IH]; intros t; [done|].
  assert (Hg : granted sys loc (e :: es) t =
    granted sys loc [e] t && granted sys loc es (<[loc ++ e.1 := e.2]> t)).
  { destruct e as [p [|s]]; cbn; by rewrite andb_true_r. }
  rewrite Hg. destruct (granted sys loc [e] t) eqn:E; cbn [andb put_entries].
  - apply put_granted in E as ->. specialize (IH (<[loc ++ e.1 := e.2]> t)). case_match; [exact IH|].
    destruct IH as (k & e' & x & rest & Hk & Hx & Hr & IH). by exists (S k), e', x, rest.
  - destruct (put_refused _ _ _ E) as (x & rest & -> & Hx & Hr). by exists 0, e, x, rest.
Qed.
End add_entries.

Lemma granted_willing loc es t : granted willing loc es t = true.
Proof. revert t. by induction es as [|[p [|s]] es IH]; intros t; [done|cbn..]. Qed.

(** ** Facts of the resolution *)
Lemma walk_concat t cur cs1 cs2 :
  walk t cur (cs1 ++ cs2) = l ← walk t cur cs1; walk t l cs2.
Proof.
  revert cur. induction cs1 as [|c cs1 IH]; intros cur; [done|]. cbn [app walk].
  destruct (is_dir t cur); [apply IH|done].
Qed.

Lemma is_dir_mono t t' l : t ⊆ t' → is_dir t l = true → is_dir t' l = true.
Proof.
  unfold is_dir. rewrite !bool_decide_eq_true. intros Hsub Hl. by eapply lookup_weaken.
Qed.

Lemma walk_mono t t' cur cs l : t ⊆ t' → walk t cur cs = Some l → walk t' cur cs = Some l.
Proof.
  intros Hsub. revert cur. induction cs as [|c cs IH]; intros cur; [done|]. cbn [walk].
  destruct (is_dir t cur) eqn:E; [|done]. rewrite (is_dir_mono _ _ _ Hsub E). apply IH.
Qed.

Lemma resolve_mono t t' cwd p l : t ⊆ t' → resolve_path t cwd p = Some l → resolve_path t' cwd p = Some l.
Proof. intros Hsub. unfold resolve_path. case_decide; [done|]. by apply walk_mono. Qed.

Lemma split_nonempty c s : split c s ≠ [].
Proof. destruct s as [|d s]; cbn [split]; [done|]. case_decide; [done|]. by destruct (split c s). Qed.

Lemma split_sep c a b : split c (a +:+ String c b) = split c a ++ split c b.
Proof.
  induction a as [|d a IH].
  - change ("" +:+ String c b) with (String c b). cbn [split]. by rewrite decide_True.
  - rewrite str_app_cons. cbn [split]. case_decide; [by rewrite IH|]. rewrite IH.
    destruct (split c a) eqn:E; [by apply split_nonempty in E|done].
Qed.

Lemma walk_step_name cur c : entry_name c → walk_step cur c = cur ++ [c].
Proof.
  intros [Hc _]. unfold walk_step. rewrite !bool_decide_eq_false_2; [done|..]; intros ?; apply Hc; set_solver.
Qed.

Lemma walk_name t cur c : entry_name c → is_dir t cur = true → walk t cur (split "/"%char c) = Some (cur ++ [c]).
Proof.
  intros Hc Hcur. rewrite split_no_sep by apply Hc. cbn [walk]. by rewrite Hcur, walk_step_name.
Qed.

Lemma startswith_slash s : startswith "/" s = true → contains_char "/"%char s = true.
Proof.
  intros H. rewrite <- contains_single. by apply startswith_contains.
Qed.

Lemma not_absolute c : entry_name c → startswith "/" c = false.
Proof.
  intros [_ Hc]. destruct (startswith "/" c) eqn:E; [|done]. by rewrite startswith_slash in Hc.
Qed.

(** [d] is a directory at [l]; the empty path stands for the working directory
    when a name is joined to it. *)
Definition dir_path (t : tree) (cwd : location) (d : string) (l : location) : Prop :=
  (resolve_path t cwd d = Some l ∨ d = "" ∧ l = cwd) ∧ t !! l = Some Dir.

Lemma dir_path_mono t t' cwd d l : t ⊆ t' → dir_path t cwd d l → dir_path t' cwd d l.
Proof.
  intros Hsub [[Hr|Hr] Hl]; (split; [|by eapply lookup_weaken]); [left|by right]. by eapply resolve_mono.
Qed.

Lemma ends_with_slash_split a : ends_with_slash a = true → ∃ b, a = b +:+ "/".
Proof.
  induction a as [|c a IH]; [done|]. destruct a as [|d a].
  - cbn. rewrite bool_decide_eq_true. intros ->. by exists "".
  - intros H. destruct IH as [b Hb]; [done|]. exists (String c b). by rewrite Hb.
Qed.

Lemma slash_app_start a b :
  a ≠ "" → startswith "/" (a +:+ b) = startswith "/" a.
Proof. destruct a as [|c a]; intros Ha; [done|]. by destruct a, b. Qed.

Lemma append_slash d c : (d +:+ "/") +:+ c = d +:+ String "/"%char c.
Proof. by rewrite <- str_app_assoc. Qed.

(** A name joined to a directory is walked from it. *)
Lemma resolve_join t cwd d l c :
  contains_char "/"%char c = false → dir_path t cwd d l → path_join d c ≠ "" →
  resolve_path t cwd (path_join d c) = walk t l (split "/"%char c).
Proof.
  intros Hc [Hr Hl] Hne.
  assert (Hld : is_dir t l = true) by (unfold is_dir; by apply bool_decide_eq_true_2).
  assert (Hs : startswith "/" c = false).
  { destruct (startswith "/" c) eqn:E; [|done]. by rewrite startswith_slash in Hc. }
  unfold resolve_path. rewrite decide_False by done. revert Hne. unfold path_join. rewrite Hs.
  destruct Hr as [Hr|[-> ->]].
  2: { intros _. rewrite bool_decide_eq_true_2 by done. cbn [orb].
       change ("" +:+ c) with c. by rewrite Hs. }
  unfold resolve_path in Hr. destruct (decide (d = "")) as [|Hd]; [done|]. intros _.
  rewrite (bool_decide_eq_false_2 (d = "")) by done. cbn [orb].
  destruct (ends_with_slash d) eqn:E.
  - apply ends_with_slash_split in E as [b ->].
    rewrite slash_app_start by done.
    rewrite append_slash, split_sep, walk_concat.
    change (b +:+ "/") with (b +:+ String "/"%char "") in Hr.
    rewrite split_sep, walk_concat in Hr. 
    destruct (walk t _ (split "/"%char b)) as [l'|]; [|done]. cbn [mbind option_bind] in Hr |- *.
    cbn [split walk] in Hr. destruct (is_dir t l') eqn:E; [|done].
    change (walk_step l' "") with l' in Hr. by injection Hr as ->.
  - rewrite slash_app_start by done. change ("/" +:+ c) with (String "/"%char c).
    rewrite split_sep, walk_concat, Hr. done.
Qed.

Lemma path_join_name d c : entry_name c → path_join d c ≠ "".
Proof.
  intros Hc. unfold path_join. rewrite not_absolute by done.
  assert (c ≠ "") as Hne by (intros ->; destruct Hc as [Hc _]; set_solver).
  destruct (bool_decide _ || _).
  - destruct d; [done|]. by rewrite str_app_cons.
  - destruct d; [|by rewrite str_app_cons]. done.
Qed.

Lemma resolve_name t cwd d l c :
  entry_name c → dir_path t cwd d l → resolve_path t cwd (path_join d c) = Some (l ++ [c]).
Proof.
  intros Hc Hd. rewrite (resolve_join _ _ _ l) by (try apply Hc; auto using path_join_name).
  apply walk_name; [done|]. destruct Hd as [_ Hl]. unfold is_dir. by apply bool_decide_eq_true_2.
Qed.

(** *** Well-formed trees *)
Lemma wf_parent t l p : wf t → p ≠ [] → is_Some (t !! (l ++ p)) → t !! l = Some Dir.
Proof.
  intros [_ Hwf]. induction p as [|c p IH] using rev_ind; [done|]. intros _.
  rewrite app_assoc. intros [_ Hs]%Hwf. destruct p as [|d p]; [by rewrite app_nil_r in Hs|].
  by apply IH; [|rewrite Hs].
Qed.

Lemma wf_below t l p : wf t → t !! l = None → t !! (l ++ p) = None.
Proof.
  intros Hwf Hl. destruct p as [|c p]; [by rewrite app_nil_r|].
  destruct (t !! (l ++ c :: p)) eqn:E; [|done].
  assert (Hd : t !! l = Some Dir) by (apply (wf_parent t l (c :: p)); [done..|by rewrite E]).
  congruence.
Qed.

(** A new entry of a directory keeps the tree well-formed. *)
Lemma wf_insert t l c e :
  wf t → entry_name c → t !! l = Some Dir → t !! (l ++ [c]) = None → wf (<[l ++ [c] := e]> t).
Proof.
  intros [Hroot Hwf] Hc Hl He.
  assert (Hrest : ∀ q, t !! q = Some Dir → <[l ++ [c] := e]> t !! q = Some Dir).
  { intros q Hq. rewrite lookup_insert_ne; [done|congruence]. }
  split; [by apply Hrest|]. intros q d Hs. destruct (decide (l ++ [c] = q ++ [d])) as [Heq|Hne].
  - apply app_inj_tail in Heq as [<- <-]. split; [done|]. by apply Hrest.
  - rewrite lookup_insert_ne in Hs by done. destruct (Hwf q d Hs). split; [done|]. by apply Hrest.
Qed.

(** ** Listing a directory *)
Definition child_of (l k : location) : option string :=
  c ← last k; if decide (k = l ++ [c]) then Some c else None.

(** One order of [os.listdir]; the theorems allow any. *)
Definition listdir (t : tree) (l : location) : list string :=
  elements (set_omap (child_of l) (dom t) : gset string).

Definition listing_of (t : tree) (l : location) (names : list string) : Prop :=
  NoDup names ∧ ∀ c, c ∈ names ↔ is_Some (t !! (l ++ [c])).

Lemma child_of_Some l k c : child_of l k = Some c ↔ k = l ++ [c].
Proof.
  unfold child_of. split.
  - intros (d & _ & Hd)%bind_Some. case_decide; congruence.
  - intros ->. rewrite last_snoc. cbn. by rewrite decide_True.
Qed.

Lemma listdir_listing t l : listing_of t l (listdir t l).
Proof.
  split; [apply NoDup_elements|]. intros c. unfold listdir.
  rewrite elem_of_elements, elem_of_set_omap, <- elem_of_dom.
  split; [by intros (k & Hk & ->%child_of_Some)|]. intros Hc. exists (l ++ [c]). by rewrite child_of_Some.
Qed.

(** A test of [wf], for concrete trees. *)
Definition well_formed (t : tree) : bool :=
  is_dir t [] &&
  forallb (λ k, match last k with
                | Some c => bool_decide (entry_name c) && is_dir t (take (pred (length k)) k)
                | None => true
                end) (map_to_list t).*1.

Lemma well_formed_wf t : well_formed t = true → wf t.
Proof.
  unfold well_formed. rewrite andb_true_iff, forallb_forall. intros [Hroot Hall].
  split; [by apply bool_decide_eq_true in Hroot|]. intros l c [e He].
  specialize (Hall (l ++ [c])). rewrite last_snoc, andb_true_iff in Hall.
  destruct Hall as [Hc Hd].
  { apply list_elem_of_In, list_elem_of_fmap. exists (l ++ [c], e). by rewrite elem_of_map_to_list. }
  apply bool_decide_eq_true in Hc, Hd. rewrite length_app, Nat.add_comm in Hd. cbn in Hd.
  by rewrite take_app_length in Hd.
Qed.
