(* ===== verification/Rat.v ===== *)
(** * Rationals as Python floats

    The windows of [utils/grid.py] and of the visualizer compute with floats.
    A float is a rational here: rounding, infinities and the not-a-number are
    not modelled, so the theorems rest on comparisons and exact arithmetic.
    This file has the comparisons as booleans, [min] and [max] as Python
    evaluates them, truncation, the numbers that are integers or floats, the
    loop that adds a step until a bound, and the tactic [qcase] that splits on
    the next comparison of the goal. *)

From S2P Require Import Prelude.
From Stdlib Require Export QArith Qminmax Qround Qabs Lqa.

Local Open Scope Q_scope.

Definition qle (x y : Q) : bool := Qle_bool x y.
Definition qlt (x y : Q) : bool := negb (Qle_bool y x).

Lemma qle_spec x y : if qle x y then x <= y else y < x.
Proof.
  unfold qle. destruct (Qle_bool x y) eqn:H; [by apply Qle_bool_iff|].
  apply Qnot_le_lt. rewrite <- Qle_bool_iff, H. done.
Qed.

Lemma qlt_spec x y : if qlt x y then x < y else y <= x.
Proof. unfold qlt. pose proof (qle_spec y x) as H. unfold qle in H. by destruct (Qle_bool y x). Qed.

Lemma qle_iff x y : qle x y = true ↔ x <= y.
Proof. apply Qle_bool_iff. Qed.

Lemma qlt_iff x y : qlt x y = true ↔ x < y.
Proof. pose proof (qlt_spec x y). destruct (qlt x y); split; intros; try done; lra. Qed.

Ltac qcase :=
  match goal with
  | |- context [qlt ?x ?y] => pose proof (qlt_spec x y); destruct (qlt x y)
  | |- context [qle ?x ?y] => pose proof (qle_spec x y); destruct (qle x y)
  end.

#[export] Instance Qle_decision x y : Decision (x <= y).
Proof. refine (cast_if (decide (qle x y = true))); by rewrite <- qle_iff. Defined.
#[export] Instance Qlt_decision x y : Decision (x < y).
Proof. refine (cast_if (decide (qlt x y = true))); by rewrite <- qlt_iff. Defined.
#[export] Instance Qeq_decision x y : Decision (x == y).
Proof. refine (cast_if (decide (Qeq_bool x y = true))); by rewrite <- Qeq_bool_iff. Defined.

(** ** A rational between integers

    The comparisons with an integer are comparisons of integers with the
    floor or the ceiling, which [zq x] leaves to [lia]. *)
Lemma le_floor n x : inject_Z n <= x ↔ (n ≤ Qfloor x)%Z.
Proof.
  split; intros H.
  - rewrite <- (Qfloor_Z n). by apply Qfloor_resp_le.
  - pose proof (Qfloor_le x). rewrite Zle_Qle in H. lra.
Qed.

Lemma ceiling_le n x : x <= inject_Z n ↔ (Qceiling x ≤ n)%Z.
Proof.
  split; intros H.
  - rewrite <- (Qceiling_Z n). by apply Qceiling_resp_le.
  - pose proof (Qle_ceiling x). rewrite Zle_Qle in H. lra.
Qed.

Lemma lt_ceiling n x : inject_Z n < x ↔ (n < Qceiling x)%Z.
Proof.
  pose proof (ceiling_le n x) as H. split; intros Hn.
  - destruct (decide (Qceiling x ≤ n)%Z) as [Hc|]; [|lia]. apply H in Hc. lra.
  - apply Qnot_le_lt. intros Hc%H. lia.
Qed.

Lemma floor_lt n x : x < inject_Z n ↔ (Qfloor x < n)%Z.
Proof.
  pose proof (le_floor n x) as H. split; intros Hn.
  - destruct (decide (n ≤ Qfloor x)%Z) as [Hc|]; [|lia]. apply H in Hc. lra.
  - apply Qnot_le_lt. intros Hc%H. lia.
Qed.

Lemma floor_eq n x : inject_Z n == x ↔ (n ≤ Qfloor x ∧ Qceiling x ≤ n)%Z.
Proof. rewrite <- le_floor, <- ceiling_le. split; [intros; split|intros []]; lra. Qed.

Lemma floor_ceiling x : (Qfloor x ≤ Qceiling x ≤ Qfloor x + 1)%Z.
Proof.
  split.
  - rewrite Zle_Qle. pose proof (Qfloor_le x). pose proof (Qle_ceiling x). lra.
  - apply ceiling_le. pose proof (Qlt_floor x). lra.
Qed.

Ltac zq_rewrite :=
  rewrite ?le_floor, ?ceiling_le, ?lt_ceiling, ?floor_lt, ?floor_eq in *.
Ltac zq x := pose proof (floor_ceiling x); zq_rewrite; try lia.

Definition is_zero (x : Q) : bool := Qeq_bool x 0.

Lemma is_zero_spec x : is_zero x = true ↔ x == 0.
Proof. apply Qeq_bool_iff. Qed.

(** [max(x, y)] and [min(x, y)] return [x] unless [y] is beyond it. *)
Definition qmax (x y : Q) : Q := if qlt x y then y else x.
Definition qmin (x y : Q) : Q := if qlt y x then y else x.

Lemma qmax_spec x y : x <= qmax x y ∧ y <= qmax x y ∧ (qmax x y = x ∨ qmax x y = y).
Proof. unfold qmax. qcase; split_and!; auto; lra. Qed.

Lemma qmin_spec x y : qmin x y <= x ∧ qmin x y <= y ∧ (qmin x y = x ∨ qmin x y = y).
Proof. unfold qmin. qcase; split_and!; auto; lra. Qed.

#[export] Instance qmax_proper : Proper (Qeq ==> Qeq ==> Qeq) qmax.
Proof. intros a b E c d F. unfold qmax. repeat qcase; lra. Qed.

#[export] Instance qmin_proper : Proper (Qeq ==> Qeq ==> Qeq) qmin.
Proof. intros a b E c d F. unfold qmin. repeat qcase; lra. Qed.

(** [int(x)] truncates towards zero. *)
Definition py_int (x : Q) : Z := Z.quot (Qnum x) (Zpos (Qden x)).

Lemma py_int_inject x z : x == inject_Z z → py_int x = z.
Proof.
  unfold Qeq, py_int. simpl. rewrite Z.mul_1_r. intros ->. apply Z.quot_mul. lia.
Qed.

Lemma py_int_nonneg x : 0 <= x → py_int x = Qfloor x.
Proof.
  intros Hx. unfold py_int, Qfloor. destruct x as [n d]. unfold Qle in Hx; simpl in Hx.
  apply Z.quot_div_nonneg; lia.
Qed.

Lemma py_int_bounds x : 0 <= x → inject_Z (py_int x) <= x ∧ x < inject_Z (py_int x) + 1.
Proof.
  intros Hx. rewrite py_int_nonneg by done. split; [apply Qfloor_le|].
  pose proof (Qlt_floor x) as Hf. rewrite inject_Z_plus in Hf. done.
Qed.

(** ** Numbers: integers or floats

    The division of two integers rounds down. *)
Inductive num := Int (z : Z) | Float (q : Q).

Definition val (x : num) : Q := match x with Int z => inject_Z z | Float q => q end.

Definition num_add (x y : num) : num :=
  match x, y with Int a, Int b => Int (a + b) | _, _ => Float (val x + val y) end.
Definition num_sub (x y : num) : num :=
  match x, y with Int a, Int b => Int (a - b) | _, _ => Float (val x - val y) end.
Definition num_mul (x y : num) : num :=
  match x, y with Int a, Int b => Int (a * b) | _, _ => Float (val x * val y) end.
Definition num_div (x y : num) : result exn num :=
  if is_zero (val y) then Raise ZeroDivisionError
  else match x, y with Int a, Int b => Ok (Int (a / b)) | _, _ => Ok (Float (val x / val y)) end.

(** [x % y]: the sign is that of the divisor. *)
Definition num_mod (x y : num) : result exn num :=
  if is_zero (val y) then Raise ZeroDivisionError
  else match x, y with
       | Int a, Int b => Ok (Int (a mod b))
       | _, _ => Ok (Float (val x - inject_Z (Qfloor (val x / val y)) * val y))
       end.

(** [max(x, y)] and [min(x, y)] return [x] unless [y] is beyond it. *)
Definition num_max (x y : num) : num := if qlt (val x) (val y) then y else x.
Definition num_min (x y : num) : num := if qlt (val y) (val x) then y else x.

Lemma num_max_ge x y : val x <= val (num_max x y).
Proof. unfold num_max. qcase; lra. Qed.

Lemma num_min_le x y : val (num_min x y) <= val x.
Proof. unfold num_min. qcase; lra. Qed.

(** ** Loops over an arithmetic progression *)

(** [while x < end: ...; x += div], the values [x] takes. *)
Fixpoint float_loop (fuel : nat) (x div end_ : Q) : result exn (list Q) :=
  if qlt x end_ then
    match fuel with
    | O => Raise Diverges
    | S n => l ← float_loop n (x + div) div end_; Ok (x :: l)
    end
  else Ok [].

Definition float_steps (x0 div end_ : Q) : result exn (list Q) :=
  float_loop (Z.to_nat (Qceiling ((end_ - x0) / div))) x0 div end_.

Lemma inject_succ n : inject_Z (Z.of_nat (S n)) == inject_Z (Z.of_nat n) + 1.
Proof. by rewrite Nat2Z.inj_succ, <- Z.add_1_r, inject_Z_plus. Qed.

Lemma inject_pred z : inject_Z (z - 1) == inject_Z z - 1.
Proof. unfold Z.sub. by rewrite inject_Z_plus. Qed.

Lemma float_loop_spec n x div hi :
  0 < div → hi <= x + inject_Z (Z.of_nat n) * div →
  ∃ l, float_loop n x div hi = Ok l ∧
    (∀ i a, l !! i = Some a → a == x + inject_Z (Z.of_nat i) * div ∧ a < hi) ∧
    hi <= x + inject_Z (Z.of_nat (length l)) * div.
Proof.
  intros Hdiv. revert x; induction n as [|n IH]; intros x Hn; cbn [float_loop].
  - qcase; [change (inject_Z (Z.of_nat 0)) with 0 in Hn; lra|].
    exists []. split_and!; [done..|]. change (inject_Z (Z.of_nat _)) with 0. lra.
  - qcase; [|exists []; split_and!; [done..|change (inject_Z (Z.of_nat _)) with 0; lra]].
    rewrite inject_succ in Hn.
    destruct (IH (x + div)) as (l & -> & Hl & Hlen); [lra|]. exists (x :: l). split; [done|]. split.
    + intros [|i] a Ha; simpl in Ha; [injection Ha as <-; split; [change (inject_Z (Z.of_nat 0)) with 0; lra|done]|].
      destruct (Hl i a Ha) as [H1 H2]. split; [|done].
      rewrite inject_succ. lra.
    + simpl length. rewrite inject_succ. lra.
Qed.

Lemma float_steps_spec x div hi :
  0 < div →
  ∃ l, float_steps x div hi = Ok l ∧
    (∀ i a, l !! i = Some a → a == x + inject_Z (Z.of_nat i) * div ∧ a < hi) ∧
    hi <= x + inject_Z (Z.of_nat (length l)) * div.
Proof.
  intros Hdiv. apply float_loop_spec; [done|].
  pose proof (Qle_ceiling ((hi - x) / div)) as Hc.
  assert (inject_Z (Qceiling ((hi - x) / div)) <=
    inject_Z (Z.of_nat (Z.to_nat (Qceiling ((hi - x) / div))))) as Hz.
  { rewrite <- Zle_Qle. lia. }
  assert ((hi - x) / div * div <= inject_Z (Z.of_nat (Z.to_nat (Qceiling ((hi - x) / div)))) * div)
    as Hm. { apply Qmult_le_compat_r; lra. }
  assert ((hi - x) / div * div == hi - x) as E by (field; lra). lra.
Qed.
