(* ===== verification/RadUtil.v ===== *)
(** * [bindings/python/rad_util.py]: the integer and list utilities

    The functions of the file whose arguments are integers, strings or lists.
    A Python string is a [list ascii], an integer a [Z].  Geometry, statistics,
    rounding, units, random vectors and arguments are in [Measures]; [pt2str],
    [timestamp] and [getmodule] are not modelled. *)

From S2P Require Import Prelude.
From Stdlib Require Import Ascii.
Local Open Scope Z_scope.

Abbreviation pystr := (list ascii).

(** ** Binary strings *)
Module Binary.

(** The digits of [hex(i)], most significant first, for [0 <= i]. *)
Definition hex_digit (d : Z) : ascii :=
  ascii_of_nat (Z.to_nat (if d <? 10 then 48 + d else 87 + d)).

Fixpoint hex_digits (fuel : nat) (i : Z) (acc : pystr) : pystr :=
  match fuel with
  | O => acc
  | S fuel' =>
      if i <? 16 then hex_digit i :: acc
      else hex_digits fuel' (i / 16) (hex_digit (i mod 16) :: acc)
  end.

(** [hex(i).lower().replace('l', '')]: [0x] before the digits, a minus sign
    before that for a negative number. *)
Definition hex (i : Z) : pystr :=
  let digits := hex_digits (S (Z.to_nat (Z.log2 (Z.abs i)))) (Z.abs i) [] in
  (if i <? 0 then ["-"%char] else []) ++ "0"%char :: "x"%char :: digits.

Definition hex2bin (c : ascii) : result exn pystr :=
  match c with
  | "0" => Ok ["0"; "0"; "0"; "0"] | "1" => Ok ["0"; "0"; "0"; "1"]
  | "2" => Ok ["0"; "0"; "1"; "0"] | "3" => Ok ["0"; "0"; "1"; "1"]
  | "4" => Ok ["0"; "1"; "0"; "0"] | "5" => Ok ["0"; "1"; "0"; "1"]
  | "6" => Ok ["0"; "1"; "1"; "0"] | "7" => Ok ["0"; "1"; "1"; "1"]
  | "8" => Ok ["1"; "0"; "0"; "0"] | "9" => Ok ["1"; "0"; "0"; "1"]
  | "a" => Ok ["1"; "0"; "1"; "0"] | "b" => Ok ["1"; "0"; "1"; "1"]
  | "c" => Ok ["1"; "1"; "0"; "0"] | "d" => Ok ["1"; "1"; "0"; "1"]
  | "e" => Ok ["1"; "1"; "1"; "0"] | "f" => Ok ["1"; "1"; "1"; "1"]
  | _ => Raise KeyError
  end%char.

Fixpoint hex_to_bits (s : pystr) : result exn pystr :=
  match s with
  | [] => Ok []
  | c :: s' => b ← hex2bin c; bs ← hex_to_bits s'; Ok (b ++ bs)
  end.

Definition too_large : exn :=
  ValueError "Value too large for given number of bits.".

Definition int2bin (i n : Z) : result exn pystr :=
  result ← hex_to_bits (py_slice (hex i) 2 (py_len (hex i)));
  if bool_decide ("1"%char ∈ py_slice result 0 (- n)) then Raise too_large
  else
    let result := py_slice result (- n) (py_len result) in
    Ok (replicate (Z.to_nat (n - py_len result)) "0"%char ++ result).

(** [int(bin_string, 2)] on a string of binary digits; the sign, white space
    and [0b] prefix that [int] also accepts do not occur in the strings of
    this module and are refused here. *)
Definition digit_of (c : ascii) : result exn Z :=
  if decide (c = "0"%char) then Ok 0
  else if decide (c = "1"%char) then Ok 1
  else Raise (ValueError "invalid literal for int() with base 2").

Definition bin2int (bin_string : pystr) : result exn Z :=
  if bool_decide (bin_string = []) then
    Raise (ValueError "invalid literal for int() with base 2")
  else
    fold_res (λ acc c, d ← digit_of c; Ok (2 * acc + d)) 0 bin_string.

(** [2 ** n] is a float for a negative [n], which [&] refuses. *)
Definition lsb (x n : Z) : result exn Z :=
  if n <? 0 then Raise TypeError else Ok (Z.land x (2 ^ n - 1)).

Definition gray_encode (i : Z) : Z := Z.lxor i (Z.shiftr i 1).

(** *** [binary_range] *)

(** The inner loop: [while i < bits and toggle[i] == 1]. *)
Fixpoint ripple (fuel : nat) (bits i : nat) (v : pystr) (toggle : list Z) :
    pystr * list Z :=
  match fuel with
  | O => (v, toggle)
  | S fuel' =>
      if bool_decide (i < bits)%nat && bool_decide (toggle !! i = Some 1) then
        if bool_decide (v !! i = Some "0"%char) then
          ripple fuel' bits (S i) (<[i := "1"%char]> v) (<[S i := 0]> toggle)
        else
          ripple fuel' bits (S i) (<[i := "0"%char]> v) (<[S i := 1]> toggle)
      else (v, toggle)
  end.

(** The outer loop: [while toggle[bits] != 1]. *)
Fixpoint binary_loop (fuel bits : nat) (v : pystr) (toggle : list Z) (l : list pystr) :
    result exn (list pystr) :=
  match fuel with
  | O => Raise Diverges
  | S fuel' =>
      if bool_decide (toggle !! bits = Some 1) then Ok l
      else
        let '(v', toggle') := ripple bits bits 0 v (1 :: replicate bits 0) in
        binary_loop fuel' bits v' toggle' (l ++ [reverse v])
  end.

Definition binary_range (bits : nat) : result exn (list pystr) :=
  binary_loop (S (2 ^ bits)) bits (replicate bits "0"%char)
    (1 :: replicate bits 0) [].

(** *** The value of a binary string *)
Definition is_bin (l : pystr) : Prop := Forall (λ c, c = "0"%char ∨ c = "1"%char) l.

Definition bit (c : ascii) : Z := if decide (c = "1"%char) then 1 else 0.

Fixpoint lval (l : pystr) : Z :=
  match l with [] => 0 | c :: l' => bit c + 2 * lval l' end.

(** Most significant digit first. *)
Definition bval (l : pystr) : Z := lval (reverse l).

Lemma lval_app l k : lval (l ++ k) = lval l + 2 ^ Z.of_nat (length l) * lval k.
Proof.
  induction l as [|c l IH]; cbn [lval app length]; [lia|].
  rewrite IH, Nat2Z.inj_succ, Z.pow_succ_r by lia. lia.
Qed.

Lemma bval_app l k : bval (l ++ k) = bval l * 2 ^ Z.of_nat (length k) + bval k.
Proof. unfold bval. rewrite reverse_app, lval_app, length_reverse. lia. Qed.

Lemma bit_bounds c : 0 ≤ bit c ≤ 1.
Proof. unfold bit. case_decide; lia. Qed.

Lemma lval_bounds l : 0 ≤ lval l < 2 ^ Z.of_nat (length l).
Proof.
  induction l as [|c l IH]; cbn [lval length]; [lia|].
  pose proof (bit_bounds c). rewrite Nat2Z.inj_succ, Z.pow_succ_r by lia. lia.
Qed.

Lemma bval_bounds l : 0 ≤ bval l < 2 ^ Z.of_nat (length l).
Proof. unfold bval. rewrite <- length_reverse. apply lval_bounds. Qed.

Lemma lval_inj l k :
  is_bin l → is_bin k → length l = length k → lval l = lval k → l = k.
Proof.
  intros Hl. revert k. induction Hl as [|c l Hc _ IH]; intros [|d k] Hk Hlen Hv;
    try done.
  apply Forall_cons in Hk as [Hd Hk]. cbn [lval] in Hv.
  assert (bit c = bit d ∧ lval l = lval k) as [Hb Hv'].
  { pose proof (bit_bounds c); pose proof (bit_bounds d); lia. }
  f_equal; [|apply IH; naive_solver].
  destruct Hc as [-> | ->], Hd as [-> | ->]; done.
Qed.

Lemma is_bin_reverse l : is_bin (reverse l) ↔ is_bin l.
Proof. unfold is_bin. by rewrite Forall_reverse. Qed.

Lemma bval_inj l k :
  is_bin l → is_bin k → length l = length k → bval l = bval k → l = k.
Proof.
  intros Hl Hk Hlen Hv. rewrite <- (reverse_involutive l), <- (reverse_involutive k).
  f_equal. apply lval_inj; rewrite ?is_bin_reverse, ?length_reverse; done.
Qed.

Lemma lval_replicate n : lval (replicate n "0"%char) = 0.
Proof. induction n as [|n IH]; [done|]. cbn [replicate lval]. by rewrite IH. Qed.

Lemma bval_pad n l : bval (replicate n "0"%char ++ l) = bval l.
Proof.
  rewrite bval_app. unfold bval at 1.
  rewrite reverse_replicate, lval_replicate. lia.
Qed.

Lemma is_bin_replicate n : is_bin (replicate n "0"%char).
Proof. apply Forall_replicate. by left. Qed.

Lemma lval_no_one l : "1"%char ∉ l → lval l = 0.
Proof.
  induction l as [|c l IH]; intros Hn; [done|]. cbn [lval].
  rewrite IH by set_solver. unfold bit. rewrite decide_False by set_solver. lia.
Qed.

Lemma lval_one l : "1"%char ∈ l → 0 < lval l.
Proof.
  induction l as [|c l IH]; intros Hin; [set_solver|]. cbn [lval].
  pose proof (bit_bounds c). pose proof (lval_bounds l).
  apply elem_of_cons in Hin as [<-|Hin]; [|naive_solver lia].
  change (bit "1") with 1. lia.
Qed.

Lemma bval_no_one l : "1"%char ∉ l ↔ bval l = 0.
Proof.
  unfold bval. split.
  - intros Hn. apply lval_no_one. by rewrite elem_of_reverse.
  - intros Hv Hin. apply (Z.lt_irrefl 0). rewrite <- Hv at 2. apply lval_one.
    by rewrite elem_of_reverse.
Qed.

Lemma bin2int_bval l : l ≠ [] → is_bin l → bin2int l = Ok (bval l).
Proof.
  intros Hne Hl. unfold bin2int. rewrite bool_decide_eq_false_2 by done. clear Hne.
  assert (Hgen : ∀ acc, fold_res (λ acc c, d ← digit_of c; Ok (2 * acc + d)) acc l
                 = Ok (acc * 2 ^ Z.of_nat (length l) + bval l)).
  { induction Hl as [|c l Hc _ IH]; intros acc; cbn [fold_res length].
    - change (bval []) with 0. f_equal. lia.
    - assert (digit_of c = Ok (bit c)) as -> by (by destruct Hc as [-> | ->]).
      rewrite !bind_Ok, IH. change (c :: l) with ([c] ++ l). rewrite bval_app. change (bval [c]) with (bit c + 0).
      rewrite Nat2Z.inj_succ, Z.pow_succ_r by lia. f_equal; lia. }
  rewrite Hgen. f_equal; lia.
Qed.

(** *** [int2bin] *)
Lemma hex2bin_digit d :
  0 ≤ d < 16 →
  ∃ b, hex2bin (hex_digit d) = Ok b ∧ is_bin b ∧ bval b = d.
Proof.
  intros Hd.
  assert (∃ k : nat, (k < 16)%nat ∧ d = Z.of_nat k) as (k & Hk & ->).
  { exists (Z.to_nat d). lia. }
  do 16 (destruct k as [|k];
    [eexists; split_and!; [reflexivity|repeat constructor; naive_solver|reflexivity]|]).
  lia.
Qed.

Lemma hex_to_bits_digits fuel i acc ab :
  0 ≤ i < 16 ^ Z.of_nat fuel → (0 < fuel)%nat →
  hex_to_bits acc = Ok ab →
  ∃ b, hex_to_bits (hex_digits fuel i acc) = Ok (b ++ ab) ∧ is_bin b ∧ bval b = i.
Proof.
  revert i acc ab. induction fuel as [|fuel IH]; intros i acc ab Hi Hf Hacc; [lia|].
  cbn [hex_digits]. destruct (Z.ltb_spec i 16).
  - destruct (hex2bin_digit i) as (b & Hb & Hbin & Hv); [lia|].
    exists b. cbn [hex_to_bits]. by rewrite Hb, Hacc.
  - destruct (hex2bin_digit (i mod 16)) as (b & Hb & Hbin & Hv);
      [by apply Z.mod_pos_bound|].
    rewrite Nat2Z.inj_succ, Z.pow_succ_r in Hi by lia.
    destruct fuel as [|fuel]; [simpl in Hi; lia|].
    destruct (IH (i / 16) (hex_digit (i mod 16) :: acc) (b ++ ab))
      as (b' & Hb' & Hbin' & Hv').
    { split; [apply Z.div_pos; lia|apply Z.div_lt_upper_bound; lia]. }
    { lia. }
    { cbn [hex_to_bits]; by rewrite Hb, Hacc. }
    exists (b' ++ b). split_and!.
    + by rewrite Hb', app_assoc.
    + by apply Forall_app.
    + rewrite bval_app, Hv', Hv.
      assert (length b = 4%nat) as ->.
      2: { change (2 ^ Z.of_nat 4) with 16. pose proof (Z.div_mod i 16). lia. }
      clear -Hb. revert Hb. unfold hex2bin. repeat case_match; intros; by simplify_eq.
Qed.

Lemma hex_bits i :
  0 ≤ i →
  ∃ b, hex_to_bits (py_slice (hex i) 2 (py_len (hex i))) = Ok b ∧ is_bin b ∧ bval b = i.
Proof.
  intros Hi. unfold hex. destruct (Z.ltb_spec i 0); [lia|]. rewrite Z.abs_eq by done.
  rewrite (py_slice_from _ 2) by (simpl; lia). cbn [app drop].
  edestruct (hex_to_bits_digits (S (Z.to_nat (Z.log2 i))) i [] [])
    as (b & Hb & ?); [|lia|done|exists b; by rewrite app_nil_r in Hb].
  split; [done|]. pose proof (Z.log2_nonneg i).
  rewrite Nat2Z.inj_succ, Z2Nat.id by done.
  destruct (decide (i = 0)) as [->|]; [simpl; lia|].
  apply Z.lt_le_trans with (2 ^ Z.succ (Z.log2 i)); [apply Z.log2_spec; lia|].
  apply Z.pow_le_mono_l. lia.
Qed.

(** The two slices cut the digits [n] places from the right. *)
Lemma py_slice_upto (l : pystr) (n : nat) :
  (0 < n)%nat → py_slice l 0 (- Z.of_nat n) = take (length l - n) l.
Proof.
  intros. unfold py_slice. rewrite (py_clamp_nat _ 0) by lia. rewrite drop_0, Nat.sub_0_r.
  f_equal. unfold py_clamp, py_norm. rewrite bool_decide_eq_true_2 by lia. lia.
Qed.

Lemma py_slice_last (l : pystr) (n : nat) :
  (0 < n)%nat → py_slice l (- Z.of_nat n) (py_len l) = drop (length l - n) l.
Proof.
  intros. unfold py_slice, py_len. rewrite py_clamp_nat by lia.
  replace (py_clamp _ _) with (length l - n)%nat.
  - apply take_ge. rewrite length_drop. lia.
  - unfold py_clamp, py_norm. rewrite bool_decide_eq_true_2 by lia. lia.
Qed.

Lemma int2bin_cases i (n : nat) :
  0 ≤ i → (0 < n)%nat →
  ∃ R, is_bin R ∧ bval R = i ∧
    int2bin i (Z.of_nat n) =
      if bool_decide (bval (take (length R - n) R) ≠ 0) then Raise too_large
      else Ok (replicate (n - length (drop (length R - n) R)) "0"%char
               ++ drop (length R - n) R).
Proof.
  intros Hi Hn. destruct (hex_bits i Hi) as (R & HR & Hbin & Hv).
  exists R. split_and!; [done..|].
  unfold int2bin. rewrite HR, bind_Ok, py_slice_upto, py_slice_last by done.
  erewrite bool_decide_ext with (Q := bval (take (length R - n) R) ≠ 0).
  - case_bool_decide; [done|]. unfold py_len. do 3 f_equal. lia.
  - rewrite <- bval_no_one. destruct (decide ("1"%char ∈ take (length R - n) R)); naive_solver.
Qed.

Lemma high_bits_zero R w :
  bval (take (length R - w) R) = 0 ↔ bval R < 2 ^ Z.of_nat w.
Proof.
  set (t := take _ _). set (d := drop (length R - w) R).
  assert (bval R = bval t * 2 ^ Z.of_nat (length d) + bval d) as ->.
  { unfold t, d. by rewrite <- bval_app, take_drop. }
  pose proof (bval_bounds t). pose proof (bval_bounds d).
  destruct (decide (w < length R)%nat) as [Hlt|].
  - assert (length d = w) as Hd by (unfold d; rewrite length_drop; lia).
    rewrite Hd in *. split; [lia|]. intros. destruct (decide (bval t = 0)); [done|nia].
  - assert (t = []) as Ht by (unfold t; by replace (length R - w)%nat with 0%nat by lia).
    assert (2 ^ Z.of_nat (length d) ≤ 2 ^ Z.of_nat w).
    { apply Z.pow_le_mono_r; [lia|]. unfold d. rewrite length_drop. lia. }
    rewrite Ht. change (bval []) with 0. lia.
Qed.

Lemma int2bin_fits (i n : Z) :
  0 < n → 0 ≤ i →
  if bool_decide (i < 2 ^ n) then
    ∃ s, int2bin i n = Ok s ∧ py_len s = n ∧ is_bin s ∧ bin2int s = Ok i
  else int2bin i n = Raise too_large.
Proof.
  intros Hn Hi. rewrite <- (Z2Nat.id n) in * by lia. set (w := Z.to_nat n) in *.
  destruct (int2bin_cases i w) as (R & Hbin & Hv & Heq); [lia..|].
  pose proof (high_bits_zero R w) as Hhi. rewrite Hv in Hhi.
  destruct (decide (i < 2 ^ Z.of_nat w)) as [Hfit|Hfit].
  2: { rewrite (bool_decide_eq_false_2 (i < _)), Heq by done.
       rewrite bool_decide_eq_true_2; [done|]. by rewrite Hhi. }
  rewrite (bool_decide_eq_true_2 (i < _)), Heq by done.
  apply Hhi in Hfit. rewrite bool_decide_eq_false_2 by lia.
  assert (is_bin (replicate (w - length (drop (length R - w) R)) "0"%char
                  ++ drop (length R - w) R)) as Hout.
  { apply Forall_app; split; [apply is_bin_replicate|by apply Forall_drop]. }
  assert (length (replicate (w - length (drop (length R - w) R)) "0"%char
                  ++ drop (length R - w) R) = w) as Hlen.
  { rewrite length_app, length_replicate, length_drop. lia. }
  eexists; split_and!; [done|unfold py_len; by rewrite Hlen|done|].
  rewrite bin2int_bval; [|intros Hnil; rewrite Hnil in Hlen; simpl in Hlen; lia|done].
  f_equal. rewrite bval_pad.
  assert (bval (take (length R - w) R ++ drop (length R - w) R) = i) as Hsum
    by by rewrite take_drop.
  rewrite bval_app in Hsum. lia.
Qed.

(** [int2bin] followed by [bin2int] is the identity on every integer that
    fits the width, and the string has exactly the width; an integer that does
    not fit raises the documented [ValueError]. *)
Theorem int2bin_roundtrip (i n : Z) :
  0 < n → 0 ≤ i →
  if bool_decide (i < 2 ^ n) then
    ∃ s, int2bin i n = Ok s ∧ py_len s = n ∧ is_bin s ∧ bin2int s = Ok i
  else int2bin i n = Raise too_large.
Proof. apply int2bin_fits. Qed.

Lemma int2bin_roundtrip_witness :
  0 < 8 ∧ 0 ≤ 123 ∧
  ∃ s, int2bin 123 8 = Ok s ∧ py_len s = 8 ∧ is_bin s ∧ bin2int s = Ok 123.
Proof.
  split; [done|]; split; [done|].
  exact (int2bin_roundtrip 123 8 ltac:(done) ltac:(done)).
Defined.

(** With a width of zero both slices degenerate ([l[:-0]] is empty, [l[-0:]]
    is everything), so no value is refused. *)
Lemma int2bin_zero_width :
  int2bin 5 0 = Ok ["0"; "1"; "0"; "1"]%char.
Proof. reflexivity. Qed.

(** A negative number fails on the [x] of its hexadecimal form. *)
Lemma int2bin_negative (i n : Z) : i < 0 → int2bin i n = Raise KeyError.
Proof.
  intros Hi. unfold int2bin, hex. destruct (Z.ltb_spec i 0); [|lia].
  by rewrite (py_slice_from _ 2) by (simpl; lia).
Qed.

(** *** [binary_range] *)
Lemma lval_insert l i c d :
  l !! i = Some c → lval (<[i := d]> l) = lval l + (bit d - bit c) * 2 ^ Z.of_nat i.
Proof.
  revert i. induction l as [|e l IH]; intros [|i] Hi; try done; cbn in Hi.
  - simplify_eq. cbn [insert list_insert lval]. change (2 ^ Z.of_nat 0) with 1. lia.
  - cbn [lval]. change (<[S i := d]> (e :: l)) with (e :: <[i := d]> l). cbn [lval].
    rewrite (IH i Hi), Nat2Z.inj_succ, Z.pow_succ_r by lia. lia.
Qed.

(** State of the ripple loop at index [i]: with the carry still alive the
    value is one short of the successor by [2^i], otherwise it is the
    successor. *)
Definition ripple_inv (bits i : nat) (goal : Z) (v : pystr) (toggle : list Z) : Prop :=
  is_bin v ∧ length v = bits ∧ length toggle = S bits ∧ (i ≤ bits)%nat ∧
  (∀ j, (i < j ≤ bits)%nat → toggle !! j = Some 0) ∧
  ((toggle !! i = Some 1 ∧ lval v + 2 ^ Z.of_nat i = goal) ∨
   (toggle !! i = Some 0 ∧ lval v = goal)).

Lemma ripple_spec fuel bits i goal v toggle :
  (bits - i ≤ fuel)%nat →
  ripple_inv bits i goal v toggle →
  ∃ v' toggle', ripple fuel bits i v toggle = (v', toggle') ∧ is_bin v' ∧
    length v' = bits ∧
    ((toggle' !! bits = Some 1 ∧ lval v' + 2 ^ Z.of_nat bits = goal) ∨
     (toggle' !! bits = Some 0 ∧ lval v' = goal)).
Proof.
  assert (Hexit : ∀ i v toggle, ripple_inv bits i goal v toggle →
    i = bits ∨ toggle !! i ≠ Some 1 →
    (toggle !! bits = Some 1 ∧ lval v + 2 ^ Z.of_nat bits = goal) ∨
    (toggle !! bits = Some 0 ∧ lval v = goal)).
  { clear. intros i v toggle (_ & _ & _ & Hi & Hz & Hcase) [->|Hne]; [done|].
    destruct Hcase as [[??]|[Hti ?]]; [done|].
    destruct (decide (i = bits)) as [->|]; [by right|]. right. split; [apply Hz; lia|done]. }
  revert i v toggle. induction fuel as [|fuel IH]; intros i v toggle Hf Hinv; cbn [ripple].
  { exists v, toggle. pose proof Hinv as (?&?&?&?&_). split_and!; [done..|].
    eapply Hexit; [done|]. left. lia. }
  destruct (decide (i < bits)%nat) as [Hib|Hib]; cycle 1.
  { rewrite bool_decide_eq_false_2 by done. exists v, toggle.
    pose proof Hinv as (?&?&?&?&_). split_and!; [done..|].
    eapply Hexit; [done|]. left. lia. }
  rewrite bool_decide_eq_true_2 by done. cbn [andb].
  destruct (decide (toggle !! i = Some 1)) as [Ht|Ht]; cycle 1.
  { rewrite bool_decide_eq_false_2 by done. exists v, toggle.
    pose proof Hinv as (?&?&?&?&_). split_and!; [done..|].
    eapply Hexit; [done|]. by right. }
  rewrite bool_decide_eq_true_2 by done.
  destruct Hinv as (Hbin & Hlv & Hlt & _ & Hz & [[_ Hval]|[? _]]); [|congruence].
  destruct (lookup_lt_is_Some_2 v i) as [c Hc]; [lia|].
  assert (∀ d b, d = "0"%char ∨ d = "1"%char → (b = 1 ∨ b = 0) →
    lval v + (bit d - bit c) * 2 ^ Z.of_nat i + b * 2 ^ Z.of_nat (S i) = goal →
    ripple_inv bits (S i) goal (<[i := d]> v) (<[S i := b]> toggle)) as Hstep.
  { intros d b Hd Hb Hg. unfold ripple_inv. rewrite !length_insert. split_and!; [|done..| |].
    - apply Forall_insert; done.
    - intros j Hj. rewrite list_lookup_insert_ne by lia. apply Hz. lia.
    - rewrite list_lookup_insert_eq by lia. rewrite (lval_insert v i c d Hc).
      destruct Hb as [-> | ->]; [left|right]; (split; [done|lia]). }
  rewrite Nat2Z.inj_succ, Z.pow_succ_r in Hstep by lia.
  assert (c = "0"%char ∨ c = "1"%char) as Hc01
    by exact (Forall_lookup_1 _ _ _ _ Hbin Hc).
  destruct Hc01 as [-> | ->].
  - rewrite bool_decide_eq_true_2 by done. apply IH; [lia|]. apply Hstep; [by right|by right|].
    change (bit "1") with 1. change (bit "0") with 0. lia.
  - rewrite bool_decide_eq_false_2 by congruence. apply IH; [lia|]. apply Hstep; [by left|by left|].
    change (bit "1") with 1. change (bit "0") with 0. lia.
Qed.

(** One turn of the outer loop adds one to the vector, and raises the last
    toggle exactly when the width overflows. *)
Lemma ripple_increments bits v :
  is_bin v → length v = bits → (0 < bits)%nat →
  ∃ v' toggle', ripple bits bits 0 v (1 :: replicate bits 0) = (v', toggle') ∧
    is_bin v' ∧ length v' = bits ∧
    if bool_decide (lval v + 1 < 2 ^ Z.of_nat bits)
    then toggle' !! bits ≠ Some 1 ∧ lval v' = lval v + 1
    else toggle' !! bits = Some 1.
Proof.
  intros Hbin Hlen Hb.
  destruct (ripple_spec bits bits 0 (lval v + 1) v (1 :: replicate bits 0))
    as (v' & t' & Heq & Hbin' & Hlen' & Hcase); [lia|..].
  { unfold ripple_inv. cbn [length]. rewrite length_replicate. split_and!; try done; [lia|..].
    - intros [|j] Hj; [lia|]. cbn. apply lookup_replicate_2. lia.
    - by left. }
  exists v', t'. split_and!; [done..|].
  pose proof (lval_bounds v'). rewrite Hlen' in *.
  case_bool_decide; destruct Hcase as [[Ht Hv]|[Ht Hv]]; try lia; [|done].
  split; [congruence|done].
Qed.

Definition to_bits (bits : nat) (k : Z) : pystr :=
  default [] (match int2bin k (Z.of_nat bits) with Ok s => Some s | _ => None end).

Lemma to_bits_spec bits v k :
  (0 < bits)%nat → is_bin v → length v = bits → lval v = k →
  to_bits bits k = reverse v.
Proof.
  intros Hb Hbin Hlen Hv. pose proof (lval_bounds v) as Hk.
  pose proof (int2bin_fits k (Z.of_nat bits) ltac:(lia) ltac:(lia)) as Hrt.
  rewrite bool_decide_eq_true_2 in Hrt by (rewrite <- Hlen; lia).
  destruct Hrt as (s & Hs & Hsl & Hsb & Hsv). unfold to_bits. rewrite Hs. cbn.
  assert (length s = bits) as Hls by (unfold py_len in Hsl; lia).
  rewrite bin2int_bval in Hsv; [|intros ->; simpl in Hls; lia|done].
  apply bval_inj; [done|by apply is_bin_reverse|by rewrite length_reverse, Hls|].
  assert (bval s = k) as -> by congruence. unfold bval. by rewrite reverse_involutive.
Qed.

Lemma binary_loop_spec fuel bits (k : nat) v toggle l :
  (0 < bits)%nat → (k < 2 ^ bits)%nat → (2 ^ bits - k < fuel)%nat →
  is_bin v → length v = bits → lval v = Z.of_nat k → toggle !! bits ≠ Some 1 →
  binary_loop fuel bits v toggle l =
    Ok (l ++ map (λ j, to_bits bits (Z.of_nat j)) (seq k (2 ^ bits - k))).
Proof.
  intros Hb. revert k v toggle l.
  induction fuel as [|fuel IH]; intros k v toggle l Hk Hf Hbin Hlen Hv Ht; [lia|].
  cbn [binary_loop]. rewrite bool_decide_eq_false_2 by done.
  destruct (ripple_increments bits v Hbin Hlen Hb) as (v' & t' & -> & Hbin' & Hlen' & Hcase).
  replace (2 ^ bits - k)%nat with (S (2 ^ bits - S k)) by lia. cbn [seq map].
  rewrite (to_bits_spec bits v) by done.
  assert (2 ^ Z.of_nat bits = Z.of_nat (2 ^ bits)) as Hpow by (rewrite Nat2Z.inj_pow; done).
  case_bool_decide as Hlt.
  - destruct Hcase as [Ht' Hv']. rewrite (IH (S k)) by (done || lia). by rewrite <- app_assoc.
  - destruct fuel as [|fuel]; [lia|]. cbn [binary_loop]. rewrite bool_decide_eq_true_2 by done.
    replace (2 ^ bits - S k)%nat with 0%nat by lia. done.
Qed.

(** for a positive width [binary_range] terminates and returns every
    binary number of that width exactly once, in increasing order: it has
    [2 ^ bits] elements, its [k]-th one is [int2bin(k, bits)] and reads back as
    [k]. *)
Theorem binary_range_enumerates (bits : nat) :
  (0 < bits)%nat →
  ∃ l, binary_range bits = Ok l ∧ NoDup l ∧
    Forall2 (λ s k, int2bin (Z.of_nat k) (Z.of_nat bits) = Ok s ∧
                    bin2int s = Ok (Z.of_nat k)) l (seq 0 (2 ^ bits)).
Proof.
  intros Hb. exists (map (λ k, to_bits bits (Z.of_nat k)) (seq 0 (2 ^ bits))).
  assert (0 < 2 ^ bits)%nat by (apply Nat.neq_0_lt_0, Nat.pow_nonzero; done).
  assert (∀ k, (k < 2 ^ bits)%nat →
    int2bin (Z.of_nat k) (Z.of_nat bits) = Ok (to_bits bits (Z.of_nat k)) ∧
    bin2int (to_bits bits (Z.of_nat k)) = Ok (Z.of_nat k)) as Hbits.
  { intros k Hk. pose proof (int2bin_fits (Z.of_nat k) (Z.of_nat bits) ltac:(lia) ltac:(lia)) as H1.
    rewrite bool_decide_eq_true_2 in H1
      by (change 2 with (Z.of_nat 2); rewrite <- Nat2Z.inj_pow; lia).
    destruct H1 as (s & Hs & _ & _ & Hv). unfold to_bits. rewrite Hs. by split. }
  split_and!.
  - unfold binary_range. rewrite (binary_loop_spec _ bits 0); [by rewrite Nat.sub_0_r|try done..].
    + lia.
    + apply is_bin_replicate.
    + by rewrite length_replicate.
    + apply lval_replicate.
    + rewrite lookup_cons_ne_0 by lia. by intros [? _]%lookup_replicate_1.
  - apply NoDup_fmap_2_strong; [|apply NoDup_ListNoDup, seq_NoDup].
    intros k1 k2 H1%elem_of_seq H2%elem_of_seq Heq.
    destruct (Hbits k1 ltac:(lia)) as [_ Hk1], (Hbits k2 ltac:(lia)) as [_ Hk2].
    rewrite Heq, Hk2 in Hk1. injection Hk1. lia.
  - apply Forall2_fmap_l, Forall_Forall2_diag, Forall_forall.
    intros k Hk%elem_of_seq. apply Hbits. lia.
Qed.

Lemma binary_range_enumerates_witness :
  ∃ l, binary_range 2 = Ok l ∧ NoDup l ∧ length l = 4%nat.
Proof.
  destruct (binary_range_enumerates 2 ltac:(lia)) as (l & Hl & Hnd & H2).
  exists l. split; [exact Hl|]. split; [exact Hnd|]. apply (Forall2_length _ _ _ H2).
Defined.

(** At width zero the loop test is true at once and the list is empty. *)
Lemma binary_range_zero : binary_range 0 = Ok [].
Proof. reflexivity. Qed.

Lemma lsb_mod x n : 0 ≤ n → lsb x n = Ok (x mod 2 ^ n).
Proof.
  intros. unfold lsb. destruct (Z.ltb_spec n 0); [lia|]. f_equal. replace (2 ^ n - 1) with (Z.ones n) by (rewrite Z.ones_equiv; lia).
  by rewrite Z.land_ones by done.
Qed.

(** Characters in the opposite order. *)
Definition reverse (input_string : pystr) : pystr := reverse input_string.

End Binary.

(** ** Number theory *)
Module Numbers.

(** [while remainder and abs(remainder) > epsilon]: for integers the second
    test follows from the first, [epsilon] being below one. *)
Fixpoint gcf_loop (fuel : nat) (res remainder : Z) : result exn Z :=
  match fuel with
  | O => Raise Diverges
  | S fuel' =>
      if bool_decide (remainder ≠ 0) then
        gcf_loop fuel' remainder (res mod remainder)
      else Ok (Z.abs res)
  end.

Definition gcf (a b : Z) : result exn Z :=
  gcf_loop (S (Z.abs_nat (Z.min a b))) (Z.max a b) (Z.min a b).

Definition lcm (a b : Z) : result exn Z :=
  denom ← gcf a b;
  if bool_decide (denom = 0) then Ok 0 else Ok (a * (b / denom)).

Definition reduce_fraction (fraction : Z * Z) : result exn (Z * Z) :=
  let '(numerator, denominator) := fraction in
  g ← gcf numerator denominator;
  let common_factor := Z.abs g in
  if bool_decide (common_factor = 0) then Raise ZeroDivisionError
  else Ok (numerator / common_factor, denominator / common_factor).

Lemma gcf_loop_gcd fuel r m :
  (Z.abs_nat m < fuel)%nat → gcf_loop fuel r m = Ok (Z.gcd r m).
Proof.
  revert r m. induction fuel as [|fuel IH]; intros r m Hf; [lia|]. cbn [gcf_loop].
  case_bool_decide as Hm.
  - rewrite IH.
    + f_equal. by rewrite Z.gcd_comm, Z.gcd_mod, Z.gcd_comm.
    + pose proof (Z.mod_bound_or r m Hm). lia.
  - assert (m = 0) as -> by lia. by rewrite Z.gcd_0_r.
Qed.

Lemma gcf_gcd a b : gcf a b = Ok (Z.gcd a b).
Proof.
  unfold gcf. rewrite gcf_loop_gcd by lia. f_equal.
  destruct (Z.max_spec a b) as [[? ->]|[? ->]], (Z.min_spec a b) as [[? ->]|[? ->]];
    try lia; done || apply Z.gcd_comm.
Qed.

(** on integers of any sign the Euclidean loop of [gcf] terminates with
    the greatest common divisor, [lcm] is the least common multiple up to
    sign, and [reduce_fraction] returns the coprime pair that denotes the same
    fraction, or [ZeroDivisionError] on [(0, 0)] and only there. *)
Theorem gcf_family (a b : Z) :
  gcf a b = Ok (Z.gcd a b) ∧
  (∃ m, lcm a b = Ok m ∧ Z.abs m = Z.lcm a b) ∧
  if bool_decide (a = 0 ∧ b = 0) then reduce_fraction (a, b) = Raise ZeroDivisionError
  else ∃ n d, reduce_fraction (a, b) = Ok (n, d) ∧ n * b = a * d ∧ Z.gcd n d = 1.
Proof.
  split_and!; [apply gcf_gcd|..].
  - unfold lcm. rewrite gcf_gcd, bind_Ok. case_bool_decide as Hg; [|by eexists].
    apply Z.gcd_eq_0 in Hg as [-> ->]. by exists 0.
  - unfold reduce_fraction. rewrite gcf_gcd, bind_Ok.
    rewrite (Z.abs_eq (Z.gcd a b)) by apply Z.gcd_nonneg.
    case_bool_decide as Hab.
    + destruct Hab as [-> ->]. done.
    + assert (Z.gcd a b ≠ 0) as Hg by (rewrite Z.gcd_eq_0; naive_solver).
      rewrite bool_decide_eq_false_2 by done. do 2 eexists. split; [done|].
      destruct (Z.gcd_divide_l a b) as [p Hp], (Z.gcd_divide_r a b) as [q Hq].
      split.
      * clear Hab. revert Hp Hq Hg. generalize (Z.gcd a b).
        intros g -> -> Hg. rewrite !Z.div_mul by done. lia.
      * by apply Z.gcd_div_gcd.
Qed.

(** The sign is not normalised: the documented "least common multiple" can be
    negative. *)
Lemma lcm_negative : lcm (-2) 4 = Ok (-4).
Proof. reflexivity. Qed.

End Numbers.

(** ** Lists *)
Module Lists.
Section lists.
Context {A : Type}.

(** [zip( *matrix )] cut to the shortest row, as lists. *)
Definition transpose (matrix : list (list A)) : list (list A) :=
  match matrix with
  | [] => []
  | row :: rows =>
      let n := foldr Nat.min (length row) (map length rows) in
      map (λ i, omap (λ r : list A, r !! i) matrix) (seq 0 n)
  end.

Definition insert_at (i : nat) (x : A) (l : list A) : list A :=
  take i l ++ x :: drop i l.

Fixpoint permutations (input_list : list A) : list (list A) :=
  match input_list with
  | item :: (_ :: _) as rest =>
      flat_map
        (λ sub_list, map (λ i, insert_at i item sub_list) (seq 0 (length input_list)))
        (permutations rest)
  | _ => [input_list]
  end.

Context `{EqDecision A}.

(** The two loops of [find_common_fixes]; the second reads [s[-i]]. *)
Fixpoint prefix_loop (fuel i : nat) (s1 s2 acc : list A) : list A :=
  match fuel with
  | O => acc
  | S fuel' =>
      match s1 !! i, s2 !! i with
      | Some x, Some y =>
          if decide (x = y) then prefix_loop fuel' (S i) s1 s2 (acc ++ [x]) else acc
      | _, _ => acc
      end
  end.

Fixpoint suffix_loop (fuel i : nat) (s1 s2 acc : list A) : list A :=
  match fuel with
  | O => acc
  | S fuel' =>
      match py_index s1 (- Z.of_nat i), py_index s2 (- Z.of_nat i) with
      | Ok x, Ok y =>
          if decide (x = y) then suffix_loop fuel' (S i) s1 s2 (acc ++ [x]) else acc
      | _, _ => acc
      end
  end.

Definition find_common_fixes (s1 s2 : list A) : list A * list A :=
  let common_len := Nat.min (length s1) (length s2) in
  (prefix_loop common_len 0 s1 s2 [], reverse (suffix_loop common_len 1 s1 s2 [])).

Definition is_rotated (seq1 seq2 : list A) : result exn bool :=
  if negb (bool_decide (length seq1 = length seq2)) then Ok false
  else
    head_item ← py_index seq2 0;
    let start_indexes :=
      filter (λ i, seq1 !! i = Some head_item) (seq 0 (length seq1)) in
    let double_seq1 := seq1 ++ seq1 in
    Ok (existsb
          (λ i, bool_decide
             (py_slice double_seq1 (Z.of_nat i) (Z.of_nat (i + length seq1)) = seq2))
          start_indexes).

(** Removing duplicates: the fast paths need every item to be hashable, and
    the slow path is what runs after the [TypeError] of the first one that is
    not. *)
Fixpoint uniquify_seen (seen l : list A) : list A :=
  match l with
  | [] => []
  | x :: l' =>
      if decide (x ∈ seen) then uniquify_seen seen l'
      else x :: uniquify_seen (x :: seen) l'
  end.

Fixpoint uniquify_slow (result l : list A) : list A :=
  match l with
  | [] => result
  | x :: l' =>
      if decide (x ∈ result) then uniquify_slow result l'
      else uniquify_slow (result ++ [x]) l'
  end.

Definition uniquify `{Countable A} {ord : DictOrder A} (hashable : A → bool)
    (l : list A) (preserve_order : bool) : list A :=
  if forallb hashable l then
    if preserve_order then uniquify_seen [] l
    else dict_keys (foldl (λ d x, <[x := 0]> d) (∅ : gmap A Z) l)
  else uniquify_slow [] l.

Definition reverse_dict {V} `{Countable A, Countable V} {ord : DictOrder A}
    (d : gmap A V) : gmap V A :=
  foldl (λ result k, match d !! k with Some v => <[v := k]> result | None => result end)
    ∅ (dict_keys d).

End lists.

Local Open Scope nat_scope.

Lemma length_flat_map_const {A B} (f : A → list B) n (l : list A) :
  (∀ x, x ∈ l → length (f x) = n) → length (flat_map f l) = length l * n.
Proof.
  intros Hf. induction l as [|x l IH]; [done|].
  cbn [flat_map length]. rewrite length_app, Hf, IH by set_solver. lia.
Qed.

Section list_facts.
Context {A : Type}.
Implicit Types l k s : list A.

(** *** [permutations] *)
Lemma insert_at_perm i x l : i ≤ length l → insert_at i x l ≡ₚ x :: l.
Proof.
  intros. unfold insert_at. rewrite <- Permutation_middle. by rewrite take_drop.
Qed.

Lemma permutations_cons x y l :
  permutations (x :: y :: l) =
    flat_map (λ s, map (λ i, insert_at i x s) (seq 0 (S (length (y :: l)))))
      (permutations (y :: l)).
Proof. done. Qed.

Lemma permutations_sound l l' : l' ∈ permutations l → l' ≡ₚ l.
Proof.
  revert l'. induction l as [|x l IH]; intros l' Hin.
  { by apply list_elem_of_singleton in Hin as ->. }
  destruct l as [|y l]; [by apply list_elem_of_singleton in Hin as ->|].
  rewrite permutations_cons in Hin.
  apply list_elem_of_In, in_flat_map in Hin as (s & Hs & Hin).
  apply list_elem_of_In in Hs. apply IH in Hs.
  apply list_elem_of_In, list_elem_of_fmap in Hin as (i & -> & Hi).
  apply elem_of_seq in Hi. rewrite <- Hs in Hi |- *. apply insert_at_perm.
  revert Hi. generalize (length s). lia.
Qed.

Lemma permutations_complete l l' : l' ≡ₚ l → l' ∈ permutations l.
Proof.
  revert l'. induction l as [|x l IH]; intros l' Hp.
  { apply Permutation_nil_r in Hp as ->. set_solver. }
  destruct l as [|y l].
  { apply Permutation_singleton_r in Hp as ->. set_solver. }
  assert (x ∈ l') as Hx by (rewrite Hp; set_solver).
  apply list_elem_of_split in Hx as (l1 & l2 & ->).
  rewrite <- Permutation_middle in Hp. apply (inj (x ::.)) in Hp.
  rewrite permutations_cons. apply list_elem_of_In, in_flat_map.
  exists (l1 ++ l2). split; [by apply list_elem_of_In, IH|].
  apply list_elem_of_In, list_elem_of_fmap. exists (length l1). split.
  - unfold insert_at. by rewrite take_app_length, drop_app_length.
  - apply elem_of_seq. rewrite <- Hp, length_app. lia.
Qed.

Lemma permutations_count l : length (permutations l) = fact (length l).
Proof.
  induction l as [|x [|y l] IH]; [done..|].
  rewrite permutations_cons, (length_flat_map_const _ (S (length (y :: l)))).
  - rewrite IH. cbn [length fact]. lia.
  - intros s _. by rewrite length_map, length_seq.
Qed.

(** *** [is_rotated] *)
Definition rotated l k : Prop := ∃ a b, l = a ++ b ∧ k = b ++ a.

Lemma rotated_refl l : rotated l l.
Proof. exists l, []. by rewrite app_nil_r. Qed.

Lemma rotated_sym l k : rotated l k → rotated k l.
Proof. intros (a & b & -> & ->). by exists b, a. Qed.

Lemma rotated_length l k : rotated l k → length l = length k.
Proof. intros (a & b & -> & ->). rewrite !length_app. lia. Qed.

Lemma rotated_alt l k :
  l ≠ [] → rotated l k ↔ ∃ i, i < length l ∧ k = drop i l ++ take i l.
Proof.
  intros Hne. split.
  - intros (a & b & -> & ->). destruct b as [|y b].
    + exists 0. rewrite app_nil_r in *. cbn [app]. rewrite drop_0, take_0, app_nil_r.
      split; [destruct a; [done|simpl; lia]|done].
    + exists (length a). rewrite drop_app_length, take_app_length, length_app.
      simpl. split; [lia|done].
  - intros (i & _ & ->). exists (take i l), (drop i l). by rewrite take_drop.
Qed.

Lemma rotated_trans l k s : rotated l k → rotated k s → rotated l s.
Proof.
  intros (a & b & -> & ->) (c & d & Heq & ->).
  apply app_eq_inv in Heq as [(e & -> & ->)|(e & -> & ->)].
  - exists (a ++ c), e. by rewrite !app_assoc.
  - exists e, (d ++ b). by rewrite !app_assoc.
Qed.

Lemma rotated_elem l k x : rotated l k → x ∈ l ↔ x ∈ k.
Proof. intros (a & b & -> & ->). rewrite !elem_of_app. tauto. Qed.

Lemma double_slice l i :
  i < length l →
  py_slice (l ++ l) (Z.of_nat i) (Z.of_nat (i + length l)) = drop i l ++ take i l.
Proof.
  intros Hi. rewrite py_slice_nat by (rewrite length_app; lia).
  rewrite drop_app_le, take_app by lia. rewrite length_drop.
  rewrite (take_ge (drop i l)) by (rewrite length_drop; lia).
  f_equal. f_equal. lia.
Qed.

Lemma is_rotated_ok `{EqDecision A} l k :
  k ≠ [] → ∃ b, is_rotated l k = Ok b ∧ (b = true ↔ rotated l k).
Proof.
  intros Hk. unfold is_rotated. case_bool_decide as Hlen; cbn [negb]; cycle 1.
  { exists false. split; [done|]. split; [done|]. by intros ?%rotated_length. }
  destruct k as [|h k]; [done|]. change 0%Z with (Z.of_nat 0). rewrite py_index_nat.
  cbn [lookup list_lookup of_option]. rewrite bind_Ok. eexists. split; [done|].
  assert (l ≠ []) as Hl by (intros ->; done).
  rewrite rotated_alt by done. rewrite <- Is_true_true, existb_True, Exists_exists.
  split.
  - intros (i & Hi & Heq). apply list_elem_of_filter in Hi as [_ Hi].
    apply elem_of_seq in Hi. apply bool_decide_unpack in Heq.
    rewrite double_slice in Heq by lia. exists i. naive_solver lia.
  - intros (i & Hi & Heq). exists i. split.
    + apply list_elem_of_filter. split; [|apply elem_of_seq; lia].
      destruct (lookup_lt_is_Some_2 l i Hi) as [x Hx].
      rewrite (drop_S _ _ _ Hx) in Heq. naive_solver.
    + apply bool_decide_pack. by rewrite double_slice.
Qed.

(** *** [find_common_fixes] *)
Lemma prefix_loop_max `{EqDecision A} fuel i s1 s2 acc :
  Nat.min (length s1) (length s2) - i ≤ fuel →
  prefix_loop fuel i s1 s2 acc = acc ++ (max_prefix (drop i s1) (drop i s2)).2.
Proof.
  revert i acc. induction fuel as [|fuel IH]; intros i acc Hf; cbn [prefix_loop].
  - destruct (drop i s1) as [|x d1] eqn:H1, (drop i s2) as [|y d2] eqn:H2;
      try by rewrite app_nil_r.
    apply (f_equal length) in H1, H2. rewrite !length_drop in *. simpl in *. lia.
  - destruct (s1 !! i) as [x|] eqn:H1; cycle 1.
    { rewrite (drop_ge s1) by by apply lookup_ge_None.
      destruct (drop i s2); simpl; by rewrite app_nil_r. }
    rewrite (drop_S _ _ _ H1).
    destruct (s2 !! i) as [y|] eqn:H2; cycle 1.
    { rewrite (drop_ge s2) by by apply lookup_ge_None. simpl. by rewrite app_nil_r. }
    rewrite (drop_S _ _ _ H2). cbn [max_prefix].
    repeat case_decide; simplify_eq; [|by rewrite app_nil_r].
    rewrite IH by lia. rewrite <- app_assoc. cbn. by destruct (max_prefix _ _) as [[??]?].
Qed.

Lemma py_index_neg s i :
  py_index s (- Z.of_nat (S i)) = of_option IndexError (reverse s !! i).
Proof.
  unfold py_index, py_norm. rewrite (bool_decide_eq_true_2 (_ < 0)%Z) by lia.
  case_bool_decide.
  - rewrite reverse_lookup by lia. do 2 f_equal. lia.
  - rewrite (lookup_ge_None_2 (reverse s)); [done|]. rewrite length_reverse. lia.
Qed.

Lemma suffix_loop_reverse `{EqDecision A} fuel i s1 s2 acc :
  suffix_loop fuel (S i) s1 s2 acc = prefix_loop fuel i (reverse s1) (reverse s2) acc.
Proof.
  revert i acc. induction fuel as [|fuel IH]; intros i acc; [done|].
  cbn [suffix_loop prefix_loop]. rewrite !py_index_neg.
  destruct (reverse s1 !! i), (reverse s2 !! i); simpl; [|done..].
  by rewrite IH.
Qed.

(** *** [uniquify] *)
Lemma uniquify_seen_spec `{EqDecision A} seen l :
  NoDup (uniquify_seen seen l) ∧
  ∀ x, x ∈ uniquify_seen seen l ↔ x ∈ l ∧ x ∉ seen.
Proof.
  revert seen. induction l as [|x l IH]; intros seen; cbn [uniquify_seen].
  { split; [constructor|set_solver]. }
  case_decide; [set_solver|].
  destruct (IH (x :: seen)) as [Hnd Hel]. split; [constructor; set_solver|].
  intros y. rewrite !elem_of_cons, Hel, elem_of_cons. destruct (decide (y = x)); naive_solver.
Qed.

Lemma uniquify_slow_seen `{EqDecision A} res seen l :
  (∀ x, x ∈ res ↔ x ∈ seen) →
  uniquify_slow res l = res ++ uniquify_seen seen l.
Proof.
  revert res seen. induction l as [|x l IH]; intros res seen Heq;
    cbn [uniquify_slow uniquify_seen]; [by rewrite app_nil_r|].
  pose proof (Heq x) as Hx. do 2 case_decide; try tauto; [by apply IH|].
  rewrite (IH _ (x :: seen)), <- app_assoc; [done|set_solver].
Qed.

End list_facts.

(** [permutations] returns exactly the rearrangements of its argument,
    [n!] lists in all. *)
Theorem permutations_exact {A} (l l' : list A) :
  (l' ∈ permutations l ↔ l' ≡ₚ l) ∧ length (permutations l) = fact (length l).
Proof.
  split; [split; [apply permutations_sound|apply permutations_complete]|].
  apply permutations_count.
Qed.

(** on a non-empty second list [is_rotated] never raises and decides
    whether the second list is a rotation of the first; on two empty lists it
    raises [IndexError]. *)
Theorem is_rotated_decides {A} `{EqDecision A} (seq1 seq2 : list A) :
  (seq1 = [] ∧ seq2 = [] → is_rotated seq1 seq2 = Raise IndexError) ∧
  (seq1 ≠ [] ∨ seq2 ≠ [] →
   ∃ b, is_rotated seq1 seq2 = Ok b ∧ (b = true ↔ rotated seq1 seq2)).
Proof.
  split; [by intros [-> ->]|]. intros Hne.
  destruct seq2 as [|h k]; [|by apply is_rotated_ok].
  destruct seq1 as [|x l]; [naive_solver|]. exists false. split; [done|].
  split; [done|]. by intros ?%rotated_length.
Qed.

(** [find_common_fixes] returns the longest common prefix and the longest
    common suffix. *)
Theorem find_common_fixes_longest {A} `{EqDecision A} (s1 s2 p q : list A) :
  find_common_fixes s1 s2 = (p, q) →
  (∀ k, k `prefix_of` s1 ∧ k `prefix_of` s2 ↔ k `prefix_of` p) ∧
  (∀ k, k `suffix_of` s1 ∧ k `suffix_of` s2 ↔ k `suffix_of` q).
Proof.
  unfold find_common_fixes. rewrite suffix_loop_reverse.
  rewrite !prefix_loop_max by (rewrite ?length_reverse; lia).
  rewrite !drop_0. cbn [app]. intros [= <- <-].
  split; intros k.
  - split; [intros []; by apply max_prefix_max|].
    intros Hk. split; (etrans; [exact Hk|]);
      [apply max_prefix_fst_prefix|apply max_prefix_snd_prefix].
  - rewrite !suffix_prefix_reverse, reverse_involutive.
    split; [intros []; by apply max_prefix_max|].
    intros Hk. split; (etrans; [exact Hk|]);
      [apply max_prefix_fst_prefix|apply max_prefix_snd_prefix].
Qed.

Lemma find_common_fixes_longest_witness :
  find_common_fixes [1; 2; 3; 9] [1; 2; 7; 9] = ([1; 2], [9]) ∧
  (∀ k, k `prefix_of` [1; 2; 3; 9] ∧ k `prefix_of` [1; 2; 7; 9] ↔ k `prefix_of` [1; 2]) ∧
  (∀ k, k `suffix_of` [1; 2; 3; 9] ∧ k `suffix_of` [1; 2; 7; 9] ↔ k `suffix_of` [9]).
Proof.
  split; [reflexivity|].
  apply (find_common_fixes_longest [1; 2; 3; 9] [1; 2; 7; 9]). reflexivity.
Defined.

(** every path of [uniquify] (hashed or not, ordered or not, whatever the
    dictionary order) returns each item of the sequence exactly once. *)
Theorem uniquify_exact {A} `{DictOrderOk A} (hashable : A → bool) (l : list A) (p : bool) :
  NoDup (uniquify hashable l p) ∧ ∀ x, x ∈ uniquify hashable l p ↔ x ∈ l.
Proof.
  assert (Hseen : NoDup (uniquify_seen [] l) ∧ ∀ x, x ∈ uniquify_seen [] l ↔ x ∈ l).
  { destruct (uniquify_seen_spec [] l) as [??]. split; [done|set_solver]. }
  unfold uniquify. destruct (forallb hashable l).
  - destruct p; [exact Hseen|]. split; [apply dict_keys_NoDup|].
    intros x. rewrite elem_of_dict_keys.
    assert (Hgen : ∀ d : gmap A Z,
      is_Some (foldl (λ d x, <[x:=0%Z]> d) d l !! x) ↔ is_Some (d !! x) ∨ x ∈ l).
    { clear Hseen. induction l as [|y l IH]; intros d; [set_solver|]. simpl.
      rewrite IH, lookup_insert_is_Some', elem_of_cons. naive_solver. }
    rewrite Hgen, lookup_empty, is_Some_alt. naive_solver.
  - by rewrite (uniquify_slow_seen [] []).
Qed.

Lemma uniquify_exact_witness :
  NoDup (@uniquify Z _ _ _ tree_order (λ _, true) [3; 3; 1; 2]%Z false) ∧
  ∀ x, x ∈ @uniquify Z _ _ _ tree_order (λ _, true) [3; 3; 1; 2]%Z false
       ↔ x ∈ [3; 3; 1; 2]%Z.
Proof. apply (@uniquify_exact Z _ _ tree_order tree_order_ok). Defined.

End Lists.
