(* ===== verification/Measures.v ===== *)
(** * [bindings/python/rad_util.py]: measures, rounding and arguments

    The functions of the file on floats: [polygon_area], [quantile], [trim],
    [float_range], [round_grid], [nice_units], with [random_vec] and [get_args].
    A float is a rational ([Rat]); where the code distinguishes integers from
    floats the argument is a [num].  The random generator and the formatting of
    a number are arguments. *)

From S2P Require Import Prelude PyStr Rat RadUtil.
From Stdlib Require Import Ascii Qpower.

Local Open Scope Q_scope.

#[export] Instance Qle_dec : RelDecision Qle.
Proof. intros x y. destruct (Qlt_le_dec y x); [right; lra|by left]. Defined.

#[export] Instance Qle_total : Total Qle.
Proof. intros x y. destruct (Qlt_le_dec x y); [left; lra|by right]. Qed.

#[export] Instance Qle_trans' : Transitive Qle.
Proof. intros x y z. apply Qle_trans. Qed.

(** [l[:]; l.sort()]. *)
Definition sorted (l : list Q) : list Q := merge_sort Qle l.

(** ** [polygon_area] *)
Module Polygon.

Definition scale (precision : Z) (p : Q * Q) : Z * Z :=
  (py_int (p.1 * inject_Z precision), py_int (p.2 * inject_Z precision)).

(** The caller's list is overwritten with the scaled points, then closed. *)
Definition close (l : list (Z * Z)) : result exn (list (Z * Z)) :=
  a ← py_index l (-1);
  b ← py_index l 0;
  Ok (if bool_decide (a = b) then l else l ++ [b]).

(** One turn of the loop, on two consecutive points. *)
Definition add_area (area : Z) (e : (Z * Z) * (Z * Z)) : Z :=
  (area + e.2.1 * e.1.2 - e.2.2 * e.1.1)%Z.

Definition shoelace (l : list (Z * Z)) : Z := foldl add_area 0%Z (zip l (drop 1 l)).

(** The points the caller's list holds afterwards, and the area. *)
Definition polygon_area (points_list : list (Q * Q)) (precision : Z) :
    list (Z * Z) * result exn Q :=
  let l := scale precision <$> points_list in
  match close l with
  | Raise e => (l, Raise e)
  | Ok l =>
      let area := Z.abs (shoelace l / 2) in
      (l, if bool_decide (precision = 0%Z) then Raise ZeroDivisionError
          else Ok (inject_Z area / inject_Z (precision ^ 2)))
  end.
End Polygon.

(** ** [quantile] and [trim] *)
Definition quantile (l : list Q) (p : Q) : result exn Q :=
  let l_sort := sorted l in
  let n := py_len l in
  let r := 1 + inject_Z (n - 1) * p in
  let i := py_int r in
  let f := r - inject_Z i in
  if bool_decide (i < n)%Z then
    a ← py_index l_sort (i - 1);
    b ← py_index l_sort i;
    Ok ((1 - f) * a + f * b)
  else py_index l_sort (i - 1).

(** The median is computed, and only its exceptions matter. *)
Definition median (l_sort : list Q) : result exn Q :=
  let n := py_len l_sort in
  let index := (n / 2)%Z in
  if bool_decide (n mod 2 = 0)%Z then
    a ← py_index l_sort index;
    b ← py_index l_sort (index - 1);
    Ok ((a + b) / 2)
  else py_index l_sort index.

Definition in_interval (i q1 q3 x : Q) : bool := qle (q1 - i) x && qle x (q3 + i).

Definition trim (l : list Q) : result exn (list Q) :=
  let l_sort := sorted l in
  _ ← median l_sort;
  q1 ← quantile l_sort (1 # 4);
  q3 ← quantile l_sort (3 # 4);
  let iqr_extra := (q3 - q1) * (3 # 2) in
  Ok (filter (λ x, in_interval iqr_extra q1 q3 x = true) l_sort).

(** ** [float_range] *)
Definition float_range (start : Q) (stop step : option Q) : result exn (list Q) :=
  let '(start, stop) := match stop with None => (0, start) | Some s => (start, s) end in
  float_steps start (default 1 step) stop.

(** ** [round_grid] *)
Definition num_int (x : num) : Z := match x with Int z => z | Float q => py_int q end.

(** The variable [add_one] is assigned on some branches only. *)
Definition add_one (off_grid grid : num) (mode : Z) : option Z :=
  if bool_decide (mode = 0%Z) then
    Some (if qle (val grid / 2) (val off_grid) then 1%Z else 0%Z)
  else if bool_decide (mode = 1%Z) && negb (is_zero (val off_grid)) then Some 1%Z
  else if bool_decide (mode = (-1)%Z) && negb (is_zero (val off_grid)) then Some 0%Z
  else None.

Definition round_grid (value grid : num) (mode : Z) : result exn num :=
  off_grid ← num_mod value grid;
  q ← num_div value grid;
  k ← of_option UnboundLocalError (add_one off_grid grid mode);
  Ok (num_mul (Int (num_int q + k)) grid).

(** ** [nice_units] *)
Abbreviation prefix := (string * string)%type.

Definition ten (k : Z) : num := Float (Qpower 10 k).

Definition si_prefixes : list (num * prefix) :=
  [(ten 24, ("Y", "yotta")); (ten 21, ("Z", "zetta")); (ten 18, ("E", "exa"));
   (ten 15, ("P", "peta")); (ten 12, ("T", "tera")); (ten 9, ("G", "giga"));
   (ten 6, ("M", "mega")); (ten 3, ("k", "kilo")); (ten (-3), ("m", "milli"));
   (ten (-6), ("u", "micro")); (ten (-9), ("n", "nano")); (ten (-12), ("p", "pico"));
   (ten (-15), ("f", "femto")); (ten (-18), ("a", "atto")); (ten (-21), ("z", "zepto"));
   (ten (-24), ("y", "yocto"))].

Definition extra_prefixes : list (num * prefix) :=
  [(ten 2, ("h", "hecto")); (ten 1, ("da", "deka")); (ten (-1), ("d", "deci"));
   (ten (-2), ("c", "centi"))].

Definition bin_prefixes : list (num * prefix) :=
  [(Int (2 ^ 10), ("K", "kilo")); (Int (2 ^ 20), ("M", "mega")); (Int (2 ^ 30), ("G", "mega"));
   (Int (2 ^ 40), ("T", "tera")); (Int (2 ^ 50), ("P", "peta")); (Int (2 ^ 60), ("E", "exa"))].

Definition by_value (x y : num * prefix) : Prop := val x.1 <= val y.1.

#[export] Instance by_value_dec : RelDecision by_value.
Proof. intros x y. unfold by_value. apply _. Defined.

(** The prefixes in the order of their sorted multipliers, with unity. *)
Definition prefixes (bin use_extra_prefixes : bool) : list (num * prefix) :=
  merge_sort by_value
    ((Int 1, ("", "")) ::
     if bin then bin_prefixes
     else si_prefixes ++ (if use_extra_prefixes then extra_prefixes else [])).

(** The loop that looks for the multiplier; [mult] stays [None] whether it
    finds one or not, so the two tests after it are always made. *)
Fixpoint search_mult (value : num) (i : nat) (l : list (num * prefix)) : option nat :=
  match l with
  | lower :: ((upper :: _) as l') =>
      if qle (val lower.1) (val value) && qlt (val value) (val upper.1) then Some i
      else search_mult value (S i) l'
  | _ => None
  end.

Definition mult_index (value : num) (l : list (num * prefix)) : result exn nat :=
  first ← py_index l 0;
  last ← py_index l (-1);
  if qlt (val value) (val first.1) then Ok 0%nat
  else if qle (val last.1) (val value) then Ok (length l - 1)%nat
  else of_option UnboundLocalError (search_mult value 0 l).

(** [round(x, n)] rounds half away from zero. *)
Definition py_round (x : Q) (n : nat) : Q :=
  let p := inject_Z (10 ^ Z.of_nat n) in
  if qle 0 x then inject_Z (Qfloor (x * p + (1 # 2))) / p
  else - (inject_Z (Qfloor (- x * p + (1 # 2))) / p).

(** The number displayed and the prefix; [sigfigs] turns the special case off. *)
Definition choose_units (value : num) (dp : nat) (sigfigs : bool) (l : list (num * prefix)) :
    result exn (num * (num * prefix)) :=
  i ← mult_index value l;
  mult ← of_option IndexError (l !! i);
  new_value ← num_div value mult.1;
  match (if sigfigs then None else l !! S i) with
  | None => Ok (new_value, mult)
  | Some next =>
      ratio ← num_div next.1 mult.1;
      if Qeq_bool (py_round (val new_value) dp) (py_round (val ratio) dp)
      then new_value ← num_div value next.1; Ok (new_value, next)
      else Ok (new_value, mult)
  end.

(** [fmt] formats a number with [dp] decimals or [sigfigs] figures. *)
Definition nice_units (fmt : nat → option nat → Q → string) (value : num) (dp : nat)
    (sigfigs : option nat) (suffix space : string) (use_extra_prefixes use_full_name bin : bool) :
    result exn string :=
  '(new_value, (_, p)) ←
    choose_units value dp (bool_decide (is_Some sigfigs)) (prefixes bin use_extra_prefixes);
  Ok (fmt dp sigfigs (val new_value) +:+ space +:+ (if use_full_name then p.2 else p.1) +:+ suffix).

(** ** [random_vec] *)
Fixpoint random_chunks (rnd : nat → Q) (k : nat) : result exn (list ascii) :=
  match k with
  | O => Ok []
  | S k' =>
      v ← random_chunks rnd k';
      c ← Binary.int2bin (py_int (1024 * rnd k')) 10;
      Ok (v ++ c)
  end.

(** [rnd k] is the number drawn in round [k]. *)
Definition random_vec (rnd : nat → Q) (bits : Z) (max_value : option Z) : result exn (list ascii) :=
  vector ← random_chunks rnd (Z.to_nat (bits / 10 + 1));
  vector ←
    match max_value with
    | Some m =>
        if bool_decide (m ≠ 0%Z) && bool_decide (m < 2 ^ bits - 1)%Z then
          v ← Binary.bin2int vector;
          Binary.int2bin (v / (2 ^ bits - 1) * m) bits
        else Ok vector
    | None => Ok vector
    end;
  Ok (py_slice vector 0 bits).

(** ** [get_args] *)
Inductive arg_value := Value (s : string) | NoValue | Args (l : list string).

(** [re.sub(r'^-+', '', arg)]. *)
Fixpoint strip_dashes (s : string) : string :=
  match s with
  | String c s' => if decide (c = "-"%char) then strip_dashes s' else s
  | "" => ""
  end.

Definition option_of (arg : string) : string * arg_value :=
  match PyStr.split "="%char (strip_dashes arg) with
  | [k; v] => (k, Value v)
  | k :: _ => (k, NoValue)
  | [] => ("", NoValue)
  end.

Definition add_arg (st : gmap string arg_value * list string) (arg : string) :
    gmap string arg_value * list string :=
  if startswith "-" arg then
    let '(k, v) := option_of arg in (<[k := v]> st.1, st.2)
  else (st.1, st.2 ++ [arg]).

Definition get_args (argv : list string) : gmap string arg_value :=
  let '(d, args) := foldl add_arg (∅, []) argv in <["args" := Args args]> d.

(** ** Truncation *)
Lemma Qfloor_unique x z : inject_Z z <= x → x < inject_Z z + 1 → Qfloor x = z.
Proof.
  intros H1 H2. pose proof (Qfloor_le x) as F1. pose proof (Qlt_floor x) as F2.
  rewrite inject_Z_plus in F2. change (inject_Z 1) with 1 in F2.
  assert (inject_Z z < inject_Z (Qfloor x + 1)) as A.
  { rewrite inject_Z_plus. change (inject_Z 1) with 1. lra. }
  assert (inject_Z (Qfloor x) < inject_Z (z + 1)) as B.
  { rewrite inject_Z_plus. change (inject_Z 1) with 1. lra. }
  rewrite <- Zlt_Qlt in A, B. lia.
Qed.

Lemma Qfloor_add z x : Qfloor (inject_Z z + x) = (z + Qfloor x)%Z.
Proof.
  apply Qfloor_unique; rewrite inject_Z_plus; pose proof (Qfloor_le x);
    pose proof (Qlt_floor x) as H2; rewrite inject_Z_plus in H2; change (inject_Z 1) with 1 in H2; lra.
Qed.

(** ** The area of a polygon *)
Module PolygonArea.
Import Polygon.

Definition cross (a b : Z * Z) : Z := (b.1 * a.2 - b.2 * a.1)%Z.

Fixpoint path_sum (l : list (Z * Z)) : Z :=
  match l with
  | a :: ((b :: _) as l') => (cross a b + path_sum l')%Z
  | _ => 0%Z
  end.

Lemma path_sum_cons a b l : path_sum (a :: b :: l) = (cross a b + path_sum (b :: l))%Z.
Proof. done. Qed.

Lemma shoelace_path l : shoelace l = path_sum l.
Proof.
  unfold shoelace. assert (∀ acc, foldl add_area acc (zip l (drop 1 l)) = (acc + path_sum l)%Z) as H.
  { induction l as [|a l IH]; intros acc; [simpl; lia|].
    destruct l as [|b l]; [simpl; lia|]. change (drop 1 (b :: l)) with l in IH.
    change (zip (a :: b :: l) (drop 1 (a :: b :: l))) with ((a, b) :: zip (b :: l) l).
    cbn [foldl]. rewrite IH, path_sum_cons. unfold add_area, cross. cbn [fst snd]. lia. }
  apply H.
Qed.

Lemma path_sum_join l x r : path_sum (l ++ x :: r) = (path_sum (l ++ [x]) + path_sum (x :: r))%Z.
Proof.
  induction l as [|a [|b l] IH]; [done|simpl; lia|].
  cbn [app] in *. rewrite !path_sum_cons, IH. lia.
Qed.

(** The sum around the closed polygon. *)
Definition cycle_sum (l : list (Z * Z)) : Z :=
  match l with [] => 0%Z | a :: _ => path_sum (l ++ [a]) end.

Lemma cycle_sum_cons a l : cycle_sum (a :: l) = path_sum (a :: l ++ [a]).
Proof. done. Qed.

Lemma cross_same a : cross a a = 0%Z.
Proof. unfold cross. lia. Qed.

Lemma close_sum l : l ≠ [] → ∃ c, close l = Ok c ∧ shoelace c = cycle_sum l.
Proof.
  intros Hl. destruct l as [|x l _] using rev_ind; [done|]. unfold close.
  rewrite py_index_last. cbn [mbind result_bind]. destruct l as [|a l].
  - simpl. rewrite bool_decide_eq_true_2 by done. eexists. split; [done|].
    rewrite shoelace_path. simpl. by rewrite cross_same.
  - change (py_index ((a :: l) ++ [x]) 0) with (Ok a : result exn (Z * Z)). cbn [mbind result_bind].
    eexists. split; [done|]. rewrite shoelace_path. case_bool_decide as Hx; [|done]. subst x.
    change ((a :: l) ++ [a]) with (a :: (l ++ [a])). rewrite cycle_sum_cons, <- app_assoc.
    change (a :: l ++ [a] ++ [a]) with ((a :: l) ++ a :: [a]).
    rewrite path_sum_join. simpl. rewrite cross_same. lia.
Qed.

Lemma cycle_sum_rotate l1 l2 : cycle_sum (l1 ++ l2) = cycle_sum (l2 ++ l1).
Proof.
  destruct l1 as [|a l1]; [by rewrite app_nil_r|]. destruct l2 as [|b l2]; [by rewrite app_nil_r|].
  change ((a :: l1) ++ b :: l2) with (a :: (l1 ++ b :: l2)).
  change ((b :: l2) ++ a :: l1) with (b :: (l2 ++ a :: l1)).
  rewrite !cycle_sum_cons, <- !app_assoc.
  change (a :: l1 ++ (b :: l2) ++ [a]) with ((a :: l1) ++ b :: (l2 ++ [a])).
  change (b :: l2 ++ (a :: l1) ++ [b]) with ((b :: l2) ++ a :: (l1 ++ [b])).
  rewrite (path_sum_join (a :: l1) b), (path_sum_join (b :: l2) a). cbn [app]. lia.
Qed.

Definition shift (d : Z * Z) (p : Z * Z) : Z * Z := (p.1 + d.1, p.2 + d.2)%Z.

Lemma path_sum_shift d a l z :
  last (a :: l) = Some z →
  path_sum (shift d <$> a :: l) =
    (path_sum (a :: l) + d.2 * (z.1 - a.1) - d.1 * (z.2 - a.2))%Z.
Proof.
  revert a; induction l as [|b l IH]; intros a Hz.
  - simpl in Hz. injection Hz as <-. simpl. lia.
  - specialize (IH b Hz). rewrite !fmap_cons in *. rewrite !path_sum_cons, IH.
    unfold cross, shift. cbn [fst snd]. lia.
Qed.

Lemma cycle_sum_shift d l : cycle_sum (shift d <$> l) = cycle_sum l.
Proof.
  destruct l as [|a l]; [done|]. rewrite fmap_cons, !cycle_sum_cons.
  replace (shift d a :: (shift d <$> l) ++ [shift d a]) with (shift d <$> a :: (l ++ [a]))
    by (by rewrite fmap_cons, fmap_app).
  rewrite (path_sum_shift d a (l ++ [a]) a); [lia|].
  change (a :: l ++ [a]) with ((a :: l) ++ [a]). apply last_snoc.
Qed.

Lemma path_sum_reverse l : path_sum (reverse l) = (- path_sum l)%Z.
Proof.
  induction l as [|a [|b l] IH]; [done..|].
  rewrite reverse_cons, reverse_cons in *. rewrite <- app_assoc. cbn [app].
  rewrite path_sum_join, IH, !path_sum_cons. simpl. unfold cross. lia.
Qed.

Lemma cycle_sum_reverse l : cycle_sum (reverse l) = (- cycle_sum l)%Z.
Proof.
  destruct l as [|a l]; [done|].
  rewrite reverse_cons, cycle_sum_rotate. change ([a] ++ reverse l) with (a :: reverse l).
  rewrite !cycle_sum_cons, <- path_sum_reverse. f_equal.
  by rewrite reverse_cons, reverse_app.
Qed.

(** Points on the grid of the precision, which scaling recovers. *)
Definition grid_points (precision : Z) (l : list (Z * Z)) : list (Q * Q) :=
  (λ p, (inject_Z p.1 / inject_Z precision, inject_Z p.2 / inject_Z precision)) <$> l.

Definition area (precision : Z) (l : list (Z * Z)) : result exn Q :=
  (polygon_area (grid_points precision l) precision).2.

Lemma scale_grid precision l : (0 < precision)%Z → scale precision <$> grid_points precision l = l.
Proof.
  intros Hp. unfold grid_points. rewrite <- list_fmap_compose. rewrite <- (list_fmap_id l) at 2.
  apply list_fmap_ext. intros _ [x y] _. unfold scale; simpl.
  assert (~ inject_Z precision == 0) as Hn.
  { intros H. change 0 with (inject_Z 0) in H. rewrite inject_Z_injective in H. lia. }
  f_equal; apply py_int_inject; field; done.
Qed.

Lemma area_cycle precision l :
  (0 < precision)%Z → l ≠ [] →
  area precision l = Ok (inject_Z (Z.abs (cycle_sum l / 2)) / inject_Z (precision ^ 2)).
Proof.
  intros Hp Hl. unfold area, polygon_area. rewrite scale_grid by done.
  destruct (close_sum l Hl) as (c & -> & Hc). rewrite bool_decide_eq_false_2 by lia. simpl.
  by rewrite Hc.
Qed.

(** The area computed for a polygon with vertices on the grid of the
    precision does not change when the polygon is moved by a vector of the
    grid, nor with the vertex it starts from, whether or not it is given
    closed; reversed, it is the same when twice the area is even in grid
    units, which is when the integer division loses nothing. *)
Theorem polygon_area_invariant precision l d :
  (0 < precision)%Z → l ≠ [] →
  (∃ a, area precision l = Ok a ∧ 0 <= a) ∧
  area precision (shift d <$> l) = area precision l ∧
  (∀ l1 l2, l = l1 ++ l2 → area precision (l2 ++ l1) = area precision l) ∧
  (Z.even (cycle_sum l) = true → area precision (reverse l) = area precision l).
Proof.
  intros Hp Hl. split_and!.
  - rewrite area_cycle by done. eexists. split; [reflexivity|].
    apply Qle_shift_div_l; [change 0 with (inject_Z 0); rewrite <- Zlt_Qlt; nia|].
    rewrite Qmult_0_l. change 0 with (inject_Z 0). rewrite <- Zle_Qle. lia.
  - rewrite !area_cycle; [by rewrite cycle_sum_shift|done..|].
    by destruct l.
  - intros l1 l2 ->. rewrite !area_cycle; [by rewrite cycle_sum_rotate|done..|].
    destruct l1, l2; done.
  - intros Heven. rewrite !area_cycle; [|done..|].
    + rewrite cycle_sum_reverse. apply Z.even_spec in Heven as [k ->].
      replace (- (2 * k))%Z with (- k * 2)%Z by lia. rewrite (Z.mul_comm 2 k), !Z.div_mul by lia.
      by rewrite Z.abs_opp.
    + intros Hr. apply Hl. rewrite <- (reverse_involutive l), Hr. done.
Qed.

Lemma polygon_area_invariant_witness :
  area 100 [(0, 0); (300, 0); (300, 200)]%Z = area 100 [(300, 0); (300, 200); (0, 0)]%Z ∧
  area 100 [(300, 200); (300, 0); (0, 0)]%Z = area 100 [(0, 0); (300, 0); (300, 200)]%Z.
Proof.
  destruct (polygon_area_invariant 100 [(0, 0); (300, 0); (300, 200)]%Z (5, 7)%Z ltac:(lia)
    ltac:(discriminate)) as (_ & _ & Hrot & Hrev).
  split; [symmetry; exact (Hrot [(0, 0)]%Z _ eq_refl)|]. apply Hrev. reflexivity.
Defined.

(** Half a unit of the grid is lost or not depending on the direction. *)
Lemma area_depends_on_direction :
  area 1 [(0, 0); (1, 0); (0, 1)]%Z = Ok 1 ∧ area 1 [(0, 1); (1, 0); (0, 0)]%Z = Ok 0.
Proof. split; vm_compute; reflexivity. Qed.

(** The points of the caller are replaced by the scaled ones: the area of the
    same list, computed a second time, is that of a polygon 10000 times as large. *)
Lemma area_twice :
  let square := [(0, 0); (0, 1); (1, 1); (1, 0)] in
  let '(points, a) := polygon_area square 100 in
  a = Ok (10000 # 10000) ∧
  (polygon_area ((λ p, (inject_Z p.1, inject_Z p.2)) <$> points) 100).2 = Ok (100000000 # 10000).
Proof. vm_compute. split; reflexivity. Qed.
End PolygonArea.

(** ** Quantiles *)
Lemma sorted_permutation l : sorted l ≡ₚ l.
Proof. apply merge_sort_Permutation. Qed.

Lemma length_sorted l : length (sorted l) = length l.
Proof. by rewrite sorted_permutation. Qed.

Lemma sorted_le l i j a b :
  (i ≤ j)%nat → sorted l !! i = Some a → sorted l !! j = Some b → a <= b.
Proof.
  intros Hij Ha Hb. pose proof (StronglySorted_merge_sort Qle l) as Hs. fold (sorted l) in Hs.
  destruct (decide (i = j)) as [->|Hne]; [simplify_eq; lra|].
  revert i j Hij Hne Ha Hb. induction Hs as [|x s Hs IH Hx]; intros [|i] [|j] Hij Hne Ha Hb; try done;
    try lia; simpl in *.
  - injection Ha as <-. rewrite Forall_forall in Hx. apply Hx. by eapply list_elem_of_lookup_2.
  - eapply (IH i j); [lia|lia|done|done].
Qed.

(** The position of the quantile: [k] elements below, and the fraction [f] of
    the way to the next. *)
Lemma quantile_at l p :
  l ≠ [] → 0 <= p → p <= 1 →
  let x := inject_Z (py_len l - 1) * p in
  ∃ k a, sorted l !! k = Some a ∧ inject_Z (Z.of_nat k) <= x ∧ x < inject_Z (Z.of_nat k) + 1 ∧
    (sorted l !! S k = None ∧ quantile l p = Ok a ∨
     ∃ b, sorted l !! S k = Some b ∧
       quantile l p = Ok ((1 - (1 + x - inject_Z (Z.of_nat k + 1))) * a +
                          (1 + x - inject_Z (Z.of_nat k + 1)) * b)).
Proof.
  intros Hl H0 H1 x. assert (0 < py_len l)%Z as Hn by (destruct l; [done|unfold py_len; simpl; lia]).
  assert (0 <= inject_Z (py_len l - 1)) as Hn1.
  { change 0 with (inject_Z 0). rewrite <- Zle_Qle. lia. }
  assert (0 <= x) as Hx0 by (by apply Qmult_le_0_compat).
  assert (x <= inject_Z (py_len l - 1)) as Hx1.
  { rewrite <- (Qmult_1_r (inject_Z (py_len l - 1))). unfold x.
    rewrite (Qmult_comm _ p), (Qmult_comm _ 1). by apply Qmult_le_compat_r. }
  pose proof (Qfloor_le x) as F1. pose proof (Qlt_floor x) as F2.
  rewrite inject_Z_plus in F2. change (inject_Z 1) with 1 in F2.
  assert (0 ≤ Qfloor x)%Z as Hf0. { change 0%Z with (Qfloor 0). by apply Qfloor_resp_le. }
  assert (Qfloor x ≤ py_len l - 1)%Z as Hf1.
  { rewrite <- (Qfloor_Z (py_len l - 1)). by apply Qfloor_resp_le. }
  set (k := Z.to_nat (Qfloor x)). assert (Z.of_nat k = Qfloor x) as Ek by lia.
  destruct (lookup_lt_is_Some_2 (sorted l) k) as [a Ha].
  { rewrite length_sorted. unfold py_len in *. lia. }
  exists k, a. split_and!; [done|by rewrite Ek|by rewrite Ek|].
  assert (py_int (1 + x) = Z.of_nat k + 1)%Z as Ei.
  { rewrite py_int_nonneg by lra. change 1 with (inject_Z 1). rewrite Qfloor_add. lia. }
  unfold quantile. fold x. rewrite Ei.
  replace (Z.of_nat k + 1 - 1)%Z with (Z.of_nat k) by lia. rewrite !py_index_nat, Ha.
  case_bool_decide as Hlast; cbn [of_option mbind result_bind].
  - right. destruct (lookup_lt_is_Some_2 (sorted l) (S k)) as [b Hb].
    { rewrite length_sorted. unfold py_len in *. lia. }
    exists b. split; [done|]. replace (Z.of_nat k + 1)%Z with (Z.of_nat (S k)) by lia.
    rewrite py_index_nat, Hb. done.
  - left. split; [|done]. apply lookup_ge_None_2. rewrite length_sorted. unfold py_len in *. lia.
Qed.

(** [q] is the value at [x] of the interpolation of [s]. *)
Definition interpolates (s : list Q) (x q : Q) : Prop :=
  ∃ k a, s !! k = Some a ∧ inject_Z (Z.of_nat k) <= x ∧ x < inject_Z (Z.of_nat k) + 1 ∧
    (s !! S k = None ∧ q == a ∨
     ∃ b, s !! S k = Some b ∧ a <= b ∧ q == a + (x - inject_Z (Z.of_nat k)) * (b - a)).

Lemma quantile_interpolates l p :
  l ≠ [] → 0 <= p → p <= 1 →
  ∃ q, quantile l p = Ok q ∧ interpolates (sorted l) (inject_Z (py_len l - 1) * p) q.
Proof.
  intros Hl H0 H1.
  destruct (quantile_at l p Hl H0 H1) as (k & a & Ha & K1 & K2 & [[Hk ->]|(b & Hb & ->)]).
  - exists a. split; [done|]. exists k, a. split_and!; [done..|]. by left.
  - eexists. split; [reflexivity|]. exists k, a. split_and!; [done..|]. right. exists b.
    split_and!; [done|by eapply (sorted_le l k (S k)); [lia|..]|].
    rewrite inject_Z_plus. change (inject_Z 1) with 1. ring.
Qed.

Lemma interpolates_bounds l x q k :
  interpolates (sorted l) x q → inject_Z (Z.of_nat k) <= x →
  x < inject_Z (Z.of_nat k) + 1 →
  ∃ a, sorted l !! k = Some a ∧ a <= q ∧ ∀ b, sorted l !! S k = Some b → q <= b.
Proof.
  intros (k' & a & Ha & K1 & K2 & Hq) H1 H2.
  assert (Z.of_nat k' = Z.of_nat k) as E.
  { transitivity (Qfloor x); [symmetry|]; by apply Qfloor_unique. }
  apply Nat2Z.inj in E. subst k'. exists a. split; [done|].
  destruct Hq as [[Hn Eq]|(b & Hb & Hab & Eq)].
  - split; [lra|]. intros b. by rewrite Hn.
  - split.
    + assert (0 <= (x - inject_Z (Z.of_nat k)) * (b - a)); [apply Qmult_le_0_compat; lra|lra].
    + intros b'. rewrite Hb. intros [= <-].
      assert (0 <= (1 - (x - inject_Z (Z.of_nat k))) * (b - a)); [apply Qmult_le_0_compat; lra|lra].
Qed.

Lemma interpolates_monotone l x y q r :
  interpolates (sorted l) x q → interpolates (sorted l) y r → x <= y → q <= r.
Proof.
  intros Hq Hr Hxy. pose proof Hq as (k & a & Ha & K1 & K2 & Hqa).
  pose proof Hr as (m & c & Hc & M1 & M2 & Hrc).
  destruct (decide (k = m)) as [->|Hkm].
  - assert (c = a) as -> by congruence.
    destruct Hqa as [[Hn Eq]|(b & Hb & Hab & Eq)], Hrc as [[Hn' Er]|(b' & Hb' & _ & Er)];
      [lra|congruence..|].
    assert (b' = b) as -> by congruence.
    assert (0 <= (y - x) * (b - a)); [apply Qmult_le_0_compat; lra|lra].
  - assert (k < m)%nat as Hlt.
    { assert (inject_Z (Z.of_nat k) < inject_Z (Z.of_nat m + 1)) as H.
      { rewrite inject_Z_plus. change (inject_Z 1) with 1. lra. }
      rewrite <- Zlt_Qlt in H. lia. }
    destruct (interpolates_bounds l x q k Hq K1 K2) as (a' & _ & _ & Hup).
    destruct (interpolates_bounds l y r m Hr M1 M2) as (c' & Hc' & Hlow & _).
    assert (c' = c) as -> by congruence.
    destruct (lookup_lt_is_Some_2 (sorted l) (S k)) as [b Hb].
    { apply lookup_lt_Some in Hc. lia. }
    specialize (Hup b Hb). pose proof (sorted_le l (S k) m b c ltac:(lia) Hb Hc). lra.
Qed.

(** The quantile of a non-empty list at a fraction between 0 and 1 exists;
    it is the linear interpolation of the sorted list at [(n - 1) * p], so it is
    monotone in the fraction, at 0 it is no more than any element and at 1 no
    less. *)
Theorem quantile_spec l p p' :
  l ≠ [] → 0 <= p → p <= p' → p' <= 1 →
  ∃ q q', quantile l p = Ok q ∧ quantile l p' = Ok q' ∧ q <= q' ∧
    interpolates (sorted l) (inject_Z (py_len l - 1) * p) q ∧
    (∀ x, x ∈ l → (p == 0 → q <= x) ∧ (p' == 1 → x <= q')).
Proof.
  intros Hl H0 Hpp H1.
  destruct (quantile_interpolates l p Hl H0 ltac:(lra)) as (q & Hq & Iq).
  destruct (quantile_interpolates l p' Hl ltac:(lra) H1) as (q' & Hq' & Iq').
  assert (0 < py_len l)%Z as Hn by (destruct l; [done|unfold py_len; simpl; lia]).
  assert (0 <= inject_Z (py_len l - 1)) as Hn1.
  { change 0 with (inject_Z 0). rewrite <- Zle_Qle. lia. }
  exists q, q'. split_and!; [done..| |done|].
  { eapply interpolates_monotone; [done..|]. rewrite !(Qmult_comm (inject_Z _)).
    by apply Qmult_le_compat_r. }
  intros x Hx. rewrite <- sorted_permutation in Hx. apply list_elem_of_lookup in Hx as [i Hi].
  split; intros Hp.
  - destruct Iq as (k & a & Ha & K1 & K2 & Hqa).
    assert (inject_Z (py_len l - 1) * p == 0) as EX by (rewrite Hp; ring).
    rewrite EX in K1. change 0 with (inject_Z 0) in K1. rewrite <- Zle_Qle in K1.
    assert (k = 0%nat) as -> by lia. change (inject_Z (Z.of_nat 0)) with 0 in Hqa.
    pose proof (sorted_le l 0 i a x ltac:(lia) Ha Hi).
    destruct Hqa as [[_ Eq]|(b & _ & _ & Eq)]; [lra|]. rewrite EX in Eq. lra.
  - destruct Iq' as (k & a & Ha & K1 & K2 & Hqa).
    assert (inject_Z (py_len l - 1) * p' == inject_Z (py_len l - 1)) as EX by (rewrite Hp; ring).
    rewrite EX in K1, K2.
    assert (Z.of_nat k = py_len l - 1)%Z as Ek.
    { rewrite <- Zle_Qle in K1. assert (py_len l - 1 < Z.of_nat k + 1)%Z; [|lia].
      rewrite Zlt_Qlt, inject_Z_plus. done. }
    assert (i ≤ k)%nat as Hik.
    { apply lookup_lt_Some in Hi. rewrite length_sorted in Hi. unfold py_len in Ek. lia. }
    pose proof (sorted_le l i k x a Hik Hi Ha) as Hxa.
    destruct Hqa as [[_ Eq]|(b & Hb & _)]; [rewrite Eq; lra|].
    apply lookup_lt_Some in Hb. rewrite length_sorted in Hb. unfold py_len in Ek. lia.
Qed.

Lemma quantile_spec_witness :
  ∃ q q', quantile [4; 1; 3; 2] (1 # 4) = Ok q ∧ quantile [4; 1; 3; 2] (3 # 4) = Ok q' ∧
    q <= q' ∧ q == 7 # 4.
Proof.
  destruct (quantile_spec [4; 1; 3; 2] (1 # 4) (3 # 4)) as (q & q' & Hq & Hq' & Hle & _);
    [done..|].
  exists q, q'. split_and!; [done..|]. vm_compute in Hq. injection Hq as <-. reflexivity.
Defined.

(** [trim] keeps the values within one and a half interquartile ranges of the
    quartiles, in order; what lies between the quartiles is kept. *)
Lemma trim_spec l :
  l ≠ [] →
  ∃ q1 q3, quantile (sorted l) (1 # 4) = Ok q1 ∧ quantile (sorted l) (3 # 4) = Ok q3 ∧ q1 <= q3 ∧
    ∃ t, trim l = Ok t ∧ sublist t (sorted l) ∧
      ∀ x, x ∈ t ↔ x ∈ l ∧ q1 - (q3 - q1) * (3 # 2) <= x ∧ x <= q3 + (q3 - q1) * (3 # 2).
Proof.
  intros Hl. assert (sorted l ≠ []) as Hs.
  { intros E. apply Hl, length_zero_iff_nil. by rewrite <- length_sorted, E. }
  destruct (quantile_interpolates (sorted l) (1 # 4) Hs) as (q1 & H1 & I1); [done..|].
  destruct (quantile_interpolates (sorted l) (3 # 4) Hs) as (q3 & H3 & I3); [done..|].
  assert (0 < py_len (sorted l))%Z as Hn.
  { unfold py_len. destruct (sorted l); [done|simpl; lia]. }
  assert (q1 <= q3) as Hq.
  { eapply interpolates_monotone; [done..|]. rewrite !(Qmult_comm (inject_Z _)).
    apply Qmult_le_compat_r; [done|]. change 0 with (inject_Z 0). rewrite <- Zle_Qle. lia. }
  exists q1, q3. split_and!; [done..|]. unfold trim.
  assert (∃ m, median (sorted l) = Ok m) as [m ->].
  { unfold median. set (n := py_len (sorted l)) in *.
    assert (∀ i, (0 ≤ i < n)%Z → ∃ x, py_index (sorted l) i = Ok x) as Hix.
    { intros i Hi. destruct (lookup_lt_is_Some_2 (sorted l) (Z.to_nat i)) as [x Hx].
      { unfold n, py_len in Hi. lia. }
      exists x. rewrite <- (Z2Nat.id i) by lia. by rewrite py_index_nat, Hx. }
    pose proof (Z.div_mod n 2 ltac:(lia)). pose proof (Z.mod_pos_bound n 2 ltac:(lia)).
    case_bool_decide as He.
    - destruct (Hix (n / 2)%Z) as [a ->]; [lia|]. destruct (Hix (n / 2 - 1)%Z) as [b ->]; [lia|].
      eexists. reflexivity.
    - apply Hix. lia. }
  rewrite H1, H3. cbn [mbind result_bind]. eexists. split; [reflexivity|]. split.
  - apply sublist_filter.
  - intros x. rewrite list_elem_of_filter, sorted_permutation. unfold in_interval.
    rewrite andb_true_iff, !qle_iff. tauto.
Qed.

(** ** Progressions and grids *)

(** With a positive step the list is the arithmetic progression up to the bound. *)
Lemma float_range_spec start stop step :
  0 < step →
  ∃ l, float_range start (Some stop) (Some step) = Ok l ∧
    (∀ i a, l !! i = Some a → a == start + inject_Z (Z.of_nat i) * step ∧ a < stop) ∧
    stop <= start + inject_Z (Z.of_nat (length l)) * step.
Proof. apply float_steps_spec. Qed.

(** With any other step the loop does not end, whatever the fuel. *)
Lemma float_range_diverges n start stop step :
  start < stop → step <= 0 → float_loop n start step stop = Raise Diverges.
Proof.
  intros H Hs. revert start H; induction n as [|n IH]; intros start H; cbn [float_loop];
    (qcase; [|lra]); [done|]. by rewrite IH by lra.
Qed.

Lemma Qfloor_div a b : (0 < b)%Z → Qfloor (inject_Z a / inject_Z b) = (a / b)%Z.
Proof.
  intros Hb. pose proof (Z.div_mod a b ltac:(lia)) as E. pose proof (Z.mod_pos_bound a b Hb) as B.
  assert (0 < inject_Z b) as Hb' by (change 0 with (inject_Z 0); by rewrite <- Zlt_Qlt).
  apply Qfloor_unique.
  - apply Qle_shift_div_l; [done|]. rewrite <- inject_Z_mult, <- Zle_Qle. lia.
  - apply Qlt_shift_div_r; [done|]. change 1 with (inject_Z 1).
    rewrite <- inject_Z_plus, <- inject_Z_mult, <- Zlt_Qlt. lia.
Qed.

(** Integers, or a value that truncation rounds down. *)
Definition rounds_down (value grid : num) : Prop :=
  match value, grid with Int _, Int _ => True | _, _ => 0 <= val value end.

Lemma on_grid value grid :
  0 < val grid → rounds_down value grid →
  let k := Qfloor (val value / val grid) in
  ∃ off q, num_mod value grid = Ok off ∧ num_div value grid = Ok q ∧
    val off == val value - inject_Z k * val grid ∧ num_int q = k ∧
    0 <= val off ∧ val off < val grid.
Proof.
  intros Hg Hv k.
  assert (is_zero (val grid) = false) as Hz.
  { apply not_true_is_false. rewrite is_zero_spec. lra. }
  assert (0 <= val value - inject_Z k * val grid ∧ val value - inject_Z k * val grid < val grid)
    as [B1 B2].
  { pose proof (Qfloor_le (val value / val grid)) as F1. fold k in F1.
    pose proof (Qlt_floor (val value / val grid)) as F2. fold k in F2.
    rewrite inject_Z_plus in F2. change (inject_Z 1) with 1 in F2.
    assert (val value / val grid * val grid == val value) as E by (field; lra).
    apply (Qmult_le_compat_r _ _ (val grid)) in F1; [|lra]. rewrite E in F1.
    apply (Qmult_lt_r _ _ (val grid)) in F2; [|done]. rewrite E in F2. split; lra. }
  assert ((∀ a b, value = Int a → grid = Int b → False) → 0 <= val value → num_int
    (Float (val value / val grid)) = k) as Hfloat.
  { intros _ H0. simpl. apply py_int_nonneg. apply Qle_shift_div_l; [done|]. lra. }
  unfold num_mod, num_div. rewrite Hz.
  destruct value as [a|x], grid as [b|g]; simpl in *.
  - assert (0 < b)%Z as Hb by (change 0 with (inject_Z 0) in Hg; by rewrite <- Zlt_Qlt in Hg).
    eexists _, _. split; [done|]. split; [done|]. simpl.
    assert (k = (a / b)%Z) as Ek by (by apply Qfloor_div).
    assert (inject_Z (a mod b) == inject_Z a - inject_Z k * inject_Z b) as E.
    { rewrite Ek. unfold Qminus. rewrite <- inject_Z_mult, <- inject_Z_opp, <- inject_Z_plus.
      f_equiv. pose proof (Z.div_mod a b ltac:(lia)). lia. }
    rewrite E. split_and!; done.
  - eexists _, _. split_and!; try done. by apply Hfloat.
  - eexists _, _. split_and!; try done. by apply Hfloat.
  - eexists _, _. split_and!; try done. by apply Hfloat.
Qed.

Lemma val_mul_int z y : val (num_mul (Int z) y) == inject_Z z * val y.
Proof. destruct y; simpl; [by rewrite inject_Z_mult|done]. Qed.

(** For a positive grid, and integers or a value that is not negative:
    rounding to the nearest gives a multiple of the grid at most half a grid
    away, the upper one half-way between two; rounding up or down a value that
    is off the grid gives the neighbouring multiple, and for a value that is on
    the grid already it raises [UnboundLocalError]; any other mode does so
    always. *)
Theorem round_grid_spec value grid mode :
  0 < val grid → rounds_down value grid →
  let v := val value in
  let g := val grid in
  let k := Qfloor (v / g) in
  (mode = 0%Z → ∃ r m, round_grid value grid mode = Ok r ∧ val r == inject_Z m * g ∧
     v - g / 2 < val r ∧ val r <= v + g / 2) ∧
  (v == inject_Z k * g → mode ≠ 0%Z → round_grid value grid mode = Raise UnboundLocalError) ∧
  (~ v == inject_Z k * g →
     (∃ r, round_grid value grid 1 = Ok r ∧ val r == inject_Z (k + 1) * g ∧ v < val r) ∧
     (∃ r, round_grid value grid (-1) = Ok r ∧ val r == inject_Z k * g ∧ val r < v) ∧
     (mode ≠ 0%Z → mode ≠ 1%Z → mode ≠ (-1)%Z →
        round_grid value grid mode = Raise UnboundLocalError)).
Proof.
  intros Hg Hv v g k. destruct (on_grid value grid Hg Hv) as (off & q & Hm & Hd & Eo & Eq & B1 & B2).
  fold v g in Eo, B2, Eq. fold k in Eo, Eq.
  assert (∀ m, round_grid value grid m = j ← of_option UnboundLocalError (add_one off grid m);
    Ok (num_mul (Int (k + j)) grid)) as Hr'.
  { intros m. unfold round_grid. rewrite Hm, Hd. simpl. by rewrite Eq. }
  assert (~ v == inject_Z k * g → is_zero (val off) = false) as Hoff.
  { intros Hn. apply not_true_is_false. rewrite is_zero_spec. intros H. apply Hn. lra. }
  split_and!.
  - intros ->. rewrite Hr'. unfold add_one. rewrite bool_decide_eq_true_2 by done.
    assert (g / 2 * 2 == g) as Eg by field.
    pose proof (qle_spec (val grid / 2) (val off)) as Hle. fold g in Hle |- *.
    cbn [of_option mbind result_bind].
    destruct (qle (g / 2) (val off)); (eexists _, _; split; [reflexivity|]);
      (split; [apply val_mul_int|]); rewrite val_mul_int; fold g; rewrite inject_Z_plus;
      [change (inject_Z 1) with 1|change (inject_Z 0) with 0]; split; lra.
  - intros Hon Hmode. rewrite Hr'. unfold add_one.
    assert (is_zero (val off) = true) as -> by (apply is_zero_spec; lra).
    rewrite bool_decide_eq_false_2 by done. by rewrite !andb_false_r.
  - intros Hn. rewrite !Hr'. unfold add_one. rewrite (Hoff Hn). cbn [negb].
    rewrite !andb_true_r. split_and!.
    + eexists. split; [reflexivity|]. rewrite val_mul_int. fold g. split; [done|].
      rewrite inject_Z_plus. change (inject_Z 1) with 1. lra.
    + eexists. split; [reflexivity|]. rewrite val_mul_int, Z.add_0_r. fold g. split; [done|].
      assert (~ val off == 0) by (intros H; apply Hn; lra).
      assert (0 < val off); [|lra]. destruct (Qlt_le_dec 0 (val off)); [done|]. exfalso. lra.
    + intros H0 H1 H2. by rewrite !bool_decide_eq_false_2 by done.
Qed.

Lemma round_grid_spec_witness :
  (∃ r m, round_grid (Float (15 # 2)) (Int 5) 0 = Ok r ∧ val r == inject_Z m * 5 ∧
     (15 # 2) - 5 / 2 < val r ∧ val r <= (15 # 2) + 5 / 2) ∧
  round_grid (Int 10) (Int 5) 1 = Raise UnboundLocalError.
Proof.
  split.
  - destruct (round_grid_spec (Float (15 # 2)) (Int 5) 0 ltac:(done) ltac:(done)) as [H _].
    exact (H eq_refl).
  - destruct (round_grid_spec (Int 10) (Int 5) 1 ltac:(done) I) as (_ & H & _).
    by apply H; [vm_compute|].
Defined.

(** A negative float is truncated upwards, so the result is a grid too high. *)
Lemma round_grid_negative : round_grid (Float (-15 # 2)) (Int 5) 0 = Ok (Int 0).
Proof. vm_compute. reflexivity. Qed.

(** ** Units *)
Lemma pow_ten_pos n : 0 < inject_Z (10 ^ Z.of_nat n).
Proof. change 0 with (inject_Z 0). rewrite <- Zlt_Qlt. lia. Qed.

Lemma py_round_nonneg x n :
  0 <= x → py_round x n = inject_Z (Qfloor (x * inject_Z (10 ^ Z.of_nat n) + (1 # 2))) /
    inject_Z (10 ^ Z.of_nat n).
Proof. intros Hx. unfold py_round. by rewrite (proj2 (qle_iff 0 x) Hx). Qed.

Lemma py_round_mono x y n : 0 <= x → x <= y → py_round x n <= py_round y n.
Proof.
  intros Hx Hy. rewrite !py_round_nonneg by lra. pose proof (pow_ten_pos n) as Hp.
  apply Qmult_le_compat_r; [|apply Qinv_le_0_compat; lra]. rewrite <- Zle_Qle.
  apply Qfloor_resp_le. assert (x * inject_Z (10 ^ Z.of_nat n) <= y * inject_Z (10 ^ Z.of_nat n));
    [apply Qmult_le_compat_r; lra|lra].
Qed.

Lemma py_round_int x z n : (0 ≤ z)%Z → x == inject_Z z → py_round x n == inject_Z z.
Proof.
  intros Hz Hx. assert (0 <= inject_Z z) as Hz' by (change 0 with (inject_Z 0); by rewrite <- Zle_Qle).
  rewrite py_round_nonneg by lra. pose proof (pow_ten_pos n).
  assert (Qfloor (x * inject_Z (10 ^ Z.of_nat n) + (1 # 2)) = z * 10 ^ Z.of_nat n)%Z as ->.
  { apply Qfloor_unique; rewrite inject_Z_mult, Hx; lra. }
  rewrite inject_Z_mult. field. lra.
Qed.

(** A number that rounds to at least [r] is within half a unit below it. *)
Lemma py_round_ge x r n :
  0 <= x → inject_Z r <= py_round x n →
  inject_Z r * inject_Z (10 ^ Z.of_nat n) <= x * inject_Z (10 ^ Z.of_nat n) + (1 # 2).
Proof.
  intros Hx Hr. rewrite py_round_nonneg in Hr by done. pose proof (pow_ten_pos n) as Hp.
  set (P := inject_Z (10 ^ Z.of_nat n)) in *.
  pose proof (Qfloor_le (x * P + (1 # 2))) as Hf.
  apply (Qmult_le_compat_r _ _ P) in Hr; [|lra].
  assert (inject_Z (Qfloor (x * P + (1 # 2))) / P * P == inject_Z (Qfloor (x * P + (1 # 2)))) as E
    by (field; lra).
  lra.
Qed.

Lemma py_round_ge_one x n :
  0 <= x → inject_Z (10 ^ Z.of_nat n) <= x * inject_Z (10 ^ Z.of_nat n) + (1 # 2) →
  1 <= py_round x n.
Proof.
  intros Hx H. rewrite py_round_nonneg by done. pose proof (pow_ten_pos n).
  apply Qle_shift_div_l; [done|]. rewrite Qmult_1_l, <- Zle_Qle.
  apply Qfloor_resp_le in H. by rewrite Qfloor_Z in H.
Qed.

(** Each multiplier is positive and a whole number of times, at least ten, the
    one before it. *)
Definition ladder (l : list (num * prefix)) : Prop :=
  (∀ i m, l !! i = Some m → 0 < val m.1) ∧
  (∀ i m m', l !! i = Some m → l !! S i = Some m' →
     ∃ r, (10 ≤ r)%Z ∧ val m'.1 == inject_Z r * val m.1 ∧ num_div m'.1 m.1 = Ok (Float (val m'.1 / val m.1))) ∧
  (∀ i m, l !! i = Some m → ∀ v, ∃ w, num_div v m.1 = Ok w ∧ val w == val v / val m.1).

Lemma search_mult_cons v n a b l :
  search_mult v n (a :: b :: l) =
    if qle (val a.1) (val v) && qlt (val v) (val b.1) then Some n
    else search_mult v (S n) (b :: l).
Proof. done. Qed.

Lemma search_mult_spec v l first last n :
  l !! 0%nat = Some first → list.last l = Some last →
  val first.1 <= val v → val v < val last.1 →
  ∃ i m m', search_mult v n l = Some (n + i)%nat ∧ l !! i = Some m ∧ l !! S i = Some m' ∧
    val m.1 <= val v ∧ val v < val m'.1.
Proof.
  revert first n; induction l as [|a l IH]; intros first n Hf Hl H1 H2; [done|].
  simpl in Hf. injection Hf as ->. destruct l as [|b l].
  { simpl in Hl. injection Hl as ->. lra. }
  rewrite search_mult_cons. destruct (qle (val first.1) (val v) && qlt (val v) (val b.1)) eqn:E.
  - apply andb_true_iff in E as [E1%qle_iff E2%qlt_iff].
    exists 0%nat, first, b. rewrite Nat.add_0_r. done.
  - rewrite (proj2 (qle_iff _ _) H1) in E. simpl in E.
    pose proof (qlt_spec (val v) (val b.1)) as Hb. rewrite E in Hb.
    destruct (IH b (S n) eq_refl Hl Hb H2) as (i & m & m' & Hs & Hm & Hm' & B1 & B2).
    exists (S i), m, m'. rewrite Hs. split; [by rewrite Nat.add_succ_r|]. done.
Qed.

Lemma mult_index_spec v l first :
  l !! 0%nat = Some first → val first.1 <= val v →
  ∃ i m, mult_index v l = Ok i ∧ l !! i = Some m ∧ val m.1 <= val v ∧
    ∀ m', l !! S i = Some m' → val v < val m'.1.
Proof.
  intros Hf H1. unfold mult_index. change 0%Z with (Z.of_nat 0). rewrite py_index_nat, Hf.
  cbn [of_option mbind result_bind]. destruct l as [|last l _] using rev_ind; [done|].
  rewrite py_index_last. cbn [mbind result_bind].
  pose proof (qlt_spec (val v) (val first.1)) as Hlt. destruct (qlt _ _); [lra|].
  pose proof (qle_spec (val last.1) (val v)) as Hge. destruct (qle _ _).
  - exists (length l), last. rewrite length_app. simpl. split; [f_equal; lia|].
    split_and!; [by rewrite lookup_app_r, Nat.sub_diag by lia|done|].
    intros m' Hm'. apply lookup_lt_Some in Hm'. rewrite length_app in Hm'. simpl in Hm'. lia.
  - destruct (search_mult_spec v (l ++ [last]) first last 0 Hf) as (i & m & m' & Hs & Hm & Hm' & B1 & B2);
      [apply last_snoc|done|done|].
    exists i, m. rewrite Hs. split_and!; [done..|]. intros m'' E. by simplify_eq.
Qed.

Lemma choose_units_spec v dp l first :
  ladder l → l !! 0%nat = Some first → val first.1 <= val v →
  ∃ new i m, choose_units v dp false l = Ok (new, m) ∧ l !! i = Some m ∧
    val new * val m.1 == val v ∧ 1 <= py_round (val new) dp ∧
    ∀ m', l !! S i = Some m' → py_round (val new) dp < val m'.1 / val m.1.
Proof.
  intros (Hpos & Hratio & Hdiv) Hf Hv.
  destruct (mult_index_spec v l first Hf Hv) as (i & m & Hi & Hm & B1 & B2).
  unfold choose_units. rewrite Hi. cbn [mbind result_bind]. rewrite Hm. cbn [of_option mbind result_bind].
  destruct (Hdiv i m Hm v) as (new & -> & En). cbn [mbind result_bind].
  pose proof (Hpos i m Hm) as Pm. pose proof (pow_ten_pos dp) as PP.
  assert (val new * val m.1 == val v) as Emul by (rewrite En; field; lra).
  assert (1 <= val new) as H1. { rewrite En. apply Qle_shift_div_l; lra. }
  assert (1 <= py_round (val new) dp) as Hr1.
  { apply py_round_ge_one; [lra|]. set (P := inject_Z (10 ^ Z.of_nat dp)) in *.
    assert (1 * P <= val new * P); [apply Qmult_le_compat_r; lra|lra]. }
  destruct (l !! S i) as [next|] eqn:Hn; [|by exists new, i, m; rewrite Hn].
  destruct (Hratio i m next Hm Hn) as (r & Hr & Er & ->). cbn [mbind result_bind].
  assert (val next.1 / val m.1 == inject_Z r) as Ediv by (rewrite Er; field; lra).
  assert (10 <= inject_Z r) as Hr10 by (change 10 with (inject_Z 10); by rewrite <- Zle_Qle).
  pose proof (py_round_int (val next.1 / val m.1) r dp ltac:(lia) Ediv) as Eround.
  destruct (Qeq_bool _ _) eqn:Heq.
  - apply Qeq_bool_iff in Heq. change (val (Float (val next.1 / val m.1))) with (val next.1 / val m.1) in Heq.
    rewrite Eround in Heq.
    pose proof (Hpos _ _ Hn) as Pn. destruct (Hdiv _ _ Hn v) as (w & -> & Ew). cbn [mbind result_bind].
    exists w, (S i), next. split; [done|]. split; [done|]. split; [rewrite Ew; field; lra|].
    assert (val w * inject_Z r == val new) as Ewr by (rewrite Ew, En, Er; field; lra).
    assert (0 <= val w) as Hw0.
    { rewrite Ew. apply Qle_shift_div_l; [done|]. lra. }
    assert (val w < 1) as Hw1. { rewrite Ew. apply Qlt_shift_div_r; [done|]. specialize (B2 _ eq_refl). lra. }
    split.
    + apply py_round_ge_one; [done|].
      pose proof (py_round_ge (val new) r dp ltac:(lra) ltac:(lra)) as Hge.
      set (P := inject_Z (10 ^ Z.of_nat dp)) in *. rewrite <- Ewr in Hge.
      apply Qnot_lt_le. intros Hlt.
      assert ((val w * P + (1 # 2)) * inject_Z r < P * inject_Z r) as H2 by (apply Qmult_lt_r; lra).
      lra.
    + intros m' Hm'. destruct (Hratio _ _ _ Hn Hm') as (r' & Hr' & Er' & _).
      assert (val m'.1 / val next.1 == inject_Z r') as -> by (rewrite Er'; field; lra).
      assert (10 <= inject_Z r') by (change 10 with (inject_Z 10); by rewrite <- Zle_Qle).
      pose proof (py_round_mono (val w) 1 dp Hw0 ltac:(lra)) as Hmono.
      rewrite (py_round_int 1 1 dp) in Hmono by done. change (inject_Z 1) with 1 in Hmono. lra.
  - exists new, i, m. split_and!; [done..|]. intros m' Hm'. rewrite Hn in Hm'. injection Hm' as <-.
    specialize (B2 _ eq_refl).
    assert (val new <= val next.1 / val m.1) as Hle.
    { apply Qle_shift_div_l; [done|]. lra. }
    pose proof (py_round_mono (val new) _ dp ltac:(lra) Hle) as Hmono.
    apply Qnot_le_lt. intros Hge. apply Qeq_bool_neq in Heq. apply Heq.
    change (val (Float (val next.1 / val m.1))) with (val next.1 / val m.1). lra.
Qed.

Definition rung (a b : num * prefix) : bool :=
  match a.1, b.1 with
  | Int _, Int _ => false
  | _, _ =>
      Qeq_bool (val b.1) (inject_Z 10 * val a.1) || Qeq_bool (val b.1) (inject_Z 1000 * val a.1)
  end.

Fixpoint rungs (l : list (num * prefix)) : bool :=
  match l with a :: ((b :: _) as l') => rung a b && rungs l' | _ => true end.

Definition divides_exactly (m : num * prefix) : bool :=
  match m.1 with Int z => bool_decide (z = 1%Z) | Float q => qlt 0 q end.

Lemma divides_exactly_pos m : divides_exactly m = true → 0 < val m.1.
Proof.
  unfold divides_exactly. destruct (m.1) as [z|q]; simpl; [|apply qlt_iff].
  rewrite bool_decide_eq_true. by intros ->.
Qed.

Lemma rungs_lookup l i a b : rungs l = true → l !! i = Some a → l !! S i = Some b → rung a b = true.
Proof.
  revert i; induction l as [|x [|y l] IH]; intros [|i] Hr Ha Hb; simplify_eq/=; try done;
    apply andb_true_iff in Hr as [Hxy Hr]; [done|]. by apply (IH i).
Qed.

Lemma ladder_check l : forallb divides_exactly l && rungs l = true → ladder l.
Proof.
  rewrite andb_true_iff. intros [Hd Hr]. rewrite forallb_forall in Hd.
  assert (∀ i m, l !! i = Some m → divides_exactly m = true) as Hd'.
  { intros i m Hm. apply Hd, list_elem_of_In. by eapply list_elem_of_lookup_2. }
  split_and!.
  - intros i m Hm. by eapply divides_exactly_pos, Hd'.
  - intros i m m' Hm Hm'. pose proof (rungs_lookup _ _ _ _ Hr Hm Hm') as Hrung.
    pose proof (divides_exactly_pos _ (Hd' _ _ Hm)) as Hpos.
    assert (is_zero (val m.1) = false) as Hz.
    { apply not_true_is_false. rewrite is_zero_spec. lra. }
    unfold num_div. rewrite Hz. unfold rung in Hrung.
    destruct (m.1) as [z|q], (m'.1) as [z'|q']; try done;
      apply orb_true_iff in Hrung as [H|H]; apply Qeq_bool_iff in H;
      [exists 10%Z|exists 1000%Z|exists 10%Z|exists 1000%Z|exists 10%Z|exists 1000%Z];
      (split; [lia|by split]).
  - intros i m Hm v. pose proof (Hd' _ _ Hm) as Hm'.
    pose proof (divides_exactly_pos _ Hm') as Hpos.
    assert (is_zero (val m.1) = false) as Hz.
    { apply not_true_is_false. rewrite is_zero_spec. lra. }
    unfold num_div. rewrite Hz. unfold divides_exactly in Hm'.
    destruct v as [a|x], (m.1) as [z|q]; try (eexists; split; [reflexivity|]; done).
    apply bool_decide_eq_true in Hm' as ->. rewrite Z.div_1_r. eexists. split; [reflexivity|].
    simpl. change (inject_Z 1) with 1. field.
Qed.

(** With SI prefixes, with or without the extra ones, a value of at least
    10^-24 is displayed as a number and a multiplier whose product is the
    value, and the number, as it is rounded for display, is at least 1 and less
    than the step to the next multiplier: 999.9996 is never shown as 1000.000
    of the smaller unit. *)
Theorem nice_units_readable v dp extra :
  Qpower 10 (-24) <= val v →
  ∃ new i m, choose_units v dp false (prefixes false extra) = Ok (new, m) ∧
    prefixes false extra !! i = Some m ∧ val new * val m.1 == val v ∧
    1 <= py_round (val new) dp ∧
    ∀ m', prefixes false extra !! S i = Some m' → py_round (val new) dp < val m'.1 / val m.1.
Proof.
  intros Hv. apply (choose_units_spec v dp _ (ten (-24), ("y", "yocto"))); [|by destruct extra|done].
  apply ladder_check. destruct extra; vm_compute; reflexivity.
Qed.

Lemma nice_units_readable_witness :
  ∃ new i m, choose_units (Float (9999996 # 10000)) 3 false (prefixes false false) = Ok (new, m) ∧
    prefixes false false !! i = Some m ∧ m.2 = ("k", "kilo") ∧ 1 <= py_round (val new) 3.
Proof.
  destruct (nice_units_readable (Float (9999996 # 10000)) 3 false) as (new & i & m & Hc & Hi & _ & H1 & _);
    [by vm_compute|].
  exists new, i, m. split_and!; [done|done| |done].
  vm_compute in Hc. by injection Hc as <- <-.
Defined.

(** Integers in binary units are divided as integers, and a negative value gets
    the smallest prefix. *)
Lemma binary_units_truncate :
  choose_units (Int 1536) 1 false (prefixes true false) = Ok (Int 1, (Int 1024, ("K", "kilo"))).
Proof. vm_compute. reflexivity. Qed.

Lemma negative_value_in_yocto :
  ∃ new m, choose_units (Int (-5)) 0 false (prefixes false false) = Ok (new, m) ∧
    m.2 = ("y", "yocto") ∧ val new == - inject_Z (5 * 10 ^ 24).
Proof. eexists _, _. vm_compute. split; [reflexivity|]. split; reflexivity. Qed.

(** ** Random vectors *)
Lemma random_chunks_spec rnd k :
  (∀ i, 0 <= rnd i ∧ rnd i < 1) →
  ∃ v, random_chunks rnd k = Ok v ∧ length v = (10 * k)%nat ∧ Binary.is_bin v.
Proof.
  intros Hr. induction k as [|k (v & Hv & Hlen & Hbin)]; [exists []; split_and!; [done..|constructor]|].
  simpl. rewrite Hv. simpl. destruct (Hr k) as [H0 H1].
  destruct (py_int_bounds (1024 * rnd k) ltac:(lra)) as [B1 B2].
  assert (0 ≤ py_int (1024 * rnd k))%Z as P0.
  { rewrite py_int_nonneg by lra. change 0%Z with (Qfloor 0). apply Qfloor_resp_le. lra. }
  assert (py_int (1024 * rnd k) < 2 ^ 10)%Z as P1.
  { rewrite Zlt_Qlt. change (inject_Z (2 ^ 10)) with 1024. lra. }
  pose proof (Binary.int2bin_fits (py_int (1024 * rnd k)) 10 ltac:(lia) P0) as Hf.
  rewrite bool_decide_eq_true_2 in Hf by done. destruct Hf as (c & -> & Hc & Hcb & _).
  simpl. eexists. split; [reflexivity|]. rewrite length_app. unfold py_len in Hc.
  split; [lia|]. by apply Forall_app.
Qed.

(** Without a maximum the vector has the width asked for. *)
Lemma random_vec_width rnd bits :
  (∀ i, 0 <= rnd i ∧ rnd i < 1) → (0 ≤ bits)%Z →
  ∃ v, random_vec rnd bits None = Ok v ∧ py_len v = bits ∧ Binary.is_bin v.
Proof.
  intros Hr Hb. unfold random_vec.
  destruct (random_chunks_spec rnd (Z.to_nat (bits / 10 + 1)) Hr) as (v & -> & Hlen & Hbin).
  cbn [mbind result_bind]. pose proof (Z.div_mod bits 10 ltac:(lia)).
  pose proof (Z.mod_pos_bound bits 10 ltac:(lia)).
  eexists. split; [reflexivity|]. rewrite <- (Z2Nat.id bits) by lia. change 0%Z with (Z.of_nat 0).
  rewrite py_slice_nat by lia. rewrite drop_0, Nat.sub_0_r. split.
  - unfold py_len. rewrite length_take. lia.
  - by apply Forall_take.
Qed.

(** With a maximum the quotient of the draw by [2 ** bits - 1] is an integer, and
    the draw has more bits than asked for, so its product with the maximum can
    be too large for the width. *)
Lemma random_vec_overflows :
  random_vec (λ _, 1 # 2) 4 (Some 3%Z) = Raise Binary.too_large ∧
  random_vec (λ _, 1 # 2) 4 None = Ok ["1"; "0"; "0"; "0"]%char.
Proof. split; vm_compute; reflexivity. Qed.

(** ** Arguments *)
Lemma get_args_loop argv d args :
  foldl add_arg (d, args) argv =
    (foldl (λ d a, if startswith "-" a then <[(option_of a).1 := (option_of a).2]> d else d) d argv,
     args ++ filter (λ a, startswith "-" a = false) argv).
Proof.
  revert d args; induction argv as [|a argv IH]; intros d args; cbn [foldl].
  { by rewrite app_nil_r. }
  unfold add_arg at 2. destruct (startswith "-" a) eqn:Ha.
  - rewrite filter_cons_False by (by rewrite Ha). destruct (option_of a) as [k v]. apply IH.
  - rewrite filter_cons_True by done. cbn [fst snd]. by rewrite IH, <- app_assoc.
Qed.

(** [get_args] stores the words without a dash, in order, under ["args"],
    whatever options there are; under any other name it stores what the last
    option of that name says, its value when it has exactly one equals sign
    and nothing otherwise, and a name that no option has is absent. *)
Theorem get_args_spec argv k :
  get_args argv !! k =
    if decide (k = "args") then Some (Args (filter (λ a, startswith "-" a = false) argv))
    else snd ∘ option_of <$>
      list.last (filter (λ a, startswith "-" a = true ∧ (option_of a).1 = k) argv).
Proof.
  unfold get_args. rewrite get_args_loop. case_decide as Hk.
  { subst k. by rewrite lookup_insert_eq. }
  rewrite lookup_insert_ne by done. clear Hk.
  induction argv as [|a argv IH] using rev_ind; [done|].
  rewrite foldl_snoc, filter_app. destruct (startswith "-" a) eqn:Ha.
  - destruct (decide ((option_of a).1 = k)) as [Hk|Hk].
    + rewrite filter_cons_True, filter_nil by done. rewrite last_snoc, Hk. by rewrite lookup_insert_eq.
    + rewrite filter_cons_False, filter_nil, app_nil_r by (by intros [_ ?]).
      rewrite lookup_insert_ne by done.
      exact IH.
  - rewrite filter_cons_False, filter_nil, app_nil_r by (rewrite Ha; by intros [? _]). exact IH.
Qed.

(** A value with an equals sign is lost, and so is an option named [args]. *)
Lemma get_args_losses :
  get_args ["--expr=a=b"] !! "expr" = Some NoValue ∧
  get_args ["--args=3"; "x"] !! "args" = Some (Args ["x"]).
Proof. split; vm_compute; reflexivity. Qed.
