(* ===== verification/Topsort.v ===== *)
(** * [bindings/python/topsort.py]: dependency sorting and cycle finding

    The dictionaries are finite maps whose enumeration order is an arbitrary
    lawful [DictOrder]; the item type is any countable type.  [topsort] and
    [topsort_levels] are Kahn's algorithm in its two forms, [find_cycles] the
    stack-based search for elementary cycles. *)

From S2P Require Import Prelude RadUtil.

(** [CycleError] carries the arguments of the [raise]; every other exception
    is the interpreter's. *)
Inductive sort_exn (K : Type) `{Countable K} : Type :=
  | CycleError (answer : list K) (num_parents : gmap K Z) (children : gmap K (list K))
  | Py (e : exn).
Arguments CycleError {K _ _} answer num_parents children.
Arguments Py {K _ _} e.

Section model.
Context {K : Type} `{Countable K} {ord : DictOrder K}.

Record deps := Deps { num_parents : gmap K Z; children : gmap K (list K) }.

(** ** Counting parents and collecting children, one pair at a time *)
Definition add_pair (st : deps) (pair : K * K) : result exn deps :=
  let '(parent, child) := pair in
  let np := num_parents st in
  let np := if has_key np parent then np else <[parent := 0%Z]> np in
  let np := if has_key np child then np else <[child := 0%Z]> np in
  n ← dict_get KeyError np child;
  let np := <[child := (n + 1)%Z]> np in
  let siblings := default [] (children st !! parent) in
  Ok (Deps np (<[parent := siblings ++ [child]]> (children st))).

Definition count_parents (pairlist : list (K * K)) : result exn deps :=
  fold_res add_pair (Deps ∅ ∅) pairlist.

(** The items without a parent, in dictionary order. *)
Definition parentless (np : gmap K Z) : list K :=
  filter (λ x, np !! x = Some 0%Z) (dict_keys np).

(** ** [topsort] *)

(** The inner loop: knock down the parent count of every child, appending
    those that reach zero. *)
Definition knock_down (st : gmap K Z * list K) (child : K) :
    result exn (gmap K Z * list K) :=
  let '(np, answer) := st in
  n ← dict_get KeyError np child;
  let np := <[child := (n - 1)%Z]> np in
  Ok (np, if bool_decide (n - 1 = 0)%Z then answer ++ [child] else answer).

(** The outer loop runs over [answer], which grows inside the loop. *)
Fixpoint topsort_loop (fuel i : nat) (answer : list K) (st : deps) :
    result exn (list K * deps) :=
  match fuel with
  | O => Raise Diverges
  | S fuel' =>
      match answer !! i with
      | None => Ok (answer, st)
      | Some parent =>
          np ← dict_del KeyError (num_parents st) parent;
          if has_key (children st) parent then
            cs ← dict_get KeyError (children st) parent;
            '(np, answer) ← fold_res knock_down (np, answer) cs;
            topsort_loop fuel' (S i) answer (Deps np (delete parent (children st)))
          else topsort_loop fuel' (S i) answer (Deps np (children st))
      end
  end.

Definition lift_exn {A} (r : result exn A) : result (sort_exn K) A :=
  match r with Ok a => Ok a | Raise e => Raise (Py e) end.

Definition topsort (pairlist : list (K * K)) : result (sort_exn K) (list K) :=
  st ← lift_exn (count_parents pairlist);
  let answer := parentless (num_parents st) in
  '(answer, st) ← lift_exn (topsort_loop (S (size (num_parents st))) 0 answer st);
  if bool_decide (num_parents st ≠ ∅) then
    Raise (CycleError answer (num_parents st) (children st))
  else Ok answer.

(** ** [topsort_levels_core]: a generator

    The value is the list of levels yielded, then how the generator stops. *)
Inductive stop : Type :=
  | StopIteration
  | LevelCycle (num_parents : gmap K Z) (children : gmap K (list K))
  | LevelExn (e : exn).

Definition decrement (np : gmap K Z) (child : K) : result exn (gmap K Z) :=
  n ← dict_get KeyError np child; Ok (<[child := (n - 1)%Z]> np).

Definition retire (st : deps) (level_parent : K) : result exn deps :=
  np ← dict_del KeyError (num_parents st) level_parent;
  if has_key (children st) level_parent then
    cs ← dict_get KeyError (children st) level_parent;
    np ← fold_res decrement np cs;
    Ok (Deps np (delete level_parent (children st)))
  else Ok (Deps np (children st)).

Fixpoint topsort_levels_core (fuel : nat) (st : deps) : list (list K) * stop :=
  match fuel with
  | O => ([], LevelExn Diverges)
  | S fuel' =>
      match parentless (num_parents st) with
      | [] =>
          ([], if bool_decide (num_parents st ≠ ∅)
               then LevelCycle (num_parents st) (children st) else StopIteration)
      | level_parents =>
          match fold_res retire st level_parents with
          | Ok st' =>
              let '(levels, s) := topsort_levels_core fuel' st' in
              (level_parents :: levels, s)
          | Raise e => ([level_parents], LevelExn e)
          end
      end
  end.

Definition topsort_levels (pairlist : list (K * K)) : list (list K) * stop :=
  match count_parents pairlist with
  | Ok st => topsort_levels_core (S (size (num_parents st))) st
  | Raise e => ([], LevelExn e)
  end.

(** ** [find_cycles]: the cycles in the order they are yielded *)
Record search := Search { cycles : list (list K); visited_nodes : gset K; paths : list (list K) }.

(** [path[path.index(child):]], for a child that is in the path. *)
Fixpoint from_index (child : K) (path : list K) : list K :=
  match path with
  | [] => []
  | x :: path' => if decide (x = child) then path else from_index child path'
  end.

(** [for other_cycle in cycles: if is_rotated(other_cycle, cycle): ...] *)
Fixpoint is_dup (cycle : list K) (others : list (list K)) : result exn bool :=
  match others with
  | [] => Ok false
  | other_cycle :: others' =>
      b ← Lists.is_rotated other_cycle cycle;
      if b : bool then Ok true else is_dup cycle others'
  end.

Definition visit_child (path : list K) (s : search) (child : K) : result exn search :=
  if bool_decide (child ∈ path) then
    let cycle := from_index child path in
    dup ← is_dup cycle (cycles s);
    Ok (if dup : bool then s
        else Search (cycles s ++ [cycle]) (visited_nodes s) (paths s))
  else
    Ok (Search (cycles s) ({[child]} ∪ visited_nodes s) ((path ++ [child]) :: paths s)).

(** The stack [paths] is kept with its top first: [paths.pop()] takes the
    head and [paths.append] adds one. *)
Definition visit_path (parent_children : gmap K (list K)) (path : list K) (s : search) :
    result exn search :=
  parent ← py_index path (-1);
  match parent_children !! parent with
  | None => Ok s
  | Some cs => fold_res (visit_child path) s cs
  end.

Fixpoint search_loop (fuel : nat) (parent_children : gmap K (list K)) (s : search) :
    result exn search :=
  match fuel with
  | O => Raise Diverges
  | S fuel' =>
      match paths s with
      | [] => Ok s
      | path :: rest =>
          s ← visit_path parent_children path (Search (cycles s) (visited_nodes s) rest);
          search_loop fuel' parent_children s
      end
  end.

(** The search from one root is bounded by the number of paths without a
    repeated node: with [b] the largest number of children and [n] the number
    of nodes, [(b + 1) ^ n]. *)
Definition graph_nodes (parent_children : gmap K (list K)) : gset K :=
  dom parent_children ∪
  list_to_set (concat (map snd (map_to_list parent_children))).

Definition max_children (parent_children : gmap K (list K)) : nat :=
  foldr Nat.max 0 (map (λ kc, length kc.2) (map_to_list parent_children)).

Definition search_fuel (parent_children : gmap K (list K)) : nat :=
  S ((S (max_children parent_children)) ^ size (graph_nodes parent_children)).

Definition search_root (parent_children : gmap K (list K)) (s : search) (parent : K) :
    result exn search :=
  if bool_decide (parent ∈ visited_nodes s) then Ok s
  else
    search_loop (search_fuel parent_children) parent_children
      (Search (cycles s) (visited_nodes s) [[parent]]).

Definition find_cycles (parent_children : gmap K (list K)) : result exn (list (list K)) :=
  s ← fold_res (search_root parent_children) (Search [] ∅ []) (dict_keys parent_children);
  Ok (cycles s).

End model.
Arguments deps K {_ _}.
Arguments stop K {_ _}.
Arguments search K {_ _}.


(** ** Kahn's algorithm, abstractly

    [rem] are the pairs whose parent is not finished yet, [live] the items
    that are not; [kids] the children of an item in pair order. *)
Section kahn.
Context {K : Type} `{Countable K}.
Implicit Types (pairs rem : list (K * K)) (live : gset K) (x p : K).

Definition edge pairs : relation K := λ p x, (p, x) ∈ pairs.
Definition nodes pairs : gset K := list_to_set (pairs.*1 ++ pairs.*2).
Definition kids rem p : list K := (filter (λ e : K * K, e.1 = p) rem).*2.
Definition without rem p : list (K * K) := filter (λ e : K * K, e.1 ≠ p) rem.
Definition parents_left rem x : nat := count x rem.*2.

(** Every item of [done] comes after all its parents. *)
Definition ordered pairs (done : list K) : Prop :=
  ∀ i x p, done !! i = Some x → edge pairs p x → p ∈ take i done.

Record kahn pairs (done : list K) rem live : Prop := {
  kahn_NoDup : NoDup done;
  kahn_ordered : ordered pairs done;
  kahn_live : ∀ x, x ∈ live ↔ x ∈ nodes pairs ∧ x ∉ done;
  kahn_nodes : ∀ x, x ∈ done → x ∈ nodes pairs;
  kahn_rem : ∀ p x, (p, x) ∈ rem ↔ (p, x) ∈ pairs ∧ p ∈ live;
  kahn_closed : ∀ p x, (p, x) ∈ rem → x ∈ live;
  kahn_filter : rem = filter (λ e : K * K, e.1 ∉ done) pairs }.

Lemma edge_nodes pairs p x : edge pairs p x → p ∈ nodes pairs ∧ x ∈ nodes pairs.
Proof.
  unfold edge, nodes. intros He. rewrite !elem_of_list_to_set, !elem_of_app, !list_elem_of_fmap.
  split; [left|right]; by exists (p, x).
Qed.

Lemma parents_left_pos rem x : 0 < parents_left rem x ↔ ∃ p, (p, x) ∈ rem.
Proof.
  unfold parents_left. rewrite count_pos, list_elem_of_fmap. split.
  - intros ([p y] & -> & ?). eauto.
  - intros [p ?]. by exists (p, x).
Qed.

Lemma elem_of_kids rem p x : x ∈ kids rem p ↔ (p, x) ∈ rem.
Proof.
  unfold kids. rewrite list_elem_of_fmap. split.
  - intros ([q y] & -> & Hin). apply list_elem_of_filter in Hin as [<- ?]. done.
  - intros Hin. exists (p, x). by rewrite list_elem_of_filter.
Qed.

Lemma elem_of_without rem p q x : (q, x) ∈ without rem p ↔ q ≠ p ∧ (q, x) ∈ rem.
Proof. unfold without. by rewrite list_elem_of_filter. Qed.

Lemma kids_without_perm rem p : kids rem p ++ (without rem p).*2 ≡ₚ rem.*2.
Proof.
  unfold kids, without. rewrite <- fmap_app. apply fmap_Permutation.
  induction rem as [|e rem IH]; [done|]. rewrite !filter_cons.
  destruct (decide (e.1 = p)) as [He|He].
  - rewrite (decide_False (P := e.1 ≠ p)) by tauto. cbn [app]. by rewrite IH.
  - rewrite (decide_True (P := e.1 ≠ p)) by done. by rewrite <- Permutation_middle, IH.
Qed.

Lemma kids_without rem p q : kids (without rem p) q = if decide (q = p) then [] else kids rem q.
Proof.
  unfold kids, without. case_decide as Hqp.
  - subst. rewrite list_filter_filter. rewrite (list_filter_iff _ (λ _, False)) by naive_solver.
    by induction rem.
  - f_equal. rewrite list_filter_filter. apply list_filter_iff. naive_solver.
Qed.

Lemma kahn_init pairs : kahn pairs [] pairs (nodes pairs).
Proof.
  split.
  - constructor.
  - intros i x p Hi. by rewrite lookup_nil in Hi.
  - set_solver.
  - set_solver.
  - intros p x. split; [|tauto]. intros He. split; [done|]. by apply edge_nodes in He as [??].
  - intros p x He. by apply edge_nodes in He as [??].
  - induction pairs as [|e pairs IH]; [done|].
    rewrite filter_cons, decide_True, <- IH by set_solver. done.
Qed.

(** Finishing an item that has no unfinished parent keeps the invariant. *)
Lemma kahn_step pairs done rem live p :
  kahn pairs done rem live → p ∈ live → parents_left rem p = 0 →
  kahn pairs (done ++ [p]) (without rem p) (live ∖ {[p]}).
Proof.
  intros [Hnd Hord Hlive Hnodes Hrem Hclosed Hfilter] Hp Hcount.
  assert (Hno : ∀ q, (q, p) ∉ rem).
  { intros q Hq. assert (0 < parents_left rem p); [|lia]. apply parents_left_pos. eauto. }
  split.
  - apply NoDup_app. split_and!; [done|set_solver|]. apply NoDup_singleton.
  - intros i x q Hi Hq. destruct (decide (i < length done)) as [Hlt|Hge].
    + rewrite lookup_app_l in Hi by done. rewrite take_app_le by lia. by eapply Hord.
    + rewrite lookup_app_r in Hi by lia. apply list_lookup_singleton_Some in Hi as [Hi <-].
      replace i with (length done) by lia. rewrite take_app_length.
      destruct (decide (q ∈ done)) as [|Hqd]; [done|]. destruct (Hno q). apply Hrem.
      split; [done|]. apply Hlive. split; [by eapply edge_nodes in Hq as [??]|done].
  - intros x. rewrite elem_of_difference, Hlive, elem_of_app. set_solver.
  - intros x. rewrite elem_of_app, list_elem_of_singleton. intros [?| ->]; [by apply Hnodes|].
    by apply Hlive in Hp as [??].
  - intros q x. rewrite elem_of_without, Hrem. set_solver.
  - intros q x [Hqp Hin]%elem_of_without. rewrite elem_of_difference, elem_of_singleton.
    split; [by eapply Hclosed|]. intros ->. by eapply Hno.
  - unfold without. rewrite Hfilter, list_filter_filter. apply list_filter_iff.
    intros e. rewrite elem_of_app, list_elem_of_singleton. tauto.
Qed.

(** When nothing is ready but something is live there is a cycle. *)
Lemma kahn_stuck pairs done rem live :
  kahn pairs done rem live → (∀ x, x ∈ live → parents_left rem x ≠ 0) → live ≠ ∅ →
  ∃ x, tc (edge pairs) x x.
Proof.
  intros HK Hstuck Hne. apply set_choose_L in Hne as [x0 Hx0].
  apply (predecessor_cycle _ live x0 Hx0). intros x Hx.
  destruct (proj1 (parents_left_pos rem x)) as [p Hp]; [specialize (Hstuck x Hx); lia|].
  exists p. by apply (kahn_rem _ _ _ _ HK) in Hp as [? ?].
Qed.

(** An ordering of all the nodes excludes a cycle. *)
Lemma ordered_before pairs done p x :
  NoDup done → ordered pairs done → x ∈ done → tc (edge pairs) p x → before p x done.
Proof.
  intros Hnd Hord Hx Htc. induction Htc as [p x He|p y x He Htc IH].
  - apply list_elem_of_lookup in Hx as [j Hj].
    destruct (proj1 (elem_of_take_lookup _ _ _) (Hord j x p Hj He)) as (i & Hi & Hip).
    by exists i, j.
  - destruct (IH Hx) as (i & j & Hij & Hi & Hj).
    destruct (proj1 (elem_of_take_lookup _ _ _) (Hord i y p Hi He)) as (k & Hk & Hkp).
    exists k, j. naive_solver lia.
Qed.

Lemma ordered_acyclic pairs done :
  NoDup done → ordered pairs done → (∀ x, x ∈ nodes pairs → x ∈ done) →
  ¬ ∃ x, tc (edge pairs) x x.
Proof.
  intros Hnd Hord Hall [x Htc].
  assert (x ∈ done) as Hx.
  { apply Hall. inversion Htc; subst; by eapply edge_nodes in H1 as [??] || by eapply edge_nodes in H0 as [??]. }
  destruct (ordered_before pairs done x x Hnd Hord Hx Htc) as (i & j & Hij & Hi & Hj).
  assert (i = j) by by eapply NoDup_lookup. lia.
Qed.

Lemma kahn_complete pairs done rem live :
  kahn pairs done rem live → live = ∅ → ∀ x, x ∈ nodes pairs → x ∈ done.
Proof.
  intros HK -> x Hx. destruct (decide (x ∈ done)); [done|].
  exfalso. assert (x ∈ (∅ : gset K)); [|set_solver]. by apply (kahn_live _ _ _ _ HK).
Qed.
End kahn.

(** ** The dictionaries of the program represent the abstract state *)
Section refinement.
Context {K : Type} `{DictOrderOk K}.
Implicit Types (pairs rem : list (K * K)) (live : gset K) (x p : K) (st : deps K).

(** [num_parents] maps the live items to the number of their entries in
    [xs]. *)
Definition counts live (xs : list K) (np : gmap K Z) : Prop :=
  ∀ x, np !! x = if decide (x ∈ live) then Some (Z.of_nat (count x xs)) else None.

Definition groups rem (ch : gmap K (list K)) : Prop :=
  ∀ p, ch !! p = if decide (kids rem p = []) then None else Some (kids rem p).

Definition represents rem live st : Prop :=
  counts live rem.*2 (num_parents st) ∧ groups rem (children st).

Lemma counts_perm live xs ys np : xs ≡ₚ ys → counts live xs np → counts live ys np.
Proof. intros Hp Hc x. by rewrite Hc, (count_perm x _ _ Hp). Qed.

Lemma kids_snoc rem q y p :
  kids (rem ++ [(q, y)]) p = kids rem p ++ if decide (q = p) then [y] else [].
Proof. unfold kids. rewrite filter_app, fmap_app, filter_cons. simpl. by case_decide. Qed.

Lemma nodes_snoc rem q y : nodes (rem ++ [(q, y)]) = nodes rem ∪ {[q; y]}.
Proof.
  apply set_eq. intros x. unfold nodes.
  rewrite elem_of_union, !elem_of_list_to_set, !elem_of_app, !fmap_app, !elem_of_app. set_solver.
Qed.

Lemma count_fresh x rem : x ∉ nodes rem → count x rem.*2 = 0.
Proof. intros Hx. apply count_zero. unfold nodes in Hx. set_solver. Qed.

(** [setdefault]-style initialisation does not disturb the counts. *)
Lemma counts_ensure live xs np y :
  counts live xs np → (y ∉ live → count y xs = 0) →
  counts (live ∪ {[y]}) xs (if has_key np y then np else <[y := 0%Z]> np).
Proof.
  intros Hc Hy x. destruct (has_key np y) eqn:Hk.
  - apply has_key_true in Hk. rewrite Hc in Hk |- *.
    repeat case_decide; set_solver.
  - apply has_key_false in Hk. rewrite Hc in Hk. case_decide; [done|].
    destruct (decide (x = y)) as [->|].
    + rewrite lookup_insert_eq, decide_True by set_solver. by rewrite Hy.
    + rewrite lookup_insert_ne, Hc by done. repeat case_decide; set_solver.
Qed.

Lemma counts_bump live xs np y :
  counts live xs np → y ∈ live →
  ∃ n, dict_get KeyError np y = Ok n ∧ n = Z.of_nat (count y xs) ∧
    counts live (xs ++ [y]) (<[y := (n + 1)%Z]> np).
Proof.
  intros Hc Hy. exists (Z.of_nat (count y xs)). unfold dict_get.
  rewrite Hc, decide_True by done. split_and!; [done..|].
  intros x. rewrite count_app, count_cons, count_nil.
  destruct (decide (x = y)) as [->|].
  - rewrite lookup_insert_eq, decide_True by done. f_equal. lia.
  - rewrite lookup_insert_ne, Hc by done. case_decide; [|done]. f_equal. lia.
Qed.

Lemma add_pair_represents rem st e :
  represents rem (nodes rem) st →
  ∃ st', add_pair st e = Ok st' ∧ represents (rem ++ [e]) (nodes (rem ++ [e])) st'.
Proof.
  destruct e as [q y]. intros [Hc Hg]. unfold add_pair.
  pose proof (counts_ensure _ _ _ q Hc (count_fresh q rem)) as Hc1.
  set (np1 := if has_key (num_parents st) q then _ else _) in *.
  pose proof (counts_ensure _ _ _ y Hc1) as Hc2.
  set (np2 := if has_key np1 y then _ else _) in *.
  destruct (counts_bump _ _ np2 y (Hc2 ltac:(intros; apply count_fresh; set_solver)))
    as (n & -> & _ & Hc3); [set_solver|].
  eexists. split; [reflexivity|]. split; simpl.
  - rewrite fmap_app, nodes_snoc. simpl.
    assert (nodes rem ∪ {[q; y]} = nodes rem ∪ {[q]} ∪ {[y]}) as -> by set_solver. done.
  - intros p. rewrite kids_snoc, Hg.
    destruct (decide (q = p)) as [->|].
    + rewrite lookup_insert_eq. rewrite (decide_False (P := _ ++ [y] = [])).
      2: { by destruct (kids rem p). }
      do 2 f_equal. by case_decide as Hk; rewrite ?Hk.
    + rewrite lookup_insert_ne, app_nil_r by done. apply Hg.
Qed.

Lemma count_parents_represents pairs :
  ∃ st, count_parents pairs = Ok st ∧ represents pairs (nodes pairs) st.
Proof.
  unfold count_parents. induction pairs as [|e pairs (st & Heq & Hr)] using rev_ind.
  - exists (Deps ∅ ∅). split; [done|]. split; intros x; simpl; rewrite lookup_empty; [|done].
    by rewrite decide_False by set_solver.
  - rewrite fold_res_app, Heq, bind_Ok. cbn [fold_res].
    destruct (add_pair_represents pairs st e Hr) as (st' & -> & Hr'). by exists st'.
Qed.

Lemma elem_of_parentless live xs np x :
  counts live xs np → x ∈ parentless np ↔ x ∈ live ∧ count x xs = 0.
Proof.
  intros Hc. unfold parentless. rewrite list_elem_of_filter, elem_of_dict_keys, Hc.
  case_decide; split.
  - intros [[= Hz] _]. split; [done|lia].
  - intros [_ Hz]. rewrite Hz. by eauto.
  - by intros [? _].
  - by intros [? _].
Qed.

Lemma parentless_NoDup np : NoDup (parentless np).
Proof. apply NoDup_filter, dict_keys_NoDup. Qed.

Lemma counts_drop live cs ks np c :
  counts live (c :: cs ++ ks) np → c ∈ live →
  ∃ n, dict_get KeyError np c = Ok n ∧ n = Z.of_nat (S (count c (cs ++ ks))) ∧
    counts live (cs ++ ks) (<[c := (n - 1)%Z]> np).
Proof.
  intros Hc Hlive. exists (Z.of_nat (S (count c (cs ++ ks)))). unfold dict_get.
  rewrite Hc, decide_True, count_cons, decide_True by done. split_and!; [done..|].
  intros x. destruct (decide (x = c)) as [->|].
  - rewrite lookup_insert_eq, decide_True by done. f_equal. lia.
  - rewrite lookup_insert_ne, Hc, count_cons, (decide_False (P := x = c)) by done. done.
Qed.

(** The two inner loops: every child loses one parent per pair. *)
Lemma decrement_counts live cs ks np :
  counts live (cs ++ ks) np → (∀ c, c ∈ cs → c ∈ live) →
  ∃ np', fold_res decrement np cs = Ok np' ∧ counts live ks np'.
Proof.
  revert np. induction cs as [|c cs IH]; intros np Hc Hcs; [by exists np|].
  destruct (counts_drop live cs ks np c Hc) as (n & Hn & _ & Hc'); [set_solver|].
  assert (decrement np c = Ok (<[c := (n - 1)%Z]> np)) as Hd
    by (unfold decrement; by rewrite Hn).
  cbn [fold_res]. rewrite Hd, bind_Ok. apply IH; [done|set_solver].
Qed.

Lemma knock_down_counts live cs ks np answer :
  counts live (cs ++ ks) np → (∀ c, c ∈ cs → c ∈ live) →
  ∃ np' new, fold_res knock_down (np, answer) cs = Ok (np', answer ++ new) ∧
    counts live ks np' ∧ NoDup new ∧ ∀ x, x ∈ new ↔ x ∈ cs ∧ x ∉ ks.
Proof.
  revert np answer. induction cs as [|c cs IH]; intros np answer Hc Hcs.
  { exists np, []. rewrite app_nil_r. split_and!; [done..|constructor|set_solver]. }
  destruct (counts_drop live cs ks np c Hc) as (n & Hn & -> & Hc'); [set_solver|].
  set (answer' := if bool_decide (Z.of_nat (S (count c (cs ++ ks))) - 1 = 0)%Z
                  then answer ++ [c] else answer).
  assert (knock_down (np, answer) c =
    Ok (<[c := (Z.of_nat (S (count c (cs ++ ks))) - 1)%Z]> np, answer')) as Hd
    by (unfold knock_down; by rewrite Hn).
  cbn [fold_res]. rewrite Hd, bind_Ok.
  destruct (IH _ answer' Hc') as (np' & new & Heq & Hc'' & Hnd & Hnew); [set_solver|].
  rewrite Heq. unfold answer'. case_bool_decide as Hz.
  - assert (count c (cs ++ ks) = 0) as Hz' by lia. apply count_zero in Hz'.
    exists np', (c :: new). rewrite <- app_assoc. split_and!; [done..| |].
    + constructor; [|done]. rewrite Hnew. set_solver.
    + intros x. rewrite !elem_of_cons, Hnew. set_solver.
  - assert (0 < count c (cs ++ ks)) as Hz' by lia. apply count_pos in Hz'.
    exists np', new. split_and!; [done..|]. intros x. rewrite elem_of_cons, Hnew. set_solver.
Qed.

(** Deleting a finished item from both dictionaries. *)
Lemma counts_delete live xs np p : counts live xs np → counts (live ∖ {[p]}) xs (delete p np).
Proof.
  intros Hc x. destruct (decide (x = p)) as [->|].
  - by rewrite lookup_delete_eq, decide_False by set_solver.
  - rewrite lookup_delete_ne, Hc by done. repeat case_decide; set_solver.
Qed.

Lemma groups_delete rem ch p : groups rem ch → groups (without rem p) (delete p ch).
Proof.
  intros Hg q. rewrite kids_without. destruct (decide (q = p)) as [->|].
  - by rewrite lookup_delete_eq.
  - by rewrite lookup_delete_ne by done.
Qed.

Lemma groups_skip rem ch p : groups rem ch → ch !! p = None → groups (without rem p) ch.
Proof.
  intros Hg Hp. rewrite <- (delete_id ch p Hp). by apply groups_delete.
Qed.

(** What the children of a live item look like to the loops. *)
Lemma kids_lookup rem live st p pairs done :
  kahn pairs done rem live → represents rem live st → p ∈ live → parents_left rem p = 0 →
  ∃ np, dict_del KeyError (num_parents st) p = Ok np ∧
    counts (live ∖ {[p]}) (kids rem p ++ (without rem p).*2) np ∧
    (∀ c, c ∈ kids rem p → c ∈ live ∖ {[p]}) ∧
    ((has_key (children st) p = true ∧ children st !! p = Some (kids rem p)) ∨
     (has_key (children st) p = false ∧ children st !! p = None ∧ kids rem p = [])).
Proof.
  intros HK [Hc Hg] Hp Hcount. exists (delete p (num_parents st)). split_and!.
  - unfold dict_del. by rewrite Hc, decide_True.
  - apply (counts_perm _ rem.*2); [by rewrite kids_without_perm|]. by apply counts_delete.
  - intros c Hkc%elem_of_kids. rewrite elem_of_difference, elem_of_singleton.
    split; [by eapply (kahn_closed _ _ _ _ HK)|]. intros ->.
    assert (0 < parents_left rem p); [|lia]. apply parents_left_pos. eauto.
  - specialize (Hg p). case_decide as Hk; [right|left].
    + by rewrite has_key_false.
    + rewrite has_key_true. split; [by eexists|done].
Qed.

Lemma parents_left_split rem p x :
  parents_left rem x = count x (kids rem p) + parents_left (without rem p) x.
Proof.
  unfold parents_left. rewrite <- count_app. apply count_perm.
  by rewrite kids_without_perm.
Qed.

Lemma size_remove live p : p ∈ live → size live = S (size (live ∖ {[p]})).
Proof.
  intros Hp. rewrite size_difference by set_solver. rewrite size_singleton.
  assert (0 < size live); [|lia]. apply Nat.neq_0_lt_0. intros Hz%size_empty_inv. set_solver.
Qed.

(** *** [topsort] *)

(** The part of [answer] the loop has passed is finished; the rest are exactly
    the live items with no parent left. *)
Definition loop_inv pairs (i : nat) (answer : list K) rem live st : Prop :=
  kahn pairs (take i answer) rem live ∧ represents rem live st ∧ NoDup answer ∧
  ∀ x, x ∈ drop i answer ↔ x ∈ live ∧ parents_left rem x = 0.

Lemma loop_inv_step pairs i answer rem live st p np new ch :
  loop_inv pairs i answer rem live st → answer !! i = Some p →
  counts (live ∖ {[p]}) (without rem p).*2 np → groups (without rem p) ch →
  NoDup new → (∀ x, x ∈ new ↔ x ∈ kids rem p ∧ x ∉ (without rem p).*2) →
  loop_inv pairs (S i) (answer ++ new) (without rem p) (live ∖ {[p]}) (Deps np ch).
Proof.
  intros (HK & Hr & Hnd & Hready) Hi Hc Hg Hnn Hnew.
  pose proof (drop_S _ _ _ Hi) as Hdrop.
  assert (p ∈ live ∧ parents_left rem p = 0) as [Hp Hp0].
  { apply Hready. rewrite Hdrop. by left. }
  assert (Hnd' : NoDup (drop i answer)) by (rewrite <- (take_drop i answer) in Hnd;
    by apply NoDup_app in Hnd as (_ & _ & ?)).
  assert (Hpx : p ∉ drop (S i) answer) by (rewrite Hdrop in Hnd'; by apply NoDup_cons in Hnd' as []).
  assert (Hkid : ∀ x, x ∈ kids rem p → 0 < parents_left rem x).
  { intros x Hx%elem_of_kids. apply parents_left_pos. eauto. }
  assert (Hlen : S i ≤ length answer) by (apply lookup_lt_Some in Hi; lia).
  split_and!; [|done| |].
  - rewrite take_app_le by done. rewrite (take_S_r _ _ _ Hi). by eapply kahn_step.
  - apply NoDup_app. split_and!; [done| |done]. intros x Hx [Hxk _]%Hnew.
    specialize (Hkid x Hxk). rewrite <- (take_drop i answer) in Hx.
    apply elem_of_app in Hx as [Hx|Hx]; [|apply Hready in Hx as [_ ?]; lia].
    apply elem_of_kids, (kahn_closed _ _ _ _ HK), (kahn_live _ _ _ _ HK) in Hxk as [_ ?]. done.
  - intros x. rewrite drop_app_le by done.
    rewrite elem_of_app, Hnew, elem_of_difference, elem_of_singleton.
    pose proof (parents_left_split rem p x) as Hsplit.
    specialize (Hready x). rewrite Hdrop, elem_of_cons in Hready.
    fold (parents_left (without rem p) x). unfold parents_left in *.
    rewrite <- (count_zero x (without rem p).*2).
    split.
    + intros [Hx|[Hx Hz]].
      * destruct (proj1 Hready (or_intror Hx)). split; [|lia]. split; [done|]. by intros ->.
      * split; [|done]. split; [by eapply (kahn_closed _ _ _ _ HK), elem_of_kids|].
        intros ->. specialize (Hkid p Hx). lia.
    + intros [[Hx Hxp] Hz]. destruct (decide (x ∈ kids rem p)) as [Hk|Hk]; [by right|left].
      apply count_zero in Hk. destruct (proj2 Hready); [split; [done|lia]|done|done].
Qed.

Lemma topsort_loop_spec pairs fuel i answer rem live st :
  loop_inv pairs i answer rem live st → size live < fuel →
  ∃ answer' rem' live' st', topsort_loop fuel i answer st = Ok (answer', st') ∧
    kahn pairs answer' rem' live' ∧ represents rem' live' st' ∧
    ∀ x, x ∈ live' → parents_left rem' x ≠ 0.
Proof.
  revert i answer rem live st.
  induction fuel as [|fuel IH]; intros i answer rem live st Hinv Hf; [lia|].
  cbn [topsort_loop]. destruct (answer !! i) as [p|] eqn:Hi.
  - pose proof Hinv as (HK & Hr & _ & Hready).
    assert (p ∈ live ∧ parents_left rem p = 0) as [Hp Hp0].
    { apply Hready. rewrite (drop_S _ _ _ Hi). by left. }
    destruct (kids_lookup _ _ _ _ _ _ HK Hr Hp Hp0) as (np & -> & Hc & Hlive & Hcase).
    rewrite bind_Ok. rewrite (size_remove _ _ Hp) in Hf. destruct Hr as [_ Hg].
    destruct Hcase as [[-> Hch]|(-> & Hch & Hnil)].
    + unfold dict_get. rewrite Hch. cbn [of_option]. rewrite bind_Ok.
      destruct (knock_down_counts _ _ _ _ answer Hc Hlive) as (np' & new & -> & Hc' & Hnn & Hnew).
      rewrite bind_Ok. eapply IH; [|by apply Nat.succ_lt_mono].
      eapply loop_inv_step; try done. by apply groups_delete.
    + rewrite <- (app_nil_r answer). eapply IH; [|by apply Nat.succ_lt_mono].
      rewrite Hnil in Hc. eapply loop_inv_step; try done.
      * by apply groups_skip.
      * constructor.
      * intros x. rewrite Hnil, elem_of_nil. tauto.
  - destruct Hinv as (HK & Hr & _ & Hready). apply lookup_ge_None in Hi.
    rewrite take_ge in HK by done. rewrite drop_ge in Hready by done.
    exists answer, rem, live, st. split_and!; [done..|]. intros x Hx Hz.
    apply (not_elem_of_nil x), Hready. done.
Qed.

Lemma counts_size live xs np : counts live xs np → size np = size live.
Proof.
  intros Hc. rewrite <- size_dom. f_equal. apply set_eq. intros x.
  rewrite elem_of_dom, Hc. case_decide; rewrite ?is_Some_alt; naive_solver.
Qed.

Lemma topsort_run pairs :
  ∃ answer rem live st,
    kahn pairs answer rem live ∧ represents rem live st ∧
    (∀ x, x ∈ live → parents_left rem x ≠ 0) ∧
    topsort pairs = if bool_decide (live = ∅) then Ok answer
                    else Raise (CycleError answer (num_parents st) (children st)).
Proof.
  destruct (count_parents_represents pairs) as (st & Hst & Hr).
  destruct (topsort_loop_spec pairs (S (size (num_parents st))) 0
              (parentless (num_parents st)) pairs (nodes pairs) st)
    as (answer & rem & live & st' & Heq & HK & Hr' & Hstuck).
  { split_and!; [by apply kahn_init|done|by apply parentless_NoDup|].
    intros x. rewrite drop_0. by apply elem_of_parentless, Hr. }
  { destruct Hr as [Hc _]. rewrite (counts_size _ _ _ Hc). lia. }
  exists answer, rem, live, st'. split_and!; [done..|].
  unfold topsort. rewrite Hst. cbn [lift_exn]. rewrite bind_Ok, Heq. cbn [lift_exn].
  rewrite bind_Ok. cbn beta iota.
  destruct Hr' as [Hc _]. apply counts_size in Hc.
  assert (num_parents st' ≠ ∅ ↔ live ≠ ∅) as Hiff.
  { rewrite <- map_size_empty_iff, Hc, size_empty_iff. by rewrite leibniz_equiv_iff. }
  rewrite (bool_decide_ext _ _ Hiff). destruct (decide (live = ∅)) as [Hl|Hl].
  - rewrite bool_decide_eq_false_2, bool_decide_eq_true_2; [done|done|]. tauto.
  - by rewrite bool_decide_eq_true_2, bool_decide_eq_false_2.
Qed.

(** C1: [topsort] always terminates, and never fails with an exception other
    than [CycleError].  It returns exactly when the dependency pairs are
    acyclic; the list returned has every item of the pairs once, each one
    after all of its parents, whatever the order of the dictionaries. *)
Theorem topsort_correct pairs :
  (∃ answer, topsort pairs = Ok answer ∧
     ¬ (∃ x, tc (edge pairs) x x) ∧
     NoDup answer ∧ (∀ x, x ∈ answer ↔ x ∈ nodes pairs) ∧
     ∀ p x, edge pairs p x → before p x answer) ∨
  (∃ answer np ch, topsort pairs = Raise (CycleError answer np ch) ∧
     ∃ x, tc (edge pairs) x x).
Proof.
  destruct (topsort_run pairs) as (answer & rem & live & st & HK & Hr & Hstuck & ->).
  case_bool_decide as Hl; [left|right].
  - exists answer. pose proof (kahn_complete _ _ _ _ HK Hl) as Hall.
    destruct HK as [Hnd Hord _ Hnodes _ _ _]. split_and!; [done| |done| |].
    + by eapply ordered_acyclic.
    + naive_solver.
    + intros p x He. eapply ordered_before; [done..| |by apply tc_once].
      apply Hall. by apply edge_nodes in He as [??].
  - do 3 eexists. split; [done|]. by eapply kahn_stuck.
Qed.

(** C34: the payload of [CycleError] is exact: the answer lists the items that
    could be sorted, in dependency order, and [num_parents] maps every other
    item to the number of its pairs whose parent was not sorted, which is
    never zero. *)
Theorem topsort_cycle_payload pairs answer np ch :
  topsort pairs = Raise (CycleError answer np ch) →
  NoDup answer ∧ ordered pairs answer ∧
  (∀ x, is_Some (np !! x) ↔ x ∈ nodes pairs ∧ x ∉ answer) ∧
  ∀ x n, np !! x = Some n →
    (0 < n)%Z ∧ n = Z.of_nat (count x (filter (λ e, e.1 ∉ answer) pairs).*2).
Proof.
  destruct (topsort_run pairs) as (answer' & rem & live & st & HK & Hr & Hstuck & ->).
  case_bool_decide as Hl; [done|]. intros [= <- <- <-].
  destruct Hr as [Hc _].
  split_and!; [apply HK|apply HK|..].
  - intros x. rewrite Hc, <- (kahn_live _ _ _ _ HK). case_decide; [by eauto|].
    by rewrite is_Some_alt.
  - intros x n Hx. rewrite Hc in Hx. case_decide as Hlive; [|done].
    rewrite <- (kahn_filter _ _ _ _ HK).
    injection Hx as <-. specialize (Hstuck x Hlive). unfold parents_left in Hstuck. lia.
Qed.

(** *** [topsort_levels] *)

(** The longest chain of parents that ends in [x] has [k] links. *)
Definition depth_is pairs x (k : nat) : Prop :=
  (∃ p, nsteps (edge pairs) k p x) ∧ ∀ n p, nsteps (edge pairs) n p x → n ≤ k.

Lemma depth_from_parents pairs x k :
  (∀ p, edge pairs p x → ∃ j, j < k ∧ depth_is pairs p j) →
  (k = 0 ∨ ∃ p j, edge pairs p x ∧ depth_is pairs p j ∧ S j = k) →
  depth_is pairs x k.
Proof.
  intros Hall Hex. split.
  - destruct Hex as [->|(p & j & He & [[q Hq] _] & <-)]; [exists x; constructor|].
    exists q. by eapply nsteps_r.
  - intros [|n] p Hn; [lia|]. apply nsteps_inv_r in Hn as (q & Hq & He).
    destruct (Hall q He) as (j & Hj & [_ Hmax]). specialize (Hmax _ _ Hq). lia.
Qed.

Lemma retire_step pairs done rem live st p :
  kahn pairs done rem live → represents rem live st → p ∈ live → parents_left rem p = 0 →
  ∃ st', retire st p = Ok st' ∧ represents (without rem p) (live ∖ {[p]}) st'.
Proof.
  intros HK Hr Hp Hp0.
  destruct (kids_lookup _ _ _ _ _ _ HK Hr Hp Hp0) as (np & Hdel & Hc & Hlive & Hcase).
  unfold retire. rewrite Hdel, bind_Ok. destruct Hr as [_ Hg].
  destruct Hcase as [[-> Hch]|(-> & Hch & Hnil)].
  - unfold dict_get. rewrite Hch. cbn [of_option]. rewrite bind_Ok.
    destruct (decrement_counts _ _ _ _ Hc Hlive) as (np' & -> & Hc'). rewrite bind_Ok.
    eexists. split; [done|]. split; [done|by apply groups_delete].
  - eexists. split; [done|]. rewrite Hnil in Hc. split; [done|by apply groups_skip].
Qed.

Lemma retire_level pairs L done rem live st :
  kahn pairs done rem live → represents rem live st → NoDup L →
  (∀ x, x ∈ L → x ∈ live ∧ parents_left rem x = 0) →
  ∃ st' rem' live', fold_res retire st L = Ok st' ∧
    kahn pairs (done ++ L) rem' live' ∧ represents rem' live' st' ∧
    (∀ q x, (q, x) ∈ rem' ↔ (q ∉ L ∧ (q, x) ∈ rem)) ∧
    live' ⊆ live ∧ size live' + length L = size live.
Proof.
  revert done rem live st. induction L as [|p L IH]; intros done rem live st HK Hr Hnd HL.
  { exists st, rem, live. rewrite app_nil_r. split_and!; try done; try (simpl; lia).
    intros q x. rewrite elem_of_nil. tauto. }
  destruct (HL p) as [Hp Hp0]; [by left|]. apply NoDup_cons in Hnd as [HpL Hnd].
  destruct (retire_step _ _ _ _ _ _ HK Hr Hp Hp0) as (st1 & Heq & Hr1).
  cbn [fold_res]. rewrite Heq, bind_Ok.
  destruct (IH (done ++ [p]) (without rem p) (live ∖ {[p]}) st1)
    as (st' & rem' & live' & Heq' & HK' & Hr' & Hrem' & Hsub & Hsize).
  - by apply kahn_step.
  - done.
  - done.
  - intros x Hx. destruct (HL x) as [Hxl Hx0]; [by right|]. split.
    + apply elem_of_difference. split; [done|]. rewrite elem_of_singleton. by intros ->.
    + pose proof (parents_left_split rem p x). lia.
  - exists st', rem', live'. rewrite <- app_assoc in HK'. split_and!; [done..| | |].
    + intros q x. rewrite Hrem', elem_of_without, not_elem_of_cons. tauto.
    + clear -Hsub. set_solver.
    + rewrite (size_remove _ _ Hp). simpl. lia.
Qed.

Definition levels_outcome pairs (done : list K) (Ls : list (list K)) (s : stop K) : Prop :=
  ∃ rem live, kahn pairs (done ++ concat Ls) rem live ∧
    (∀ x, x ∈ live → parents_left rem x ≠ 0) ∧
    if decide (live = ∅) then s = StopIteration
    else ∃ np ch, s = LevelCycle np ch.

Lemma topsort_levels_core_spec pairs fuel k done rem live st :
  kahn pairs done rem live → represents rem live st → size live < fuel →
  (∀ x, x ∈ done → ∃ j, j < k ∧ depth_is pairs x j) →
  (∀ x, x ∈ live → parents_left rem x = 0 →
     k = 0 ∨ ∃ p j, edge pairs p x ∧ depth_is pairs p j ∧ S j = k) →
  ∃ Ls s, topsort_levels_core fuel st = (Ls, s) ∧ levels_outcome pairs done Ls s ∧
    ∀ j L x, Ls !! j = Some L → x ∈ L → depth_is pairs x (k + j).
Proof.
  revert k done rem live st. induction fuel as [|fuel IH];
    intros k done rem live st HK Hr Hf Hdone Hready; [lia|].
  cbn [topsort_levels_core].
  pose proof (λ x, elem_of_parentless _ _ _ x (proj1 Hr)) as HL.
  pose proof (parentless_NoDup (num_parents st)) as Hnd.
  destruct (parentless (num_parents st)) as [|y L0]; [|set (L := y :: L0) in *].
  { eexists [], _. split; [done|]. split; [|intros j L x Hj; by rewrite lookup_nil in Hj].
    exists rem, live. simpl. rewrite app_nil_r. split_and!; [done| |].
    - intros x Hx Hz. by apply (not_elem_of_nil x), HL.
    - destruct Hr as [Hc _]. apply counts_size in Hc. case_decide as Hl.
      + rewrite bool_decide_eq_false_2; [done|]. intros Hne. apply Hne.
        apply map_size_empty_iff. by rewrite Hc, Hl.
      + rewrite bool_decide_eq_true_2; [by do 2 eexists|]. intros Hz. destruct Hl.
        apply leibniz_equiv, size_empty_iff. by rewrite <- Hc, Hz. }
  destruct (retire_level pairs L done rem live st HK Hr Hnd)
    as (st' & rem' & live' & -> & HK' & Hr' & Hrem' & Hsub & Hsize); [by intros x ?%HL|].
  assert (Hlevel : ∀ x, x ∈ L → depth_is pairs x k).
  { intros x [Hx Hx0]%HL. apply depth_from_parents; [|by apply Hready].
    intros p He. apply Hdone. destruct (decide (p ∈ done)) as [|Hpd]; [done|].
    assert (0 < parents_left rem x); [|unfold parents_left in *; lia].
    apply parents_left_pos. exists p. apply (kahn_rem _ _ _ _ HK). split; [done|].
    apply (kahn_live _ _ _ _ HK). split; [by apply edge_nodes in He as [??]|done]. }
  destruct (IH (S k) (done ++ L) rem' live' st') as (Ls & s & -> & Hout & Hdepth); try done.
  - unfold L in Hsize. simpl in Hsize. lia.
  - intros x [Hx|Hx]%elem_of_app; [|by eauto].
    destruct (Hdone x Hx) as (j & ? & ?). exists j. split; [lia|done].
  - intros x Hx Hx0. right.
    assert (Hxl : x ∉ L).
    { apply (kahn_live _ _ _ _ HK') in Hx as [_ Hx]. rewrite elem_of_app in Hx. tauto. }
    apply Hsub in Hx.
    assert (Hz : 0 < parents_left rem x).
    { apply Nat.neq_0_lt_0. intros Hz. by apply Hxl, HL. }
    apply parents_left_pos in Hz as [p Hp]. exists p, k.
    assert (p ∈ L) as HpL.
    { destruct (decide (p ∈ L)) as [|Hn]; [done|].
      assert (0 < parents_left rem' x); [|lia]. apply parents_left_pos.
      exists p. by apply Hrem'. }
    split_and!; [by apply (kahn_rem _ _ _ _ HK) in Hp as [??]|by apply Hlevel|done].
  - exists (L :: Ls), s. split; [done|]. split.
    + destruct Hout as (rem'' & live'' & HK'' & Hout). exists rem'', live''.
      rewrite <- app_assoc in HK''. done.
    + intros [|j] L' x Hj Hx; simpl in Hj.
      * injection Hj as <-. rewrite Nat.add_0_r. by apply Hlevel.
      * replace (k + S j) with (S k + j) by lia. by eapply Hdepth.
Qed.

(** C23: [topsort_levels] never fails with a built-in exception and always
    stops.  The levels yielded contain no item twice and level [k] holds items
    whose longest chain of parents has length exactly [k]; the generator ends
    normally exactly when the pairs are acyclic, and then every item has been
    yielded; otherwise it raises [CycleError]. *)
Theorem topsort_levels_depth pairs :
  ∃ Ls s, topsort_levels pairs = (Ls, s) ∧
    NoDup (concat Ls) ∧
    (∀ k L x, Ls !! k = Some L → x ∈ L → depth_is pairs x k) ∧
    ((s = StopIteration ∧ (¬ ∃ x, tc (edge pairs) x x) ∧
        ∀ x, x ∈ concat Ls ↔ x ∈ nodes pairs) ∨
     ((∃ np ch, s = LevelCycle np ch) ∧ ∃ x, tc (edge pairs) x x)).
Proof.
  destruct (count_parents_represents pairs) as (st & Hst & Hr).
  destruct (topsort_levels_core_spec pairs (S (size (num_parents st))) 0 [] pairs (nodes pairs) st)
    as (Ls & s & Heq & (rem & live & HK & Hstuck & Hs) & Hdepth).
  - apply kahn_init.
  - done.
  - destruct Hr as [Hc _]. rewrite (counts_size _ _ _ Hc). lia.
  - intros x Hx. by apply not_elem_of_nil in Hx.
  - by left.
  - exists Ls, s. unfold topsort_levels. rewrite Hst. cbn [app] in HK.
    split_and!; [done|by apply (kahn_NoDup _ _ _ _ HK)|done|].
    case_decide as Hl; [left|right].
    + pose proof (kahn_complete _ _ _ _ HK Hl) as Hall.
      split_and!; [done| |].
      * eapply ordered_acyclic; [apply HK|apply HK|done].
      * intros x. split; [by apply (kahn_nodes _ _ _ _ HK)|apply Hall].
    + split; [done|]. by eapply kahn_stuck.
Qed.

End refinement.

(** ** Concrete runs *)
Example topsort_doctest :
  @topsort Z _ _ tree_order [(1,2); (3,4); (5,6); (1,3); (1,5); (1,6); (2,5)]%Z
  = Ok [1; 2; 3; 5; 4; 6]%Z.
Proof. reflexivity. Qed.

Example topsort_levels_doctest :
  (@topsort_levels Z _ _ tree_order [(1,2); (3,4); (5,6); (1,3); (1,5); (1,6); (2,5)]%Z).1
  = [[1]; [3; 2]; [5; 4]; [6]]%Z.
Proof. reflexivity. Qed.

Lemma topsort_correct_witness :
  let pairs := [(1, 2); (2, 3)]%Z in
  (∃ answer, @topsort Z _ _ tree_order pairs = Ok answer ∧
     ¬ (∃ x, tc (edge pairs) x x) ∧
     NoDup answer ∧ (∀ x, x ∈ answer ↔ x ∈ nodes pairs) ∧
     ∀ p x, edge pairs p x → before p x answer) ∨
  (∃ answer np ch, @topsort Z _ _ tree_order pairs = Raise (CycleError answer np ch) ∧
     ∃ x, tc (edge pairs) x x).
Proof. apply (@topsort_correct Z _ _ tree_order tree_order_ok). Defined.

(** An item downstream of a cycle stays in [num_parents] although it has no
    child. *)
Lemma topsort_cycle_payload_witness :
  let pairs := [(1, 2); (2, 1); (2, 3)]%Z in
  ∃ answer np ch,
    @topsort Z _ _ tree_order pairs = Raise (CycleError answer np ch) ∧
    answer = [] ∧ np !! 3%Z = Some 1%Z ∧ ch !! 3%Z = None ∧
    NoDup answer ∧ ordered pairs answer ∧
    (∀ x, is_Some (np !! x) ↔ x ∈ nodes pairs ∧ x ∉ answer) ∧
    ∀ x n, np !! x = Some n →
      (0 < n)%Z ∧ n = Z.of_nat (count x (filter (λ e, e.1 ∉ answer) pairs).*2).
Proof.
  eexists [], _, _. do 4 (split; [reflexivity|]).
  eapply (@topsort_cycle_payload Z _ _ tree_order tree_order_ok). reflexivity.
Defined.

Lemma topsort_levels_depth_witness :
  let pairs := [(1, 2); (2, 3); (1, 3)]%Z in
  ∃ Ls s, @topsort_levels Z _ _ tree_order pairs = (Ls, s) ∧
    NoDup (concat Ls) ∧
    (∀ k L x, Ls !! k = Some L → x ∈ L → depth_is pairs x k) ∧
    ((s = StopIteration ∧ (¬ ∃ x, tc (edge pairs) x x) ∧
        ∀ x, x ∈ concat Ls ↔ x ∈ nodes pairs) ∨
     ((∃ np ch, s = LevelCycle np ch) ∧ ∃ x, tc (edge pairs) x x)).
Proof. apply (@topsort_levels_depth Z _ _ tree_order tree_order_ok). Defined.
