(* ===== verification/Cycles.v ===== *)
(** * [bindings/python/topsort.py], [find_cycles]: the search is exact

    The model of the search is in [Topsort.v].  Here it is proved total,
    sound, free of duplicates and complete: the elementary cycles of the graph
    are found, each once up to rotation. *)

From S2P Require Import Prelude RadUtil Topsort.
Import Lists.

Section cycles.
Context {K : Type} `{Countable K}.
Implicit Types (g : gmap K (list K)) (path c : list K) (s : search K) (x : K).

Definition child_of g : relation K := λ p x, ∃ cs, g !! p = Some cs ∧ x ∈ cs.

Definition closes g c : Prop :=
  ∀ a b, last c = Some a → head c = Some b → child_of g a b.

(** An elementary cycle: no node twice, consecutive nodes linked, and the last
    linked to the first. *)
Record elementary g c : Prop := {
  elementary_ne : c ≠ [];
  elementary_NoDup : NoDup c;
  elementary_walk : walk (child_of g) c;
  elementary_closes : closes g c }.

Record simple_path g (root : K) path : Prop := {
  simple_head : head path = Some root;
  simple_NoDup : NoDup path;
  simple_walk : walk (child_of g) path }.

Definition recorded (cs : list (list K)) c : Prop := ∃ d, d ∈ cs ∧ rotated d c.

Lemma recorded_app_l cs cs' c : recorded cs c → recorded (cs ++ cs') c.
Proof. intros (d & Hd & Hr). exists d. split; [|done]. apply elem_of_app. by left. Qed.

(** ** Walks and rotations *)
Lemma walk_join (R : relation K) l1 l2 :
  walk R l1 → walk R l2 →
  (∀ a b, last l1 = Some a → head l2 = Some b → R a b) → walk R (l1 ++ l2).
Proof.
  intros H1 H2 Hj. destruct l2 as [|y l2]; [by rewrite app_nil_r|].
  destruct l1 as [|x l1 _] using rev_ind; [done|].
  rewrite <- app_assoc. apply walk_app; [done|]. apply walk_cons; [|done].
  apply Hj; [apply last_snoc|done].
Qed.

Lemma elementary_rotate g a b : elementary g (a ++ b) → elementary g (b ++ a).
Proof.
  intros [Hne Hnd Hw Hc].
  destruct a as [|x a]; [by rewrite app_nil_r|].
  destruct b as [|y b]; [by rewrite app_nil_r in *|].
  split; [done|by rewrite Permutation_app_comm|..].
  - apply walk_join; [by eapply walk_app_inv_r|by eapply walk_app_inv_l|].
    intros u v Hu Hv. apply Hc; [by rewrite last_app, Hu|done].
  - intros u v Hu Hv. rewrite last_app in Hu. simpl in Hv. injection Hv as <-.
    destruct (last (x :: a)) as [z|] eqn:Hz; [|by apply last_None in Hz].
    injection Hu as <-.
    apply last_Some in Hz as [a' Ha']. rewrite Ha' in Hw.
    apply (Hw (length a')); [|by rewrite lookup_app_r, length_app, Nat.add_1_r, Nat.sub_diag;
      rewrite ?length_app; simpl; try lia].
    rewrite <- app_assoc. by apply list_lookup_middle.
Qed.

Lemma from_index_split x path :
  x ∈ path → ∃ l1 l2, path = l1 ++ x :: l2 ∧ x ∉ l1 ∧ from_index x path = x :: l2.
Proof.
  induction path as [|y path IH]; intros Hx; [by apply not_elem_of_nil in Hx|].
  cbn [from_index]. case_decide as Hyx.
  - subst. exists [], path. split_and!; [done|apply not_elem_of_nil|done].
  - apply elem_of_cons in Hx as [->|Hx]; [done|].
    destruct (IH Hx) as (l1 & l2 & -> & Hn & Heq).
    exists (y :: l1), l2. split_and!; [done| |done]. rewrite not_elem_of_cons. naive_solver.
Qed.

Lemma from_index_app x l1 l2 : x ∉ l1 → from_index x (l1 ++ x :: l2) = x :: l2.
Proof.
  induction l1 as [|y l1 IH]; intros Hn; cbn [app from_index].
  - by rewrite decide_True.
  - apply not_elem_of_cons in Hn as [? ?]. rewrite decide_False by done. by apply IH.
Qed.

(** Closing a simple path on one of its nodes gives an elementary cycle. *)
Lemma from_index_elementary g root path p x :
  simple_path g root path → last path = Some p → child_of g p x → x ∈ path →
  elementary g (from_index x path).
Proof.
  intros [_ Hnd Hw] Hlast Hchild Hx.
  destruct (from_index_split x path Hx) as (l1 & l2 & -> & _ & ->).
  split; [done|by apply NoDup_app in Hnd as (_ & _ & ?)|by eapply walk_app_inv_r|].
  intros a b Ha [= <-]. rewrite last_app, Ha in Hlast. by simplify_eq.
Qed.

(** From a root that reaches a cycle there is a simple path that meets the
    cycle only at its end. *)
Lemma first_meeting g root v c :
  rtc (child_of g) root v → v ∈ c →
  ∃ l d, simple_path g root (l ++ [d]) ∧ d ∈ c ∧ ∀ y, y ∈ l → y ∉ c.
Proof.
  intros Hreach Hv.
  induction Hreach as [v|x y v Hxy _ IH].
  - exists [], v. split_and!; [|done|by intros y ?%not_elem_of_nil].
    split; [done|apply NoDup_singleton|apply walk_singleton].
  - destruct (decide (x ∈ c)) as [Hxc|Hxc].
    { exists [], x. split_and!; [|done|by intros z ?%not_elem_of_nil].
      split; [done|apply NoDup_singleton|apply walk_singleton]. }
    destruct (IH Hv) as (l & d & [Hh Hnd Hw] & Hd & Hl).
    destruct (decide (x ∈ l)) as [Hxl|Hxl].
    + apply list_elem_of_split in Hxl as (l1 & l2 & ->).
      exists (x :: l2), d. rewrite <- app_assoc in Hnd, Hw. split_and!; [|done|].
      * split; [done|by apply NoDup_app in Hnd as (_ & _ & ?)|by eapply walk_app_inv_r].
      * intros z Hz. apply Hl. apply elem_of_app. by right.
    + exists (x :: l), d. split_and!; [|done|].
      * split; [done|..].
        -- cbn [app]. apply NoDup_cons. split; [|done].
           rewrite elem_of_app, list_elem_of_singleton. intros [?| ->]; done.
        -- destruct l as [|z l]; cbn [app] in *; injection Hh as ->; by apply walk_cons.
      * intros z [->|Hz]%elem_of_cons; [done|by apply Hl].
Qed.

(** ** One call of the search *)
Definition pairwise_distinct (cs : list (list K)) : Prop :=
  ∀ (i j : nat) c d, i < j → cs !! i = Some c → cs !! j = Some d → ¬ rotated c d.

Lemma pairwise_distinct_snoc cs c :
  pairwise_distinct cs → ¬ recorded cs c → pairwise_distinct (cs ++ [c]).
Proof.
  intros Hp Hn i j a b Hij Ha Hb.
  destruct (decide (j < length cs)) as [Hj|Hj].
  - rewrite lookup_app_l in Ha, Hb by lia. by eapply (Hp i j).
  - rewrite lookup_app_r in Hb by lia. apply list_lookup_singleton_Some in Hb as [Hj0 <-].
    rewrite lookup_app_l in Ha by lia. intros Hr. apply Hn. exists a.
    split; [by eapply list_elem_of_lookup_2|done].
Qed.

Lemma is_dup_spec c cs :
  c ≠ [] → ∃ b, is_dup c cs = Ok b ∧ (b = true ↔ recorded cs c).
Proof.
  intros Hc. induction cs as [|d cs (b & Hb & Hiff)]; cbn [is_dup].
  { exists false. split; [done|]. split; [done|]. by intros (d & ?%not_elem_of_nil & _). }
  destruct (is_rotated_ok d c Hc) as (b' & -> & Hb'). rewrite bind_Ok.
  assert (recorded (d :: cs) c ↔ rotated d c ∨ recorded cs c) as Hrec.
  { split.
    - intros (e & [->|He]%elem_of_cons & Hr); [by left|right; by exists e].
    - intros [Hr|(e & He & Hr)]; [exists d|exists e]; (split; [|done]);
        apply elem_of_cons; auto. }
  destruct b'; [exists true|exists b]; (split; [done|]); rewrite Hrec.
  - split; [intros _; left; by apply Hb'|done].
  - rewrite Hiff. split; [tauto|]. intros [Hr|?]; [|done]. by apply Hb' in Hr.
Qed.

Definition sound g s : Prop :=
  (∀ c, c ∈ cycles s → elementary g c) ∧ pairwise_distinct (cycles s).

(** The effect of the loop over the children of a path. *)
Record visited_children g path (cs : list K) s s' : Prop := {
  vc_sound : sound g s';
  vc_cycles : ∃ new, cycles s' = cycles s ++ new;
  vc_recorded : ∀ x, x ∈ cs → x ∈ path → recorded (cycles s') (from_index x path);
  vc_paths : ∃ new, paths s' = new ++ paths s ∧ length new ≤ length cs ∧
               ∀ q, q ∈ new ↔ ∃ x, x ∈ cs ∧ x ∉ path ∧ q = path ++ [x];
  vc_visited : ∀ v, v ∈ visited_nodes s' → v ∈ visited_nodes s ∨ v ∈ cs }.

Lemma visit_child_spec g root path p s x :
  simple_path g root path → last path = Some p → child_of g p x → sound g s →
  ∃ s', visit_child path s x = Ok s' ∧ visited_children g path [x] s s'.
Proof.
  intros Hpath Hlast Hx [Hsound Hdist]. unfold visit_child. case_bool_decide as Hin.
  - pose proof (from_index_elementary _ _ _ _ _ Hpath Hlast Hx Hin) as Hel.
    destruct (is_dup_spec (from_index x path) (cycles s) (elementary_ne _ _ Hel))
      as (b & -> & Hb). rewrite bind_Ok. eexists. split; [done|]. destruct b.
    + split; [done|exists []; by rewrite app_nil_r| | |by left].
      * intros y ->%list_elem_of_singleton _. by apply Hb.
      * exists []. split_and!; [done|simpl; lia|]. intros q.
        rewrite elem_of_nil. setoid_rewrite list_elem_of_singleton. naive_solver.
    + split; [split|by eexists| | |by left]; cbn [cycles paths].
      * intros c [Hc| ->%list_elem_of_singleton]%elem_of_app; [by apply Hsound|done].
      * apply pairwise_distinct_snoc; [done|]. intros Hr. by apply Hb in Hr.
      * intros y ->%list_elem_of_singleton _. exists (from_index x path).
        split; [|apply rotated_refl]. apply elem_of_app. right. by apply list_elem_of_singleton.
      * exists []. split_and!; [done|simpl; lia|]. intros q.
        rewrite elem_of_nil. setoid_rewrite list_elem_of_singleton. naive_solver.
  - eexists. split; [done|]. split; [done|exists []; by rewrite app_nil_r| | |];
      cbn [paths visited_nodes].
    + intros y ->%list_elem_of_singleton. done.
    + exists [path ++ [x]]. split_and!; [done|simpl; lia|]. intros q.
      setoid_rewrite list_elem_of_singleton. naive_solver.
    + intros v. rewrite elem_of_union, elem_of_singleton, list_elem_of_singleton. tauto.
Qed.

Lemma visited_children_trans g path cs cs' s1 s2 s3 :
  visited_children g path cs s1 s2 → visited_children g path cs' s2 s3 →
  visited_children g path (cs ++ cs') s1 s3.
Proof.
  intros [_ [n1 Hc1] Hr1 (p1 & Hp1 & Hl1 & Hq1) Hv1] [Hs2 [n2 Hc2] Hr2 (p2 & Hp2 & Hl2 & Hq2) Hv2].
  split; [done|..].
  - exists (n1 ++ n2). by rewrite Hc2, Hc1, app_assoc.
  - intros x [Hx|Hx]%elem_of_app Hin; [|by apply Hr2].
    rewrite Hc2. by apply recorded_app_l, Hr1.
  - exists (p2 ++ p1). rewrite Hp2, Hp1, app_assoc. split_and!; [done|rewrite !length_app; lia|].
    intros q. rewrite elem_of_app, Hq1, Hq2. setoid_rewrite elem_of_app. naive_solver.
  - intros v Hv. rewrite elem_of_app. apply Hv2 in Hv as [Hv|?]; [apply Hv1 in Hv|]; tauto.
Qed.

Lemma visit_children_spec g root path p cs s :
  simple_path g root path → last path = Some p → (∀ x, x ∈ cs → child_of g p x) → sound g s →
  ∃ s', fold_res (visit_child path) s cs = Ok s' ∧ visited_children g path cs s s'.
Proof.
  intros Hpath Hlast. revert s. induction cs as [|x cs IH]; intros s Hcs Hs.
  { exists s. split; [done|]. split; [done|exists []; by rewrite app_nil_r| | |by left].
    - by intros x ?%not_elem_of_nil.
    - exists []. split_and!; [done|done|]. intros q. setoid_rewrite elem_of_nil. naive_solver. }
  destruct (visit_child_spec g root path p s x Hpath Hlast) as (s1 & Heq & Hv1);
    [apply Hcs; by left|done|].
  destruct (IH s1) as (s2 & Heq2 & Hv2);
    [intros y Hy; apply Hcs; by right|by apply Hv1|].
  exists s2. cbn [fold_res]. rewrite Heq, bind_Ok. split; [done|].
  by apply (visited_children_trans _ _ [x] cs _ s1).
Qed.

Lemma visit_path_spec g root path s :
  simple_path g root path → sound g s →
  ∃ cs s', visit_path g path s = Ok s' ∧ visited_children g path cs s s' ∧
    length cs ≤ max_children g ∧
    ∀ p x, last path = Some p → x ∈ cs ↔ child_of g p x.
Proof.
  intros Hpath Hs.
  destruct (last path) as [p|] eqn:Hlast; cycle 1.
  { apply last_None in Hlast as ->. by destruct Hpath. }
  pose proof Hlast as (l & Hl)%last_Some. unfold visit_path.
  assert (py_index path (-1) = Ok p) as -> by (rewrite Hl; apply py_index_last).
  rewrite bind_Ok. destruct (g !! p) as [cs|] eqn:Hg.
  - destruct (visit_children_spec g root path p cs s Hpath Hlast) as (s' & -> & Hv);
      [by eexists|done|].
    exists cs, s'. split_and!; [done..| |].
    + unfold max_children. apply elem_of_map_to_list in Hg.
      induction (map_to_list g) as [|kc kcs IH]; [by apply not_elem_of_nil in Hg|].
      simpl. apply elem_of_cons in Hg as [<-|Hg]; [simpl; lia|]. specialize (IH Hg). lia.
    + intros p' x [= <-]. unfold child_of. rewrite Hg. naive_solver.
  - destruct (visit_children_spec g root path p [] s Hpath Hlast) as (s' & Heq & Hv);
      [by intros x ?%not_elem_of_nil|done|].
    exists [], s. injection Heq as <-. split_and!; [done..|simpl; lia|].
    intros p' x [= <-]. rewrite elem_of_nil. unfold child_of. rewrite Hg. naive_solver.
Qed.

(** ** The loop over the stack of paths *)
Definition path_closed g (cs : list (list K)) path : Prop :=
  ∀ p x, last path = Some p → child_of g p x → x ∈ path → recorded cs (from_index x path).

(** Every simple path from the root is finished or extends one on the stack. *)
Record search_inv g (root : K) (seen : gset K) s : Prop := {
  si_sound : sound g s;
  si_paths : ∀ path, path ∈ paths s → simple_path g root path;
  si_cover : ∀ path, simple_path g root path →
    path_closed g (cycles s) path ∨ ∃ q, q ∈ paths s ∧ q `prefix_of` path;
  si_visited : ∀ v, v ∈ visited_nodes s → v ∈ seen ∨ rtc (child_of g) root v }.

Lemma simple_path_reaches g root path v :
  simple_path g root path → v ∈ path → rtc (child_of g) root v.
Proof.
  intros [Hh _ Hw] Hv. apply list_elem_of_lookup in Hv as [i Hi].
  destruct path as [|x path]; [done|]. injection Hh as ->.
  by apply (walk_rtc _ (root :: path) 0 i); [|lia| |].
Qed.

Lemma search_inv_step g root seen s path rest :
  search_inv g root seen s → paths s = path :: rest →
  ∃ s' new, visit_path g path (Search (cycles s) (visited_nodes s) rest) = Ok s' ∧
    search_inv g root seen s' ∧ paths s' = new ++ rest ∧ length new ≤ max_children g ∧
    ∀ q, q ∈ new → length q = S (length path).
Proof.
  intros [Hs Hpaths Hcover Hvis] Heq.
  assert (simple_path g root path) as Hpath by (apply Hpaths; rewrite Heq; by left).
  destruct (visit_path_spec g root path (Search (cycles s) (visited_nodes s) rest) Hpath Hs)
    as (cs & s' & -> & [Hsound [newc Hcyc] Hrec (new & Hp & Hlen & Hnew) Hv] & Hmax & Hcs).
  cbn [cycles paths visited_nodes] in *.
  exists s', new. split_and!; [done| |done|lia|].
  2: { intros q (x & _ & _ & ->)%Hnew. rewrite length_app. simpl. lia. }
  assert (∃ p, last path = Some p) as [p Hlast].
  { apply last_is_Some. intros ->. by destruct Hpath. }
  split; [done|..].
  - intros q. rewrite Hp. intros [(x & Hx & Hn & ->)%Hnew|Hq]%elem_of_app.
    + destruct Hpath as [Hh Hnd Hw]. split.
      * destruct path; [done|by injection Hh as ->].
      * apply NoDup_app. split_and!; [done| |apply NoDup_singleton].
        intros y Hy ->%list_elem_of_singleton. done.
      * apply walk_join; [done|apply walk_singleton|]. intros a b Ha [= <-].
        by apply (Hcs a x).
    + apply Hpaths. rewrite Heq. by right.
  - intros path' Hpath'. destruct (Hcover path' Hpath') as [Hc|(q & Hq & Hpre)].
    { left. intros p' x ???. rewrite Hcyc. apply recorded_app_l. by eapply Hc. }
    rewrite Heq in Hq. apply elem_of_cons in Hq as [->|Hq].
    2: { right. exists q. rewrite Hp, elem_of_app. tauto. }
    destruct Hpre as [[|x k] ->].
    + left. rewrite app_nil_r. intros p' x Hp' Hx Hin. apply Hrec; [by eapply Hcs|done].
    + right. exists (path ++ [x]). split; [|exists k; by rewrite <- app_assoc].
      rewrite Hp, elem_of_app, Hnew. left. exists x. destruct Hpath' as [_ Hnd Hw].
      split_and!; [|apply NoDup_app in Hnd as (_ & Hd & _)|done].
      * apply (Hcs p); [done|]. apply last_Some in Hlast as [l ->].
        rewrite <- app_assoc in Hw. apply (Hw (length l));
          [by apply list_lookup_middle|]. rewrite lookup_app_r by lia.
        by replace (S (length l) - length l) with 1 by lia.
      * intros Hin. apply (Hd x Hin). by left.
  - intros v Hv'. apply Hv in Hv' as [Hv'|Hv']; [by apply Hvis|right].
    eapply rtc_r; [|by apply (Hcs p)].
    eapply simple_path_reaches; [exact Hpath|].
    apply last_Some in Hlast as [l ->]. apply elem_of_app. right. by left.
Qed.

(** A simple path of length [n] weighs [(b + 1) ^ (N - n)]. *)
Definition weight g path : nat :=
  S (max_children g) ^ (size (graph_nodes g) - length path).

Lemma child_in_graph g p x : child_of g p x → p ∈ graph_nodes g ∧ x ∈ graph_nodes g.
Proof.
  intros (cs & Hg & Hx). unfold graph_nodes. split; apply elem_of_union.
  - left. apply elem_of_dom. by eexists.
  - right. apply elem_of_list_to_set, list_elem_of_In, in_concat.
    exists cs. split; [|by apply list_elem_of_In]. apply list_elem_of_In, list_elem_of_fmap.
    exists (p, cs). by rewrite elem_of_map_to_list.
Qed.

Lemma simple_path_length g root path :
  root ∈ graph_nodes g → simple_path g root path → length path ≤ size (graph_nodes g).
Proof.
  intros Hroot Hp. rewrite <- (size_list_to_set (C:=gset K) path) by apply Hp.
  apply subseteq_size. intros v. rewrite elem_of_list_to_set. intros Hv.
  pose proof (simple_path_reaches _ _ _ _ Hp Hv) as Hr.
  apply rtc_inv_r in Hr as [->|(y & _ & Hy)]; [done|]. by apply child_in_graph in Hy as [_ ?].
Qed.

Lemma sum_list_bound (l : list nat) m : (∀ x : nat, x ∈ l → x = m) → sum_list l = length l * m.
Proof.
  induction l as [|y l IH]; intros Hl; [done|]. simpl.
  rewrite IH by (intros; apply Hl; by right). rewrite (Hl y) by by left. lia.
Qed.

Lemma search_loop_total g root seen fuel s :
  root ∈ graph_nodes g → search_inv g root seen s →
  sum_list (weight g <$> paths s) < fuel →
  ∃ s', search_loop fuel g s = Ok s' ∧ search_inv g root seen s' ∧ paths s' = [].
Proof.
  intros Hroot. revert s. induction fuel as [|fuel IH]; intros s Hinv Hf; [lia|].
  cbn [search_loop]. destruct (paths s) as [|path rest] eqn:Heq; [by exists s|].
  destruct (search_inv_step _ _ _ _ _ _ Hinv Heq) as (s' & new & -> & Hinv' & Hp & Hlen & Hnew).
  rewrite bind_Ok. apply IH; [done|]. rewrite Hp, fmap_app, sum_list_with_app.
  change (weight g path + sum_list (weight g <$> rest) < S fuel) in Hf.
  assert (sum_list (weight g <$> new) < weight g path); [|lia].
  destruct new as [|q new].
  { simpl. unfold weight. apply Nat.neq_0_lt_0, Nat.pow_nonzero. lia. }
  assert (length path < size (graph_nodes g)) as Hlt.
  { specialize (Hnew q ltac:(by left)).
    assert (simple_path g root q) as Hq.
    { apply (si_paths _ _ _ _ Hinv'). rewrite Hp. by left. }
    apply simple_path_length in Hq; [lia|done]. }
  rewrite (sum_list_bound _ (S (max_children g) ^ (size (graph_nodes g) - S (length path)))).
  - rewrite length_fmap. unfold weight.
    replace (size (graph_nodes g) - length path)
      with (S (size (graph_nodes g) - S (length path))) by lia.
    rewrite Nat.pow_succ_r'. 
    assert (0 < S (max_children g) ^ (size (graph_nodes g) - S (length path)));
      [apply Nat.neq_0_lt_0, Nat.pow_nonzero; lia|]. nia.
  - intros x (q' & -> & Hq')%list_elem_of_fmap. unfold weight. by rewrite (Hnew q' Hq').
Qed.

(** ** Completeness *)
Definition node_covered g (cs : list (list K)) (v : K) : Prop :=
  ∀ c, elementary g c → v ∈ c → recorded cs c.

Lemma finished_search_covers g root seen s v :
  search_inv g root seen s → paths s = [] → rtc (child_of g) root v →
  node_covered g (cycles s) v.
Proof.
  intros Hinv Hempty Hreach c Hc Hv.
  destruct (first_meeting g root v c Hreach Hv) as (l & d & [Hh Hnd Hw] & Hd & Hl).
  apply list_elem_of_split in Hd as (c1 & c2 & ->).
  pose proof (elementary_rotate _ _ _ Hc) as Hrot.
  assert (Hpath : simple_path g root (l ++ (d :: c2) ++ c1)).
  { split.
    - destruct l; done.
    - apply NoDup_app in Hnd as (Hndl & _ & _). apply NoDup_app.
      split_and!; [done| |by apply Hrot]. intros y Hy Hy'. apply (Hl y Hy).
      by rewrite Permutation_app_comm.
    - rewrite <- app_comm_cons. apply walk_app; [done|apply Hrot]. }
  destruct (si_cover _ _ _ _ Hinv _ Hpath) as [Hclosed|(q & Hq & _)];
    [|rewrite Hempty in Hq; by apply not_elem_of_nil in Hq].
  assert (d ∉ l) as Hdl.
  { apply NoDup_app in Hnd as (_ & Hdis & _). intros Hin. apply (Hdis d Hin). by left. }
  destruct (last ((d :: c2) ++ c1)) as [p|] eqn:Hlast; [|by apply last_None in Hlast].
  destruct (Hclosed p d) as (e & He & Hr).
  - by rewrite last_app, Hlast.
  - by apply Hrot.
  - apply elem_of_app. right. by left.
  - rewrite <- app_comm_cons, from_index_app in Hr by done.
    exists e. split; [done|]. eapply rotated_trans; [exact Hr|].
    exists (d :: c2), c1. by rewrite app_comm_cons.
Qed.

Lemma node_covered_mono g cs cs' v : node_covered g cs v → node_covered g (cs ++ cs') v.
Proof. intros Hn c Hc Hv. by apply recorded_app_l, Hn. Qed.

(** ** The loop over the roots *)
Section roots.
Context `{!DictOrder K} `{!DictOrderOk K}.

(** Between roots the stack is empty and every cycle through a node that was
    a root, or was visited, is recorded. *)
Definition roots_inv g (roots : list K) s : Prop :=
  sound g s ∧ paths s = [] ∧
  ∀ v, v ∈ roots ∨ v ∈ visited_nodes s → node_covered g (cycles s) v.

Lemma search_cycles_grow g fuel s s' :
  search_loop fuel g s = Ok s' → ∃ new, cycles s' = cycles s ++ new.
Proof.
  revert s. induction fuel as [|fuel IH]; intros s Hs; [done|]. cbn [search_loop] in Hs.
  destruct (paths s) as [|path rest]; [exists []; rewrite app_nil_r; congruence|].
  apply bind_Ok_inv in Hs as (s1 & Hv & Hs). apply IH in Hs as [n1 ->].
  enough (∃ n0, cycles s1 = cycles s ++ n0) as [n0 ->].
  { exists (n0 ++ n1). by rewrite app_assoc. }
  unfold visit_path in Hv. apply bind_Ok_inv in Hv as (p & _ & Hv).
  destruct (g !! p) as [cs|]; [|injection Hv as <-; exists []; by rewrite app_nil_r].
  revert Hv. generalize (visited_nodes s) rest. generalize (cycles s).
  induction cs as [|x cs IHcs]; intros c v r Hv; cbn [fold_res] in Hv.
  - injection Hv as <-. exists []. by rewrite app_nil_r.
  - apply bind_Ok_inv in Hv as ([c1 v1 r1] & Hx & Hv). apply IHcs in Hv as [n ->].
    unfold visit_child in Hx. case_bool_decide; [|by simplify_eq/=; eexists].
    apply bind_Ok_inv in Hx as (b & _ & Hx). destruct b; simplify_eq/=; [by eexists|].
    eexists. by rewrite <- app_assoc.
Qed.

Lemma search_root_inv g roots s r :
  roots_inv g roots s → r ∈ graph_nodes g →
  ∃ s', search_root g s r = Ok s' ∧ roots_inv g (r :: roots) s'.
Proof.
  intros (Hs & Hp & Hcov) Hr. unfold search_root. case_bool_decide as Hin.
  { exists s. split; [done|]. unfold roots_inv. split_and!; [apply Hs..|done|]. intros v [[->|Hv]%elem_of_cons|Hv]; apply Hcov; tauto. }
  assert (Hinit : search_inv g r (visited_nodes s) (Search (cycles s) (visited_nodes s) [[r]])).
  { split; cbn [cycles paths visited_nodes]; [done|..].
    - intros path ->%list_elem_of_singleton.
      split; [done|apply NoDup_singleton|apply walk_singleton].
    - intros [|x path] Hpath; [by destruct Hpath|]. right. exists [r].
      split; [by apply list_elem_of_singleton|].
      destruct Hpath as [[= ->] _ _]. by exists path.
    - by left. }
  destruct (search_loop_total g r (visited_nodes s) (search_fuel g) _ Hr Hinit)
    as (s' & Heq & Hinv & Hp').
  { cbn. unfold search_fuel, weight. cbn [length].
    assert (S (max_children g) ^ (size (graph_nodes g) - 1)
            ≤ S (max_children g) ^ size (graph_nodes g)); [|unfold id; lia].
    apply Nat.pow_le_mono_r; lia. }
  exists s'. split; [done|]. unfold roots_inv. split; [apply Hinv|]. split; [done|].
  assert (Hreach : ∀ v, rtc (child_of g) r v → node_covered g (cycles s') v)
    by (intros; by eapply finished_search_covers).
  apply search_cycles_grow in Heq as [new Hnew]. cbn [cycles] in Hnew.
  assert (Hold : ∀ v, node_covered g (cycles s) v → node_covered g (cycles s') v)
    by (rewrite Hnew; intros; by apply node_covered_mono).
  intros v [[->|Hv]%elem_of_cons|Hv]; [by apply Hreach|by apply Hold, Hcov; left|].
  apply (si_visited _ _ _ _ Hinv) in Hv as [Hv|Hv]; [by apply Hold, Hcov; right|by apply Hreach].
Qed.

(** C2: [find_cycles] terminates without an exception on every graph.  Each
    list it yields is an elementary cycle of the graph, no two of them are
    rotations of each other, and every elementary cycle is yielded up to
    rotation. *)
Theorem find_cycles_exact g :
  ∃ cs, find_cycles g = Ok cs ∧
    (∀ c, c ∈ cs → elementary g c) ∧
    pairwise_distinct cs ∧
    (∀ c, elementary g c → ∃ d, d ∈ cs ∧ rotated d c).
Proof.
  assert (Hloop : ∀ roots done s, roots_inv g done s →
    (∀ r, r ∈ roots → r ∈ graph_nodes g) →
    ∃ s', fold_res (search_root g) s roots = Ok s' ∧ roots_inv g (reverse roots ++ done) s').
  { induction roots as [|r roots IH]; intros done s Hs Hroots; [by exists s|].
    destruct (search_root_inv g done s r Hs) as (s1 & Heq & Hs1); [apply Hroots; by left|].
    destruct (IH _ _ Hs1) as (s' & Heq' & Hs'); [intros; apply Hroots; by right|].
    exists s'. cbn [fold_res]. rewrite Heq, bind_Ok. split; [done|].
    by rewrite reverse_cons, <- app_assoc. }
  destruct (Hloop (dict_keys g) [] (Search [] ∅ [])) as (s & Heq & (Hsound & Hdist) & _ & Hcov).
  - split_and!; [split|done|].
    + by intros c ?%not_elem_of_nil.
    + intros i j c d _ Hc. by destruct i.
    + intros v [?%not_elem_of_nil|Hv]; [done|]. by apply not_elem_of_empty in Hv.
  - intros r Hr. apply elem_of_dict_keys in Hr. apply elem_of_union. left.
    by apply elem_of_dom.
  - exists (cycles s). unfold find_cycles. rewrite Heq. split_and!; [done..|].
    intros c Hc. destruct (last c) as [p|] eqn:Hlast;
      [|apply last_None in Hlast; by destruct (elementary_ne _ _ Hc)].
    destruct (head c) as [x|] eqn:Hhead;
      [|apply head_None in Hhead; by destruct (elementary_ne _ _ Hc)].
    apply (Hcov p); [|done|].
    + left. rewrite app_nil_r, elem_of_reverse. apply elem_of_dict_keys.
      destruct (elementary_closes _ _ Hc p x Hlast Hhead) as (cs & Hcs & _). by eexists.
    + apply last_Some in Hlast as [l ->]. apply elem_of_app. right. by left.
Qed.
End roots.
End cycles.

Lemma find_cycles_exact_witness :
  let g : gmap Z (list Z) := {[ 1%Z := [2%Z]; 2%Z := [1%Z] ]} in
  @find_cycles Z _ _ tree_order g = Ok [[2; 1]]%Z ∧
  ∃ cs, @find_cycles Z _ _ tree_order g = Ok cs ∧
    (∀ c, c ∈ cs → elementary g c) ∧ pairwise_distinct cs ∧
    (∀ c, elementary g c → ∃ d, d ∈ cs ∧ rotated d c).
Proof.
  split; [reflexivity|]. apply (@find_cycles_exact Z _ _ tree_order tree_order_ok).
Defined.
