(* ===== verification/Ns3rc.v ===== *)
(** * Reading Python-syntax configuration files ([utils.py])

    [get_list_from_file] and [get_bool_from_file] scan a text for a line that
    mentions a name and evaluate what follows the first ["="];
    [read_config_file] applies them to the [.ns3rc] of the working directory
    or of the home directory.  The evaluation of the right-hand side is the
    interpreter's [eval], an argument of the definitions. *)

From S2P Require Import Prelude PyStr.
From Stdlib Require Import Ascii.

Local Open Scope string_scope.

(** The files that can be read, by path, with their text. *)
Abbreviation file_system := (gmap string string).

Definition path_exists (fs : file_system) (p : string) : bool := has_key fs p.

(** [s.split('=', 1)[1].strip()]. *)
Definition right_hand_side (s : string) : result exn string :=
  strip <$> of_option IndexError (split_once "="%char s).2.

Section Readers.
Context {A : Type} (eval_list : string → result exn (list A)).
Context (eval_bool : string → result exn bool).

(** The loop of [get_list_from_file]: [acc] is [list_string], [parsing] is
    [parsing_multiline_list]. *)
Fixpoint scan_list (list_name acc : string) (parsing : bool) (ls : list string) :
    result exn (list A) :=
  match ls with
  | [] => Ok []
  | line :: ls' =>
      if contains list_name line || parsing then
        let acc' := acc +:+ line in
        if negb (contains "]" acc') then scan_list list_name acc' true ls'
        else rhs ← right_hand_side acc'; eval_list rhs
      else scan_list list_name acc parsing ls'
  end.

Definition get_list_from_file (fs : file_system) (file_path list_name : string) :
    result exn (list A) :=
  match fs !! file_path with
  | None => Ok []
  | Some text => scan_list list_name "" false (lines text)
  end.

(** The loop of [get_bool_from_file]; [None] when [bool_found] stays
    [False]. *)
Fixpoint scan_bool (bool_name : string) (ls : list string) :
    result exn (option bool) :=
  match ls with
  | [] => Ok None
  | line :: ls' =>
      if contains bool_name line then
        rhs ← right_hand_side line; b ← eval_bool rhs; Ok (Some b)
      else scan_bool bool_name ls'
  end.

(** [bool_found] is assigned inside the [if] only. *)
Definition get_bool_from_file (fs : file_system) (file_path bool_name : string)
    (value_if_missing : bool) : result exn bool :=
  match fs !! file_path with
  | None => Raise UnboundLocalError
  | Some text =>
      found ← scan_bool bool_name (lines text);
      Ok (default value_if_missing found)
  end.
End Readers.

(** ** [read_config_file] *)
Record config := Config {
  config_file_exists : bool;
  modules_enabled : list string;
  examples_enabled : bool;
  tests_enabled : bool }.

Definition all_modules : list string := ["all_modules"].

Section Config.
Context (eval_list : string → result exn (list string)).
Context (eval_bool : string → result exn bool).
(** [home] is [os.path.expanduser('~/')]. *)
Context (home : string).

(** The path the function settles on, if any. *)
Definition dot_ns3rc_path (fs : file_system) : option string :=
  if path_exists fs ".ns3rc" then Some ".ns3rc"
  else if path_exists fs (home +:+ ".ns3rc") then Some (home +:+ ".ns3rc")
  else None.

Definition read_config_file (fs : file_system) : result exn config :=
  match dot_ns3rc_path fs with
  | None => Ok (Config false all_modules false false)
  | Some p =>
      modules ← get_list_from_file eval_list fs p "modules_enabled";
      let modules := match modules with [] => all_modules | _ => modules end in
      examples ← get_bool_from_file eval_bool fs p "examples_enabled" false;
      tests ← get_bool_from_file eval_bool fs p "tests_enabled" false;
      Ok (Config true modules examples tests)
  end.
End Config.

(** ** A literal evaluator, for concrete files

    What [eval] returns on the two shapes of right-hand side the [.ns3rc]
    files of the repository use. *)
Fixpoint literal_items (in_str : bool) (acc s : string) : list string :=
  match s with
  | "" => []
  | String c s' =>
      if bool_decide (c = "'"%char) then
        if in_str then acc :: literal_items false "" s' else literal_items true "" s'
      else if in_str then literal_items true (acc +:+ String c "") s'
      else literal_items false acc s'
  end.

Definition literal_list (s : string) : result exn (list string) :=
  if startswith "[" s then Ok (literal_items false "" s) else Raise (ValueError s).

Definition literal_bool (s : string) : result exn bool :=
  if bool_decide (s = "True") then Ok true
  else if bool_decide (s = "False") then Ok false
  else Raise (ValueError s).

(** ** What the scan of a list finds *)
Section Scanning.
Context {A : Type} (eval_list : string → result exn (list A)).

Lemma scan_list_skip name ls1 ls2 :
  Forall (λ l, contains name l = false) ls1 →
  scan_list eval_list name "" false (ls1 ++ ls2) =
  scan_list eval_list name "" false ls2.
Proof. induction 1 as [|l ls Hl _ IH]; [done|]. simpl. by rewrite Hl. Qed.

(** From the line that mentions the name on, lines accumulate up to the
    first closing bracket. *)
Lemma scan_list_accumulate name acc parsing body after :
  contains_char newline name = false →
  parsing = true ∨ startswith name body = true →
  contains_char "]" (acc +:+ body) = false →
  scan_list eval_list name acc parsing (lines (body +:+ "]" +:+ nl +:+ after)) =
  (rhs ← right_hand_side (acc +:+ body +:+ "]" +:+ nl); eval_list rhs).
Proof.
  intros Hname. remember (String.length body) as n eqn:Hn. revert body acc parsing Hn.
  induction (lt_wf n) as [n _ IH]; intros body acc parsing -> Hstart Hbr.
  destruct (first_line body) as [Hb|(l & s & -> & Hl)].
  - rewrite (str_app_assoc body). rewrite lines_first
      by (by rewrite contains_char_app, Hb).
    cbn [scan_list].
    assert (contains name ((body +:+ "]") +:+ nl) || parsing = true) as ->.
    { destruct Hstart as [->|Hs]; [apply orb_true_r|].
      apply orb_true_iff; left. apply startswith_contains.
      by do 2 apply startswith_trans. }
    rewrite contains_single, !contains_char_app. simpl.
    rewrite !orb_true_r. simpl. by rewrite <- !str_app_assoc.
  - rewrite <- !str_app_assoc. rewrite lines_first by done. cbn [scan_list].
    assert (contains name (l +:+ nl) || parsing = true) as ->.
    { destruct Hstart as [->|Hs]; [apply orb_true_r|].
      apply orb_true_iff; left. apply startswith_contains.
      apply startswith_trans. by eapply startswith_first_line. }
    rewrite contains_single. rewrite !contains_char_app in Hbr |- *.
    apply orb_false_iff in Hbr as [Ha Hbr].
    apply orb_false_iff in Hbr as [Hbl Hbr].
    apply orb_false_iff in Hbr as [_ Hbr]. rewrite Ha, Hbl. simpl.
    rewrite (IH (String.length s)); [by rewrite <- !str_app_assoc|..|done|by left|].
    + rewrite !str_length_app. simpl. lia.
    + rewrite !contains_char_app, Ha, Hbl. exact Hbr.
Qed.

Lemma right_hand_side_list name body :
  contains_char "=" name = false →
  right_hand_side (name +:+ " = [" +:+ body +:+ "]" +:+ nl) = Ok ("[" +:+ body +:+ "]").
Proof.
  intros Hname. unfold right_hand_side.
  change (" = [" +:+ body +:+ "]" +:+ nl) with (" " +:+ String "=" (" [" +:+ body +:+ "]" +:+ nl)).
  rewrite str_app_assoc, split_once_app by (by rewrite contains_char_app, Hname).
  simpl. unfold strip. do 2 f_equal.
  rewrite str_app_assoc. change ("]" +:+ nl) with (String "]" nl).
  rewrite rstrip_end by done. reflexivity.
Qed.
End Scanning.

(** ** The configuration file, printed and read back *)

Definition print_bool (b : bool) : string := if b then "True" else "False".

Definition print_list (l : list string) : string :=
  "[" +:+ join ", " ((λ s, "'" +:+ s +:+ "'") <$> l) +:+ "]".

Definition print_config (modules : list string) (examples tests : bool) : string :=
  "modules_enabled = " +:+ print_list modules +:+ nl +:+
  ("examples_enabled = " +:+ print_bool examples +:+ nl +:+
   ("tests_enabled = " +:+ print_bool tests +:+ nl)).

Section Printed.
Context (eval_list : string → result exn (list string)).
Context (eval_bool : string → result exn bool).
Context (Hbool : ∀ b, eval_bool (print_bool b) = Ok b).

Lemma scan_bool_skip name l ls :
  contains name l = false →
  scan_bool eval_bool name (l :: ls) = scan_bool eval_bool name ls.
Proof. intros Hl. simpl. by rewrite Hl. Qed.

Lemma lines_assignment name b s :
  contains_char newline name = false →
  lines (name +:+ print_bool b +:+ nl +:+ s) = (name +:+ print_bool b +:+ nl) :: lines s.
Proof.
  intros Hn. rewrite str_app_assoc, lines_first, <- str_app_assoc; [done|].
  rewrite contains_char_app, Hn. by destruct b.
Qed.

Lemma scan_print_examples body examples tests :
  contains_char newline body = false →
  contains "examples_enabled" ("modules_enabled = [" +:+ body +:+ "]" +:+ nl) = false →
  scan_bool eval_bool "examples_enabled"
    (lines ("modules_enabled = [" +:+ body +:+ "]" +:+ nl +:+
      ("examples_enabled = " +:+ print_bool examples +:+ nl +:+
       ("tests_enabled = " +:+ print_bool tests +:+ nl)))) = Ok (Some examples).
Proof.
  intros Hb He. rewrite (str_app_assoc body "]"), (str_app_assoc "modules_enabled = [").
  rewrite lines_first by (by rewrite !contains_char_app, Hb).
  rewrite scan_bool_skip by (by rewrite <- !str_app_assoc).
  rewrite lines_assignment by done.
  transitivity (b ← eval_bool (print_bool examples); mret (M:=result exn) (Some b)).
  - by destruct examples.
  - by rewrite Hbool.
Qed.

Lemma scan_print_tests body examples tests :
  contains_char newline body = false →
  contains "tests_enabled" ("modules_enabled = [" +:+ body +:+ "]" +:+ nl) = false →
  scan_bool eval_bool "tests_enabled"
    (lines ("modules_enabled = [" +:+ body +:+ "]" +:+ nl +:+
      ("examples_enabled = " +:+ print_bool examples +:+ nl +:+
       ("tests_enabled = " +:+ print_bool tests +:+ nl)))) = Ok (Some tests).
Proof.
  intros Hb He. rewrite (str_app_assoc body "]"), (str_app_assoc "modules_enabled = [").
  rewrite lines_first by (by rewrite !contains_char_app, Hb).
  rewrite scan_bool_skip by (by rewrite <- !str_app_assoc).
  rewrite lines_assignment by done.
  transitivity (b ← eval_bool (print_bool tests); mret (M:=result exn) (Some b)).
  - by destruct examples, tests.
  - by rewrite Hbool.
Qed.
End Printed.

(** [get_list_from_file] returns the value of the list bound to the name:
    when the first line that mentions the name begins [name = [body]], however
    many lines the body takes, the call evaluates exactly [[body]], whatever
    precedes and follows; the closing bracket is the first one of the text
    from that line on. *)
Theorem get_list_from_file_finds {A} (eval_list : string → result exn (list A))
    (fs : file_system) (p name before body after : string) :
  fs !! p = Some (before +:+ (name +:+ " = [" +:+ body +:+ "]" +:+ nl +:+ after)) →
  before = "" ∨ (∃ b, before = b +:+ nl) →
  Forall (λ l, contains name l = false) (lines before) →
  contains_char newline name = false → contains_char "=" name = false →
  contains_char "]" name = false → contains_char "]" body = false →
  get_list_from_file eval_list fs p name = eval_list ("[" +:+ body +:+ "]").
Proof.
  intros Hfs Hend Hbefore Hnl Heq Hbr Hbody. unfold get_list_from_file. rewrite Hfs.
  assert (∀ x, lines (before +:+ x) = (lines before ++ lines x)%list) as ->.
  { intros x. destruct Hend as [->|[b ->]]; [done|apply lines_app]. }
  rewrite scan_list_skip by done.
  replace (name +:+ " = [" +:+ body +:+ "]" +:+ nl +:+ after)
    with ((name +:+ " = [" +:+ body) +:+ "]" +:+ nl +:+ after)
    by (by rewrite <- !str_app_assoc).
  rewrite scan_list_accumulate; [|done|right; apply startswith_app|].
  - change ("" +:+ ?x) with x. rewrite <- !str_app_assoc.
    by rewrite right_hand_side_list.
  - change ("" +:+ ?x) with x. rewrite !contains_char_app, Hbr. simpl.
    by rewrite Hbody.
Qed.

Lemma get_list_from_file_finds_witness :
  get_list_from_file literal_list
    (<["bindings.py" := "# modules" +:+ nl +:+ ("modules_enabled = ['core'," +:+ nl +:+
       "  'wifi']" +:+ nl +:+ ("tests_enabled = False" +:+ nl))]> ∅)
    "bindings.py" "modules_enabled" = Ok ["core"; "wifi"].
Proof.
  rewrite (get_list_from_file_finds literal_list _ "bindings.py" "modules_enabled"
    ("# modules" +:+ nl) ("'core'," +:+ nl +:+ "  'wifi'") ("tests_enabled = False" +:+ nl));
    try reflexivity.
  - right. by exists "# modules".
  - repeat constructor.
Defined.

(** reading back a printed [.ns3rc] gives the configuration it was printed
    from, in the working directory whatever the home directory holds, and in
    the home directory when the working directory has none; without either
    file every module is enabled and examples and tests are not. *)
Theorem read_config_file_roundtrip
    (eval_list : string → result exn (list string)) (eval_bool : string → result exn bool)
    (home : string) (fs : file_system) (modules : list string) (examples tests : bool)
    (body := join ", " ((λ s, "'" +:+ s +:+ "'") <$> modules)) :
  (∀ b, eval_bool (print_bool b) = Ok b) →
  eval_list (print_list modules) = Ok modules → modules ≠ [] →
  contains_char "]" body = false → contains_char newline body = false →
  contains "examples_enabled" ("modules_enabled = [" +:+ body +:+ "]" +:+ nl) = false →
  contains "tests_enabled" ("modules_enabled = [" +:+ body +:+ "]" +:+ nl) = false →
  (fs !! ".ns3rc" = Some (print_config modules examples tests) ∨
   fs !! ".ns3rc" = None ∧ fs !! (home +:+ ".ns3rc") = Some (print_config modules examples tests) →
   read_config_file eval_list eval_bool home fs = Ok (Config true modules examples tests)) ∧
  (fs !! ".ns3rc" = None → fs !! (home +:+ ".ns3rc") = None →
   read_config_file eval_list eval_bool home fs = Ok (Config false all_modules false false)).
Proof.
  intros Hbool Hlist Hne Hbr Hnl He Ht. split.
  - intros Hfs.
    assert (∃ p, dot_ns3rc_path home fs = Some p ∧
                 fs !! p = Some (print_config modules examples tests)) as (p & Hp & Hfp).
    { unfold dot_ns3rc_path, path_exists. destruct Hfs as [Hfs|[Hn Hfs]].
      - exists ".ns3rc". rewrite (proj2 (has_key_true _ _)) by eauto. done.
      - exists (home +:+ ".ns3rc"). rewrite (proj2 (has_key_false _ ".ns3rc")) by done.
        rewrite (proj2 (has_key_true _ _)) by eauto. done. }
    unfold read_config_file. rewrite Hp.
    assert (get_list_from_file eval_list fs p "modules_enabled" = Ok modules) as ->.
    { unfold get_list_from_file. rewrite Hfp. unfold print_config, print_list. fold body.
      rewrite <- !str_app_assoc.
      change ("modules_enabled = " +:+ "[" +:+ ?x) with ("modules_enabled = [" +:+ x).
      rewrite (str_app_assoc "modules_enabled = [" body).
      rewrite scan_list_accumulate; [|done|by right; reflexivity|rewrite !contains_char_app; exact Hbr].
      rewrite <- !str_app_assoc.
      change ("" +:+ "modules_enabled = [" +:+ ?x) with ("modules_enabled" +:+ " = [" +:+ x).
      rewrite right_hand_side_list by done. simpl. exact Hlist. }
    unfold get_bool_from_file. rewrite Hfp. cbv beta iota. rewrite bind_Ok.
    unfold print_config, print_list. fold body.
    rewrite <- !str_app_assoc.
    change ("modules_enabled = " +:+ "[" +:+ ?x) with ("modules_enabled = [" +:+ x).
    rewrite scan_print_examples, scan_print_tests by done. simpl.
    by destruct modules.
  - intros H1 H2. unfold read_config_file, dot_ns3rc_path, path_exists.
    by rewrite !(proj2 (has_key_false _ _)).
Qed.

Lemma read_config_file_roundtrip_witness :
  read_config_file literal_list literal_bool "/home/ns3/"
    (<["/home/ns3/.ns3rc" := print_config ["core"; "wifi"] true false]> ∅) =
  Ok (Config true ["core"; "wifi"] true false).
Proof.
  apply (read_config_file_roundtrip literal_list literal_bool); try reflexivity.
  - by intros [].
  - done.
  - right. split; reflexivity.
Defined.

(** The documented result of [get_bool_from_file] for a missing file is the
    default; the code raises. *)
Lemma get_bool_missing_file eval_bool p name d :
  get_bool_from_file eval_bool ∅ p name d = Raise UnboundLocalError.
Proof. done. Qed.
