(* ===== verification/Jobs.v ===== *)
(** * Units of testing work ([test.py], lines 664-917)

    The [Job] class with its setters, [run_job_synchronously], which runs one
    shell command, and [worker_body], what a worker thread does with one job
    taken from its queue. *)

From S2P Require Import Prelude PyStr.

Local Open Scope string_scope.

(** ** The command line ([main]) *)
Record options := Options {
  buildpath : string;
  constrain : string;
  example : string;
  update_data : bool;
  valgrind : bool;
  kinds : bool;
  list_tests : bool;
  multiple : bool;
  nowaf : bool;
  pyexample : string;
  retain : bool;
  suite : string;
  text : string;
  verbose : bool;
  html : string;
  xml : string }.

(** The values of [parser.add_option(..., default=...)]. *)
Definition default_options : options := {|
  buildpath := ""; constrain := ""; example := ""; update_data := false;
  valgrind := false; kinds := false; list_tests := false; multiple := false;
  nowaf := false; pyexample := ""; retain := false; suite := ""; text := "";
  verbose := false; html := ""; xml := "" |}.

(** ** [class Job]

    [returncode] starts as [False], which compares equal to [0];
    [elapsed_time] is in milliseconds, the precision it is printed with. *)
Record Job := MkJob {
  is_break : bool;
  is_skip : bool;
  is_example : bool;
  is_pyexample : bool;
  shell_command : string;
  display_name : string;
  basedir : string;
  tempdir : string;
  cwd : string;
  tmp_file_name : string;
  returncode : Z;
  elapsed_time : Z;
  build_path : string }.

#[export] Instance Job_eq_dec : EqDecision Job.
Proof. solve_decision. Defined.

Definition new_job : Job := {|
  is_break := false; is_skip := false; is_example := false; is_pyexample := false;
  shell_command := ""; display_name := ""; basedir := ""; tempdir := ""; cwd := "";
  tmp_file_name := ""; returncode := 0; elapsed_time := 0; build_path := "" |}.

Definition set_is_break (b : bool) (j : Job) : Job :=
  MkJob b (is_skip j) (is_example j) (is_pyexample j) (shell_command j) (display_name j)
    (basedir j) (tempdir j) (cwd j) (tmp_file_name j) (returncode j) (elapsed_time j)
    (build_path j).

Definition set_is_skip (b : bool) (j : Job) : Job :=
  MkJob (is_break j) b (is_example j) (is_pyexample j) (shell_command j) (display_name j)
    (basedir j) (tempdir j) (cwd j) (tmp_file_name j) (returncode j) (elapsed_time j)
    (build_path j).

Definition set_is_example (b : bool) (j : Job) : Job :=
  MkJob (is_break j) (is_skip j) b (is_pyexample j) (shell_command j) (display_name j)
    (basedir j) (tempdir j) (cwd j) (tmp_file_name j) (returncode j) (elapsed_time j)
    (build_path j).

Definition set_is_pyexample (b : bool) (j : Job) : Job :=
  MkJob (is_break j) (is_skip j) (is_example j) b (shell_command j) (display_name j)
    (basedir j) (tempdir j) (cwd j) (tmp_file_name j) (returncode j) (elapsed_time j)
    (build_path j).

Definition set_shell_command (s : string) (j : Job) : Job :=
  MkJob (is_break j) (is_skip j) (is_example j) (is_pyexample j) s (display_name j)
    (basedir j) (tempdir j) (cwd j) (tmp_file_name j) (returncode j) (elapsed_time j)
    (build_path j).

Definition set_build_path (s : string) (j : Job) : Job :=
  MkJob (is_break j) (is_skip j) (is_example j) (is_pyexample j) (shell_command j)
    (display_name j) (basedir j) (tempdir j) (cwd j) (tmp_file_name j) (returncode j)
    (elapsed_time j) s.

Definition set_display_name (s : string) (j : Job) : Job :=
  MkJob (is_break j) (is_skip j) (is_example j) (is_pyexample j) (shell_command j) s
    (basedir j) (tempdir j) (cwd j) (tmp_file_name j) (returncode j) (elapsed_time j)
    (build_path j).

Definition set_basedir (s : string) (j : Job) : Job :=
  MkJob (is_break j) (is_skip j) (is_example j) (is_pyexample j) (shell_command j)
    (display_name j) s (tempdir j) (cwd j) (tmp_file_name j) (returncode j)
    (elapsed_time j) (build_path j).

Definition set_tempdir (s : string) (j : Job) : Job :=
  MkJob (is_break j) (is_skip j) (is_example j) (is_pyexample j) (shell_command j)
    (display_name j) (basedir j) s (cwd j) (tmp_file_name j) (returncode j)
    (elapsed_time j) (build_path j).

Definition set_cwd (s : string) (j : Job) : Job :=
  MkJob (is_break j) (is_skip j) (is_example j) (is_pyexample j) (shell_command j)
    (display_name j) (basedir j) (tempdir j) s (tmp_file_name j) (returncode j)
    (elapsed_time j) (build_path j).

Definition set_tmp_file_name (s : string) (j : Job) : Job :=
  MkJob (is_break j) (is_skip j) (is_example j) (is_pyexample j) (shell_command j)
    (display_name j) (basedir j) (tempdir j) (cwd j) s (returncode j)
    (elapsed_time j) (build_path j).

Definition set_returncode (rc : Z) (j : Job) : Job :=
  MkJob (is_break j) (is_skip j) (is_example j) (is_pyexample j) (shell_command j)
    (display_name j) (basedir j) (tempdir j) (cwd j) (tmp_file_name j) rc
    (elapsed_time j) (build_path j).

Definition set_elapsed_time (t : Z) (j : Job) : Job :=
  MkJob (is_break j) (is_skip j) (is_example j) (is_pyexample j) (shell_command j)
    (display_name j) (basedir j) (tempdir j) (cwd j) (tmp_file_name j) (returncode j)
    t (build_path j).

(** ** [run_job_synchronously] *)

(** What the operating system reports about a shell command: return code,
    standard output, standard error and elapsed milliseconds. *)
Record outcome := Outcome { retval : Z; out : string; err : string; elapsed : Z }.

Definition VALGRIND_SUPPRESSIONS_FILE : string := "testpy.supp".

(** The command line handed to the shell. *)
Definition job_command (builddir cmd : string) (grind is_python : bool) (bpath : string) :
    string :=
  let '(base, _) := path_split builddir in
  let suppressions_path := path_join base VALGRIND_SUPPRESSIONS_FILE in
  let path_cmd :=
    if is_python then "python " +:+ path_join base cmd
    else if negb (bool_decide (bpath = "")) then path_join bpath cmd
    else path_join builddir cmd in
  if grind then
    "valgrind --suppressions=" +:+ suppressions_path +:+
    " --leak-check=full --show-reachable=yes --error-exitcode=2 " +:+ path_cmd
  else path_cmd.

(** [os] runs a command in a directory. *)
Definition run_job_synchronously (os : string → string → outcome)
    (builddir cmd directory : string) (grind is_python : bool) (bpath : string) :
    outcome :=
  let r := os (job_command builddir cmd grind is_python bpath) directory in
  if grind && bool_decide (retval r = 0%Z) && contains "== LEAK SUMMARY:" (err r)
  then Outcome 2 (out r) (err r) (elapsed r)
  else r.

(** ** One turn of [worker_thread.run]

    [None] is the [return]; [Some j] is the job put on the output queue. *)
Definition suite_command (o : options) (j : Job) : string :=
  shell_command j +:+ " --xml --tempdir=" +:+ tempdir j +:+ " --out=" +:+
  tmp_file_name j +:+ " " +:+ (if update_data o then "--update-data" else "").

Definition worker_body (os : string → string → outcome) (o : options) (builddir : string)
    (thread_exit : bool) (j : Job) : option Job :=
  if is_break j then None
  else if thread_exit then Some (set_is_break true j)
  else if is_skip j then Some j
  else
    let r :=
      if is_example j || is_pyexample j then
        run_job_synchronously os builddir (shell_command j) (cwd j) (valgrind o)
          (is_pyexample j) (build_path j)
      else
        run_job_synchronously os builddir (suite_command o j) (cwd j) (valgrind o)
          false "" in
    Some (set_elapsed_time (elapsed r) (set_returncode (retval r) j)).

(** ** Lemmas *)

(** A job up to what a worker writes into it. *)
Definition request (j : Job) : Job :=
  set_is_break false (set_returncode 0 (set_elapsed_time 0 j)).

Lemma worker_body_request os o bd ex j j' :
  worker_body os o bd ex j = Some j' → request j' = request j.
Proof. unfold worker_body. intros. by case_goal. Qed.

Lemma worker_body_stops os o bd ex j :
  worker_body os o bd ex j = None ↔ is_break j = true.
Proof. unfold worker_body. case_goal; naive_solver. Qed.

Lemma worker_body_break os o bd ex j j' :
  worker_body os o bd ex j = Some j' → is_break j' = ex.
Proof.
  unfold worker_body. intros. case_goal; simpl;
  repeat match goal with H : context [if _ then _ else _] |- _ => case_match; simplify_eq/= end; done.
Qed.

(** ** Properties *)

(** the return code [run_job_synchronously] reports: a code other than 0
    is passed on unchanged, so a failure or crash is never masked by the leak
    scan; a 0 becomes 2 exactly when the job ran under valgrind and its
    standard error carries a leak summary; output, error text and time are
    always those of the command that was run. *)
Theorem run_job_synchronously_retval (os : string → string → outcome)
    (builddir cmd directory bpath : string) (grind is_python : bool)
    (r := os (job_command builddir cmd grind is_python bpath) directory)
    (r' := run_job_synchronously os builddir cmd directory grind is_python bpath) :
  (retval r ≠ 0%Z → r' = r) ∧
  (retval r = 0%Z →
    (retval r' = 2%Z ↔ grind = true ∧ contains "== LEAK SUMMARY:" (err r) = true) ∧
    (retval r' = 0%Z ↔ ¬ (grind = true ∧ contains "== LEAK SUMMARY:" (err r) = true))) ∧
  out r' = out r ∧ err r' = err r ∧ elapsed r' = elapsed r.
Proof.
  subst r'. unfold run_job_synchronously. fold r. split_and!.
  - intros Hr. rewrite (bool_decide_eq_false_2 _ Hr). by rewrite andb_false_r.
  - intros Hr. rewrite (bool_decide_eq_true_2 _ Hr), andb_true_r.
    destruct grind, (contains _ (err r)); simpl; rewrite ?Hr; naive_solver.
  - by destruct (_ && _).
  - by destruct (_ && _).
  - by destruct (_ && _).
Qed.

Definition leaky_os : string → string → outcome :=
  λ cmd _, Outcome 0 "" ("==7== LEAK SUMMARY:" +:+ nl) 12.

Lemma run_job_synchronously_retval_witness :
  retval (run_job_synchronously leaky_os "/ns3/build" "utils/test-runner" "/ns3" true false "")
    = 2%Z.
Proof.
  apply (run_job_synchronously_retval leaky_os "/ns3/build" "utils/test-runner" "/ns3" "" true
    false); [reflexivity|]. split; reflexivity.
Defined.

Example job_command_1 :
  job_command "/ns3/build" "examples/udp-echo" true false "" =
  "valgrind --suppressions=/ns3/testpy.supp --leak-check=full --show-reachable=yes --error-exitcode=2 /ns3/build/examples/udp-echo".
Proof. reflexivity. Qed.
