(* ===== verification/Workers.v ===== *)
(** * The worker threads of [test.py] as an interleaving

    [run_tests] starts [p] [worker_thread]s, puts every job and then one
    break job per worker on [input_queue], collects as many results from
    [output_queue] as it dispatched jobs and joins the threads; the SIGINT
    hook may set [thread_exit] at any moment.  A state holds the two queues,
    what each thread is doing and how far the main thread has come; [step] has
    one rule per action of a thread between two synchronisation points, so
    the runs of the relation are the interleavings of the program. *)

From S2P Require Import Prelude PyStr Jobs.

Inductive worker :=
  | Idle                      (** in [input_queue.get()] *)
  | Busy (j : Job)            (** has taken [j] *)
  | Reporting (j : Job)       (** about to [output_queue.put(j)] *)
  | Stopped.                  (** returned from [run] *)

#[export] Instance worker_eq_dec : EqDecision worker.
Proof. solve_decision. Defined.

Record state := State {
  todo : list Job;            (** what the main thread has yet to dispatch *)
  input_queue : list Job;
  threads : list worker;
  output_queue : list Job;
  thread_exit : bool;
  remaining : nat;            (** rounds left of [for i in range(jobs)] *)
  collected : list Job;
  joined : nat }.             (** threads joined so far *)

(** The special job that tells a worker to stop. *)
Definition break_job : Job := set_is_break true new_job.

Definition init (p : nat) (js : list Job) : state :=
  State (js ++ replicate p break_job) [] (replicate p Idle) [] false (length js) [] 0.

Definition after_body (r : option Job) : worker :=
  match r with Some j => Reporting j | None => Stopped end.

Definition sigint_hook (s : state) : state :=
  State (todo s) (input_queue s) (threads s) (output_queue s) true (remaining s)
    (collected s) (joined s).

Section Machine.
Context (o : options) (builddir : string).

(** [work s s'] is a move of a thread of the program. *)
Inductive work : state → state → Prop :=
  | work_put j td iq ws oq ex n c k :
      work (State (j :: td) iq ws oq ex n c k) (State td (iq ++ [j]) ws oq ex n c k)
  | work_get i j td iq ws oq ex n c k :
      ws !! i = Some Idle →
      work (State td (j :: iq) ws oq ex n c k)
           (State td iq (<[i:=Busy j]> ws) oq ex n c k)
  | work_body i j os td iq ws oq ex n c k :
      ws !! i = Some (Busy j) →
      work (State td iq ws oq ex n c k)
           (State td iq (<[i:=after_body (worker_body os o builddir ex j)]> ws)
              oq ex n c k)
  | work_report i j td iq ws oq ex n c k :
      ws !! i = Some (Reporting j) →
      work (State td iq ws oq ex n c k)
           (State td iq (<[i:=Idle]> ws) (oq ++ [j]) ex n c k)
  | work_collect j iq ws oq ex n c k :
      work (State [] iq ws (j :: oq) ex (S n) c k)
           (State [] iq ws oq ex n (c ++ [j]) k)
  | work_join iq ws oq ex c k :
      ws !! k = Some Stopped →
      work (State [] iq ws oq ex 0 c k) (State [] iq ws oq ex 0 c (S k)).

(** A step of the system: a move of a thread, or the interrupt. *)
Inductive step : state → state → Prop :=
  | step_work s s' : work s s' → step s s'
  | step_sigint s : thread_exit s = false → step s (sigint_hook s).

(** The main thread has joined every worker. *)
Definition finished (s : state) : Prop :=
  todo s = [] ∧ remaining s = 0 ∧ joined s = length (threads s).
End Machine.

#[export] Hint Constructors work step : pydb.

(** ** What a state owes and what it has delivered *)
Definition busy_of (w : worker) : list Job :=
  match w with Busy j => [j] | _ => [] end.

Definition reporting_of (w : worker) : list Job :=
  match w with Reporting j => [j] | _ => [] end.

Definition stopped_of (w : worker) : nat :=
  match w with Stopped => 1 | _ => 0 end.

Definition unstarted (s : state) : list Job :=
  todo s ++ input_queue s ++ (threads s ≫= busy_of).

Definition reported (s : state) : list Job :=
  (threads s ≫= reporting_of) ++ output_queue s ++ collected s.

Definition stopped (s : state) : nat := sum_list_with stopped_of (threads s).

(** The three things a move can do to those: nothing, turn a taken job into
    its result, or consume a break job and a worker. *)
Inductive effect (o : options) (bd : string) (s s' : state) : Prop :=
  | effect_none :
      unstarted s' ≡ₚ unstarted s → reported s' ≡ₚ reported s → stopped s' = stopped s →
      effect o bd s s'
  | effect_result os j j' :
      worker_body os o bd (thread_exit s) j = Some j' →
      unstarted s ≡ₚ j :: unstarted s' → reported s' ≡ₚ j' :: reported s →
      stopped s' = stopped s → effect o bd s s'
  | effect_stop j :
      is_break j = true →
      unstarted s ≡ₚ j :: unstarted s' → reported s' ≡ₚ reported s →
      stopped s' = S (stopped s) → effect o bd s s'.

Lemma work_effect o bd s s' : work o bd s s' → effect o bd s s'.
Proof.
  destruct 1 as [j td iq ws oq ex n c k|i j td iq ws oq ex n c k Hi
    |i j os td iq ws oq ex n c k Hi|i j td iq ws oq ex n c k Hi| |];
  try (apply insert_split in Hi as (l1 & l2 & -> & Hins); rewrite ?Hins).
  - apply effect_none; unfold unstarted, reported; simpl; [solve_Permutation|done..].
  - apply effect_none; unfold unstarted, reported, stopped; simpl;
      rewrite ?bind_app, ?sum_list_with_app; simpl; [solve_Permutation|done..].
  - destruct (worker_body os o bd ex j) as [j'|] eqn:E.
    + eapply effect_result; [exact E|..]; unfold unstarted, reported, stopped; simpl;
        rewrite ?Hins, ?bind_app, ?sum_list_with_app; simpl; [solve_Permutation..|done].
    + apply effect_stop with j; [by eapply worker_body_stops|..];
        unfold unstarted, reported, stopped; simpl;
        rewrite ?Hins, ?bind_app, ?sum_list_with_app; simpl; [solve_Permutation|done|lia].
  - apply effect_none; unfold unstarted, reported, stopped; simpl;
      rewrite ?bind_app, ?sum_list_with_app; simpl; [solve_Permutation..|done].
  - apply effect_none; unfold unstarted, reported; simpl; [done|solve_Permutation|done].
  - by apply effect_none.
Qed.

(** ** The invariant *)
Abbreviation real := (λ j, is_break j = false).

Record inv (o : options) (bd : string) (p : nat) (js : list Job) (s : state) : Prop := Inv {
  inv_threads : length (threads s) = p;
  inv_rounds : remaining s + length (collected s) = length js;
  (** every job is waiting or reported, once *)
  inv_jobs : (request <$> filter real (unstarted s)) ++ (request <$> reported s)
             ≡ₚ request <$> js;
  (** a break job or a stopped thread per worker *)
  inv_breaks : length (filter (λ j, is_break j = true) (unstarted s)) + stopped s = p;
  (** the input queue is first in, first out: the jobs come before the break
      jobs, and none is left once a break job has been taken *)
  inv_fifo : ∃ rs n, input_queue s ++ todo s = rs ++ replicate n break_job ∧
             Forall real rs ∧ (n < p → rs = []);
  inv_joined : Forall (λ w, w = Stopped) (take (joined s) (threads s)) ∧
               joined s ≤ p;
  inv_sources : Forall (λ j, is_break j = true ∨ j ∈ js) (unstarted s);
  inv_results : Forall (λ j', ∃ os b j, j ∈ js ∧ (b = true → thread_exit s = true) ∧
                  worker_body os o bd b j = Some j') (reported s) }.

Lemma filter_replicate_break n : filter real (replicate n break_job) = [].
Proof. by induction n. Qed.

Lemma bind_replicate_nil {A B} (f : A → list B) x n : f x = [] → replicate n x ≫= f = [].
Proof. intros Hf. induction n as [|n IH]; [done|]. cbn. by rewrite Hf. Qed.

Lemma init_unstarted p js : unstarted (init p js) = js ++ replicate p break_job.
Proof. unfold unstarted. simpl. by rewrite bind_replicate_nil, app_nil_r. Qed.

Lemma init_inv o bd p js : Forall real js → inv o bd p js (init p js).
Proof.
  intros Hjs.
  assert (stopped (init p js) = 0) as Hstop.
  { unfold stopped. simpl. by induction p. }
  assert (reported (init p js) = []) as Hrep.
  { unfold reported. simpl. by rewrite bind_replicate_nil. }
  split; rewrite ?init_unstarted, ?Hstop, ?Hrep; simpl.
  - by rewrite length_replicate.
  - lia.
  - rewrite filter_app, filter_replicate_break, !app_nil_r.
    by rewrite filter_all.
  - rewrite filter_app, length_app.
    rewrite filter_none by (eapply Forall_impl; [exact Hjs|]; intros j ->; done).
    rewrite filter_all by (by apply Forall_replicate).
    rewrite length_replicate. simpl. lia.
  - exists js, p. split_and!; [done..|lia].
  - split; [constructor|lia].
  - apply Forall_app. split.
    + apply Forall_forall. by right.
    + apply Forall_forall. intros j [-> _]%elem_of_replicate. by left.
  - constructor.
Qed.

(** Each part of the invariant is preserved because of the effect alone, but
    for the two that speak of the order of the queue and of the joins. *)
Lemma effect_jobs o bd s s' js :
  effect o bd s s' →
  (request <$> filter real (unstarted s)) ++ (request <$> reported s) ≡ₚ request <$> js →
  (request <$> filter real (unstarted s')) ++ (request <$> reported s') ≡ₚ request <$> js.
Proof.
  intros [Hu Hr _|os j j' Hj Hu Hr _|j Hj Hu Hr _] <-.
  - by rewrite Hu, Hr.
  - rewrite Hu, Hr. assert (is_break j = false) as Hb.
    { destruct (is_break j) eqn:E; [|done].
      rewrite (proj2 (worker_body_stops _ _ _ _ _) E) in Hj. done. }
    rewrite filter_cons_True by done. simpl.
    rewrite (worker_body_request _ _ _ _ _ _ Hj). solve_Permutation.
  - rewrite Hu, Hr. rewrite filter_cons_False by (by rewrite Hj). done.
Qed.

Lemma effect_breaks o bd s s' p :
  effect o bd s s' →
  length (filter (λ j, is_break j = true) (unstarted s)) + stopped s = p →
  length (filter (λ j, is_break j = true) (unstarted s')) + stopped s' = p.
Proof.
  intros [Hu _ Hs|os j j' Hj Hu _ Hs|j Hj Hu _ Hs] <-; rewrite Hu, Hs; [done|..].
  - rewrite filter_cons_False; [done|].
    intros Hb. by rewrite (proj2 (worker_body_stops os o bd _ _) Hb) in Hj.
  - rewrite filter_cons_True by done. simpl. lia.
Qed.

Lemma effect_sources o bd s s' (P : Job → Prop) :
  effect o bd s s' → Forall P (unstarted s) → Forall P (unstarted s').
Proof.
  intros [Hu _ _|os j j' Hj Hu _ _|j Hj Hu _ _]; rewrite Hu; [done|..]; by inversion 1.
Qed.

Lemma work_thread_exit o bd s s' : work o bd s s' → thread_exit s' = thread_exit s.
Proof. by destruct 1. Qed.

Lemma effect_results o bd s s' (js : list Job) :
  effect o bd s s' → thread_exit s' = thread_exit s →
  Forall (λ j, is_break j = true ∨ j ∈ js) (unstarted s) →
  Forall (λ j', ∃ os b j, j ∈ js ∧ (b = true → thread_exit s = true) ∧
            worker_body os o bd b j = Some j') (reported s) →
  Forall (λ j', ∃ os b j, j ∈ js ∧ (b = true → thread_exit s' = true) ∧
            worker_body os o bd b j = Some j') (reported s').
Proof.
  intros [_ Hr _|os j j' Hj Hu Hr _|j Hj _ Hr _] -> Hun; rewrite Hr; [done| |done].
  intros Hrep. constructor; [|done]. rewrite Hu in Hun.
  inversion_clear Hun as [|? ? [Hb|Hin] _].
  - by rewrite (proj2 (worker_body_stops os o bd (thread_exit s) j) Hb) in Hj.
  - by exists os, (thread_exit s), j.
Qed.

Lemma work_fifo o bd p s s' :
  work o bd s s' →
  (∃ rs n, input_queue s ++ todo s = rs ++ replicate n break_job ∧
    Forall real rs ∧ (n < p → rs = [])) →
  ∃ rs n, input_queue s' ++ todo s' = rs ++ replicate n break_job ∧
    Forall real rs ∧ (n < p → rs = []).
Proof.
  destruct 1 as [j td iq ws oq ex n c k|i j td iq ws oq ex n c k Hi| | | |]; try done.
  - simpl. by rewrite <- app_assoc.
  - simpl. intros (rs & m & Heq & Hrs & Hm). destruct rs as [|r rs].
    + destruct m as [|m]; [done|]. simpl in Heq. injection Heq as _ Heq.
      exists [], m. by split_and!.
    + injection Heq as _ Heq. exists rs, m. inversion Hrs; subst.
      split_and!; [done..|]. intros Hlt. by specialize (Hm Hlt).
Qed.

(** A stopped thread stays stopped. *)
Lemma insert_keeps_stopped ws k i w w' :
  ws !! i = Some w → w ≠ Stopped →
  Forall (λ w, w = Stopped) (take k ws) → Forall (λ w, w = Stopped) (take k (<[i:=w']> ws)).
Proof.
  intros Hi Hw Hk. rewrite Forall_lookup in Hk. apply Forall_lookup. intros i' x Hx.
  apply lookup_take_Some in Hx as [Hx Hlt].
  destruct (decide (i = i')) as [<-|Hne].
  - destruct Hw. apply (Hk i). by rewrite lookup_take_lt.
  - rewrite list_lookup_insert_ne in Hx by done. apply (Hk i'). by rewrite lookup_take_lt.
Qed.

Lemma work_joined o bd s s' :
  work o bd s s' →
  Forall (λ w, w = Stopped) (take (joined s) (threads s)) ∧ joined s ≤ length (threads s) →
  Forall (λ w, w = Stopped) (take (joined s') (threads s')) ∧
    joined s' ≤ length (threads s').
Proof.
  destruct 1 as [| | | | |iq ws oq ex c k Hk]; simpl; try done; rewrite ?length_insert;
    try (intros [??]; split; [by eapply insert_keeps_stopped|done]).
  intros [Hf Hle]. split; [|apply lookup_lt_Some in Hk; lia].
  rewrite (take_S_r _ _ _ Hk). apply Forall_app. by split; [|constructor].
Qed.

Lemma work_threads o bd s s' : work o bd s s' → length (threads s') = length (threads s).
Proof. by destruct 1; simpl; rewrite ?length_insert. Qed.

Lemma work_inv o bd p js s s' : work o bd s s' → inv o bd p js s → inv o bd p js s'.
Proof.
  intros Hw [Hp Hn Hj Hb Hf Hk Hsrc Hres]. pose proof (work_effect _ _ _ _ Hw) as He.
  rewrite <- Hp in Hk. split.
  - by rewrite (work_threads _ _ _ _ Hw).
  - destruct Hw; simpl in *; rewrite ?length_app; simpl; lia.
  - by eapply effect_jobs.
  - by eapply effect_breaks.
  - by eapply work_fifo.
  - rewrite <- Hp, <- (work_threads _ _ _ _ Hw). by eapply work_joined.
  - by eapply effect_sources.
  - eapply effect_results; [done| |done..]. by eapply work_thread_exit.
Qed.

Lemma step_inv o bd p js s s' : step o bd s s' → inv o bd p js s → inv o bd p js s'.
Proof.
  destruct 1 as [s s' Hw|s Hex]; [by apply work_inv|].
  intros [Hp Hn Hj Hb Hf Hk Hsrc Hres]. split; try done.
  eapply Forall_impl; [exact Hres|]. intros j' (os & b & j & Hin & _ & Hj').
  by exists os, b, j.
Qed.

Lemma reachable_inv o bd p js s :
  Forall real js → rtc (step o bd) (init p js) s → inv o bd p js s.
Proof.
  intros Hjs. revert s. apply rtc_ind_r; [by apply init_inv|].
  intros s s' _ Hstep IH. by eapply step_inv.
Qed.

(** ** Progress *)
Lemma worker_case ws :
  (∃ i j, ws !! i = Some (Busy j)) ∨ (∃ i j, ws !! i = Some (Reporting j)) ∨
  ws ≫= busy_of = [] ∧ ws ≫= reporting_of = [].
Proof.
  induction ws as [|w ws IH]; [by do 2 right|].
  destruct IH as [(i & j & Hi)|[(i & j & Hi)|[Hb Hr]]].
  - left. by exists (S i), j.
  - right; left. by exists (S i), j.
  - destruct w as [|j|j|]; [|left; by exists 0, j|right; left; by exists 0, j|];
      do 2 right; cbn in *; by rewrite Hb, Hr.
Qed.

Lemma idle_or_stopped ws :
  ws ≫= busy_of = [] → ws ≫= reporting_of = [] →
  (∃ i, ws !! i = Some Idle) ∨ Forall (λ w, w = Stopped) ws.
Proof.
  induction ws as [|w ws IH]; intros Hb Hr; [right; constructor|].
  destruct w as [|j|j|]; [left; by exists 0|done..|].
  destruct IH as [[i Hi]|Hf]; [done..| |]; [left; by exists (S i)|right; by constructor].
Qed.

Lemma stopped_threads ws :
  Forall (λ w, w = Stopped) ws →
  ws ≫= busy_of = [] ∧ ws ≫= reporting_of = [] ∧ sum_list_with stopped_of ws = length ws.
Proof. induction 1 as [|w ws -> _ (H1 & H2 & H3)]; [done|]. cbn in *. by rewrite H1, H2, H3. Qed.

Lemma stopped_le ws : sum_list_with stopped_of ws ≤ length ws.
Proof. induction ws as [|[] ws IH]; simpl; lia. Qed.

Lemma all_stopped ws :
  sum_list_with stopped_of ws = length ws → Forall (λ w, w = Stopped) ws.
Proof.
  induction ws as [|w ws IH]; intros Hs; [constructor|]. simpl in Hs.
  pose proof (stopped_le ws).
  destruct w; simpl in Hs; try lia. constructor; [done|]. apply IH. lia.
Qed.

Lemma request_length o bd p js s :
  inv o bd p js s → length (filter real (unstarted s)) + length (reported s) = length js.
Proof.
  intros Hinv. pose proof (Permutation_length (inv_jobs _ _ _ _ _ Hinv)) as Hl.
  by rewrite length_app, !length_fmap in Hl.
Qed.

(** With every thread stopped there is no job left to take. *)
Lemma all_stopped_drained o bd p js s :
  inv o bd p js s → 0 < p → Forall (λ w, w = Stopped) (threads s) →
  input_queue s ++ todo s = [].
Proof.
  intros Hinv Hp Hst. destruct (inv_fifo _ _ _ _ _ Hinv) as (rs & n & Hq & Hrs & Hn).
  pose proof (inv_breaks _ _ _ _ _ Hinv) as Hb. pose proof (inv_threads _ _ _ _ _ Hinv) as Ht.
  destruct (stopped_threads _ Hst) as (Hbusy & _ & Hsum).
  unfold stopped, unstarted in Hb. rewrite Hsum, Hbusy, app_nil_r, Ht in Hb.
  assert (length (filter (λ j, is_break j = true) (input_queue s ++ todo s)) = 0) as Hz.
  { rewrite filter_app, length_app in Hb |- *. lia. }
  rewrite Hq, filter_app, length_app in Hz.
  rewrite (filter_all _ (replicate n break_job)), length_replicate in Hz
    by (by apply Forall_replicate).
  assert (n = 0) as -> by lia. rewrite Hn in Hq by lia. done.
Qed.

(** Nothing left to dispatch, take or deliver: the main thread is joining. *)
Lemma join_progress o bd p js iq ws ex n c k :
  inv o bd p js (State [] iq ws [] ex n c k) →
  ws ≫= busy_of = [] → ws ≫= reporting_of = [] → iq = [] →
  ¬ finished (State [] iq ws [] ex n c k) →
  ∃ s', work o bd (State [] iq ws [] ex n c k) s'.
Proof.
  intros Hinv Hb Hr -> Hnf. pose proof (request_length _ _ _ _ _ Hinv) as Hl.
  pose proof (inv_rounds _ _ _ _ _ Hinv) as Hn. pose proof (inv_threads _ _ _ _ _ Hinv) as Ht.
  pose proof (inv_breaks _ _ _ _ _ Hinv) as Hs.
  destruct (inv_joined _ _ _ _ _ Hinv) as [_ Hk].
  unfold unstarted, reported, stopped in *. simpl in *. rewrite Hb in Hl, Hs.
  rewrite Hr in Hl. simpl in *. rewrite <- Ht in Hs. apply all_stopped in Hs.
  assert (n = 0) as -> by lia.
  destruct (decide (k = p)) as [->|Hne]; [destruct Hnf; by split_and!|].
  destruct (lookup_lt_is_Some_2 ws k) as [w Hw]; [lia|].
  rewrite Forall_lookup in Hs. specialize (Hs _ _ Hw) as ->. eauto with pydb.
Qed.

Lemma work_progress o bd p js s :
  inv o bd p js s → 0 < p → ¬ finished s → ∃ s', work o bd s s'.
Proof.
  intros Hinv Hp Hnf. destruct s as [td iq ws oq ex n c k].
  destruct td as [|j td]; [|eauto with pydb].
  destruct (worker_case ws) as [(i & j & Hi)|[(i & j & Hi)|[Hb Hr]]].
  - exists (State [] iq (<[i:=after_body (worker_body (λ _ _, Outcome 0 "" "" 0) o bd ex j)]> ws)
      oq ex n c k). by constructor.
  - eauto with pydb.
  - destruct oq as [|j oq].
    + destruct iq as [|j iq]; [by eapply join_progress|].
      destruct (idle_or_stopped ws Hb Hr) as [[i Hi]|Hst]; [eauto with pydb|].
      by pose proof (all_stopped_drained _ _ _ _ _ Hinv Hp Hst).
    + destruct n as [|n]; [|eauto with pydb].
      pose proof (request_length _ _ _ _ _ Hinv) as Hl.
      pose proof (inv_rounds _ _ _ _ _ Hinv) as Hn. unfold reported in Hl.
      rewrite !length_app in Hl. simpl in *. lia.
Qed.

(** ** Termination *)
Definition weight (w : worker) : nat :=
  match w with Idle => 0 | Busy _ => 3 | Reporting _ => 2 | Stopped => 0 end.

Definition measure (s : state) : nat :=
  5 * length (todo s) + 4 * length (input_queue s) + sum_list_with weight (threads s) +
  length (output_queue s) + (length (threads s) - joined s) +
  (if thread_exit s then 0 else 1).

Lemma weight_after_body r : weight (after_body r) ≤ 2.
Proof. destruct r; simpl; lia. Qed.

Lemma step_decreases o bd s s' : step o bd s s' → measure s' < measure s.
Proof.
  unfold measure. destruct 1 as [s s' Hw|s Hex].
  - destruct Hw as [| | | | |iq ws oq ex c k Hk]; simpl;
      try (match goal with H : _ !! _ = Some _ |- _ =>
        apply insert_split in H as (l1 & l2 & -> & Hins); rewrite Hins end;
        rewrite !sum_list_with_app, !length_app; simpl;
        try match goal with |- context [after_body ?r] => pose proof (weight_after_body r) end);
      rewrite ?length_app; simpl; try lia.
    apply lookup_lt_Some in Hk. destruct ex; lia.
  - simpl. rewrite Hex. lia.
Qed.

Lemma nsteps_measure o bd n s s' : nsteps (step o bd) n s s' → n + measure s' ≤ measure s.
Proof.
  induction 1 as [|n s s1 s' Hs _ IH]; [lia|]. apply step_decreases in Hs. lia.
Qed.

(** The requests collected at the end. *)
Lemma finished_requests o bd p js s :
  inv o bd p js s → 0 < p → finished s →
  request <$> collected s ≡ₚ request <$> js ∧
  input_queue s = [] ∧ output_queue s = [] ∧ Forall (λ w, w = Stopped) (threads s).
Proof.
  intros Hinv Hp (Htd & Hn & Hk).
  destruct (inv_joined _ _ _ _ _ Hinv) as [Hst _]. rewrite Hk, take_ge in Hst by lia.
  pose proof (all_stopped_drained _ _ _ _ _ Hinv Hp Hst) as [Hiq _]%app_eq_nil.
  pose proof (inv_jobs _ _ _ _ _ Hinv) as Hj. pose proof (inv_rounds _ _ _ _ _ Hinv) as Hrd.
  destruct (stopped_threads _ Hst) as (Hb & Hrep & _).
  pose proof (Permutation_length Hj) as Hl.
  unfold unstarted, reported in *. rewrite Htd, Hiq, Hb in Hj, Hl. rewrite Hrep in Hj, Hl.
  simpl in *. rewrite !length_fmap, length_app in Hl.
  assert (output_queue s = []) as Hoq by (apply nil_length_inv; lia).
  rewrite Hoq in Hj. by split_and!.
Qed.

(** ** Properties of every interleaving *)

(** C12: no deadlock: with at least one worker, as long as the main thread has
    not joined every thread, some thread of the program can move, whatever the
    schedule, the results of the commands and the moment of the interrupt. *)
Theorem workers_no_deadlock (o : options) (bd : string) (p : nat) (js : list Job) (s : state) :
  Forall real js → 0 < p → rtc (step o bd) (init p js) s → ¬ finished s →
  ∃ s', work o bd s s'.
Proof. intros Hjs Hp Hr Hnf. eapply work_progress; [|done..]. by apply reachable_inv. Qed.

Definition sample_job : Job := set_display_name "wifi" (set_is_example true new_job).

Lemma workers_no_deadlock_witness :
  ∃ s', work default_options "build" (init 2 [sample_job]) s'.
Proof.
  apply (workers_no_deadlock default_options "build" 2 [sample_job]);
    [by repeat constructor|lia|constructor|by intros [? _]].
Defined.

(** C13: termination: no run of the workers and the main thread is longer than
    five moves per job or break job, one per join and the interrupt. *)
Theorem workers_terminate (o : options) (bd : string) (p : nat) (js : list Job)
    (s : state) (n : nat) :
  nsteps (step o bd) n (init p js) s → n ≤ 5 * (length js + p) + p + 1.
Proof.
  intros Hn%nsteps_measure. unfold measure in Hn. simpl in Hn.
  rewrite length_app, !length_replicate in Hn.
  assert (sum_list_with weight (replicate p Idle) = 0) as Hz by (clear; by induction p).
  lia.
Qed.

Lemma workers_terminate_witness : 1 ≤ 5 * (length [sample_job] + 2) + 2 + 1.
Proof.
  eapply (workers_terminate default_options "build" 2 [sample_job]).
  eapply nsteps_l; [apply step_work; apply work_put|constructor].
Defined.

(** C14: at every moment of every run each dispatched job is either waiting (to
    be put, in the input queue or in the hands of a worker) or delivered (in
    the hands of a worker, in the output queue or collected), exactly once: no
    job is lost, duplicated or altered apart from its outcome, and break jobs
    never reach the output queue unless the run was interrupted. *)
Theorem workers_conserve_jobs (o : options) (bd : string) (p : nat) (js : list Job) (s : state) :
  Forall real js → rtc (step o bd) (init p js) s →
  (request <$> filter real (unstarted s)) ++ (request <$> reported s) ≡ₚ request <$> js ∧
  (thread_exit s = false → Forall real (reported s)).
Proof.
  intros Hjs Hr. pose proof (reachable_inv _ _ _ _ _ Hjs Hr) as Hinv. split.
  - by apply (inv_jobs _ _ _ _ _ Hinv).
  - intros Hex. eapply Forall_impl; [apply (inv_results _ _ _ _ _ Hinv)|].
    intros j' (os & b & j & _ & Hb & Hj). rewrite (worker_body_break _ _ _ _ _ _ Hj).
    destruct b; [|done]. rewrite Hb in Hex; done.
Qed.

Lemma workers_conserve_jobs_witness :
  Forall real (reported (init 2 [sample_job])).
Proof.
  apply (workers_conserve_jobs default_options "build" 2 [sample_job]);
    [by repeat constructor|constructor|done].
Defined.

(** C3: when the main thread is done, it has collected one result per job and
    every thread has stopped with both queues empty; each result is what a
    worker produces from one of the jobs, with the interrupt flag seen set only
    if the interrupt did happen. *)
Theorem workers_collect_all (o : options) (bd : string) (p : nat) (js : list Job) (s : state) :
  Forall real js → 0 < p → rtc (step o bd) (init p js) s → finished s →
  request <$> collected s ≡ₚ request <$> js ∧
  input_queue s = [] ∧ output_queue s = [] ∧ Forall (λ w, w = Stopped) (threads s) ∧
  Forall (λ j', ∃ os b j, j ∈ js ∧ (b = true → thread_exit s = true) ∧
            worker_body os o bd b j = Some j') (collected s).
Proof.
  intros Hjs Hp Hr Hf. pose proof (reachable_inv _ _ _ _ _ Hjs Hr) as Hinv.
  destruct (finished_requests _ _ _ _ _ Hinv Hp Hf) as (Hc & Hi & Ho & Hst).
  split_and!; [done..|]. pose proof (inv_results _ _ _ _ _ Hinv) as Hres.
  unfold reported in Hres. rewrite !Forall_app in Hres. by apply Hres.
Qed.

(** A run with one worker: dispatch, execution, collection, join. *)
Definition sample_os : string → string → outcome := λ _ _, Outcome 1 "" "" 7.

Definition sample_end : state :=
  State [] [] [Stopped] [] false 0 [set_elapsed_time 7 (set_returncode 1 sample_job)] 1.

Ltac one_move rule := eapply rtc_l; [apply step_work; rule; reflexivity|simpl].

Lemma sample_run :
  rtc (step default_options "build") (init 1 [sample_job]) sample_end.
Proof.
  one_move ltac:(apply work_put). one_move ltac:(apply (work_get _ _ 0)).
  one_move ltac:(apply (work_body _ _ 0 sample_job sample_os)).
  one_move ltac:(apply work_put). one_move ltac:(eapply (work_report _ _ 0)).
  one_move ltac:(apply (work_get _ _ 0)). one_move ltac:(apply work_collect).
  one_move ltac:(apply (work_body _ _ 0 break_job sample_os)).
  one_move ltac:(apply work_join). constructor.
Qed.

Lemma workers_collect_all_witness :
  request <$> collected sample_end ≡ₚ request <$> [sample_job].
Proof.
  apply (workers_collect_all default_options "build" 1 [sample_job] sample_end);
    [by repeat constructor|lia|exact sample_run|by split_and!].
Defined.
