(* ===== verification/Markup.v ===== *)
(** * Balanced markup

    The sequence of tags of a text and the check that they nest, for the XML
    and HTML that [test.py] writes piece by piece.  A piece is [neutral] when
    its tags nest and none is left open, and neutral pieces concatenate. *)

From S2P Require Import Prelude PyStr.
From Stdlib Require Import Ascii.

Local Open Scope string_scope.

(** ** The tags of a text

    The state is the tag being read, if any. *)
Definition scan_char (st : option string) (c : ascii) : option string * list string :=
  match st with
  | None => if decide (c = "<"%char) then (Some "", []) else (None, [])
  | Some t =>
      if decide (c = ">"%char) then (None, [t]) else (Some (t +:+ String c ""), [])
  end.

Fixpoint scan (st : option string) (s : string) : option string * list string :=
  match s with
  | "" => (st, [])
  | String c s' =>
      let '(st1, l1) := scan_char st c in
      let '(st2, l2) := scan st1 s' in (st2, (l1 ++ l2)%list)
  end.

(** A tag closes the element it names, stands alone or opens an element. *)
Inductive tag := Opening (name : string) | Closing (name : string) | Alone.

Definition tag_name (s : string) : string := (split_once " "%char s).1.

Definition parse_tag (s : string) : tag :=
  match s with
  | String "/" n => Closing n
  | String "?" _ => Alone
  | _ => if ends_with_slash s then Alone else Opening (tag_name s)
  end.

(** The stack of open elements after a list of tags. *)
Fixpoint nest (stack : list string) (l : list string) : option (list string) :=
  match l with
  | [] => Some stack
  | s :: l' =>
      match parse_tag s with
      | Opening n => nest (n :: stack) l'
      | Closing n =>
          match stack with
          | m :: stack' => if decide (m = n) then nest stack' l' else None
          | [] => None
          end
      | Alone => nest stack l'
      end
  end.

Definition balanced (s : string) : bool :=
  match scan None s with
  | (None, l) => bool_decide (nest [] l = Some [])
  | _ => false
  end.

(** [piece stack s stack'] : reading [s] between tags takes the open elements
    from [stack] to [stack']. *)
Definition piece (stack : list string) (s : string) (stack' : list string) : Prop :=
  (scan None s).1 = None ∧ nest stack (scan None s).2 = Some stack'.

Definition neutral (s : string) : Prop := ∀ stack, piece stack s stack.

(** ** Laws *)
Lemma scan_app st a b :
  scan st (a +:+ b) =
  ((scan (scan st a).1 b).1, ((scan st a).2 ++ (scan (scan st a).1 b).2)%list).
Proof.
  revert st. induction a as [|c a IH]; intros st.
  - change ("" +:+ b) with b. cbn [scan fst snd app]. by destruct (scan st b).
  - rewrite str_app_cons. cbn [scan]. destruct (scan_char st c) as [st1 l1].
    rewrite IH. destruct (scan st1 a) as [st2 l2]. simpl. by rewrite (assoc_L (++)%list).
Qed.

Lemma nest_app stack l1 l2 :
  nest stack (l1 ++ l2) = nest stack l1 ≫= λ stack', nest stack' l2.
Proof.
  revert stack. induction l1 as [|s l1 IH]; intros stack; [done|]. simpl.
  destruct (parse_tag s); [apply IH| |apply IH].
  destruct stack as [|m stack]; [done|]. case_decide; [apply IH|done].
Qed.

Lemma piece_app s1 s2 s3 a b : piece s1 a s2 → piece s2 b s3 → piece s1 (a +:+ b) s3.
Proof.
  intros [Ha Hna] [Hb Hnb]. unfold piece. rewrite scan_app, Ha. simpl.
  by rewrite nest_app, Hna.
Qed.

Lemma neutral_app a b : neutral a → neutral b → neutral (a +:+ b).
Proof. intros Ha Hb stack. by eapply piece_app. Qed.

Lemma neutral_empty : neutral "".
Proof. by intros stack. Qed.

(** A value interpolated between tags. *)
Lemma scan_plain s : contains_char "<" s = false → scan None s = (None, []).
Proof.
  induction s as [|c s IH]; intros Hs; [done|].
  cbn [contains_char] in Hs. apply orb_false_iff in Hs as [Hc%bool_decide_eq_false Hs].
  cbn [scan scan_char]. rewrite decide_False by congruence. by rewrite IH.
Qed.

Lemma neutral_plain s : contains_char "<" s = false → neutral s.
Proof. intros Hs stack. unfold piece. by rewrite scan_plain. Qed.

(** An element around a neutral text. *)
Lemma neutral_element o n s c :
  (∀ stack, piece stack o (n :: stack)) → neutral s →
  (∀ stack, piece (n :: stack) c stack) → neutral (o +:+ s +:+ c).
Proof. intros Ho Hs Hc stack. eapply piece_app; [apply Ho|]. by eapply piece_app. Qed.

Lemma neutral_balanced s : neutral s → balanced s = true.
Proof.
  intros Hs. destruct (Hs []) as [H1 H2]. unfold balanced.
  destruct (scan None s) as [st l]. simpl in *. rewrite H1. by apply bool_decide_eq_true.
Qed.

(** More elements open underneath do not matter. *)
Lemma nest_frame l stack stack' k :
  nest stack l = Some stack' → nest (stack ++ k)%list l = Some (stack' ++ k)%list.
Proof.
  revert stack. induction l as [|s l IH]; intros stack Hn; [by simplify_eq/=|].
  simpl in *. destruct (parse_tag s); [by apply (IH (_ :: _))| |by apply IH].
  destruct stack as [|m stack]; [done|]. simpl. case_decide; [by apply IH|done].
Qed.

Lemma balanced_neutral s : balanced s = true → neutral s.
Proof.
  unfold balanced. intros Hb stack. unfold piece.
  destruct (scan None s) as [[t|] l]; [done|]. apply bool_decide_eq_true in Hb.
  split; [done|]. simpl. by apply (nest_frame l [] [] stack) in Hb.
Qed.

Lemma balanced_iff s : balanced s = true ↔ neutral s.
Proof. split; [apply balanced_neutral|apply neutral_balanced]. Qed.

(** Numbers are plain: they consist of digits and a sign. *)
Definition not_numeric (c : ascii) : Prop :=
  c ≠ "-"%char ∧ ∀ n, pretty_N_char n ≠ c.

Lemma pretty_N_go_plain c x s :
  not_numeric c → contains_char c s = false → contains_char c (pretty_N_go x s) = false.
Proof.
  intros [Hm Hc]. revert s. induction (N.lt_wf_0 x) as [x _ IH]; intros s Hs.
  assert (x = 0 ∨ 0 < x)%N as [->|Hx] by lia; [done|].
  rewrite pretty_N_go_step by done. apply IH; [by apply N.div_lt|].
  cbn [contains_char]. rewrite Hs, orb_false_r. by apply bool_decide_eq_false.
Qed.

Lemma pretty_N_plain c (n : N) : not_numeric c → contains_char c (pretty n) = false.
Proof.
  intros Hc. unfold pretty, pretty_N. case_decide; [|by apply pretty_N_go_plain].
  cbn [contains_char]. rewrite orb_false_r. apply bool_decide_eq_false.
  intros ->. by apply (proj2 Hc 0%N).
Qed.

Lemma pretty_Z_plain c (n : Z) : not_numeric c → contains_char c (pretty n) = false.
Proof.
  intros Hc. unfold pretty, pretty_Z. destruct n as [|p|p].
  - change "0" with (pretty 0%N). by apply pretty_N_plain.
  - by apply pretty_N_plain.
  - transitivity (contains_char c "-" || contains_char c (pretty (N.pos p))).
    { apply contains_char_app. }
    rewrite pretty_N_plain by done. rewrite orb_false_r.
    cbn [contains_char]. rewrite orb_false_r. apply bool_decide_eq_false. apply Hc.
Qed.

Lemma not_numeric_lt : not_numeric "<".
Proof. split; [done|]. intros n. unfold pretty_N_char. by repeat case_match. Qed.

Lemma not_numeric_gt : not_numeric ">".
Proof. split; [done|]. intros n. unfold pretty_N_char. by repeat case_match. Qed.

(** A value interpolated inside a tag. *)
Lemma scan_inside t s :
  contains_char ">" s = false → scan (Some t) s = (Some (t +:+ s), []).
Proof.
  revert t. induction s as [|c s IH]; intros t Hs; [by rewrite app_empty_r|].
  cbn [contains_char] in Hs. apply orb_false_iff in Hs as [Hc%bool_decide_eq_false Hs].
  cbn [scan scan_char]. rewrite decide_False by congruence. rewrite IH by done. simpl.
  by rewrite <- str_app_assoc.
Qed.

Lemma ends_with_slash_snoc s : ends_with_slash (s +:+ "/") = true.
Proof.
  induction s as [|c s IH]; [done|]. rewrite str_app_cons. cbn [ends_with_slash].
  by destruct (s +:+ "/") eqn:E; [destruct s|].
Qed.

Lemma piece_neutral stack s : neutral s → piece stack s stack.
Proof. intros Hs. apply Hs. Qed.

(** A concrete piece of text is checked by evaluation, for every stack. *)
Ltac piece_by_eval :=
  lazymatch goal with
  | |- piece ?st ?s ?st' =>
      let r := eval vm_compute in (nest st (scan None s).2) in
      match r with Some ?st1 => unify st' st1; split; reflexivity end
  end.

(** Walk through a concatenation: literal pieces by evaluation, interpolated
    ones by the [pydb] hints on neutral texts. *)
Ltac pieces :=
  repeat (eapply piece_app; [first [piece_by_eval | solve [eauto with pydb]]|]);
  first [piece_by_eval | solve [eauto with pydb]].

#[export] Hint Resolve piece_neutral neutral_app neutral_plain neutral_empty : pydb.

Example balanced_1 : balanced "<a x=1>t<b/></a>" = true.
Proof. reflexivity. Qed.
Example balanced_2 : balanced "<a><b></a>" = false.
Proof. reflexivity. Qed.
