(* ===== verification/Results.v ===== *)
(** * What [run_tests] makes of the results ([test.py], lines 1423-1641)

    The main loop that takes the finished jobs one by one, prints a status for
    each, counts them and appends their XML to the results file, and the exit
    status of the run. *)

From S2P Require Import Prelude PyStr Ns3rc Jobs Markup.
From Stdlib Require Import Ascii.

Local Open Scope string_scope.

Record tally := Tally {
  passed_tests : nat;
  failed_tests : nat;
  crashed_tests : nat;
  valgrind_errors : nat;
  skipped_tests : nat;
  xml_results : string;         (** the text of [xml_results_file] *)
  printed : list string }.

Inductive status := SKIP | PASS | FAIL | VALGR | CRASH.

#[export] Instance status_eq_dec : EqDecision status.
Proof. solve_decision. Defined.

Definition status_name (s : status) : string :=
  match s with
  | SKIP => "SKIP" | PASS => "PASS" | FAIL => "FAIL" | VALGR => "VALGR" | CRASH => "CRASH"
  end.

Definition status_of (j : Job) : status :=
  if is_skip j then SKIP
  else if bool_decide (returncode j = 0%Z) then PASS
  else if bool_decide (returncode j = 1%Z) then FAIL
  else if bool_decide (returncode j = 2%Z) then VALGR
  else CRASH.

Definition count_status (s : status) (t : tally) : tally :=
  match s with
  | SKIP => Tally (passed_tests t) (failed_tests t) (crashed_tests t) (valgrind_errors t)
              (S (skipped_tests t)) (xml_results t) (printed t)
  | PASS => Tally (S (passed_tests t)) (failed_tests t) (crashed_tests t) (valgrind_errors t)
              (skipped_tests t) (xml_results t) (printed t)
  | FAIL => Tally (passed_tests t) (S (failed_tests t)) (crashed_tests t) (valgrind_errors t)
              (skipped_tests t) (xml_results t) (printed t)
  | VALGR => Tally (passed_tests t) (failed_tests t) (crashed_tests t) (S (valgrind_errors t))
              (skipped_tests t) (xml_results t) (printed t)
  | CRASH => Tally (passed_tests t) (failed_tests t) (S (crashed_tests t)) (valgrind_errors t)
              (skipped_tests t) (xml_results t) (printed t)
  end.

Definition write_xml (text : string) (t : tally) : tally :=
  Tally (passed_tests t) (failed_tests t) (crashed_tests t) (valgrind_errors t)
    (skipped_tests t) (xml_results t +:+ text) (printed t).

Definition print_line (line : string) (t : tally) : tally :=
  Tally (passed_tests t) (failed_tests t) (crashed_tests t) (valgrind_errors t)
    (skipped_tests t) (xml_results t) (printed t ++ [line])%list.

(** ['%.3f'] of a number of milliseconds, in seconds. *)
Definition pad3 (n : Z) : string :=
  (if bool_decide (n < 10)%Z then "00" else if bool_decide (n < 100)%Z then "0" else "")
  +:+ pretty n.

Definition show_seconds (ms : Z) : string :=
  pretty (ms / 1000)%Z +:+ "." +:+ pad3 (ms mod 1000)%Z.

(** The element written for an example. *)
Definition example_xml (j : Job) : string :=
  "<Example>" +:+ nl +:+
  ("  <Name>" +:+ display_name j +:+ "</Name>" +:+ nl +:+
   ("  <Result>" +:+ status_name (status_of j) +:+ "</Result>" +:+ nl +:+
    (("  <Time real=" +:+ String "034"%char (show_seconds (elapsed_time j) +:+
       String "034"%char "/>")) +:+ nl +:+
     ("</Example>" +:+ nl)))).

(** The element made up for a suite, with the text of its result line. *)
Definition suite_xml (name result : string) : string :=
  "<Test>" +:+ nl +:+
  ("  <Name>" +:+ name +:+ "</Name>" +:+ nl +:+
   ("  <Result>" +:+ result +:+ nl +:+ ("</Test>" +:+ nl))).

(** What a suite's turn appends to the results file; [Raise] is the failure to
    open the suite's own temporary file. *)
Definition suite_section (fs : file_system) (j : Job) : result exn string :=
  if is_skip j then Ok (suite_xml (display_name j) "SKIP</Result>")
  else if bool_decide (returncode j = 0%Z) || bool_decide (returncode j = 1%Z) ||
          bool_decide (returncode j = 2%Z)
  then of_option IOError (fs !! tmp_file_name j)
  else
    let crash := suite_xml (display_name j) "CRASH</Suite>" in
    if bool_decide (returncode j = 2%Z)
    then Ok (crash +:+ suite_xml (display_name j) "VALGR</Result>")
    else Ok crash.

Definition kind (j : Job) : string :=
  if is_example j || is_pyexample j then "Example" else "TestSuite".

(** One round of [for i in range(jobs)]. *)
Definition collect_one (fs : file_system) (t : tally) (j : Job) : result exn tally :=
  if is_break j then Ok t
  else
    let t := count_status (status_of j) t in
    let t := print_line (status_name (status_of j) +:+ ": " +:+ kind j +:+ " " +:+
                         display_name j) t in
    if is_example j || is_pyexample j then Ok (write_xml (example_xml j) t)
    else section ← suite_section fs j; Ok (write_xml section t).

Definition xml_header : string := 
  "<?xml version=" +:+ String "034"%char ("1.0" +:+ String "034"%char "?>") +:+ nl +:+ ("<Results>" +:+ nl).

Definition empty_tally : tally := Tally 0 0 0 0 0 xml_header [].

Definition collect (fs : file_system) (jobs : list Job) : result exn tally :=
  fold_res (collect_one fs) empty_tally jobs.

(** ** The end of [run_tests] *)
Definition summary_line (total : nat) (t : tally) : string :=
  pretty (passed_tests t) +:+ " of " +:+ pretty total +:+ " tests passed (" +:+
  pretty (passed_tests t) +:+ " passed, " +:+ pretty (skipped_tests t) +:+ " skipped, " +:+
  pretty (failed_tests t) +:+ " failed, " +:+ pretty (crashed_tests t) +:+ " crashed, " +:+
  pretty (valgrind_errors t) +:+ " valgrind errors)".

Definition exit_status (total : nat) (t : tally) : Z :=
  if bool_decide (passed_tests t + skipped_tests t = total) then 0 else 1.

(** What follows the summary: translations, copy, clean-up. *)
Inductive closing := TranslateToHtml (file : string) | TranslateToText (file : string)
  | CopyXml (file : string) | RemoveTree (dir : string).

Definition closing_actions (o : options) (output_dir : string) : list closing :=
  (if bool_decide (html o = "") then [] else [TranslateToHtml (html o)]) ++
  (if bool_decide (text o = "") then [] else [TranslateToText (text o)]) ++
  (if bool_decide (xml o = "") then [] else [CopyXml (xml o)]) ++
  (if retain o then [] else [RemoveTree output_dir]).

(** The results file, the printed lines and the exit status for [total]
    dispatched jobs of which [jobs] were collected, in that order. *)
Definition report (fs : file_system) (total : nat) (jobs : list Job) :
    result exn (string * list string * Z) :=
  t ← collect fs jobs;
  Ok (xml_results t +:+ "</Results>" +:+ nl,
      (printed t ++ [summary_line total t])%list, exit_status total t).

(** ** Lemmas *)
Definition tally_of (s : status) (t : tally) : nat :=
  match s with
  | SKIP => skipped_tests t | PASS => passed_tests t | FAIL => failed_tests t
  | VALGR => valgrind_errors t | CRASH => crashed_tests t
  end.

(** The jobs that count: those that were not interrupted. *)
Definition outcomes (jobs : list Job) : list status :=
  status_of <$> filter (λ j, is_break j = false) jobs.

Definition job_xml (fs : file_system) (j : Job) : result exn string :=
  if is_break j then Ok ""
  else if is_example j || is_pyexample j then Ok (example_xml j) else suite_section fs j.

Definition job_line (j : Job) : list string :=
  if is_break j then [] else
    [status_name (status_of j) +:+ ": " +:+ kind j +:+ " " +:+ display_name j].

Lemma tally_of_count s s' t :
  tally_of s (count_status s' t) = (if decide (s = s') then 1 else 0) + tally_of s t.
Proof. by destruct s, s'. Qed.

Lemma outcomes_single j : outcomes [j] = if is_break j then [] else [status_of j].
Proof.
  unfold outcomes. destruct (is_break j) eqn:Eb.
  - by rewrite filter_cons_False by (by rewrite Eb).
  - by rewrite filter_cons_True.
Qed.

Lemma collect_one_tally fs t j t' s :
  collect_one fs t j = Ok t' → tally_of s t' = count s (outcomes [j]) + tally_of s t.
Proof.
  unfold collect_one. rewrite outcomes_single. intros Ht.
  destruct (is_break j) eqn:Eb; [by simplify_eq|]. rewrite count_cons, count_nil.
  assert (tally_of s t' = tally_of s (count_status (status_of j) t)) as ->.
  { destruct (is_example j || is_pyexample j); [simplify_eq|res_inv]; destruct s; reflexivity. }
  rewrite tally_of_count. lia.
Qed.

Lemma outcomes_cons j js : outcomes (j :: js) = (outcomes [j] ++ outcomes js)%list.
Proof.
  unfold outcomes. rewrite <- fmap_app, <- filter_app. done.
Qed.

Lemma collect_fold_tally fs js t t' s :
  fold_res (collect_one fs) t js = Ok t' →
  tally_of s t' = count s (outcomes js) + tally_of s t.
Proof.
  revert t. induction js as [|j js IH]; intros t Ht; simpl in Ht; [by res_inv|].
  destruct (collect_one fs t j) as [t1|e] eqn:E; [|done]. simpl in Ht.
  rewrite outcomes_cons, count_app, (IH _ Ht), (collect_one_tally _ _ _ _ _ E). lia.
Qed.

Lemma collect_tally fs js t s : collect fs js = Ok t → tally_of s t = count s (outcomes js).
Proof. intros Ht. rewrite (collect_fold_tally _ _ _ _ s Ht). by destruct s. Qed.

Lemma status_counts l :
  count SKIP l + count PASS l + count FAIL l + count VALGR l + count CRASH l = length l.
Proof.
  induction l as [|s l IH]; [done|]. rewrite !count_cons. simpl.
  destruct s; repeat case_decide; try done; lia.
Qed.

Definition succeeded (j : Job) : Prop :=
  is_break j = false ∧ (is_skip j = true ∨ returncode j = 0%Z).

Lemma good_status j :
  status_of j = SKIP ∨ status_of j = PASS ↔ is_skip j = true ∨ returncode j = 0%Z.
Proof. unfold status_of. destruct (is_skip j); [naive_solver|]. repeat case_bool_decide; naive_solver. Qed.

Lemma good_outcomes js :
  (count PASS (outcomes js) + count SKIP (outcomes js) ≤ length js)%nat ∧
  (count PASS (outcomes js) + count SKIP (outcomes js) = length js ↔ Forall succeeded js).
Proof.
  induction js as [|j js [IHle IH]]; [done|].
  rewrite outcomes_cons, !count_app. rewrite Forall_cons, <- IH. unfold succeeded.
  rewrite <- good_status, outcomes_single. destruct (is_break j) eqn:Eb.
  - rewrite !count_nil. simpl. split; [lia|]. split; [lia|by intros [[? _] _]].
  - rewrite !count_cons, !count_nil. simpl.
    destruct (status_of j); repeat case_decide; try done; (split; [lia|]); split;
      solve [intros; lia | intros; split; [by auto|lia]
            | intros [[_ [?|?]] ?]; solve [done|lia]].
Qed.

Lemma exit_status_spec fs js t :
  collect fs js = Ok t → (exit_status (length js) t = 0%Z ↔ Forall succeeded js).
Proof.
  intros Ht. rewrite <- (proj2 (good_outcomes js)).
  rewrite <- (collect_tally _ _ _ PASS Ht), <- (collect_tally _ _ _ SKIP Ht).
  unfold exit_status. simpl. case_bool_decide; naive_solver.
Qed.

Lemma report_exit fs total js xml output code :
  report fs total js = Ok (xml, output, code) →
  ∃ t, collect fs js = Ok t ∧ code = exit_status total t.
Proof. unfold report. intros Hr. destruct (collect fs js) as [t|]; [|done]. simpl in Hr. res_inv. eauto. Qed.

(** ** Which collections fail *)
Definition unreadable (fs : file_system) (j : Job) : Prop :=
  is_break j = false ∧ is_example j || is_pyexample j = false ∧ is_skip j = false ∧
  (0 ≤ returncode j ≤ 2)%Z ∧ fs !! tmp_file_name j = None.

Lemma suite_section_raises fs j e :
  suite_section fs j = Raise e ↔
  e = IOError ∧ is_skip j = false ∧ (0 ≤ returncode j ≤ 2)%Z ∧ fs !! tmp_file_name j = None.
Proof.
  unfold suite_section. destruct (is_skip j); [naive_solver|].
  destruct (bool_decide (returncode j = 0%Z) || _ || _) eqn:E.
  - assert (0 ≤ returncode j ≤ 2)%Z.
    { rewrite !orb_true_iff, !bool_decide_eq_true in E. lia. }
    destruct (fs !! tmp_file_name j); simpl; naive_solver.
  - rewrite !orb_false_iff, !bool_decide_eq_false in E.
    rewrite (bool_decide_eq_false_2 (returncode j = 2%Z)) by tauto.
    split; [done|]. intros (_ & _ & ? & _). lia.
Qed.

Lemma collect_one_raises fs t j e :
  collect_one fs t j = Raise e ↔ e = IOError ∧ unreadable fs j.
Proof.
  unfold collect_one, unreadable. destruct (is_break j); [naive_solver|].
  destruct (is_example j || is_pyexample j); [naive_solver|].
  destruct (suite_section fs j) as [x|e'] eqn:E; simpl.
  - split; [done|]. intros (-> & _ & _ & Hs & Hr & Hf).
    assert (suite_section fs j = Raise IOError) by (by apply suite_section_raises).
    congruence.
  - apply suite_section_raises in E. naive_solver.
Qed.

Lemma collect_fold_raises fs js t e :
  fold_res (collect_one fs) t js = Raise e ↔ e = IOError ∧ Exists (unreadable fs) js.
Proof.
  revert t. induction js as [|j js IH]; intros t; simpl.
  { split; [done|]. intros [_ Hex]. inversion Hex. }
  rewrite Exists_cons. destruct (collect_one fs t j) as [t1|e1] eqn:E; simpl.
  - rewrite IH. split; [naive_solver|]. intros [-> [Hj|Hex]]; [|done].
    pose proof (proj2 (collect_one_raises fs t j IOError) (conj eq_refl Hj)). congruence.
  - pose proof (proj1 (collect_one_raises _ _ _ _) E) as [-> Hj]. naive_solver.
Qed.

(** ** The markup of the results file *)
Definition well_formed_job (fs : file_system) (j : Job) : Prop :=
  contains_char "<" (display_name j) = false ∧
  (is_example j || is_pyexample j = false → is_skip j = false →
   (0 ≤ returncode j ≤ 2)%Z ∧
   ∀ x, fs !! tmp_file_name j = Some x → balanced x = true).

Lemma show_seconds_plain c ms :
  not_numeric c → c ≠ "."%char → contains_char c (show_seconds ms) = false.
Proof.
  intros Hc Hdot. unfold show_seconds, pad3.
  rewrite !contains_char_app, !pretty_Z_plain by done. simpl.
  rewrite (bool_decide_eq_false_2 (c = "."%char)) by done.
  assert (c ≠ "0"%char) by (intros ->; by apply (proj2 Hc 0%N)).
  repeat case_bool_decide; simpl; by rewrite ?bool_decide_eq_false_2.
Qed.

(** [<Time real=...>] stands alone whatever the time. *)
Lemma neutral_time ms :
  neutral ("  <Time real=" +:+ String "034" (show_seconds ms +:+ String "034"%char "/>")).
Proof.
  set (t := "Time real=" +:+ String "034" "").
  change ("  <Time real=" +:+ String "034" ?x) with (("  <" +:+ t) +:+ x).
  intros stack. unfold piece. rewrite scan_app.
  change (scan None ("  <" +:+ t)) with (Some t, @nil string). cbn [fst snd app].
  rewrite scan_app.
  rewrite scan_inside by (apply show_seconds_plain; [apply not_numeric_gt|done]).
  cbn [fst snd app].
  set (u := t +:+ show_seconds ms).
  change (scan (Some u) (String "034"%char "/>"))
    with (@None string, [(u +:+ String "034" "") +:+ "/"]).
  cbn [fst snd app nest]. split; [done|].
  change (parse_tag ((u +:+ String "034" "") +:+ "/"))
    with (if ends_with_slash ((u +:+ String "034" "") +:+ "/") then Alone
          else Opening (tag_name ((u +:+ String "034" "") +:+ "/"))).
  by rewrite ends_with_slash_snoc.
Qed.

Lemma neutral_status s : neutral (status_name s).
Proof. apply neutral_plain. by destruct s. Qed.

#[export] Hint Resolve neutral_time neutral_status : pydb.

Lemma neutral_example j :
  contains_char "<" (display_name j) = false → neutral (example_xml j).
Proof.
  intros Hn stack. unfold example_xml.
  pieces.
Qed.

(** The made-up element of a suite nests when its result line closes what it
    opens, which the one written for a crash does not. *)
Lemma neutral_suite_skip name :
  contains_char "<" name = false → neutral (suite_xml name "SKIP</Result>").
Proof. intros Hn stack. unfold suite_xml. pieces. Qed.

Lemma crashed_suite_unbalanced : balanced (suite_xml "wifi" "CRASH</Suite>") = false.
Proof. reflexivity. Qed.

Lemma neutral_job_xml fs j x :
  well_formed_job fs j → job_xml fs j = Ok x → neutral x.
Proof.
  intros [Hn Hj] Hx. unfold job_xml in Hx.
  destruct (is_break j); [res_inv; apply neutral_empty|].
  destruct (is_example j || is_pyexample j); [res_inv; by apply neutral_example|].
  specialize (Hj eq_refl). unfold suite_section in Hx.
  destruct (is_skip j); [res_inv; by apply neutral_suite_skip|].
  destruct Hj as [Hr Hb]; [done|].
  destruct (bool_decide (returncode j = 0%Z) || _ || _) eqn:E.
  - destruct (fs !! tmp_file_name j) as [y|]; [|done]. simpl in Hx. res_inv.
    by apply balanced_neutral, Hb.
  - rewrite !orb_false_iff, !bool_decide_eq_false in E. lia.
Qed.

Lemma collect_one_xml fs t j t' :
  collect_one fs t j = Ok t' →
  ∃ x, job_xml fs j = Ok x ∧ xml_results t' = xml_results t +:+ x.
Proof.
  unfold collect_one, job_xml. destruct (is_break j).
  { intros. res_inv. exists "". by rewrite app_empty_r. }
  destruct (is_example j || is_pyexample j); [|destruct (suite_section fs j) as [x|] eqn:E];
    intros; res_inv; try done.
  - exists (example_xml j). split; [done|]. by destruct (status_of j).
  - eexists. split; [done|]. by destruct (status_of j).
Qed.

Lemma collect_fold_xml fs js t t' :
  fold_res (collect_one fs) t js = Ok t' → Forall (well_formed_job fs) js →
  ∃ x, neutral x ∧ xml_results t' = xml_results t +:+ x.
Proof.
  revert t. induction js as [|j js IH]; intros t Ht Hjs; simpl in Ht.
  { res_inv. exists "". split; [apply neutral_empty|]. by rewrite app_empty_r. }
  destruct (collect_one fs t j) as [t1|e] eqn:E; [|done]. simpl in Ht.
  inversion_clear Hjs as [|? ? Hj Hjs']. destruct (IH _ Ht Hjs') as (y & Hy & ->).
  apply collect_one_xml in E as (x & Hx & ->). exists (x +:+ y).
  split; [|by rewrite str_app_assoc]. apply neutral_app; [|done]. by eapply neutral_job_xml.
Qed.

(** ** Properties *)

(** the counters: after collecting [js], each of the five counters is the
    number of jobs with that status among those the interrupt did not cut
    short, so that the five sum to the number of real results; and the order in
    which the workers delivered the results does not matter. *)
Theorem collect_counts (fs : file_system) (js js' : list Job) (t t' : tally) :
  collect fs js = Ok t →
  (∀ s, tally_of s t = count s (outcomes js)) ∧
  passed_tests t + skipped_tests t + failed_tests t + valgrind_errors t + crashed_tests t
    = length (filter (λ j, is_break j = false) js) ∧
  (js ≡ₚ js' → collect fs js' = Ok t' → ∀ s, tally_of s t' = tally_of s t).
Proof.
  intros Ht. assert (∀ s, tally_of s t = count s (outcomes js)) as Hc.
  { intros s. by eapply collect_tally. }
  split_and!; [done|..].
  - pose proof (status_counts (outcomes js)) as Hl. unfold outcomes in Hl at 6.
    rewrite length_fmap in Hl. rewrite <- Hl, <- !Hc. simpl. lia.
  - intros Hp Ht' s. rewrite Hc, (collect_tally _ _ _ _ Ht').
    unfold outcomes. by rewrite Hp.
Qed.

Definition wifi_example (rc : Z) : Job :=
  set_returncode rc (set_display_name "wifi" (set_is_example true new_job)).

Lemma collect_counts_witness :
  ∃ t, collect ∅ [wifi_example 0; wifi_example 1] = Ok t ∧ passed_tests t + skipped_tests t +
    failed_tests t + valgrind_errors t + crashed_tests t = 2.
Proof.
  eexists. split; [reflexivity|].
  apply (collect_counts ∅ [wifi_example 0; wifi_example 1] [] _ empty_tally eq_refl).
Defined.

(** the exit status is 0 exactly when every dispatched job came back
    uninterrupted and was skipped or returned 0. *)
Theorem exit_status_zero (fs : file_system) (js : list Job) (t : tally) :
  collect fs js = Ok t → (exit_status (length js) t = 0%Z ↔ Forall succeeded js).
Proof. apply exit_status_spec. Qed.

Lemma exit_status_zero_witness :
  ∃ t, collect ∅ [wifi_example 0; wifi_example 1] = Ok t ∧ exit_status 2 t ≠ 0%Z.
Proof.
  eexists. split; [reflexivity|]. intros Hz.
  apply (exit_status_zero ∅ [wifi_example 0; wifi_example 1] _ eq_refl) in Hz.
  inversion_clear Hz as [|? ? _ Hz']. inversion_clear Hz' as [|? ? [_ [?|?]] _]; discriminate.
Defined.

(** collecting fails only with the error of a missing result file, and
    exactly when some uninterrupted, unskipped suite returned 0, 1 or 2 without
    leaving its temporary XML file. *)
Theorem collect_fails (fs : file_system) (js : list Job) (e : exn) :
  collect fs js = Raise e ↔ e = IOError ∧ Exists (unreadable fs) js.
Proof. apply collect_fold_raises. Qed.

(** the results file is well nested: when no suite crashed, the names hold
    no markup and the files the suites left are balanced, the XML that
    [run_tests] assembles from header, sections and footer is balanced, for any
    mix of examples, suites, skipped and interrupted jobs. *)
Theorem results_file_balanced (fs : file_system) (js : list Job) (total : nat)
    (text : string) (output : list string) (code : Z) :
  Forall (well_formed_job fs) js → report fs total js = Ok (text, output, code) →
  balanced text = true.
Proof.
  intros Hjs Hr. unfold report in Hr.
  destruct (collect fs js) as [t|] eqn:Ht; [|done]. simpl in Hr. res_inv.
  destruct (collect_fold_xml _ _ _ _ Ht Hjs) as (x & Hx & ->).
  apply balanced_iff. intros stack. rewrite <- str_app_assoc.
  change (xml_results empty_tally) with xml_header. pieces.
Qed.

Lemma results_file_balanced_witness :
  ∃ text output, report ∅ 2 [wifi_example 0; wifi_example 139] = Ok (text, output, 1%Z) ∧
    balanced text = true.
Proof.
  do 2 eexists. split; [reflexivity|].
  eapply (results_file_balanced ∅ [wifi_example 0; wifi_example 139] 2); [|reflexivity].
  repeat constructor; done.
Defined.

(** The branch that reports a valgrind error of a suite is inside the one taken
    when the return code is not 2. *)
Lemma valgrind_suite_not_reported fs j :
  is_skip j = false → returncode j = 2%Z →
  suite_section fs j = of_option IOError (fs !! tmp_file_name j).
Proof. intros Hs Hr. unfold suite_section. by rewrite Hs, Hr. Qed.
