(* ===== verification/RunTests.v ===== *)
(** * What [test.py] runs (lines 39-151, 501-582, 922-1421)

    The configuration read from the build directory, the search paths handed
    to the tests, the examples found, and the list of jobs [run_tests]
    dispatches for given options. *)

From S2P Require Import Prelude PyStr Ns3rc Jobs.
From Stdlib Require Import Ascii.

Local Open Scope string_scope.

(** ** [read_waf_config] *)
Definition interesting_config_items : list string :=
  ["NS3_ENABLED_MODULES"; "NS3_MODULE_PATH"; "NSC_ENABLED"; "ENABLE_REAL_TIME";
   "ENABLE_THREADING"; "ENABLE_EXAMPLES"; "ENABLE_TESTS"; "EXAMPLE_DIRECTORIES";
   "ENABLE_PYTHON_BINDINGS"; "ENABLE_CLICK"; "ENABLE_OPENFLOW"].

Section WafConfig.
(** The interpreter's [eval] on a string literal and [exec] on the module's
    globals. *)
Context {G : Type} (eval_str : string → result exn string).
Context (exec : string → G → result exn G).

(** The loop over the lock file: the last [out_dir] assigned. *)
Definition lock_line (out_dir : option string) (line : string) :
    result exn (option string) :=
  if startswith "out_dir =" line then
    match split "=" line with
    | [_; val] => v ← eval_str (strip val); Ok (Some v)
    | _ => Raise (ValueError "unpack")
    end
  else Ok out_dir.

Definition cache_line (g : G) (line : string) : result exn G :=
  fold_res (λ g item, if startswith item line then exec line g else Ok g)
    g interesting_config_items.

Definition read_waf_config (fs : file_system) (g : G) : result exn (string * G) :=
  lock ← of_option IOError (fs !! ".lock-wafbuild");
  out_dir ← fold_res lock_line None (lines lock);
  NS3_BUILDDIR ← of_option UnboundLocalError out_dir;
  cache ← of_option IOError (fs !! (NS3_BUILDDIR +:+ "/c4che/_cache.py"));
  g' ← fold_res cache_line g (lines cache);
  Ok (NS3_BUILDDIR, g').
End WafConfig.

(** The globals the rest of the program reads. *)
Record waf_config := WafConfig {
  NS3_BUILDDIR : string;
  NS3_ENABLED_MODULES : list string;
  NS3_MODULE_PATH : list string;
  NSC_ENABLED : bool;
  ENABLE_EXAMPLES : bool;
  ENABLE_TESTS : bool;
  EXAMPLE_DIRECTORIES : list string;
  ENABLE_PYTHON_BINDINGS : bool }.

(** ** [make_paths] *)
Inductive platform := darwin | win32 | cygwin | other_platform.

(** [os.environ[var] += sep + path for path in NS3_MODULE_PATH]. *)
Definition append_paths (var sep : string) (paths : list string) (env : environ) :
    result exn environ :=
  fold_res (λ env path,
    v ← dict_get KeyError env var; Ok (<[var := v +:+ sep +:+ path]> env)) env paths.

Definition extend_search_path (have : bool) (var sep : string) (paths : list string)
    (env : environ) : result exn environ :=
  append_paths var sep paths (if have then env else <[var := ""]> env).

Definition set_pythonpath (have : bool) (pypath : string) (env : environ) :
    result exn environ :=
  if negb have then Ok (<["PYTHONPATH" := pypath]> env)
  else v ← dict_get KeyError env "PYTHONPATH";
       Ok (<["PYTHONPATH" := v +:+ ":" +:+ pypath]> env).

Section MakePaths.
Context `{!DictOrder string}.

(** The loop over [os.environ.keys()] that sets a [have_...] flag. *)
Definition have_variable (env : environ) (var : string) : bool :=
  existsb (λ key, bool_decide (key = var)) (dict_keys env).

Definition make_paths (sys_platform : platform) (cfg : waf_config) (env : environ) :
    result exn environ :=
  let have := have_variable env in
  let pypath := path_join (path_join (NS3_BUILDDIR cfg) "bindings") "python" in
  let env1 := <["PYTHONPATH" := pypath]> env in
  env2 ← set_pythonpath (have "PYTHONPATH") pypath env1;
  match sys_platform with
  | darwin => extend_search_path (have "DYLD_LIBRARY_PATH") "DYLD_LIBRARY_PATH" ":"
                (NS3_MODULE_PATH cfg) env2
  | win32 => extend_search_path (have "PATH") "PATH" ";" (NS3_MODULE_PATH cfg) env2
  | cygwin => extend_search_path (have "PATH") "PATH" ":" (NS3_MODULE_PATH cfg) env2
  | other_platform =>
      extend_search_path (have "LD_LIBRARY_PATH") "LD_LIBRARY_PATH" ":"
        (NS3_MODULE_PATH cfg) env2
  end.
End MakePaths.

(** ** The examples that can be run *)
Section Examples.
(** [eval] on the two kinds of list an [examples-to-run.py] file holds. *)
Context (eval_cpp : string → result exn (list (string * string * string))).
Context (eval_python : string → result exn (list (string * string))).

Record example_lists := ExampleLists {
  example_tests : list (string * string * string);
  python_tests : list (string * string) }.

Definition parse_examples_to_run_file (fs : file_system)
    (examples_to_run_path cpp_executable_dir python_script_dir : string)
    (acc : example_lists) : result exn example_lists :=
  if path_exists fs examples_to_run_path then
    cpp_examples ← get_list_from_file eval_cpp fs examples_to_run_path "cpp_examples";
    let tests := foldl (λ l '(example_name, do_run, do_valgrind_run),
      let example_path := path_join cpp_executable_dir example_name in
      if path_exists fs example_path then (l ++ [(example_path, do_run, do_valgrind_run)])%list
      else l) (example_tests acc) cpp_examples in
    python_examples ← get_list_from_file eval_python fs examples_to_run_path "python_examples";
    let scripts := foldl (λ l '(example_name, do_run),
      let example_path := path_join python_script_dir example_name in
      if path_exists fs example_path then (l ++ [(example_path, do_run)])%list else l)
      (python_tests acc) python_examples in
    Ok (ExampleLists tests scripts)
  else Ok acc.

Definition example_directory_step (fs : file_system) (cfg : waf_config)
    (acc : example_lists) (directory : string) : result exn example_lists :=
  let example_directory := path_join "examples" directory in
  parse_examples_to_run_file fs (path_join example_directory "examples-to-run.py")
    (path_join (NS3_BUILDDIR cfg) example_directory) example_directory acc.

Definition module_step (fs : file_system) (cfg : waf_config)
    (acc : example_lists) (module : string) : result exn example_lists :=
  let module := str_drop 4 module in
  let module_directory := path_join "src" module in
  let example_directory := path_join module_directory "examples" in
  parse_examples_to_run_file fs
    (path_join (path_join module_directory "test") "examples-to-run.py")
    (path_join (NS3_BUILDDIR cfg) example_directory) example_directory acc.

Definition find_examples (fs : file_system) (cfg : waf_config) : result exn example_lists :=
  acc ← fold_res (example_directory_step fs cfg) (ExampleLists [] []) (EXAMPLE_DIRECTORIES cfg);
  fold_res (module_step fs cfg) acc (NS3_ENABLED_MODULES cfg).
End Examples.

(** ** Building *)
Definition core_kinds : list string := ["bvt"; "core"; "system"; "unit"].

Definition nonempty (s : string) : bool := negb (bool_decide (s = "")).

Definition waf_cmd (o : options) (sys_platform : platform) : string :=
  let waf := match sys_platform with win32 => "waf" | _ => "./waf" end in
  if kinds o || list_tests o ||
     (nonempty (constrain o) && bool_decide (constrain o ∈ core_kinds)) then
    waf +:+ " --target=test-runner"
  else if nonempty (example o) then waf +:+ " --target=" +:+ basename (example o)
  else waf.

(** ** The jobs *)
Definition core_valgrind_skip_tests : list string :=
  ["ns3-tcp-cwnd"; "nsc-tcp-loss"; "ns3-tcp-interoperability"; "routing-click"].

Definition core_nsc_missing_skip_tests : list string :=
  ["ns3-tcp-cwnd"; "nsc-tcp-loss"; "ns3-tcp-interoperability"].

Section Dispatch.
Context (o : options) (cfg : waf_config).
(** [os.getcwd()] and [testpy_output_dir]. *)
Context (getcwd output_dir : string).
Context (os : string → string → outcome).
(** [eval] on the condition of an example. *)
Context (eval_condition : string → result exn bool).

Definition test_runner (arguments : string) : outcome :=
  run_job_synchronously os (NS3_BUILDDIR cfg) (path_join "utils" ("test-runner " +:+ arguments))
    getcwd false false "".

(** The text that lists the suites to run, one per line. *)
Definition suites : result exn string :=
  if nonempty (suite o) then
    if contains (suite o) (out (test_runner "--print-test-name-list"))
    then Ok (suite o +:+ nl) else Raise (SystemExit 2)
  else if bool_decide (example o = "") && bool_decide (pyexample o = "") then
    if nonempty (constrain o)
    then Ok (out (test_runner ("--print-test-name-list --test-type=" +:+ constrain o)))
    else Ok (out (test_runner "--print-test-name-list"))
  else Ok "".

Definition suite_job (test : string) : Job :=
  let j := set_is_pyexample false (set_is_example false new_job) in
  let j := set_tmp_file_name (path_join output_dir (test +:+ ".xml")) (set_display_name test j) in
  let j := set_tempdir output_dir (set_basedir getcwd (set_cwd getcwd j)) in
  let multiple := if multiple o then "" else " --stop-on-failure" in
  let j := set_shell_command
    (path_join "utils" ("test-runner --test-name=" +:+ test +:+ multiple)) j in
  let j := if valgrind o && bool_decide (test ∈ core_valgrind_skip_tests)
           then set_is_skip true j else j in
  if negb (NSC_ENABLED cfg) && bool_decide (test ∈ core_nsc_missing_skip_tests)
  then set_is_skip true j else j.

(** The loop that queues the suites. *)
Fixpoint suite_jobs (suite_list : list string) : list Job :=
  match suite_list with
  | [] => []
  | test :: l =>
      let test := strip test in
      if nonempty test then suite_job test :: suite_jobs l else suite_jobs l
  end.

Definition smoke_job (cpp python : bool) (test bpath : string) : Job :=
  let j := set_is_pyexample python (set_is_example cpp new_job) in
  let j := set_cwd output_dir (set_tmp_file_name "" (set_display_name test j)) in
  let j := set_tempdir output_dir (set_basedir getcwd j) in
  set_build_path bpath (set_shell_command test j).

(** [options.valgrind and not eval(do_valgrind_run)]. *)
Definition not_under_valgrind (do_valgrind_run : string) : result exn bool :=
  if valgrind o then b ← eval_condition do_valgrind_run; Ok (negb b) else Ok false.

Fixpoint example_jobs_loop (programs : list string) (l : list (string * string * string)) :
    result exn (list Job) :=
  match l with
  | [] => Ok []
  | (test, do_run, do_valgrind_run) :: l' =>
      if bool_decide (basename test ∈ programs) then
        run ← eval_condition do_run;
        if run : bool then
          let j := smoke_job true false test "" in
          skip ← not_under_valgrind do_valgrind_run;
          let j := if skip : bool then set_is_skip true j else j in
          js ← example_jobs_loop programs l'; Ok (j :: js)
        else example_jobs_loop programs l'
      else example_jobs_loop programs l'
  end.

Definition no_single_run : bool :=
  bool_decide (suite o = "") && bool_decide (example o = "") &&
  bool_decide (pyexample o = "").

Definition example_jobs (programs : list string) (l : list (string * string * string)) :
    result exn (list Job) :=
  if no_single_run then
    if (bool_decide (constrain o = "") || bool_decide (constrain o = "example")) &&
       ENABLE_EXAMPLES cfg
    then example_jobs_loop programs l else Ok []
  else if nonempty (example o) then
    if bool_decide (basename (example o) ∈ programs)
    then Ok [smoke_job true false (example o) (buildpath o)] else Ok []
  else Ok [].

Fixpoint pyexample_jobs_loop (scripts : list string) (l : list (string * string)) :
    result exn (list Job) :=
  match l with
  | [] => Ok []
  | (test, do_run) :: l' =>
      if bool_decide (basename test ∈ scripts) then
        run ← eval_condition do_run;
        if run : bool then
          let j := smoke_job false true test "" in
          let j := if valgrind o then set_is_skip true j else j in
          let j := if negb (ENABLE_PYTHON_BINDINGS cfg) then set_is_skip true j else j in
          js ← pyexample_jobs_loop scripts l'; Ok (j :: js)
        else pyexample_jobs_loop scripts l'
      else pyexample_jobs_loop scripts l'
  end.

Definition pyexample_jobs (scripts : list string) (l : list (string * string)) :
    result exn (list Job) :=
  if no_single_run then
    if (bool_decide (constrain o = "") || bool_decide (constrain o = "pyexample")) &&
       ENABLE_EXAMPLES cfg
    then pyexample_jobs_loop scripts l else Ok []
  else if nonempty (pyexample o) then
    if bool_decide (basename (pyexample o) ∈ scripts)
    then Ok [smoke_job false true (pyexample o) ""] else Ok []
  else Ok [].

(** Everything put on the input queue before the break jobs. *)
Definition dispatched_jobs (programs scripts : list string) (ex : example_lists) :
    result exn (list Job) :=
  names ← suites;
  js ← example_jobs programs (example_tests ex);
  pys ← pyexample_jobs scripts (python_tests ex);
  Ok (suite_jobs (split newline names) ++ js ++ pys)%list.
End Dispatch.

(** ** From the command line to the input queue *)
Section Prepare.
Context (eval_cpp : string → result exn (list (string * string * string))).
Context (eval_python : string → result exn (list (string * string))).
Context (eval_names : string → result exn (list string)).
Context (eval_condition : string → result exn bool).
Context (o : options) (cfg : waf_config) (sys_platform : platform).
Context (getcwd output_dir : string) (os : string → string → outcome).

(** The status the run ends with at once, or the jobs it dispatches. *)
Definition prepare (fs : file_system) : result exn (Z + list Job) :=
  let built := os (waf_cmd o sys_platform) getcwd in
  if negb (nowaf o) && negb (bool_decide (retval built = 0%Z)) then Ok (inl (retval built))
  else
    let build_status_file := path_join (NS3_BUILDDIR cfg) "build-status.py" in
    if path_exists fs build_status_file then
      programs ← get_list_from_file eval_names fs build_status_file "ns3_runnable_programs";
      scripts ← get_list_from_file eval_names fs build_status_file "ns3_runnable_scripts";
      ex ← find_examples eval_cpp eval_python fs cfg;
      if kinds o || list_tests o then Ok (inl 0%Z)
      else
        js ← dispatched_jobs o cfg getcwd output_dir os eval_condition programs scripts ex;
        Ok (inr js)
    else Raise (SystemExit 2).
End Prepare.

(** ** Lemmas on the jobs *)
Section DispatchLemmas.
Context (o : options) (cfg : waf_config) (getcwd output_dir : string).

Definition is_suite (j : Job) : Prop := is_example j = false ∧ is_pyexample j = false.

Lemma suite_job_fields t :
  is_break (suite_job o cfg getcwd output_dir t) = false ∧
  is_suite (suite_job o cfg getcwd output_dir t) ∧
  display_name (suite_job o cfg getcwd output_dir t) = t ∧
  is_skip (suite_job o cfg getcwd output_dir t) =
    valgrind o && bool_decide (t ∈ core_valgrind_skip_tests) ||
    negb (NSC_ENABLED cfg) && bool_decide (t ∈ core_nsc_missing_skip_tests).
Proof.
  unfold suite_job, is_suite.
  destruct (valgrind o && _), (negb (NSC_ENABLED cfg) && _); by split_and!.
Qed.

Lemma suite_jobs_fmap l :
  suite_jobs o cfg getcwd output_dir l =
  suite_job o cfg getcwd output_dir <$> filter (λ t, t ≠ "") (strip <$> l).
Proof.
  induction l as [|t l IH]; [done|]. cbn [suite_jobs fmap list_fmap]. unfold nonempty.
  destruct (decide (strip t = "")) as [E|E].
  - rewrite filter_cons_False by tauto. by rewrite bool_decide_eq_true_2.
  - rewrite filter_cons_True by done. rewrite bool_decide_eq_false_2 by done. simpl.
    by rewrite IH.
Qed.

Lemma suite_jobs_kind l :
  Forall (λ j, is_break j = false ∧ is_suite j) (suite_jobs o cfg getcwd output_dir l).
Proof.
  rewrite suite_jobs_fmap. apply Forall_fmap, Forall_forall. intros t _. simpl.
  destruct (suite_job_fields t) as (? & ? & _). done.
Qed.

Context (eval_condition : string → result exn bool).

Lemma example_jobs_loop_kind programs l js :
  example_jobs_loop o getcwd output_dir eval_condition programs l = Ok js →
  Forall (λ j, is_break j = false ∧ is_example j = true ∧
               basename (display_name j) ∈ programs) js.
Proof.
  revert js. induction l as [|[[t run] vrun] l IH]; intros js Hl; simpl in Hl; [by res_inv|].
  case_bool_decide as Ht; [|by apply IH].
  destruct (eval_condition run) as [[]|]; simpl in Hl; [|by apply IH|done].
  unfold not_under_valgrind in Hl.
  destruct (valgrind o); [destruct (eval_condition vrun) as [b|]; [|done]|]; simpl in Hl;
    destruct (example_jobs_loop _ _ _ _ programs l) as [js'|]; try done; simpl in Hl;
    res_inv; (constructor; [|by auto]); [destruct b; by split_and!|by split_and!].
Qed.

Lemma pyexample_jobs_loop_kind scripts l js :
  pyexample_jobs_loop o cfg getcwd output_dir eval_condition scripts l = Ok js →
  Forall (λ j, is_break j = false ∧ is_pyexample j = true ∧ is_example j = false ∧
               basename (display_name j) ∈ scripts ∧
               is_skip j = valgrind o || negb (ENABLE_PYTHON_BINDINGS cfg)) js.
Proof.
  revert js. induction l as [|[t run] l IH]; intros js Hl; simpl in Hl; [by res_inv|].
  case_bool_decide as Ht; [|by apply IH].
  destruct (eval_condition run) as [[]|]; simpl in Hl; [|by apply IH|done].
  destruct (pyexample_jobs_loop _ _ _ _ _ scripts l) as [js'|]; [|done]. simpl in Hl.
  res_inv. constructor; [|by auto].
  destruct (valgrind o), (ENABLE_PYTHON_BINDINGS cfg); by split_and!.
Qed.
End DispatchLemmas.

Lemma example_jobs_kind o cfg here od ev programs l js :
  example_jobs o cfg here od ev programs l = Ok js →
  Forall (λ j, is_break j = false ∧ is_example j = true ∧
               basename (display_name j) ∈ programs) js ∧
  (no_single_run o = true → constrain o ≠ "" → constrain o ≠ "example" → js = []).
Proof.
  unfold example_jobs. intros Hj. destruct (no_single_run o).
  - destruct (bool_decide (constrain o = "") || _) eqn:Ec.
    + rewrite orb_true_iff, !bool_decide_eq_true in Ec.
      split; [|intros _ ? ?; naive_solver]. simpl in Hj.
      destruct (ENABLE_EXAMPLES cfg); [by eapply example_jobs_loop_kind|by res_inv].
    + simpl in Hj. by res_inv.
  - split; [|done]. destruct (nonempty (example o)); [|by res_inv].
    case_bool_decide; res_inv; [|done]. by repeat constructor.
Qed.

Lemma pyexample_jobs_kind o cfg here od ev scripts l js :
  pyexample_jobs o cfg here od ev scripts l = Ok js →
  Forall (λ j, is_break j = false ∧ is_pyexample j = true ∧ is_example j = false ∧
               basename (display_name j) ∈ scripts ∧
               (no_single_run o = true →
                is_skip j = valgrind o || negb (ENABLE_PYTHON_BINDINGS cfg))) js ∧
  (no_single_run o = true → constrain o ≠ "" → constrain o ≠ "pyexample" → js = []).
Proof.
  unfold pyexample_jobs. intros Hj. destruct (no_single_run o).
  - destruct (bool_decide (constrain o = "") || _) eqn:Ec.
    + rewrite orb_true_iff, !bool_decide_eq_true in Ec.
      split; [|intros _ ? ?; naive_solver]. simpl in Hj.
      destruct (ENABLE_EXAMPLES cfg); [|by res_inv].
      eapply Forall_impl; [by eapply pyexample_jobs_loop_kind|]. naive_solver.
    + simpl in Hj. by res_inv.
  - split; [|done]. destruct (nonempty (pyexample o)); [|by res_inv].
    case_bool_decide; res_inv; [|done]. by repeat constructor.
Qed.

(** No break job is dispatched as work. *)
Lemma dispatched_jobs_real o cfg here od os ev programs scripts ex js :
  dispatched_jobs o cfg here od os ev programs scripts ex = Ok js →
  Forall (λ j, is_break j = false) js.
Proof.
  unfold dispatched_jobs. intros Hj.
  destruct (suites o cfg here os) as [names|]; [|done]. simpl in Hj.
  destruct (example_jobs _ _ _ _ _ _ _) as [js1|] eqn:E1; [|done]. simpl in Hj.
  destruct (pyexample_jobs _ _ _ _ _ _ _) as [js2|] eqn:E2; [|done]. simpl in Hj. res_inv.
  rewrite !Forall_app. split_and!.
  - eapply Forall_impl; [apply suite_jobs_kind|]. by intros j [? _].
  - eapply Forall_impl; [by eapply example_jobs_kind|]. by intros j [? _].
  - eapply Forall_impl; [by eapply pyexample_jobs_kind|]. by intros j [? _].
Qed.

(** ** Search paths *)
Definition library_variable (p : platform) : string :=
  match p with
  | darwin => "DYLD_LIBRARY_PATH" | win32 | cygwin => "PATH"
  | other_platform => "LD_LIBRARY_PATH"
  end.

Definition path_separator (p : platform) : string :=
  match p with win32 => ";" | _ => ":" end.

(** Every path, each with the separator in front. *)
Definition path_suffix (sep : string) (paths : list string) : string :=
  foldr (λ path acc, sep +:+ path +:+ acc) "" paths.

Lemma append_paths_spec var sep paths env v :
  env !! var = Some v →
  append_paths var sep paths env = Ok (<[var := v +:+ path_suffix sep paths]> env).
Proof.
  unfold append_paths. revert env v. induction paths as [|p paths IH]; intros env v Hv.
  - simpl. by rewrite app_empty_r, insert_id.
  - cbn [fold_res]. unfold dict_get. rewrite Hv. cbn [of_option mbind result_bind].
    rewrite (IH _ (v +:+ sep +:+ p)) by apply lookup_insert_eq.
    rewrite insert_insert_eq. simpl. by rewrite !str_app_assoc.
Qed.

Lemma have_variable_spec `{!DictOrder string, !DictOrderOk string} env var :
  have_variable env var = bool_decide (is_Some (env !! var)).
Proof.
  apply eq_bool_prop_intro. rewrite bool_decide_spec. unfold have_variable.
  rewrite <- elem_of_dict_keys, Is_true_true, existsb_exists. split.
  - intros (k & Hk & ->%bool_decide_eq_true). by apply list_elem_of_In.
  - intros Hk. exists var. split; [by apply list_elem_of_In|]. by apply bool_decide_eq_true.
Qed.

Lemma extend_search_path_spec `{!DictOrder string, !DictOrderOk string} env0 env var sep paths :
  env !! var = env0 !! var →
  extend_search_path (have_variable env0 var) var sep paths env =
  Ok (<[var := default "" (env0 !! var) +:+ path_suffix sep paths]> env).
Proof.
  intros Hv. unfold extend_search_path. rewrite have_variable_spec.
  destruct (env0 !! var) as [v|].
  - rewrite bool_decide_eq_true_2 by eauto. by apply append_paths_spec.
  - rewrite bool_decide_eq_false_2 by (by intros [? ?]).
    rewrite (append_paths_spec _ _ _ _ "") by apply lookup_insert_eq.
    by rewrite insert_insert_eq.
Qed.

(** the environment the tests run in: on each platform the variable that
    platform searches libraries with keeps its old value and gains every module
    path behind its separator, [PYTHONPATH] names the built bindings, and every
    other variable is as it was; the call never fails.  When [PYTHONPATH] was
    set, its old value is lost and the bindings appear twice. *)
Theorem make_paths_spec `{!DictOrder string, !DictOrderOk string}
    (p : platform) (cfg : waf_config) (env : environ)
    (pypath := path_join (path_join (NS3_BUILDDIR cfg) "bindings") "python") :
  ∃ env', make_paths p cfg env = Ok env' ∧
    env' !! library_variable p =
      Some (default "" (env !! library_variable p) +:+
            path_suffix (path_separator p) (NS3_MODULE_PATH cfg)) ∧
    env' !! "PYTHONPATH" =
      Some (match env !! "PYTHONPATH" with
            | Some _ => pypath +:+ ":" +:+ pypath | None => pypath end) ∧
    ∀ k, k ≠ library_variable p → k ≠ "PYTHONPATH" → env' !! k = env !! k.
Proof.
  set (py := match env !! "PYTHONPATH" with
             | Some _ => pypath +:+ ":" +:+ pypath | None => pypath end).
  set (var := library_variable p).
  assert (Hvar : var ≠ "PYTHONPATH") by (by destruct p).
  exists (<[var := default "" (env !! var) +:+ path_suffix (path_separator p)
    (NS3_MODULE_PATH cfg)]> (<["PYTHONPATH" := py]> env)).
  split_and!.
  - unfold make_paths. fold pypath.
    assert (set_pythonpath (have_variable env "PYTHONPATH") pypath
      (<["PYTHONPATH" := pypath]> env) = Ok (<["PYTHONPATH" := py]> env)) as ->.
    { unfold set_pythonpath, py. rewrite have_variable_spec.
      destruct (env !! "PYTHONPATH"); simpl.
      - unfold dict_get. rewrite lookup_insert_eq. simpl. by rewrite insert_insert_eq.
      - by rewrite insert_insert_eq. }
    rewrite bind_Ok. subst var.
    destruct p; (rewrite extend_search_path_spec; [done|]); by rewrite lookup_insert_ne.
  - by rewrite lookup_insert_eq.
  - rewrite lookup_insert_ne by done. by rewrite lookup_insert_eq.
  - intros k H1 H2. by rewrite !lookup_insert_ne.
Qed.

Definition sample_cfg : waf_config :=
  WafConfig "/ns3/build" ["ns3-core"] ["/ns3/build"; "/opt/nsc"] false true true ["wifi"] false.

Lemma make_paths_spec_witness :
  @DictOrderOk string _ _ tree_order ∧
  (@make_paths tree_order other_platform sample_cfg {["PYTHONPATH" := "/home/ns3/lib"]} =
   Ok (<["LD_LIBRARY_PATH" := ":/ns3/build:/opt/nsc"]>
        (<["PYTHONPATH" := "/ns3/build/bindings/python:/ns3/build/bindings/python"]> ∅))) ∧
  ∃ env', @make_paths tree_order other_platform sample_cfg ∅ = Ok env'.
Proof.
  split_and!; [apply tree_order_ok|reflexivity|].
  destruct (@make_paths_spec tree_order tree_order_ok other_platform sample_cfg ∅)
    as (env' & He & _). by exists env'.
Defined.

(** ** What the options select *)

(** the documented table of option combinations.  With no option the
    suites come from the runner and the examples from the lists; a [--suite]
    alone runs that suite and nothing else; an [--example] alone runs that
    example, if it is runnable, whatever its condition; a constraint other than
    [example] and [pyexample] runs no examples, [example] no Python examples
    and [pyexample] no compiled ones. *)
Theorem dispatched_jobs_table (o : options) (cfg : waf_config) (here od : string)
    (os : string → string → outcome) (ev : string → result exn bool)
    (programs scripts : list string) (ex : example_lists) (js : list Job) :
  dispatched_jobs o cfg here od os ev programs scripts ex = Ok js →
  (suite o ≠ "" → example o = "" → pyexample o = "" → contains_char newline (suite o) = false →
     js = suite_jobs o cfg here od [suite o; ""] ∧
     contains (suite o) (out (test_runner cfg here os "--print-test-name-list")) = true) ∧
  (suite o = "" → example o ≠ "" → pyexample o = "" →
     js = if bool_decide (basename (example o) ∈ programs)
          then [smoke_job here od true false (example o) (buildpath o)] else []) ∧
  (no_single_run o = true → constrain o ≠ "" → constrain o ≠ "example" →
     Forall (λ j, is_example j = false) js) ∧
  (no_single_run o = true → constrain o ≠ "" → constrain o ≠ "pyexample" →
     Forall (λ j, is_pyexample j = true → is_example j = true) js).
Proof.
  unfold dispatched_jobs. intros Hj.
  destruct (suites o cfg here os) as [names|] eqn:Es; [|done]. simpl in Hj.
  destruct (example_jobs _ _ _ _ _ _ _) as [js1|] eqn:E1; [|done]. simpl in Hj.
  destruct (pyexample_jobs _ _ _ _ _ _ _) as [js2|] eqn:E2; [|done]. simpl in Hj. res_inv.
  pose proof (example_jobs_kind _ _ _ _ _ _ _ _ E1) as [K1 N1].
  pose proof (pyexample_jobs_kind _ _ _ _ _ _ _ _ E2) as [K2 N2].
  unfold suites, nonempty in Es. split_and!.
  - intros Hs He Hp Hn. rewrite (bool_decide_eq_false_2 (suite o = "")) in Es by done.
    simpl in Es. case_match; [|done]. res_inv.
    assert (no_single_run o = false) as Hno.
    { unfold no_single_run. by rewrite bool_decide_eq_false_2. }
    unfold example_jobs, pyexample_jobs, nonempty in E1, E2. 
    rewrite Hno, (bool_decide_eq_true_2 (example o = "")) in E1 by done.
    rewrite Hno, (bool_decide_eq_true_2 (pyexample o = "")) in E2 by done.
    simpl in E1, E2. res_inv. split; [|done]. cbn [app]. rewrite app_nil_r.
    change nl with (String newline ""). by rewrite split_app.
  - intros Hs He Hp. rewrite (bool_decide_eq_true_2 (suite o = "")),
      (bool_decide_eq_false_2 (example o = "")) in Es by done.
    simpl in Es. res_inv.
    assert (no_single_run o = false) as Hno.
    { unfold no_single_run. rewrite (bool_decide_eq_false_2 (example o = "")) by done.
      by rewrite andb_false_r. }
    unfold example_jobs, pyexample_jobs, nonempty in E1, E2.
    rewrite Hno, (bool_decide_eq_false_2 (example o = "")) in E1 by done.
    rewrite Hno, (bool_decide_eq_true_2 (pyexample o = "")) in E2 by done. simpl in E1, E2.
    case_bool_decide; by res_inv.
  - intros Hno Hc Hc'. rewrite !Forall_app. split_and!.
    + eapply Forall_impl; [apply suite_jobs_kind|]. by intros j [_ [? _]].
    + rewrite N1 by done. constructor.
    + eapply Forall_impl; [exact K2|]. naive_solver.
  - intros Hno Hc Hc'. rewrite !Forall_app. split_and!.
    + eapply Forall_impl; [apply suite_jobs_kind|]. intros j [_ [_ H]]. congruence.
    + eapply Forall_impl; [exact K1|]. naive_solver.
    + rewrite N2 by done. constructor.
Qed.

Definition wifi_suite_options : options := {|
  buildpath := ""; constrain := ""; example := ""; update_data := false;
  valgrind := false; kinds := false; list_tests := false; multiple := false;
  nowaf := true; pyexample := ""; retain := false; suite := "wifi"; text := "";
  verbose := false; html := ""; xml := "" |}.

(** A runner that lists two suites. *)
Definition listing_os : string → string → outcome :=
  λ _ _, Outcome 0 ("wifi" +:+ nl +:+ ("tcp" +:+ nl)) "" 3.

Lemma dispatched_jobs_table_witness :
  ∃ js, dispatched_jobs wifi_suite_options sample_cfg "/ns3" "/tmp" listing_os (λ _, Ok true)
          [] [] (ExampleLists [] []) = Ok js ∧
        js = suite_jobs wifi_suite_options sample_cfg "/ns3" "/tmp" ["wifi"; ""].
Proof.
  eexists. split; [reflexivity|].
  apply (dispatched_jobs_table wifi_suite_options sample_cfg "/ns3" "/tmp" listing_os
    (λ _, Ok true) [] [] (ExampleLists [] [])); reflexivity || discriminate.
Defined.

(** which jobs are dispatched only to be reported as skipped: a suite
    exactly when valgrind is on and the suite is known to kill it, or NSC is
    missing and the suite needs it; a Python example of a full run exactly when
    valgrind is on or the bindings are disabled. *)
Theorem skip_policy (o : options) (cfg : waf_config) (here od : string)
    (os : string → string → outcome) (ev : string → result exn bool)
    (programs scripts : list string) (ex : example_lists) (js : list Job) (j : Job) :
  dispatched_jobs o cfg here od os ev programs scripts ex = Ok js → j ∈ js →
  (is_suite j →
    (is_skip j = true ↔
      (valgrind o = true ∧ display_name j ∈ core_valgrind_skip_tests) ∨
      (NSC_ENABLED cfg = false ∧ display_name j ∈ core_nsc_missing_skip_tests))) ∧
  (no_single_run o = true → is_example j = false → is_pyexample j = true →
    (is_skip j = true ↔ valgrind o = true ∨ ENABLE_PYTHON_BINDINGS cfg = false)).
Proof.
  unfold dispatched_jobs. intros Hj Hin.
  destruct (suites o cfg here os) as [names|] eqn:Es; [|done]. simpl in Hj.
  destruct (example_jobs _ _ _ _ _ _ _) as [js1|] eqn:E1; [|done]. simpl in Hj.
  destruct (pyexample_jobs _ _ _ _ _ _ _) as [js2|] eqn:E2; [|done]. simpl in Hj. res_inv.
  apply example_jobs_kind in E1 as [K1 _]. apply pyexample_jobs_kind in E2 as [K2 _].
  rewrite Forall_forall in K1, K2. rewrite !elem_of_app in Hin.
  destruct Hin as [Hin|[Hin|Hin]].
  - rewrite suite_jobs_fmap in Hin. apply list_elem_of_fmap in Hin as (t & -> & _).
    destruct (suite_job_fields o cfg here od t) as (_ & [He Hp] & -> & ->).
    split; [|congruence]. intros _.
    rewrite orb_true_iff, !andb_true_iff, negb_true_iff, !bool_decide_eq_true. done.
  - destruct (K1 _ Hin) as (_ & He & _). split; [intros [? _]|]; congruence.
  - destruct (K2 _ Hin) as (_ & Hp & _ & _ & Hs). split; [intros [_ ?]; congruence|].
    intros Hno _ _. rewrite (Hs Hno), orb_true_iff, negb_true_iff. done.
Qed.

Definition suites_only (names : string) : string → string → outcome :=
  λ _ _, Outcome 0 names "" 3.

Lemma skip_policy_witness :
  ∃ js j, dispatched_jobs default_options sample_cfg "/ns3" "/tmp"
            (suites_only ("nsc-tcp-loss" +:+ nl)) (λ _, Ok true) [] [] (ExampleLists [] [])
          = Ok js ∧ js = [j] ∧ is_skip j = true.
Proof.
  do 2 eexists. split; [reflexivity|]. split; [reflexivity|].
  refine (proj2 (proj1 (skip_policy default_options sample_cfg "/ns3" "/tmp"
    (suites_only ("nsc-tcp-loss" +:+ nl)) (λ _, Ok true) [] [] (ExampleLists [] [])
    _ _ eq_refl _) _) _); [apply elem_of_cons; by left|by split|].
  right. split; [done|]. eapply (bool_decide_unpack _). by vm_compute.
Defined.

(** the early ends of a run: a failing build ends it with the build's own
    status, a missing build-status file or an unknown suite with status 2, and
    [--kinds] and [--list] with status 0; in none of these cases is a job
    dispatched. *)
Theorem prepare_early (ec : string → result exn (list (string * string * string)))
    (ep : string → result exn (list (string * string)))
    (en : string → result exn (list string)) (ev : string → result exn bool)
    (o : options) (cfg : waf_config) (p : platform) (here od : string)
    (os : string → string → outcome) (fs : file_system)
    (run := prepare ec ep en ev o cfg p here od os fs)
    (build := retval (os (waf_cmd o p) here)) :
  (nowaf o = false → build ≠ 0%Z → run = Ok (inl build)) ∧
  (nowaf o = true ∨ build = 0%Z →
    fs !! path_join (NS3_BUILDDIR cfg) "build-status.py" = None → run = Raise (SystemExit 2)) ∧
  (∀ js, run = Ok (inr js) → kinds o = false ∧ list_tests o = false ∧
    (nowaf o = true ∨ build = 0%Z) ∧ Forall (λ j, is_break j = false) js ∧
    (suite o ≠ "" → contains (suite o)
      (out (test_runner cfg here os "--print-test-name-list")) = true)).
Proof.
  subst run build. unfold prepare. split_and!.
  - intros -> Hb. by rewrite bool_decide_eq_false_2.
  - intros Hb Hf. unfold path_exists. rewrite (proj2 (has_key_false _ _) Hf).
    destruct Hb as [-> | ->]; [done|]. by destruct (nowaf o).
  - intros js Hr.
    destruct (negb (nowaf o) && _) eqn:Eb; [done|].
    destruct (path_exists _ _); [|done]. res_inv.
    destruct (kinds o), (list_tests o); try done. simpl in Hr. res_inv. split_and!; [done..| | |].
    + apply andb_false_iff in Eb as [Eb|Eb]; [left; by destruct (nowaf o)|right].
      by apply negb_false_iff, bool_decide_eq_true in Eb.
    + by eapply dispatched_jobs_real.
    + intros Hs. match goal with H : dispatched_jobs _ _ _ _ _ _ _ _ _ = _ |- _ =>
        unfold dispatched_jobs in H end. res_inv.
      match goal with H : suites _ _ _ _ = _ |- _ => unfold suites, nonempty in H;
        rewrite (bool_decide_eq_false_2 (suite o = "") Hs) in H; simpl in H end.
      by destruct (contains _ _).
Qed.

Lemma prepare_early_witness :
  prepare (λ _, Ok []) (λ _, Ok []) literal_list (λ _, Ok true) default_options sample_cfg
    other_platform "/ns3" "/tmp" (λ _ _, Outcome 0 "" "" 0) ∅ = Raise (SystemExit 2).
Proof.
  apply prepare_early; [by right|reflexivity].
Defined.
