(* ===== verification/TestRun.v ===== *)
(** * A whole run of [test.py]

    The parts put together: the options select the jobs ([RunTests]), any
    interleaving of the worker threads runs them ([Workers]), and the exit
    status is computed from what was collected ([Results]), unless the program is
    left before: by [sys.exit] or by another exception. *)

From S2P Require Import Prelude PyStr Ns3rc Jobs Workers Results RunTests.

Local Open Scope string_scope.

Section Run.
Context (eval_cpp : string → result exn (list (string * string * string))).
Context (eval_python : string → result exn (list (string * string))).
Context (eval_names : string → result exn (list string)).
Context (eval_condition : string → result exn bool).
Context (o : options) (cfg : waf_config) (sys_platform : platform).
Context (getcwd output_dir : string) (os : string → string → outcome).

(** What the translators, the copy and the clean-up at the end do. *)
Context (perform : closing → result exn unit).

Definition run_closing : result exn unit :=
  fold_res (λ _ c, perform c) tt (closing_actions o output_dir).

(** How a run ends: by returning before anything is dispatched, by returning
    after reporting what was collected, or by an exception nobody catches. *)
Inductive ending := AtOnce | Reported (results : list Job) | Died (e : exn).

(** The status of the process for an exception: [sys.exit] gives its own, any
    other prints a traceback and gives 1. *)
Definition exit_code (e : exn) : Z := match e with SystemExit code => code | _ => 1%Z end.

(** The runs of [run_tests] with [p] worker threads.  [fs] are the files when
    the run starts, [fs'] when the results are read. *)
Inductive run_tests (p : nat) (fs fs' : file_system) : ending → Z → Prop :=
  | run_early code :
      prepare eval_cpp eval_python eval_names eval_condition o cfg sys_platform getcwd
        output_dir os fs = Ok (inl code) →
      run_tests p fs fs' AtOnce code
  | run_exits e :
      prepare eval_cpp eval_python eval_names eval_condition o cfg sys_platform getcwd
        output_dir os fs = Raise e →
      run_tests p fs fs' (Died e) (exit_code e)
  | run_unreported js s e :
      prepare eval_cpp eval_python eval_names eval_condition o cfg sys_platform getcwd
        output_dir os fs = Ok (inr js) →
      rtc (step o (NS3_BUILDDIR cfg)) (init p js) s → finished s →
      report fs' (length js) (collected s) = Raise e →
      run_tests p fs fs' (Died e) (exit_code e)
  | run_unfinished js s text output code e :
      prepare eval_cpp eval_python eval_names eval_condition o cfg sys_platform getcwd
        output_dir os fs = Ok (inr js) →
      rtc (step o (NS3_BUILDDIR cfg)) (init p js) s → finished s →
      report fs' (length js) (collected s) = Ok (text, output, code) →
      run_closing = Raise e →
      run_tests p fs fs' (Died e) (exit_code e)
  | run_jobs js s text output code :
      prepare eval_cpp eval_python eval_names eval_condition o cfg sys_platform getcwd
        output_dir os fs = Ok (inr js) →
      rtc (step o (NS3_BUILDDIR cfg)) (init p js) s → finished s →
      report fs' (length js) (collected s) = Ok (text, output, code) →
      run_closing = Ok tt →
      run_tests p fs fs' (Reported (collected s)) code.

(** Why nothing is dispatched although the build succeeded and no listing was
    asked for: [sys.exit(2)] at the missing build status file or at the unknown
    suite; or a configuration text that cannot be read or evaluated. *)
Definition bad_configuration (e : exn) : Prop :=
  (∃ s, right_hand_side s = Raise e) ∨ (∃ s, eval_cpp s = Raise e) ∨ (∃ s, eval_python s = Raise e) ∨
  (∃ s, eval_names s = Raise e) ∨ (∃ s, eval_condition s = Raise e).

Definition no_build_status (fs : file_system) : Prop :=
  fs !! path_join (NS3_BUILDDIR cfg) "build-status.py" = None.

Definition unknown_suite : Prop :=
  suite o ≠ "" ∧
  contains (suite o) (out (test_runner cfg getcwd os "--print-test-name-list")) = false.

Lemma prepare_real fs js :
  prepare eval_cpp eval_python eval_names eval_condition o cfg sys_platform getcwd
    output_dir os fs = Ok (inr js) → Forall real js.
Proof.
  unfold prepare. intros Hr. destruct (negb (nowaf o) && _); [done|].
  destruct (path_exists _ _); [|done]. res_inv.
  destruct (kinds o || list_tests o); [done|]. res_inv. by eapply dispatched_jobs_real.
Qed.

Lemma scan_list_raises {A} (ev : string → result exn (list A)) name acc b ls e :
  scan_list ev name acc b ls = Raise e →
  (∃ s, right_hand_side s = Raise e) ∨ (∃ s, ev s = Raise e).
Proof.
  revert acc b. induction ls as [|l ls IH]; intros acc b; [done|]. cbn [scan_list].
  destruct (_ || _); [|apply IH]. destruct (negb _); [apply IH|].
  intros [?|(rhs & _ & ?)]%bind_Raise_inv; eauto.
Qed.

Lemma get_list_raises {A} (ev : string → result exn (list A)) fs p name e :
  get_list_from_file ev fs p name = Raise e →
  (∃ s, right_hand_side s = Raise e) ∨ (∃ s, ev s = Raise e).
Proof. unfold get_list_from_file. destruct (fs !! p); [apply scan_list_raises|done]. Qed.

Lemma fold_res_raises {S A} (f : S → A → result exn S) s l e :
  fold_res f s l = Raise e → ∃ s' x, x ∈ l ∧ f s' x = Raise e.
Proof.
  revert s. induction l as [|x l IH]; intros s; [done|]. cbn [fold_res].
  intros [Hx|(s' & _ & Hl)]%bind_Raise_inv; [exists s, x; split; [by left|done]|].
  destruct (IH _ Hl) as (s'' & y & Hy & ?). exists s'', y. split; [by right|done].
Qed.

Lemma find_examples_raises fs e :
  find_examples eval_cpp eval_python fs cfg = Raise e → bad_configuration e.
Proof.
  assert (Hfile : ∀ a b c acc, parse_examples_to_run_file eval_cpp eval_python fs a b c acc = Raise e →
    bad_configuration e).
  { intros a b c acc. unfold parse_examples_to_run_file, bad_configuration.
    destruct (path_exists fs a); [|done].
    intros [[?|?]%get_list_raises|(? & _ & [[?|?]%get_list_raises|(? & _ & ?)]%bind_Raise_inv)]%bind_Raise_inv;
      by eauto. }
  unfold find_examples.
  intros [(s & x & _ & Hx)%fold_res_raises|(? & _ & (s & x & _ & Hx)%fold_res_raises)]%bind_Raise_inv;
    by eapply Hfile.
Qed.

Lemma dispatched_jobs_raises programs scripts ex e :
  dispatched_jobs o cfg getcwd output_dir os eval_condition programs scripts ex = Raise e →
  e = SystemExit 2 ∧ unknown_suite ∨ bad_configuration e.
Proof.
  unfold dispatched_jobs.
  assert (Hc : ∀ l, example_jobs_loop o getcwd output_dir eval_condition programs l = Raise e →
            ∃ s, eval_condition s = Raise e).
  { induction l as [|[[t r] v] l IH]; [done|]. cbn [example_jobs_loop].
    case_bool_decide; [|apply IH]. intros [?|(b & _ & Hb)]%bind_Raise_inv; [by eexists|].
    destruct b; [|by apply IH]. apply bind_Raise_inv in Hb as [Hv|(k & _ & Hb)].
    - unfold not_under_valgrind in Hv. destruct (valgrind o); [|done].
      apply bind_Raise_inv in Hv as [?|(? & _ & ?)]; [by eexists|done].
    - by apply bind_Raise_inv in Hb as [?%IH|(? & _ & ?)]. }
  assert (Hp : ∀ l, pyexample_jobs_loop o cfg getcwd output_dir eval_condition scripts l = Raise e →
            ∃ s, eval_condition s = Raise e).
  { induction l as [|[t r] l IH]; [done|]. cbn [pyexample_jobs_loop].
    case_bool_decide; [|apply IH]. intros [?|(b & _ & Hb)]%bind_Raise_inv; [by eexists|].
    destruct b; [|by apply IH]. by apply bind_Raise_inv in Hb as [?%IH|(? & _ & ?)]. }
  intros [H|(names & _ & [H|(js & _ & [H|(? & _ & H)]%bind_Raise_inv)]%bind_Raise_inv)]%bind_Raise_inv;
    [left|right|right|done].
  - unfold suites, nonempty in H. case_bool_decide as Hs; cbn [negb] in H; [by repeat case_match|].
    destruct (contains _ _) eqn:E; [done|]. by injection H as <-.
  - unfold example_jobs in H. repeat case_match; try done. apply Hc in H. unfold bad_configuration. by eauto 7.
  - unfold pyexample_jobs in H. repeat case_match; try done. apply Hp in H. unfold bad_configuration. by eauto 7.
Qed.

Lemma prepare_raises fs e :
  prepare eval_cpp eval_python eval_names eval_condition o cfg sys_platform getcwd
    output_dir os fs = Raise e →
  e = SystemExit 2 ∧ (no_build_status fs ∨ unknown_suite) ∨ bad_configuration e.
Proof.
  unfold prepare. destruct (negb (nowaf o) && _); [done|].
  destruct (path_exists _ _) eqn:Ef.
  - intros [[?|?]%get_list_raises|(? & _ & [[?|?]%get_list_raises|(? & _ & H)]%bind_Raise_inv)]%bind_Raise_inv;
      [unfold bad_configuration; by eauto 6..|].
    apply bind_Raise_inv in H as [?%find_examples_raises|(? & _ & H)]; [by right|].
    destruct (kinds o || list_tests o); [done|].
    apply bind_Raise_inv in H as [[[? ?]|?]%dispatched_jobs_raises|(? & _ & ?)]; auto; done.
  - intros [= <-]. left. split; [done|left]. by apply has_key_false.
Qed.

Lemma run_closing_raises e : run_closing = Raise e → ∃ c, c ∈ closing_actions o output_dir ∧ perform c = Raise e.
Proof. intros (? & c & Hc & He)%fold_res_raises. by exists c. Qed.
End Run.

(** The exit status, from the end of an interleaving. *)
Lemma finished_exit o bd p js s fs text output code :
  Forall real js → 0 < p → rtc (step o bd) (init p js) s → finished s →
  report fs (length js) (collected s) = Ok (text, output, code) →
  (code = 0%Z ↔ Forall succeeded (collected s)) ∧ (code ≠ 0%Z → code = 1%Z) ∧
  request <$> collected s ≡ₚ request <$> js.
Proof.
  intros Hjs Hp Hr Hf Hrep. pose proof (reachable_inv _ _ _ _ _ Hjs Hr) as Hinv.
  destruct (finished_requests _ _ _ _ _ Hinv Hp Hf) as (Hc & _).
  destruct (report_exit _ _ _ _ _ _ Hrep) as (t & Ht & ->). split; [|split; [|done]].
  - rewrite <- (exit_status_spec _ _ _ Ht).
    apply Permutation_length in Hc. rewrite !length_fmap in Hc. by rewrite Hc.
  - unfold exit_status. by case_bool_decide.
Qed.

(** How a run can end at once. *)
Lemma prepare_inl ec ep en ev o cfg pf here od os fs code :
  prepare ec ep en ev o cfg pf here od os fs = Ok (inl code) →
  (code ≠ 0%Z ∧ nowaf o = false ∧ retval (os (waf_cmd o pf) here) = code) ∨
  (code = 0%Z ∧ kinds o || list_tests o = true).
Proof.
  unfold prepare. intros Hprep. destruct (negb (nowaf o) && _) eqn:Ew.
  - res_inv. apply andb_true_iff in Ew as [Hw Hb].
    apply negb_true_iff in Hw, Hb. apply bool_decide_eq_false in Hb. by left.
  - right. destruct (path_exists _ _); [|done]. res_inv.
    destruct (kinds o || list_tests o); [by res_inv|]. by res_inv.
Qed.

Lemma report_raises fs total js e :
  report fs total js = Raise e → e = IOError ∧ Exists (unreadable fs) js.
Proof.
  unfold report. intros [H|(? & _ & ?)]%bind_Raise_inv; [|done]. by apply collect_fold_raises in H.
Qed.


(** A run of the suite [wifi] with one worker, in which the suite fails. *)
Definition wifi_fs : file_system :=
  {[ path_join (NS3_BUILDDIR sample_cfg) "build-status.py" :=
       "ns3_runnable_programs = []" +:+ nl +:+ "ns3_runnable_scripts = []" +:+ nl;
     "/tmp/wifi.xml" := "<Test></Test>" ]}.

Definition wifi_suite : Job := suite_job wifi_suite_options sample_cfg "/ns3" "/tmp" "wifi".

Definition wifi_end : state :=
  State [] [] [Stopped] [] false 0 [set_elapsed_time 7 (set_returncode 1 wifi_suite)] 1.

Lemma wifi_run :
  rtc (step wifi_suite_options (NS3_BUILDDIR sample_cfg)) (init 1 [wifi_suite]) wifi_end.
Proof.
  one_move ltac:(apply work_put). one_move ltac:(apply (work_get _ _ 0)).
  one_move ltac:(apply (work_body _ _ 0 wifi_suite sample_os)).
  one_move ltac:(apply work_put). one_move ltac:(eapply (work_report _ _ 0)).
  one_move ltac:(apply (work_get _ _ 0)). one_move ltac:(apply work_collect).
  one_move ltac:(apply (work_body _ _ 0 break_job sample_os)).
  one_move ltac:(apply work_join). constructor.
Qed.

Lemma wifi_prepare :
  prepare (λ _, Ok []) (λ _, Ok []) literal_list (λ _, Ok true) wifi_suite_options sample_cfg
    other_platform "/ns3" "/tmp" listing_os wifi_fs = Ok (inr [wifi_suite]).
Proof. by vm_compute. Qed.

Definition wifi_perform : closing → result exn unit := λ _, Ok tt.

Abbreviation wifi_runs os perform := (run_tests (λ _, Ok []) (λ _, Ok []) literal_list (λ _, Ok true)
  wifi_suite_options sample_cfg other_platform "/ns3" "/tmp" os perform 1).

Lemma wifi_reported :
  wifi_runs listing_os wifi_perform wifi_fs wifi_fs (Reported (collected wifi_end)) 1%Z.
Proof. eapply run_jobs; [exact wifi_prepare|exact wifi_run|by split_and!|by vm_compute|reflexivity]. Qed.

(** Without a build status file the run ends with 2. *)
Lemma wifi_unbuilt : wifi_runs listing_os wifi_perform ∅ ∅ (Died (SystemExit 2)) 2%Z.
Proof. by apply (run_exits _ _ _ _ _ _ _ _ _ _ _ 1 ∅ ∅ (SystemExit 2)). Qed.

(** A clean-up that fails: status 1, whatever the results. *)
Lemma wifi_clean_up_fails :
  wifi_runs listing_os (λ _, Raise OSError) wifi_fs wifi_fs (Died OSError) 1%Z.
Proof.
  eapply (run_unfinished _ _ _ _ _ _ _ _ _ _ _ 1 wifi_fs wifi_fs [wifi_suite] wifi_end _ _ _ OSError);
    [exact wifi_prepare|exact wifi_run|by split_and!|by vm_compute|reflexivity].
Qed.

