(* ===== verification/Report.v ===== *)
(** * The detailed reports of [test.py] (lines 167-470)

    [translate_to_text] and [translate_to_html] read the results file as an
    element tree and write it out for a reader.  The parser is the standard
    library's [ElementTree]; the definitions start from the tree it builds. *)

From S2P Require Import Prelude PyStr Markup.
From Stdlib Require Import Ascii.

Local Open Scope string_scope.

(** An element: tag, text ([None] when there is none), attributes, children. *)
Inductive element :=
  | Element (tag : string) (text : option string) (attributes : list (string * string))
      (children : list element).

Definition tag_of (e : element) : string := let '(Element t _ _ _) := e in t.
Definition text_of (e : element) : option string := let '(Element _ t _ _) := e in t.
Definition attributes_of (e : element) := let '(Element _ _ a _) := e in a.
Definition children_of (e : element) : list element := let '(Element _ _ _ c) := e in c.

(** [e.findall(tag)], [e.find(tag)] and [e.get(name)]. *)
Definition findall (e : element) (t : string) : list element :=
  filter (λ c, tag_of c = t) (children_of e).

Definition find (e : element) (t : string) : option element := head (findall e t).

Definition get (e : element) (name : string) : option string :=
  snd <$> head (filter (λ p, p.1 = name) (attributes_of e)).

(** ['%s' % v] where [v] is a string or [None]. *)
Definition show (v : option string) : string := default "None" v.

(** [e.find(tag).text]. *)
Definition find_text (e : element) (t : string) : result exn (option string) :=
  c ← of_option AttributeError (find e t); Ok (text_of c).

Definition read_test (test : element) :
    result exn (option string * option string * option string) :=
  result ← find_text test "Result";
  name ← find_text test "Name";
  Ok (result, name,
      match find test "Time" with Some t => get t "real" | None => Some "" end).

(** A double quote. *)
Definition dq : string := String "034" "".

(** ** [translate_to_text] *)
Definition details_to_text (details : element) : result exn string :=
  message ← find_text details "Message";
  condition ← find_text details "Condition";
  actual ← find_text details "Actual";
  limit ← find_text details "Limit";
  file ← find_text details "File";
  line ← find_text details "Line";
  Ok ("    Details:" +:+ nl +:+
      "      Message:   " +:+ show message +:+ nl +:+
      "      Condition: " +:+ show condition +:+ nl +:+
      "      Actual:    " +:+ show actual +:+ nl +:+
      "      Limit:     " +:+ show limit +:+ nl +:+
      "      File:      " +:+ show file +:+ nl +:+
      "      Line:      " +:+ show line +:+ nl).

(** Concatenation of what a loop writes. *)
Fixpoint write_all {A} (f : A → result exn string) (l : list A) : result exn string :=
  match l with
  | [] => Ok ""
  | x :: l' => s ← f x; s' ← write_all f l'; Ok (s +:+ s')
  end.

Definition status_line (kind : string) (r : option string * option string * option string) :
    string :=
  let '(result, name, time_real) := r in
  show result +:+ ": " +:+ kind +:+ " " +:+ dq +:+ show name +:+ dq +:+ " (" +:+
  show time_real +:+ ")" +:+ nl.

(** The depth of a tree bounds the recursion of [node_to_text]. *)
Fixpoint depth (e : element) : nat :=
  match e with Element _ _ _ cs => S (foldr (λ c n, depth c `max` n) 0 cs) end.

Fixpoint node_to_text (fuel : nat) (test : element) : result exn string :=
  match fuel with
  | 0 => Raise Diverges
  | S fuel' =>
      r ← read_test test;
      details ← write_all details_to_text (findall test "FailureDetails");
      children ← write_all (node_to_text fuel') (findall test "Test");
      Ok (status_line "Test Suite" r +:+ details +:+ children)
  end.

Definition translate_to_text (et : element) : result exn string :=
  tests ← write_all (λ test, node_to_text (depth test) test) (findall et "Test");
  examples ← write_all (λ example, r ← read_test example; Ok (status_line "Example" r))
    (findall et "Example");
  Ok (tests +:+ examples).

(** ** [translate_to_html] *)
Definition td (s : string) : string := "<td>" +:+ s +:+ "</td>" +:+ nl.

Definition colored (tag color s close : string) : string :=
  ("<" +:+ tag +:+ " style=" +:+ dq +:+ "color:" +:+ color +:+ dq +:+ ">") +:+ s +:+ close +:+ nl.

Definition result_is (result : option string) (s : string) : bool :=
  bool_decide (result = Some s).

Definition suite_heading (r : option string * option string * option string) : string :=
  let '(result, name, time) := r in
  let text := show result +:+ ": " +:+ show name +:+ " (" +:+ show time +:+ ")" in
  if result_is result "PASS" then colored "h3" "green" text "</h3>"
  else if result_is result "SKIP" then colored "h3" "#ff6600" text "</h3>"
  else colored "h3" "red" text "</h3>".

Definition table_start : string := "<table border=" +:+ dq +:+ "1" +:+ dq +:+ ">" +:+ nl.

(** The row of a suite that has no cases to show. *)
Definition bare_row (result : option string) : string :=
  "<tr>" +:+ nl +:+
  (if result_is result "SKIP" then colored "td" "#ff6600" (show result) "</td>"
   else colored "td" "red" (show result) "</td>") +:+
  "</tr>" +:+ nl.

Definition details_cell (details : element) : result exn string :=
  message ← find_text details "Message";
  condition ← find_text details "Condition";
  actual ← find_text details "Actual";
  limit ← find_text details "Limit";
  file ← find_text details "File";
  line ← find_text details "Line";
  Ok ("<td>" +:+
      "<b>Message: </b>" +:+ show message +:+ ", " +:+
      "<b>Condition: </b>" +:+ show condition +:+ ", " +:+
      "<b>Actual: </b>" +:+ show actual +:+ ", " +:+
      "<b>Limit: </b>" +:+ show limit +:+ ", " +:+
      "<b>File: </b>" +:+ show file +:+ ", " +:+
      "<b>Line: </b>" +:+ show line +:+
      "</td>" +:+ nl).

(** The rows of a failed case: the first carries its result, name and time. *)
Fixpoint failure_rows (r : option string * option string * option string)
    (first_row : bool) (l : list element) : result exn string :=
  match l with
  | [] => Ok ""
  | details :: l' =>
      let '(result, name, time) := r in
      let head := if first_row
                  then colored "td" "red" (show result) "</td>" +:+ td (show name) +:+
                       td (show time)
                  else td "" +:+ td "" +:+ td "" in
      cell ← details_cell details;
      rows ← failure_rows r false l';
      Ok ("<tr>" +:+ nl +:+ head +:+ cell +:+ "</td>" +:+ nl +:+ rows)
  end.

Definition case_rows (case : element) : result exn string :=
  r ← read_test case;
  let '(result, name, time) := r in
  if result_is result "FAIL" then failure_rows r true (findall case "FailureDetails")
  else Ok ("<tr>" +:+ nl +:+ colored "td" "green" (show result) "</td>" +:+
           td (show name) +:+ td (show time) +:+ td "" +:+ "</tr>" +:+ nl).

Definition suite_to_html (suite : element) : result exn string :=
  r ← read_test suite;
  let '(result, name, time) := r in
  let start := suite_heading r +:+ table_start +:+ "<th> Result </th>" +:+ nl in
  if result_is result "CRASH" || result_is result "SKIP" || result_is result "VALGR" then
    Ok (start +:+ bare_row result +:+ "</table>" +:+ nl)
  else
    let headings := "<th>Test Case Name</th>" +:+ nl +:+ "<th> Time </th>" +:+ nl +:+
      (if result_is result "FAIL" then "<th>Failure Details</th>" +:+ nl else "") in
    rows ← write_all case_rows (findall suite "Test");
    Ok (start +:+ headings +:+ rows +:+ "</table>" +:+ nl).

Definition example_to_html (example : element) : result exn string :=
  r ← read_test example;
  let '(result, name, time) := r in
  Ok ("<tr>" +:+ nl +:+
      (if result_is result "PASS" then colored "td" "green" (show result) "</td>"
       else if result_is result "SKIP" then colored "td" "#ff6600" (show result) "</fd>"
       else colored "td" "red" (show result) "</td>") +:+
      td (show name) +:+ td (show time) +:+ "</tr>" +:+ nl).

Definition translate_to_html (et : element) : result exn string :=
  suites ← write_all suite_to_html (findall et "Test");
  examples ← write_all example_to_html (findall et "Example");
  Ok ("<html>" +:+ nl +:+ "<body>" +:+ nl +:+
      "<center><h1>ns-3 Test Results</h1></center>" +:+ nl +:+
      "<h2>Test Suites</h2>" +:+ nl +:+ suites +:+
      "<h2>Examples</h2>" +:+ nl +:+ table_start +:+
      "<th> Result </th>" +:+ nl +:+ "<th>Example Name</th>" +:+ nl +:+
      "<th>Elapsed Time</th>" +:+ nl +:+ examples +:+
      "</table>" +:+ nl +:+ "</body>" +:+ nl +:+ "</html>" +:+ nl).

(** ** The text report is a preorder walk *)

(** A test and the tests nested in it, in document order. *)
Fixpoint preorder (e : element) : list element :=
  match e with
  | Element _ _ _ cs =>
      e :: foldr (λ c acc,
        ((if bool_decide (tag_of c = "Test") then preorder c else []) ++ acc)%list) [] cs
  end.

(** What is written for one test, without its children. *)
Definition test_entry (test : element) : result exn string :=
  r ← read_test test;
  details ← write_all details_to_text (findall test "FailureDetails");
  Ok (status_line "Test Suite" r +:+ details).

Lemma write_all_app {A} (f : A → result exn string) l1 l2 :
  write_all f (l1 ++ l2) = s1 ← write_all f l1; s2 ← write_all f l2; Ok (s1 +:+ s2).
Proof.
  induction l1 as [|x l1 IH]; simpl.
  - by destruct (write_all f l2).
  - destruct (f x) as [s|]; [|done]. simpl. rewrite IH.
    destruct (write_all f l1) as [s1|]; [|done]. simpl.
    destruct (write_all f l2) as [s2|]; [|done]. simpl. by rewrite str_app_assoc.
Qed.

(** The walks of the elements of a list, one after the other. *)
Lemma write_all_concat {A B} (f : A → result exn string) (g : B → list A) l :
  write_all f (l ≫= g) = write_all (λ x, write_all f (g x)) l.
Proof.
  induction l as [|x l IH]; [done|].
  change ((x :: l) ≫= g) with (g x ++ (l ≫= g))%list. rewrite write_all_app, IH. done.
Qed.

Lemma write_all_ext {A} (f g : A → result exn string) l :
  Forall (λ x, f x = g x) l → write_all f l = write_all g l.
Proof. induction 1 as [|x l Hx _ IH]; [done|]. simpl. by rewrite Hx, IH. Qed.

Lemma preorder_cons e : preorder e = e :: (findall e "Test" ≫= preorder).
Proof.
  destruct e as [t x a cs]. simpl. f_equal. unfold findall. simpl.
  induction cs as [|c cs IH]; [done|]. cbn [foldr]. rewrite IH.
  destruct (decide (tag_of c = "Test")) as [E|E].
  - rewrite bool_decide_eq_true_2, filter_cons_True by done. done.
  - by rewrite bool_decide_eq_false_2, filter_cons_False.
Qed.

Lemma depth_child e t c : c ∈ findall e t → depth c < depth e.
Proof.
  destruct e as [tg x a cs]. unfold findall. simpl. intros [_ Hc]%list_elem_of_filter.
  apply Nat.lt_succ_r. induction Hc as [c cs|c d cs _ IH]; simpl; lia.
Qed.

Lemma write_all_entry e l :
  write_all test_entry (e :: l) =
  r ← read_test e; details ← write_all details_to_text (findall e "FailureDetails");
  s ← write_all test_entry l; Ok (status_line "Test Suite" r +:+ details +:+ s).
Proof.
  cbn [write_all]. unfold test_entry. destruct (read_test e) as [r|]; [|done]. simpl.
  destruct (write_all details_to_text _); [|done]. simpl.
  destruct (write_all _ l); [|done]. simpl. by rewrite str_app_assoc.
Qed.

Lemma node_to_text_walk fuel e :
  (depth e ≤ fuel)%nat → node_to_text fuel e = write_all test_entry (preorder e).
Proof.
  revert e. induction fuel as [|fuel IH]; intros e Hd; [destruct e; simpl in Hd; lia|].
  rewrite preorder_cons, write_all_entry. cbn [node_to_text].
  destruct (read_test e) as [r|]; [|done]. simpl.
  destruct (write_all details_to_text _) as [d|]; [|done]. simpl.
  rewrite write_all_concat.
  rewrite (write_all_ext _ (λ x, write_all test_entry (preorder x))).
  - done.
  - apply Forall_forall. intros c Hc. apply IH. apply depth_child in Hc. lia.
Qed.

(** ** The markup of the HTML report *)
Definition plain (s : string) : bool := negb (contains_char "<" s).

Fixpoint plain_element (e : element) : bool :=
  match e with
  | Element _ t attrs cs =>
      plain (show t) && forallb (λ p, plain p.2) attrs && forallb plain_element cs
  end.

(** The two shapes of tree whose HTML is broken are absent. *)
Definition no_skipped_example (et : element) : Prop :=
  ∀ e, e ∈ findall et "Example" → find_text e "Result" ≠ Ok (Some "SKIP").

Definition no_failure_details (et : element) : Prop :=
  ∀ suite case, suite ∈ findall et "Test" → case ∈ findall suite "Test" →
  find_text case "Result" = Ok (Some "FAIL") → findall case "FailureDetails" = [].

Lemma neutral_show s : plain (show s) = true → neutral (show s).
Proof. intros Hs. apply neutral_plain. by apply negb_true_iff. Qed.

Lemma plain_child e t c : plain_element e = true → c ∈ findall e t → plain_element c = true.
Proof.
  destruct e as [tg x a cs]. unfold findall. simpl. intros He [_ Hc]%list_elem_of_filter.
  apply andb_true_iff in He as [_ He]. rewrite forallb_forall in He.
  by apply He, list_elem_of_In.
Qed.

Lemma plain_find e t c : plain_element e = true → find e t = Some c → plain_element c = true.
Proof.
  intros He Hf. apply (plain_child e t); [done|]. unfold find in Hf.
  by apply head_Some_elem_of in Hf.
Qed.

Lemma plain_find_text e t v :
  plain_element e = true → find_text e t = Ok v → neutral (show v).
Proof.
  unfold find_text. intros He Hv. destruct (find e t) as [c|] eqn:E; [|done]. simpl in Hv.
  res_inv. pose proof (plain_find _ _ _ He E) as Hc. destruct c as [? x ? ?]. simpl in *.
  apply andb_true_iff in Hc as [[Hc _]%andb_true_iff _]. by apply neutral_show.
Qed.

Lemma plain_get e name : plain_element e = true → neutral (show (get e name)).
Proof.
  destruct e as [t x attrs cs]. unfold get. simpl. intros He.
  apply andb_true_iff in He as [[_ Ha]%andb_true_iff _].
  destruct (head _) as [[n v]|] eqn:E; simpl; [|by apply neutral_plain].
  apply head_Some_elem_of, list_elem_of_filter in E as [_ Hin].
  rewrite forallb_forall in Ha. apply neutral_plain, negb_true_iff.
  by apply (Ha (n, v)), list_elem_of_In.
Qed.

Lemma plain_read_test e r n t :
  plain_element e = true → read_test e = Ok (r, n, t) →
  neutral (show r) ∧ neutral (show n) ∧ neutral (show t) ∧ find_text e "Result" = Ok r.
Proof.
  unfold read_test. intros He Hr. destruct (find_text e "Result") as [r'|] eqn:Er; [|done].
  simpl in Hr. destruct (find_text e "Name") as [n'|] eqn:En; [|done]. simpl in Hr. res_inv.
  split_and!; [by eapply plain_find_text..| |done].
  destruct (find e "Time") as [c|] eqn:Et; [|by apply neutral_plain].
  by apply plain_get, (plain_find e "Time").
Qed.

Lemma neutral_write_all {A} (f : A → result exn string) l s :
  (∀ x s, x ∈ l → f x = Ok s → neutral s) → write_all f l = Ok s → neutral s.
Proof.
  revert s. induction l as [|x l IH]; intros s Hf Hs; simpl in Hs;
    [res_inv; apply neutral_empty|].
  res_inv. apply neutral_app; [eapply Hf; [by left|done]|].
  apply IH; [|done]. intros y z Hy. apply Hf. by right.
Qed.

Lemma neutral_td s : neutral s → neutral (td s).
Proof. intros Hs stack. unfold td. pieces. Qed.

Lemma neutral_heading c s :
  c ∈ ["green"; "#ff6600"; "red"] → neutral s → neutral (colored "h3" c s "</h3>").
Proof.
  intros Hc Hs stack. unfold colored, dq. rewrite !elem_of_cons, elem_of_nil in Hc.
  destruct Hc as [-> | [-> | [-> | []]]]; pieces.
Qed.

Lemma neutral_cell c s :
  c ∈ ["green"; "#ff6600"; "red"] → neutral s → neutral (colored "td" c s "</td>").
Proof.
  intros Hc Hs stack. unfold colored, dq. rewrite !elem_of_cons, elem_of_nil in Hc.
  destruct Hc as [-> | [-> | [-> | []]]]; pieces.
Qed.

#[local] Hint Extern 1 (_ ∈ _) => (apply (bool_decide_unpack _); vm_compute; exact I) : pydb.
#[local] Hint Resolve neutral_td neutral_heading neutral_cell : pydb.

Lemma neutral_suite_heading r n t :
  neutral (show r) → neutral (show n) → neutral (show t) → neutral (suite_heading (r, n, t)).
Proof.
  intros Hr Hn Ht. unfold suite_heading.
  assert (neutral (show r +:+ ": " +:+ show n +:+ " (" +:+ show t +:+ ")")).
  { intros stack. pieces. }
  destruct (result_is r "PASS"); [auto with pydb|].
  destruct (result_is r "SKIP"); auto with pydb.
Qed.

Lemma neutral_bare_row r : neutral (show r) → neutral (bare_row r).
Proof.
  intros Hr stack. unfold bare_row.
  assert (neutral (if result_is r "SKIP" then colored "td" "#ff6600" (show r) "</td>"
    else colored "td" "red" (show r) "</td>")) by (destruct (result_is r _); auto with pydb).
  pieces.
Qed.

Lemma neutral_case_rows case s :
  plain_element case = true →
  (find_text case "Result" = Ok (Some "FAIL") → findall case "FailureDetails" = []) →
  case_rows case = Ok s → neutral s.
Proof.
  intros Hp Hd Hs. unfold case_rows in Hs.
  destruct (read_test case) as [[[r n] t]|] eqn:E; [|done]. simpl in Hs.
  destruct (plain_read_test _ _ _ _ Hp E) as (Hr & Hn & Ht & Hf).
  destruct (result_is r "FAIL") eqn:Er.
  - apply bool_decide_eq_true in Er as ->. rewrite Hd in Hs by done. simpl in Hs. res_inv.
    apply neutral_empty.
  - res_inv. intros stack. pieces.
Qed.

Lemma neutral_suite_to_html suite s :
  plain_element suite = true →
  (∀ case, case ∈ findall suite "Test" → find_text case "Result" = Ok (Some "FAIL") →
    findall case "FailureDetails" = []) →
  suite_to_html suite = Ok s → neutral s.
Proof.
  intros Hp Hd Hs. unfold suite_to_html in Hs.
  destruct (read_test suite) as [[[r n] t]|] eqn:E; [|done]. simpl in Hs.
  destruct (plain_read_test _ _ _ _ Hp E) as (Hr & Hn & Ht & _).
  pose proof (neutral_suite_heading r n t Hr Hn Ht) as Hh.
  pose proof (neutral_bare_row r Hr) as Hb.
  destruct (_ || _ || _).
  - res_inv. intros stack. rewrite <- !str_app_assoc. pieces.
  - destruct (write_all case_rows _) as [rows|] eqn:Ec; [|done]. simpl in Hs. res_inv.
    assert (neutral rows).
    { eapply neutral_write_all; [|exact Ec]. intros c s' Hc. apply neutral_case_rows; [|by apply Hd].
      by eapply plain_child. }
    intros stack. rewrite <- !str_app_assoc. destruct (result_is r "FAIL"); pieces.
Qed.

Lemma neutral_example_to_html e s :
  plain_element e = true → find_text e "Result" ≠ Ok (Some "SKIP") →
  example_to_html e = Ok s → neutral s.
Proof.
  intros Hp Hd Hs. unfold example_to_html in Hs.
  destruct (read_test e) as [[[r n] t]|] eqn:E; [|done]. simpl in Hs. res_inv.
  destruct (plain_read_test _ _ _ _ Hp E) as (Hr & Hn & Ht & Hf).
  destruct (result_is r "SKIP") eqn:Er.
  { apply bool_decide_eq_true in Er as ->. done. }
  intros stack. destruct (result_is r "PASS"); pieces.
Qed.

(** The only exception is a missing child. *)
Definition only_attribute_error {A} (r : result exn A) : Prop :=
  ∀ e, r = Raise e → e = AttributeError.

Lemma only_ok {A} (a : A) : only_attribute_error (Ok a).
Proof. done. Qed.

Lemma only_bind {A B} (m : result exn A) (f : A → result exn B) :
  only_attribute_error m → (∀ a, only_attribute_error (f a)) → only_attribute_error (m ≫= f).
Proof. intros Hm Hf e [He|(a & _ & He)]%bind_Raise_inv; [by apply Hm|by apply (Hf a)]. Qed.

Lemma only_find_text e t : only_attribute_error (find_text e t).
Proof. unfold find_text. destruct (find e t); intros ?; naive_solver. Qed.

Lemma only_write_all {A} (f : A → result exn string) l :
  (∀ x, only_attribute_error (f x)) → only_attribute_error (write_all f l).
Proof.
  intros Hf. induction l as [|x l IH]; [apply only_ok|]. simpl.
  apply only_bind; [done|]. intros s. by apply only_bind.
Qed.

#[local] Hint Resolve only_ok only_bind only_find_text only_write_all : pydb.

Lemma only_read_test e : only_attribute_error (read_test e).
Proof. unfold read_test. auto 8 with pydb. Qed.

Lemma only_details e : only_attribute_error (details_to_text e).
Proof. unfold details_to_text. auto 20 with pydb. Qed.

#[local] Hint Resolve only_read_test only_details : pydb.

Lemma only_test_entry e : only_attribute_error (test_entry e).
Proof. unfold test_entry. auto 8 with pydb. Qed.

#[local] Hint Resolve only_test_entry : pydb.

(** ** Properties *)

(** the text report covers the whole tree: [translate_to_text] writes, for
    every top-level suite, the entry of each test nested in it at any depth,
    once and in document order, followed by the examples; its
    recursion ends, and the only exception is that of a missing child
    element. *)
Theorem translate_to_text_preorder (et : element) :
  translate_to_text et =
    (tests ← write_all test_entry (findall et "Test" ≫= preorder);
     examples ← write_all (λ e, r ← read_test e; Ok (status_line "Example" r))
       (findall et "Example");
     Ok (tests +:+ examples)) ∧
  (∀ fuel test, (depth test ≤ fuel)%nat →
     node_to_text fuel test = node_to_text (depth test) test) ∧
  (∀ e, translate_to_text et = Raise e → e = AttributeError).
Proof.
  assert (translate_to_text et =
    (tests ← write_all test_entry (findall et "Test" ≫= preorder);
     examples ← write_all (λ e, r ← read_test e; Ok (status_line "Example" r))
       (findall et "Example");
     Ok (tests +:+ examples))) as Heq.
  { unfold translate_to_text. rewrite write_all_concat. f_equal.
    apply write_all_ext, Forall_forall. intros x _. by apply node_to_text_walk. }
  split_and!; [done| |].
  - intros fuel test Hd. by rewrite !node_to_text_walk.
  - rewrite Heq. change (only_attribute_error (tests ←
      write_all test_entry (findall et "Test" ≫= preorder);
     examples ← write_all (λ e, r ← read_test e; Ok (status_line "Example" r))
       (findall et "Example");
     Ok (tests +:+ examples))). auto 12 with pydb.
Qed.

(** the HTML report is well nested: for a tree whose texts hold no markup,
    whatever its suites, results and cases, if no example was skipped and no
    failed case has failure details, what [translate_to_html] writes is
    balanced. *)
Theorem translate_to_html_balanced (et : element) (s : string) :
  plain_element et = true → no_skipped_example et → no_failure_details et →
  translate_to_html et = Ok s → balanced s = true.
Proof.
  intros Hp Hskip Hfail Hs. unfold translate_to_html in Hs.
  destruct (write_all suite_to_html _) as [suites|] eqn:E1; [|done]. simpl in Hs.
  destruct (write_all example_to_html _) as [examples|] eqn:E2; [|done]. simpl in Hs. res_inv.
  assert (neutral suites).
  { eapply neutral_write_all; [|exact E1]. intros x y Hx. apply neutral_suite_to_html.
    - by eapply plain_child.
    - intros case. by apply Hfail. }
  assert (neutral examples).
  { eapply neutral_write_all; [|exact E2]. intros x y Hx. apply neutral_example_to_html.
    - by eapply plain_child.
    - by apply Hskip. }
  apply balanced_iff. intros stack. pieces.
Qed.

Definition leaf (t x : string) : element := Element t (Some x) [] [].

Definition sample_results : element :=
  Element "Results" None []
    [Element "Test" None [] [leaf "Result" "PASS"; leaf "Name" "wifi";
       Element "Time" None [("real", "0.125")] [];
       Element "Test" None [] [leaf "Result" "PASS"; leaf "Name" "wifi-phy"]];
     Element "Example" None [] [leaf "Result" "CRASH"; leaf "Name" "udp-echo"]].

Lemma translate_to_html_balanced_witness :
  ∃ s, translate_to_html sample_results = Ok s ∧ balanced s = true.
Proof.
  eexists. split; [reflexivity|].
  apply (translate_to_html_balanced sample_results); [reflexivity|..|reflexivity].
  - intros e He. assert (e = Element "Example" None [] [leaf "Result" "CRASH"; leaf "Name" "udp-echo"])
      as -> by (apply elem_of_cons in He as [->|He]; [done|by apply elem_of_nil in He]).
    done.
  - intros suite case Hs Hc Hf.
    apply elem_of_cons in Hs as [->|Hs]; [|by apply elem_of_nil in Hs].
    apply elem_of_cons in Hc as [->|Hc]; [|by apply elem_of_nil in Hc]. done.
Defined.

(** A skipped example closes its cell with [</fd>], and a row of failure
    details is closed with a second [</td>]. *)
Lemma skipped_example_unbalanced :
  ∃ s, translate_to_html (Element "Results" None []
         [Element "Example" None [] [leaf "Result" "SKIP"; leaf "Name" "udp-echo"]]) = Ok s ∧
       balanced s = false.
Proof. eexists. split; reflexivity. Qed.

Definition sample_details : element :=
  Element "FailureDetails" None []
    [leaf "Message" "m"; leaf "Condition" "c"; leaf "Actual" "1"; leaf "Limit" "2";
     leaf "File" "f.cc"; leaf "Line" "7"].

Lemma failure_details_unbalanced :
  ∃ s, translate_to_html (Element "Results" None []
         [Element "Test" None [] [leaf "Result" "FAIL"; leaf "Name" "wifi";
            Element "Test" None [] [leaf "Result" "FAIL"; leaf "Name" "phy"; sample_details]]])
       = Ok s ∧ balanced s = false.
Proof. eexists. split; reflexivity. Qed.
