(* ===== verification/Patch.v ===== *)
(** * Patches ([utils/check-style.py], lines 27-283)

    The configuration handed to the formatter, the unified-diff classes
    ([PatchChunkLine], [PatchChunk], [Patch]), the parser [parse_patchset] and
    the rewriting of a diff that ignores changes of trailing white space. *)

From S2P Require Import Prelude PyStr.
From Stdlib Require Import Ascii.

Local Open Scope string_scope.

(** ** The formatter's configuration *)
Definition level2 : list string :=
  [
    "nl_collapse_empty_body=False"; "nl_if_brace=Add"; "nl_brace_else=Add"; "nl_elseif_brace=Add";
    "nl_else_brace=Add"; "nl_while_brace=Add"; "nl_do_brace=Add"; "nl_for_brace=Add";
    "nl_brace_while=Add"; "nl_switch_brace=Add"; "nl_after_case=True";
    "nl_namespace_brace=Remove"; "nl_after_brace_open=True"; "nl_class_leave_one_liners=False";
    "nl_enum_leave_one_liners=False"; "nl_func_leave_one_liners=False";
    "nl_if_leave_one_liners=False"; "nl_class_colon=Ignore"; "nl_after_access_spec=1";
    "nl_after_semicolon=True"; "pos_class_colon=Lead"; "pos_class_comma=Trail"; "pos_bool=Lead";
    "nl_class_init_args=Add"; "nl_template_class=Add"; "nl_class_brace=Add";
    "# does not work very well"; "nl_func_type_name=Ignore"; "nl_func_scope_name=Ignore";
    "nl_func_type_name_class=Ignore"; "nl_func_proto_type_name=Ignore"; "# function\n(";
    "nl_func_paren=Remove"; "nl_fdef_brace=Add"; "nl_struct_brace=Add"; "nl_enum_brace=Add";
    "nl_union_brace=Add"; "mod_full_brace_do=Add"; "mod_full_brace_for=Add";
    "mod_full_brace_if=Add"; "mod_full_brace_while=Add"; "mod_full_brace_for=Add";
    "mod_remove_extra_semicolon=True"; "# max code width"; "#code_width=128";
    "#ls_for_split_full=True"; "#ls_func_split_full=True"].

Definition level1 : list string :=
  [
    "# extra spaces here and there"; "sp_brace_typedef=Add"; "sp_enum_assign=Add";
    "sp_before_sparen=Add"; "sp_after_semi_for=Add"; "sp_arith=Add"; "sp_assign=Add";
    "sp_compare=Add"; "sp_func_class_paren=Add"; "sp_after_type=Add"; "sp_type_func=Add";
    "sp_angle_paren=Add"].

Definition level0 : list string :=
  [
    "sp_func_proto_paren=Add"; "sp_func_def_paren=Add"; "sp_func_call_paren=Add";
    "sp_after_semi_for=Ignore"; "sp_before_sparen=Ignore"; "sp_type_func=Ignore";
    "sp_after_type=Ignore"; "nl_class_leave_one_liners=True"; "nl_enum_leave_one_liners=True";
    "nl_func_leave_one_liners=True"; "nl_assign_leave_one_liners=True";
    "#nl_collapse_empty_body=False"; "nl_getset_leave_one_liners=True";
    "nl_if_leave_one_liners=True"; "nl_fdef_brace=Ignore"; "# finally, indentation configuration";
    "indent_with_tabs=0"; "indent_namespace=false"; "indent_columns=2"; "indent_brace=2";
    "indent_case_brace=2"; "indent_class=true"; "indent_class_colon=True"; "# alignment";
    "indent_align_assign=False"; "align_left_shift=True"; "# comment reformating disabled";
    "cmt_reflow_mode=1 # do not touch comments at all";
    "cmt_indent_multi=False # really, do not touch them"].

Definition config_text (ls : list string) : string :=
  nl +:+ foldr (λ l acc, l +:+ nl +:+ acc) "" ls.

(** The text [uncrustify_config_file] writes. *)
Definition uncrustify_config_file (level : Z) : string :=
  config_text level0 +:+
  (if bool_decide (1 ≤ level)%Z then config_text level1 else "") +:+
  (if bool_decide (2 ≤ level)%Z then config_text level2 else "").

(** ** Patches

    [UNSET] is the type [0] a line has before one of the setters is called. *)
Inductive line_type := UNSET | SRC | DST | BOTH.

#[export] Instance line_type_eq_dec : EqDecision line_type.
Proof. solve_decision. Defined.

Record PatchChunkLine := ChunkLine { ltype : line_type; line : string }.

Definition set_src_line (s : string) : PatchChunkLine := ChunkLine SRC s.
Definition set_dst_line (s : string) : PatchChunkLine := ChunkLine DST s.
Definition set_both (s : string) : PatchChunkLine := ChunkLine BOTH s.

Definition append_to_line (s : string) (l : PatchChunkLine) : PatchChunkLine :=
  ChunkLine (ltype l) (line l +:+ s).

Definition is_src (l : PatchChunkLine) : bool :=
  bool_decide (ltype l = SRC) || bool_decide (ltype l = BOTH).

Definition is_dst (l : PatchChunkLine) : bool :=
  bool_decide (ltype l = DST) || bool_decide (ltype l = BOTH).

Definition write_line (l : PatchChunkLine) : result exn string :=
  match ltype l with
  | SRC => Ok ("-" +:+ line l +:+ nl)
  | DST => Ok ("+" +:+ line l +:+ nl)
  | BOTH => Ok (" " +:+ line l +:+ nl)
  | UNSET => Raise (PyException "invalid patch")
  end.

Record PatchChunk := Chunk { src_pos : N; dst_pos : N; chunk_lines : list PatchChunkLine }.

Definition src_start (c : PatchChunk) : N := src_pos c.

Definition add_line (l : PatchChunkLine) (c : PatchChunk) : PatchChunk :=
  Chunk (src_pos c) (dst_pos c) (chunk_lines c ++ [l]).

(** The lists [src()] and [dst()] share their line objects with the chunk:
    they are lists of positions in [chunk_lines]. *)
Fixpoint positions (p : PatchChunkLine → bool) (i : nat) (ls : list PatchChunkLine) :
    list nat :=
  match ls with
  | [] => []
  | l :: ls' => if p l then i :: positions p (S i) ls' else positions p (S i) ls'
  end.

Definition src (c : PatchChunk) : list nat := positions is_src 0 (chunk_lines c).
Definition dst (c : PatchChunk) : list nat := positions is_dst 0 (chunk_lines c).
Definition src_len (c : PatchChunk) : nat := length (src c).
Definition dst_len (c : PatchChunk) : nat := length (dst c).

(** What is written, one string per [f.write]. *)
Fixpoint write_lines (ls : list PatchChunkLine) : result exn (list string) :=
  match ls with
  | [] => Ok []
  | l :: ls' => s ← write_line l; r ← write_lines ls'; Ok (s :: r)
  end.

Definition write_chunk (c : PatchChunk) : result exn (list string) :=
  r ← write_lines (chunk_lines c);
  Ok (("@@ -" +:+ pretty (src_pos c) +:+ "," +:+ pretty (src_len c) +:+ " +" +:+
       pretty (dst_pos c) +:+ "," +:+ pretty (dst_len c) +:+ " @@" +:+ nl) :: r).

Record Patch := MkPatch { patch_src : string; patch_dst : string; chunks : list PatchChunk }.

Definition new_patch : Patch := MkPatch "" "" [].

Definition add_chunk (c : PatchChunk) (p : Patch) : Patch :=
  MkPatch (patch_src p) (patch_dst p) (chunks p ++ [c]).
Definition set_src (s : string) (p : Patch) : Patch := MkPatch s (patch_dst p) (chunks p).
Definition set_dst (s : string) (p : Patch) : Patch := MkPatch (patch_src p) s (chunks p).

Fixpoint write_chunks (cs : list PatchChunk) : result exn (list string) :=
  match cs with
  | [] => Ok []
  | c :: cs' => s ← write_chunk c; r ← write_chunks cs'; Ok (s ++ r)%list
  end.

Definition write_patch (p : Patch) : result exn (list string) :=
  r ← write_chunks (chunks p);
  Ok (("--- " +:+ patch_src p +:+ nl) :: ("+++ " +:+ patch_dst p +:+ nl) :: r).

(** ** [parse_patchset] *)

(** The group of any characters that ends a pattern: the text up to an
    optional final newline. *)
Fixpoint rest_of_line (s : string) : option string :=
  match s with
  | "" => Some ""
  | String c s' =>
      if decide (c = newline) then if bool_decide (s' = "") then Some "" else None
      else String c <$> rest_of_line s'
  end.

(** The pattern made of the literal [p] and such a group. *)
Definition match_prefix (p s : string) : option string :=
  if startswith p s then rest_of_line (str_drop (String.length p) s) else None.

Definition digit (c : ascii) : option N :=
  let n := N_of_ascii c in
  if bool_decide (48 ≤ n)%N && bool_decide (n ≤ 57)%N then Some (n - 48)%N else None.

(** [([0-9]+)] read as [int]: the value and what follows. *)
Fixpoint read_digits (acc : N) (s : string) : N * string :=
  match s with
  | "" => (acc, "")
  | String c s' =>
      match digit c with Some d => read_digits (acc * 10 + d)%N s' | None => (acc, s) end
  end.

Definition match_int (s : string) : option (N * string) :=
  match s with
  | String c s' => d ← digit c; Some (read_digits d s')
  | "" => None
  end.

Definition match_literal (p s : string) : option string :=
  if startswith p s then Some (str_drop (String.length p) s) else None.

Definition match_chunk_start (s : string) : option (N * N) :=
  s ← match_literal "@@ -" s;
  '(a, s) ← match_int s; s ← match_literal "," s; '(_, s) ← match_int s;
  s ← match_literal " +" s;
  '(c, s) ← match_int s; s ← match_literal "," s; '(_, s) ← match_int s;
  _ ← match_literal " @@" s; Some (a, c).

(** The variables of the loop: [current_patch] is always the last element of
    [patchset]; [current_chunk] outlives the patch it was added to, so it is
    the position of a patch and of a chunk in it. *)
Record parser := Parser { patchset : list Patch; current_chunk : option (nat * nat) }.

Definition on_current_patch (f : Patch → Patch) (st : parser) : result exn parser :=
  match patchset st with
  | [] => Raise AttributeError
  | _ => Ok (Parser (alter f (pred (length (patchset st))) (patchset st)) (current_chunk st))
  end.

Definition add_to_chunk (l : PatchChunkLine) (st : parser) : result exn parser :=
  match current_chunk st with
  | None => Raise UnboundLocalError
  | Some (i, j) =>
      Ok (Parser (alter (λ p, MkPatch (patch_src p) (patch_dst p)
                     (alter (add_line l) j (chunks p))) i (patchset st))
            (current_chunk st))
  end.

Definition start_chunk (a b : N) (st : parser) : result exn parser :=
  st' ← on_current_patch (add_chunk (Chunk a b [])) st;
  let i := pred (length (patchset st')) in
  Ok (Parser (patchset st')
        (Some (i, match patchset st' !! i with Some p => pred (length (chunks p)) | None => 0 end))).

Definition parse_line (st : parser) (s : string) : result exn parser :=
  match match_prefix "--- " s with
  | Some name => Ok (Parser (patchset st ++ [set_src name new_patch])%list (current_chunk st))
  | None =>
  match match_prefix "+++ " s with
  | Some name => on_current_patch (set_dst name) st
  | None =>
  match match_chunk_start s with
  | Some (a, b) => start_chunk a b st
  | None =>
  match match_prefix "-" s with
  | Some t => add_to_chunk (set_src_line t) st
  | None =>
  match match_prefix "+" s with
  | Some t => add_to_chunk (set_dst_line t) st
  | None =>
  match match_prefix " " s with
  | Some t => add_to_chunk (set_both t) st
  | None => Raise (PyException "")
  end end end end end end.

Definition parse_patchset (generator : list string) : result exn (list Patch) :=
  st ← fold_res parse_line (Parser [] None) generator; Ok (patchset st).

(** ** [remove_trailing_whitespace_changes] *)

(** The pattern of any characters followed by blanks or tabs: the first group
    is greedy, so the second one is the last character. *)
Fixpoint match_whitespace (s : string) : option (string * string) :=
  match s with
  | "" => None
  | String c "" =>
      if bool_decide (c = " "%char) || bool_decide (c = "009"%char)
      then Some ("", String c "") else None
  | String c s' => '(a, b) ← match_whitespace s'; Some (String c a, b)
  end.

(** One round of the inner loop, on the lines of the chunk; [None] is the
    exception of [dst[i]]. *)
Definition whitespace_round (ls : list PatchChunkLine) (s : nat) (d : option nat) :
    option (list PatchChunkLine) :=
  d ← d; sl ← ls !! s; dl ← ls !! d;
  match match_whitespace (line sl) with
  | Some (a, b) =>
      if bool_decide (a = line dl) then Some (alter (append_to_line b) d ls) else Some ls
  | None => Some ls
  end.

(** The rounds of one chunk: the lines and whether the [except] was taken. *)
Fixpoint whitespace_rounds (ls : list PatchChunkLine) (ss ds : list nat) :
    list PatchChunkLine * bool :=
  match ss with
  | [] => (ls, false)
  | s :: ss' =>
      match whitespace_round ls s (head ds) with
      | Some ls' => whitespace_rounds ls' ss' (tail ds)
      | None => (ls, true)
      end
  end.

Definition whitespace_chunk (c : PatchChunk) : PatchChunk * bool :=
  let '(ls, stop) := whitespace_rounds (chunk_lines c) (src c) (dst c) in
  (Chunk (src_pos c) (dst_pos c) ls, stop).

(** The two outer loops, left as soon as an exception is caught. *)
Fixpoint whitespace_chunks (cs : list PatchChunk) : list PatchChunk * bool :=
  match cs with
  | [] => ([], false)
  | c :: cs' =>
      let '(c', stop) := whitespace_chunk c in
      if stop then (c' :: cs', true)
      else let '(r, stop') := whitespace_chunks cs' in (c' :: r, stop')
  end.

Fixpoint whitespace_patches (ps : list Patch) : list Patch :=
  match ps with
  | [] => []
  | p :: ps' =>
      let '(cs, stop) := whitespace_chunks (chunks p) in
      let p' := MkPatch (patch_src p) (patch_dst p) cs in
      if stop then p' :: ps' else p' :: whitespace_patches ps'
  end.

Definition remove_trailing_whitespace_changes (patch_generator : list string) :
    result exn (list Patch) :=
  ps ← parse_patchset patch_generator; Ok (whitespace_patches ps).

(** ** Lemmas on the patterns *)
Lemma str_drop_app p s : str_drop (String.length p) (p +:+ s) = s.
Proof. induction p as [|c p IH]; [by destruct s|]. exact IH. Qed.

Lemma rest_of_line_nl t : contains_char newline t = false → rest_of_line (t +:+ nl) = Some t.
Proof.
  induction t as [|c t IH]; intros Ht; [done|].
  cbn [contains_char] in Ht. apply orb_false_iff in Ht as [Hc%bool_decide_eq_false Ht].
  rewrite str_app_cons. cbn [rest_of_line]. rewrite decide_False by congruence.
  by rewrite IH.
Qed.

Lemma match_prefix_hit p t :
  contains_char newline t = false → match_prefix p (p +:+ t +:+ nl) = Some t.
Proof.
  intros Ht. unfold match_prefix. rewrite startswith_app, str_drop_app.
  by apply rest_of_line_nl.
Qed.

(** A literal that the text does not continue with does not match. *)
Lemma match_prefix_miss p q t :
  contains_char newline q = false → startswith q t = false →
  match_prefix (p +:+ q) (p +:+ t +:+ nl) = None.
Proof.
  intros Hq Ht. unfold match_prefix.
  assert (∀ s, startswith (p +:+ q) (p +:+ s) = startswith q s) as ->.
  { intros s. induction p as [|c p IH]; [done|]. rewrite !str_app_cons. cbn [startswith].
    by rewrite bool_decide_eq_true_2. }
  destruct (startswith q (t +:+ nl)) eqn:E; [|done].
  rewrite <- (app_empty_r nl) in E.
  apply startswith_first_line in E; [congruence|done].
Qed.

Lemma match_literal_hit p s : match_literal p (p +:+ s) = Some s.
Proof. unfold match_literal. by rewrite startswith_app, str_drop_app. Qed.

Lemma digit_pretty (n : N) : (n < 10)%N → digit (pretty_N_char n) = Some n.
Proof.
  intros Hn. assert (n = 0 ∨ n = 1 ∨ n = 2 ∨ n = 3 ∨ n = 4 ∨ n = 5 ∨ n = 6 ∨ n = 7 ∨ n = 8
    ∨ n = 9)%N as Hc by lia.
  by destruct Hc as [-> | [-> | [-> | [-> | [-> | [-> | [-> | [-> | [-> | ->]]]]]]]]].
Qed.

Lemma pretty_N_go_app x s r : pretty_N_go x (s +:+ r) = pretty_N_go x s +:+ r.
Proof.
  revert s. induction (N.lt_wf_0 x) as [x _ IH]; intros s.
  assert (x = 0 ∨ 0 < x)%N as [->|Hx] by lia; [done|].
  rewrite (pretty_N_go_step x (s +:+ r)), (pretty_N_go_step x s) by done.
  rewrite <- (IH (x `div` 10)%N) by (by apply N.div_lt). done.
Qed.

Lemma read_digits_go x r : read_digits 0 (pretty_N_go x r) = read_digits x r.
Proof.
  revert r. induction (N.lt_wf_0 x) as [x _ IH]; intros r.
  assert (x = 0 ∨ 0 < x)%N as [->|Hx] by lia; [done|].
  rewrite pretty_N_go_step by done. rewrite IH by (by apply N.div_lt). cbn [read_digits].
  rewrite digit_pretty by (by apply N.mod_lt). f_equal.
  pose proof (N.div_mod x 10). lia.
Qed.

Lemma pretty_N_go_head x c s :
  is_Some (digit c) →
  ∃ c' s', pretty_N_go x (String c s) = String c' s' ∧ is_Some (digit c').
Proof.
  revert c s. induction (N.lt_wf_0 x) as [x _ IH]; intros c s Hc.
  assert (x = 0 ∨ 0 < x)%N as [->|Hx] by lia; [by exists c, s|].
  rewrite pretty_N_go_step by done. apply IH; [by apply N.div_lt|].
  rewrite digit_pretty by (by apply N.mod_lt). eauto.
Qed.

Lemma match_int_pretty (n : N) r :
  match r with String c _ => digit c = None | "" => True end →
  match_int (pretty n +:+ r) = Some (n, r).
Proof.
  intros Hr.
  assert (∀ m, read_digits m r = (m, r)) as Hstop.
  { intros m. destruct r as [|c r]; [done|]. cbn [read_digits]. by rewrite Hr. }
  unfold pretty, pretty_N. case_decide as Hn; [subst n; simpl; by rewrite Hstop|].
  rewrite <- pretty_N_go_app. change ("" +:+ r) with r.
  pose proof (read_digits_go n r) as Hg. rewrite Hstop in Hg.
  rewrite pretty_N_go_step in Hg |- * by lia.
  destruct (pretty_N_go_head (n `div` 10)%N (pretty_N_char (n `mod` 10)) r)
    as (c & s & Heq & [d Hd]).
  { rewrite digit_pretty by (by apply N.mod_lt). eauto. }
  rewrite Heq in Hg |- *. cbn [match_int read_digits] in *. rewrite Hd in *. simpl.
  by rewrite <- Hg.
Qed.

Definition chunk_header (a b : N) (sl dl : nat) : string :=
  "@@ -" +:+ pretty a +:+ "," +:+ pretty sl +:+ " +" +:+ pretty b +:+ "," +:+ pretty dl +:+
  " @@" +:+ nl.

Lemma match_chunk_header a b sl dl : match_chunk_start (chunk_header a b sl dl) = Some (a, b).
Proof.
  unfold match_chunk_start, chunk_header.
  repeat first [rewrite match_literal_hit | rewrite match_int_pretty by done];
    cbn [mbind option_bind].
  unfold pretty, pretty_nat.
  repeat (first [rewrite match_literal_hit | rewrite match_int_pretty by done];
    cbn [mbind option_bind]).
  done.
Qed.

(** ** Reading back what was written *)

(** A line whose written form is read as what it is: a removed line that
    starts with ["-- "] is written like a file header. *)
Definition readable_line (l : PatchChunkLine) : Prop :=
  contains_char newline (line l) = false ∧
  match ltype l with
  | SRC => startswith "-- " (line l) = false
  | DST => startswith "++ " (line l) = false
  | BOTH => True
  | UNSET => False
  end.

Definition readable_patch (p : Patch) : Prop :=
  contains_char newline (patch_src p) = false ∧ contains_char newline (patch_dst p) = false ∧
  Forall (λ c, Forall readable_line (chunk_lines c)) (chunks p).

Fixpoint write_patches (ps : list Patch) : result exn (list string) :=
  match ps with
  | [] => Ok []
  | p :: ps' => s ← write_patch p; r ← write_patches ps'; Ok (s ++ r)%list
  end.

Lemma add_to_last_chunk l ps a b cs c :
  add_to_chunk l (Parser (ps ++ [MkPatch a b (cs ++ [c])]) (Some (length ps, length cs))) =
  Ok (Parser (ps ++ [MkPatch a b (cs ++ [add_line l c])]) (Some (length ps, length cs))).
Proof.
  unfold add_to_chunk. simpl. do 3 f_equal.
  rewrite alter_app_r_alt, Nat.sub_diag by lia. simpl. do 2 f_equal. f_equal.
  by rewrite alter_app_r_alt, Nat.sub_diag by lia.
Qed.

Lemma parse_written_line ps a b cs c l s :
  readable_line l → write_line l = Ok s →
  parse_line (Parser (ps ++ [MkPatch a b (cs ++ [c])]) (Some (length ps, length cs))) s =
  Ok (Parser (ps ++ [MkPatch a b (cs ++ [add_line l c])]) (Some (length ps, length cs))).
Proof.
  destruct l as [[] t]; intros [Hnl Ht] Hw; simpl in *; [done|..]; injection Hw as <-;
    unfold parse_line.
  - change "--- " with ("-" +:+ "-- "). rewrite match_prefix_miss by done.
    change (match_prefix "+++ " ("-" +:+ t +:+ nl)) with (@None string).
    change (match_chunk_start ("-" +:+ t +:+ nl)) with (@None (N * N)).
    cbv beta iota. rewrite match_prefix_hit by done. apply add_to_last_chunk.
  - change (match_prefix "--- " ("+" +:+ t +:+ nl)) with (@None string).
    change "+++ " with ("+" +:+ "++ "). rewrite match_prefix_miss by done.
    change (match_chunk_start ("+" +:+ t +:+ nl)) with (@None (N * N)).
    change (match_prefix "-" ("+" +:+ t +:+ nl)) with (@None string).
    cbv beta iota. rewrite match_prefix_hit by done. apply add_to_last_chunk.
  - change (match_prefix "--- " (" " +:+ t +:+ nl)) with (@None string).
    change (match_prefix "+++ " (" " +:+ t +:+ nl)) with (@None string).
    change (match_chunk_start (" " +:+ t +:+ nl)) with (@None (N * N)).
    change (match_prefix "-" (" " +:+ t +:+ nl)) with (@None string).
    change (match_prefix "+" (" " +:+ t +:+ nl)) with (@None string).
    cbv beta iota. rewrite match_prefix_hit by done. apply add_to_last_chunk.
Qed.

Lemma parse_written_lines ps a b cs c ls ss :
  Forall readable_line ls → write_lines ls = Ok ss →
  fold_res parse_line
    (Parser (ps ++ [MkPatch a b (cs ++ [c])]) (Some (length ps, length cs))) ss =
  Ok (Parser (ps ++ [MkPatch a b (cs ++ [Chunk (src_pos c) (dst_pos c)
        (chunk_lines c ++ ls)])]) (Some (length ps, length cs))).
Proof.
  intros Hls. revert c ss. induction Hls as [|l ls Hl Hls IH]; intros c ss Hw; simpl in Hw.
  - res_inv. simpl. rewrite app_nil_r. by destruct c.
  - destruct (write_line l) as [s|] eqn:El; [|done]. simpl in Hw.
    destruct (write_lines ls) as [r|] eqn:Er; [|done]. simpl in Hw. res_inv.
    cbn [fold_res]. rewrite (parse_written_line _ _ _ _ _ _ _ Hl El), bind_Ok.
    rewrite (IH _ _ eq_refl). unfold add_line. simpl. by rewrite <- app_assoc.
Qed.

Lemma start_last_chunk m n ps a b cs cur :
  start_chunk m n (Parser (ps ++ [MkPatch a b cs]) cur) =
  Ok (Parser (ps ++ [MkPatch a b (cs ++ [Chunk m n []])]) (Some (length ps, length cs))).
Proof.
  unfold start_chunk, on_current_patch. simpl.
  destruct (ps ++ [MkPatch a b cs])%list as [|x l] eqn:E; [by destruct ps|]. rewrite <- E.
  rewrite length_app, Nat.add_1_r. simpl.
  rewrite alter_app_r_alt, Nat.sub_diag by lia. simpl.
  rewrite length_app, Nat.add_1_r. simpl. rewrite list_lookup_middle by done. simpl.
  unfold add_chunk. simpl. by rewrite length_app, Nat.add_1_r.
Qed.

Lemma parse_written_chunk ps a b cs c cur ss :
  Forall readable_line (chunk_lines c) → write_chunk c = Ok ss →
  fold_res parse_line (Parser (ps ++ [MkPatch a b cs]) cur) ss =
  Ok (Parser (ps ++ [MkPatch a b (cs ++ [c])]) (Some (length ps, length cs))).
Proof.
  intros Hls Hw. unfold write_chunk in Hw.
  destruct (write_lines (chunk_lines c)) as [r|] eqn:Er; [|done]. simpl in Hw. res_inv.
  cbn [fold_res].
  assert (parse_line (Parser (ps ++ [MkPatch a b cs]) cur)
      (chunk_header (src_pos c) (dst_pos c) (src_len c) (dst_len c)) =
    Ok (Parser (ps ++ [MkPatch a b (cs ++ [Chunk (src_pos c) (dst_pos c) []])])
          (Some (length ps, length cs)))) as Hh.
  { unfold parse_line. rewrite match_chunk_header. apply start_last_chunk. }
  unfold chunk_header in Hh. rewrite Hh.
  rewrite bind_Ok, (parse_written_lines _ _ _ _ _ _ _ Hls Er). by destruct c.
Qed.

Lemma parse_written_chunks ps a b cs cs' cur ss :
  Forall (λ c, Forall readable_line (chunk_lines c)) cs' → write_chunks cs' = Ok ss →
  ∃ cur', fold_res parse_line (Parser (ps ++ [MkPatch a b cs]) cur) ss =
    Ok (Parser (ps ++ [MkPatch a b (cs ++ cs')]) cur').
Proof.
  intros Hcs. revert cs cur ss. induction Hcs as [|c cs' Hc Hcs IH]; intros cs cur ss Hw;
    simpl in Hw.
  - res_inv. exists cur. by rewrite app_nil_r.
  - destruct (write_chunk c) as [s|] eqn:Ec; [|done]. simpl in Hw.
    destruct (write_chunks cs') as [r|] eqn:Er; [|done]. simpl in Hw. res_inv.
    rewrite fold_res_app, (parse_written_chunk _ _ _ _ _ _ _ Hc Ec), bind_Ok.
    destruct (IH (cs ++ [c])%list (Some (length ps, length cs)) r eq_refl) as [cur' ->].
    exists cur'. by rewrite <- app_assoc.
Qed.

Lemma parse_written_patches ps ps' cur ss :
  Forall readable_patch ps' → write_patches ps' = Ok ss →
  ∃ cur', fold_res parse_line (Parser ps cur) ss = Ok (Parser (ps ++ ps') cur').
Proof.
  intros Hps. revert ps cur ss. induction Hps as [|p ps' (Hs & Hd & Hc) Hps IH];
    intros ps cur ss Hw; simpl in Hw.
  - res_inv. exists cur. by rewrite app_nil_r.
  - unfold write_patch in Hw. destruct p as [a b cs]. simpl in *.
    destruct (write_chunks cs) as [r|] eqn:Ec; [|done]. simpl in Hw.
    destruct (write_patches ps') as [r'|] eqn:Er; [|done]. simpl in Hw. res_inv.
    cbn [app fold_res].
    assert (parse_line (Parser ps cur) ("--- " +:+ a +:+ nl) =
      Ok (Parser (ps ++ [set_src a new_patch]) cur)) as ->.
    { unfold parse_line. by rewrite match_prefix_hit. }
    rewrite bind_Ok.
    assert (parse_line (Parser (ps ++ [set_src a new_patch]) cur) ("+++ " +:+ b +:+ nl) =
      Ok (Parser (ps ++ [MkPatch a b []]) cur)) as ->.
    { unfold parse_line.
      change (match_prefix "--- " ("+++ " +:+ b +:+ nl)) with (@None string). cbv beta iota.
      rewrite match_prefix_hit by done. unfold on_current_patch. simpl.
      destruct (ps ++ [set_src a new_patch])%list as [|x l] eqn:E; [by destruct ps|].
      rewrite <- E, length_app, Nat.add_1_r. simpl.
      by rewrite alter_app_r_alt, Nat.sub_diag by lia. }
    rewrite bind_Ok, fold_res_app.
    destruct (parse_written_chunks ps a b [] cs cur r Hc Ec) as [cur1 ->]. rewrite bind_Ok. cbn [app].
    destruct (IH (ps ++ [MkPatch a b cs])%list cur1 r' eq_refl) as [cur' ->].
    exists cur'. by rewrite <- app_assoc.
Qed.

(** ** The rewriting of a chunk *)

(** Only appending: same number, same kinds, and each text is the old one with
    blanks appended. *)
Definition extends (l l' : PatchChunkLine) : Prop :=
  ltype l' = ltype l ∧ ∃ b, line l' = line l +:+ b.

#[export] Instance extends_refl : Reflexive extends.
Proof. intros l. split; [done|]. exists "". by rewrite app_empty_r. Qed.

#[export] Instance extends_trans : Transitive extends.
Proof.
  intros l1 l2 l3 [H1 [b1 E1]] [H2 [b2 E2]]. split; [congruence|].
  exists (b1 +:+ b2). by rewrite E2, E1, str_app_assoc.
Qed.

Lemma alter_extends b d ls : Forall2 extends ls (alter (append_to_line b) d ls).
Proof.
  revert d. induction ls as [|l ls IH]; intros [|d]; simpl; [constructor..| |].
  - constructor; [|reflexivity]. split; [done|]. by exists b.
  - constructor; [reflexivity|apply IH].
Qed.

Lemma whitespace_rounds_extends ls ss ds :
  Forall2 extends ls (whitespace_rounds ls ss ds).1.
Proof.
  revert ls ds. induction ss as [|s ss IH]; intros ls ds; simpl; [done|].
  destruct (whitespace_round ls s (head ds)) as [ls'|] eqn:E; [|done].
  etransitivity; [|apply IH]. unfold whitespace_round in E.
  destruct (head ds) as [d|]; [|done]. simpl in E.
  destruct (ls !! s) as [sl|]; [|done]. simpl in E.
  destruct (ls !! d) as [dl|]; [|done]. simpl in E.
  destruct (match_whitespace (line sl)) as [[a b]|]; [|by simplify_eq].
  destruct (bool_decide (a = line dl)); simplify_eq; [apply alter_extends|done].
Qed.

Definition chunk_extends (c c' : PatchChunk) : Prop :=
  src_pos c' = src_pos c ∧ dst_pos c' = dst_pos c ∧
  Forall2 extends (chunk_lines c) (chunk_lines c').

Definition patch_extends (p p' : Patch) : Prop :=
  patch_src p' = patch_src p ∧ patch_dst p' = patch_dst p ∧
  Forall2 chunk_extends (chunks p) (chunks p').

Lemma whitespace_chunk_extends c : chunk_extends c (whitespace_chunk c).1.
Proof.
  unfold whitespace_chunk.
  pose proof (whitespace_rounds_extends (chunk_lines c) (src c) (dst c)) as He.
  destruct (whitespace_rounds _ _ _). by split_and!.
Qed.

#[export] Instance chunk_extends_refl : Reflexive chunk_extends.
Proof. by intros c. Qed.

Lemma whitespace_chunks_extends cs : Forall2 chunk_extends cs (whitespace_chunks cs).1.
Proof.
  induction cs as [|c cs IH]; [constructor|]. simpl.
  pose proof (whitespace_chunk_extends c) as Hc.
  destruct (whitespace_chunk c) as [c' []]; simpl in *.
  - by constructor.
  - destruct (whitespace_chunks cs) as [r stop]. by constructor.
Qed.

#[export] Instance patch_extends_refl : Reflexive patch_extends.
Proof. by intros p. Qed.

Lemma whitespace_patches_extends ps : Forall2 patch_extends ps (whitespace_patches ps).
Proof.
  induction ps as [|p ps IH]; [constructor|]. simpl.
  pose proof (whitespace_chunks_extends (chunks p)) as Hc.
  destruct (whitespace_chunks (chunks p)) as [cs []]; simpl in *.
  - constructor; [by split_and!|reflexivity].
  - by constructor; [split_and!|].
Qed.

(** The sizes a chunk header announces depend on the kinds of lines only. *)
Lemma positions_extends p ls ls' i :
  (∀ l l', extends l l' → p l' = p l) → Forall2 extends ls ls' →
  positions p i ls' = positions p i ls.
Proof.
  intros Hp Hls. revert i. induction Hls as [|l l' ls ls' Hl _ IH]; intros i; [done|].
  simpl. by rewrite (Hp _ _ Hl), IH.
Qed.

Lemma chunk_extends_lengths c c' :
  chunk_extends c c' → src_len c' = src_len c ∧ dst_len c' = dst_len c.
Proof.
  intros (_ & _ & He). unfold src_len, dst_len, src, dst.
  rewrite (positions_extends is_src _ _ 0) with (2 := He)
    by (intros l l' [Ht _]; unfold is_src; by rewrite Ht).
  rewrite (positions_extends is_dst _ _ 0) with (2 := He)
    by (intros l l' [Ht _]; unfold is_dst; by rewrite Ht).
  done.
Qed.

Lemma match_whitespace_spec s a b :
  match_whitespace s = Some (a, b) ↔ s = a +:+ b ∧ (b = " " ∨ b = String "009" "").
Proof.
  revert a. induction s as [|c s IH]; intros a.
  - split; [done|]. intros [Hs Hb]. destruct a; [|done]. by destruct Hb as [-> | ->].
  - destruct s as [|d s].
    + cbn [match_whitespace]. split.
      * intros H. destruct (bool_decide (c = " "%char) || _) eqn:E; [|done]. simplify_eq.
        rewrite orb_true_iff, !bool_decide_eq_true in E. split; [done|].
        destruct E as [-> | ->]; [by left|by right].
      * intros [Hs Hb]. destruct a as [|x a]; [|].
        { change ("" +:+ b) with b in Hs. subst b.
          destruct Hb as [Hb|Hb]; injection Hb as ->; done. }
        injection Hs as -> Hs. destruct a; [|done]. destruct Hb as [-> | ->]; done.
    + change (match_whitespace (String c (String d s)))
        with ('(a, b) ← match_whitespace (String d s); Some (String c a, b)).
      split.
      * destruct (match_whitespace (String d s)) as [[a' b']|] eqn:E; [|done]. simpl.
        intros [= <- <-]. destruct (proj1 (IH a') eq_refl) as [Hs Hb]. by rewrite Hs.
      * intros [Hs Hb]. destruct a as [|x a].
        { change ("" +:+ b) with b in Hs. by destruct Hb as [-> | ->]. }
        injection Hs as -> Hs. rewrite (proj2 (IH a)) by done. done.
Qed.

(** The line the [i]-th destination line becomes, from the [i]-th source line. *)
Definition neutralised (s d : PatchChunkLine) : PatchChunkLine :=
  match match_whitespace (line s) with
  | Some (a, b) => if bool_decide (a = line d) then append_to_line b d else d
  | None => d
  end.

Lemma neutralised_self l : neutralised l l = l.
Proof.
  unfold neutralised. destruct (match_whitespace (line l)) as [[a b]|] eqn:E; [|done].
  apply match_whitespace_spec in E as [E Hb]. rewrite bool_decide_eq_false_2; [done|].
  intros ->. pose proof (f_equal String.length E) as Hl. rewrite str_length_app in Hl.
  destruct Hb as [-> | ->]; simpl in Hl; lia.
Qed.

(** A chunk is aligned when source and destination lines pair up: each pair is
    one context line or a removed line and an added one. *)
Definition aligned (ps : list (nat * nat)) : Prop :=
  NoDup ps.*2 ∧ ∀ s d, (s, d) ∈ ps → s = d ∨ s ∉ ps.*2.

Lemma whitespace_rounds_aligned ls ps :
  aligned ps → (∀ s d, (s, d) ∈ ps → s < length ls ∧ d < length ls) →
  ∃ ls', whitespace_rounds ls ps.*1 ps.*2 = (ls', false) ∧
    (∀ k, k ∉ ps.*2 → ls' !! k = ls !! k) ∧
    (∀ s d sl dl, (s, d) ∈ ps → ls !! s = Some sl → ls !! d = Some dl →
       ls' !! d = Some (neutralised sl dl)).
Proof.
  revert ls. induction ps as [|[s d] ps IH]; intros ls [Hnd Hal] Hlen.
  { exists ls. split_and!; [done..|]. intros s d sl dl Hin. by apply elem_of_nil in Hin. }
  simpl in Hnd. apply NoDup_cons in Hnd as [Hd Hnd].
  destruct (Hlen s d) as [Hs Hd']; [by left|].
  destruct (lookup_lt_is_Some_2 ls s Hs) as [sl Hsl].
  destruct (lookup_lt_is_Some_2 ls d Hd') as [dl Hdl].
  assert (whitespace_round ls s (Some d) = Some (<[d:=neutralised sl dl]> ls)) as Hround.
  { unfold whitespace_round, neutralised. cbn [mbind option_bind]. rewrite Hsl.
    cbn [mbind option_bind]. rewrite Hdl. cbn [mbind option_bind].
    destruct (match_whitespace (line sl)) as [[a b]|]; [|by rewrite list_insert_id].
    destruct (bool_decide (a = line dl)); [|by rewrite list_insert_id].
    f_equal. apply list_eq. intros i. destruct (decide (i = d)) as [->|Hne].
    - by rewrite list_lookup_alter_eq, Hdl, list_lookup_insert_eq.
    - by rewrite list_lookup_alter_ne, list_lookup_insert_ne. }
  destruct (IH (<[d:=neutralised sl dl]> ls)) as (ls' & Hr & Hout & Hin).
  { split; [done|]. intros s' d' Hp. destruct (Hal s' d') as [?|Hn]; [by right|by left|].
    right. simpl in Hn. set_solver. }
  { intros s' d' Hp. rewrite length_insert. apply Hlen. by right. }
  exists ls'. cbn [fmap list_fmap whitespace_rounds head tail fst snd]. rewrite Hround.
  split_and!; [done|..].
  - intros k Hk. apply not_elem_of_cons in Hk as [Hk1 Hk2].
    rewrite Hout by done. by rewrite list_lookup_insert_ne.
  - intros s' d' sl' dl' [Heq|Hp]%elem_of_cons Hsl' Hdl'.
    + simplify_eq. rewrite Hout by done. by rewrite list_lookup_insert_eq.
    + assert (d ≠ d') as Hne.
      { intros <-. apply Hd. apply list_elem_of_fmap. by exists (s', d). }
      destruct (Hal s' d') as [->|Hn]; [by right|..].
      * simplify_eq. apply (Hin d' d'); [done|..]; by rewrite list_lookup_insert_ne.
      * apply (Hin s' d'); [done|..]; rewrite list_lookup_insert_ne; try done.
        intros <-. apply Hn. simpl. by left.
Qed.

(** ** Properties *)

(** C22: writing patches and parsing them back gives the same patches, for any
    number of files, chunks and lines, provided no name or line holds a newline
    and no removed line starts with ["-- "] nor added line with ["++ "]; the
    write never fails on lines that have been set. *)
Theorem parse_patchset_roundtrip (ps : list Patch) :
  Forall readable_patch ps →
  ∃ ss, write_patches ps = Ok ss ∧ parse_patchset ss = Ok ps.
Proof.
  intros Hps. assert (∃ ss, write_patches ps = Ok ss) as [ss Hss].
  { assert (∀ ls, Forall readable_line ls → ∃ r, write_lines ls = Ok r) as Hl.
    { induction 1 as [|l ls [_ Hl] _ [r Hr]]; simpl; [eauto|]. rewrite Hr.
      destruct l as [[] t]; simpl in *; eauto. done. }
    assert (∀ cs, Forall (λ c, Forall readable_line (chunk_lines c)) cs →
      ∃ r, write_chunks cs = Ok r) as Hc.
    { induction 1 as [|c cs Hc _ [r Hr]]; simpl; [eauto|].
      destruct (Hl _ Hc) as [r' Hr']. unfold write_chunk. rewrite Hr', Hr. simpl. eauto. }
    induction Hps as [|p ps (_ & _ & Hp) _ [r Hr]]; simpl; [eauto|].
    destruct (Hc _ Hp) as [r' Hr']. unfold write_patch. rewrite Hr', Hr. simpl. eauto. }
  exists ss. split; [done|]. unfold parse_patchset.
  destruct (parse_written_patches [] ps None ss Hps Hss) as [cur ->]. done.
Qed.

Definition sample_patch : Patch :=
  MkPatch "a.cc" "b.cc" [Chunk 10 10 [set_both "{"; set_src_line "  x = 1; "; set_dst_line "  x = 1;"]].

Lemma parse_patchset_roundtrip_witness :
  ∃ ss, write_patches [sample_patch] = Ok ss ∧ parse_patchset ss = Ok [sample_patch].
Proof. apply (parse_patchset_roundtrip [sample_patch]). repeat constructor. Defined.

(** ignoring trailing white space keeps a parsed diff a diff: it never
    fails, keeps files, chunk positions, the number, order and kind of the
    lines and so the sizes every chunk header announces, and changes a text only
    by appending to it. *)
Theorem remove_trailing_whitespace_keeps_shape (gen : list string) (ps : list Patch) :
  parse_patchset gen = Ok ps →
  ∃ ps', remove_trailing_whitespace_changes gen = Ok ps' ∧ Forall2 patch_extends ps ps' ∧
    ∀ p p' c c' i j, ps !! i = Some p → ps' !! i = Some p' →
      chunks p !! j = Some c → chunks p' !! j = Some c' →
      src_len c' = src_len c ∧ dst_len c' = dst_len c.
Proof.
  intros Hp. unfold remove_trailing_whitespace_changes. rewrite Hp. simpl.
  pose proof (whitespace_patches_extends ps) as He.
  eexists. split_and!; [done..|]. intros p p' c c' i j Hi Hi' Hj Hj'.
  rewrite Forall2_lookup in He. specialize (He i). rewrite Hi, Hi' in He.
  inversion He as [? ? (_ & _ & Hc)|]; subst. rewrite Forall2_lookup in Hc. specialize (Hc j).
  rewrite Hj, Hj' in Hc. inversion Hc as [? ? Hcc|]; subst. by apply chunk_extends_lengths.
Qed.

Lemma remove_trailing_whitespace_keeps_shape_witness :
  ∃ ps', remove_trailing_whitespace_changes
    ["--- a" +:+ nl; "+++ b" +:+ nl; "@@ -1,1 +1,1 @@" +:+ nl; "-x " +:+ nl; "+x" +:+ nl]
    = Ok ps' ∧ length ps' = 1.
Proof.
  destruct (remove_trailing_whitespace_keeps_shape
    ["--- a" +:+ nl; "+++ b" +:+ nl; "@@ -1,1 +1,1 @@" +:+ nl; "-x " +:+ nl; "+x" +:+ nl]
    [MkPatch "a" "b" [Chunk 1 1 [set_src_line "x "; set_dst_line "x"]]] eq_refl)
    as (ps' & Hr & Hl & _).
  exists ps'. split; [done|]. by apply Forall2_length in Hl.
Defined.

(** on an aligned chunk the rewriting does what it is for: the loop runs
    to its end without taking the exception, every line that is not a
    destination is unchanged, and a destination line that equals its source
    line less one trailing blank or tab becomes equal to the source line, so
    that the change disappears; every other destination line is unchanged. *)
Theorem whitespace_chunk_aligned (c : PatchChunk) (sd := zip (src c) (dst c)) :
  length (src c) = length (dst c) → aligned sd →
  ∃ ls', whitespace_chunk c = (Chunk (src_pos c) (dst_pos c) ls', false) ∧
    (∀ k, k ∉ dst c → ls' !! k = chunk_lines c !! k) ∧
    ∀ i s d sl dl, src c !! i = Some s → dst c !! i = Some d →
      chunk_lines c !! s = Some sl → chunk_lines c !! d = Some dl →
      ∃ dl', ls' !! d = Some dl' ∧ ltype dl' = ltype dl ∧
        ((line sl = line dl +:+ " " ∨ line sl = line dl +:+ String "009" "") →
           line dl' = line sl) ∧
        (¬ (line sl = line dl +:+ " " ∨ line sl = line dl +:+ String "009" "") → dl' = dl).
Proof.
  intros Hlen Hal.
  assert (∀ p k i ls, k ∈ positions p i ls → k < i + length ls) as Hpos.
  { intros p k i ls. revert i. induction ls as [|l ls IH]; intros i Hk; simpl in *.
    - by apply elem_of_nil in Hk.
    - destruct (p l); [apply elem_of_cons in Hk as [->|Hk]; [lia|]|]; apply IH in Hk; lia. }
  destruct (whitespace_rounds_aligned (chunk_lines c) sd Hal) as (ls' & Hr & Hout & Hin).
  { intros s d Hp. split; eapply (Hpos _ _ 0).
    - by eapply elem_of_zip_l.
    - by eapply elem_of_zip_r. }
  unfold sd in Hr, Hout, Hin. rewrite fst_zip, snd_zip in Hr by lia. rewrite snd_zip in Hout by lia.
  exists ls'. unfold whitespace_chunk. rewrite Hr. split_and!; [done..|].
  intros i s d sl dl Hs Hd Hsl Hdl. exists (neutralised sl dl). split_and!.
  - apply (Hin s d); [|done..]. apply list_elem_of_lookup. exists i.
    apply lookup_zip_Some. by split.
  - unfold neutralised. destruct (match_whitespace _) as [[a b]|]; [|done].
    by destruct (bool_decide _).
  - intros Heq. unfold neutralised.
    assert (∃ b, match_whitespace (line sl) = Some (line dl, b) ∧ line sl = line dl +:+ b)
      as (b & -> & ->).
    { destruct Heq as [Heq|Heq]; rewrite Heq; eexists; (split; [|done]);
        apply match_whitespace_spec; by auto. }
    by rewrite bool_decide_eq_true_2.
  - intros Hneq. unfold neutralised.
    destruct (match_whitespace _) as [[a b]|] eqn:E; [|done].
    apply match_whitespace_spec in E as [E Hb]. destruct (bool_decide _) eqn:Ed; [|done].
    apply bool_decide_eq_true in Ed as ->. destruct Hneq. destruct Hb as [-> | ->]; by auto.
Qed.

Definition sample_chunk : PatchChunk :=
  Chunk 1 1 [set_both "{"; set_src_line "x; "; set_dst_line "x;"; set_both "}"].

Lemma whitespace_chunk_aligned_witness :
  ∃ ls', whitespace_chunk sample_chunk = (Chunk 1 1 ls', false).
Proof.
  destruct (whitespace_chunk_aligned sample_chunk) as (ls' & Hr & _); [done| |by exists ls'].
  split.
  - by apply (bool_decide_unpack _).
  - intros s d Hin. change ((s, d) ∈ [(0, 0); (1, 2); (3, 3)]) in Hin.
    change (zip (src sample_chunk) (dst sample_chunk)).*2 with [0; 2; 3].
    rewrite !elem_of_cons, elem_of_nil in Hin.
    destruct Hin as [?|[?|[?|[]]]]; simplify_eq; [by left|right|by left].
    by apply (bool_decide_unpack _).
Defined.
