(* ===== verification/Style.v ===== *)
(** * The driver of [utils/check-style.py] (lines 286-431)

    [indent] runs the formatter, diffs its output against the source, filters
    the diff and applies it; [indent_files] rewrites or checks a list of files;
    [run_as_main] and [run_as_hg_hook] turn the verdict into an exit status.
    The formatter, [difflib.unified_diff] and [patch] are not code of the
    repository and are arguments. *)

From S2P Require Import Prelude PyStr Ns3rc Patch.

Local Open Scope string_scope.

Record style_options := StyleOptions {
  debug : bool;
  level : Z;
  hg_hook : bool;
  hg : bool;
  file : string;
  diff : bool;
  in_place : bool }.

Section Indent.
(** [uncrustify cfg text]: [None] when the program is not installed. *)
Context (uncrustify : string → string → option string).
Context (unified_diff : string → list string → list string → list string).
(** [patch text diff]. *)
Context (patch_tool : string → string → string).

Definition concat_strings (l : list string) : string := foldr String.append "" l.

(** The text left in [final_diff]: the generator [diff] is exhausted by
    [tmp.writelines(diff)] when [debug] is set. *)
Definition final_diff (diff : list string) (debug : bool) (level : Z) : result exn string :=
  let diff := if debug then [] else diff in
  if bool_decide (level < 3)%Z then
    patchset ← remove_trailing_whitespace_changes diff;
    match patchset with
    | [] => Ok ""
    | p :: _ => ss ← write_patch p; Ok (concat_strings ss)
    end
  else Ok (concat_strings diff).

(** The text of the file [indent] returns the name of. *)
Definition indent (source text : string) (debug : bool) (level : Z) : result exn string :=
  output ← of_option (PyException "uncrustify not installed")
    (uncrustify (uncrustify_config_file level) text);
  final ← final_diff (unified_diff source (lines text) (lines output)) debug level;
  Ok (patch_tool text final).

(** The first loop of [indent_files]: names with the texts before and after. *)
Fixpoint indent_outputs (fs : file_system) (files : list string) (debug : bool) (level : Z) :
    result exn (list (string * string * string)) :=
  match files with
  | [] => Ok []
  | f :: files' =>
      text ← of_option IOError (fs !! f);
      dst ← indent f text debug level;
      r ← indent_outputs fs files' debug level; Ok ((f, text, dst) :: r)
  end.

Definition copy_outputs (out : list (string * string * string)) (fs : file_system) :
    file_system :=
  foldl (λ fs '(f, _, dst), <[f := dst]> fs) fs out.

Definition failed (out : list (string * string * string)) : list (string * string * string) :=
  filter (λ t, t.1.2 ≠ t.2) out.

Definition indent_files (fs : file_system) (files : list string) (debug : bool) (level : Z)
    (inplace : bool) : result exn (bool * file_system) :=
  out ← indent_outputs fs files debug level;
  if inplace then Ok (true, copy_outputs out fs)
  else Ok (bool_decide (failed out = []), fs).

(** The hook's result: [True] refuses the transaction. *)
Definition run_as_hg_hook (fs : file_system) (modified : list string) : result exn bool :=
  r ← indent_files fs modified false 0 false; Ok (negb r.1).

(** The exit status and the files. *)
Definition run_as_main (o : style_options) (fs : file_system) (modified : list string) :
    result exn (Z * file_system) :=
  if hg_hook o then
    r ← indent_files fs modified (debug o) (level o) false;
    Ok (if r.1 : bool then 0%Z else 1%Z, r.2)
  else if hg o then
    r ← indent_files fs modified (debug o) (level o) (in_place o); Ok (0%Z, r.2)
  else if negb (bool_decide (file o = "")) then
    if negb (path_exists fs (file o)) then Ok (1%Z, fs)
    else r ← indent_files fs [file o] (debug o) (level o) (in_place o); Ok (0%Z, r.2)
  else Ok (0%Z, fs).

(** ** Lemmas *)
Lemma indent_outputs_spec fs files dbg lv out :
  indent_outputs fs files dbg lv = Ok out →
  out.*1.*1 = files ∧
  ∀ f text dst, (f, text, dst) ∈ out → fs !! f = Some text ∧ indent f text dbg lv = Ok dst.
Proof.
  revert out. induction files as [|f files IH]; intros out Ho; simpl in Ho.
  { res_inv. split; [done|]. intros f t d Hin. by apply elem_of_nil in Hin. }
  destruct (fs !! f) as [text|] eqn:Ef; [|done]. simpl in Ho.
  destruct (indent f text dbg lv) as [dst|] eqn:Ei; [|done]. simpl in Ho.
  destruct (indent_outputs fs files dbg lv) as [r|]; [|done]. simpl in Ho. res_inv.
  destruct (IH r eq_refl) as [Hn Hr]. split; [exact (f_equal (cons f) Hn)|].
  intros f' t' d' [Heq|Hin]%elem_of_cons; [by simplify_eq|by apply Hr].
Qed.

Lemma copy_outputs_other out fs f :
  f ∉ out.*1.*1 → copy_outputs out fs !! f = fs !! f.
Proof.
  unfold copy_outputs. revert fs. induction out as [|[[g t] d] out IH]; intros fs Hf; [done|].
  simpl in *. apply not_elem_of_cons in Hf as [Hne Hf]. rewrite IH by done.
  by rewrite lookup_insert_ne.
Qed.

(** A file listed twice is copied twice, with the same text. *)
Lemma copy_outputs_in out fs f :
  f ∈ out.*1.*1 → ∃ text dst, (f, text, dst) ∈ out ∧ copy_outputs out fs !! f = Some dst.
Proof.
  unfold copy_outputs. revert fs. induction out as [|[[g t] d] out IH]; intros fs Hf;
    [by apply elem_of_nil in Hf|]. simpl in *.
  destruct (decide (f ∈ out.*1.*1)) as [Hin|Hin].
  - destruct (IH (<[g:=d]> fs) Hin) as (t' & d' & Hd & Hl).
    exists t', d'. split; [by right|done].
  - apply elem_of_cons in Hf as [->|Hf]; [|done]. exists t, d. split; [by left|].
    pose proof (copy_outputs_other out (<[g:=d]> fs) g Hin) as Ho.
    unfold copy_outputs in Ho. rewrite Ho. by rewrite lookup_insert_eq.
Qed.

Lemma failed_nil out : failed out = [] ↔ ∀ f text dst, (f, text, dst) ∈ out → dst = text.
Proof.
  unfold failed. split.
  - intros Hn f text dst Hin. destruct (decide (text = dst)) as [->|Hne]; [done|].
    by pose proof (filter_nil_not_elem_of _ _ (f, text, dst) Hn Hne).
  - intros Hall. apply filter_none, Forall_forall. intros [[f text] dst] Hin Hne. simpl in Hne.
    destruct Hne. symmetry. by eapply Hall.
Qed.
End Indent.

(** ** Properties *)

(** checking and rewriting: without [inplace] the files are left alone and
    the verdict is good exactly when re-indenting every listed file gives back
    its own text; with [inplace] every listed file ends with its re-indented
    text, every other file is untouched and the verdict is good. *)
Theorem indent_files_spec (uncrustify : string → string → option string)
    (unified_diff : string → list string → list string → list string)
    (patch_tool : string → string → string)
    (fs fs' : file_system) (files : list string) (dbg inplace ok : bool) (lv : Z) :
  indent_files uncrustify unified_diff patch_tool fs files dbg lv inplace = Ok (ok, fs') →
  (inplace = false → fs' = fs ∧
     (ok = true ↔ ∀ f, f ∈ files → ∃ text, fs !! f = Some text ∧
        indent uncrustify unified_diff patch_tool f text dbg lv = Ok text)) ∧
  (inplace = true → ok = true ∧
     (∀ f, f ∈ files → ∃ text dst, fs !! f = Some text ∧
        indent uncrustify unified_diff patch_tool f text dbg lv = Ok dst ∧
        fs' !! f = Some dst) ∧
     ∀ f, f ∉ files → fs' !! f = fs !! f).
Proof.
  unfold indent_files. intros Hi.
  destruct (indent_outputs _ _ _ fs files dbg lv) as [out|] eqn:E; [|done]. simpl in Hi.
  destruct (indent_outputs_spec _ _ _ _ _ _ _ _ E) as [Hfiles Ho].
  assert (∀ f, f ∈ files ↔ f ∈ out.*1.*1) as Hn by (intros f; by rewrite Hfiles).
  clear Hfiles.
  destruct inplace; res_inv; (split; [intros ?|intros ?]); try done.
  - split_and!; [done|..].
    + intros f Hf. apply Hn in Hf. destruct (copy_outputs_in _ fs _ Hf) as (t & d & Hd & Hl).
      destruct (Ho _ _ _ Hd) as [? ?]. by exists t, d.
    + intros f Hf. apply copy_outputs_other. by rewrite <- Hn.
  - split; [done|]. rewrite bool_decide_eq_true, failed_nil. split.
    + intros Hall f Hf. rewrite Hn in Hf. rewrite !list_elem_of_fmap in Hf.
      destruct Hf as ([f' t] & -> & Hf). apply list_elem_of_fmap in Hf as ([[g t'] d] & Hg & Hin).
      simpl in Hg. simplify_eq. destruct (Ho _ _ _ Hin) as [? Hi].
      rewrite (Hall _ _ _ Hin) in Hi. by exists t'.
    + intros Hall f t d Hin. destruct (Ho _ _ _ Hin) as [Hf Hi].
      destruct (Hall f) as (t' & Hf' & Hi'); [|congruence].
      rewrite Hn, list_elem_of_fmap. exists (f, t). split; [done|].
      rewrite list_elem_of_fmap. by exists (f, t, d).
Qed.

(** Tools for concrete runs: a formatter that indents by one blank, a diff of
    one chunk and a patch that trusts the added lines of the diff. *)
Definition identity_formatter : string → string → option string := λ _ t, Some t.
Definition no_diff : string → list string → list string → list string := λ _ _ _, [].
Definition keep_text : string → string → string := λ t _, t.

Lemma indent_files_spec_witness :
  indent_files identity_formatter no_diff keep_text {["a.cc" := "x"]} ["a.cc"] false 0 false
    = Ok (true, {["a.cc" := "x"]}) ∧
  ∀ f, f ∈ ["a.cc"] → ∃ text, ({["a.cc" := "x"]} : file_system) !! f = Some text ∧
        indent identity_formatter no_diff keep_text f text false 0 = Ok text.
Proof.
  split; [reflexivity|].
  apply (indent_files_spec identity_formatter no_diff keep_text
    {["a.cc" := "x"]} {["a.cc" := "x"]} ["a.cc"] false false true 0); [reflexivity|done|done].
Defined.

(** what the exit status tells: as a hook it is 1 exactly when some
    modified file is badly indented; with [--check-hg] and [--check-file] it
    does not depend on the verdict at all; a missing [--check-file] gives 1 and
    touches nothing. *)
Theorem run_as_main_status (uncrustify : string → string → option string)
    (unified_diff : string → list string → list string → list string)
    (patch_tool : string → string → string)
    (o : style_options) (fs fs' : file_system) (modified : list string) (status : Z) :
  run_as_main uncrustify unified_diff patch_tool o fs modified = Ok (status, fs') →
  (hg_hook o = true → fs' = fs ∧
     ∃ ok, indent_files uncrustify unified_diff patch_tool fs modified (debug o) (level o) false
             = Ok (ok, fs) ∧ (status = 1%Z ↔ ok = false)) ∧
  (hg_hook o = false → hg o = true → status = 0%Z) ∧
  (hg_hook o = false → hg o = false → file o ≠ "" →
     (status = 1%Z ↔ fs !! file o = None) ∧ (status = 1%Z → fs' = fs)).
Proof.
  unfold run_as_main. intros Hm. destruct (hg_hook o).
  - split; [|done]. intros _.
    destruct (indent_files _ _ _ fs modified _ _ false) as [[ok fs1]|] eqn:E; [|done].
    simpl in Hm. res_inv. assert (fs' = fs) as ->.
    { unfold indent_files in E. destruct (indent_outputs _ _ _ _ _ _ _); [|done]. simpl in E.
      by res_inv. }
    split; [done|]. exists ok. split; [done|]. by destruct ok.
  - split; [done|]. destruct (hg o).
    + split; [|done]. intros _ _. res_inv. done.
    + split; [done|]. intros _ _ Hf. rewrite (bool_decide_eq_false_2 _ Hf) in Hm. simpl in Hm.
      unfold path_exists in Hm. destruct (has_key fs (file o)) eqn:Ek; simpl in Hm.
      * apply has_key_true in Ek as [t Ht]. res_inv. rewrite Ht. done.
      * apply has_key_false in Ek. res_inv. by rewrite Ek.
Qed.

Lemma run_as_main_status_witness :
  run_as_main identity_formatter no_diff keep_text
    (StyleOptions false 0 false false "b.cc" false false) {["a.cc" := "x"]} [] =
    Ok (1%Z, {["a.cc" := "x"]}) ∧
  ({["a.cc" := "x"]} : file_system) !! "b.cc" = None.
Proof.
  split; [reflexivity|].
  apply (run_as_main_status identity_formatter no_diff keep_text
    (StyleOptions false 0 false false "b.cc" false false) {["a.cc" := "x"]} {["a.cc" := "x"]} []
    1); [reflexivity|done..].
Defined.

(** ** What modelling showed *)

(** With [--debug] the diff applied is empty, whatever the formatter did: every
    file is then reported as well indented. *)
Lemma debug_empties_diff diff lv : final_diff diff true lv = Ok "".
Proof. unfold final_diff. by destruct (bool_decide (lv < 3)%Z). Qed.

(** A removed line that starts with ["-- "] is read as the header of another
    file. *)
Lemma removed_dashes_read_as_header :
  parse_patchset ["--- a" +:+ nl; "+++ b" +:+ nl; "@@ -1,1 +1,0 @@" +:+ nl; "--- i;" +:+ nl] =
  Ok [MkPatch "a" "b" [Chunk 1 1 []]; MkPatch "i;" "" []].
Proof. reflexivity. Qed.

(** Only one trailing blank is neutralised. *)
Lemma two_blanks_not_neutralised :
  whitespace_chunk (Chunk 1 1 [set_src_line "x;  "; set_dst_line "x;"]) =
  (Chunk 1 1 [set_src_line "x;  "; set_dst_line "x;"], false).
Proof. reflexivity. Qed.

(** A context line shared by both sides is rewritten when an earlier removal
    shifts the pairing: the chunk no longer describes the source file. *)
Lemma context_line_corrupted :
  whitespace_chunk (Chunk 1 1 [set_src_line "x "; set_both "x"]) =
  (Chunk 1 1 [set_src_line "x "; set_both "x "], true).
Proof. reflexivity. Qed.
