(* ===== verification/ShellCmd.v ===== *)
(** * A portable shell ([waf-tools/shellcmd.py])

    [Pipeline.parse] turns the words of a command line into a list of nodes
    with a six-state machine; [Pipeline.run] executes them, one process per
    command.  Splitting a string into words ([shlex.split]) is the standard
    library's; the operating system is an oracle that says which files can be
    opened, which launches can be started and the exit code of each. *)

From S2P Require Import Prelude PyStr.
From Stdlib Require Import Ascii.

Local Open Scope string_scope.
Local Open Scope list_scope.

(** ** The nodes of a pipeline *)

(** [Command.PIPE], [Command.STDOUT] or the name of a file. *)
Inductive redirect := PIPE | STDOUT | File (name : string).

#[export] Instance redirect_eq_dec : EqDecision redirect.
Proof. solve_decision. Defined.

Record Command := MkCommand {
  name : string;
  argv : list string;
  cmd_stdin : option string;
  cmd_stdout : option redirect;
  cmd_stderr : option redirect;
  env_vars : environ }.

Definition new_command (n : string) (env : environ) : Command :=
  MkCommand n [n] None None None env.

Definition set_stdin (f : string) (c : Command) : Command :=
  MkCommand (name c) (argv c) (Some f) (cmd_stdout c) (cmd_stderr c) (env_vars c).
Definition set_stdout (r : redirect) (c : Command) : Command :=
  MkCommand (name c) (argv c) (cmd_stdin c) (Some r) (cmd_stderr c) (env_vars c).
Definition set_stderr (r : redirect) (c : Command) : Command :=
  MkCommand (name c) (argv c) (cmd_stdin c) (cmd_stdout c) (Some r) (env_vars c).
Definition add_arg (a : string) (c : Command) : Command :=
  MkCommand (name c) (argv c ++ [a]) (cmd_stdin c) (cmd_stdout c) (cmd_stderr c) (env_vars c).

Inductive node := Cmd (c : Command) | Chdir (dir : option string) | Pipe | And | Or.

(** ** [parse] *)

(** [\S] and [[a-zA-Z0-9_]]. *)
Definition is_word_char (c : ascii) : bool :=
  let n := N_of_ascii c in
  (bool_decide (48 ≤ n)%N && bool_decide (n ≤ 57)%N) ||
  (bool_decide (65 ≤ n)%N && bool_decide (n ≤ 90)%N) ||
  (bool_decide (97 ≤ n)%N && bool_decide (n ≤ 122)%N) || bool_decide (n = 95)%N.

Definition not_empty (s : string) : bool := negb (bool_decide (s = "")).

(** The final newline [$] tolerates. *)
Fixpoint chop_newline (s : string) : string :=
  match s with
  | "" => ""
  | String c s' => if bool_decide (c = newline) && bool_decide (s' = "") then ""
                   else String c (chop_newline s')
  end.

(** [env_var_rx.match(token)]: the variable and its value. *)
Definition env_var_match (token : string) : option (string * string) :=
  match split_once "=" token with
  | (k, Some v) =>
      let v := chop_newline v in
      if not_empty k && all_chars is_word_char k && not_empty v &&
         all_chars (λ c, negb (is_space c)) v
      then Some (k, v) else None
  | _ => None
  end.

Inductive parse_state := BEGIN | COMMAND | CHDIR | STDERR_ | STDOUT_ | STDIN_.

#[export] Instance parse_state_eq_dec : EqDecision parse_state.
Proof. solve_decision. Defined.

(** The variables of the loop; [current] is [self.current_command]. *)
Record parser := Parser {
  state : parse_state;
  current : option node;
  env : environ;
  pipeline : list node }.

Definition start : parser := Parser BEGIN None ∅ [].

Definition commit_command (p : parser) : result exn parser :=
  match current p with
  | None => Raise AssertionError
  | Some n => Ok (Parser (state p) None (env p) (pipeline p ++ [n]))
  end.

(** [self._commit_command()], the operator, [state = BEGIN]. *)
Definition commit_op (op : node) (p : parser) : result exn parser :=
  p ← commit_command p; Ok (Parser BEGIN None (env p) (pipeline p ++ [op])).

(** An update of the command being read. *)
Definition on_command (st : parse_state) (f : Command → Command) (p : parser) :
    result exn parser :=
  match current p with
  | Some (Cmd c) => Ok (Parser st (Some (Cmd (f c))) (env p) (pipeline p))
  | _ => Raise AttributeError
  end.

(** [assert self.current_command.field is None]. *)
Definition unset {A} (field : Command → option A) (p : parser) : result exn unit :=
  match current p with
  | Some (Cmd c) => match field c with None => Ok tt | Some _ => Raise AssertionError end
  | _ => Raise AttributeError
  end.

Definition parse_token (p : parser) (token : string) : result exn parser :=
  match state p with
  | BEGIN =>
      match env_var_match token with
      | Some (k, v) => Ok (Parser BEGIN (current p) (<[k := v]> (env p)) (pipeline p))
      | None =>
          match current p with
          | Some _ => Raise AssertionError
          | None =>
              if bool_decide (token = "cd") then
                if bool_decide (env p = ∅)
                then Ok (Parser CHDIR (Some (Chdir None)) (env p) (pipeline p))
                else Raise AssertionError
              else Ok (Parser COMMAND (Some (Cmd (new_command token (env p)))) ∅ (pipeline p))
          end
      end
  | COMMAND =>
      if bool_decide (token = ">") then Ok (Parser STDOUT_ (current p) (env p) (pipeline p))
      else if bool_decide (token = "2>") then
        Ok (Parser STDERR_ (current p) (env p) (pipeline p))
      else if bool_decide (token = "2>&1") then
        _ ← unset cmd_stderr p; on_command COMMAND (set_stderr STDOUT) p
      else if bool_decide (token = "<") then
        Ok (Parser STDIN_ (current p) (env p) (pipeline p))
      else if bool_decide (token = "|") then
        _ ← unset cmd_stdout p; p ← on_command COMMAND (set_stdout PIPE) p; commit_op Pipe p
      else if bool_decide (token = "&&") then commit_op And p
      else if bool_decide (token = "||") then commit_op Or p
      else on_command COMMAND (add_arg token) p
  | CHDIR =>
      if bool_decide (token = "&&") then commit_op And p
      else match current p with
           | Some (Chdir None) =>
               Ok (Parser CHDIR (Some (Chdir (Some token))) (env p) (pipeline p))
           | Some (Chdir (Some _)) => Raise AssertionError
           | _ => Raise AttributeError
           end
  | STDOUT_ => _ ← unset cmd_stdout p; on_command COMMAND (set_stdout (File token)) p
  | STDERR_ => _ ← unset cmd_stderr p; on_command COMMAND (set_stderr (File token)) p
  | STDIN_ => _ ← unset cmd_stdin p; on_command COMMAND (set_stdin token) p
  end.

(** [parse] on a list of words. *)
Definition parse (tokens : list string) : result exn (list node) :=
  p ← fold_res parse_token start tokens; p ← commit_command p; Ok (pipeline p).

(** [get_abbreviated_command]: the second test for [And] is the one meant for
    [Or]. *)
Definition abbreviation (n : node) : list string :=
  match n with
  | Cmd c => [name c]
  | Chdir d => ["cd " +:+ default "None" d]
  | Pipe => ["|"]
  | And => ["&&"]
  | Or => []
  end.

Definition get_abbreviated_command (pl : list node) : string :=
  join " " (pl ≫= abbreviation).

(** ** [run] *)

Inductive input := Inherit | FromPipe | FromFile (f : string).

(** The arguments of [subprocess.Popen]. *)
Record launch := Launch {
  l_argv : list string;
  l_stdin : input;
  l_stdout : option redirect;
  l_stderr : option redirect;
  l_env : option environ;
  l_cwd : option string }.

Section Run.
(** The code each process exits with, which launches the system can start (the
    program is found, the directory exists), which files can be opened for
    reading and for writing, and [os.environ]. *)
Context (exit_code : launch → Z) (startable : launch → bool).
Context (readable writable : string → bool).
Context (os_environ : environ).

(** [_exec_piped_commands] on the codes of the processes waited for. *)
Definition exec_piped_commands (retvals : list Z) : Z :=
  if existsb (λ r, negb (bool_decide (r = 0%Z))) retvals then default 0%Z (last retvals)
  else 0%Z.

Definition open_out (r : option redirect) : result exn unit :=
  match r with
  | Some (File f) =>
      guard_exn (bool_decide (f ∈ ["NUL:"; "/dev/null"]) || writable f) IOError
  | _ => Ok tt
  end.

(** From a command to its launch; [piped] tells whether [state] is [PIPE]. *)
Definition launch_command (piped : bool) (cwd : string) (c : Command) : result exn launch :=
  stdin ← (if piped then Ok FromPipe
           else match cmd_stdin c with
                | Some f => if readable f then Ok (FromFile f) else Raise IOError
                | None => Ok Inherit
                end);
  _ ← open_out (cmd_stdout c);
  _ ← open_out (cmd_stderr c);
  Ok (Launch (argv c) stdin (cmd_stdout c) (cmd_stderr c)
    (if bool_decide (env_vars c = ∅) then None else Some (env_vars c ∪ os_environ))
    (if bool_decide (cwd = ".") then None else Some cwd)).

(** The [while pipeline] loop: [retvals] are the codes of the processes in
    [piped_commands], [trace] what has been started.  [Popen] raises [OSError]
    when it cannot start a process.  The result is [None]
    when the loop ends without a [return].  With [verbose] the messages at
    [||] and [&&] read [retval], which is assigned at the end only. *)
Fixpoint run_loop (verbose piped : bool) (cwd : string) (retvals : list Z)
    (trace : list launch) (pl : list node) : result exn (option Z) * list launch :=
  match pl with
  | [] => (Ok None, trace)
  | Chdir dir :: rest =>
      match rest with
      | [] => (Raise IndexError, trace)
      | And :: rest' =>
          match dir with
          | Some d => run_loop verbose piped (path_join cwd d) retvals trace rest'
          | None => (Raise AttributeError, trace)
          end
      | _ => (Raise AssertionError, trace)
      end
  | Cmd c :: rest =>
      match (l ← launch_command piped cwd c; _ ← guard_exn (startable l) OSError; Ok l) with
      | Raise e => (Raise e, trace)
      | Ok l =>
          let retvals := (retvals ++ [exit_code l])%list in
          let trace := (trace ++ [l])%list in
          match rest with
          | [] => (Ok (Some (exec_piped_commands retvals)), trace)
          | Pipe :: rest' => run_loop verbose true cwd retvals trace rest'
          | Or :: rest' =>
              if verbose then (Raise UnboundLocalError, trace)
              else if bool_decide (exec_piped_commands retvals = 0%Z)
              then (Ok (Some (exec_piped_commands retvals)), trace)
              else run_loop verbose false cwd [] trace rest'
          | And :: rest' =>
              if verbose then (Raise UnboundLocalError, trace)
              else if negb (bool_decide (exec_piped_commands retvals = 0%Z))
              then (Ok (Some (exec_piped_commands retvals)), trace)
              else run_loop verbose false cwd [] trace rest'
          | _ :: rest' => run_loop verbose piped cwd retvals trace rest'
          end
      end
  | _ => (Raise AssertionError, trace)
  end.

Definition run (verbose : bool) (pl : list node) : result exn (option Z) * list launch :=
  run_loop verbose false "." [] [] pl.
End Run.

(** ** The shape of a parsed pipeline *)

(** What may stand between a command and the next node. *)
Definition joins (c : Command) (op : node) : Prop :=
  match op with
  | Pipe => cmd_stdout c = Some PIPE
  | And | Or => cmd_stdout c ≠ Some PIPE
  | _ => False
  end.

Inductive shape : list node → Prop :=
  | shape_cmd c : cmd_stdout c ≠ Some PIPE → shape [Cmd c]
  | shape_cd d : shape [Chdir d]
  | shape_cmd_op c op rest : joins c op → shape rest → shape (Cmd c :: op :: rest)
  | shape_cd_and d rest : shape rest → shape (Chdir d :: And :: rest).

(** A pipeline that still waits for its last node. *)
Inductive opened : list node → Prop :=
  | opened_nil : opened []
  | opened_cmd pl c op : opened pl → joins c op → opened (pl ++ [Cmd c; op])
  | opened_cd pl d : opened pl → opened (pl ++ [Chdir d; And]).

Lemma shape_app pl rest : opened pl → shape rest → shape (pl ++ rest).
Proof.
  intros Ho. revert rest. induction Ho as [|pl c op _ IH Hj|pl d _ IH]; intros rest Hr;
    [done|..]; rewrite <- app_assoc; apply IH; by constructor.
Qed.

Definition current_ok (p : parser) : Prop :=
  match state p with
  | BEGIN => current p = None
  | CHDIR => ∃ d, current p = Some (Chdir d)
  | _ => ∃ c, current p = Some (Cmd c) ∧ cmd_stdout c ≠ Some PIPE
  end.

Definition parser_inv (p : parser) : Prop := opened (pipeline p) ∧ current_ok p.

(** A step keeps the invariant or fails an assertion. *)
Definition good (r : result exn parser) : Prop :=
  match r with Ok p => parser_inv p | Raise e => e = AssertionError end.

Lemma commit_op_good op p c :
  opened (pipeline p) → current p = Some (Cmd c) → joins c op → good (commit_op op p).
Proof.
  intros Ho Hc Hj. unfold commit_op, commit_command. rewrite Hc. simpl.
  split; [|done]. simpl. rewrite <- app_assoc. by apply opened_cmd.
Qed.

Lemma commit_op_cd p d :
  opened (pipeline p) → current p = Some (Chdir d) → good (commit_op And p).
Proof.
  intros Ho Hc. unfold commit_op, commit_command. rewrite Hc. simpl.
  split; [|done]. simpl. rewrite <- app_assoc. by apply opened_cd.
Qed.

Lemma parse_token_good p token : parser_inv p → good (parse_token p token).
Proof.
  destruct p as [st cur e pl]. intros [Ho Hc]. unfold current_ok in Hc. simpl in Ho.
  unfold parse_token. simpl in *. destruct st; simpl in Hc.
  - destruct (env_var_match token) as [[k v]|]; [by split|]. subst cur.
    destruct (bool_decide (token = "cd")).
    + destruct (bool_decide (e = ∅)); [|done]. split; [done|]. by exists None.
    + split; [done|]. by exists (new_command token e).
  - destruct Hc as (c & -> & Hout).
    destruct (bool_decide (token = ">")); [by split; [|exists c]|].
    destruct (bool_decide (token = "2>")); [by split; [|exists c]|].
    destruct (bool_decide (token = "2>&1")).
    { unfold unset. simpl. destruct (cmd_stderr c); simpl; [done|]. split; [done|].
      by exists (set_stderr STDOUT c). }
    destruct (bool_decide (token = "<")); [by split; [|exists c]|].
    destruct (bool_decide (token = "|")).
    { unfold unset. simpl. destruct (cmd_stdout c); simpl; [done|].
      split; [|done]. simpl. rewrite <- app_assoc. by apply opened_cmd. }
    destruct (bool_decide (token = "&&")); [by eapply commit_op_good|].
    destruct (bool_decide (token = "||")); [by eapply commit_op_good|].
    split; [done|]. by exists (add_arg token c).
  - destruct Hc as [d ->].
    destruct (bool_decide (token = "&&")); [by eapply commit_op_cd|].
    destruct d; [done|]. split; [done|]. by exists (Some token).
  - destruct Hc as (c & -> & Hout). unfold unset. simpl. destruct (cmd_stderr c); simpl; [done|].
    split; [done|]. by exists (set_stderr (File token) c).
  - destruct Hc as (c & -> & Hout). unfold unset. simpl. destruct (cmd_stdout c); simpl; [done|].
    split; [done|]. by exists (set_stdout (File token) c).
  - destruct Hc as (c & -> & Hout). unfold unset. simpl. destruct (cmd_stdin c); simpl; [done|].
    split; [done|]. by exists (set_stdin token c).
Qed.

Lemma parse_tokens_good tokens p : parser_inv p → good (fold_res parse_token p tokens).
Proof.
  revert p. induction tokens as [|t tokens IH]; intros p Hp; [done|].
  pose proof (parse_token_good p t Hp) as Hg. cbn [fold_res].
  destruct (parse_token p t) as [p'|e]; simpl in *; [by apply IH|done].
Qed.

(** [parse] only builds pipelines [run] understands: commands joined by
    [|], [&&] and [||], every [cd] followed by [&&] or last, an operator never
    first, last or doubled, and exactly the commands before a [|] writing to a
    pipe; a list of words it refuses fails one of its assertions and nothing
    else. *)
Theorem parse_shape (tokens : list string) :
  match parse tokens with Ok pl => shape pl | Raise e => e = AssertionError end.
Proof.
  unfold parse. pose proof (parse_tokens_good tokens start) as Hg.
  destruct (fold_res parse_token start tokens) as [p|e]; simpl in *.
  - destruct Hg as [Ho Hc]; [split; [constructor|done]|].
    unfold commit_command. unfold current_ok in Hc.
    destruct (current p) as [n|] eqn:E; [|done]. simpl. apply shape_app; [done|].
    destruct (state p); try done;
      first [destruct Hc as (? & [= ->] & ?); by constructor
            |destruct Hc as (? & [= ->]); by constructor].
  - apply Hg. split; [constructor|done].
Qed.

(** ** What [run] should do: groups of piped commands

    A pipeline without its [cd]s is a list of commands, each with the directory
    it runs in and the operator that follows it, and the error that its end is,
    for one that ends in a [cd] or has a [cd] to nowhere. *)
Abbreviation group := (list (string * Command)).
Abbreviation plan := (list (string * Command * option node) * option exn)%type.

Fixpoint steps (cwd : string) (pl : list node) : plan :=
  match pl with
  | Cmd c :: rest =>
      match rest with
      | [] => ([(cwd, c, None)], None)
      | op :: rest' => let '(l, e) := steps cwd rest' in ((cwd, c, Some op) :: l, e)
      end
  | Chdir (Some d) :: And :: rest => steps (path_join cwd d) rest
  | Chdir None :: And :: _ => ([], Some AttributeError)
  | _ => ([], Some IndexError)
  end.

(** The commands between two operators other than [|] form a group; an
    operator, the end of the line or an error follows it. *)
Inductive ending := Operator (op : node) | Ends | Breaks (e : exn).

Fixpoint to_groups (acc : group) (l : list (string * Command * option node)) (e : option exn) :
    list (group * ending) :=
  match l with
  | [] => [(acc, match e with Some e => Breaks e | None => Ends end)]
  | (w, c, op) :: l' =>
      match op with
      | Some Pipe => to_groups (acc ++ [(w, c)]) l' e
      | Some op => (acc ++ [(w, c)], Operator op) :: to_groups [] l' e
      | None => [(acc ++ [(w, c)], Ends)]
      end
  end.

Definition groups_of (pl : list node) : list (group * ending) :=
  let '(l, e) := steps "." pl in to_groups [] l e.

Section Reference.
Context (exit_code : launch → Z) (startable : launch → bool).
Context (readable writable : string → bool) (os_environ : environ).

(** The process of a command, reading from a pipe or not. *)
Definition process (piped : bool) (wc : string * Command) : launch :=
  let '(cwd, c) := wc in
  Launch (argv c)
    (if piped then FromPipe else match cmd_stdin c with Some f => FromFile f | None => Inherit end)
    (cmd_stdout c) (cmd_stderr c)
    (if bool_decide (env_vars c = ∅) then None else Some (env_vars c ∪ os_environ))
    (if bool_decide (cwd = ".") then None else Some cwd).

(** The files that a process reads from and writes to. *)
Definition file_in (l : launch) : list string :=
  match l_stdin l with FromFile f => [f] | _ => [] end.
Definition file_out (r : option redirect) : list string :=
  match r with Some (File f) => if decide (f ∈ ["NUL:"; "/dev/null"]) then [] else [f] | _ => [] end.

(** What prevents a process from being started. *)
Definition obstacle (l : launch) : option exn :=
  if forallb readable (file_in l) && forallb writable (file_out (l_stdout l) ++ file_out (l_stderr l))
  then if startable l then None else Some OSError
  else Some IOError.

(** The processes of a group: all but the first read from the one before. *)
Definition processes (g : group) : list launch :=
  match g with [] => [] | x :: g' => process false x :: (process true <$> g') end.

(** They are started one after the other, up to the first obstacle. *)
Fixpoint start_all (l : list launch) : option exn * list launch :=
  match l with
  | [] => (None, [])
  | x :: l' =>
      match obstacle x with
      | Some e => (Some e, [])
      | None => let '(e, t) := start_all l' in (e, x :: t)
      end
  end.

(** The code of a group is that of its last process. *)
Definition group_code (g : group) : Z :=
  default 0%Z (last (exit_code <$> processes g)).

(** Groups from left to right; [||] stops at a success, [&&] at a failure.  A
    verbose run cannot report either. *)
Fixpoint eval_groups (verbose : bool) (gs : list (group * ending)) :
    result exn (option Z) * list launch :=
  match gs with
  | [] => (Ok None, [])
  | (g, fin) :: gs' =>
      match start_all (processes g) with
      | (Some e, t) => (Raise e, t)
      | (None, t) =>
          match fin with
          | Breaks e => (Raise e, t)
          | Ends => (Ok (Some (group_code g)), t)
          | Operator op =>
              if verbose then (Raise UnboundLocalError, t)
              else if match op with
                      | Or => bool_decide (group_code g = 0%Z)
                      | _ => negb (bool_decide (group_code g = 0%Z))
                      end
              then (Ok (Some (group_code g)), t)
              else let '(r, t') := eval_groups verbose gs' in (r, t ++ t')
          end
      end
  end.
End Reference.

Section RunLemmas.
Context (exit_code : launch → Z) (startable : launch → bool).
Context (readable writable : string → bool) (os_environ : environ).

Abbreviation obstacle := (obstacle startable readable writable).
Abbreviation start_all := (start_all startable readable writable).
Abbreviation eval_groups := (eval_groups exit_code startable readable writable os_environ).
Abbreviation run_loop := (run_loop exit_code startable readable writable os_environ).

Lemma exec_piped_last l : exec_piped_commands l = default 0%Z (last l).
Proof.
  unfold exec_piped_commands. destruct (existsb _ l) eqn:E; [done|].
  destruct (last l) as [r|] eqn:El; [|done]. simpl.
  apply last_Some in El as [l' ->]. rewrite existsb_app in E.
  apply orb_false_iff in E as [_ E]. simpl in E. rewrite orb_false_r in E.
  by apply negb_false_iff, bool_decide_eq_true in E.
Qed.

Lemma open_out_spec r :
  open_out writable r = if forallb writable (file_out r) then Ok tt else Raise IOError.
Proof.
  destruct r as [[| |f]|]; try done. unfold open_out, file_out.
  case_decide as Hf; [by rewrite bool_decide_eq_true_2|].
  rewrite bool_decide_eq_false_2 by done. simpl. by destruct (writable f).
Qed.

(** The launch of a command succeeds exactly when nothing is in its way. *)
Lemma launch_spec piped cwd c (l := process os_environ piped (cwd, c)) :
  (l ← launch_command readable writable os_environ piped cwd c;
   _ ← guard_exn (startable l) OSError; Ok l) =
  match obstacle l with None => Ok l | Some e => Raise e end.
Proof.
  unfold launch_command, ShellCmd.obstacle, l. rewrite !open_out_spec, forallb_app.
  cbn [process l_stdout l_stderr file_in l_stdin].
  assert ((if piped then Ok FromPipe
           else match cmd_stdin c with
                | Some f => if readable f then Ok (FromFile f) else Raise IOError
                | None => Ok Inherit
                end) =
          if forallb readable (file_in (process os_environ piped (cwd, c)))
          then Ok (l_stdin (process os_environ piped (cwd, c))) else Raise IOError) as ->.
  { destruct piped; [done|]. unfold file_in. simpl. destruct (cmd_stdin c) as [f|]; [|done].
    simpl. by destruct (readable f). }
  unfold file_in. simpl.
  destruct (forallb readable _); [|done]. simpl.
  destruct (forallb writable (file_out (cmd_stdout c))); [|done]. simpl.
  destruct (forallb writable (file_out (cmd_stderr c))); [|done]. simpl.
  by destruct (startable _).
Qed.

Lemma processes_snoc g x :
  processes os_environ (g ++ [x]) =
  processes os_environ g ++ [process os_environ (bool_decide (g ≠ [])) x].
Proof. destruct g as [|y g]; [done|]. simpl. by rewrite fmap_app. Qed.

Lemma processes_app g x g' :
  ∃ l, processes os_environ (g ++ x :: g') =
    processes os_environ g ++ process os_environ (bool_decide (g ≠ [])) x :: l.
Proof.
  exists (process os_environ true <$> g'). destruct g as [|y g]; [done|].
  simpl. by rewrite fmap_app.
Qed.

Lemma start_all_app l1 l2 :
  start_all l1 = (None, l1) →
  start_all (l1 ++ l2) = let '(e, t) := start_all l2 in (e, l1 ++ t).
Proof.
  induction l1 as [|x l1 IH]; simpl; [by destruct (start_all l2)|].
  destruct (obstacle x); [done|]. destruct (start_all l1) as [e t]. intros [= -> ->].
  rewrite IH by done. by destruct (start_all l2).
Qed.

(** The first group contains what is already started. *)
Lemma to_groups_head acc l e : ∃ g fin gs, to_groups acc l e = (acc ++ g, fin) :: gs.
Proof.
  revert acc. induction l as [|[[w c] op] l IH]; intros acc; cbn [to_groups].
  { exists [], (match e with Some e => Breaks e | None => Ends end), []. by rewrite app_nil_r. }
  destruct op as [[| | | |]|]; try (by eexists [(w, c)], _, _).
  destruct (IH (acc ++ [(w, c)])) as (g & fin & gs & ->). rewrite <- app_assoc. by eexists _, _, _.
Qed.

Lemma eval_obstacle verbose acc w c op l e x :
  start_all (processes os_environ acc) = (None, processes os_environ acc) →
  obstacle (process os_environ (bool_decide (acc ≠ [])) (w, c)) = Some x →
  eval_groups verbose (to_groups acc ((w, c, op) :: l) e) =
    (Raise x, processes os_environ acc).
Proof.
  intros Hacc Hx.
  assert (∃ g fin gs, to_groups acc ((w, c, op) :: l) e = (acc ++ (w, c) :: g, fin) :: gs)
    as (g & fin & gs & ->).
  { cbn [to_groups]. destruct op as [[| | | |]|]; try (by eexists [], _, _).
    destruct (to_groups_head (acc ++ [(w, c)]) l e) as (g & fin & gs & ->).
    rewrite <- app_assoc. by eexists _, _, _. }
  cbn [ShellCmd.eval_groups]. destruct (processes_app acc (w, c) g) as [l' ->].
  rewrite start_all_app by done. cbn [ShellCmd.start_all]. rewrite Hx. by rewrite app_nil_r.
Qed.

(** The loop, started inside a group of which [acc] has been launched. *)
Lemma run_loop_groups verbose pl cwd acc trace :
  shape pl → start_all (processes os_environ acc) = (None, processes os_environ acc) →
  run_loop verbose (bool_decide (acc ≠ [])) cwd
    (exit_code <$> processes os_environ acc) (trace ++ processes os_environ acc) pl =
  let '(l, e) := steps cwd pl in
  let '(r, t) := eval_groups verbose (to_groups acc l e) in (r, (trace ++ t)%list).
Proof.
  intros Hpl. revert cwd acc trace.
  induction Hpl as [c _|d|c op rest Hop Hpl IH|d rest Hpl IH]; intros cwd acc trace Hacc.
  - cbn [ShellCmd.run_loop steps]. rewrite launch_spec.
    destruct (obstacle _) as [x|] eqn:Hx; [by rewrite (eval_obstacle _ _ _ _ _ _ _ _ Hacc Hx)|].
    cbn [to_groups ShellCmd.eval_groups]. rewrite processes_snoc, start_all_app by done.
    cbn [ShellCmd.start_all]. rewrite Hx, exec_piped_last. unfold group_code.
    by rewrite processes_snoc, fmap_app, <- app_assoc.
  - cbn [ShellCmd.run_loop]. assert (steps cwd [Chdir d] = ([], Some IndexError)) as ->
      by by destruct d.
    cbn [to_groups ShellCmd.eval_groups]. by rewrite Hacc.
  - cbn [ShellCmd.run_loop steps]. rewrite launch_spec.
    destruct (steps cwd rest) as [l e] eqn:Es.
    destruct (obstacle _) as [x|] eqn:Hx; [by rewrite (eval_obstacle _ _ _ _ _ _ _ _ Hacc Hx)|].
    assert (start_all (processes os_environ (acc ++ [(cwd, c)])) =
      (None, processes os_environ (acc ++ [(cwd, c)]))) as Hacc'.
    { rewrite processes_snoc, start_all_app by done. cbn [ShellCmd.start_all]. by rewrite Hx. }
    cbn [to_groups].
    rewrite <- app_assoc, <- processes_snoc.
    change [exit_code ?x] with (exit_code <$> [x]). rewrite <- fmap_app, <- processes_snoc.
    pose proof (IH cwd [] (trace ++ processes os_environ (acc ++ [(cwd, c)])) eq_refl) as IHn.
    rewrite Es in IHn. cbn [processes fmap list_fmap] in IHn. rewrite app_nil_r in IHn.
    change (bool_decide ([] ≠ [])) with false in IHn.
    destruct op; try done; cbn [ShellCmd.eval_groups].
    + specialize (IH cwd (acc ++ [(cwd, c)]) trace Hacc'). rewrite Es in IH. rewrite <- IH.
      f_equal. by destruct acc.
    + rewrite Hacc'. destruct verbose; [done|]. rewrite exec_piped_last. unfold group_code at 1 2.
      destruct (negb _); [done|]. rewrite IHn.
      destruct (eval_groups _ _) as [r t]. by rewrite <- app_assoc.
    + rewrite Hacc'. destruct verbose; [done|]. rewrite exec_piped_last. unfold group_code at 1 2.
      destruct (bool_decide (_ = 0%Z)); [done|]. rewrite IHn.
      destruct (eval_groups _ _) as [r t]. by rewrite <- app_assoc.
  - cbn [ShellCmd.run_loop steps]. destruct d as [d|]; [by apply IH|].
    cbn [to_groups ShellCmd.eval_groups]. by rewrite Hacc.
Qed.
End RunLemmas.

(** ** Printing a pipeline as words *)
Definition operators : list string := [">"; "2>"; "2>&1"; "<"; "|"; "&&"; "||"].

Definition env_words (e : environ) : list string :=
  (λ kv, kv.1 +:+ "=" +:+ kv.2) <$> map_to_list e.

Definition redirect_words (c : Command) : list string :=
  match cmd_stdin c with Some f => ["<"; f] | None => [] end ++
  match cmd_stdout c with Some (File f) => [">"; f] | _ => [] end ++
  match cmd_stderr c with Some (File f) => ["2>"; f] | Some STDOUT => ["2>&1"] | _ => [] end.

Definition command_words (c : Command) : list string :=
  env_words (env_vars c) ++ name c :: tail (argv c) ++ redirect_words c.

Definition node_words (n : node) : list string :=
  match n with
  | Cmd c => command_words c
  | Chdir d => "cd" :: match d with Some d => [d] | None => [] end
  | Pipe => ["|"] | And => ["&&"] | Or => ["||"]
  end.

(** Commands that [parse] can produce: nothing that reads as an operator, an
    assignment or [cd] where it would be taken for one. *)
Definition printable_command (c : Command) : Prop :=
  env_var_match (name c) = None ∧ name c ≠ "cd" ∧ head (argv c) = Some (name c) ∧
  Forall (λ a, a ∉ operators) (tail (argv c)) ∧
  cmd_stderr c ≠ Some PIPE ∧ cmd_stdout c ≠ Some STDOUT ∧
  map_Forall (λ k v, env_var_match (k +:+ "=" +:+ v) = Some (k, v)) (env_vars c).

Definition printable (n : node) : Prop :=
  match n with
  | Cmd c => printable_command c
  | Chdir (Some d) => d ≠ "&&"
  | Chdir None => env_var_match "cd" = None
  | _ => True
  end.

Lemma parse_env_words l e pl :
  Forall (λ kv, env_var_match (kv.1 +:+ "=" +:+ kv.2) = Some kv) l →
  fold_res parse_token (Parser BEGIN None e pl) ((λ kv, kv.1 +:+ "=" +:+ kv.2) <$> l) =
  Ok (Parser BEGIN None (foldl (λ m kv, <[kv.1 := kv.2]> m) e l) pl).
Proof.
  intros Hl. revert e. induction Hl as [|[k v] l Hkv _ IH]; intros e; [done|].
  cbn [fmap list_fmap fold_res].
  assert (parse_token (Parser BEGIN None e pl) ((k, v).1 +:+ "=" +:+ (k, v).2) =
    Ok (Parser BEGIN None (<[k:=v]> e) pl)) as ->.
  { unfold parse_token. cbn [state]. by rewrite Hkv. }
  rewrite bind_Ok. apply IH.
Qed.

Lemma foldl_insert_map (l : list (string * string)) e :
  NoDup l.*1 → (∀ k, k ∈ l.*1 → e !! k = None) →
  foldl (λ m kv, <[kv.1 := kv.2]> m) e l = list_to_map l ∪ (e : environ).
Proof.
  revert e. induction l as [|[k v] l IH]; intros e Hnd He; simpl; [by rewrite map_empty_union|].
  simpl in Hnd. apply NoDup_cons in Hnd as [Hk Hnd].
  rewrite IH; [|done|].
  - rewrite <- insert_union_l. apply map_eq. intros k'.
    rewrite lookup_union. destruct (decide (k' = k)) as [->|Hne].
    + rewrite !lookup_insert_eq. rewrite (not_elem_of_list_to_map_1 l k) by done. done.
    + rewrite !lookup_insert_ne by done. by rewrite lookup_union.
  - intros k' Hk'. rewrite lookup_insert_ne by (intros ->; done). apply He. by right.
Qed.

Lemma parse_env e pl :
  map_Forall (λ k v, env_var_match (k +:+ "=" +:+ v) = Some (k, v)) e →
  fold_res parse_token (Parser BEGIN None ∅ pl) (env_words e) = Ok (Parser BEGIN None e pl).
Proof.
  intros He. unfold env_words. rewrite parse_env_words.
  - rewrite foldl_insert_map; [|apply NoDup_fst_map_to_list|done].
    by rewrite list_to_map_to_list, map_union_empty.
  - apply Forall_forall. intros [k v] Hin. apply elem_of_map_to_list in Hin.
    by apply He in Hin.
Qed.

(** Arguments are added one by one. *)
Definition add_args (args : list string) (c : Command) : Command :=
  MkCommand (name c) (argv c ++ args) (cmd_stdin c) (cmd_stdout c) (cmd_stderr c) (env_vars c).

Lemma parse_args args c e pl :
  Forall (λ a, a ∉ operators) args →
  fold_res parse_token (Parser COMMAND (Some (Cmd c)) e pl) args =
  Ok (Parser COMMAND (Some (Cmd (add_args args c))) e pl).
Proof.
  intros Ha. revert c. induction Ha as [|a args Ha _ IH]; intros c.
  - unfold add_args. rewrite app_nil_r. by destruct c.
  - cbn [fold_res].
    assert (parse_token (Parser COMMAND (Some (Cmd c)) e pl) a =
      Ok (Parser COMMAND (Some (Cmd (add_arg a c))) e pl)) as ->.
    { unfold operators in Ha. rewrite !not_elem_of_cons in Ha. unfold parse_token. simpl.
      rewrite !bool_decide_eq_false_2 by tauto. done. }
    rewrite bind_Ok, IH. unfold add_args, add_arg. simpl. by rewrite <- app_assoc.
Qed.

(** The words of a command, then what its last redirection leaves. *)
Definition without_pipe (c : Command) : Command :=
  MkCommand (name c) (argv c) (cmd_stdin c)
    match cmd_stdout c with Some PIPE => None | o => o end (cmd_stderr c) (env_vars c).

Lemma parse_command_words c pl :
  printable_command c →
  fold_res parse_token (Parser BEGIN None ∅ pl) (command_words c) =
  Ok (Parser COMMAND (Some (Cmd (without_pipe c))) ∅ pl).
Proof.
  intros (Hn & Hcd & Hh & Ha & Herr & Hout & He). unfold command_words.
  rewrite fold_res_app, parse_env, bind_Ok by done. cbn [fold_res].
  assert (parse_token (Parser BEGIN None (env_vars c) pl) (name c) =
    Ok (Parser COMMAND (Some (Cmd (new_command (name c) (env_vars c)))) ∅ pl)) as ->.
  { unfold parse_token. simpl. rewrite Hn. by rewrite bool_decide_eq_false_2. }
  rewrite bind_Ok, fold_res_app, parse_args, bind_Ok by done.
  destruct c as [n av i o er ev]. unfold redirect_words, without_pipe, add_args, new_command.
  simpl in *. destruct av as [|x av]; [done|]. simpl in Hh. injection Hh as ->. simpl.
  destruct i as [f|], o as [[| |g]|], er as [[| |h]|]; try done; reflexivity.
Qed.

Lemma parse_cd_words d pl :
  printable (Chdir d) →
  fold_res parse_token (Parser BEGIN None ∅ pl) (node_words (Chdir d)) =
  Ok (Parser CHDIR (Some (Chdir d)) ∅ pl).
Proof.
  intros Hd. cbn [node_words fold_res].
  assert (parse_token (Parser BEGIN None ∅ pl) "cd" =
    Ok (Parser CHDIR (Some (Chdir None)) ∅ pl)) as ->.
  { unfold parse_token. cbn [state current env pipeline].
    change (env_var_match "cd") with (@None (string * string)). cbv beta iota.
    by rewrite !bool_decide_eq_true_2. }
  rewrite bind_Ok. destruct d as [d|]; [|done]. cbn [fold_res]. unfold parse_token.
  cbn [state current env pipeline]. simpl in Hd. by rewrite bool_decide_eq_false_2.
Qed.

Lemma parse_pipeline_words pl pre :
  shape pl → Forall printable pl →
  ∃ p, fold_res parse_token (Parser BEGIN None ∅ pre) (pl ≫= node_words) = Ok p ∧
    ∃ n, current p = Some n ∧ pipeline p ++ [n] = pre ++ pl.
Proof.
  intros Hs. revert pre.
  induction Hs as [c Hc|d|c op rest Hj Hs IH|d rest Hs IH]; intros pre Hp.
  - inversion_clear Hp as [|? ? Hc' _]. cbn. rewrite app_nil_r.
    eexists. split; [by apply parse_command_words|]. simpl. eexists. split; [done|].
    do 3 f_equal. destruct c as [? ? ? [[]|] ? ?]; done.
  - inversion_clear Hp as [|? ? Hd _].
    change ([Chdir d] ≫= node_words) with (node_words (Chdir d) ++ []).
    rewrite app_nil_r, parse_cd_words by done. eexists. split; [done|]. simpl. by eexists.
  - inversion_clear Hp as [|? ? Hc' Hp']. inversion_clear Hp' as [|? ? _ Hrest].
    change ((Cmd c :: op :: rest) ≫= node_words)
      with (command_words c ++ node_words op ++ (rest ≫= node_words)).
    rewrite fold_res_app, parse_command_words, bind_Ok by done.
    rewrite fold_res_app.
    assert (fold_res parse_token (Parser COMMAND (Some (Cmd (without_pipe c))) ∅ pre)
      (node_words op) = Ok (Parser BEGIN None ∅ ((pre ++ [Cmd c]) ++ [op]))) as ->.
    { destruct c as [n av i o er ev], op; simpl in Hj; try done; subst; try reflexivity;
        destruct o as [[| |]|]; done. }
    rewrite bind_Ok. destruct (IH ((pre ++ [Cmd c]) ++ [op]) Hrest) as (p & Hf & n & Hn & Hpl).
    exists p. split; [done|]. exists n. split; [done|]. rewrite Hpl, <- !app_assoc. done.
  - inversion_clear Hp as [|? ? Hd Hp']. inversion_clear Hp' as [|? ? _ Hrest].
    change ((Chdir d :: And :: rest) ≫= node_words)
      with (node_words (Chdir d) ++ ["&&"] ++ (rest ≫= node_words)).
    rewrite fold_res_app, parse_cd_words, bind_Ok, fold_res_app by done.
    change (fold_res parse_token (Parser CHDIR (Some (Chdir d)) ∅ pre) ["&&"])
      with (Ok (E:=exn) (Parser BEGIN None ∅ ((pre ++ [Chdir d]) ++ [And]))).
    rewrite bind_Ok. destruct (IH ((pre ++ [Chdir d]) ++ [And]) Hrest) as (p & Hf & n & Hn & Hpl).
    exists p. split; [done|]. exists n. split; [done|]. rewrite Hpl, <- !app_assoc. done.
Qed.

(** C21: parsing the words of a pipeline gives back the pipeline, for every
    sequence of commands with any arguments, assignments and redirections that
    words can express. *)
Theorem parse_print_roundtrip (pl : list node) :
  shape pl → Forall printable pl → parse (pl ≫= node_words) = Ok pl.
Proof.
  intros Hs Hp. destruct (parse_pipeline_words pl [] Hs Hp) as (p & Hf & n & Hn & Hpl).
  unfold parse, start. rewrite Hf. simpl. unfold commit_command. rewrite Hn. simpl.
  by rewrite Hpl.
Qed.

Definition sample_pipeline : list node :=
  [Cmd (MkCommand "./foo.py" ["./foo.py"; "-v"] (Some "xxx") (Some PIPE) (Some STDOUT)
          {["NS_LOG" := "Wifi"]}); Pipe;
   Cmd (MkCommand "cat" ["cat"] None None None ∅); And;
   Cmd (MkCommand "ls" ["ls"] None (Some (File "out")) None ∅)].

Lemma parse_print_roundtrip_witness :
  parse ["NS_LOG=Wifi"; "./foo.py"; "-v"; "<"; "xxx"; "2>&1"; "|"; "cat"; "&&"; "ls"; ">"; "out"]
    = Ok sample_pipeline.
Proof.
  apply (parse_print_roundtrip sample_pipeline).
  - repeat constructor; done.
  - repeat constructor; try done.
    + by apply (bool_decide_unpack _).
    + intros k v Hkv. simpl in Hkv. apply lookup_singleton_Some in Hkv as [<- <-]. reflexivity.
Defined.

(** C20: on every pipeline that [parse] can build, [run] computes what its groups
    mean: it starts exactly the processes of the groups reached, in order, every
    process after a [|] reading from the one before it and in the directory the
    [cd]s so far lead to; the code of a group is its last process's; a success
    before [||] or a failure before [&&] ends the whole run with that code, and
    the last group's code is the result otherwise.  The run stops with an
    exception where a file cannot be opened (IOError) or a process not be
    started (OSError), what came before having been started; where a [cd] is
    the end of the line (IndexError) or has no directory (AttributeError); and,
    when it is verbose, at the first [&&] or [||], which it cannot report
    (UnboundLocalError). *)
Theorem run_groups (exit_code : launch → Z) (startable : launch → bool)
    (readable writable : string → bool) (os_environ : environ) (verbose : bool) (pl : list node) :
  shape pl →
  run exit_code startable readable writable os_environ verbose pl =
  eval_groups exit_code startable readable writable os_environ verbose (groups_of pl).
Proof.
  intros Hs. unfold run, groups_of.
  pose proof (run_loop_groups exit_code startable readable writable os_environ verbose pl "." [] []
    Hs eq_refl) as H.
  destruct (steps "." pl) as [l e]. etrans; [exact H|].
  by destruct (eval_groups _ _ _ _ _ _ _).
Qed.

(** Every file can be opened and [cat] is not installed. *)
Definition sample_startable (l : launch) : bool := bool_decide (head (l_argv l) ≠ Some "cat").

Lemma run_groups_witness :
  (run (λ _, 0%Z) sample_startable (λ _, true) (λ _, true) ∅ false sample_pipeline).1 = Raise OSError ∧
  (run (λ _, 3%Z) (λ _, true) (λ _, true) (λ _, true) ∅ false sample_pipeline).1 = Ok (Some 3%Z) ∧
  (run (λ _, 0%Z) (λ _, true) (λ _, true) (λ _, true) ∅ true sample_pipeline).1 =
    Raise UnboundLocalError.
Proof.
  assert (shape sample_pipeline) as Hs by (by repeat constructor).
  split_and!; rewrite run_groups by done; reflexivity.
Defined.

(** ** What modelling showed *)

(** [a || b && c] ends with [a] when [a] succeeds: [c], which a POSIX shell
    runs, is not started. *)
Lemma or_then_and_stops :
  run (λ _, 0%Z) (λ _, true) (λ _, true) (λ _, true) ∅ false
    [Cmd (new_command "a" ∅); Or; Cmd (new_command "b" ∅); And; Cmd (new_command "c" ∅)] =
  (Ok (Some 0%Z), [process ∅ false (".", new_command "a" ∅)]).
Proof. reflexivity. Qed.

(** A final [cd] parses and cannot be run. *)
Lemma final_cd_fails :
  parse ["ls"; "&&"; "cd"; "x"] =
    Ok [Cmd (new_command "ls" ∅); And; Chdir (Some "x")] ∧
  (run (λ _, 0%Z) (λ _, true) (λ _, true) (λ _, true) ∅ false
    [Cmd (new_command "ls" ∅); And; Chdir (Some "x")]).1 = Raise IndexError.
Proof. split; reflexivity. Qed.

(** The abbreviation of a command with [||] does not show it. *)
Lemma abbreviation_drops_or :
  get_abbreviated_command [Cmd (new_command "a" ∅); Or; Cmd (new_command "b" ∅)] = "a b".
Proof. reflexivity. Qed.
