(* ===== verification/Timeline.v ===== *)
(** * The timelines of [utils/grid.py] (lines 10-249, 985-1045)

    Data ranges and events with their binary searches and bounds, the
    timelines that group them by name, the colour table, and [read_data], which
    fills them from a text file.  Times are integers, as [int] reads them; the
    window they are searched for has rational bounds. *)

From S2P Require Import Prelude PyStr Patch Rat.
From Stdlib Require Import Ascii.

Local Open Scope string_scope.
Local Open Scope list_scope.
Local Open Scope Z_scope.

Record DataRange := MkRange { r_start : Z; r_end : Z; r_value : string }.

(** The value of an [EventString] or of an [EventInt]. *)
Inductive event_value := VString (s : string) | VInt (n : Z).

Record Event := MkEvent { at_ : Z; e_value : event_value }.

#[export] Instance DataRange_eq_dec : EqDecision DataRange.
Proof. solve_decision. Defined.
#[export] Instance event_value_eq_dec : EqDecision event_value.
Proof. solve_decision. Defined.
#[export] Instance Event_eq_dec : EqDecision Event.
Proof. solve_decision. Defined.

Definition ranges_cmp (a b : DataRange) : Z :=
  let diff := r_start a - r_start b in
  if bool_decide (diff < 0) then -1 else if bool_decide (0 < diff) then 1 else 0.

Definition events_cmp (a b : Event) : Z :=
  let diff := at_ a - at_ b in
  if bool_decide (diff < 0) then -1 else if bool_decide (0 < diff) then 1 else 0.

(** [l.sort(cmp)]: stable, by insertion. *)
Fixpoint insert_by {A} (cmp : A → A → Z) (x : A) (l : list A) : list A :=
  match l with
  | [] => [x]
  | y :: l' => if bool_decide (0 < cmp x y) then y :: insert_by cmp x l' else x :: l
  end.

Definition sort_by {A} (cmp : A → A → Z) (l : list A) : list A :=
  foldr (insert_by cmp) [] l.

(** ** [TimelineDataRange] *)
Record TimelineDataRange := MkRanges { rs_name : string; ranges : list DataRange }.

(** [__search]: [l] and [u] are the bounds of the loop. *)
Fixpoint range_search_loop (fuel : nat) (rs : list DataRange) (key : Q) (l u : Z) : result exn Z :=
  if bool_decide (l ≤ u) then
    match fuel with
    | O => Raise Diverges
    | S fuel' =>
        let i := (l + u) / 2 in
        r ← py_index rs i;
        if qle (inject_Z (r_start r)) key && qle key (inject_Z (r_end r)) then Ok i
        else if qlt key (inject_Z (r_start r)) then range_search_loop fuel' rs key l (i - 1)
        else range_search_loop fuel' rs key (i + 1) u
    end
  else Ok (-1).

Definition range_search (rs : list DataRange) (key : Q) : result exn Z :=
  range_search_loop (length rs) rs key 0 (py_len rs - 1).

Definition add_range (r : DataRange) (t : TimelineDataRange) : TimelineDataRange :=
  MkRanges (rs_name t) (ranges t ++ [r]).

Definition get_ranges_bounds (t : TimelineDataRange) (start end_ : Q) : result exn (Z * Z) :=
  s ← range_search (ranges t) start;
  e ← range_search (ranges t) end_;
  Ok (if bool_decide (s = -1) && bool_decide (e = -1) then (0, 0)
      else if bool_decide (s = -1) then (0, e + 1)
      else if bool_decide (e = -1) then (s, py_len (ranges t))
      else (s, e + 1)).

Definition get_ranges (t : TimelineDataRange) (start end_ : Q) : result exn (list DataRange) :=
  s ← range_search (ranges t) start;
  e ← range_search (ranges t) end_;
  Ok (if bool_decide (s = -1) && bool_decide (e = -1) then []
      else if bool_decide (s = -1) then py_slice (ranges t) 0 (e + 1)
      else if bool_decide (e = -1) then py_slice (ranges t) s (py_len (ranges t))
      else py_slice (ranges t) s (e + 1)).

Definition sort_ranges (t : TimelineDataRange) : TimelineDataRange :=
  MkRanges (rs_name t) (sort_by ranges_cmp (ranges t)).

Definition ranges_bounds (t : TimelineDataRange) : Z * Z :=
  match ranges t, last (ranges t) with
  | r :: _, Some r' => (r_start r, r_end r')
  | _, _ => (0, 0)
  end.

(** ** [TimelineEvent] *)
Record TimelineEvent := MkEvents { ev_name : string; events : list Event }.

Fixpoint event_search_loop (fuel : nat) (es : list Event) (key : Q) (l u : Z) : result exn Z :=
  if bool_decide (l ≤ u) then
    match fuel with
    | O => Raise Diverges
    | S fuel' =>
        let i := (l + u) / 2 in
        e ← py_index es i;
        if Qeq_bool key (inject_Z (at_ e)) then Ok i
        else if qlt key (inject_Z (at_ e)) then event_search_loop fuel' es key l (i - 1)
        else event_search_loop fuel' es key (i + 1) u
    end
  else Ok l.

Definition event_search (es : list Event) (key : Q) : result exn Z :=
  event_search_loop (length es) es key 0 (py_len es - 1).

Definition add_event (e : Event) (t : TimelineEvent) : TimelineEvent :=
  MkEvents (ev_name t) (events t ++ [e]).

Definition get_events (t : TimelineEvent) (start end_ : Q) : result exn (list Event) :=
  s ← event_search (events t) start;
  e ← event_search (events t) end_;
  Ok (py_slice (events t) s (e + 1)).

Definition get_events_bounds (t : TimelineEvent) (start end_ : Q) : result exn (Z * Z) :=
  s ← event_search (events t) start; e ← event_search (events t) end_; Ok (s, e + 1).

Definition sort_events (t : TimelineEvent) : TimelineEvent :=
  MkEvents (ev_name t) (sort_by events_cmp (events t)).

Definition events_bounds (t : TimelineEvent) : Z * Z :=
  match events t, last (events t) with
  | e :: _, Some e' => (at_ e, at_ e')
  | _, _ => (0, 0)
  end.

(** ** [Timeline] and [Timelines] *)
Record Timeline := MkTimeline {
  t_name : string;
  t_ranges : list TimelineDataRange;
  event_str : list TimelineEvent;
  event_int : list TimelineEvent }.

(** The loops of the getters hand out the first element with the name, or a
    new one appended to the list; the caller then changes that shared object.
    [f] is the change. *)
Fixpoint update_named {A} (name_of : A → string) (new : A) (f : A → A) (name : string)
    (l : list A) : list A :=
  match l with
  | [] => [f new]
  | x :: l' =>
      if bool_decide (name_of x = name) then f x :: l'
      else x :: update_named name_of new f name l'
  end.

Definition get_range (name : string) (f : TimelineDataRange → TimelineDataRange)
    (t : Timeline) : Timeline :=
  MkTimeline (t_name t) (update_named rs_name (MkRanges name []) f name (t_ranges t))
    (event_str t) (event_int t).

Definition get_event_str (name : string) (f : TimelineEvent → TimelineEvent)
    (t : Timeline) : Timeline :=
  MkTimeline (t_name t) (t_ranges t)
    (update_named ev_name (MkEvents name []) f name (event_str t)) (event_int t).

Definition get_event_int (name : string) (f : TimelineEvent → TimelineEvent)
    (t : Timeline) : Timeline :=
  MkTimeline (t_name t) (t_ranges t) (event_str t)
    (update_named ev_name (MkEvents name []) f name (event_int t)).

Definition sort_timeline (t : Timeline) : Timeline :=
  MkTimeline (t_name t) (sort_ranges <$> t_ranges t) (sort_events <$> event_str t)
    (sort_events <$> event_int t).

(** [lo] and [hi] widened by the bounds of one element. *)
Definition widen (b b' : Z * Z) : Z * Z :=
  (if bool_decide (b'.1 < b.1) then b'.1 else b.1,
   if bool_decide (b.2 < b'.2) then b'.2 else b.2).

Definition timeline_bounds (t : Timeline) : Z * Z :=
  let b := foldl (λ b r, widen b (ranges_bounds r)) (0, 0) (t_ranges t) in
  let b := foldl (λ b e, widen b (events_bounds e)) b (event_str t) in
  foldl (λ b e, widen b (events_bounds e)) b (event_int t).

Abbreviation Timelines := (list Timeline).

Definition get_timeline (name : string) (f : Timeline → Timeline) (ts : Timelines) : Timelines :=
  update_named t_name (MkTimeline name [] [] []) f name ts.

Definition sort_timelines (ts : Timelines) : Timelines := sort_timeline <$> ts.

Definition timelines_bounds (ts : Timelines) : Z * Z :=
  foldl (λ b t, widen b (timeline_bounds t)) (0, 0) ts.

(** The keys of [get_all_range_values]'s dictionary. *)
Definition get_all_range_values (ts : Timelines) : gset string :=
  foldl (λ vs t, foldl (λ vs rs, foldl (λ vs r, {[r_value r]} ∪ vs) vs (ranges rs)) vs (t_ranges t))
    ∅ ts.

(** ** [Colors] *)
Record Color := MkColor { red : Z; green : Z; blue : Z }.

Definition default_colors : list Color :=
  [MkColor 1 0 0; MkColor 0 1 0; MkColor 0 0 1; MkColor 1 1 0; MkColor 1 0 1; MkColor 0 1 1].

(** The table of one object and the list the class shares between objects. *)
Record Colors := MkColors { table : gmap string Color; defaults : list Color }.

Definition add_color (name : string) (c : Color) (cs : Colors) : Colors :=
  MkColors (<[name := c]> (table cs)) (defaults cs).

Definition lookup_color (name : string) (cs : Colors) : result exn (Color * Colors) :=
  match table cs !! name with
  | Some c => Ok (c, cs)
  | None =>
      match last (defaults cs) with
      | Some c => Ok (c, MkColors (<[name := c]> (table cs))
                          (take (pred (length (defaults cs))) (defaults cs)))
      | None => Raise IndexError
      end
  end.

(** ** [read_data] *)

(** [([^ ]+)] followed by a blank: a non-empty word. *)
Definition match_word (s : string) : option (string * string) :=
  match split_once " " s with
  | (w, Some rest) => if bool_decide (w = "") then None else Some (w, rest)
  | _ => None
  end.

(** What a line says. *)
Inductive entry :=
  | RangeEntry (timeline name value : string) (start end_ : Z)
  | StringEntry (timeline name value : string) (at_ : Z)
  | IntEntry (timeline name : string) (value at_ : Z).

Definition match_number (s : string) : option (Z * string) :=
  '(n, r) ← match_int s; Some (Z.of_N n, r).

Definition match_range (s : string) : option entry :=
  s ← match_literal "range " s;
  '(t, s) ← match_word s; '(n, s) ← match_word s; '(v, s) ← match_word s;
  '(a, s) ← match_number s; s ← match_literal " " s; '(b, _) ← match_number s;
  Some (RangeEntry t n v a b).

Definition match_event_str (s : string) : option entry :=
  s ← match_literal "event-str " s;
  '(t, s) ← match_word s; '(n, s) ← match_word s; '(v, s) ← match_word s;
  '(a, _) ← match_number s;
  Some (StringEntry t n v a).

Definition match_event_int (s : string) : option entry :=
  s ← match_literal "event-int " s;
  '(t, s) ← match_word s; '(n, s) ← match_word s; '(v, s) ← match_number s;
  s ← match_literal " " s; '(a, _) ← match_number s;
  Some (IntEntry t n v a).

(** Two hexadecimal digits. *)
Definition hex_value (c : ascii) : option Z :=
  let n := Z.of_N (N_of_ascii c) in
  if bool_decide (48 ≤ n) && bool_decide (n ≤ 57) then Some (n - 48)
  else if bool_decide (65 ≤ n) && bool_decide (n ≤ 70) then Some (n - 55)
  else if bool_decide (97 ≤ n) && bool_decide (n ≤ 102) then Some (n - 87)
  else None.

Definition match_byte (s : string) : option (Z * string) :=
  match s with
  | String a (String b s') => x ← hex_value a; y ← hex_value b; Some (16 * x + y, s')
  | _ => None
  end.

(** The division of the components by 255 is that of integers. *)
Definition match_color (s : string) : option (string * Color) :=
  s ← match_literal "color " s;
  '(n, s) ← match_word s; s ← match_literal "#" s;
  '(r, s) ← match_byte s; '(g, s) ← match_byte s; '(b, _) ← match_byte s;
  Some (n, MkColor (r / 255) (g / 255) (b / 255)).

Definition add_entry (e : entry) (ts : Timelines) : Timelines :=
  match e with
  | RangeEntry t n v a b =>
      get_timeline t (get_range n (add_range (MkRange a b v))) ts
  | StringEntry t n v a =>
      get_timeline t (get_event_str n (add_event (MkEvent a (VString v)))) ts
  | IntEntry t n v a =>
      get_timeline t (get_event_int n (add_event (MkEvent a (VInt v)))) ts
  end.

(** One line of the file: the first pattern that matches decides. *)
Definition read_line (st : Colors * Timelines) (s : string) : Colors * Timelines :=
  match match_range s with
  | Some e => (st.1, add_entry e st.2)
  | None =>
  match match_event_str s with
  | Some e => (st.1, add_entry e st.2)
  | None =>
  match match_event_int s with
  | Some e => (st.1, add_entry e st.2)
  | None =>
  match match_color s with
  | Some (n, c) => (add_color n c st.1, st.2)
  | None => st
  end end end end.

Definition read_data (text : string) : Colors * Timelines :=
  let st := foldl read_line (MkColors ∅ default_colors, []) (lines text) in
  (st.1, sort_timelines st.2).

(** ** Lemmas on the searches *)
Lemma py_index_in {A} (l : list A) (i : Z) :
  0 ≤ i < py_len l → ∃ x, py_index l i = Ok x ∧ l !! Z.to_nat i = Some x.
Proof.
  intros Hi. unfold py_len in Hi. destruct (lookup_lt_is_Some_2 l (Z.to_nat i)) as [x Hx]; [lia|].
  exists x. split; [|done]. rewrite <- (Z2Nat.id i) by lia. by rewrite py_index_nat, Hx.
Qed.

Lemma midpoint l u : l ≤ u → l ≤ (l + u) / 2 ≤ u.
Proof.
  intros Hlu. split; [apply Z.div_le_lower_bound; lia|].
  apply Z.lt_succ_r, Z.div_lt_upper_bound; lia.
Qed.

(** Ranges in order and apart. *)
Definition apart (rs : list DataRange) : Prop :=
  Forall (λ r, r_start r ≤ r_end r) rs ∧
  ∀ (i j : nat) r r', (i < j)%nat → rs !! i = Some r → rs !! j = Some r' → r_end r < r_start r'.

Definition covers (key : Q) (r : DataRange) : Prop :=
  (inject_Z (r_start r) <= key ∧ key <= inject_Z (r_end r))%Q.

#[export] Instance covers_dec key r : Decision (covers key r).
Proof. unfold covers. apply _. Defined.

Lemma range_search_loop_spec fuel rs key l u :
  apart rs → 0 ≤ l → u < py_len rs → u - l < Z.of_nat fuel →
  (∀ j r, rs !! j = Some r → Z.of_nat j < l → (inject_Z (r_end r) < key)%Q) →
  (∀ j r, rs !! j = Some r → u < Z.of_nat j → (key < inject_Z (r_start r))%Q) →
  (range_search_loop fuel rs key l u = Ok (-1) ∧ ∀ r, r ∈ rs → ¬ covers key r) ∨
  (∃ (i : nat) r, range_search_loop fuel rs key l u = Ok (Z.of_nat i) ∧
     rs !! i = Some r ∧ covers key r).
Proof.
  intros [Hle Hap]. revert l u. induction fuel as [|fuel IH]; intros l u Hl Hu Hfuel Hlo Hhi.
  - cbn [range_search_loop]. rewrite bool_decide_eq_false_2 by lia. left. split; [done|].
    intros r [j Hj]%list_elem_of_lookup [H1 H2].
    destruct (decide (Z.of_nat j < l)); [specialize (Hlo j r Hj)|specialize (Hhi j r Hj)]; zq key.
  - cbn [range_search_loop]. case_bool_decide as Hlu.
    + pose proof (midpoint l u Hlu) as Hm. set (i := (l + u) / 2) in *.
      destruct (py_index_in rs i) as (r & -> & Hr); [lia|]. cbn [mbind result_bind].
      assert (Hrle : r_start r ≤ r_end r).
      { rewrite Forall_lookup in Hle. by eapply Hle. }
      assert (Hbefore : ∀ j r', rs !! j = Some r' → Z.of_nat j ≤ i → r_end r' ≤ r_end r).
      { intros j r' Hj Hji. destruct (decide (Z.of_nat j = i)) as [Heq|Hne].
        { assert (j = Z.to_nat i) as -> by lia. by simplify_eq. }
        assert (r_end r' < r_start r) by (apply (Hap j (Z.to_nat i)); [lia|done..]). lia. }
      assert (Hafter : ∀ j r', rs !! j = Some r' → i ≤ Z.of_nat j → r_start r ≤ r_start r').
      { intros j r' Hj Hji. destruct (decide (Z.of_nat j = i)) as [Heq|Hne].
        { assert (j = Z.to_nat i) as -> by lia. by simplify_eq. }
        assert (r_end r < r_start r') by (apply (Hap (Z.to_nat i) j); [lia|done..]). lia. }
      pose proof (qle_spec (inject_Z (r_start r)) key) as E1.
      pose proof (qle_spec key (inject_Z (r_end r))) as E2.
      pose proof (qlt_spec key (inject_Z (r_start r))) as E3.
      destruct (qle (inject_Z (r_start r)) key), (qle key (inject_Z (r_end r))); cbn [andb].
      { right. exists (Z.to_nat i), r. split_and!; [f_equal; lia|done|by split]. }
      all: destruct (qlt key (inject_Z (r_start r))); zq key; (apply IH; [lia..| |]; try done).
      all: intros j r' Hj Hlt.
      all: pose proof (Hbefore j r' Hj); pose proof (Hafter j r' Hj); zq key.
    + left. split; [done|]. intros r [j Hj]%list_elem_of_lookup [H1 H2].
      destruct (decide (Z.of_nat j < l)); [specialize (Hlo j r Hj)|specialize (Hhi j r Hj)]; zq key.
Qed.

Lemma range_search_cases rs key :
  apart rs →
  (range_search rs key = Ok (-1) ∧ ∀ r, r ∈ rs → ¬ covers key r) ∨
  (∃ (i : nat) r, range_search rs key = Ok (Z.of_nat i) ∧ rs !! i = Some r ∧ covers key r).
Proof.
  intros Hap. unfold range_search, py_len. apply range_search_loop_spec; [done|unfold py_len; lia..| |].
  - intros j r _ Hj. lia.
  - intros j r Hj Hlt. apply lookup_lt_Some in Hj. lia.
Qed.

(** Strictly increasing events. *)
Definition increasing (es : list Event) : Prop :=
  ∀ (i j : nat) e e', (i < j)%nat → es !! i = Some e → es !! j = Some e' → at_ e < at_ e'.

(** The event is before the time [key]. *)
Definition earlier (key : Q) (e : Event) : Prop := (inject_Z (at_ e) < key)%Q.

Lemma event_search_loop_spec fuel es key l u :
  increasing es → 0 ≤ l ≤ u + 1 → u < py_len es → u - l < Z.of_nat fuel →
  (∀ j e, es !! j = Some e → Z.of_nat j < l → earlier key e) →
  (∀ j e, es !! j = Some e → u < Z.of_nat j → (key < inject_Z (at_ e))%Q) →
  ∃ i : nat, event_search_loop fuel es key l u = Ok (Z.of_nat i) ∧ (i ≤ length es)%nat ∧
    ∀ j e, es !! j = Some e → earlier key e ↔ (j < i)%nat.
Proof.
  unfold earlier. intros Hinc. revert l u.
  induction fuel as [|fuel IH]; intros l u Hl Hu Hfuel Hlo Hhi.
  - cbn [event_search_loop]. rewrite bool_decide_eq_false_2 by lia. exists (Z.to_nat l).
    unfold py_len in Hu. split_and!; [f_equal; lia|lia|].
    intros j e Hj. specialize (Hlo j e Hj). specialize (Hhi j e Hj). zq key.
  - cbn [event_search_loop]. case_bool_decide as Hlu.
    + pose proof (midpoint l u Hlu) as Hm. set (i := (l + u) / 2) in *.
      destruct (py_index_in es i) as (e & -> & He); [lia|]. cbn [mbind result_bind].
      assert (Hcmp : ∀ j e', es !! j = Some e' → (Z.of_nat j < i → at_ e' < at_ e) ∧
        (i < Z.of_nat j → at_ e < at_ e') ∧ (Z.of_nat j = i → at_ e' = at_ e)).
      { intros j e' Hj. split_and!; intros Hlt.
        - apply (Hinc j (Z.to_nat i)); [lia|done..].
        - apply (Hinc (Z.to_nat i) j); [lia|done..].
        - assert (j = Z.to_nat i) as -> by lia. by simplify_eq. }
      destruct (Qeq_bool key (inject_Z (at_ e))) eqn:E1.
      * apply Qeq_bool_iff in E1. symmetry in E1. exists (Z.to_nat i). unfold py_len in Hu.
        split_and!; [f_equal; lia|lia|]. intros j e' Hj. specialize (Hcmp j e' Hj). zq key.
      * assert (E1' : ¬ (inject_Z (at_ e) == key)%Q).
        { intros E. symmetry in E. apply Qeq_bool_iff in E. congruence. }
        pose proof (qlt_spec key (inject_Z (at_ e))) as E2.
        destruct (qlt key (inject_Z (at_ e))); zq key; (apply IH; [lia..| |]; try done).
        all: intros j e' Hj Hlt; specialize (Hcmp j e' Hj); zq key.
    + exists (Z.to_nat l). unfold py_len in Hu. split_and!; [f_equal; lia|lia|].
      intros j e Hj. specialize (Hlo j e Hj). specialize (Hhi j e Hj). zq key.
Qed.

Lemma event_search_spec es key :
  increasing es →
  ∃ i : nat, event_search es key = Ok (Z.of_nat i) ∧ (i ≤ length es)%nat ∧
    ∀ j e, es !! j = Some e → earlier key e ↔ (j < i)%nat.
Proof.
  intros Hinc. unfold event_search. apply event_search_loop_spec; unfold py_len; [done|lia..| |].
  - intros j e _ Hj. lia.
  - intros j e Hj Hlt. apply lookup_lt_Some in Hj. lia.
Qed.

(** A property that holds exactly on an interval of positions. *)
Lemma filter_interval {A} (P : A → Prop) `{∀ x, Decision (P x)} (l : list A) (s e : nat) :
  (∀ i x, l !! i = Some x → P x ↔ (s ≤ i < e)%nat) →
  filter P l = take (e - s) (drop s l).
Proof.
  intros HP. rewrite <- (take_drop s l) at 1. rewrite filter_app.
  rewrite filter_none; [|apply Forall_lookup; intros i x Hi].
  - rewrite <- (take_drop (e - s) (drop s l)) at 1. rewrite filter_app. simpl.
    rewrite filter_all; [|apply Forall_lookup; intros i x Hi].
    + rewrite filter_none; [by rewrite app_nil_r|]. apply Forall_lookup. intros i x Hi.
      rewrite !lookup_drop in Hi. rewrite (HP _ _ Hi). lia.
    + apply lookup_take_Some in Hi as [Hi Hlt]. rewrite lookup_drop in Hi.
      rewrite (HP _ _ Hi). lia.
  - apply lookup_take_Some in Hi as [Hi Hlt]. rewrite (HP _ _ Hi). lia.
Qed.

Definition overlaps (lo hi : Q) (r : DataRange) : Prop :=
  (inject_Z (r_start r) <= hi ∧ lo <= inject_Z (r_end r))%Q.

#[export] Instance overlaps_dec lo hi r : Decision (overlaps lo hi r).
Proof. unfold overlaps. apply _. Defined.

(** Around a range that covers a time, the others are before or after it. *)
Lemma apart_before rs key (i k : nat) r r' :
  apart rs → rs !! i = Some r → covers key r → rs !! k = Some r' →
  ((k < i)%nat → (inject_Z (r_end r') < key)%Q) ∧ ((i < k)%nat → (key < inject_Z (r_start r'))%Q).
Proof.
  intros [_ Hap] Hi [H1 H2] Hk. split; intros Hlt.
  - specialize (Hap k i r' r Hlt Hk Hi). zq key.
  - specialize (Hap i k r r' Hlt Hi Hk). zq key.
Qed.

Lemma apart_le rs (k : nat) r : apart rs → rs !! k = Some r → r_start r ≤ r_end r.
Proof. intros [Hle _] Hk. rewrite Forall_lookup in Hle. by eapply Hle. Qed.

Lemma slice_nat {A} (l : list A) (i j : nat) :
  (i ≤ S j ≤ length l)%nat →
  py_slice l (Z.of_nat i) (Z.of_nat j + 1) = take (S j - i) (drop i l).
Proof. intros Hij. rewrite <- py_slice_nat by done. f_equal. lia. Qed.

(** Between the ranges that cover the two ends lie exactly those that meet the
    interval. *)
Lemma overlaps_between rs lo hi (i j : nat) r r' :
  apart rs → (lo <= hi)%Q → rs !! i = Some r → covers lo r → rs !! j = Some r' → covers hi r' →
  (i ≤ j)%nat ∧ ∀ k x, rs !! k = Some x → overlaps lo hi x ↔ (i ≤ k < S j)%nat.
Proof.
  intros Hap Hle Hi Hr Hj Hr'. split.
  - destruct (decide (j < i)%nat) as [Hji|]; [|lia].
    pose proof (proj1 (apart_before _ _ _ _ _ _ Hap Hi Hr Hj) Hji). destruct Hr'. lra.
  - intros k x Hk. unfold overlaps.
    pose proof (apart_before _ _ _ _ _ _ Hap Hi Hr Hk) as [B1 B2].
    pose proof (apart_before _ _ _ _ _ _ Hap Hj Hr' Hk) as [C1 C2].
    pose proof (apart_le _ _ _ Hap Hk) as Hx. rewrite Zle_Qle in Hx. destruct Hr, Hr'.
    destruct (decide (k < i)%nat) as [Hki|]; [specialize (B1 Hki); split; [intros []; lra|lia]|].
    destruct (decide (j < k)%nat) as [Hjk|]; [specialize (C2 Hjk); split; [intros []; lra|lia]|].
    split; [lia|intros _]. split.
    + destruct (decide (k = j)) as [->|]; [by simplify_eq|]. specialize (C1 ltac:(lia)). lra.
    + destruct (decide (k = i)) as [->|]; [by simplify_eq|]. specialize (B2 ltac:(lia)). lra.
Qed.

(** [get_ranges] on ranges in order and apart, for an interval
    [start <= end]: when both ends fall inside ranges the result is exactly the
    ranges that meet the interval, in order; when only one does, every range
    that meets the interval is in the result; when neither does the result is
    empty, even if whole ranges lie inside the interval.  The binary search
    always ends and never indexes out of bounds. *)
Theorem get_ranges_spec (t : TimelineDataRange) (start end_ : Q) :
  apart (ranges t) → (start <= end_)%Q →
  (Exists (covers start) (ranges t) → Exists (covers end_) (ranges t) →
     get_ranges t start end_ = Ok (filter (overlaps start end_) (ranges t))) ∧
  (Exists (covers start) (ranges t) ∨ Exists (covers end_) (ranges t) →
     ∃ l, get_ranges t start end_ = Ok l ∧
       ∀ r, r ∈ ranges t → overlaps start end_ r → r ∈ l) ∧
  (¬ Exists (covers start) (ranges t) → ¬ Exists (covers end_) (ranges t) →
     get_ranges t start end_ = Ok []).
Proof.
  intros Hap Hle. unfold get_ranges. rewrite !Exists_exists.
  destruct (range_search_cases (ranges t) start Hap) as [[-> Hs]|(i & r & -> & Hi & Hr)];
  destruct (range_search_cases (ranges t) end_ Hap) as [[-> He]|(j & r' & -> & Hj & Hr')];
  cbn [mbind result_bind];
  rewrite ?(bool_decide_eq_true_2 (-1 = -1)) by done;
  rewrite ?(bool_decide_eq_false_2 (Z.of_nat _ = -1)) by lia; cbn [andb].
  - split_and!; [intros (x & Hx & Hc); by destruct (Hs x Hx)| |done].
    intros [(x & Hx & Hc)|(x & Hx & Hc)]; [by destruct (Hs x Hx)|by destruct (He x Hx)].
  - assert (∃ x, x ∈ ranges t ∧ covers end_ x) as Hex.
    { exists r'. split; [by eapply list_elem_of_lookup_2|done]. }
    split_and!; [intros (x & Hx & Hc); by destruct (Hs x Hx)| |done].
    intros _. eexists. split; [done|].
    intros x [k Hk]%list_elem_of_lookup [Hx1 Hx2].
    pose proof (lookup_lt_Some _ _ _ Hj). change 0 with (Z.of_nat 0).
    rewrite slice_nat by lia. rewrite drop_0. apply list_elem_of_lookup. exists k.
    rewrite lookup_take_lt; [done|]. destruct (decide (j < k)%nat); [|lia].
    pose proof (proj2 (apart_before _ _ _ _ _ _ Hap Hj Hr' Hk) ltac:(done)). lra.
  - assert (∃ x, x ∈ ranges t ∧ covers start x) as Hex.
    { exists r. split; [by eapply list_elem_of_lookup_2|done]. }
    split_and!; [intros _ (x & Hx & Hc); by destruct (He x Hx)| |done].
    intros _. eexists. split; [done|].
    intros x [k Hk]%list_elem_of_lookup [Hx1 Hx2].
    pose proof (lookup_lt_Some _ _ _ Hi). rewrite py_slice_from by lia.
    apply list_elem_of_lookup. exists (k - i)%nat. rewrite lookup_drop.
    destruct (decide (k < i)%nat); [|by replace (i + (k - i))%nat with k by lia].
    pose proof (proj1 (apart_before _ _ _ _ _ _ Hap Hi Hr Hk) ltac:(done)). lra.
  - destruct (overlaps_between _ _ _ _ _ _ _ Hap Hle Hi Hr Hj Hr') as [Hij Hov].
    pose proof (lookup_lt_Some _ _ _ Hj). rewrite slice_nat by lia.
    rewrite <- (filter_interval (overlaps start end_)) by done.
    assert (∃ x, x ∈ ranges t ∧ covers start x) as Hex.
    { exists r. split; [by eapply list_elem_of_lookup_2|done]. }
    split_and!; [done| |done]. intros _. eexists. split; [done|].
    intros x Hx Ho. by apply list_elem_of_filter.
Qed.

Definition sample_ranges : TimelineDataRange :=
  MkRanges "state" [MkRange 0 4 "idle"; MkRange 5 9 "tx"; MkRange 12 20 "idle"].

Lemma sample_apart : apart (ranges sample_ranges).
Proof.
  split; [repeat constructor; simpl; lia|].
  intros [|[|[|i]]] [|[|[|j]]] r r' Hij Hi Hj; simpl in *; simplify_eq/=; lia.
Qed.

Lemma get_ranges_spec_witness :
  get_ranges sample_ranges 3 15 =
    Ok [MkRange 0 4 "idle"; MkRange 5 9 "tx"; MkRange 12 20 "idle"] ∧
  get_ranges sample_ranges 10 11 = Ok [].
Proof.
  split.
  - rewrite (proj1 (get_ranges_spec sample_ranges 3 15 sample_apart ltac:(done)));
      [reflexivity|..]; apply Exists_exists.
    + exists (MkRange 0 4 "idle"). split; [by left|]. by split.
    + exists (MkRange 12 20 "idle"). split; [by right; right; left|]. by split.
  - apply (get_ranges_spec sample_ranges 10 11 sample_apart ltac:(done));
      intros (r & Hr & H1 & H2)%Exists_exists; repeat (apply elem_of_cons in Hr as [->|Hr];
        [first [by destruct H1|by destruct H2]|]); by apply elem_of_nil in Hr.
Defined.

(** Ranges inside the interval are lost when its ends fall in gaps. *)
Lemma get_ranges_loses_inner :
  get_ranges sample_ranges (-3) 25 = Ok [].
Proof. reflexivity. Qed.

(** [get_events] on strictly increasing events: the events with
    [start <= at <= end], in order, followed by the first event after [end]
    when no event is exactly at [end] and there is one. *)
Theorem get_events_spec (t : TimelineEvent) (start end_ : Q) :
  increasing (events t) → (start <= end_)%Q →
  get_events t start end_ =
  Ok (filter (λ e, start <= inject_Z (at_ e) ∧ inject_Z (at_ e) <= end_)%Q (events t) ++
      (if decide (Exists (λ e, inject_Z (at_ e) == end_)%Q (events t)) then []
       else take 1 (filter (λ e, end_ < inject_Z (at_ e))%Q (events t)))).
Proof.
  intros Hinc Hle. unfold get_events.
  destruct (event_search_spec (events t) start Hinc) as (i & -> & Hi & Hsi).
  destruct (event_search_spec (events t) end_ Hinc) as (j & -> & Hj & Hsj).
  cbn [mbind result_bind]. f_equal. unfold earlier in *.
  assert (i ≤ j)%nat as Hij.
  { destruct (decide (j < i)%nat) as [Hlt|]; [|lia].
    destruct (lookup_lt_is_Some_2 (events t) j) as [e He]; [lia|].
    pose proof (proj2 (Hsi j e He) Hlt). pose proof (Hsj j e He) as Hje. destruct (decide (inject_Z (at_ e) < end_)%Q) as [?%Hje|]; [lia|lra]. }
  assert (∀ k x, events t !! k = Some x → (end_ <= inject_Z (at_ x))%Q → (j ≤ k)%nat) as Hge.
  { intros k x Hx Hxe. destruct (decide (k < j)%nat) as [Hkj|]; [|lia].
    pose proof (proj2 (Hsj k x Hx) Hkj). lra. }
  assert (∀ k x, events t !! k = Some x → (start <= inject_Z (at_ x))%Q ↔ (i ≤ k)%nat) as Hsi'.
  { intros k x Hx. split; intros Hk.
    - destruct (decide (k < i)%nat) as [Hki|]; [|lia]. pose proof (proj2 (Hsi k x Hx) Hki). lra.
    - apply Qnot_lt_le. intros Hlt%(Hsi k x Hx). lia. }
  destruct (decide (Exists _ _)) as [Hex|Hex].
  - apply Exists_exists in Hex as (e & [k Hk]%list_elem_of_lookup & He).
    pose proof (Hge k e Hk ltac:(lra)) as Hjk. pose proof (lookup_lt_Some _ _ _ Hk).
    assert (k = j) as ->.
    { destruct (decide (j < k)%nat) as [Hlt|]; [|lia].
      destruct (lookup_lt_is_Some_2 (events t) j) as [e' He']; [lia|].
      pose proof (Hinc j k e' e Hlt He' Hk) as Hee. rewrite Zlt_Qlt in Hee.
      pose proof (proj1 (Hsj j e' He') ltac:(lra)). lia. }
    rewrite slice_nat, app_nil_r by lia.
    symmetry. apply filter_interval. intros k x Hx. rewrite (Hsi' k x Hx).
    destruct (Nat.lt_trichotomy k j) as [Hkj|[->|Hkj]].
    + pose proof (proj2 (Hsj k x Hx) Hkj). split; intros []; split; [done|lia|done|lra].
    + simplify_eq. split; intros []; split; [done|lia|done|lra].
    + pose proof (Hinc j k e x Hkj Hk Hx) as Hex. rewrite Zlt_Qlt in Hex.
      split; intros []; [lra|lia].
  - assert (∀ k x, events t !! k = Some x → (inject_Z (at_ x) <= end_)%Q ↔ (k < j)%nat) as Hend.
    { intros k x Hx. rewrite <- (Hsj k x Hx). split; [|lra]. intros Hle'.
      apply Qle_lteq in Hle' as [|Heq]; [done|]. destruct Hex.
      apply Exists_exists. exists x. split; [|done]. by eapply list_elem_of_lookup_2. }
    rewrite (filter_interval (λ e, start <= inject_Z (at_ e) ∧ inject_Z (at_ e) <= end_)%Q _ i j).
    2: { intros k x Hx. by rewrite (Hsi' k x Hx), (Hend k x Hx). }
    rewrite (filter_interval (λ e, end_ < inject_Z (at_ e))%Q _ j (length (events t))).
    2: { intros k x Hx. pose proof (Hend k x Hx) as Hk. apply lookup_lt_Some in Hx.
         split; [intros Hlt; split; [|done]|intros []; apply Qnot_le_lt; rewrite Hk; lia].
         destruct (decide (k < j)%nat) as [Hkj%Hk|]; [lra|lia]. }
    rewrite (take_ge (drop j _)) by (rewrite length_drop; lia).
    destruct (decide (j < length (events t))%nat).
    + rewrite slice_nat by lia. replace (S j - i)%nat with ((j - i) + 1)%nat by lia.
      rewrite <- take_take_drop. f_equal. rewrite drop_drop.
      by replace (i + (j - i))%nat with j by lia.
    + assert (j = length (events t)) as -> by lia. rewrite drop_all, app_nil_r.
      unfold py_slice. rewrite py_clamp_nat, py_clamp_ge by lia. done.
Qed.

Definition sample_events : TimelineEvent :=
  MkEvents "rx" [MkEvent 1 (VInt 7); MkEvent 4 (VInt 8); MkEvent 9 (VInt 9)].

Lemma get_events_spec_witness :
  get_events sample_events 1 5 = Ok [MkEvent 1 (VInt 7); MkEvent 4 (VInt 8); MkEvent 9 (VInt 9)].
Proof.
  rewrite (get_events_spec sample_events 1 5); [reflexivity| |done].
  intros [|[|[|i]]] [|[|[|j]]] e e' Hij Hi Hj; simpl in *; simplify_eq/=; lia.
Defined.

(** ** Colours *)

(** The colours of a list of names, as [main] looks them up. *)
Fixpoint lookup_colors (names : list string) (cs : Colors) : result exn (list Color * Colors) :=
  match names with
  | [] => Ok ([], cs)
  | n :: names' =>
      '(c, cs1) ← lookup_color n cs;
      '(l, cs2) ← lookup_colors names' cs1;
      Ok (c :: l, cs2)
  end.

Lemma lookup_colors_table names cs l cs' n c :
  lookup_colors names cs = Ok (l, cs') → table cs !! n = Some c → table cs' !! n = Some c.
Proof.
  revert cs l. induction names as [|m names IH]; intros cs l Hl Hn; simpl in Hl; [by res_inv|].
  destruct (lookup_color m cs) as [[c1 cs1]|] eqn:E; [|done]. simpl in Hl.
  destruct (lookup_colors names cs1) as [[l2 cs2]|] eqn:E2; [|done]. simpl in Hl. res_inv.
  eapply IH; [done|]. unfold lookup_color in E. destruct (table cs !! m) eqn:Em; [by res_inv|].
  destruct (last (defaults cs)); [|done]. res_inv. simpl.
  rewrite lookup_insert_ne; [done|]. intros ->. congruence.
Qed.

(** the colours of new names: as long as there are no more new names than
    default colours, each gets its own entry of the default list, taken from
    its end, and looking a name up again gives the same colour and changes
    nothing; one name more raises [IndexError]. *)
Theorem lookup_colors_spec (names : list string) (cs : Colors) :
  NoDup names → (∀ n, n ∈ names → table cs !! n = None) →
  ((length names ≤ length (defaults cs))%nat →
    ∃ cs', lookup_colors names cs = Ok (take (length names) (reverse (defaults cs)), cs') ∧
      ∀ i n c, names !! i = Some n → reverse (defaults cs) !! i = Some c →
        lookup_color n cs' = Ok (c, cs')) ∧
  ((length (defaults cs) < length names)%nat → lookup_colors names cs = Raise IndexError).
Proof.
  intros Hnd. revert cs. induction Hnd as [|n names Hn Hnd IH]; intros cs Hnew.
  { split; [|simpl; lia]. intros _. exists cs. split; [done|]. intros i n c Hi. done. }
  cbn [lookup_colors]. unfold lookup_color at 1 3.
  rewrite (Hnew n) by (by left).
  destruct (last (defaults cs)) as [c|] eqn:El.
  - apply last_Some in El as [ds Hds]. rewrite Hds, length_app, Nat.add_1_r. simpl.
    rewrite take_app_length, reverse_snoc.
    set (cs1 := MkColors (<[n:=c]> (table cs)) ds).
    destruct (IH cs1) as [IHok IHfail].
    { intros m Hm. simpl. rewrite lookup_insert_ne by (intros ->; done). apply Hnew. by right. }
    simpl in IHok, IHfail. split; intros Hlen.
    + destruct IHok as (cs' & Hl & Hc); [lia|]. rewrite Hl. simpl. exists cs'. split; [done|].
      intros [|i] m d Hm Hd; simpl in *; [|by apply (Hc i)]. simplify_eq.
      unfold lookup_color. rewrite (lookup_colors_table _ _ _ _ m d Hl); [done|].
      simpl. by rewrite lookup_insert_eq.
    + rewrite IHfail by lia. done.
  - apply last_None in El. rewrite El. simpl. split; [lia|done].
Qed.

Lemma lookup_colors_spec_witness :
  lookup_colors ["a"; "b"; "c"; "d"; "e"; "f"; "g"] (MkColors ∅ default_colors) =
    Raise IndexError.
Proof.
  apply lookup_colors_spec; [by apply (bool_decide_unpack _)|done|simpl; lia].
Defined.

(** ** Sorting *)
Lemma insert_by_perm {A} (cmp : A → A → Z) x l : insert_by cmp x l ≡ₚ x :: l.
Proof.
  induction l as [|y l IH]; [done|]. simpl. case_bool_decide; [|done]. rewrite IH. constructor.
Qed.

Lemma sort_by_perm {A} (cmp : A → A → Z) (l : list A) : sort_by cmp l ≡ₚ l.
Proof. induction l as [|x l IH]; [done|]. simpl. rewrite insert_by_perm. by rewrite IH. Qed.

(** The order a comparison by difference of keys sorts in. *)
Definition key_le {A} (key : A → Z) (x y : A) : Prop := key x ≤ key y.

Lemma insert_by_sorted {A} (cmp : A → A → Z) (key : A → Z) x l :
  (∀ a b, 0 < cmp a b ↔ key b < key a) →
  StronglySorted (key_le key) l → StronglySorted (key_le key) (insert_by cmp x l).
Proof.
  intros Hcmp Hl. induction Hl as [|y l Hl IH Hy]; simpl; [repeat constructor|].
  case_bool_decide as Hxy; rewrite Hcmp in Hxy.
  - constructor; [done|]. rewrite insert_by_perm. constructor; [unfold key_le; lia|done].
  - constructor; [by constructor|]. constructor; [unfold key_le; lia|].
    eapply Forall_impl; [exact Hy|]. unfold key_le. intros z. lia.
Qed.

Lemma sort_by_sorted {A} (cmp : A → A → Z) (key : A → Z) (l : list A) :
  (∀ a b, 0 < cmp a b ↔ key b < key a) → StronglySorted (key_le key) (sort_by cmp l).
Proof. intros Hcmp. induction l as [|x l IH]; [constructor|]. by apply (insert_by_sorted cmp). Qed.

Lemma ranges_cmp_key a b : 0 < ranges_cmp a b ↔ r_start b < r_start a.
Proof. unfold ranges_cmp. repeat case_bool_decide; lia. Qed.

Lemma events_cmp_key a b : 0 < events_cmp a b ↔ at_ b < at_ a.
Proof. unfold events_cmp. repeat case_bool_decide; lia. Qed.

(** ** What [read_data] stores *)

(** The elements stored under a name. *)
Definition under {A B} (name_of : A → string) (g : A → list B) (name : string) (l : list A) :
    list B := l ≫= λ x, if bool_decide (name_of x = name) then g x else [].

Lemma update_named_under {A B} (name_of : A → string) (g : A → list B) new f name key l b :
  (∀ x, name_of (f x) = name_of x) → name_of new = name → g new = [] →
  (∀ x, g (f x) ≡ₚ g x ++ b) →
  under name_of g key (update_named name_of new f name l) ≡ₚ
  under name_of g key l ++ (if bool_decide (name = key) then b else []).
Proof.
  intros Hname Hnew Hg Hf. unfold under.
  induction l as [|x l IH]; simpl.
  - rewrite Hname, Hnew, app_nil_r. case_bool_decide; [|done]. by rewrite Hf, Hg.
  - destruct (decide (name_of x = name)) as [Hx|Hx].
    + rewrite (bool_decide_eq_true_2 (name_of x = name)) by done. simpl. rewrite Hname, Hx.
      destruct (bool_decide (name = key)); [|by rewrite app_nil_r].
      rewrite Hf. solve_Permutation.
    + rewrite (bool_decide_eq_false_2 (name_of x = name)) by done. simpl. rewrite IH.
      by rewrite (assoc_L (++)).
Qed.

(** The same for a change that leaves what is selected alone. *)
Lemma update_named_unrelated {A B} (name_of : A → string) (g : A → list B) new f name key l :
  (∀ x, name_of (f x) = name_of x) → name_of new = name → g new = [] →
  (∀ x, g (f x) = g x) →
  under name_of g key (update_named name_of new f name l) ≡ₚ under name_of g key l.
Proof.
  intros Hname Hnew Hg Hf. rewrite (update_named_under _ _ _ _ _ _ _ []); try done.
  - destruct (bool_decide _); by rewrite app_nil_r.
  - intros x. by rewrite Hf, app_nil_r.
Qed.

Definition stored_ranges (t n : string) (ts : Timelines) : list DataRange :=
  under t_name (λ tl, under rs_name ranges n (t_ranges tl)) t ts.
Definition stored_str (t n : string) (ts : Timelines) : list Event :=
  under t_name (λ tl, under ev_name events n (event_str tl)) t ts.
Definition stored_int (t n : string) (ts : Timelines) : list Event :=
  under t_name (λ tl, under ev_name events n (event_int tl)) t ts.

(** What an entry contributes to each. *)
Definition range_of (t n : string) (e : entry) : list DataRange :=
  match e with
  | RangeEntry t' n' v a b => if bool_decide (t' = t ∧ n' = n) then [MkRange a b v] else []
  | _ => []
  end.
Definition str_of (t n : string) (e : entry) : list Event :=
  match e with
  | StringEntry t' n' v a => if bool_decide (t' = t ∧ n' = n) then [MkEvent a (VString v)] else []
  | _ => []
  end.
Definition int_of (t n : string) (e : entry) : list Event :=
  match e with
  | IntEntry t' n' v a => if bool_decide (t' = t ∧ n' = n) then [MkEvent a (VInt v)] else []
  | _ => []
  end.

Lemma if_both {A} (P Q : Prop) `{Decision P, Decision Q} (l : list A) :
  (if bool_decide P then (if bool_decide Q then l else []) else []) =
  (if bool_decide (P ∧ Q) then l else []).
Proof. repeat case_bool_decide; tauto. Qed.

Lemma add_entry_ranges t n e ts :
  stored_ranges t n (add_entry e ts) ≡ₚ stored_ranges t n ts ++ range_of t n e.
Proof.
  unfold stored_ranges, add_entry, get_timeline. destruct e as [t' n' v a b|t' n' v a|t' n' v a].
  - rewrite (update_named_under _ _ _ _ _ _ _ (if bool_decide (n' = n) then [MkRange a b v] else []));
      try done.
    + simpl. by rewrite if_both.
    + intros tl. simpl. by apply update_named_under.
  - simpl. rewrite app_nil_r. by apply update_named_unrelated.
  - simpl. rewrite app_nil_r. by apply update_named_unrelated.
Qed.

Lemma add_entry_str t n e ts :
  stored_str t n (add_entry e ts) ≡ₚ stored_str t n ts ++ str_of t n e.
Proof.
  unfold stored_str, add_entry, get_timeline. destruct e as [t' n' v a b|t' n' v a|t' n' v a].
  - simpl. rewrite app_nil_r. by apply update_named_unrelated.
  - rewrite (update_named_under _ _ _ _ _ _ _
      (if bool_decide (n' = n) then [MkEvent a (VString v)] else [])); try done.
    + simpl. by rewrite if_both.
    + intros tl. simpl. by apply update_named_under.
  - simpl. rewrite app_nil_r. by apply update_named_unrelated.
Qed.

Lemma add_entry_int t n e ts :
  stored_int t n (add_entry e ts) ≡ₚ stored_int t n ts ++ int_of t n e.
Proof.
  unfold stored_int, add_entry, get_timeline. destruct e as [t' n' v a b|t' n' v a|t' n' v a].
  - simpl. rewrite app_nil_r. by apply update_named_unrelated.
  - simpl. rewrite app_nil_r. by apply update_named_unrelated.
  - rewrite (update_named_under _ _ _ _ _ _ _
      (if bool_decide (n' = n) then [MkEvent a (VInt v)] else [])); try done.
    + simpl. by rewrite if_both.
    + intros tl. simpl. by apply update_named_under.
Qed.

Lemma under_fmap {A B} (name_of : A → string) (g : A → list B) (f : A → A) key l :
  (∀ x, name_of (f x) = name_of x) → (∀ x, g (f x) ≡ₚ g x) →
  under name_of g key (f <$> l) ≡ₚ under name_of g key l.
Proof.
  intros Hname Hf. unfold under. induction l as [|x l IH]; [done|]. simpl.
  rewrite IH, Hname. case_bool_decide; [by rewrite Hf|done].
Qed.

Definition entry_of_line (s : string) : option entry :=
  match match_range s with
  | Some e => Some e
  | None => match match_event_str s with Some e => Some e | None => match_event_int s end
  end.

Lemma read_line_timelines st s :
  (read_line st s).2 = match entry_of_line s with Some e => add_entry e st.2 | None => st.2 end.
Proof.
  unfold read_line, entry_of_line. destruct (match_range s); [done|].
  destruct (match_event_str s); [done|]. destruct (match_event_int s); [done|].
  by destruct (match_color s) as [[]|].
Qed.

(** The fold over the lines, seen through one selection. *)
Lemma read_lines_stored {A} (stored : Timelines → list A) (of_entry : entry → list A) ls st :
  (∀ e ts, stored (add_entry e ts) ≡ₚ stored ts ++ of_entry e) →
  stored (foldl read_line st ls).2 ≡ₚ stored st.2 ++ (omap entry_of_line ls ≫= of_entry).
Proof.
  intros Hadd. revert st. induction ls as [|s ls IH]; intros st; [by rewrite app_nil_r|].
  cbn [foldl]. rewrite IH, read_line_timelines. cbn [omap list_omap].
  destruct (entry_of_line s) as [e|]; [|done]. rewrite Hadd. cbn. by rewrite <- app_assoc.
Qed.

Lemma update_named_names {A} (name_of : A → string) new f name l :
  (∀ x, name_of (f x) = name_of x) → name_of new = name → NoDup (name_of <$> l) →
  NoDup (name_of <$> update_named name_of new f name l) ∧
  ∀ m, m ∈ name_of <$> update_named name_of new f name l → m = name ∨ m ∈ name_of <$> l.
Proof.
  intros Hf Hnew. induction l as [|x l IH]; simpl; intros Hnd.
  - rewrite Hf, Hnew. split; [apply NoDup_singleton|]. intros m Hm.
    apply list_elem_of_singleton in Hm. by left.
  - apply NoDup_cons in Hnd as [Hx Hnd]. destruct (IH Hnd) as [IH1 IH2].
    case_bool_decide as Hn; simpl.
    + rewrite Hf. split; [by constructor|]. intros m Hm. by right.
    + split.
      * constructor; [|done]. intros [?|?]%IH2; [congruence|done].
      * intros m [->|Hm]%elem_of_cons; [right; by left|]. destruct (IH2 m Hm); [by left|].
        right. by right.
Qed.

Lemma read_lines_names ls st :
  NoDup (t_name <$> st.2) → NoDup (t_name <$> (foldl read_line st ls).2).
Proof.
  revert st. induction ls as [|s ls IH]; intros st Hst; [done|]. cbn [foldl]. apply IH.
  rewrite read_line_timelines. destruct (entry_of_line s) as [e|]; [|done].
  unfold add_entry, get_timeline. destruct e; by apply update_named_names.
Qed.

Lemma sort_ranges_stored n tl :
  under rs_name ranges n (t_ranges (sort_timeline tl)) ≡ₚ under rs_name ranges n (t_ranges tl).
Proof. apply under_fmap; [done|]. intros x. apply sort_by_perm. Qed.

Lemma sort_events_stored n l :
  under ev_name events n (sort_events <$> l) ≡ₚ under ev_name events n l.
Proof. apply under_fmap; [done|]. intros x. apply sort_by_perm. Qed.

(** [read_data] files every entry under its names: after reading a text,
    the ranges stored under a timeline and a range name, and the events of
    either kind under theirs, are exactly those of the lines that name them,
    whatever their order and however often a name comes back; each list is
    sorted by time, and no timeline is listed twice. *)
Theorem read_data_contents (text t n : string) (ts := (read_data text).2)
    (es := omap entry_of_line (lines text)) :
  stored_ranges t n ts ≡ₚ (es ≫= range_of t n) ∧
  stored_str t n ts ≡ₚ (es ≫= str_of t n) ∧
  stored_int t n ts ≡ₚ (es ≫= int_of t n) ∧
  NoDup (t_name <$> ts) ∧
  ∀ tl, tl ∈ ts →
    (∀ rs, rs ∈ t_ranges tl → StronglySorted (key_le r_start) (ranges rs)) ∧
    (∀ ev, ev ∈ event_str tl ++ event_int tl → StronglySorted (key_le at_) (events ev)).
Proof.
  set (st := foldl read_line (MkColors ∅ default_colors, []) (lines text)).
  change ts with (sort_timelines st.2). split_and!.
  - unfold stored_ranges, sort_timelines. rewrite under_fmap; [|done|apply sort_ranges_stored].
    exact (read_lines_stored (stored_ranges t n) (range_of t n) (lines text)
      (MkColors ∅ default_colors, []) (λ e ts, add_entry_ranges t n e ts)).
  - unfold stored_str, sort_timelines. rewrite under_fmap; [|done|intros; apply sort_events_stored].
    exact (read_lines_stored (stored_str t n) (str_of t n) (lines text)
      (MkColors ∅ default_colors, []) (λ e ts, add_entry_str t n e ts)).
  - unfold stored_int, sort_timelines. rewrite under_fmap; [|done|intros; apply sort_events_stored].
    exact (read_lines_stored (stored_int t n) (int_of t n) (lines text)
      (MkColors ∅ default_colors, []) (λ e ts, add_entry_int t n e ts)).
  - unfold sort_timelines. rewrite <- list_fmap_compose.
    apply (read_lines_names (lines text) (MkColors ∅ default_colors, [])). constructor.
  - intros tl (tl0 & -> & _)%list_elem_of_fmap. split.
    + intros rs (rs0 & -> & _)%list_elem_of_fmap. apply sort_by_sorted, ranges_cmp_key.
    + intros ev. simpl. rewrite <- fmap_app. intros (ev0 & -> & _)%list_elem_of_fmap.
      apply sort_by_sorted, events_cmp_key.
Qed.

Example read_data_1 :
  (read_data ("range n0 mac idle 4 7" +:+ nl +:+ ("# comment" +:+ nl +:+
     ("range n0 mac tx 1 3" +:+ nl +:+ ("event-int n0 rx 5 2" +:+ nl))))).2 =
  [MkTimeline "n0" [MkRanges "mac" [MkRange 1 3 "tx"; MkRange 4 7 "idle"]] []
     [MkEvents "rx" [MkEvent 2 (VInt 5)]]].
Proof. reflexivity. Qed.

(** ** Bounds *)
Definition within (b : Z * Z) (x : Z) : Prop := b.1 ≤ x ≤ b.2.

(** [b'] is at least as wide as [b]. *)
Definition wider (b b' : Z * Z) : Prop := b'.1 ≤ b.1 ∧ b.2 ≤ b'.2.

#[export] Instance wider_refl : Reflexive wider.
Proof. intros b. split; lia. Qed.
#[export] Instance wider_trans : Transitive wider.
Proof. intros b1 b2 b3 [??] [??]. split; lia. Qed.

Lemma widen_wider b b' : wider b (widen b b') ∧ wider b' (widen b b').
Proof. unfold wider, widen. simpl. repeat case_bool_decide; lia. Qed.

Lemma foldl_widen {A} (f : A → Z * Z) l b :
  wider b (foldl (λ b x, widen b (f x)) b l) ∧
  ∀ x, x ∈ l → wider (f x) (foldl (λ b x, widen b (f x)) b l).
Proof.
  revert b. induction l as [|y l IH]; intros b.
  { split; [done|]. intros x Hx. by apply elem_of_nil in Hx. }
  cbn [foldl]. destruct (IH (widen b (f y))) as [IH1 IH2].
  destruct (widen_wider b (f y)) as [H1 H2]. split; [by etransitivity|].
  intros x [->|Hx]%elem_of_cons; [by etransitivity|by apply IH2].
Qed.

Lemma wider_within b b' x : wider b b' → within b x → within b' x.
Proof. unfold wider, within. lia. Qed.

Lemma sorted_ends {A} (key : A → Z) (l : list A) x y z :
  StronglySorted (key_le key) l → head l = Some x → last l = Some y → z ∈ l →
  key x ≤ key z ≤ key y.
Proof.
  intros Hs Hx Hy Hz. split.
  - destruct Hs as [|x' l Hs Hl]; [done|]. simpl in Hx. simplify_eq.
    apply elem_of_cons in Hz as [->|Hz]; [lia|]. rewrite Forall_forall in Hl. by apply Hl.
  - apply last_Some in Hy as [l' ->]. clear Hx.
    apply elem_of_app in Hz as [Hz|Hz%list_elem_of_singleton]; [|subst; lia].
    induction l' as [|w l' IH]; [by apply elem_of_nil in Hz|]. simpl in Hs.
    inversion_clear Hs as [|? ? Hs' Hl]. apply elem_of_cons in Hz as [->|Hz]; [|by apply IH].
    rewrite Forall_forall in Hl. apply Hl, elem_of_app. right. by left.
Qed.

Lemma timeline_bounds_parts tl :
  (∀ rs, rs ∈ t_ranges tl → wider (ranges_bounds rs) (timeline_bounds tl)) ∧
  (∀ ev, ev ∈ event_str tl ++ event_int tl → wider (events_bounds ev) (timeline_bounds tl)).
Proof.
  unfold timeline_bounds.
  set (b1 := foldl _ (0, 0) (t_ranges tl)). set (b2 := foldl _ b1 (event_str tl)).
  destruct (foldl_widen ranges_bounds (t_ranges tl) (0, 0)) as [_ H1].
  destruct (foldl_widen events_bounds (event_str tl) b1) as [H2 H2'].
  destruct (foldl_widen events_bounds (event_int tl) b2) as [H3 H3'].
  fold b1 in H1. fold b2 in H2, H2'. split.
  - intros rs Hrs. etransitivity; [by apply H1|]. by etransitivity.
  - intros ev [Hev|Hev]%elem_of_app; [|by apply H3']. etransitivity; [by apply H2'|done].
Qed.

(** the bounds the viewer opens with: for timelines whose lists are sorted
    (as [read_data] leaves them) and whose ranges also end in order, every
    range and every event lies between the bounds, and so does time 0. *)
Theorem timelines_bounds_cover (ts : Timelines) (b := timelines_bounds ts) :
  (∀ tl, tl ∈ ts →
    (∀ rs, rs ∈ t_ranges tl → StronglySorted (key_le r_start) (ranges rs) ∧
       StronglySorted (key_le r_end) (ranges rs) ∧
       Forall (λ r, r_start r ≤ r_end r) (ranges rs)) ∧
    (∀ ev, ev ∈ event_str tl ++ event_int tl → StronglySorted (key_le at_) (events ev))) →
  within b 0 ∧
  (∀ tl rs r, tl ∈ ts → rs ∈ t_ranges tl → r ∈ ranges rs →
     within b (r_start r) ∧ within b (r_end r)) ∧
  (∀ tl ev e, tl ∈ ts → ev ∈ event_str tl ++ event_int tl → e ∈ events ev → within b (at_ e)).
Proof.
  intros Hts. subst b. destruct (foldl_widen timeline_bounds ts (0, 0)) as [H0 Hb].
  fold (timelines_bounds ts) in H0, Hb. split_and!.
  - apply (wider_within (0, 0)); [done|]. unfold within. simpl. lia.
  - intros tl rs r Htl Hrs Hr. destruct (Hts tl Htl) as [Hrs' _].
    destruct (Hrs' rs Hrs) as (Hs1 & Hs2 & Hle).
    assert (wider (ranges_bounds rs) (timeline_bounds tl)) as Hw.
    { by apply timeline_bounds_parts. }
    assert (within (ranges_bounds rs) (r_start r) ∧ within (ranges_bounds rs) (r_end r)) as [W1 W2].
    { unfold ranges_bounds. destruct (ranges rs) as [|r0 l] eqn:E; [by apply elem_of_nil in Hr|].
      destruct (last (r0 :: l)) as [r1|] eqn:El; [|by apply last_None in El].
      destruct (sorted_ends r_start _ r0 r1 r Hs1 eq_refl El Hr).
      destruct (sorted_ends r_end _ r0 r1 r Hs2 eq_refl El Hr).
      rewrite Forall_forall in Hle. specialize (Hle r Hr). unfold within. simpl. lia. }
    split; (eapply wider_within; [|done]); (etransitivity; [exact Hw|by apply Hb]).
  - intros tl ev e Htl Hev He. destruct (Hts tl Htl) as [_ Hev'].
    specialize (Hev' ev Hev).
    assert (wider (events_bounds ev) (timeline_bounds tl)) as Hw.
    { by apply timeline_bounds_parts. }
    assert (within (events_bounds ev) (at_ e)) as W.
    { unfold events_bounds. destruct (events ev) as [|e0 l] eqn:E; [by apply elem_of_nil in He|].
      destruct (last (e0 :: l)) as [e1|] eqn:El; [|by apply last_None in El].
      destruct (sorted_ends at_ _ e0 e1 e Hev' eq_refl El He). unfold within. simpl. lia. }
    eapply wider_within; [|exact W]. etransitivity; [exact Hw|by apply Hb].
Qed.

Lemma timelines_bounds_cover_witness :
  within (timelines_bounds [MkTimeline "n0" [sample_ranges] [] [sample_events]]) 20.
Proof.
  refine (proj2 (proj1 (proj2 (timelines_bounds_cover
    [MkTimeline "n0" [sample_ranges] [] [sample_events]] _)) _ sample_ranges
    (MkRange 12 20 "idle") _ _ _)).
  - intros tl ->%list_elem_of_singleton. split.
    + intros rs ->%list_elem_of_singleton. simpl.
      split_and!; repeat (constructor; simpl; try (unfold key_le; simpl; lia)).
    + intros ev ->%list_elem_of_singleton.
      repeat (constructor; simpl; try (unfold key_le; simpl; lia)).
  - by apply list_elem_of_singleton.
  - by left.
  - right; right; by left.
Defined.
