(* ===== verification/Cflags.v ===== *)
(** * Compiler flags of a build profile ([waf-tools/cflags.py])

    The traits of the three compilers, the profiles, and [configure], which
    extends the environment of the build. *)

From S2P Require Import Prelude PyStr.

Local Open Scope string_scope.
Local Open Scope list_scope.

(** The three traits objects. *)
Inductive compiler := gcc | icc | msvc.

#[export] Instance compiler_eq_dec : EqDecision compiler.
Proof. solve_decision. Defined.

(** Cumulative lists of warnings, per level. *)
Definition warnings_flags (c : compiler) : list (list string) :=
  match c with
  | gcc => [["-Wall"]; ["-Werror"]; ["-Wextra"]]
  | icc => [[]; []; ["-Wall"]]
  | msvc => [["/W2"]; ["/WX"]; ["/Wall"]]
  end.

(** The loop [for l in range(level)], from [l] on, with [n] rounds left. *)
Fixpoint warnings_loop (flags : list (list string)) (l n : nat) (warnings : list string) :
    list string :=
  match n with
  | 0 => warnings
  | S n' =>
      match flags !! l with
      | Some ws => warnings_loop flags (S l) n' (warnings ++ ws)
      | None => warnings
      end
  end.

Definition get_warnings_flags (c : compiler) (level : Z) : list string :=
  warnings_loop (warnings_flags c) 0 (Z.to_nat level) [].

(** [None] is the value of a function that ends without [return]. *)
Definition get_optimization_flags (c : compiler) (level : Z) : option (list string) :=
  match c, level with
  | (gcc | icc), 0%Z => Some ["-O0"]
  | (gcc | icc), 1%Z => Some ["-O"]
  | (gcc | icc), 2%Z => Some ["-O2"]
  | (gcc | icc), 3%Z => Some ["-O3"]
  | msvc, 0%Z => Some ["/Od"]
  | msvc, 1%Z => Some []
  | msvc, 2%Z => Some ["/O2"]
  | msvc, 3%Z => Some ["/Ox"]
  | _, _ => None
  end.

Definition get_debug_flags (c : compiler) (level : Z) : option (list string * list string) :=
  if bool_decide (level = 0%Z) then
    Some (match c with msvc => [] | _ => ["-g0"] end, ["NDEBUG"])
  else if bool_decide (level = 1%Z) then
    Some (match c with msvc => ["/ZI"; "/RTC1"] | _ => ["-g"] end, [])
  else if bool_decide (2 ≤ level)%Z then
    Some (match c with msvc => ["/ZI"; "/RTC1"] | _ => ["-ggdb"; "-g3"] end, ["_DEBUG"])
  else None.

Definition compiler_mapping : gmap string compiler :=
  {["gcc" := gcc; "g++" := gcc; "msvc" := msvc; "icc" := icc; "icpc" := icc]}.

(** Profile name: optimization, warnings and debug level. *)
Definition profiles : gmap string (Z * Z * Z) :=
  {["default" := (2, 1, 1)%Z; "debug" := (0, 2, 3)%Z; "release" := (3, 1, 0)%Z]}.

(** The variables of [conf.env] the tool uses. *)
Record conf_env := ConfEnv {
  COMPILER_CC : string;
  COMPILER_CXX : string;
  CCFLAGS : list string;
  CCDEFINES : list string;
  CXXFLAGS : list string;
  CXXDEFINES : list string }.

(** [env['...'] or None]. *)
Definition or_none (s : string) : option string :=
  if bool_decide (s = "") then None else Some s.

Definition lookup_compiler (cc : option string) : option compiler :=
  cc ← cc; compiler_mapping !! cc.

(** The nested [try]: the C compiler first. *)
Definition compiler_of (cc cxx : option string) : option compiler :=
  match lookup_compiler cc with Some c => Some c | None => lookup_compiler cxx end.

Definition is_nil {A} (l : list A) : bool := match l with [] => true | _ => false end.

Definition configure (build_profile : string) (env : conf_env) : result exn conf_env :=
  let cc := or_none (COMPILER_CC env) in
  let cxx := or_none (COMPILER_CXX env) in
  if bool_decide (cc = None) && bool_decide (cxx = None) then
    Raise (WafError "neither COMPILER_CC nor COMPILER_CXX are defined; maybe the compiler_cc or compiler_cxx tool has not been configured yet?")
  else
    match compiler_of cc cxx with
    | None => Ok env
    | Some compiler =>
        levels ← of_option KeyError (profiles !! build_profile);
        let '(opt_level, warn_level, dbg_level) := levels in
        optimizations ← of_option TypeError (get_optimization_flags compiler opt_level);
        dbg ← of_option TypeError (get_debug_flags compiler dbg_level);
        let '(debug, debug_defs) := dbg in
        let warnings := get_warnings_flags compiler warn_level in
        let env1 :=
          if bool_decide (cc ≠ None) && is_nil (CCFLAGS env) then
            ConfEnv (COMPILER_CC env) (COMPILER_CXX env)
              (CCFLAGS env ++ optimizations ++ debug ++ warnings) (CCDEFINES env ++ debug_defs)
              (CXXFLAGS env) (CXXDEFINES env)
          else env in
        Ok (if bool_decide (cxx ≠ None) && is_nil (CXXFLAGS env1) then
              ConfEnv (COMPILER_CC env1) (COMPILER_CXX env1) (CCFLAGS env1) (CCDEFINES env1)
                (CXXFLAGS env1 ++ optimizations ++ debug ++ warnings)
                (CXXDEFINES env1 ++ debug_defs)
            else env1)
    end.

(** ** Lemmas *)
Lemma warnings_loop_spec flags l n ws :
  warnings_loop flags l n ws = ws ++ concat (take n (drop l flags)).
Proof.
  revert l ws. induction n as [|n IH]; intros l ws; simpl; [by rewrite app_nil_r|].
  destruct (flags !! l) as [w|] eqn:E.
  - rewrite IH. rewrite (drop_S _ _ _ E). simpl. by rewrite app_assoc.
  - apply lookup_ge_None in E. rewrite drop_ge by done. simpl. by rewrite app_nil_r.
Qed.

(** Every level a profile uses has flags. *)
Lemma profile_levels profile ol wl dl c :
  profiles !! profile = Some (ol, wl, dl) →
  ∃ o d dd, get_optimization_flags c ol = Some o ∧ get_debug_flags c dl = Some (d, dd).
Proof.
  unfold profiles. intros Hp.
  apply lookup_insert_Some in Hp as [[_ Hp]|[_ Hp]];
    [|apply lookup_insert_Some in Hp as [[_ Hp]|[_ Hp]];
      [|apply lookup_singleton_Some in Hp as [_ Hp]]];
    simplify_eq; destruct c; simpl; eauto.
Qed.

(** ** Properties *)

(** warnings are cumulative: a level gives the flags of the levels below it
    and its own, in order, so that a higher level extends a lower one; beyond
    the last level nothing is added. *)
Theorem warnings_cumulative (c : compiler) (n m : Z) :
  get_warnings_flags c n = concat (take (Z.to_nat n) (warnings_flags c)) ∧
  ((n ≤ m)%Z → ∃ more, get_warnings_flags c m = get_warnings_flags c n ++ more) ∧
  ((3 ≤ n)%Z → get_warnings_flags c n = concat (warnings_flags c)).
Proof.
  assert (∀ n, get_warnings_flags c n = concat (take (Z.to_nat n) (warnings_flags c))) as Hs.
  { intros k. unfold get_warnings_flags. by rewrite warnings_loop_spec. }
  rewrite !Hs. split_and!; [done|..].
  - intros Hnm. exists (concat (take (Z.to_nat m - Z.to_nat n) (drop (Z.to_nat n) (warnings_flags c)))).
    rewrite <- concat_app, take_take_drop. do 2 f_equal. lia.
  - intros Hn. rewrite take_ge; [done|]. destruct c; simpl; lia.
Qed.

Lemma warnings_cumulative_witness :
  ∃ more, get_warnings_flags gcc 3 = get_warnings_flags gcc 1 ++ more.
Proof. apply (warnings_cumulative gcc 1 3). lia. Defined.

(** [configure] respects the user: flags set in the environment are never
    changed, and neither is anything about a compiler that is not configured;
    empty flags of a configured compiler become the optimisation, debug and
    warning flags of the profile, in this order, and its defines are extended;
    for the three profiles the only failure is the absence of both compilers. *)
Theorem configure_spec (profile : string) (env env' : conf_env) :
  is_Some (profiles !! profile) →
  (COMPILER_CC env = "" → COMPILER_CXX env = "" →
     ∃ msg, configure profile env = Raise (WafError msg)) ∧
  (COMPILER_CC env ≠ "" ∨ COMPILER_CXX env ≠ "" → is_ok (configure profile env) = true) ∧
  (configure profile env = Ok env' →
     COMPILER_CC env' = COMPILER_CC env ∧ COMPILER_CXX env' = COMPILER_CXX env ∧
     (COMPILER_CC env = "" ∨ CCFLAGS env ≠ [] →
        CCFLAGS env' = CCFLAGS env ∧ CCDEFINES env' = CCDEFINES env) ∧
     (COMPILER_CXX env = "" ∨ CXXFLAGS env ≠ [] →
        CXXFLAGS env' = CXXFLAGS env ∧ CXXDEFINES env' = CXXDEFINES env) ∧
     (COMPILER_CC env ≠ "" → COMPILER_CXX env ≠ "" → CCFLAGS env = [] → CXXFLAGS env = [] →
        CCFLAGS env' = CXXFLAGS env')).
Proof.
  intros [[[ol wl] dl] Hp].
  assert (∀ c, ∃ o d dd, get_optimization_flags c ol = Some o ∧ get_debug_flags c dl = Some (d, dd))
    as Hlevels by (intros c; by eapply profile_levels).
  destruct env as [a b cf cd xf xd]. unfold configure, or_none. simpl. rewrite Hp.
  destruct (decide (a = "")) as [Ha|Ha], (decide (b = "")) as [Hb|Hb];
    rewrite ?(bool_decide_eq_true_2 (a = "") Ha), ?(bool_decide_eq_true_2 (b = "") Hb),
      ?(bool_decide_eq_false_2 (a = "") Ha), ?(bool_decide_eq_false_2 (b = "") Hb); simpl.
  { split_and!; [intros; by eexists|tauto|done]. }
  all: (split; [done|]); destruct (compiler_of _ _) as [c|];
    [|split; [done|]; intros; res_inv; simpl; split_and!; by intros; subst];
    destruct (Hlevels c) as (o & d & dd & -> & ->); simpl;
    destruct cf, xf; simpl; (split; [done|]); intros; res_inv; simpl; split_and!;
    try done; naive_solver.
Qed.

Lemma configure_spec_witness :
  configure "debug" (ConfEnv "gcc" "g++" ["-O1"] [] [] []) =
    Ok (ConfEnv "gcc" "g++" ["-O1"] [] ["-O0"; "-ggdb"; "-g3"; "-Wall"; "-Werror"] ["_DEBUG"]) ∧
  is_ok (configure "debug" (ConfEnv "gcc" "g++" ["-O1"] [] [] [])) = true.
Proof.
  split; [reflexivity|].
  apply (configure_spec "debug" (ConfEnv "gcc" "g++" ["-O1"] [] [] []) (ConfEnv "" "" [] [] [] []));
    [by eexists|by left].
Defined.
