(* ===== verification/Wutils.v ===== *)
(** * Running built programs ([wutils.py])

    Relative paths, the search for a program among the build's task
    generators, the environment and the launch of a program.  The build objects
    of waf ([bld], [Options]), [shlex.split], [os.path.abspath] and the
    processes themselves are arguments. *)

From S2P Require Import Prelude PyStr Ns3rc.
From Stdlib Require Import Ascii.

Local Open Scope string_scope.
Local Open Scope list_scope.

(** ** [get_command_template] and [relpath] *)

(** [template or '%s'] followed by the arguments. *)
Definition get_command_template (command_template : string) (arguments : list string) : string :=
  foldl (λ cmd arg, cmd +:+ " " +:+ arg)
    (if bool_decide (command_template = "") then "%s" else command_template) arguments.

(** [os.path.commonprefix] of two lists. *)
Fixpoint commonprefix (l k : list string) : list string :=
  match l, k with
  | x :: l', y :: k' => if bool_decide (x = y) then x :: commonprefix l' k' else []
  | _, _ => []
  end.

(** [os.path.join(l)] of a non-empty list. *)
Definition join_all (l : list string) : string :=
  match l with [] => "" | p :: l' => foldl path_join p l' end.

(** The components of the relative path between two split absolute paths. *)
Definition rel_list (start_list path_list : list string) : list string :=
  let i := length (commonprefix start_list path_list) in
  replicate (length start_list - i) ".." ++ drop i path_list.

Section Build.
(** [os.path.abspath]. *)
Context (abspath : string → string).

Definition relpath (path start : string) : result exn string :=
  if bool_decide (path = "") then Raise (ValueError "no path specified")
  else
    let start_list := split "/" (abspath start) in
    let path_list := split "/" (abspath path) in
    let l := rel_list start_list path_list in
    Ok (if bool_decide (l = []) then "." else join_all l).

(** ** [find_program] *)

(** What is read of a task generator: [obj.path.abspath()],
    [obj.path.abspath(env)] and [obj.target]. *)
Record task_gen := TaskGen {
  is_ns3_program : bool;
  src_path : string;
  bld_path : string;
  target : string }.

Definition in_launch_dir (launch_dir : string) (obj : task_gen) : bool :=
  startswith launch_dir (src_path obj) || startswith launch_dir (bld_path obj).

Definition program_names (launch_dir : string) (obj : task_gen) : result exn (list string) :=
  r ← relpath (src_path obj) launch_dir; Ok [target obj; path_join r (target obj)].

Fixpoint find_program_loop (launch_dir program_name : string) (found_programs : list string)
    (tasks : list task_gen) : result exn task_gen :=
  match tasks with
  | [] => Raise (ValueError ("program '" +:+ program_name +:+
            "' not found; available programs are: " +:+ print_list found_programs))
  | obj :: tasks' =>
      if negb (is_ns3_program obj) then
        find_program_loop launch_dir program_name found_programs tasks'
      else if negb (in_launch_dir launch_dir obj) then
        find_program_loop launch_dir program_name found_programs tasks'
      else
        names ← program_names launch_dir obj;
        if bool_decide (program_name ∈ names) then Ok obj
        else find_program_loop launch_dir program_name (found_programs ++ names) tasks'
  end.

Definition find_program (tasks : list task_gen) (launch_dir program_name : string) :
    result exn task_gen :=
  find_program_loop (abspath launch_dir) program_name [] tasks.
End Build.

(** ** [get_proc_env] *)
Inductive sys_platform := linux2 | darwin | win32 | cygwin | freebsd | unknown.

Definition pathvar (p : sys_platform) : string :=
  match p with
  | linux2 | freebsd | unknown => "LD_LIBRARY_PATH"
  | darwin => "DYLD_LIBRARY_PATH"
  | win32 | cygwin => "PATH"
  end.

(** [os.pathsep]. *)
Definition pathsep (p : sys_platform) : string :=
  match p with win32 => ";" | _ => ":" end.

(** [proc_env[var] = pathsep.join(dirs + [proc_env[var]])], or without the old
    value when there is none. *)
Definition prepend_paths (sep var : string) (dirs : list string) (env : environ) : environ :=
  match env !! var with
  | Some v => <[var := join sep (dirs ++ [v])]> env
  | None => <[var := join sep dirs]> env
  end.

Definition get_proc_env (p : sys_platform) (os_environ : environ) (os_env : option environ)
    (ns3_module_path ns3_executable_path : list string) (pymoddir pyvizdir : string) : environ :=
  let proc_env := match os_env with Some e => e ∪ os_environ | None => os_environ end in
  let proc_env := prepend_paths (pathsep p) (pathvar p) ns3_module_path proc_env in
  let proc_env := prepend_paths (pathsep p) "PYTHONPATH" [pymoddir; pyvizdir] proc_env in
  prepend_paths (pathsep p) "PATH" ns3_executable_path proc_env.

(** ** [run_argv] *)

(** The options and variables it reads. *)
Record run_options := RunOptions {
  valgrind : bool;
  command_template : string;
  env_VALGRIND : string;
  env_PYTHON : string }.

Section Running.
(** What a process does: its return code and the lines of its standard
    error. *)
Context (popen : list string → Z * list string).
(** The names and numbers of the [signal] module, in enumeration order. *)
Context (signal_vars : list (string * Z)).

Definition is_signal_name (name : string) : bool :=
  bool_decide (3 < String.length name)%nat && startswith "SIG" name &&
  negb (startswith "SIG_" name).

Fixpoint signal_name (retval : Z) (vars : list (string * Z)) : option string :=
  match vars with
  | [] => None
  | (name, val) :: vars' =>
      if is_signal_name name && bool_decide (val = - retval)%Z then Some name
      else signal_name retval vars'
  end.

(** [if retval: ... return retval]. *)
Definition check_retval (argv : list string) (retval : Z) : result exn Z :=
  if bool_decide (retval = 0%Z) then Ok retval
  else
    match (if bool_decide (retval < 0)%Z then signal_name retval signal_vars else None) with
    | Some signame =>
        Raise (WafError ("Command " +:+ print_list argv +:+ " terminated with signal " +:+
          signame +:+ "."))
    | None =>
        Raise (WafError ("Command " +:+ print_list argv +:+ " exited with code " +:+
          pretty retval))
    end.

Definition run_argv (o : run_options) (argv : list string) (force_no_valgrind : bool) :
    result exn Z :=
  if valgrind o && negb force_no_valgrind then
    if negb (bool_decide (command_template o = "")) then
      Raise (WafError "Options --command-template and --valgrind are conflicting")
    else if bool_decide (env_VALGRIND o = "") then Raise (WafError "valgrind is not installed")
    else
      let argv := [env_VALGRIND o; "--leak-check=full"; "--show-reachable=yes";
                   "--error-exitcode=1"] ++ argv in
      let '(retval, stderr) := popen argv in
      let error := existsb (contains "== LEAK SUMMARY") stderr in
      check_retval argv (if bool_decide (retval = 0%Z) && error then 1%Z else retval)
  else check_retval argv (popen argv).1.
End Running.

(** ** [get_run_program] and the callers *)

(** [template % (x,)] for a template with [%s] and [%%]; a template without
    exactly one [%s] raises. *)
Fixpoint format_loop (template x : string) : result exn (nat * string) :=
  match template with
  | "" => Ok (0, "")
  | String "%" (String "s" t) => '(n, r) ← format_loop t x; Ok (S n, x +:+ r)
  | String "%" (String "%" t) => '(n, r) ← format_loop t x; Ok (n, String "%" r)
  | String "%" _ => Raise (ValueError "unsupported format character")
  | String c t => '(n, r) ← format_loop t x; Ok (n, String c r)
  end.

Definition format1 (template x : string) : result exn string :=
  '(n, r) ← format_loop template x;
  if bool_decide (n = 1) then Ok r else Raise TypeError.

(** [tmpl.replace('\\', '\\\\')]. *)
Fixpoint double_backslash (s : string) : string :=
  match s with
  | "" => ""
  | String c s' =>
      if bool_decide (c = "\"%char) then String c (String c (double_backslash s'))
      else String c (double_backslash s')
  end.

(** [except ValueError, ex: raise WafError(str(ex))]. *)
Definition value_error_to_waf {A} (r : result exn A) : result exn A :=
  match r with Raise (ValueError m) => Raise (WafError m) | _ => r end.

Section Programs.
Context (abspath : string → string) (shlex_split : string → list string).
Context (tasks : list task_gen) (launch_dir : string).
(** [obj.path.find_or_declare(obj.target).abspath()]. *)
Context (program_path : task_gen → string).
Context (popen : list string → Z * list string) (signal_vars : list (string * Z)).
Context (o : run_options).

Definition get_run_program (program_string : string) (template : option string) :
    result exn (string * list string) :=
  if bool_decide (template = None) || bool_decide (template = Some "%s") then
    let argv := shlex_split program_string in
    program_name ← of_option IndexError (head argv);
    obj ← value_error_to_waf (find_program abspath tasks launch_dir program_name);
    Ok (program_name, program_path obj :: tail argv)
  else
    obj ← value_error_to_waf (find_program abspath tasks launch_dir program_string);
    tmpl ← format1 (default "" template) (program_path obj);
    Ok (program_string, shlex_split (double_backslash tmpl)).

Definition visual_argument : string :=
  "--SimulatorImplementationType=ns3::VisualSimulatorImpl".

Definition run_program (program_string : string) (template : option string)
    (visualize : bool) : result exn Z :=
  '(_, execvec) ← get_run_program program_string template;
  run_argv popen signal_vars o (execvec ++ if visualize then [visual_argument] else []) false.

Definition run_python_program (program_string : string) (visualize : bool) : result exn Z :=
  let execvec := shlex_split program_string ++ if visualize then [visual_argument] else [] in
  run_argv popen signal_vars o (env_PYTHON o :: execvec) false.
End Programs.

(** ** Following a relative path *)

(** One component after another, from the components of a directory. *)
Fixpoint follow (dir l : list string) : list string :=
  match l with
  | [] => dir
  | c :: l' =>
      if bool_decide (c = "..") then follow (take (pred (length dir)) dir) l'
      else follow (dir ++ [c]) l'
  end.

Lemma commonprefix_spec l k :
  take (length (commonprefix l k)) l = commonprefix l k ∧
  take (length (commonprefix l k)) k = commonprefix l k.
Proof.
  revert k. induction l as [|x l IH]; intros [|y k]; simpl; try done.
  case_bool_decide as Hxy; [|done]. subst y. simpl. destruct (IH k) as [-> ->]. done.
Qed.

Lemma follow_up dir n :
  (n ≤ length dir)%nat → ∀ l, follow dir (replicate n ".." ++ l) = follow (take (length dir - n) dir) l.
Proof.
  revert dir. induction n as [|n IH]; intros dir Hn l.
  - by rewrite Nat.sub_0_r, take_ge.
  - cbn [replicate app follow]. rewrite bool_decide_eq_true_2 by done.
    rewrite IH by (rewrite length_take; lia). rewrite length_take, take_take. f_equal. f_equal. lia.
Qed.

Lemma follow_down dir l : Forall (λ c, c ≠ "..") l → follow dir l = dir ++ l.
Proof.
  intros Hl. revert dir. induction Hl as [|c l Hc _ IH]; intros dir; simpl; [by rewrite app_nil_r|].
  rewrite bool_decide_eq_false_2 by done. rewrite IH, <- app_assoc. done.
Qed.

(** ** Properties *)

(** the relative path leads there: following the components [relpath]
    computes from the start directory gives the target's components, for any
    two directories; it goes up exactly to the deepest common directory. *)
Theorem relpath_follows (start_list path_list : list string) :
  Forall (λ c, c ≠ "..") path_list →
  follow start_list (rel_list start_list path_list) = path_list.
Proof.
  intros Hp. unfold rel_list. destruct (commonprefix_spec start_list path_list) as [Hs Hk].
  set (i := length (commonprefix start_list path_list)) in *.
  assert (i ≤ length start_list)%nat as Hi.
  { rewrite <- Hs in *. subst i. apply (f_equal length) in Hs. rewrite length_take in Hs. lia. }
  rewrite follow_up by lia. rewrite follow_down.
  - replace (length start_list - (length start_list - i))%nat with i by lia.
    rewrite Hs, <- Hk. apply take_drop.
  - by apply Forall_drop.
Qed.

Lemma relpath_follows_witness :
  follow ["ns3"; "build"; "debug"] (rel_list ["ns3"; "build"; "debug"] ["ns3"; "src"; "wifi"])
  = ["ns3"; "src"; "wifi"].
Proof.
  apply relpath_follows. repeat constructor; by apply (bool_decide_unpack _).
Defined.

(** [find_program] returns the first program of the build, in the order of
    its task generators, that is an ns-3 program under the launch directory and
    goes by the name asked for (its target or its path relative to the launch
    directory); when there is none it raises [ValueError]. *)
Theorem find_program_first (abspath : string → string) (tasks : list task_gen)
    (launch_dir program_name : string)
    (match_ := λ obj, is_ns3_program obj = true ∧
       in_launch_dir (abspath launch_dir) obj = true ∧
       ∃ names, program_names abspath (abspath launch_dir) obj = Ok names ∧ program_name ∈ names) :
  Forall (λ obj, src_path obj ≠ "") tasks →
  (∀ obj, find_program abspath tasks launch_dir program_name = Ok obj ↔
     ∃ l1 l2, tasks = l1 ++ obj :: l2 ∧ match_ obj ∧ Forall (λ x, ¬ match_ x) l1) ∧
  ((Forall (λ x, ¬ match_ x) tasks) ↔
     ∃ m, find_program abspath tasks launch_dir program_name = Raise (ValueError m)).
Proof.
  unfold find_program. generalize (@nil string) as found. intros found Hsrc. revert found.
  induction Hsrc as [|obj tasks Hobj Hsrc IH]; intros found.
  { split; [|split; [intros _; by eexists|constructor]]. intros obj. split; [done|].
    intros ([|? ?] & l2 & Heq & _); done. }
  assert (Hnames : ∃ names, program_names abspath (abspath launch_dir) obj = Ok names).
  { unfold program_names, relpath. rewrite bool_decide_eq_false_2 by done. simpl. by eexists. }
  destruct Hnames as [names Hnames]. cbn [find_program_loop].
  assert (Hskip : ¬ match_ obj → ∀ found',
    (∀ x, find_program_loop abspath (abspath launch_dir) program_name found' tasks = Ok x ↔
       ∃ l1 l2, obj :: tasks = l1 ++ x :: l2 ∧ match_ x ∧ Forall (λ x, ¬ match_ x) l1) ∧
    (Forall (λ x, ¬ match_ x) (obj :: tasks) ↔
       ∃ m, find_program_loop abspath (abspath launch_dir) program_name found' tasks
            = Raise (ValueError m))).
  { intros Hno found'. destruct (IH found') as [IH1 IH2]. split.
    - intros x. rewrite IH1. split.
      + intros (l1 & l2 & -> & Hx & Hl). exists (obj :: l1), l2. split_and!; [done..|by constructor].
      + intros ([|y l1] & l2 & Heq & Hx & Hl); simplify_eq/=.
        inversion_clear Hl. by exists l1, l2.
    - rewrite Forall_cons, <- IH2. tauto. }
  destruct (is_ns3_program obj) eqn:E1; simpl; [|apply Hskip; intros (? & _); congruence].
  destruct (in_launch_dir _ obj) eqn:E2; simpl; [|apply Hskip; intros (_ & ? & _); congruence].
  rewrite Hnames. simpl. case_bool_decide as Hin.
  - assert (Hm : match_ obj) by (split_and!; [done..|by exists names]). split.
    + intros x. split.
      * intros [= <-]. by exists [], tasks.
      * intros ([|y l1] & l2 & Heq & Hx & Hl); simplify_eq/=; [done|].
        inversion_clear Hl. done.
    + split; [|by intros [m ?]]. intros Hf. by inversion_clear Hf.
  - apply Hskip. intros (_ & _ & names' & Hn & Hin'). congruence.
Qed.

Definition sample_tasks : list task_gen :=
  [TaskGen true "/ns3/src/wifi" "/ns3/build/src/wifi" "wifi-ap";
   TaskGen true "/ns3/examples" "/ns3/build/examples" "udp-echo"].

Lemma find_program_first_witness :
  ∃ m, find_program (λ p, p) sample_tasks "/ns3/src" "udp-echo" = Raise (ValueError m).
Proof.
  apply (find_program_first (λ p, p) sample_tasks "/ns3/src" "udp-echo").
  - repeat constructor; done.
  - repeat constructor.
    + intros (_ & _ & names & Hn & Hin). vm_compute in Hn. simplify_eq.
      by apply (bool_decide_pack _) in Hin.
    + intros (_ & Hin & _). vm_compute in Hin. done.
Defined.

(** [run_argv] never hides a failure: it returns 0 or raises [WafError],
    and returns 0 only if the process did and, under valgrind, no line of its
    standard error announces a leak; asking for valgrind together with a
    command template, or without valgrind installed, raises before anything is
    started. *)
Theorem run_argv_safe (popen : list string → Z * list string) (signal_vars : list (string * Z))
    (o : run_options) (argv : list string) (force : bool)
    (r := run_argv popen signal_vars o argv force)
    (full := if valgrind o && negb force
             then [env_VALGRIND o; "--leak-check=full"; "--show-reachable=yes";
                   "--error-exitcode=1"] ++ argv else argv) :
  (r = Ok 0%Z ∨ ∃ m, r = Raise (WafError m)) ∧
  (r = Ok 0%Z → (popen full).1 = 0%Z ∧
     (valgrind o && negb force = true →
        command_template o = "" ∧ env_VALGRIND o ≠ "" ∧
        ∀ line, line ∈ (popen full).2 → contains "== LEAK SUMMARY" line = false)).
Proof.
  assert (Hc : ∀ a v, (check_retval signal_vars a v = Ok 0%Z ∧ v = 0%Z) ∨
    ∃ m, check_retval signal_vars a v = Raise (WafError m)).
  { intros a v. unfold check_retval. case_bool_decide as Hv; [left; by subst|right].
    destruct (if bool_decide (v < 0)%Z then _ else None); by eexists. }
  subst r full. unfold run_argv. destruct (valgrind o && negb force).
  - destruct (bool_decide (command_template o = "")) eqn:Et; simpl;
      [|split; [right; by eexists|done]]. apply bool_decide_eq_true in Et.
    destruct (bool_decide (env_VALGRIND o = "")) eqn:Ev; [split; [right; by eexists|done]|].
    apply bool_decide_eq_false in Ev.
    destruct (popen _) as [rv lines]. simpl.
    destruct (Hc (env_VALGRIND o :: "--leak-check=full" :: "--show-reachable=yes" ::
      "--error-exitcode=1" :: argv)
      (if bool_decide (rv = 0%Z) && existsb (contains "== LEAK SUMMARY") lines then 1%Z else rv))
      as [[Hr Hv]|[m Hr]]; rewrite Hr; [|split; [right; by eexists|done]].
    split; [by left|]. intros _. case_bool_decide as Hz; simpl in Hv; [|done].
    destruct (existsb _ lines) eqn:El; [done|]. split; [done|]. intros _. split_and!; [done..|].
    intros line Hin. destruct (contains _ line) eqn:Ec; [|done].
    assert (existsb (contains "== LEAK SUMMARY") lines = true); [|congruence].
    apply existsb_exists. exists line. split; [by apply list_elem_of_In|done].
  - destruct (Hc argv (popen argv).1) as [[-> Hv]|[m ->]]; [|split; [right; by eexists|done]].
    split; [by left|]. intros _. by split.
Qed.

Lemma run_argv_safe_witness :
  run_argv (λ _, (0%Z, [])) [] (RunOptions true "" "/usr/bin/valgrind" "python") ["prog"] false
    = Ok 0%Z ∧
  command_template (RunOptions true "" "/usr/bin/valgrind" "python") = "".
Proof.
  split; [reflexivity|].
  apply (run_argv_safe (λ _, (0%Z, [])) [] (RunOptions true "" "/usr/bin/valgrind" "python")
    ["prog"] false); reflexivity.
Defined.
