(* ===== verification/Runner.v ===== *)
(** * The scheduler of the build

    [monkey_patch_Runner_start] of [wutils.py] (lines 236-320) replaces the loop
    that hands the tasks of a build to the worker threads of waf.  The methods
    it calls are those of [Parallel] and [TaskConsumer] in [waflib/Runner.py],
    and [TaskBase.process] and [Task.runnable_status] of [waflib/Task.py], of
    the waf that the repository carries.  A task is a number.  [exec] makes one move of the main thread or
    of a consumer, each with at most one access to what they share ([stop],
    [error], [hasrun], the two queues), so the runs of [step] are the
    interleavings of the program.  The progress counters ([total],
    [tsk.position]) and the messages are left out. *)

From S2P Require Import Prelude.
From Stdlib Require Import Wellfounded.

(** ** Tasks *)
Inductive hasrun := NOT_RUN | MISSING | CRASHED | EXCEPTION | SKIPPED | SUCCESS.
Inductive task_status := ASK_LATER | SKIP_ME | RUN_ME.

#[export] Instance hasrun_eq_dec : EqDecision hasrun.
Proof. solve_decision. Defined.
#[export] Instance status_eq_dec : EqDecision task_status.
Proof. solve_decision. Defined.

(** How [run] and [post_run] of a task end; [post_run] may note [MISSING]
    before it raises [WafError]. *)
Inductive task_end := Succeeds | ReturnsError | Throws | PostThrows | PostWafError (missing : bool).

#[export] Instance outcome_eq_dec : EqDecision task_end.
Proof. solve_decision. Defined.

Definition hasrun_after (oc : task_end) : hasrun :=
  match oc with
  | Succeeds => SUCCESS
  | ReturnsError => CRASHED
  | Throws | PostThrows => EXCEPTION
  | PostWafError missing => if missing then MISSING else NOT_RUN
  end.

(** A thread in [process]: about to test [stop], to run, to set [stop] and to
    note the error in [error_handler], to put the task on [out]. *)
Inductive task_pc :=
  | TestStop (t : nat) | Run (t : nat) | Handle (t : nat) | Append (t : nat) | Put (t : nat).

Inductive message := Task (t : nat) | Setq.
Inductive item := Done (t : nat) | Self.

(** A consumer: [setq] waits in its own queue; in [ready.get()]; in [process];
    in the [setq] of [free_task_pool]; back on a queue of its own. *)
Inductive consumer := Attaching | Idle | Working (p : task_pc) | Leaving | Detached.

(** Where [get_out] returns to. *)
Inductive return_point := CountLoop | EmptyLoop | ErrorLoop | FreeLoop (n : nat).

Inductive main_pc :=
  | Top | RefillCount | RefillEmpty | RefillMove | Next
  | TestHasrun (t : nat) | TestStopped (t : nat) | AskStatus (t : nat) | Raised (t : nat)
  | Handler (t : nat) | AppendError (t : nat) | Skip (t : nat) | Dispatch (t : nat)
  | Process (p : task_pc)
  | GetOut (k : return_point) | GotOut (x : item) (k : return_point)
  | TestError | TestAssert | PutSetq (n : nat) | GetSetq (n : nat)
  | Finished | Failed (e : exn).

(** ** The state of the scheduler *)
Record queues := Queues {
  outstanding : list nat; frozen : list nat;
  biter : list (list nat) }.          (** what the iterator has yet to yield *)
Record tallies := Counters { count : Z; processed : Z; deadlock : option Z }.
Record shared := Shared { stop : bool; error : list nat; runs : gmap nat hasrun }.
Record channels := Channels { ready : list message; out : list item }.
(** The tasks [add_more_tasks] added, those that began to run and those the
    loop is through with. *)
Record log := Log { added : list nat; started : list nat; retired : list nat }.

Record state := State {
  main : main_pc;
  qs : queues;
  cs : tallies;
  sh : shared;
  ch : channels;
  pool : option (list consumer);
  lg : log }.

Definition goto (p : main_pc) (s : state) : state :=
  State p (qs s) (cs s) (sh s) (ch s) (pool s) (lg s).
Definition set_queues (q : queues) (s : state) : state :=
  State (main s) q (cs s) (sh s) (ch s) (pool s) (lg s).
Definition set_counters (c : tallies) (s : state) : state :=
  State (main s) (qs s) c (sh s) (ch s) (pool s) (lg s).
Definition set_shared (h : shared) (s : state) : state :=
  State (main s) (qs s) (cs s) h (ch s) (pool s) (lg s).
Definition set_channels (c : channels) (s : state) : state :=
  State (main s) (qs s) (cs s) (sh s) c (pool s) (lg s).
Definition set_pool (p : option (list consumer)) (s : state) : state :=
  State (main s) (qs s) (cs s) (sh s) (ch s) p (lg s).
Definition set_log (l : log) (s : state) : state :=
  State (main s) (qs s) (cs s) (sh s) (ch s) (pool s) l.

Definition run_state (s : state) (t : nat) : hasrun := default NOT_RUN (runs (sh s) !! t).
Definition set_hasrun (t : nat) (h : hasrun) (s : state) : state :=
  set_shared (Shared (stop (sh s)) (error (sh s)) (<[t:=h]> (runs (sh s)))) s.
Definition set_stop (s : state) : state :=
  set_shared (Shared true (error (sh s)) (runs (sh s))) s.
Definition append_error (t : nat) (s : state) : state :=
  set_shared (Shared (stop (sh s)) (error (sh s) ++ [t]) (runs (sh s))) s.
Definition count_processed (s : state) : state :=
  set_counters (Counters (count (cs s)) (processed (cs s) + 1) (deadlock (cs s))) s.
Definition add_count (n : Z) (s : state) : state :=
  set_counters (Counters (count (cs s) + n) (processed (cs s)) (deadlock (cs s))) s.
Definition put_ready (m : message) (s : state) : state :=
  set_channels (Channels (ready (ch s) ++ [m]) (out (ch s))) s.
Definition put_out (x : item) (s : state) : state :=
  set_channels (Channels (ready (ch s)) (out (ch s) ++ [x])) s.
Definition note_started (t : nat) (s : state) : state :=
  set_log (Log (added (lg s)) (started (lg s) ++ [t]) (retired (lg s))) s.
Definition note_retired (t : nat) (s : state) : state :=
  set_log (Log (added (lg s)) (started (lg s)) (retired (lg s) ++ [t])) s.

Definition GAP : Z := 10.

(** [biter.next()]: the iterator of the build skips the empty groups, and
    yields empty lists at its end. *)
Fixpoint next_group (gs : list (list nat)) : list nat * list (list nat) :=
  match gs with
  | [] => ([], [])
  | [] :: gs' => next_group gs'
  | g :: gs' => (g, gs')
  end.

Section Scheduler.
(** [self.numjobs], [bld.keep] (the number of [-k] options), [tsk.run_after] and
    [tsk.more_tasks]; [inherits] tells the tasks with the [runnable_status] of
    [Task] from those whose class or object has its own, such as the suid and
    doxygen tasks of [wscript] and the commands without inputs of
    [waf-tools/misc.py]. *)
Context (numjobs : nat) (keep : Z) (inherits : nat → bool).
Context (run_after more_tasks : nat → list nat).

Definition add_more_tasks (t : nat) (s : state) : state :=
  set_log (Log (added (lg s) ++ more_tasks t) (started (lg s)) (retired (lg s)))
  (set_queues (Queues (outstanding (qs s) ++ more_tasks t) (frozen (qs s)) (biter (qs s))) s).

(** ** [TaskBase.process] *)
Definition task_exec (oc : task_end) (p : task_pc) (s : state) : option task_pc * state :=
  match p with
  | TestStop t => if stop (sh s) then (Some (Put t), s) else (Some (Run t), note_started t s)
  | Run t =>
      (Some (if bool_decide (oc = Succeeds) then Put t else Handle t),
       if bool_decide (hasrun_after oc = NOT_RUN) then s else set_hasrun t (hasrun_after oc) s)
  | Handle t => (Some (Append t), if bool_decide (keep = 0%Z) then set_stop s else s)
  | Append t => (Some (Put t), append_error t s)
  | Put t => (None, put_out (Done t) s)
  end.

(** ** [TaskConsumer.loop] *)
Definition consumer_exec (oc : task_end) (i : nat) (l : list consumer) (s : state) :
    option state :=
  let become c := set_pool (Some (<[i:=c]> l)) in
  match l !! i with
  | Some Attaching => Some (become Idle s)
  | Some Idle =>
      match ready (ch s) with
      | [] => None
      | m :: r =>
          Some (become (match m with Task t => Working (TestStop t) | Setq => Leaving end)
            (set_channels (Channels r (out (ch s))) s))
      end
  | Some (Working p) =>
      let '(p', s') := task_exec oc p s in
      Some (become (match p' with Some q => Working q | None => Idle end) s')
  | Some Leaving => Some (become Detached (put_out Self s))
  | Some Detached | None => None
  end.

(** ** [Parallel.get_out], after the queue has given it an item *)
Definition got_out (x : item) (s : state) : state :=
  let s1 := match x with
            | Done t => note_retired t (if stop (sh s) then s else add_more_tasks t s)
            | Self => s
            end in
  add_count (-1) s1.

Definition resume (k : return_point) : main_pc :=
  match k with
  | CountLoop => RefillCount | EmptyLoop => RefillMove | ErrorLoop => TestError
  | FreeLoop n => GetSetq n
  end.

(** ** [start] with [refill_task_list] and [free_task_pool]

    [front] is the random choice of [postpone]. *)
Definition refill_exec (s : state) : option state :=
  let q := qs s in
  let c := cs s in
  match main s with
  | RefillCount =>
      Some (goto (if bool_decide (Z.of_nat numjobs * GAP < count c)%Z then GetOut CountLoop
                  else RefillEmpty) s)
  | RefillEmpty =>
      match outstanding q with
      | _ :: _ => Some (goto Next s)
      | [] =>
          if bool_decide (count c ≠ 0%Z) then Some (goto (GetOut EmptyLoop) s)
          else match frozen q with
               | [] => Some (goto RefillMove s)
               | _ :: _ =>
                   if bool_decide (deadlock c = Some (processed c))
                   then Some (goto (Failed (WafError "Deadlock detected")) s)
                   else Some (goto RefillMove
                          (set_counters (Counters (count c) (processed c)
                                           (Some (processed c))) s))
               end
      end
  | RefillMove =>
      match frozen q with
      | _ :: _ =>
          Some (goto RefillEmpty
            (set_queues (Queues (outstanding q ++ frozen q) [] (biter q)) s))
      | [] =>
          if bool_decide (count c = 0%Z)
          then let '(g, gs) := next_group (biter q) in
               Some (goto Next (set_queues (Queues (outstanding q ++ g) [] gs) s))
          else Some (goto RefillEmpty s)
      end
  | _ => None
  end.

Definition postpone (front : bool) (t : nat) (s : state) : state :=
  let q := qs s in
  set_queues (Queues (outstanding q) (if front then t :: frozen q else frozen q ++ [t])
                (biter q)) s.

(** [Task.runnable_status] asks to wait while a task of [run_after] has not run
    ([t.hasrun] is 0 only then).  What it answers next, and what a task with a
    method of its own answers, depends on files and signatures: [st], with
    [None] when the method raises. *)
Definition runnable_status (st : option task_status) (t : nat) (s : state) :
    option task_status :=
  if inherits t && existsb (λ x, bool_decide (run_state s x = NOT_RUN)) (run_after t)
  then Some ASK_LATER else st.

Definition ask_status (st : option task_status) (front : bool) (t : nat) (s : state) :
    option state :=
  match runnable_status st t s with
  | None => Some (goto (Raised t) s)
  | Some ASK_LATER => Some (goto Top (postpone front t s))
  | Some SKIP_ME => Some (goto (Skip t) s)
  | Some RUN_ME => Some (goto (Dispatch t) s)
  end.

Definition status_raised (t : nat) (s : state) : state :=
  let s1 := note_retired t (count_processed s) in
  if negb (stop (sh s)) && bool_decide (keep ≠ 0%Z)
  then goto Top (set_hasrun t SKIPPED (if bool_decide (keep = 1%Z) then set_stop s1 else s1))
  else goto (Handler t) (set_hasrun t EXCEPTION s1).

Definition add_task (t : nat) (s : state) : state :=
  put_ready (Task t)
    (match pool s with
     | None => set_pool (Some (replicate numjobs Attaching)) s
     | Some _ => s
     end).

Definition dispatch_task (t : nat) (s : state) : state :=
  let s1 := add_count 1 (count_processed s) in
  if bool_decide (numjobs = 1) then goto (Process (TestStop t)) s1
  else goto Top (add_task t s1).

Definition pool_size (s : state) : nat := match pool s with Some l => length l | None => 0 end.

Definition start_exec (st : option task_status) (front : bool) (oc : task_end) (s : state) :
    option state :=
  let q := qs s in
  let stopped := stop (sh s) in
  match main s with
  | Top => Some (goto (if stopped then TestError else RefillCount) s)
  | RefillCount | RefillEmpty | RefillMove => refill_exec s
  | Next =>
      match outstanding q with
      | [] => Some (goto (if bool_decide (count (cs s) = 0%Z) then TestError else Top) s)
      | t :: l => Some (goto (TestHasrun t) (set_queues (Queues l (frozen q) (biter q)) s))
      end
  | TestHasrun t =>
      Some (if bool_decide (run_state s t = NOT_RUN) then goto (TestStopped t) s
            else goto Top (note_retired t (count_processed s)))
  | TestStopped t => Some (if stopped then goto TestError (note_retired t s) else goto (AskStatus t) s)
  | AskStatus t => ask_status st front t s
  | Raised t => Some (status_raised t s)
  | Handler t =>
      Some (goto (AppendError t) (if bool_decide (keep = 0%Z) then set_stop s else s))
  | AppendError t => Some (goto Top (append_error t s))
  | Skip t =>
      Some (goto Top (note_retired t (add_more_tasks t (set_hasrun t SKIPPED (count_processed s)))))
  | Dispatch t => Some (dispatch_task t s)
  | Process p =>
      let '(p', s') := task_exec oc p s in
      Some (goto (match p' with Some r => Process r | None => Top end) s')
  | GetOut k =>
      match out (ch s) with
      | [] => None
      | x :: o => Some (goto (GotOut x k) (set_channels (Channels (ready (ch s)) o) s))
      end
  | GotOut x k => Some (goto (resume k) (got_out x s))
  | TestError =>
      Some (goto (if bool_decide (error (sh s) ≠ [] ∧ count (cs s) ≠ 0%Z)
                  then GetOut ErrorLoop else TestAssert) s)
  | TestAssert =>
      Some (goto (if bool_decide (count (cs s) = 0%Z) || stopped
                  then match pool s with Some l => PutSetq (length l) | None => Finished end
                  else Failed AssertionError) s)
  | PutSetq (S n) => Some (goto (PutSetq n) (put_ready Setq s))
  | PutSetq O => Some (goto (GetSetq (pool_size s)) s)
  | GetSetq (S n) => Some (goto (GetOut (FreeLoop n)) s)
  | GetSetq O => Some (goto Finished s)
  | Finished | Failed _ => None
  end.

Inductive action :=
  | Main (st : option task_status) (front : bool) (oc : task_end)
  | Consumer (i : nat) (oc : task_end).

Definition exec (a : action) (s : state) : option state :=
  match a with
  | Main st front oc => start_exec st front oc s
  | Consumer i oc => match pool s with Some l => consumer_exec oc i l s | None => None end
  end.

Definition step (s s' : state) : Prop := ∃ a, exec a s = Some s'.

(** [Parallel(bld, j)], with the groups of tasks of the build. *)
Definition init (groups : list (list nat)) : state :=
  State Top (Queues [] [] groups) (Counters 0 1 None) (Shared false [] ∅) (Channels [] [])
    None (Log [] [] []).

Fixpoint run (l : list action) (s : state) : option state :=
  match l with [] => Some s | a :: l' => exec a s ≫= run l' end.
End Scheduler.

(** ** Where the tasks and the signals are *)
Definition task_of (p : task_pc) : nat :=
  match p with TestStop t | Run t | Handle t | Append t | Put t => t end.
Definition message_tasks (m : message) : list nat := match m with Task t => [t] | Setq => [] end.
Definition item_tasks (x : item) : list nat := match x with Done t => [t] | Self => [] end.
Definition working_pc (c : consumer) : list task_pc := match c with Working p => [p] | _ => [] end.

Definition held (m : main_pc) : list nat :=
  match m with
  | TestHasrun t | TestStopped t | AskStatus t | Raised t | Skip t | Dispatch t => [t]
  | _ => []
  end.
Definition main_process (m : main_pc) : list task_pc := match m with Process p => [p] | _ => [] end.
Definition in_hand (m : main_pc) : list item := match m with GotOut x _ => [x] | _ => [] end.
Definition consumers (s : state) : list consumer := default [] (pool s).

(** The threads in [process], and the tasks handed out and not yet got back. *)
Definition pcs (s : state) : list task_pc :=
  main_process (main s) ++ (consumers s ≫= working_pc).
Definition in_flight (s : state) : list nat :=
  (in_hand (main s) ≫= item_tasks) ++ (ready (ch s) ≫= message_tasks) ++
  (task_of <$> pcs s) ++ (out (ch s) ≫= item_tasks).

Definition setq_of (m : message) : nat := match m with Setq => 1 | Task _ => 0 end.
Definition self_of (x : item) : nat := match x with Self => 1 | Done _ => 0 end.
Definition leaving_of (c : consumer) : nat := match c with Leaving => 1 | _ => 0 end.
Definition detached_of (c : consumer) : nat := match c with Detached => 1 | _ => 0 end.

Definition setqs (s : state) : nat := sum_list_with setq_of (ready (ch s)).
Definition selfs (s : state) : nat := sum_list_with self_of (out (ch s)).
Definition leaving (s : state) : nat := sum_list_with leaving_of (consumers s).
Definition detached (s : state) : nat := sum_list_with detached_of (consumers s).

(** The main thread in [free_task_pool]: signals it has yet to put and to get. *)
Definition freeing (m : main_pc) : bool :=
  match m with
  | PutSetq _ | GetSetq _ | GetOut (FreeLoop _) | GotOut _ (FreeLoop _) | Finished => true
  | _ => false
  end.
Definition to_put (m : main_pc) : nat := match m with PutSetq n => n | _ => 0 end.
Definition to_get (size : nat) (m : main_pc) : nat :=
  match m with
  | PutSetq _ => size
  | GetSetq n | GotOut _ (FreeLoop n) => n
  | GetOut (FreeLoop n) => S n
  | _ => 0
  end.

(** The main thread is out of the loop of [start]. *)
Definition left_loop (m : main_pc) : bool :=
  match m with
  | TestError | TestAssert | GetOut ErrorLoop | GotOut _ ErrorLoop => true
  | _ => freeing m
  end.

(** A move [H] with the state it leads to computed, and the pool split at the
    consumer that moved. *)
Ltac compute_move H :=
  unfold exec, start_exec, refill_exec, ask_status, runnable_status, status_raised,
    dispatch_task, add_task,
    got_out, add_more_tasks, consumer_exec, task_exec in H; simpl in H;
  repeat (case_match; simplify_eq/=); simplify_eq/=;
  try match goal with
  | Hi : ?l !! ?i = Some _ |- context [<[?i:=_]> ?l] =>
      let l1 := fresh "l1" in let l2 := fresh "l2" in let Hins := fresh in
      apply insert_split in Hi as (l1 & l2 & -> & Hins); rewrite ?Hins in *; clear Hins
  end;
  repeat match goal with
  | Hb : bool_decide _ = true |- _ => apply bool_decide_eq_true_1 in Hb
  | Hb : bool_decide _ = false |- _ => apply bool_decide_eq_false_1 in Hb
  end.

Ltac destruct_state s :=
  destruct s as [m [outs froz bit] [cnt prc ddl] [stp err rns] [rdy outq] po [ad sta ret]].

Ltac destruct_main m :=
  destruct m as [| | | | |t|t|t|t|t|t|t|t|pc|rp|x rp| | |n|n| |e].

(** Every case of a move. *)
Ltac step_cases :=
  match goal with
  | H : exec _ _ _ _ _ ?a ?s = Some ?s' |- _ =>
      destruct_state s;
      destruct a as [st front oc|i oc];
      [match goal with m : main_pc |- _ => destruct_main m end
      |match goal with po : option (list consumer) |- _ => destruct po as [l|] end;
       [|by simpl in H]];
      compute_move H
  end.

(** The counts of a computed state. *)
Ltac compute_counts :=
  unfold setqs, selfs, leaving, detached, in_flight, pcs, consumers, pool_size in *;
  csimpl in *;
  rewrite ?sum_list_with_app, ?bind_app, ?fmap_app, ?length_app, ?length_fmap in *;
  csimpl in *; rewrite ?length_app, ?length_fmap in *.

Lemma fresh_pool n :
  sum_list_with leaving_of (replicate n Attaching) = 0 ∧
  sum_list_with detached_of (replicate n Attaching) = 0 ∧
  replicate n Attaching ≫= working_pc = [].
Proof. by induction n. Qed.

(** ** The invariant of the counters

    Outside [free_task_pool] no signal is under way and [count] is the number of
    tasks handed out; [get_out] is called only when there is one. *)
Definition calm (s : state) : Prop :=
  setqs s + selfs s + leaving s + detached s + sum_list_with self_of (in_hand (main s)) = 0 ∧
  count (cs s) = Z.of_nat (length (in_flight s)).

Definition waiting (m : main_pc) : bool :=
  match m with GetOut (CountLoop | EmptyLoop | ErrorLoop) => true | _ => false end.

(** Nothing left to hand out, or to wait for. *)
Definition exhausted (s : state) : Prop :=
  outstanding (qs s) = [] ∧ frozen (qs s) = [] ∧ biter (qs s) = [].
Definition spent (s : state) : Prop := exhausted s ∧ length (in_flight s) = 0.

(** In [free_task_pool] every consumer is asked once to leave, and every one
    that left has sent its signal. *)
Definition signals_ok (s : state) : Prop :=
  setqs s + leaving s + detached s + to_put (main s) = pool_size s ∧
  detached s + to_get (pool_size s) (main s) ≤ selfs s + pool_size s.

Section Invariants.
Context (numjobs : nat) (keep : Z) (inherits : nat → bool).
Context (run_after more_tasks : nat → list nat).
Abbreviation exec := (exec numjobs keep inherits run_after more_tasks).
Abbreviation step := (step numjobs keep inherits run_after more_tasks).

Record counters_ok (s : state) : Prop := CountersOk {
  ok_calm : freeing (main s) = false → calm s;
  ok_waiting : waiting (main s) = true → count (cs s) ≠ 0%Z;
  ok_next : main s = Next →
    outstanding (qs s) ≠ [] ∨ (count (cs s) = 0%Z ∧ exhausted s);
  ok_left : left_loop (main s) = true → stop (sh s) = true ∨ spent s;
  ok_pool : match pool s with
            | None => ready (ch s) = []
            | Some l => length l = numjobs ∧ numjobs ≠ 1
            end;
  ok_free : freeing (main s) = true →
    match pool s with None => main s = Finished | Some _ => signals_ok s end;
  ok_failed e : main s = Failed e → e = WafError "Deadlock detected" }.

Lemma step_calm a s s' :
  exec a s = Some s' → (freeing (main s) = false → calm s) →
  freeing (main s') = false → calm s'.
Proof.
  intros H Hc Hf. pose proof (fresh_pool numjobs) as (F1 & F2 & F3). unfold calm in *.
  step_cases.
  all: try done.
  all: match type of Hc with
       | freeing _ = false → _ => specialize (Hc Hf)
       | _ => specialize (Hc eq_refl)
       end.
  all: compute_counts; rewrite ?F1, ?F2, ?F3; csimpl; lia.
Qed.

Lemma next_group_nil gs l : next_group gs = ([], l) → l = [].
Proof. induction gs as [|[|t g] gs IH]; simpl; [by intros [= <-]|done|done]. Qed.

Lemma step_next a s s' :
  exec a s = Some s' → counters_ok s →
  main s' = Next → outstanding (qs s') ≠ [] ∨ (count (cs s') = 0%Z ∧ exhausted s').
Proof.
  intros H [_ _ Hn _ _ _ _] Hm. unfold exhausted in *. step_cases.
  all: try (by left). all: try (by apply Hn). all: try (by destruct rp).
  match goal with Hg : next_group _ = (?l, _) |- context [?o ++ ?l] =>
    destruct o; [destruct l; [apply next_group_nil in Hg as ->|]|]; auto end.
Qed.

Lemma step_waiting a s s' :
  exec a s = Some s' → counters_ok s → waiting (main s') = true → count (cs s') ≠ 0%Z.
Proof.
  intros H [_ Hw _ _ _ _ _] Hm. step_cases.
  all: try done. all: try (by apply Hw). all: try lia. all: try (by destruct rp).
  unfold GAP in *. lia.
Qed.

Lemma step_left a s s' :
  exec a s = Some s' → counters_ok s →
  left_loop (main s') = true → stop (sh s') = true ∨ spent s'.
Proof.
  intros H [Hc Hw Hn Hl _ _ _] Hm. unfold spent, exhausted, calm in *. step_cases.
  all: try (by left). all: try done. all: try (by apply Hl). all: try (by destruct rp).
  1: { destruct (Hn eq_refl) as [|[-> (_ & -> & ->)]]; [done|]. right. split; [done|].
       destruct (Hc eq_refl) as [_ Hz]. compute_counts. lia. }
  all: match type of Hl with
       | left_loop _ = true → _ => destruct (Hl Hm) as [->|[(-> & -> & ->) Hz]]
       | _ => destruct (Hl eq_refl) as [->|[(-> & -> & ->) Hz]]
       end; try done; try (by left); right.
  all: compute_counts; first [lia|by split; [|lia]].
Qed.

Lemma step_pool a s s' :
  exec a s = Some s' → counters_ok s →
  match pool s' with
  | None => ready (ch s') = []
  | Some l => length l = numjobs ∧ numjobs ≠ 1
  end.
Proof.
  intros H [_ _ _ _ Hp Hf _]. step_cases.
  all: try done. all: try (by destruct po). all: try (by rewrite length_replicate).
  all: try (by rewrite !length_app in *; simpl in *; lia).
  all: try (by specialize (Hf eq_refl)).
Qed.

Lemma step_free a s s' :
  exec a s = Some s' → counters_ok s → freeing (main s') = true →
  match pool s' with None => main s' = Finished | Some _ => signals_ok s' end.
Proof.
  intros H [Hc _ _ _ Hp Hf _] Hm. unfold signals_ok, calm in *. step_cases.
  all: try done. all: try (by destruct rp).
  all: try (by destruct po; specialize (Hf eq_refl)).
  all: try match type of Hf with
       | true = true → _ => specialize (Hf eq_refl)
       | freeing _ = true → _ => specialize (Hf Hm)
       | false = true → _ => specialize (Hc eq_refl)
       end.
  all: try destruct po; try done; compute_counts; rewrite ?length_app in *; csimpl in *.
  all: try lia.
  destruct i; simpl in *; lia.
Qed.

Lemma step_failed a s s' ex :
  exec a s = Some s' → counters_ok s → main s' = Failed ex → ex = WafError "Deadlock detected".
Proof.
  intros H [Hc _ _ Hl _ _ He] Hm. step_cases.
  all: try done. all: try (by apply He). all: try (by destruct rp).
  all: try (by repeat case_match; simplify_eq/=).
  destruct (Hl eq_refl) as [->|[_ Hz]]; [by rewrite orb_true_r in *|].
  destruct (Hc eq_refl) as [_ Hn]. simpl in Hn. rewrite Hz in Hn. by subst.
Qed.

Lemma init_counters_ok groups : counters_ok (init groups).
Proof. by split. Qed.

Lemma step_counters_ok a s s' : exec a s = Some s' → counters_ok s → counters_ok s'.
Proof.
  intros H Hok. split.
  - apply (step_calm _ _ _ H), Hok.
  - by apply (step_waiting _ _ _ H).
  - by apply (step_next _ _ _ H).
  - by apply (step_left _ _ _ H).
  - by apply (step_pool _ _ _ H).
  - by apply (step_free _ _ _ H).
  - intros ex. by apply (step_failed _ _ _ _ H).
Qed.


Lemma reachable_counters_ok groups s : rtc step (init groups) s → counters_ok s.
Proof.
  revert s. apply rtc_ind_r; [apply init_counters_ok|].
  intros s s' _ [a Ha] Hok. by eapply step_counters_ok.
Qed.
End Invariants.
