(* ===== verification/RunnerRuns.v ===== *)
(** * The scheduler of the build always ends

    Every run of [Runner] comes to an end, and it ends where [start] returns or
    raises the error that reports a deadlock. *)

From S2P Require Import Prelude Runner.
From Stdlib Require Import Relations Wellfounded.

Section Progress.
Context (numjobs : nat) (keep : Z) (inherits : nat → bool).
Context (run_after more_tasks : nat → list nat).
Abbreviation exec := (exec numjobs keep inherits run_after more_tasks).
Abbreviation counters_ok := (counters_ok numjobs).

(** [start] has returned, or has raised the error that reports a deadlock. *)
Definition ended (s : state) : Prop :=
  main s = Finished ∨ main s = Failed (WafError "Deadlock detected").

Lemma consumer_moves s l i c :
  pool s = Some l → l !! i = Some c → c ≠ Detached →
  (c = Idle → ready (ch s) ≠ []) → ∃ s', exec (Consumer i Succeeds) s = Some s'.
Proof.
  intros Hp Hi Hd Hr. simpl. rewrite Hp. unfold consumer_exec. rewrite Hi.
  destruct c as [| |p| |]; try done; eauto.
  - destruct (ready (ch s)); [by destruct (Hr eq_refl)|eauto].
  - destruct (task_exec _ _ _ _). eauto.
Qed.

Lemma attached_consumer l :
  sum_list_with detached_of l < length l → ∃ i c, l !! i = Some c ∧ c ≠ Detached.
Proof.
  induction l as [|c l IH]; simpl; [lia|]. intros Hs.
  destruct c; try (by exists 0; eexists).
  destruct IH as (i & c & Hi & Hc); [simpl in Hs; lia|]. by exists (S i), c.
Qed.

Lemma leaving_consumer l :
  sum_list_with leaving_of l ≠ 0 → ∃ i, l !! i = Some Leaving.
Proof.
  induction l as [|c l IH]; simpl; [done|]. intros Hs.
  destruct c; simpl in Hs; try (by exists 0);
    (destruct IH as [i Hi]; [done|]; by exists (S i)).
Qed.

Lemma working_consumer l : l ≫= working_pc ≠ [] → ∃ i p, l !! i = Some (Working p).
Proof.
  induction l as [|c l IH]; [done|]. csimpl. intros Hs.
  destruct c as [| |p| |]; try (by exists 0, p);
    (destruct IH as (i & p & Hi); [done|]; by exists (S i), p).
Qed.

(** Some consumer can move whenever one is attached and a message waits. *)
Lemma message_taken s l :
  pool s = Some l → ready (ch s) ≠ [] → sum_list_with detached_of l < length l →
  ∃ a s', exec a s = Some s'.
Proof.
  intros Hp Hr (i & c & Hi & Hc)%attached_consumer.
  destruct (consumer_moves s l i c) as [s' Hs]; eauto.
Qed.

Lemma waiting_moves s k :
  1 ≤ numjobs → counters_ok s → main s = GetOut k → out (ch s) = [] →
  ∃ a s', exec a s = Some s'.
Proof.
  intros Hj [Hc Hw _ _ Hp Hf _] Hm Ho. rewrite Hm in *.
  destruct (freeing (GetOut k)) eqn:Hk.
  - specialize (Hf eq_refl). destruct (pool s) as [l|] eqn:Hl; [|done].
    destruct k; try done. destruct Hf as [H1 H2]. unfold pool_size in *.
    unfold setqs, leaving, detached, selfs, consumers in *.
    rewrite Hl, Hm, ?Ho in *. simpl in *.
    destruct (decide (sum_list_with leaving_of l = 0)) as [Hz|[i Hi]%leaving_consumer].
    + apply (message_taken s l Hl); [|lia]. intros Hr. rewrite Hr in *. simpl in *. lia.
    + destruct (consumer_moves s l i Leaving) as [s' Hs]; eauto; done.
  - specialize (Hc eq_refl) as [H1 H2].
    assert (length (in_flight s) ≠ 0) as Hn.
    { destruct k; try done; specialize (Hw eq_refl); lia. }
    unfold in_flight, pcs, leaving, detached, consumers in *. rewrite Hm, Ho in *. csimpl in *.
    rewrite !length_app, length_fmap in Hn. simpl in Hn.
    destruct (pool s) as [l|] eqn:Hl; simpl in *; [|by rewrite Hp in Hn].
    destruct (decide (ready (ch s) = [])) as [Hr|Hr].
    + rewrite Hr in Hn. destruct (working_consumer l) as (i & p & Hi); [by intros E; rewrite E in Hn|].
      destruct (consumer_moves s l i (Working p)) as [s' Hs]; eauto; done.
    + apply (message_taken s l Hl Hr). lia.
Qed.

Lemma progress s : 1 ≤ numjobs → counters_ok s → ended s ∨ ∃ a s', exec a s = Some s'.
Proof.
  intros Hj Hok. destruct (main s) eqn:Hm;
    try (right; exists (Main (Some ASK_LATER) true Succeeds); simpl; unfold start_exec, refill_exec, ask_status, runnable_status;
         rewrite Hm; repeat case_match; by eauto).
  - destruct (out (ch s)) eqn:Ho; [right; by eapply waiting_moves|].
    right. exists (Main None true Succeeds). simpl. unfold start_exec. rewrite Hm, Ho. eauto.
  - by left; left.
  - left. right. rewrite Hm. f_equal. by apply (ok_failed _ _ Hok).
Qed.
End Progress.

(** ** Every run ends

    A task weighs more than the tasks it adds.  A move lowers the weight of what
    is to be done, or else the deadlock mark, or else [position]: the tasks the
    loop has yet to look at in this round, then the place of the main thread in
    the loop, then the moves the consumers can make by themselves. *)
Section Termination.
Context (numjobs : nat) (keep : Z) (inherits : nat → bool).
Context (run_after more_tasks : nat → list nat).
Context (weight : nat → nat).
Hypothesis weight_ok : ∀ t, sum_list_with weight (more_tasks t) + 2 ≤ weight t.
Abbreviation exec := (exec numjobs keep inherits run_after more_tasks).
Abbreviation counters_ok := (counters_ok numjobs).

Definition waiting_tasks (s : state) : list nat :=
  outstanding (qs s) ++ frozen (qs s) ++ concat (biter (qs s)) ++ held (main s).

Definition work_left (s : state) : nat :=
  sum_list_with weight (waiting_tasks s) + length (biter (qs s)) +
  sum_list_with (λ t, weight t - 1) (in_flight s).

Definition unmarked (s : state) : nat :=
  if bool_decide (deadlock (cs s) = Some (processed (cs s))) then 0 else 1.

Definition to_look_at (s : state) : nat :=
  length (outstanding (qs s)) +
  match main s with RefillMove => length (frozen (qs s)) | _ => 0 end.

Definition task_rank (p : task_pc) : nat :=
  match p with Put _ => 1 | Append _ => 2 | Handle _ => 3 | Run _ => 4 | TestStop _ => 5 end.

Definition consumer_rank (c : consumer) : nat :=
  match c with
  | Attaching | Leaving => 1 | Idle | Detached => 0 | Working p => task_rank p
  end.

Definition free_rank (size : nat) (m : main_pc) : nat :=
  match m with
  | Finished | Failed _ => 0
  | GetSetq n => 3 * n + 1
  | GotOut _ (FreeLoop n) => 3 * n + 2
  | GetOut (FreeLoop n) => 3 * n + 3
  | PutSetq n => 3 * size + 2 + n
  | TestAssert => 4 * size + 3
  | _ => 4 * size + 4
  end.

Definition loop_rank (at_end : bool) (m : main_pc) : nat :=
  match m with
  | GetOut (CountLoop | EmptyLoop | ErrorLoop) => 1
  | TestError => 2
  | Next => 3
  | RefillMove => if at_end then 4 else 6
  | RefillEmpty => 5
  | RefillCount => 7
  | Top => 8
  | AppendError _ | Skip _ | Dispatch _ | Raised _ => 9
  | Handler _ | AskStatus _ => 10
  | TestStopped _ => 11
  | TestHasrun _ => 12
  | Process p => 8 + task_rank p
  | _ => 0
  end.

Definition at_end (s : state) : bool :=
  bool_decide (frozen (qs s) = [] ∧ count (cs s) = 0%Z).

Definition place (s : state) : nat :=
  20 * to_look_at s + free_rank (pool_size s) (main s) + loop_rank (at_end s) (main s).

Definition own_moves (s : state) : nat :=
  6 * length (ready (ch s)) + sum_list_with consumer_rank (consumers s).

Definition position (s : state) : nat := 7 * place s + own_moves s.

Definition measure (s : state) : nat * (nat * nat) := (work_left s, (unmarked s, position s)).

Definition smaller : relation (nat * (nat * nat)) :=
  slexprod nat (nat * nat) lt (slexprod nat nat lt lt).

Lemma smaller_wf : well_founded smaller.
Proof. apply wf_slexprod; [apply lt_wf|]. apply wf_slexprod; apply lt_wf. Qed.

Lemma measure_smaller s s' :
  work_left s' < work_left s ∨
  (work_left s' = work_left s ∧
   (unmarked s' < unmarked s ∨ (unmarked s' = unmarked s ∧ position s' < position s))) →
  smaller (measure s') (measure s).
Proof.
  unfold smaller, measure. intros [H|[-> [H|[-> H]]]].
  - by apply left_slex.
  - by apply right_slex, left_slex.
  - by apply right_slex, right_slex.
Qed.

Lemma next_group_spec gs g gs' :
  next_group gs = (g, gs') →
  concat gs = g ++ concat gs' ∧ length gs' ≤ length gs ∧ (gs ≠ [] → length gs' < length gs).
Proof.
  revert g gs'. induction gs as [|[|t l] gs IH]; intros g gs'; simpl.
  - by intros [= <- <-].
  - intros (H1 & H2 & _)%IH. split_and!; [done|lia..].
  - intros [= <- <-]. split_and!; [done|lia..].
Qed.

Lemma fresh_pool_rank n : sum_list_with consumer_rank (replicate n Attaching) = n.
Proof. induction n; simpl; lia. Qed.

#[local] Arguments Nat.mul : simpl never.

Ltac compute_measure :=
  unfold work_left, waiting_tasks, own_moves, in_flight, pcs, consumers;
  csimpl;
  rewrite ?concat_app, ?bind_app, ?fmap_app, ?sum_list_with_app; csimpl;
  rewrite ?bind_app, ?fmap_app, ?sum_list_with_app, ?length_app; csimpl.

(** A consumer that moves keeps the work and lowers the position. *)
Lemma consumer_smaller oc i s s' :
  exec (Consumer i oc) s = Some s' →
  work_left s' = work_left s ∧ unmarked s' = unmarked s ∧
  place s' = place s ∧ own_moves s' < own_moves s.
Proof.
  intros H. destruct_state s. destruct po as [l|]; [|by simpl in H].
  compute_move H.
  all: split_and!; [compute_measure; lia|done| |compute_measure; lia].
  all: unfold place, pool_size; simpl; by rewrite !length_app.
Qed.

(** The move changes nothing but the place of the main thread, which it lowers. *)
Ltac lower_place :=
  right; split; [compute_measure; lia|right; split; [done|split; [|compute_measure; lia]]];
  unfold place, to_look_at, at_end, pool_size; simpl.

Lemma main_smaller st front oc s s' :
  exec (Main st front oc) s = Some s' → counters_ok s →
  work_left s' < work_left s ∨
  (work_left s' = work_left s ∧
   (unmarked s' < unmarked s ∨
    (unmarked s' = unmarked s ∧ (place s' < place s ∧ own_moves s' ≤ own_moves s + 6)))).
Proof.
  intros H [Hc _ Hn _ _ _ _]. destruct_state s. destruct_main m.
  all: compute_move H.
  all: try (lower_place; repeat case_match; lia).
  all: try (left; match goal with
    | |- context [GotOut (Done ?t) _] => pose proof (weight_ok t)
    | t : nat |- _ => pose proof (weight_ok t) end; compute_measure; lia).
  all: try (by destruct (Hc eq_refl) as [Hz _]; unfold calm in Hz; simpl in Hz; lia).
  all: try (right; split; [destruct front; compute_measure; lia|]; right; split; [done|];
    split; [|compute_measure; lia]; unfold place, to_look_at, at_end, pool_size; simpl; lia).
  - lower_place. rewrite bool_decide_true by (split; [done|lia]). lia.
  - right. split; [compute_measure; lia|]. left. unfold unmarked. simpl.
    rewrite bool_decide_true, bool_decide_false by done. lia.
  - match goal with Hg : next_group ?b = _ |- _ =>
      apply next_group_spec in Hg as (Hcat & Hle & Hlt); destruct (decide (b = [])) as [->|Hb] end.
    + destruct l0; [|simpl in Hle; lia]. destruct l; [|done]. rewrite app_nil_r in *.
      lower_place. rewrite bool_decide_true by done. lia.
    + left. specialize (Hlt Hb). compute_measure. rewrite Hcat, sum_list_with_app. lia.
  - lower_place. rewrite bool_decide_false by tauto. lia.
  - lower_place. rewrite length_app. simpl. lia.
  - destruct (Hn eq_refl) as [|[? _]]; done.
  - left. pose proof (weight_ok t). destruct (fresh_pool numjobs) as (_ & _ & F).
    compute_measure. rewrite F. csimpl. lia.
Qed.

Lemma step_smaller a s s' : exec a s = Some s' → counters_ok s → smaller (measure s') (measure s).
Proof.
  intros H Hok. apply measure_smaller. unfold position. destruct a as [st front oc|i oc].
  - destruct (main_smaller _ _ _ _ _ H Hok) as [?|(? & [?|(? & ? & ?)])]; lia.
  - destruct (consumer_smaller _ _ _ _ H) as (? & ? & ? & ?). lia.
Qed.

Lemma runs_end s : counters_ok s → sn (step numjobs keep inherits run_after more_tasks) s.
Proof.
  remember (measure s) as x eqn:Hx. revert s Hx.
  induction (smaller_wf x) as [x _ IH]. intros s -> Hok. constructor. intros s' [a Ha].
  eapply IH; [by eapply step_smaller|done|by eapply step_counters_ok].
Qed.
End Termination.

(** ** The theorem *)

(** C10: However the threads interleave, whatever the tasks do and whatever
    [runnable_status] answers, no run of the scheduler is infinite, and it stops
    only when [start] returns or raises the error that reports a deadlock: no
    [get_out] waits for ever, the final assertion never fails.  (The weights say
    that tasks which add tasks do not do so without end.) *)
Theorem start_ends numjobs keep inherits run_after more_tasks weight groups s :
  1 ≤ numjobs →
  (∀ t, sum_list_with weight (more_tasks t) + 2 ≤ weight t) →
  rtc (step numjobs keep inherits run_after more_tasks) (init groups) s →
  sn (step numjobs keep inherits run_after more_tasks) s ∧
  (ended s ∨ ∃ s', step numjobs keep inherits run_after more_tasks s s').
Proof.
  intros Hj Hw Hr%reachable_counters_ok. split; [by eapply runs_end|].
  destruct (progress numjobs keep inherits run_after more_tasks s Hj Hr) as [?|(a & s' & ?)]; [by left|].
  right. exists s', a. done.
Qed.

(** ** Small builds *)
Definition no_tasks (t : nat) : list nat := [].

Definition all_inherit (t : nat) : bool := true.

(** The task 1 must follow the task 0; one thread. *)
Definition after_zero (t : nat) : list nat := match t with 1 => [0] | _ => [] end.
Definition ask (st : task_status) : action := Main (Some st) false Succeeds.

Lemma start_ends_witness :
  sn (step 2 0 all_inherit after_zero no_tasks) (init [[0; 1]]) ∧
  (ended (init [[0; 1]]) ∨ ∃ s', step 2 0 all_inherit after_zero no_tasks (init [[0; 1]]) s').
Proof.
  apply (start_ends 2 0 all_inherit after_zero no_tasks (λ _, 2) [[0; 1]]); [lia|by intros t|constructor].
Defined.
