(* ===== verification/RunnerResults.v ===== *)
(** * What the scheduler of the build has done

    In every run of [Runner] no task that inherits [runnable_status] begins
    before those it must follow, and when [start] returns without having been stopped, every task has been dealt
    with once and the failures are all reported. *)

From S2P Require Import Prelude Runner RunnerRuns.

(** ** What has been run when *)
Definition ordered (inherits : nat → bool) (run_after : nat → list nat) (s : state)
    (t : nat) : Prop :=
  inherits t = true → Forall (λ x, run_state s x ≠ NOT_RUN) (run_after t).

(** A task is settled when it has a result, or is reported, or the build stops. *)
Definition settled (s : state) (t : nat) : Prop :=
  stop (sh s) = true ∨ run_state s t ≠ NOT_RUN ∨ t ∈ error (sh s).

Definition has_failed (h : hasrun) : Prop := h = MISSING ∨ h = CRASHED ∨ h = EXCEPTION.

Definition cleared (m : main_pc) : list nat :=
  match m with Skip t | Dispatch t => [t] | _ => [] end.
Definition put_tasks (p : task_pc) : list nat := match p with Put t => [t] | _ => [] end.
Definition failing_tasks (p : task_pc) : list nat :=
  match p with Handle t | Append t => [t] | _ => [] end.
Definition appending_tasks (p : task_pc) : list nat :=
  match p with Append t => [t] | _ => [] end.
Definition main_failing (m : main_pc) : list nat :=
  match m with Handler t | AppendError t => [t] | _ => [] end.
Definition main_appending (m : main_pc) : list nat :=
  match m with AppendError t => [t] | _ => [] end.

Definition dispatched (s : state) : list nat :=
  cleared (main s) ++ in_flight s ++ started (lg s).
Definition through (s : state) : list nat :=
  (in_hand (main s) ≫= item_tasks) ++ (out (ch s) ≫= item_tasks) ++
  (pcs s ≫= put_tasks) ++ retired (lg s).
Definition failing (s : state) : list nat := main_failing (main s) ++ (pcs s ≫= failing_tasks).
Definition appending (s : state) : list nat :=
  main_appending (main s) ++ (pcs s ≫= appending_tasks).

Section Results.
Context (numjobs : nat) (keep : Z) (inherits : nat → bool).
Context (run_after more_tasks : nat → list nat).
Abbreviation exec := (exec numjobs keep inherits run_after more_tasks).

Record grows (s s' : state) : Prop := Grows {
  grows_stop : stop (sh s) = true → stop (sh s') = true;
  grows_runs x : run_state s x ≠ NOT_RUN → run_state s' x ≠ NOT_RUN;
  grows_error : error (sh s) ⊆ error (sh s') }.

Lemma step_grows a s s' : exec a s = Some s' → grows s s'.
Proof.
  intros H. step_cases.
  all: split; simpl; try done; try set_solver.
  all: intros y; unfold run_state; simpl; rewrite lookup_insert;
    match goal with |- context [decide (?t = ?y)] => destruct (decide (t = y)) end; by simpl.
Qed.

Lemma settled_grows s s' t : grows s s' → settled s t → settled s' t.
Proof. intros [] [?|[?|?]]; unfold settled; auto. Qed.

Lemma ordered_grows s s' t : grows s s' → ordered inherits run_after s t → ordered inherits run_after s' t.
Proof. intros [] Ho Hi. eapply Forall_impl; [exact (Ho Hi)|]. simpl. auto. Qed.

(** The lists of a computed state, in the goal. *)
Ltac compute_lists :=
  unfold dispatched, through, failing, appending, in_flight, pcs, consumers;
  csimpl; repeat progress (rewrite ?bind_app, ?fmap_app; csimpl).

Ltac split_Forall := repeat progress (rewrite ?Forall_app, ?Forall_cons, ?Forall_nil).

Ltac split_elem_of := repeat progress (rewrite ?elem_of_app, ?elem_of_cons, ?elem_of_nil).

Lemma all_run (s : state) t :
  inherits t && existsb (λ x, bool_decide (run_state s x = NOT_RUN)) (run_after t) = false →
  ordered inherits run_after s t.
Proof.
  intros [Hi|Hx]%andb_false_iff Ht; [congruence|]. apply Forall_forall. intros x Hin Hn.
  apply not_true_iff_false in Hx. apply Hx, existsb_exists. exists x. split; [by apply list_elem_of_In|].
  by apply bool_decide_eq_true.
Qed.

Lemma step_ordered a s s' :
  exec a s = Some s' → Forall (ordered inherits run_after s) (dispatched s) →
  Forall (ordered inherits run_after s') (dispatched s').
Proof.
  intros H Hd. pose proof (step_grows _ _ _ H) as Hg.
  apply (Forall_impl _ (ordered inherits run_after s')) in Hd; [|intros t; by apply ordered_grows].
  clear Hg. set (P := ordered inherits run_after s') in *.
  assert (HP : ∀ t, ordered inherits run_after s' t → P t) by done. clearbody P.
  destruct (fresh_pool numjobs) as (_ & _ & F).
  step_cases.
  all: revert Hd; compute_lists; rewrite ?F; csimpl; try destruct rp; simpl.
  all: split_Forall; try done; try tauto.
  all: assert (P t) by (apply HP; by apply all_run); tauto.
Qed.

Lemma step_settled a s s' :
  exec a s = Some s' → Forall (settled s) (through s) → Forall (settled s') (through s').
Proof.
  intros H Hd. pose proof (step_grows _ _ _ H) as Hg.
  apply (Forall_impl _ (settled s')) in Hd; [|intros t; by apply settled_grows].
  clear Hg. set (P := settled s') in *.
  assert (HP : ∀ t, settled s' t → P t) by done. clearbody P.
  destruct (fresh_pool numjobs) as (_ & _ & F).
  step_cases.
  all: revert Hd; compute_lists; rewrite ?F; csimpl; try destruct rp; simpl.
  all: split_Forall; try done; try tauto.
  all: match goal with HP : ∀ t, _ → ?P t |- context [?P ?x] =>
    assert (P x); [apply HP|tauto] end.
  all: unfold settled, run_state; simpl; rewrite ?lookup_insert_eq;
    first [by left|by right; left|right; right; set_solver].
Qed.

(** A task that failed is in [error], or its thread is about to put it there. *)
Lemma step_reported a s s' :
  exec a s = Some s' →
  (∀ t, has_failed (run_state s t) → t ∈ error (sh s) ++ failing s) →
  ∀ t, has_failed (run_state s' t) → t ∈ error (sh s') ++ failing s'.
Proof.
  intros H Hd y Hy. specialize (Hd y). destruct (fresh_pool numjobs) as (_ & _ & F).
  step_cases.
  all: unfold run_state in *; simpl in *; rewrite ?lookup_insert in *;
    try match type of Hy with context [decide (?t = ?y)] => destruct (decide (t = y)) as [->|] end;
    simpl in *; try (by destruct Hy as [?|[?|?]]).
  all: revert Hd; compute_lists; rewrite ?F; csimpl; try destruct rp; simpl.
  all: split_elem_of; try tauto.
  all: subst oc; by destruct Hy as [?|[?|?]].
Qed.

(** Without [-k] the build stops before an error is put in the list. *)
Lemma step_stopping a s s' :
  keep = 0%Z → exec a s = Some s' →
  stop (sh s) = true ∨ length (error (sh s)) + length (appending s) = 0 →
  stop (sh s') = true ∨ length (error (sh s')) + length (appending s') = 0.
Proof.
  intros Hk H Hd. pose proof (step_grows _ _ _ H) as Hg.
  destruct Hd as [Hd|Hd]; [left; by apply (grows_stop _ _ Hg)|]. clear Hg.
  destruct (fresh_pool numjobs) as (_ & _ & F).
  step_cases.
  all: try (by left).
  all: right; revert Hd; compute_lists; rewrite ?F, ?length_app; csimpl; try destruct rp; simpl; lia.
Qed.

(** The tasks added by a task that ran are handed to the loop with its result. *)
Lemma step_added a s s' :
  exec a s = Some s' →
  (∀ t, t ∈ started (lg s) →
     stop (sh s) = true ∨ t ∈ in_flight s ∨ more_tasks t ⊆ added (lg s)) →
  ∀ t, t ∈ started (lg s') →
     stop (sh s') = true ∨ t ∈ in_flight s' ∨ more_tasks t ⊆ added (lg s').
Proof.
  intros H Hd y Hy. specialize (Hd y). destruct (fresh_pool numjobs) as (_ & _ & F).
  step_cases.
  all: try (by left).
  all: try (apply elem_of_app in Hy as [Hy|Hy]; [|apply list_elem_of_singleton in Hy as ->]).
  all: try (specialize (Hd Hy); destruct Hd as [?|Hd]; [by left|]); right.
  all: revert Hd; compute_lists; rewrite ?F; csimpl; try destruct rp; simpl.
  all: split_elem_of; try tauto.
  all: assert (more_tasks y ⊆ ad → more_tasks y ⊆ ad ++ more_tasks t) by set_solver;
    assert (y = t → more_tasks y ⊆ ad ++ more_tasks t) by (intros ->; set_solver); tauto.
Qed.

(** The tasks of the groups and the added ones are where the scheduler has put
    them, each exactly once. *)
Definition all_tasks (s : state) : list nat :=
  waiting_tasks s ++ in_flight s ++ retired (lg s).

Lemma step_all_tasks a s s' :
  exec a s = Some s' → ∃ l, added (lg s') = added (lg s) ++ l ∧ all_tasks s' ≡ₚ all_tasks s ++ l.
Proof.
  intros H. destruct (fresh_pool numjobs) as (_ & _ & F).
  unfold all_tasks, waiting_tasks. step_cases.
  all: first [exists []; split; [by rewrite app_nil_r|]|eexists; split; [reflexivity|]].
  all: compute_lists; rewrite ?F; csimpl; try destruct rp; simpl; try done.
  all: try (by destruct front; simpl; solve_Permutation).
  all: try solve_Permutation.
  match goal with Hg : next_group _ = _ |- _ => apply next_group_spec in Hg as (Hcat & _) end.
  rewrite Hcat. solve_Permutation.
Qed.

(** The tasks that may still begin to run, and those that did. *)
Definition unstarted_task (p : task_pc) : list nat :=
  match p with TestStop t => [t] | _ => [] end.
Definition startable (s : state) : list nat :=
  waiting_tasks s ++ (ready (ch s) ≫= message_tasks) ++ (pcs s ≫= unstarted_task) ++
  started (lg s).

Lemma step_startable a s s' :
  exec a s = Some s' → ∃ l, added (lg s') = added (lg s) ++ l ∧ startable s' ⊆+ startable s ++ l.
Proof.
  intros H. destruct (fresh_pool numjobs) as (_ & _ & F).
  unfold startable, waiting_tasks. step_cases.
  all: first [exists []; split; [by rewrite app_nil_r|]|eexists; split; [reflexivity|]].
  all: compute_lists; rewrite ?F; csimpl; try destruct rp; simpl; rewrite ?app_nil_r; try done.
  all: try (by destruct front; simpl; solve_submseteq).
  all: try solve_submseteq.
  match goal with Hg : next_group _ = _ |- _ => apply next_group_spec in Hg as (Hcat & _) end.
  rewrite Hcat. solve_submseteq.
Qed.

(** ** The invariant of the results *)
Record results_ok (groups : list (list nat)) (s : state) : Prop := ResultsOk {
  ok_ordered : Forall (ordered inherits run_after s) (dispatched s);
  ok_settled : Forall (settled s) (through s);
  ok_reported t : has_failed (run_state s t) → t ∈ error (sh s) ++ failing s;
  ok_stopping : keep = 0%Z →
    stop (sh s) = true ∨ length (error (sh s)) + length (appending s) = 0;
  ok_added t : t ∈ started (lg s) →
    stop (sh s) = true ∨ t ∈ in_flight s ∨ more_tasks t ⊆ added (lg s);
  ok_tasks : all_tasks s ≡ₚ concat groups ++ added (lg s);
  ok_startable : startable s ⊆+ concat groups ++ added (lg s) }.

Lemma init_results_ok groups : results_ok groups (init groups).
Proof.
  split; try done.
  - intros t [?|[?|?]]; done.
  - by right.
  - by intros t ?%elem_of_nil.
  - unfold all_tasks, waiting_tasks, in_flight. simpl. by rewrite !app_nil_r.
  - unfold startable, waiting_tasks. simpl. by rewrite !app_nil_r.
Qed.

Lemma step_results_ok groups a s s' :
  exec a s = Some s' → results_ok groups s → results_ok groups s'.
Proof.
  intros H [Ho Hs Hr Hk Ha Ht Hu]. split.
  - by eapply step_ordered.
  - by eapply step_settled.
  - by eapply step_reported.
  - intros Hz. by eapply step_stopping; [..|apply Hk].
  - by eapply step_added.
  - destruct (step_all_tasks _ _ _ H) as (l & -> & ->). by rewrite Ht, app_assoc.
  - destruct (step_startable _ _ _ H) as (l & -> & ->). rewrite app_assoc.
    by apply submseteq_skips_r.
Qed.

Lemma reachable_results_ok groups s :
  rtc (step numjobs keep inherits run_after more_tasks) (init groups) s → results_ok groups s.
Proof.
  revert s. apply rtc_ind_r; [apply init_results_ok|].
  intros s s' _ [a Ha] Hok. by eapply step_results_ok.
Qed.
End Results.

(** ** The theorems *)

(** C11: A task whose [runnable_status] is the one of [Task] begins to run only
    when every task it must follow has run (or has been skipped), whatever the
    other tasks do, and no task begins twice unless it was given twice.  (Tasks
    with a [runnable_status] of their own are free of the order, see
    [command_overtakes].) *)
Theorem precedence_kept numjobs keep inherits run_after more_tasks groups s :
  rtc (step numjobs keep inherits run_after more_tasks) (init groups) s →
  (∀ t x, t ∈ started (lg s) → inherits t = true → x ∈ run_after t → run_state s x ≠ NOT_RUN) ∧
  started (lg s) ⊆+ concat groups ++ added (lg s).
Proof.
  intros Hr%reachable_results_ok. destruct Hr as [Ho _ _ _ _ _ Hu]. split.
  - intros t x Ht Hi Hx. unfold dispatched in Ho. rewrite !Forall_app in Ho.
    destruct Ho as (_ & _ & Ho). rewrite Forall_forall in Ho.
    by eapply (proj1 (Forall_forall _ _) (Ho t Ht Hi)).
  - etrans; [|exact Hu]. unfold startable. solve_submseteq.
Qed.

(** C9: When [start] returns and [stop] was never set, every task of every group
    and every task added on the way has been dealt with exactly once, has a
    result or is reported, and the tasks that failed are all reported in
    [error]; without [-k] none has_failed, and each one has succeeded or was up to
    date. *)
Theorem start_runs_all numjobs keep inherits run_after more_tasks groups s :
  rtc (step numjobs keep inherits run_after more_tasks) (init groups) s →
  main s = Finished → stop (sh s) = false →
  retired (lg s) ≡ₚ concat groups ++ added (lg s) ∧
  (∀ t, t ∈ started (lg s) → more_tasks t ⊆ added (lg s)) ∧
  (∀ t, t ∈ retired (lg s) → run_state s t ≠ NOT_RUN ∨ t ∈ error (sh s)) ∧
  (∀ t, has_failed (run_state s t) → t ∈ error (sh s)) ∧
  (keep = 0%Z → ∀ t, t ∈ retired (lg s) → run_state s t = SUCCESS ∨ run_state s t = SKIPPED).
Proof.
  intros Hr Hm Hstop. pose proof (ok_left _ _ (reachable_counters_ok _ _ _ _ _ _ _ Hr)) as Hl.
  rewrite Hm in Hl. destruct (Hl eq_refl) as [?|[(E1 & E2 & E3) Hz%length_zero_iff_nil]];
    [congruence|].
  apply reachable_results_ok in Hr as [_ Hs Hf Hk Ha Ht _].
  assert (pcs s = []) as Hpcs.
  { unfold in_flight in Hz. apply app_nil in Hz as [_ Hz]. apply app_nil in Hz as [_ Hz].
    apply app_nil in Hz as [Hz _]. by apply fmap_nil_inv in Hz. }
  unfold all_tasks, waiting_tasks in Ht. rewrite E1, E2, E3, Hz, Hm in Ht. simpl in Ht.
  unfold failing in Hf. rewrite Hpcs, Hm in Hf. simpl in Hf.
  assert (∀ t, t ∈ retired (lg s) → run_state s t ≠ NOT_RUN ∨ t ∈ error (sh s)) as Hd.
  { intros t Hin. unfold through in Hs. rewrite !Forall_app in Hs.
    destruct Hs as (_ & _ & _ & Hs). rewrite Forall_forall in Hs.
    destruct (Hs t Hin) as [?|?]; [congruence|done]. }
  split_and!; [done| |done| |].
  - intros t Hin. destruct (Ha t Hin) as [?|[Hx|?]]; [congruence| |done].
    rewrite Hz in Hx. by apply elem_of_nil in Hx.
  - intros t Hft. specialize (Hf t Hft). by rewrite app_nil_r in Hf.
  - intros Hz0 t Hin. destruct (Hk Hz0) as [?|Herr]; [congruence|].
    assert (error (sh s) = []) as He by (apply length_zero_iff_nil; lia).
    specialize (Hf t). rewrite He in Hf. simpl in Hf. destruct (Hd t Hin) as [Hn|Hn];
      [|rewrite He in Hn; by apply elem_of_nil in Hn].
    assert (¬ has_failed (run_state s t)) as Hnf by (intros ?; by eapply not_elem_of_nil, Hf).
    unfold has_failed in Hnf. destruct (run_state s t); naive_solver.
Qed.

(** ** Small builds *)
Lemma run_reachable numjobs keep inherits run_after more_tasks l s s' :
  run numjobs keep inherits run_after more_tasks l s = Some s' →
  rtc (step numjobs keep inherits run_after more_tasks) s s'.
Proof.
  revert s. induction l as [|a l IH]; intros s H; simplify_eq/=; [done|].
  destruct (exec _ _ _ _ _ a s) as [s1|] eqn:E; simplify_eq/=.
  eapply rtc_l; [by exists a|by apply IH].
Qed.

Definition two_tasks_done : state :=
  default (init []) (run 1 0 all_inherit after_zero no_tasks (replicate 35 (ask RUN_ME)) (init [[0]; [1]])).

Lemma two_tasks_run : rtc (step 1 0 all_inherit after_zero no_tasks) (init [[0]; [1]]) two_tasks_done.
Proof. apply run_reachable with (replicate 35 (ask RUN_ME)). vm_compute. reflexivity. Qed.

Lemma precedence_kept_witness :
  started (lg two_tasks_done) = [0; 1] ∧ run_state two_tasks_done 0 ≠ NOT_RUN.
Proof.
  split; [by vm_compute|].
  apply (precedence_kept 1 0 all_inherit after_zero no_tasks [[0]; [1]] _ two_tasks_run) with 1;
    apply (bool_decide_unpack _); vm_compute; constructor.
Defined.

Lemma start_runs_all_witness :
  main two_tasks_done = Finished ∧ retired (lg two_tasks_done) ≡ₚ [0; 1].
Proof.
  split; [by vm_compute|].
  apply (start_runs_all 1 0 all_inherit after_zero no_tasks [[0]; [1]] _ two_tasks_run); by vm_compute.
Defined.

(** [error_handler] sets [stop] before it puts the task in [error], and [start]
    looks at [error] once: when it sees the one and not yet the other, it does
    not wait for the other threads, takes results for the signals of the
    consumers, and returns.  The build finds no error: the crash of task 2 is not
    reported, and task 3 has not run. *)
Definition hidden_failure : list action :=
  replicate 25 (ask RUN_ME) ++ replicate 9 (Consumer 0 Succeeds) ++
  replicate 3 (Consumer 1 Succeeds) ++ replicate 2 (Consumer 1 ReturnsError) ++
  replicate 13 (ask RUN_ME).

Lemma failure_unreported :
  ∃ s, rtc (step 2 0 all_inherit no_tasks no_tasks) (init [[0; 1; 2; 3]]) s ∧
    main s = Finished ∧ error (sh s) = [] ∧ run_state s 2 = CRASHED ∧ run_state s 3 = NOT_RUN.
Proof.
  eexists. split; [apply run_reachable with hidden_failure; vm_compute; reflexivity|].
  by vm_compute.
Qed.

(** [apply_command] of [waf-tools/misc.py] makes a command run after those it
    depends on and then, when the command has no inputs, replaces its
    [runnable_status] by one that answers [RUN_ME] at once.  Of such a command,
    1, and the task it must follow, 0, both in the hands of consumers, it can
    be the first to begin. *)
Lemma command_overtakes :
  ∃ s, rtc (step 2 0 (λ t, negb (t =? 1)) after_zero no_tasks) (init [[0; 1]]) s ∧
    started (lg s) = [1] ∧ 0 ∈ after_zero 1 ∧ run_state s 0 = NOT_RUN.
Proof.
  eexists. split; [apply run_reachable with
    (replicate 17 (ask RUN_ME) ++ [Consumer 0 Succeeds; Consumer 0 Succeeds; Consumer 1 Succeeds;
       Consumer 1 Succeeds; Consumer 1 Succeeds]);
    vm_compute; reflexivity|].
  split_and!; [by vm_compute|by apply (bool_decide_unpack _); vm_compute|by vm_compute].
Qed.

(** With [-k], a task whose [runnable_status] raises is marked as skipped and is
    not in [error]: the build stops there and succeeds. *)
Lemma status_error_unreported :
  ∃ s, rtc (step 1 1 all_inherit no_tasks no_tasks) (init [[0]; [1]]) s ∧
    main s = Finished ∧ error (sh s) = [] ∧ run_state s 0 = SKIPPED ∧ run_state s 1 = NOT_RUN.
Proof.
  eexists. split; [apply run_reachable with
    (replicate 7 (ask RUN_ME) ++ [Main None false Succeeds] ++ replicate 4 (ask RUN_ME));
    vm_compute; reflexivity|].
  by vm_compute.
Qed.
