(* ===== verification/Viewer.v ===== *)
(** * The interactive viewer of [utils/grid.py]

    The layout of the legend (lines 250-312), the scale (472-551), the window
    on the data and its bounds (555-613), the mouse and zoom handlers
    (750-893) and the range the viewer opens with (1039-1063).

    The lengths cairo measures are arguments.  A number is an integer or a
    float ([num]), because the division of two integers rounds down and the
    window starts with integer bounds.  Gtk prints an exception raised by a
    handler and goes on, so a handler returns the state it leaves behind in
    either case. *)

From S2P Require Import Prelude Rat.

Local Open Scope Q_scope.

(** ** The legend ([TopLegendRenderer])

    A legend is the width and height of its text. *)
Record legend_line := LegendLine { line_height : Q; total_height : Q; line_used : Q }.

Definition padding : Q := 10.

Definition item_width (item : Q * Q) : Q := padding + padding + item.1 + padding.
Definition item_height (item : Q * Q) : Q := item.2 + padding.

Definition legend_start : legend_line := LegendLine 0 padding padding.

(** The body both loops share, up to the drawing. *)
Definition place (width : Q) (s : legend_line) (item : Q * Q) : legend_line :=
  let lh := if qlt (line_height s) (item_height item) then item_height item
            else line_height s in
  if qlt width (line_used s + item_width item)
  then LegendLine lh (total_height s + lh) (padding + item_width item)
  else LegendLine lh (total_height s) (line_used s + item_width item).

(** The height [layout] computes. *)
Definition legend_layout (width : Q) (legends : list (Q * Q)) : Q :=
  let s := foldl (place width) legend_start legends in total_height s + line_height s.

(** The corners [draw] places the legends at. *)
Fixpoint legend_draw (width : Q) (s : legend_line) (legends : list (Q * Q)) : list (Q * Q) :=
  match legends with
  | [] => []
  | item :: legends' =>
      let s' := place width s item in
      (line_used s' - item_width item, total_height s') :: legend_draw width s' legends'
  end.

(** ** The scale ([ScaleRenderer]) *)
Fixpoint closest_loop (fuel : nat) (data_delta : Q) (closest : Z) : result exn Z :=
  match fuel with
  | O => Raise Diverges
  | S fuel' =>
      if qlt (inject_Z (closest * 10)) data_delta
      then closest_loop fuel' data_delta (closest * 10)%Z
      else Ok closest
  end.

Definition scale_delta (data_delta : num) : result exn Z :=
  let d := val data_delta in
  closest ← closest_loop (S (Z.to_nat (Z.log2_up (Qceiling d)))) d 1;
  ratio ← num_div data_delta (Int closest);
  Ok (if is_zero (val ratio) then closest
      else if Qeq_bool (val ratio) 1 then (closest / 10)%Z
      else closest).

(** [layout] takes the remainders of the bounds by [delta]. *)
Definition scale_layout (lo hi : num) : result exn Z :=
  delta ← scale_delta (num_sub hi lo);
  if bool_decide (delta = 0%Z) then Raise ZeroDivisionError else Ok delta.

(** [range(a, b, step)] for a positive step. *)
Definition py_range (a b step : Z) : list Z :=
  map (λ i, a + Z.of_nat i * step)%Z (seq 0 (Z.to_nat ((b - a + step - 1) / step))).

(** The ticks [draw] prints on integer bounds. *)
Definition ticks (lo hi delta : Z) : list Z :=
  let start := (lo - lo mod delta + delta)%Z in
  let end_ := (hi - hi mod delta)%Z in
  py_range start (end_ + delta) delta.

(** ** The window and the mouse ([GraphicRenderer], [GtkGraphicRenderer])

    [width] is the width of the [GraphicRenderer], [bot_width] the one its lower
    scale was last laid out with, [gtk_width] the one of the widget.  The
    attributes a handler may read before they are assigned are options.
    [moving_right] is a number because [motion_notify] stores a width in it;
    [False] is [0]. *)
Record viewer := Viewer {
  r_start : num; r_end : num;
  width : Z; bot_width : Z; gtk_width : option Z;
  moving_left : bool; moving_right : num; moving_both : bool; moving_top : bool;
  left_cur : option num; right_cur : option num;
  both_start : option num; both_cur : option num;
  top_start : option num }.

Definition set_window (a b : num) (v : viewer) : viewer :=
  Viewer a b (width v) (bot_width v) (gtk_width v) (moving_left v) (moving_right v)
    (moving_both v) (moving_top v) (left_cur v) (right_cur v) (both_start v) (both_cur v)
    (top_start v).
Definition set_width (w : Z) (v : viewer) : viewer :=
  Viewer (r_start v) (r_end v) w (bot_width v) (gtk_width v) (moving_left v) (moving_right v)
    (moving_both v) (moving_top v) (left_cur v) (right_cur v) (both_start v) (both_cur v)
    (top_start v).
Definition set_bot_width (w : Z) (v : viewer) : viewer :=
  Viewer (r_start v) (r_end v) (width v) w (gtk_width v) (moving_left v) (moving_right v)
    (moving_both v) (moving_top v) (left_cur v) (right_cur v) (both_start v) (both_cur v)
    (top_start v).
Definition set_gtk_width (w : Z) (v : viewer) : viewer :=
  Viewer (r_start v) (r_end v) (width v) (bot_width v) (Some w) (moving_left v)
    (moving_right v) (moving_both v) (moving_top v) (left_cur v) (right_cur v) (both_start v)
    (both_cur v) (top_start v).
Definition set_moving (l : bool) (r : num) (b t : bool) (v : viewer) : viewer :=
  Viewer (r_start v) (r_end v) (width v) (bot_width v) (gtk_width v) l r b t
    (left_cur v) (right_cur v) (both_start v) (both_cur v) (top_start v).
Definition set_left_cur (x : num) (v : viewer) : viewer :=
  Viewer (r_start v) (r_end v) (width v) (bot_width v) (gtk_width v) (moving_left v)
    (moving_right v) (moving_both v) (moving_top v) (Some x) (right_cur v) (both_start v)
    (both_cur v) (top_start v).
Definition set_right_cur (x : num) (v : viewer) : viewer :=
  Viewer (r_start v) (r_end v) (width v) (bot_width v) (gtk_width v) (moving_left v)
    (moving_right v) (moving_both v) (moving_top v) (left_cur v) (Some x) (both_start v)
    (both_cur v) (top_start v).
Definition set_both (start cur : option num) (v : viewer) : viewer :=
  Viewer (r_start v) (r_end v) (width v) (bot_width v) (gtk_width v) (moving_left v)
    (moving_right v) (moving_both v) (moving_top v) (left_cur v) (right_cur v) start cur
    (top_start v).
Definition set_top_start (x : num) (v : viewer) : viewer :=
  Viewer (r_start v) (r_end v) (width v) (bot_width v) (gtk_width v) (moving_left v)
    (moving_right v) (moving_both v) (moving_top v) (left_cur v) (right_cur v) (both_start v)
    (both_cur v) (Some x).

(** What a handler leaves behind and what it returns. *)
Definition reply : Type := viewer * result exn bool.

(** Go on with the value of an expression, or stop in the state [v]. *)
Definition after {A} (v : viewer) (m : result exn A) (k : A → reply) : reply :=
  match m with Ok a => k a | Raise e => (v, Raise e) end.

Inductive event :=
  | Press (x y : Q)
  | Release
  | Motion (x y : Q)
  | Allocate (w : Z)
  | SmallerZoom
  | BiggerZoom.

Section Window.
(** [__start] and [__end]; the first column of the data, the heights of the
    data and of the two scales, and the texts of the legend. *)
Context (start_ end_ : Z).
Context (data_x_start data_height mid_height bot_height : Q) (legends : list (Q * Q)).

Definition legend_height (v : viewer) : Q := legend_layout (inject_Z (width v)) legends.

(** [GraphicRenderer.layout]: the upper scale shows the window, the lower one
    everything. *)
Definition layout (w : Z) (v : viewer) : viewer * result exn unit :=
  let v := set_width w v in
  match scale_layout (r_start v) (r_end v) with
  | Raise e => (v, Raise e)
  | Ok _ =>
      match scale_layout (Int start_) (Int end_) with
      | Raise e => (v, Raise e)
      | Ok _ => (set_bot_width w v, Ok tt)
      end
  end.

(** [__start] and [__end] of the renderer are floats. *)
Definition set_range (a b : num) (v : viewer) : viewer * result exn unit :=
  let s := num_min a b in
  let e := num_max a b in
  layout (width v)
    (set_window (num_max (Float (inject_Z start_)) s) (num_min (Float (inject_Z end_)) e) v).

(** [self.__bot_scale.get_position(x)]. *)
Definition get_position (v : viewer) (x : num) : result exn num :=
  num_div (num_mul (num_sub x (Int start_)) (Int (bot_width v))) (num_sub (Int end_) (Int start_)).

Definition get_selection_rectangle (v : viewer) : result exn (num * Q * num * Q) :=
  x_start ← get_position v (r_start v);
  x_end ← get_position v (r_end v);
  Ok (x_start, legend_height v + data_height + mid_height + 20, num_sub x_end x_start,
      bot_height + 20).

Definition get_data_rectangle (v : viewer) : Q * Q * Q * Q :=
  (data_x_start, legend_height v, inject_Z (width v) - data_x_start, data_height).

Definition scale_data (v : viewer) (x : num) : result exn num :=
  q ← num_div x (Float (inject_Z (width v) - data_x_start));
  Ok (num_mul q (num_sub (r_end v) (r_start v))).

Definition scale_selection (v : viewer) (x : num) : result exn num :=
  q ← num_div x (Int (width v)); Ok (num_mul q (Float (inject_Z end_ - inject_Z start_))).

(** [self.__data.set_range(a, b)], then [return True]. *)
Definition set_range_reply (a b : num) (v : viewer) : reply :=
  let '(v', r) := set_range a b v in after v' r (λ _, (v', Ok true)).

Definition near (a b : Q) : bool := qlt (Qabs (a - b)) 5.
Definition between (a lo hi : Q) : bool := qlt lo a && qlt a hi.

(** The position of an event is a float. *)
Definition button_press (ex ey : Q) (v : viewer) : reply :=
  after v (get_selection_rectangle v) (λ '(x, y, w, h),
    let '(d_x, d_y, d_width, d_height) := get_data_rectangle v in
    let inside := between ey y (y + h) in
    let right := val (num_add x w) in
    if inside && near ex (val x) then
      (set_moving true (moving_right v) (moving_both v) (moving_top v) v, Ok true)
    else if inside && near ex right then
      (set_moving (moving_left v) (Int 1) (moving_both v) (moving_top v) v, Ok true)
    else if inside && between ex (val x) right then
      (set_both (Some (Float ex)) (Some (Float ex))
         (set_moving (moving_left v) (moving_right v) true (moving_top v) v), Ok true)
    else if between ey d_y (d_y + d_height) && between ex d_x (d_x + d_width) then
      (set_top_start (Float ex)
         (set_moving (moving_left v) (moving_right v) (moving_both v) true v), Ok true)
    else (v, Ok false)).

Definition button_release (v : viewer) : reply :=
  if moving_left v then
    let v := set_moving false (moving_right v) (moving_both v) (moving_top v) v in
    after v (of_option AttributeError (left_cur v)) (λ cur,
    after v (scale_selection v cur) (λ left, set_range_reply left (r_end v) v))
  else if negb (is_zero (val (moving_right v))) then
    let v := set_moving (moving_left v) (Int 0) (moving_both v) (moving_top v) v in
    after v (of_option AttributeError (right_cur v)) (λ cur,
    after v (scale_selection v cur) (λ right, set_range_reply (r_start v) right v))
  else if moving_both v then
    let v := set_moving (moving_left v) (moving_right v) false (moving_top v) v in
    after v (of_option AttributeError (both_cur v)) (λ cur,
    after v (of_option AttributeError (both_start v)) (λ start,
    after v (scale_selection v (num_sub cur start)) (λ delta,
      set_range_reply (num_add (r_start v) delta) (num_add (r_end v) delta) v)))
  else
    (set_moving (moving_left v) (moving_right v) (moving_both v) false v, Ok false).

(** [queue_draw_area(0, int(y), int(self.__width), int(height))]. *)
Definition queue_draw_area (v : viewer) : reply :=
  after v (of_option AttributeError (gtk_width v)) (λ _, (v, Ok true)).

Definition motion_notify (ex ey : Q) (v : viewer) : reply :=
  after v (get_selection_rectangle v) (λ '(x, y, w, h),
    let right := num_add x w in
    if moving_left v then
      queue_draw_area (set_left_cur
        (if qle ex 0 then Int 0 else if qle (val right) ex then right else Float ex) v)
    else if negb (is_zero (val (moving_right v))) then
      after v (of_option AttributeError (gtk_width v)) (λ gw,
        queue_draw_area
          (if qle (inject_Z gw) ex then
             set_moving (moving_left v) (Int gw) (moving_both v) (moving_top v) v
           else if qlt ex (val x) then set_right_cur x v else set_right_cur (Float ex) v))
    else if moving_both v then
      after v (of_option AttributeError (gtk_width v)) (λ gw,
      after v (of_option AttributeError (both_start v)) (λ start,
        let cur_e := num_sub (Int gw) (num_sub right start) in
        let cur_s := num_sub start x in
        queue_draw_area (set_both (both_start v)
          (Some (if qlt ex (val cur_s) then cur_s
                 else if qlt (val cur_e) ex then cur_e else Float ex)) v)))
    else if moving_top v then
      after v (of_option AttributeError (top_start v)) (λ start,
      after v (scale_data v (num_sub start (Float ex))) (λ delta,
        let '(v', r) := set_range (num_add (r_start v) delta) (num_add (r_end v) delta) v in
        after v' r (λ _, (set_top_start (Float ex) v', Ok true))))
    else
      let '(d_x, d_y, d_width, d_height) := get_data_rectangle v in
      let inside := between ey y (y + h) in
      (v, Ok ((inside && (near ex (val x) || near ex (val right) ||
                          between ex (val x) (val right))) ||
              (between ey d_y (d_y + d_height) && between ex d_x (d_x + d_width))))).

Definition size_allocate (w : Z) (v : viewer) : reply :=
  let '(v', r) := layout w (set_gtk_width w v) in after v' r (λ _, (v', Ok false)).

Definition set_smaller_zoom (v : viewer) : reply :=
  set_range_reply (r_start v)
    (num_add (r_start v) (num_mul (num_sub (r_end v) (r_start v)) (Int 2))) v.

Definition set_bigger_zoom (v : viewer) : reply :=
  after v (num_div (num_sub (r_end v) (r_start v)) (Int 2)) (λ half,
    set_range_reply (r_start v) (num_add (r_start v) half) v).

Definition handle (v : viewer) (e : event) : reply :=
  match e with
  | Press x y => button_press x y v
  | Release => button_release v
  | Motion x y => motion_notify x y v
  | Allocate w => size_allocate w v
  | SmallerZoom => set_smaller_zoom v
  | BiggerZoom => set_bigger_zoom v
  end.

(** The main loop of Gtk. *)
Definition run_events (v : viewer) (es : list event) : viewer :=
  foldl (λ v e, (handle v e).1) v es.

(** [main]: the range shown first. *)
Definition default_range : Z * Z :=
  let range_mid := ((end_ - start_) / 2)%Z in
  let range_width := ((end_ - start_) / 10)%Z in
  (range_mid - range_width / 2, range_mid + range_width / 2)%Z.

Definition open_viewer : result exn viewer :=
  let '(v, r) := set_range (Int default_range.1) (Int default_range.2)
    (Viewer (Int 0) (Int 0) 1 1 None false (Int 0) false false None None None None None) in
  _ ← r; Ok v.
End Window.

(** ** Lemmas on the legend *)
Section Legend.
Context (width : Q).

Definition legend_total (s : legend_line) (legends : list (Q * Q)) : Q :=
  let s' := foldl (place width) s legends in total_height s' + line_height s'.

Definition measured (item : Q * Q) : Prop := 0 <= item.1 ∧ 0 <= item.2.

Definition line_ok (s : legend_line) : Prop := 0 <= line_height s ∧ padding <= line_used s.

(** What one placement does to the line. *)
Lemma place_spec s item (s' := place width s item) :
  line_ok s → measured item →
  line_ok s' ∧ line_height s <= line_height s' ∧ item_height item <= line_height s' ∧
  padding <= line_used s' - item_width item ∧
  (line_used s' <= width ∨ line_used s' - item_width item == padding) ∧
  ((total_height s' == total_height s ∧ line_used s <= line_used s' - item_width item) ∨
   total_height s + line_height s' <= total_height s').
Proof.
  subst s'. unfold line_ok, measured, place, item_width, item_height, padding.
  intros [? ?] [? ?]. cbn. repeat qcase; cbn; repeat split; try lra;
    (left; lra) || (right; lra).
Qed.

Lemma legend_total_ge s legends :
  line_ok s → Forall measured legends →
  total_height s + line_height s <= legend_total s legends.
Proof.
  revert s. induction legends as [|item legends IH]; intros s Hs Hl;
    [unfold legend_total; cbn; lra|].
  inversion_clear Hl as [|? ? Hi Hl'].
  pose proof (place_spec s item Hs Hi) as (Hs' & ? & ? & ? & ? & Hrow).
  specialize (IH _ Hs' Hl'). change (legend_total s (item :: legends))
    with (legend_total (place width s item) legends).
  assert (total_height s <= total_height (place width s item)) by
    (destruct Hs, Hrow as [[? ?]|?]; lra).
  lra.
Qed.

(** A legend drawn from line [s] on: inside, and clear of what was drawn
    before [s]. *)
Definition drawn_after (s : legend_line) (total : Q) (box item : Q * Q) : Prop :=
  padding <= box.1 ∧ (box.1 + item_width item <= width ∨ box.1 == padding) ∧
  box.2 + item_height item <= total ∧
  ((box.2 == total_height s ∧ line_used s <= box.1) ∨
   total_height s + line_height s <= box.2).

Lemma draw_after s legends :
  line_ok s → Forall measured legends →
  Forall2 (drawn_after s (legend_total s legends)) (legend_draw width s legends) legends.
Proof.
  revert s. induction legends as [|item legends IH]; intros s Hs Hl; [constructor|].
  inversion_clear Hl as [|? ? Hi Hl'].
  pose proof (place_spec s item Hs Hi) as (Hs' & ? & ? & ? & ? & Hrow).
  pose proof (legend_total_ge _ _ Hs' Hl') as Htot.
  specialize (IH _ Hs' Hl'). cbn [legend_draw].
  change (legend_total s (item :: legends)) with (legend_total (place width s item) legends).
  constructor.
  - unfold drawn_after. cbn. repeat split; try lra; destruct Hrow; lra.
  - eapply Forall2_impl; [exact IH|]. intros box it (? & ? & ? & Hrow').
    unfold drawn_after. repeat split; try done.
    unfold item_width, padding, measured in *.
    destruct Hi, Hs, Hs'. destruct Hrow as [[? ?]|?], Hrow' as [[? ?]|?]; (left; lra) || (right; lra).
Qed.

(** Two boxes side by side, or one above the other. *)
Definition disjoint_boxes (b1 i1 b2 : Q * Q) : Prop :=
  (b2.2 == b1.2 ∧ b1.1 + item_width i1 <= b2.1) ∨ b1.2 + item_height i1 <= b2.2.

Lemma draw_disjoint s legends :
  line_ok s → Forall measured legends →
  ∀ i j b1 i1 b2, (i < j)%nat →
    legend_draw width s legends !! i = Some b1 → legends !! i = Some i1 →
    legend_draw width s legends !! j = Some b2 → disjoint_boxes b1 i1 b2.
Proof.
  revert s. induction legends as [|item legends IH]; intros s Hs Hl i j b1 i1 b2 Hij H1 H1' H2;
    [done|].
  inversion_clear Hl as [|? ? Hi Hl'].
  pose proof (place_spec s item Hs Hi) as (Hs' & ? & ? & ? & ? & Hrow).
  destruct j as [|j]; [lia|]. cbn in H2. destruct i as [|i].
  - cbn in H1, H1'. simplify_eq.
    pose proof (draw_after _ _ Hs' Hl') as Hd.
    destruct (Forall2_lookup_l _ _ _ _ _ Hd H2) as (it & _ & _ & _ & _ & Hb).
    unfold disjoint_boxes. cbn. destruct Hb as [[? ?]|?]; [left|right]; lra.
  - eapply (IH _ Hs' Hl' i j); eauto; lia.
Qed.
End Legend.

(** ** Lemmas on the scale *)
Lemma inject_Z_1 z : (1 <= z)%Z → 0 < inject_Z z.
Proof. intros. change 0 with (inject_Z 0). rewrite <- Zlt_Qlt. lia. Qed.

Lemma closest_loop_spec fuel d c :
  (1 <= c)%Z → d <= inject_Z (c * 2 ^ Z.of_nat fuel) →
  ∃ k, closest_loop (S fuel) d c = Ok (c * 10 ^ Z.of_nat k)%Z ∧
    d <= inject_Z (c * 10 ^ Z.of_nat k * 10) ∧
    (k = O ∨ inject_Z (c * 10 ^ Z.of_nat k) < d).
Proof.
  revert c. induction fuel as [|fuel IH]; intros c Hc Hd; cbn [closest_loop].
  - exists O. rewrite Z.mul_1_r in *.
    assert (inject_Z c <= inject_Z (c * 10)) by (rewrite <- Zle_Qle; lia).
    qcase; [lra|]. split_and!; [done|lra|by left].
  - qcase.
    + destruct (IH (c * 10)%Z) as (k & Hk & ? & Hor); [lia|..].
      { eapply Qle_trans; [exact Hd|]. rewrite <- Zle_Qle.
        rewrite Nat2Z.inj_succ, Z.pow_succ_r by lia. nia. }
      exists (S k). rewrite Nat2Z.inj_succ, Z.pow_succ_r by lia.
      replace (c * (10 * 10 ^ Z.of_nat k))%Z with (c * 10 * 10 ^ Z.of_nat k)%Z by lia.
      split_and!; [exact Hk|done|right]. destruct Hor as [->|]; [|done].
      by rewrite Z.mul_1_r.
    + exists O. rewrite Z.mul_1_r. split_and!; [done|done|by left].
Qed.

(** The loop ends, at the last power of ten below [d], or at 1. *)
Lemma closest_spec d :
  ∃ k, closest_loop (S (Z.to_nat (Z.log2_up (Qceiling d)))) d 1 = Ok (10 ^ Z.of_nat k)%Z ∧
    d <= inject_Z (10 ^ Z.of_nat k * 10) ∧ (k = O ∨ inject_Z (10 ^ Z.of_nat k) < d).
Proof.
  destruct (closest_loop_spec (Z.to_nat (Z.log2_up (Qceiling d))) d 1) as (k & Hk); [lia|..].
  { pose proof (Qle_ceiling d). eapply Qle_trans; [done|]. rewrite <- Zle_Qle, Z.mul_1_l.
    rewrite Z2Nat.id by apply Z.log2_up_nonneg.
    destruct (decide (Qceiling d <= 1)%Z) as [|];
      [pose proof (Z.pow_pos_nonneg 2 (Z.log2_up (Qceiling d))) as Hp;
       pose proof (Z.log2_up_nonneg (Qceiling d)); lia|].
    apply Z.log2_log2_up_spec; lia. }
  exists k. rewrite !Z.mul_1_l in Hk. exact Hk.
Qed.

Lemma pow10_pos k : (1 <= 10 ^ Z.of_nat k)%Z.
Proof. pose proof (Z.pow_pos_nonneg 10 (Z.of_nat k)). lia. Qed.

Lemma pow10_div k : (10 ^ Z.of_nat (S k) / 10 = 10 ^ Z.of_nat k)%Z.
Proof. rewrite Nat2Z.inj_succ, Z.pow_succ_r, Z.mul_comm by lia. by apply Z.div_mul. Qed.

Lemma Qeq_inject a b : inject_Z a == inject_Z b ↔ a = b.
Proof. unfold Qeq. cbn. lia. Qed.

Lemma Qeq_bool_inject a b : Qeq_bool (inject_Z a) (inject_Z b) = bool_decide (a = b).
Proof.
  apply eq_true_iff_eq. by rewrite Qeq_bool_iff, bool_decide_eq_true, Qeq_inject.
Qed.

Lemma num_div_pos x c :
  (1 <= c)%Z → num_div x (Int c) =
    Ok (match x with Int a => Int (a / c) | Float q => Float (q / inject_Z c) end).
Proof.
  intros Hc. unfold num_div. pose proof (inject_Z_1 _ Hc).
  destruct (is_zero (val (Int c))) eqn:E; [apply is_zero_spec in E; cbn in E; lra|].
  by destruct x.
Qed.

(** On an integer difference only 1 gets the delta 0; from 2 on there are
    between 2 and 20 deltas in it. *)
Lemma integer_delta n :
  (n = 1%Z ∧ scale_delta (Int n) = Ok 0%Z) ∨
  (n ≠ 1%Z ∧ ∃ δ, scale_delta (Int n) = Ok δ ∧ (1 <= δ)%Z ∧
     ((2 <= n)%Z → (2 * δ <= n < 20 * δ)%Z)).
Proof.
  unfold scale_delta. cbn [val].
  destruct (closest_spec (inject_Z n)) as (k & -> & Hle & Hor). rewrite bind_Ok.
  pose proof (pow10_pos k) as Hc. set (c := (10 ^ Z.of_nat k)%Z) in *.
  rewrite <- Zle_Qle in Hle.
  assert (k = O ∨ (c < n)%Z) as Hor' by
    (destruct Hor; [by left|right]; by rewrite Zlt_Qlt).
  rewrite num_div_pos, bind_Ok by done. cbn [val].
  unfold is_zero. change 0 with (inject_Z 0). change 1 with (inject_Z 1).
  rewrite !Qeq_bool_inject.
  pose proof (Z.div_mod n c) as Hdm. pose proof (Z.mod_pos_bound n c) as Hmb.
  case_bool_decide as H0; [|case_bool_decide as H1].
  - right. destruct Hor' as [->|]; [|nia]. cbn in c. split; [nia|].
    exists c. split_and!; [done|lia|nia].
  - destruct k as [|k].
    + left. cbn in c. split; [nia|done].
    + right. destruct Hor' as [|Hlt]; [done|].
      assert (c / 10 = 10 ^ Z.of_nat k ∧ c = 10 * 10 ^ Z.of_nat k)%Z as [Hdiv Hc10].
      { subst c. split; [apply pow10_div|]. rewrite Nat2Z.inj_succ, Z.pow_succ_r by lia. done. }
      pose proof (pow10_pos k). split; [nia|].
      exists (c / 10)%Z. split_and!; [done|lia|rewrite Hdiv; nia].
  - right. destruct Hor' as [->|]; cbn in c; (split; [nia|]);
      exists c; split_and!; try done; nia.
Qed.

(** On floats the same difference gets the delta 0. *)
Lemma float_delta d :
  (d == 1 ∧ scale_delta (Float d) = Ok 0%Z) ∨
  (¬ d == 1 ∧ ∃ δ, scale_delta (Float d) = Ok δ ∧ (1 <= δ)%Z).
Proof.
  unfold scale_delta. cbn [val].
  destruct (closest_spec d) as (k & -> & Hle & Hor). rewrite bind_Ok.
  pose proof (pow10_pos k) as Hc. pose proof (inject_Z_1 _ Hc) as Hq.
  rewrite num_div_pos, bind_Ok by done. cbn [val].
  assert (is_zero (d / inject_Z (10 ^ Z.of_nat k)) = true ↔ d == 0) as Hz.
  { rewrite is_zero_spec. split; intros Hr.
    - rewrite <- (Qmult_div_r d (inject_Z (10 ^ Z.of_nat k))), Hr by lra. lra.
    - rewrite Hr. unfold Qdiv. lra. }
  assert (Qeq_bool (d / inject_Z (10 ^ Z.of_nat k)) 1 = true ↔
          d == inject_Z (10 ^ Z.of_nat k)) as H1.
  { rewrite Qeq_bool_iff. split; intros Hr.
    - rewrite <- (Qmult_div_r d (inject_Z (10 ^ Z.of_nat k))), Hr by lra. lra.
    - rewrite Hr. unfold Qdiv. apply Qmult_inv_r. lra. }
  destruct (is_zero _) eqn:Ez; [|destruct (Qeq_bool _ _) eqn:E1].
  - right. split; [apply proj1 in Hz; rewrite Hz by done; lra|eauto].
  - assert (d == inject_Z (10 ^ Z.of_nat k)) as Hd by by apply H1.
    destruct k as [|k].
    + left. cbn in Hd. by split.
    + destruct Hor; [done|lra].
  - right. split; [|eauto]. intros Hd.
    destruct Hor as [->|Hlt].
    + discriminate (proj2 H1 Hd).
    + destruct k as [|k].
      * change (1 < d) in Hlt. lra.
      * assert (10 <= 10 ^ Z.of_nat (S k))%Z as H10.
        { rewrite Nat2Z.inj_succ, Z.pow_succ_r by lia. pose proof (pow10_pos k). lia. }
        rewrite Zle_Qle in H10. change (inject_Z 10) with 10 in H10. lra.
Qed.

(** [scale_layout] raises nothing but a [ZeroDivisionError]. *)
Lemma scale_layout_cases lo hi :
  scale_layout lo hi = Raise ZeroDivisionError ∨ ∃ δ, scale_layout lo hi = Ok δ.
Proof.
  unfold scale_layout.
  assert (∃ δ, scale_delta (num_sub hi lo) = Ok δ) as [δ ->].
  { destruct (num_sub hi lo) as [n|q].
    - destruct (integer_delta n) as [[_ ?]|(_ & ? & ? & _)]; eauto.
    - destruct (float_delta q) as [[_ ?]|(_ & ? & ? & _)]; eauto. }
  rewrite bind_Ok. case_bool_decide; eauto.
Qed.

Lemma elem_of_py_range a b step x :
  (1 <= step)%Z →
  x ∈ py_range a b step ↔ ∃ i, (0 <= i)%Z ∧ x = (a + i * step)%Z ∧ (x < b)%Z.
Proof.
  intros Hs. unfold py_range. rewrite list_elem_of_fmap.
  setoid_rewrite elem_of_seq.
  pose proof (Z.div_mod (b - a + step - 1) step) as Hdm.
  pose proof (Z.mod_pos_bound (b - a + step - 1) step) as Hmb. split.
  - intros (i & -> & _ & Hi). exists (Z.of_nat i). split_and!; [lia|done|]. nia.
  - intros (i & Hi & -> & Hb). exists (Z.to_nat i). rewrite Z2Nat.id by done.
    split; [done|]. split; [lia|]. apply Nat2Z.inj_lt. cbn. rewrite Z2Nat.id by done.
    destruct (decide (i < (b - a + step - 1) / step)%Z); [lia|]. nia.
Qed.

Lemma length_py_range a b step :
  length (py_range a b step) = Z.to_nat ((b - a + step - 1) / step).
Proof. unfold py_range. by rewrite length_map, length_seq. Qed.

Lemma elem_of_ticks lo hi δ x :
  (1 <= δ)%Z → x ∈ ticks lo hi δ ↔ (δ | x)%Z ∧ (lo < x <= hi)%Z.
Proof.
  intros Hδ. unfold ticks. rewrite elem_of_py_range by done.
  pose proof (Z.div_mod lo δ) as Hl. pose proof (Z.mod_pos_bound lo δ).
  pose proof (Z.div_mod hi δ) as Hh. pose proof (Z.mod_pos_bound hi δ). split.
  - intros (i & Hi & -> & Hb).
    assert (lo - lo mod δ + δ + i * δ = (lo / δ + 1 + i) * δ)%Z as Hx by nia.
    rewrite Hx in *. split; [by exists (lo / δ + 1 + i)%Z|].
    assert (lo / δ + 1 + i < hi / δ + 1)%Z by nia. nia.
  - intros [[m ->] Hm]. exists (m - (lo / δ + 1))%Z.
    assert (lo / δ < m)%Z by nia. assert (m < hi / δ + 1)%Z by nia. nia.
Qed.

Lemma length_ticks lo hi δ :
  (1 <= δ)%Z → length (ticks lo hi δ) = Z.to_nat (hi / δ - lo / δ).
Proof.
  intros Hδ. unfold ticks. rewrite length_py_range. f_equal.
  pose proof (Z.div_mod lo δ) as Hl. pose proof (Z.div_mod hi δ) as Hh.
  replace (hi - hi mod δ + δ - (lo - lo mod δ + δ) + δ - 1)%Z
    with (δ - 1 + (hi / δ - lo / δ) * δ)%Z by nia.
  rewrite Z.div_add, Z.div_small by lia. lia.
Qed.

(** ** Lemmas on the window *)
Section WindowLemmas.
Context (start_ end_ : Z).
Context (data_x_start data_height mid_height bot_height : Q) (legends : list (Q * Q)).
#[local] Abbreviation layout := (layout start_ end_).
#[local] Abbreviation set_range := (set_range start_ end_).
#[local] Abbreviation handle := (handle start_ end_ data_x_start data_height mid_height bot_height legends).
#[local] Abbreviation run_events :=
  (run_events start_ end_ data_x_start data_height mid_height bot_height legends).
#[local] Abbreviation button_release := (button_release start_ end_).

(** What the laying out changes, and what it can raise. *)
Lemma layout_spec w v :
  ∃ b, (layout w v).1 = set_bot_width b (set_width w v) ∧
    ((layout w v).2 = Ok tt ∨ (layout w v).2 = Raise ZeroDivisionError).
Proof.
  unfold Viewer.layout.
  destruct (scale_layout_cases (r_start (set_width w v)) (r_end (set_width w v)))
    as [->|[? ->]]; [by exists (bot_width v); destruct v; split; [|right]|].
  destruct (scale_layout_cases (Int start_) (Int end_)) as [->|[? ->]];
    [by exists (bot_width v); destruct v; split; [|right]|].
  exists w. by split; [|left].
Qed.

Definition bounded (v : viewer) : Prop :=
  inject_Z start_ <= val (r_start v) ∧ val (r_end v) <= inject_Z end_.

(** The attributes a started move needs are there. *)
Definition armed (v : viewer) : Prop :=
  (moving_both v = true → is_Some (both_start v) ∧ is_Some (both_cur v)) ∧
  (moving_top v = true → is_Some (top_start v)).

Definition viewer_inv (v : viewer) : Prop := bounded v ∧ armed v.

Lemma layout_inv w v : viewer_inv v → viewer_inv (layout w v).1.
Proof. intros Hv. destruct (layout_spec w v) as (b & -> & _). by destruct v. Qed.

Lemma set_range_inv a b v : armed v → viewer_inv (set_range a b v).1.
Proof.
  intros Hv. apply layout_inv. split; [|by destruct v].
  split; cbn [r_start r_end set_window]; [apply (num_max_ge (Float _))|apply (num_min_le (Float _))].
Qed.

Lemma set_range_raises a b v e : (set_range a b v).2 = Raise e → e = ZeroDivisionError.
Proof.
  unfold Viewer.set_range. match goal with |- context [layout ?w ?u] =>
    destruct (layout_spec w u) as (? & _ & [->| ->]) end; congruence.
Qed.

Lemma after_inv {A} (P : viewer → Prop) v (m : result exn A) k :
  P v → (∀ a, m = Ok a → P (k a).1) → P (after v m k).1.
Proof. intros. destruct m; cbn; auto. Qed.

Lemma set_range_reply_inv a b v :
  armed v → viewer_inv (set_range_reply start_ end_ a b v).1.
Proof.
  intros Hv. unfold set_range_reply. pose proof (set_range_inv a b v Hv).
  destruct (set_range a b v) as [v' r]. by apply after_inv.
Qed.

Lemma set_range_reply_raises a b v e :
  (set_range_reply start_ end_ a b v).2 = Raise e → e = ZeroDivisionError.
Proof.
  unfold set_range_reply. pose proof (set_range_raises a b v) as H.
  destruct (set_range a b v) as [v' [[]|e']]; [done|]. cbn in *. intros [= ->]. by apply H.
Qed.

Lemma scale_selection_raises v x e :
  scale_selection start_ end_ v x = Raise e → e = ZeroDivisionError.
Proof.
  unfold scale_selection, num_div. destruct (is_zero _); cbn; [congruence|].
  by destruct x.
Qed.

Lemma press_inv ex ey v : viewer_inv v →
  viewer_inv (handle v (Press ex ey)).1.
Proof.
  intros [Hb [Ha Ht]]. cbn [Viewer.handle]. unfold button_press.
  apply after_inv; [done|]. intros [[[x y] w] h] _.
  unfold get_data_rectangle. repeat case_match; try done;
    (split; [done|split; cbn; [naive_solver|intros; naive_solver]]).
Qed.

Lemma release_inv v : viewer_inv v → viewer_inv (button_release v).1.
Proof.
  intros [Hb [Ha Ht]]. unfold Viewer.button_release.
  repeat case_match; repeat (apply after_inv; [|intros ? ?]);
    try (apply set_range_reply_inv); split; try done; by split.
Qed.

Lemma motion_inv ex ey v : viewer_inv v → viewer_inv (handle v (Motion ex ey)).1.
Proof.
  intros Hv. pose proof Hv as [Hb [Ha Ht]]. cbn [Viewer.handle]. unfold motion_notify.
  apply after_inv; [done|]. intros [[[x y] w] h] _.
  unfold queue_draw_area, get_data_rectangle. cbv zeta.
  destruct (moving_left v); [by apply after_inv|].
  destruct (is_zero (val (moving_right v))); cbn [negb].
  2:{ apply after_inv; [done|intros gw _]. apply after_inv; repeat case_match; done. }
  destruct (moving_both v) eqn:Hboth.
  { apply after_inv; [done|intros gw _]. apply after_inv; [done|intros s Hs].
    apply after_inv; [|intros _ _]; (split; [done|split; cbn; naive_solver]). }
  destruct (moving_top v) eqn:Htop; [|done].
  apply after_inv; [done|intros s Hs].
  apply after_inv; [done|intros d Hd].
  pose proof (set_range_inv (num_add (r_start v) d) (num_add (r_end v) d) v) as Hr.
  destruct (set_range _ _ _) as [v' r]. cbn in Hr.
  destruct Hr as [Hb' [Ha' Ht']]; [split; naive_solver|].
  apply after_inv; [by split|]. intros _ _. split; [done|split; cbn; naive_solver].
Qed.

Lemma handle_inv v e : viewer_inv v → viewer_inv (handle v e).1.
Proof.
  intros Hv. destruct e; cbn [Viewer.handle].
  - by apply press_inv.
  - by apply release_inv.
  - by apply motion_inv.
  - unfold size_allocate. pose proof (layout_inv w (set_gtk_width w v)) as H.
    destruct (layout _ _) as [v' r]. specialize (H Hv). by apply after_inv.
  - apply set_range_reply_inv, Hv.
  - unfold set_bigger_zoom. apply after_inv; [done|]. intros. apply set_range_reply_inv, Hv.
Qed.

Lemma open_viewer_spec v :
  open_viewer start_ end_ = Ok v → viewer_inv v ∧
    let lo := Int (default_range start_ end_).1 in
    let hi := Int (default_range start_ end_).2 in
    r_start v = num_max (Float (inject_Z start_)) (num_min lo hi) ∧
    r_end v = num_min (Float (inject_Z end_)) (num_max lo hi).
Proof.
  unfold open_viewer. match goal with |- context [set_range ?a ?b ?u] =>
    pose proof (set_range_inv a b u) as H; unfold Viewer.set_range in *;
    destruct (layout_spec (width u) (set_window (num_max (Float (inject_Z start_)) (num_min a b))
      (num_min (Float (inject_Z end_)) (num_max a b)) u)) as (bw & Heq & Hr) end.
  destruct (layout _ _) as [v' r]. cbn in Heq, Hr.
  destruct Hr as [->| ->]; intros [= <-]. cbn [fst] in H. split; [by apply H|].
  by subst v'.
Qed.

Lemma run_events_inv v es : viewer_inv v → viewer_inv (run_events v es).
Proof.
  unfold Viewer.run_events. revert v. induction es as [|e es IH]; intros v Hv; [done|].
  cbn. by apply IH, handle_inv.
Qed.
End WindowLemmas.

(** ** Properties *)

(** the legend is legible: for texts of non-negative size [draw] places as
    many boxes as there are legends, each inside the padding, inside the height
    [layout] announced and inside the width unless it is alone too wide for a
    line, and no two boxes overlap: of two legends the later one is to the right
    on the same line or entirely below. *)
Theorem legend_fits (w : Q) (legends : list (Q * Q)) (Hm : Forall measured legends) :
  let boxes := legend_draw w legend_start legends in
  length boxes = length legends ∧
  (∀ i box item, boxes !! i = Some box → legends !! i = Some item →
     padding <= box.1 ∧ (box.1 + item_width item <= w ∨ box.1 == padding) ∧
     padding <= box.2 ∧ box.2 + item_height item <= legend_layout w legends) ∧
  (∀ i j b1 i1 b2, (i < j)%nat → boxes !! i = Some b1 → legends !! i = Some i1 →
     boxes !! j = Some b2 → disjoint_boxes b1 i1 b2).
Proof.
  intros boxes.
  assert (line_ok legend_start) as Hs by (split; unfold legend_start, padding; cbn; lra).
  pose proof (draw_after w _ _ Hs Hm) as Hd. split_and!.
  - by eapply Forall2_length.
  - intros i box item Hb Hi.
    destruct (Forall2_lookup_lr _ _ _ _ _ _ Hd Hb Hi) as (? & ? & Hh & Hrow).
    cbn in Hrow. unfold padding in *. split_and!; try done. destruct Hrow as [[? ?]|?]; lra.
  - by apply draw_disjoint.
Qed.

Lemma legend_fits_witness :
  let legends := [(40, 10); (100, 12); (30, 10)] in
  let boxes := legend_draw 150 legend_start legends in
  length boxes = 3%nat ∧ legend_layout 150 legends == 54 + 22.
Proof.
  split; [|vm_compute; reflexivity].
  apply (legend_fits 150 [(40, 10); (100, 12); (30, 10)]).
  by repeat constructor.
Defined.

(** the scale on integer bounds: a distance of 1 makes [layout] divide by
    zero; for any other pair of bounds the search for the power of ten ends, the
    ticks drawn are exactly the multiples of the delta above the lower bound and
    up to the upper one, and from a distance of 2 on there are between 2 and 20
    of them. *)
Theorem integer_scale (lo hi : Z) :
  ((hi - lo = 1)%Z →
     scale_layout (Int lo) (Int hi) = Raise ZeroDivisionError) ∧
  ((hi - lo ≠ 1)%Z → ∃ δ,
     scale_layout (Int lo) (Int hi) = Ok δ ∧
     (∀ x, x ∈ ticks lo hi δ ↔ (δ | x)%Z ∧ (lo < x <= hi)%Z) ∧
     ((lo + 2 <= hi)%Z → (2 ≤ length (ticks lo hi δ) ≤ 20)%nat)).
Proof.
  unfold scale_layout. cbn [num_sub].
  destruct (integer_delta (hi - lo)) as [[Hn ->]|(Hn & δ & -> & Hδ & Hb)].
  - split; [done|lia].
  - split; [lia|intros _]. exists δ. rewrite bind_Ok, bool_decide_eq_false_2 by lia.
    split_and!; [done|by intros; apply elem_of_ticks|].
    intros H2. rewrite length_ticks by done. specialize (Hb ltac:(lia)).
    pose proof (Z.div_mod lo δ). pose proof (Z.mod_pos_bound lo δ).
    pose proof (Z.div_mod hi δ). pose proof (Z.mod_pos_bound hi δ). nia.
Qed.

(** whatever the user does, the window stays inside the data: after any
    sequence of mouse, zoom and resize events, exceptions in the handlers
    included, the range shown starts no earlier than the first bound and ends no
    later than the last one. *)
Theorem viewer_range_bounded (start_ end_ : Z) (data_x_start data_height mid_height bot_height : Q)
    (legends : list (Q * Q)) (v : viewer) (es : list event)
    (Hv : open_viewer start_ end_ = Ok v) :
  let v' := run_events start_ end_ data_x_start data_height mid_height bot_height legends v es in
  inject_Z start_ <= val (r_start v') ∧ val (r_end v') <= inject_Z end_.
Proof.
  cbv zeta. apply (run_events_inv start_ end_ data_x_start data_height mid_height bot_height legends).
  by apply (open_viewer_spec start_ end_ v).
Qed.

(** The viewer of the bounds 0 and 1000, 500 pixels wide with 100 of them left
    of the data. *)
Definition sample_viewer : viewer :=
  Viewer (Int 450) (Int 550) 1 1 None false (Int 0) false false None None None None None.

Definition sample_run (es : list event) : viewer :=
  run_events 0 1000 100 50 20 20 [] sample_viewer (Allocate 500 :: es).

Lemma viewer_range_bounded_witness :
  let v' := sample_run [SmallerZoom; SmallerZoom; SmallerZoom; SmallerZoom] in
  r_end v' = Float 1000 ∧ inject_Z 0 <= val (r_start v') ∧ val (r_end v') <= inject_Z 1000.
Proof.
  cbv zeta. split; [by vm_compute|].
  apply (viewer_range_bounded 0 1000 100 50 20 20 [] sample_viewer
    [Allocate 500; SmallerZoom; SmallerZoom; SmallerZoom; SmallerZoom]).
  vm_compute. reflexivity.
Defined.

(** releasing the button fails with an [AttributeError] in exactly two
    situations, whatever happened before: the left edge was grabbed and no motion
    has ever recorded a position for it, or the right edge was; moving the whole
    window always finds its positions. *)
Theorem release_attribute_error (start_ end_ : Z)
    (data_x_start data_height mid_height bot_height : Q)
    (legends : list (Q * Q)) (v0 : viewer) (es : list event)
    (Hv : open_viewer start_ end_ = Ok v0) :
  let v := run_events start_ end_ data_x_start data_height mid_height bot_height legends v0 es in
  (button_release start_ end_ v).2 = Raise AttributeError ↔
  (moving_left v = true ∧ left_cur v = None) ∨
  (moving_left v = false ∧ ¬ val (moving_right v) == 0 ∧ right_cur v = None).
Proof.
  cbv zeta. destruct (open_viewer_spec start_ end_ v0 Hv) as [Hinv _].
  destruct (run_events_inv start_ end_ data_x_start data_height mid_height bot_height legends
    v0 es Hinv) as [_ [Hboth _]].
  set (v := run_events _ _ _ _ _ _ _ v0 es) in *. clearbody v.
  rewrite <- is_zero_spec. unfold button_release.
  assert (∀ u x k, (∀ q, (k q).2 ≠ Raise AttributeError) →
    (after u (scale_selection start_ end_ u x) k).2 ≠ Raise AttributeError) as Hscale.
  { intros u x k Hk. destruct (scale_selection _ _ u x) eqn:He; cbn; [apply Hk|].
    apply scale_selection_raises in He. congruence. }
  assert (∀ a b u, (set_range_reply start_ end_ a b u).2 ≠ Raise AttributeError) as Hset.
  { intros a b u He. by apply set_range_reply_raises in He. }
  destruct (moving_left v) eqn:Hl; [|destruct (is_zero (val (moving_right v))) eqn:Hr;
    [destruct (moving_both v) eqn:Hb|]]; cbn.
  - destruct (left_cur v); cbn; [|naive_solver].
    split; [|naive_solver]. intros He. exfalso. revert He. by apply Hscale.
  - destruct (Hboth eq_refl) as [[s ->] [c ->]]. cbn.
    split; [|naive_solver]. intros He. exfalso. revert He. by apply Hscale.
  - naive_solver.
  - destruct (right_cur v); cbn; [|naive_solver].
    split; [|naive_solver]. intros He. exfalso. revert He. by apply Hscale.
Qed.

(** Grabbing the right edge at 275 and dragging it past the border of the
    widget stores the width in the wrong attribute: the release fails. *)
Lemma release_attribute_error_witness :
  let v := sample_run [Press 275 120; Motion 600 120] in
  moving_right v = Int 500 ∧ (button_release 0 1000 v).2 = Raise AttributeError.
Proof.
  cbv zeta. split; [by vm_compute|].
  apply (release_attribute_error 0 1000 100 50 20 20 [] sample_viewer
    [Allocate 500; Press 275 120; Motion 600 120]); [by vm_compute|].
  right. split_and!; [by vm_compute| |by vm_compute].
  intros H. vm_compute in H. discriminate H.
Defined.

(** Integers make the left edge fall back to the start: in the first window the
    right edge is an integer, and dragging the left edge to it and releasing
    divides two integers. *)
Lemma left_edge_on_right_edge :
  let v := sample_run [Press 225 120; Motion 400 120] in
  left_cur v = Some (Int 275) ∧ scale_selection 0 1000 v (Int 275) = Ok (Float 0).
Proof. by vm_compute. Qed.

(** What the viewer shows first.  The first bound is 0 ([get_bounds] starts from
    0 and [read_data] reads no sign): the window is in order, inside the data and
    around their middle. *)
Theorem default_range_middle (end_ : Z) (v : viewer) :
  (0 <= end_)%Z → open_viewer 0 end_ = Ok v →
  let '(lo, hi) := default_range 0 end_ in
  val (r_start v) == inject_Z lo ∧ val (r_end v) == inject_Z hi ∧
  (0 <= lo <= hi)%Z ∧ (hi <= end_)%Z ∧ (lo + hi = 2 * (end_ / 2))%Z.
Proof.
  intros He Hv. destruct (open_viewer_spec 0 end_ v Hv) as (_ & -> & ->).
  destruct (default_range 0 end_) as [lo hi] eqn:Hd. cbn [fst snd].
  assert (0 <= lo <= hi ∧ hi <= end_ ∧ lo + hi = 2 * (end_ / 2))%Z as (Hlo & Hhi & ?).
  { unfold default_range in Hd. injection Hd as <- <-. rewrite Z.sub_0_r.
    pose proof (Z.div_mod end_ 2). pose proof (Z.mod_pos_bound end_ 2).
    pose proof (Z.div_mod end_ 10). pose proof (Z.mod_pos_bound end_ 10).
    set (w := (end_ / 10)%Z) in *.
    pose proof (Z.div_mod w 2). pose proof (Z.mod_pos_bound w 2). lia. }
  split_and!; try lia; rewrite !Zle_Qle in *;
    assert (num_min (Int lo) (Int hi) = Int lo ∧ val (num_max (Int lo) (Int hi)) == inject_Z hi)
      as [Hmin Hm] by (unfold num_min, num_max; repeat qcase; cbn [val] in *; split; done || lra);
    rewrite ?Hmin; [unfold num_max|unfold num_min at 1]; qcase; cbn [val] in *; lra.
Qed.
