(* ===== verification/Drawing.v ===== *)
(** * What [utils/grid.py] draws

    The drawing methods (lines 284-313, 314-470, 514-551 and 621-749), the
    redrawing of the widget and the image it saves (780-786, 917-950).  A method
    is the list of the calls it makes on its cairo context, so that a theorem
    about the picture is one about that list.  The extents of a text, of which
    the code uses the bearing, the width and the height, are a parameter. *)

From S2P Require Import Prelude Rat Viewer Timeline.
From Stdlib Require Import Qround.

Local Open Scope string_scope.
Local Open Scope list_scope.
Local Open Scope Q_scope.

Inductive cairo_call :=
  | MoveTo (x y : Q) | LineTo (x y : Q) | RelLineTo (dx dy : Q) | ClosePath
  | Rectangle (x y w h : Q)
  | SetSourceRgb (r g b : Q) | SetLineWidth (w : Q) | SetOperatorSource
  | SetDash (l : list Q) (offset : Q)
  | Stroke | StrokePreserve | Fill | ShowText (s : string)
  | Translate (x y : Q) | Save | Restore
  | Clip | SetSourceSurface (s : list cairo_call) | Paint.

Definition black : cairo_call := SetSourceRgb 0 0 0.
Definition grey_rgb : cairo_call := SetSourceRgb (9#10) (9#10) (9#10).
Definition source_color (c : Color) : cairo_call :=
  SetSourceRgb (inject_Z (red c)) (inject_Z (green c)) (inject_Z (blue c)).

Definition is_int (x : num) : bool := match x with Int _ => true | Float _ => false end.

Section Drawing.
Context (extents : string → Q * Q * Q).

Definition y_bearing (s : string) : Q := (extents s).1.1.
Definition t_width (s : string) : Q := (extents s).1.2.
Definition t_height (s : string) : Q := (extents s).2.

Definition max_text_height : Q :=
  t_height "ABCDEFGHIJKLMNOPQRSTUVWXYZabcedefghijklmnopqrstuvwxyz0123456789".

(** ** [TimelinesRenderer.layout] *)
Record layout_sums := Sums {
  left_width : num; right_width : num;
  left_n_lines : Z; range_n : Z; eventint_n : Z; eventstr_n : Z }.

Definition layout_range (s : layout_sums) (rs : TimelineDataRange) : layout_sums :=
  Sums (left_width s) (num_max (right_width s) (Float (t_width (rs_name rs))))
    (left_n_lines s) (range_n s + 1) (eventint_n s) (eventstr_n s).
Definition layout_int (s : layout_sums) (ev : TimelineEvent) : layout_sums :=
  Sums (left_width s) (num_max (right_width s) (Float (t_width (ev_name ev))))
    (left_n_lines s) (range_n s) (eventint_n s + 1) (eventstr_n s).
Definition layout_str (s : layout_sums) (ev : TimelineEvent) : layout_sums :=
  Sums (left_width s) (num_max (right_width s) (Float (t_width (ev_name ev))))
    (left_n_lines s) (range_n s) (eventint_n s) (eventstr_n s + 1).

Definition layout_timeline (s : layout_sums) (t : Timeline) : layout_sums :=
  let s := Sums (num_max (left_width s) (Float (t_width (t_name t)))) (right_width s)
             (left_n_lines s + 1) (range_n s) (eventint_n s) (eventstr_n s) in
  let s := foldl layout_range s (t_ranges t) in
  let s := foldl layout_int s (event_int t) in
  foldl layout_str s (event_str t).

Definition layout_timelines (ts : Timelines) : layout_sums :=
  foldl layout_timeline (Sums (Int 0) (Int 0) 0 0 0 0) ts.

(** [self.height]. *)
Definition data_height (s : layout_sums) : Q :=
  let left_height := inject_Z (left_n_lines s) * max_text_height
                     + inject_Z (left_n_lines s - 1) * padding in
  let right_n_lines := (range_n s + eventint_n s + eventstr_n s)%Z in
  let right_height := inject_Z (right_n_lines - 1) * padding
                      + inject_Z right_n_lines * max_text_height in
  let right_data_height := inject_Z (eventint_n s + eventstr_n s) * (max_text_height + 5)
                           + inject_Z (range_n s) * 10
                           + inject_Z (right_n_lines - 1) * padding in
  qmax (qmax left_height right_height) right_data_height + padding.

(** [get_data_x_start]; half the padding is 5, an integer. *)
Definition data_x_start (s : layout_sums) : num :=
  num_add (num_add (num_add (num_add (Int 5) (left_width s)) (Int 10)) (right_width s)) (Int 5).

(** ** [TimelinesRenderer.draw] *)
Definition draw_line (x y width height : Q) : list cairo_call :=
  [MoveTo x y; RelLineTo width height; ClosePath; SetOperatorSource; SetLineWidth 1; black;
   Stroke].

(** What the drawing methods share: the context, the height drawn to, the
    counter of the rows and the table of colours. *)
Record canvas := Canvas { calls : list cairo_call; cur_y : Q; grey_background : Z; colors : Colors }.

Definition emit (l : list cairo_call) (st : canvas) : canvas :=
  Canvas (calls st ++ l) (cur_y st) (grey_background st) (colors st).

Definition background (x y width height : Q) (n : Z) : list cairo_call :=
  if bool_decide (n mod 2 = 0)%Z
  then [Rectangle x (y - 5) width (height + padding); grey_rgb; Fill] else [].

Section Window.
(** [self.start] and [self.end]. *)
Context (start_ end_ : num).

(** [int(x + (t - self.start) * width / (self.end - self.start))]. *)
Definition column (x width t : num) : result exn Z :=
  q ← num_div (num_mul (num_sub t start_) width) (num_sub end_ start_);
  Ok (py_int (val (num_add x q))).

Definition show_value (v : event_value) : string :=
  match v with VString s => s | VInt n => pretty n end.

(** The loop of [draw_events]. *)
Fixpoint draw_marks (x : num) (y : Q) (width : num) (last_x_drawn : Z) (es : list Event) :
    result exn (list cairo_call) :=
  match es with
  | [] => Ok []
  | e :: es' =>
      real_x ← column x width (Int (at_ e));
      if bool_decide (last_x_drawn + 2 < real_x)%Z then
        l ← draw_marks x y width real_x es';
        Ok ([Rectangle (inject_Z real_x) y 1 1; SetSourceRgb 1 0 0; Stroke;
             MoveTo (inject_Z real_x) (y + max_text_height); black;
             ShowText (show_value (e_value e))] ++ l)
      else draw_marks x y width last_x_drawn es'
  end.

Definition draw_events (evs : TimelineEvent) (x : num) (y : Q) (width : num) (height : Q)
    (st : canvas) : result exn canvas :=
  '(lo, hi) ← get_events_bounds evs (val start_) (val end_);
  l ← draw_marks x y width (py_int (val x)) (py_slice (events evs) lo hi);
  Ok (Canvas (calls st ++ background (val x) y (val width) height (grey_background st) ++ l)
        (cur_y st) (grey_background st + 1) (colors st)).

(** The part of a range inside the window. *)
Definition shown_start (r : DataRange) : num := num_max (Int (r_start r)) start_.
Definition shown_end (r : DataRange) : num := num_min (Int (r_end r)) end_.

Definition box (y : Q) (x_start x_end : Z) (c : Color) : list cairo_call :=
  [Rectangle (inject_Z x_start) y (inject_Z (x_end - x_start)) 10; black; StrokePreserve;
   source_color c; Fill].

(** The loop of [draw_ranges]. *)
Fixpoint draw_boxes (x : num) (y : Q) (width : num) (last_x_drawn : Z) (rs : list DataRange)
    (cs : Colors) : result exn (list cairo_call * Colors) :=
  match rs with
  | [] => Ok ([], cs)
  | r :: rs' =>
      x_start ← column x width (shown_start r);
      x_end ← column x width (shown_end r);
      if bool_decide (last_x_drawn < x_end)%Z then
        '(c, cs) ← lookup_color (r_value r) cs;
        '(l, cs) ← draw_boxes x y width x_end rs' cs;
        Ok (box y x_start x_end c ++ l, cs)
      else draw_boxes x y width last_x_drawn rs' cs
  end.

Definition draw_ranges (rs : TimelineDataRange) (x : num) (y : Q) (width : num) (height : Q)
    (st : canvas) : result exn canvas :=
  '(lo, hi) ← get_ranges_bounds rs (val start_) (val end_);
  '(l, cs) ← draw_boxes x y width (py_int (val x - 1)) (py_slice (ranges rs) lo hi) (colors st);
  Ok (Canvas (calls st ++ background (val x) y (val width) height (grey_background st) ++ l)
        (cur_y st) (grey_background st + 1) cs).

(** A name, on the line of [cur_y]. *)
Definition draw_name (x : Q) (name : string) (st : canvas) : canvas :=
  emit [MoveTo x (cur_y st + max_text_height - (t_height name + y_bearing name)); ShowText name] st.

Section Rows.
(** The sums of the last [layout] and [self.width]. *)
Context (s : layout_sums) (width : num).

Definition left_x_end : num := num_add (Int 5) (left_width s).
Definition right_x_start : num := num_add left_x_end (Int 10).
Definition right_x_end : num := num_add right_x_start (right_width s).
Definition pane_x_start : num := num_add right_x_end (Int 5).
Definition data_width : num := num_sub width pane_x_start.

(** [cur_y] advances and a line closes the row. *)
Definition close_row (height : Q) (st : canvas) : canvas :=
  let y := cur_y st + height + padding in
  Canvas (calls st ++ draw_line (val right_x_start - 5) (y - 5) (val (right_width s) + padding) 0)
    y (grey_background st) (colors st).

Definition event_row (st : canvas) (evs : TimelineEvent) : result exn canvas :=
  st ← draw_events evs pane_x_start (cur_y st) data_width (max_text_height + 5)
         (draw_name (val right_x_start) (ev_name evs) st);
  Ok (close_row (max_text_height + 5) st).

Definition range_row (st : canvas) (rs : TimelineDataRange) : result exn canvas :=
  st ← draw_ranges rs pane_x_start (cur_y st) data_width 10
         (draw_name (val right_x_start) (rs_name rs) st);
  Ok (close_row max_text_height st).

Definition draw_timeline (st : canvas) (t : Timeline) : result exn canvas :=
  let st := draw_name 5 (t_name t) st in
  st ← fold_res event_row st (event_int t);
  st ← fold_res event_row st (event_str t);
  st ← fold_res range_row st (t_ranges t);
  Ok (emit (draw_line 0 (cur_y st - 5) (val width) 0) st).

Definition draw_timelines (ts : Timelines) (cs : Colors) : result exn canvas :=
  st ← fold_res draw_timeline (Canvas (draw_line 0 0 (val width) 0) 5 1 cs) ts;
  let bot_y := cur_y st - 5 in
  Ok (emit (draw_line (val left_x_end + 5) 0 0 bot_y ++ draw_line (val right_x_end + 5) 0 0 bot_y)
        st).
End Rows.
End Window.

(** ** [TopLegendRenderer.draw]

    The corners are those of [Viewer.legend_draw]; [self.__colors[i]] is read
    for every name. *)
Definition legend_items (names : list string) : list (Q * Q) :=
  (λ n, (t_width n, t_height n)) <$> names.

Definition legend_item (st : list cairo_call * Z) (name : string) (corner : Q * Q)
    (cs : list Color) : result exn (list cairo_call * Z) :=
  c ← py_index cs st.2;
  Ok (st.1 ++ [Rectangle corner.1 corner.2 padding padding; black; SetLineWidth 2; StrokePreserve;
               source_color c; Fill;
               MoveTo (corner.1 + padding * 2) (corner.2 + t_height name); black; ShowText name],
      (st.2 + 1)%Z).

Definition draw_legend (width : Q) (names : list string) (cs : list Color) :
    result exn (list cairo_call) :=
  '(l, _) ← fold_res (λ st '(name, corner), legend_item st name corner cs) ([], 0%Z)
              (zip names (legend_draw width legend_start (legend_items names)));
  Ok l.

(** ** [ScaleRenderer.draw] *)
Record ScaleRenderer := Scale { lo : num; hi : num; delta : Z; scale_width : num; top : bool }.

Definition sign (s : ScaleRenderer) : Q := if top s then -1 else 1.

(** The values of [range(int(start), int(end + delta), int(delta))]. *)
Definition multiples (s : ScaleRenderer) (d : Z) : result exn (list Z) :=
  m ← num_mod (lo s) (Int d);
  let start := num_add (num_sub (lo s) m) (Int d) in
  m ← num_mod (hi s) (Int d);
  let end_ := num_sub (hi s) m in
  Ok (py_range (py_int (val start)) (py_int (val (num_add end_ (Int d)))) d).

Definition scale_position (s : ScaleRenderer) (x : Z) : result exn Q :=
  q ← num_div (num_mul (num_sub (Int x) (lo s)) (scale_width s)) (num_sub (hi s) (lo s));
  Ok (val q).

Definition stroke_tick (real_x length : Q) : list cairo_call :=
  [MoveTo real_x 0; LineTo real_x length; ClosePath; Stroke].

Definition draw_tick (s : ScaleRenderer) (l : list cairo_call) (x : Z) : result exn (list cairo_call) :=
  real_x ← scale_position s x;
  let text := pretty x in
  let text_delta := if top s then t_height text + y_bearing text else - y_bearing text in
  Ok (l ++ stroke_tick real_x (5 * sign s) ++
      [MoveTo (real_x - t_width text / 2) ((5 + 5 + text_delta) * sign s); ShowText text]).

Definition draw_subtick (s : ScaleRenderer) (l : list cairo_call) (x : Z) : result exn (list cairo_call) :=
  real_x ← scale_position s x; Ok (l ++ stroke_tick real_x (3 * sign s)).

Definition draw_scale (s : ScaleRenderer) : result exn (list cairo_call) :=
  xs ← multiples s (delta s);
  l ← fold_res (draw_tick s) [black; SetLineWidth 1] xs;
  let d := (delta s / 10)%Z in
  if bool_decide (0 < d)%Z then xs ← multiples s d; fold_res (draw_subtick s) l xs else Ok l.

(** [layout] and [get_height]. *)
Definition scale_height : Q := max_text_height + 10.

Definition make_scale (lo hi width : num) (top : bool) : result exn ScaleRenderer :=
  d ← scale_layout lo hi; Ok (Scale lo hi d width top).

(** ** [GraphicRenderer.draw]

    [first] and [last] are [__start] and [__end], [mid] and [bot] the two scales
    as they were last laid out. *)
Section Graphic.
Context (first last : Z) (mid bot : ScaleRenderer) (ts : Timelines) (legend : list (string * Color)).

Definition data_sums : layout_sums := layout_timelines ts.
Definition top_legend_height (width : Z) : Q :=
  legend_layout (inject_Z width) (legend_items legend.*1).

(** The calls before, between and after those of the parts. *)
Definition separation (width y : Q) : list cairo_call :=
  [MoveTo 0 y; LineTo width y; ClosePath; SetLineWidth 2; black; Stroke].

Definition left_connection (x_start select_start y : Q) : list cairo_call :=
  [MoveTo 0 y; LineTo x_start y; LineTo select_start (y + 20); LineTo 0 (y + 20); LineTo 0 y;
   black; SetLineWidth 1; StrokePreserve; grey_rgb; Fill].

Definition right_connection (width select_end y : Q) : list cairo_call :=
  [MoveTo width y; LineTo width (y + 20); LineTo select_end (y + 20); LineTo width y;
   black; SetLineWidth 1; StrokePreserve; grey_rgb; Fill].

Definition unused_area (width a b y h : Q) : list cairo_call :=
  [Rectangle 0 y a h; Rectangle b y (width - b) h; grey_rgb; Fill].

Definition scale_border (width a b y h : Q) : list cairo_call :=
  [MoveTo b y; LineTo width y; LineTo width (y + h); LineTo 0 (y + h); LineTo 0 y; LineTo a y;
   ClosePath; SetLineWidth 2; black; Stroke;
   MoveTo a y; LineTo b y; ClosePath; SetLineWidth 1; grey_rgb; Stroke].

Definition dashed_borders (width a b y h : Q) : list cairo_call :=
  [Save; MoveTo (qmax a 2) y; RelLineTo 0 h; MoveTo (qmin b (width - 2)) y; RelLineTo 0 h;
   SetDash [5] 0; black; SetLineWidth 1; Stroke; Restore].

Definition draw_graphic (v : viewer) (height : Z) (cs : Colors) :
    result exn (list cairo_call * Colors) :=
  let w := inject_Z (width v) in
  let x_start := val (data_x_start data_sums) in
  let h_legend := top_legend_height (width v) in
  l_legend ← draw_legend w legend.*1 legend.*2;
  data ← draw_timelines (Viewer.r_start v) (Viewer.r_end v) data_sums (Int (width v)) ts cs;
  l_mid ← draw_scale mid;
  let height_used := h_legend + data_height data_sums + scale_height in
  select_start ← get_position first last v (Viewer.r_start v);
  select_end ← get_position first last v (Viewer.r_end v);
  let a := val select_start in
  let b := val select_end in
  let y := height_used + 20 in
  let unused_height := scale_height + 20 in
  l_bot ← draw_scale bot;
  Ok ([Save; SetSourceRgb 1 1 1; SetOperatorSource; Rectangle 0 0 w (inject_Z height); Fill] ++
      [Save] ++ l_legend ++ [Restore] ++
      separation w h_legend ++
      [Save; Translate 0 h_legend] ++ calls data ++ [Restore] ++
      [Save; Translate x_start (h_legend + data_height data_sums + scale_height)] ++ l_mid ++
      [Restore] ++
      [MoveTo x_start height_used; RelLineTo 0 (- scale_height); ClosePath; black; SetLineWidth 2;
       Stroke] ++
      separation w height_used ++
      left_connection x_start a height_used ++
      right_connection w b height_used ++
      unused_area w a b y unused_height ++
      scale_border w a b y unused_height ++
      dashed_borders w a b y unused_height ++
      [Save; Translate 0 y] ++ l_bot ++ [Restore], colors data).

(** ** The widget ([GtkGraphicRenderer])

    A surface is the list of the calls its context has executed. *)
Record widget := Widget {
  window : viewer; widget_height : Z; force_full_redraw : bool;
  buffer_surface : option (list cairo_call); widget_colors : Colors }.

Definition clip_to (area : Z * Z * Z * Z) : list cairo_call :=
  let '(x, y, w, h) := area in
  [Rectangle (inject_Z x) (inject_Z y) (inject_Z w) (inject_Z h); Clip].

(** The line that follows an edge, and the two that follow the window. *)
Definition overlays (v : viewer) : result exn (list cairo_call) :=
  '(x, y, w, h) ← get_selection_rectangle first last (data_height data_sums) scale_height
                     scale_height (legend_items legend.*1) v;
  l_left ← (if moving_left v then
      cur ← of_option AttributeError (left_cur v);
      Ok [MoveTo (val (num_max cur (Int 2))) y; RelLineTo 0 h; ClosePath; SetLineWidth 1; black; Stroke]
    else Ok []);
  l_right ← (if negb (is_zero (val (moving_right v))) then
      cur ← of_option AttributeError (right_cur v);
      gw ← of_option AttributeError (gtk_width v);
      Ok [MoveTo (val (num_min cur (Int (gw - 2)))) y; RelLineTo 0 h; ClosePath; SetLineWidth 1; black; Stroke]
    else Ok []);
  l_both ← (if moving_both v then
      cur ← of_option AttributeError (both_cur v);
      start ← of_option AttributeError (both_start v);
      let delta_x := num_sub cur start in
      Ok [MoveTo (val (num_add x delta_x)) y; RelLineTo 0 h; ClosePath;
          MoveTo (val (num_add (num_add x w) delta_x)) y; RelLineTo 0 h; ClosePath;
          black; SetLineWidth 1; Stroke]
    else Ok []);
  Ok (l_left ++ l_right ++ l_both).

(** [expose]: the calls on the window of the widget. *)
Definition expose (area : Z * Z * Z * Z) (g : widget) : result exn (widget * list cairo_call) :=
  g ← (if force_full_redraw g then
         '(l, cs) ← draw_graphic (window g) (widget_height g) (widget_colors g);
         Ok (Widget (window g) (widget_height g) false (Some l) cs)
       else Ok g);
  surface ← of_option AttributeError (buffer_surface g);
  l ← overlays (window g);
  Ok (g, clip_to area ++ [SetSourceSurface surface; Paint] ++ l).

(** [output_png]: what is written to the file.  The context draws on the
    buffer, the file gets the surface made for it. *)
Definition output_png (g : widget) : result exn (widget * list cairo_call) :=
  let surface := [] in
  buffer ← of_option AttributeError (buffer_surface g);
  '(l, cs) ← draw_graphic (window g) (widget_height g) (widget_colors g);
  Ok (Widget (window g) (widget_height g) (force_full_redraw g) (Some (buffer ++ l)) cs, surface).
End Graphic.
End Drawing.

(** ** The searches end on every list *)
Lemma range_search_loop_total fuel rs key l u :
  (0 ≤ l)%Z → (u < py_len rs)%Z → (u - l < Z.of_nat fuel)%Z →
  ∃ i, range_search_loop fuel rs key l u = Ok i ∧ (i = -1 ∨ l ≤ i ≤ u)%Z.
Proof.
  revert l u. induction fuel as [|fuel IH]; intros l u Hl Hu Hf; cbn [range_search_loop].
  { rewrite bool_decide_eq_false_2 by lia. eauto. }
  case_bool_decide as Hlu; [|by eauto]. pose proof (midpoint l u Hlu) as Hm.
  destruct (py_index_in rs ((l + u) / 2)) as (r & -> & _); [lia|]. cbn [mbind result_bind].
  destruct (qle _ _ && qle _ _); [eexists; split; [done|lia]|].
  destruct (qlt _ _).
  - destruct (IH l ((l + u) / 2 - 1)%Z) as (i & -> & Hi); [lia..|]. eexists; split; [done|lia].
  - destruct (IH ((l + u) / 2 + 1)%Z u) as (i & -> & Hi); [lia..|]. eexists; split; [done|lia].
Qed.

Lemma event_search_loop_total fuel es key l u :
  (0 ≤ l)%Z → (u < py_len es)%Z → (u - l < Z.of_nat fuel)%Z →
  ∃ i, event_search_loop fuel es key l u = Ok i.
Proof.
  revert l u. induction fuel as [|fuel IH]; intros l u Hl Hu Hf; cbn [event_search_loop].
  { rewrite bool_decide_eq_false_2 by lia. eauto. }
  case_bool_decide as Hlu; [|by eauto]. pose proof (midpoint l u Hlu) as Hm.
  destruct (py_index_in es ((l + u) / 2)) as (e & -> & _); [lia|]. cbn [mbind result_bind].
  destruct (Qeq_bool _ _); [eauto|]. destruct (qlt _ _); apply IH; lia.
Qed.

Lemma get_ranges_bounds_total t a b : ∃ p, get_ranges_bounds t a b = Ok p.
Proof.
  unfold get_ranges_bounds, range_search.
  destruct (range_search_loop_total (length (ranges t)) (ranges t) a 0 (py_len (ranges t) - 1))
    as (i & -> & _); [unfold py_len; lia..|].
  destruct (range_search_loop_total (length (ranges t)) (ranges t) b 0 (py_len (ranges t) - 1))
    as (j & -> & _); [unfold py_len; lia..|]. eauto.
Qed.

Lemma get_events_bounds_total t a b : ∃ p, get_events_bounds t a b = Ok p.
Proof.
  unfold get_events_bounds, event_search.
  destruct (event_search_loop_total (length (events t)) (events t) a 0 (py_len (events t) - 1))
    as (i & ->); [unfold py_len; lia..|].
  destruct (event_search_loop_total (length (events t)) (events t) b 0 (py_len (events t) - 1))
    as (j & ->); [unfold py_len; lia..|]. cbn. eauto.
Qed.

(** The slice the drawing takes is what [get_ranges] returns. *)
Lemma get_ranges_slice t a b :
  get_ranges t a b = ('(lo, hi) ← get_ranges_bounds t a b; Ok (py_slice (ranges t) lo hi)).
Proof.
  unfold get_ranges, get_ranges_bounds.
  destruct (range_search (ranges t) a) as [i|]; [|done].
  destruct (range_search (ranges t) b) as [j|]; [|done]. cbn [mbind result_bind].
  destruct (bool_decide (i = -1)%Z), (bool_decide (j = -1)%Z); try done.
  cbn [andb]. unfold py_slice. by rewrite Nat.sub_diag.
Qed.

(** ** Columns *)
Lemma num_sub_val a b : val (num_sub a b) == val a - val b.
Proof. destruct a, b; simpl; try reflexivity. unfold Z.sub. rewrite inject_Z_plus, inject_Z_opp. lra. Qed.
Lemma num_add_val a b : val (num_add a b) == val a + val b.
Proof. destruct a, b; simpl; try reflexivity. by rewrite inject_Z_plus. Qed.
Lemma num_mul_val a b : val (num_mul a b) == val a * val b.
Proof. destruct a, b; simpl; try reflexivity. Qed.

Lemma is_int_sub a b : is_int (num_sub a b) = is_int a && is_int b.
Proof. by destruct a, b. Qed.
Lemma is_int_mul a b : is_int (num_mul a b) = is_int a && is_int b.
Proof. by destruct a, b. Qed.

(** The quotient of two numbers: rounded down when both are integers. *)
Definition quotient (exact : bool) (a b : Q) : Q :=
  if exact then a / b else inject_Z (Qfloor (a / b)).

Lemma num_div_val a b :
  ¬ val b == 0 →
  ∃ q, num_div a b = Ok q ∧ val q == quotient (negb (is_int a && is_int b)) (val a) (val b).
Proof.
  intros Hb. unfold num_div. destruct (is_zero (val b)) eqn:E; [by apply is_zero_spec in E|].
  destruct a as [a|a], b as [b|b]; eexists; (split; [done|]);
    unfold quotient; cbn [is_int andb negb val]; try reflexivity.
  by rewrite <- Zdiv_Qdiv.
Qed.

Lemma quotient_mono e a b c : 0 < c → a <= b → quotient e a c <= quotient e b c.
Proof.
  intros Hc Hab. assert (a / c <= b / c) as H.
  { unfold Qdiv. apply Qmult_le_compat_r; [done|]. apply Qinv_le_0_compat. lra. }
  unfold quotient. destruct e; [done|]. rewrite <- Zle_Qle. by apply Qfloor_resp_le.
Qed.

#[export] Instance quotient_proper e : Proper (Qeq ==> Qeq ==> Qeq) (quotient e).
Proof. intros a b E c d F. unfold quotient. destruct e; by rewrite E, F. Qed.

Section Columns.
Context (start_ end_ x width : num).
Hypothesis Hwindow : val start_ < val end_.
Hypothesis Hx : 1 <= val x.
Hypothesis Hwidth : 0 <= val width.

Let exact : bool := negb (is_int start_ && is_int end_ && is_int width).

(** The times the drawing asks for: integers, as those of the data, or the
    bounds of the window. *)
Definition instant (t : num) : Prop := is_int t = true ∨ t = start_ ∨ t = end_.

(** The column of a time of the window. *)
Definition column_at (t : Q) : Z :=
  Qfloor (val x + quotient exact ((t - val start_) * val width) (val end_ - val start_)).

Lemma offset_nonneg t : val start_ <= t →
  0 <= quotient exact ((t - val start_) * val width) (val end_ - val start_).
Proof.
  intros Ht. assert (0 / (val end_ - val start_) == 0) as E by (field; lra).
  assert (quotient exact 0 (val end_ - val start_) == 0) as E0.
  { unfold quotient. destruct exact; by rewrite E. }
  rewrite <- E0 at 1. apply quotient_mono; [lra|]. apply Qmult_le_0_compat; lra.
Qed.

Lemma column_spec t : instant t → val start_ <= val t →
  column start_ end_ x width t = Ok (column_at (val t)).
Proof.
  intros Hinst Ht. unfold column.
  destruct (num_div_val (num_mul (num_sub t start_) width) (num_sub end_ start_)) as (q & -> & Hq).
  { rewrite num_sub_val. lra. }
  cbn [mbind result_bind]. f_equal. rewrite num_sub_val, num_mul_val, num_sub_val in Hq.
  assert (negb (is_int (num_mul (num_sub t start_) width) && is_int (num_sub end_ start_)) = exact)
    as E.
  { unfold exact. rewrite is_int_mul, !is_int_sub.
    destruct Hinst as [E|[E|E]]; rewrite E; by destruct (is_int start_), (is_int end_), (is_int width). }
  rewrite E in Hq. pose proof (offset_nonneg _ Ht). rewrite py_int_nonneg.
  - unfold column_at. apply Qfloor_comp. by rewrite num_add_val, Hq.
  - rewrite num_add_val, Hq. lra.
Qed.

Lemma column_mono t t' : t <= t' → (column_at t ≤ column_at t')%Z.
Proof.
  intros Ht. apply Qfloor_resp_le. apply Qplus_le_compat; [lra|]. apply quotient_mono; [lra|].
  apply Qmult_le_compat_r; lra.
Qed.

Lemma column_first : column_at (val start_) = Qfloor (val x).
Proof.
  apply Qfloor_comp. unfold quotient.
  assert ((val start_ - val start_) * val width / (val end_ - val start_) == 0) as E by (field; lra).
  destruct exact; rewrite E; [lra|]. change (inject_Z (Qfloor 0)) with 0. lra.
Qed.

Lemma column_last : inject_Z (column_at (val end_)) <= val x + val width.
Proof.
  apply le_floor, Qfloor_resp_le, Qplus_le_compat; [lra|]. unfold quotient.
  assert ((val end_ - val start_) * val width / (val end_ - val start_) == val width) as E
    by (field; lra).
  destruct exact; rewrite E; [lra|apply Qfloor_le].
Qed.
End Columns.

(** ** The rectangles of the ranges *)
Section Boxes.
Context (start_ end_ x width : num).
Hypothesis Hwindow : val start_ < val end_.
Hypothesis Hx : 1 <= val x.
Hypothesis Hwidth : 0 <= val width.

Definition left_column (r : DataRange) : Z :=
  column_at start_ end_ x width (val (shown_start start_ r)).
Definition right_column (r : DataRange) : Z :=
  column_at start_ end_ x width (val (shown_end end_ r)).

Definition in_window (r : DataRange) : Prop :=
  overlaps (val start_) (val end_) r ∧ (r_start r ≤ r_end r)%Z.
Definition precedes (r r' : DataRange) : Prop := (r_end r < r_start r')%Z.

Lemma shown_bounds r : in_window r →
  val start_ <= val (shown_start start_ r) ∧
  val (shown_start start_ r) <= val (shown_end end_ r) ∧
  val (shown_end end_ r) <= val end_ ∧
  inject_Z (r_start r) <= val (shown_start start_ r) ∧
  val (shown_end end_ r) <= inject_Z (r_end r).
Proof.
  intros [[H1 H2] Hle]. rewrite Zle_Qle in Hle. unfold shown_start, shown_end, num_max, num_min.
  repeat qcase; cbn [val] in *; split_and!; lra.
Qed.

Lemma shown_columns r : in_window r →
  column start_ end_ x width (shown_start start_ r) = Ok (left_column r) ∧
  column start_ end_ x width (shown_end end_ r) = Ok (right_column r) ∧
  (Qfloor (val x) ≤ left_column r ≤ right_column r)%Z ∧
  inject_Z (right_column r) <= val x + val width.
Proof.
  intros Hr. destruct (shown_bounds r Hr) as (H1 & H2 & H3 & _).
  split_and!.
  - apply column_spec; try done.
    unfold shown_start, num_max. destruct (qlt _ _); [right; by left|by left].
  - apply column_spec; [done..| |lra].
    unfold shown_end, num_min. destruct (qlt _ _); [right; by right|by left].
  - rewrite <- (column_first start_ end_ x width) by done. by apply column_mono.
  - by apply column_mono.
  - eapply Qle_trans; [|by apply (column_last start_ end_)]. rewrite <- Zle_Qle.
    by apply column_mono.
Qed.

Lemma precedes_columns r r' : in_window r → in_window r' → precedes r r' →
  (right_column r ≤ left_column r')%Z.
Proof.
  intros Hr Hr' Hp. apply column_mono; [done..|].
  destruct (shown_bounds r Hr) as (_ & _ & _ & _ & H). destruct (shown_bounds r' Hr') as (_ & _ & _ & H' & _).
  unfold precedes in Hp. rewrite Zlt_Qlt in Hp. lra.
Qed.

(** The calls that draw one range, in the colour of its value. *)
Definition range_calls (y : Q) (cs : Colors) (r : DataRange) : list cairo_call :=
  match table cs !! r_value r with
  | Some c => box y (left_column r) (right_column r) c
  | None => []
  end.

Definition coloured (cs : Colors) (r : DataRange) : Prop := is_Some (table cs !! r_value r).

(** The range's columns are those of one drawn. *)
Definition shown_by (r r' : DataRange) : Prop :=
  (left_column r' ≤ left_column r)%Z ∧ right_column r' = right_column r.

Lemma draw_boxes_spec y cs rs last :
  StronglySorted precedes rs → Forall in_window rs → Forall (coloured cs) rs →
  Forall (λ r, last ≤ left_column r)%Z rs →
  ∃ drawn, draw_boxes start_ end_ x y width last rs cs = Ok (drawn ≫= range_calls y cs, cs) ∧
    drawn `sublist_of` rs ∧
    StronglySorted (λ r r', right_column r ≤ left_column r')%Z drawn ∧
    ∀ r, r ∈ rs → right_column r = last ∨ ∃ r', r' ∈ drawn ∧ shown_by r r'.
Proof.
  intros Hs. revert last. induction Hs as [|r rs Hs IH Hr]; intros last Hw Hc Hlast.
  { exists []. split_and!; [done|constructor|constructor|set_solver]. }
  apply Forall_cons in Hw as [Hwr Hw], Hc as [Hcr Hc], Hlast as [Hlr Hlast].
  destruct (shown_columns r Hwr) as (E1 & E2 & Hcols & _).
  cbn [draw_boxes]. rewrite E1, E2. cbn [mbind result_bind]. case_bool_decide as Hd.
  - destruct Hcr as [c Hcr]. unfold lookup_color. rewrite Hcr. cbn [mbind result_bind].
    destruct (IH (right_column r)) as (drawn & -> & Hsub & Hord & Hall); [done..| |].
    { rewrite Forall_forall in Hr, Hw |- *. intros r' Hr'. apply precedes_columns; auto. }
    cbn [mbind result_bind]. exists (r :: drawn). split_and!.
    + cbn. unfold range_calls at 2. by rewrite Hcr.
    + by apply sublist_skip.
    + constructor; [done|]. rewrite Forall_forall in Hr, Hw |- *. intros r' Hr'.
      assert (r' ∈ rs) by (by eapply elem_of_sublist).
      apply precedes_columns; auto.
    + intros r' [->|Hr']%elem_of_cons; [right; exists r; split; [by left|by split]|].
      right. destruct (Hall r' Hr') as [E|(r2 & Hr2 & Hsh)].
      * exists r. split; [by left|]. split; [|done]. rewrite Forall_forall in Hr, Hw.
        pose proof (precedes_columns r r' Hwr (Hw r' Hr') (Hr r' Hr')). lia.
      * exists r2. split; [by right|done].
  - destruct (IH last) as (drawn & E & Hsub & Hord & Hall); [done..|].
    exists drawn. split_and!; [done|by apply sublist_cons|done|].
    intros r' [->|Hr']%elem_of_cons; [left; lia|by apply Hall].
Qed.
End Boxes.

Lemma StronglySorted_filter_in {A} (R : relation A) (P : A → Prop) `{∀ x, Decision (P x)} l :
  StronglySorted R l → StronglySorted R (filter P l).
Proof.
  induction 1 as [|a l Hl IH Ha]; [constructor|]. rewrite filter_cons.
  destruct (decide (P a)); [|done]. constructor; [done|]. rewrite Forall_forall in Ha |- *.
  intros b [_ Hb]%list_elem_of_filter. by apply Ha.
Qed.

Lemma apart_sorted rs : apart rs → StronglySorted precedes rs.
Proof.
  induction rs as [|r rs IH]; intros [Hle Hap]; constructor.
  - apply IH. split; [by apply Forall_cons in Hle as [_ ?]|].
    intros i j a b Hij Ha Hb. by apply (Hap (S i) (S j)); [lia|..].
  - apply Forall_forall. intros r' [j Hj]%list_elem_of_lookup.
    by apply (Hap 0%nat (S j)); [lia|..].
Qed.

(** C37: [draw_ranges]: for ranges in order and apart, in a window whose two bounds
    fall in ranges, and with the colours known, the method draws the rectangles
    of some of the ranges that meet the window, in their order and each in the
    colour of its value; the rectangles stay inside the pane and do not
    overlap, and a range is left out only when one drawn before it already
    covers its columns. *)
Theorem ranges_drawn (start_ end_ x width : num) (rs : TimelineDataRange) (y height : Q)
    (st : canvas) (visible := filter (overlaps (val start_) (val end_)) (ranges rs))
    (Hwindow : val start_ < val end_) (Hx : 1 <= val x) (Hwidth : 0 <= val width)
    (Hap : apart (ranges rs)) (Hc : Forall (coloured (colors st)) (ranges rs))
    (Hs : Exists (covers (val start_)) (ranges rs)) (He : Exists (covers (val end_)) (ranges rs)) :
  let left := left_column start_ end_ x width in
  let right := right_column start_ end_ x width in
  ∃ drawn, drawn `sublist_of` visible ∧
    draw_ranges start_ end_ rs x y width height st =
      Ok (Canvas (calls st ++ background (val x) y (val width) height (grey_background st) ++
                  (drawn ≫= range_calls start_ end_ x width y (colors st)))
            (cur_y st) (grey_background st + 1) (colors st)) ∧
    (∀ r, r ∈ drawn → val x - 1 < inject_Z (left r) ∧ (left r ≤ right r)%Z ∧
       inject_Z (right r) <= val x + val width) ∧
    StronglySorted (λ r r', right r ≤ left r')%Z drawn ∧
    ∀ r, r ∈ visible → ∃ r', r' ∈ drawn ∧ (left r' ≤ left r)%Z ∧ right r' = right r.
Proof.
  cbn zeta.
  destruct (get_ranges_spec rs (val start_) (val end_) Hap ltac:(lra)) as (Hg & _).
  specialize (Hg Hs He). rewrite get_ranges_slice in Hg. fold visible in Hg.
  assert (Forall (in_window start_ end_) visible) as Hw.
  { apply Forall_forall. intros r [Ho Hr]%list_elem_of_filter. split; [done|].
    destruct Hap as [Hle _]. rewrite Forall_forall in Hle. auto. }
  assert (Forall (coloured (colors st)) visible) as Hcv.
  { rewrite Forall_forall in Hc |- *. intros r [_ Hr]%list_elem_of_filter. auto. }
  destruct (draw_boxes_spec start_ end_ x width Hwindow Hx Hwidth y (colors st) visible
    (py_int (val x - 1))) as (drawn & E & Hsub & Hord & Hall); [|done..| |].
  { by apply StronglySorted_filter_in, apart_sorted. }
  { rewrite Forall_forall in Hw |- *. intros r Hr. rewrite py_int_nonneg by lra.
    destruct (shown_columns start_ end_ x width Hwindow Hx Hwidth r (Hw r Hr)) as (_ & _ & Hcol & _).
    pose proof (Qfloor_resp_le (val x - 1) (val x) ltac:(lra)). lia. }
  rewrite Forall_forall in Hw.
  exists drawn. split; [done|]. split; [|split; [|split; [done|]]].
  - unfold draw_ranges. destruct (get_ranges_bounds rs _ _) as [[lo hi]|]; [|done].
    cbn [mbind result_bind] in Hg |- *. injection Hg as ->. rewrite E. done.
  - intros r Hr. assert (r ∈ visible) as Hv by (by eapply elem_of_sublist).
    destruct (shown_columns start_ end_ x width Hwindow Hx Hwidth r (Hw r Hv))
      as (_ & _ & Hcol & Hend).
    split_and!; [|lia|done]. pose proof (Qlt_floor (val x)). rewrite inject_Z_plus in *.
    assert (inject_Z (Qfloor (val x)) <= inject_Z (left_column start_ end_ x width r)).
    { rewrite <- Zle_Qle. lia. } change (inject_Z 1) with 1 in *. lra.
  - intros r Hr. destruct (Hall r Hr) as [Hl|(r' & Hr' & Hsh)]; [exfalso|by exists r'].
    destruct (shown_columns start_ end_ x width Hwindow Hx Hwidth r (Hw r Hr)) as (_ & _ & Hcol & _).
    rewrite py_int_nonneg in Hl by lra.
    pose proof (Qlt_floor (val x)). pose proof (Qfloor_le (val x - 1)).
    assert (inject_Z (Qfloor (val x)) <= inject_Z (right_column start_ end_ x width r)).
    { rewrite <- Zle_Qle. lia. } rewrite Hl in *. rewrite inject_Z_plus in *.
    change (inject_Z 1) with 1 in *. lra.
Qed.

Definition sample_canvas : canvas :=
  Canvas [] 5 2 (MkColors (<["idle" := MkColor 1 0 0]> {["tx" := MkColor 0 1 0]}) []).

Lemma ranges_drawn_witness :
  ∃ drawn, drawn `sublist_of` [MkRange 0 4 "idle"; MkRange 5 9 "tx"; MkRange 12 20 "idle"] ∧
    draw_ranges (Int 3) (Float 15) sample_ranges (Float 60) 5 (Float 12) 10 sample_canvas =
      Ok (Canvas ([] ++ background 60 5 12 10 2 ++
                  (drawn ≫= range_calls (Int 3) (Float 15) (Float 60) (Float 12) 5 (colors sample_canvas)))
            5 3 (colors sample_canvas)).
Proof.
  destruct (ranges_drawn (Int 3) (Float 15) (Float 60) (Float 12) sample_ranges 5 10 sample_canvas)
    as (drawn & Hsub & E & _); [done|done|done|exact sample_apart| | | |].
  - repeat constructor; eexists; vm_compute; reflexivity.
  - apply Exists_cons_hd. by split.
  - do 2 apply Exists_cons_tl. apply Exists_cons_hd. by split.
  - exists drawn. split; [|exact E]. vm_compute in Hsub. exact Hsub.
Defined.

(** ** The marks of a scale *)
Lemma num_mod_spec x d : (1 ≤ d)%Z →
  ∃ m, num_mod x (Int d) = Ok m ∧ val x - val m == inject_Z (d * Qfloor (val x / inject_Z d)).
Proof.
  intros Hd. pose proof (inject_Z_1 d Hd). unfold num_mod.
  destruct (is_zero (val (Int d))) eqn:E; [apply is_zero_spec in E; cbn in E; lra|].
  destruct x as [n|q]; (eexists; split; [done|]); cbn [val].
  - rewrite <- Zdiv_Qdiv. rewrite (Z.div_mod n d) at 1 by lia. rewrite inject_Z_plus. lra.
  - rewrite inject_Z_mult. lra.
Qed.

(** The bounds of a floor, multiplied out. *)
Lemma floor_div x d k : (1 ≤ d)%Z → (k ≤ Qfloor (x / inject_Z d))%Z ↔ inject_Z (d * k) <= x.
Proof.
  intros Hd. pose proof (inject_Z_1 d Hd) as Hp. rewrite <- le_floor, inject_Z_mult.
  rewrite <- (Qmult_le_l _ _ _ Hp). by rewrite Qmult_div_r by lra.
Qed.

Lemma multiples_spec s d : (1 ≤ d)%Z →
  ∃ xs, multiples s d = Ok xs ∧ NoDup xs ∧
    ∀ x, x ∈ xs ↔ (d | x)%Z ∧ val (lo s) < inject_Z x ∧ inject_Z x <= val (hi s).
Proof.
  intros Hd. unfold multiples.
  destruct (num_mod_spec (lo s) d Hd) as (m & -> & Hm).
  destruct (num_mod_spec (hi s) d Hd) as (m' & -> & Hm'). cbn [mbind result_bind].
  set (a := Qfloor (val (lo s) / inject_Z d)) in *. set (b := Qfloor (val (hi s) / inject_Z d)) in *.
  rewrite (py_int_inject _ (d * (a + 1))).
  2: { rewrite num_add_val, num_sub_val, Hm. cbn [val]. rewrite <- inject_Z_plus. f_equiv. lia. }
  rewrite (py_int_inject _ (d * (b + 1))).
  2: { rewrite num_add_val, num_sub_val, Hm'. cbn [val]. rewrite <- inject_Z_plus. f_equiv. lia. }
  eexists. split; [done|]. split.
  { unfold py_range. apply NoDup_fmap_2; [|apply NoDup_seq]. intros i j Hij. nia. }
  intros x. rewrite elem_of_py_range by done. split.
  - intros (i & Hi & -> & Hb). replace (d * (a + 1) + i * d)%Z with (d * (a + 1 + i))%Z in * by lia.
    split; [by exists (a + 1 + i)%Z; lia|]. split.
    + apply Qnot_le_lt. intros Hle%floor_div; [fold a in Hle; lia|done].
    + apply floor_div; [done|]. fold b. nia.
  - intros ([k ->] & Hlo & Hhi). exists (k - (a + 1))%Z. rewrite Z.mul_comm in Hlo, Hhi.
    apply floor_div in Hhi; [|done]. fold b in Hhi.
    assert (a < k)%Z.
    { destruct (decide (a < k)%Z) as [|Hk]; [done|]. apply Z.nlt_ge in Hk.
      apply floor_div in Hk; [lra|done]. }
    nia.
Qed.

Section Marks.
Context (extents : string → Q * Q * Q) (s : ScaleRenderer).
Hypothesis Hbounds : val (lo s) < val (hi s).
Hypothesis Hwidth : 0 <= val (scale_width s).

(** The distance of a mark from the left. *)
Definition position (x : Z) : Q :=
  match scale_position s x with Ok p => p | Raise _ => 0 end.

Lemma position_spec x :
  scale_position s x = Ok (position x) ∧
  position x == quotient (negb (is_int (lo s) && is_int (hi s) && is_int (scale_width s)))
    ((inject_Z x - val (lo s)) * val (scale_width s)) (val (hi s) - val (lo s)).
Proof.
  unfold position, scale_position.
  destruct (num_div_val (num_mul (num_sub (Int x) (lo s)) (scale_width s)) (num_sub (hi s) (lo s)))
    as (q & -> & Hq); [rewrite num_sub_val; lra|]. cbn [mbind result_bind]. split; [done|].
  rewrite Hq, num_mul_val, !num_sub_val, is_int_mul, !is_int_sub. cbn [is_int val].
  replace (true && is_int (lo s) && is_int (scale_width s) && (is_int (hi s) && is_int (lo s)))
    with (is_int (lo s) && is_int (hi s) && is_int (scale_width s)); [done|].
  by destruct (is_int (lo s)), (is_int (hi s)), (is_int (scale_width s)).
Qed.

Lemma position_mono x x' : (x ≤ x')%Z → position x <= position x'.
Proof.
  intros Hx. rewrite (proj2 (position_spec x)), (proj2 (position_spec x')).
  apply quotient_mono; [lra|]. rewrite Zle_Qle in Hx. apply Qmult_le_compat_r; lra.
Qed.

Lemma position_bounds x : val (lo s) <= inject_Z x → inject_Z x <= val (hi s) →
  0 <= position x ∧ position x <= val (scale_width s).
Proof.
  intros H1 H2. rewrite (proj2 (position_spec x)). set (e := negb _).
  assert (quotient e 0 (val (hi s) - val (lo s)) == 0) as E0.
  { assert (0 / (val (hi s) - val (lo s)) == 0) as E by (field; lra).
    unfold quotient. destruct e; by rewrite E. }
  assert (quotient e ((val (hi s) - val (lo s)) * val (scale_width s)) (val (hi s) - val (lo s)) <=
          val (scale_width s)) as E1.
  { assert ((val (hi s) - val (lo s)) * val (scale_width s) / (val (hi s) - val (lo s)) ==
            val (scale_width s)) as E by (field; lra).
    unfold quotient. destruct e; rewrite E; [lra|apply Qfloor_le]. }
  split.
  - rewrite <- E0 at 1. apply quotient_mono; [lra|]. apply Qmult_le_0_compat; lra.
  - eapply Qle_trans; [|exact E1]. apply quotient_mono; [lra|]. apply Qmult_le_compat_r; lra.
Qed.

Definition tick_calls (x : Z) : list cairo_call :=
  let text := pretty x in
  stroke_tick (position x) (5 * sign s) ++
  [MoveTo (position x - t_width extents text / 2)
     ((5 + 5 + (if top s then t_height extents text + y_bearing extents text
                else - y_bearing extents text)) * sign s);
   ShowText text].

Definition subtick_calls (x : Z) : list cairo_call := stroke_tick (position x) (3 * sign s).

Lemma fold_res_emit {A} (f : list cairo_call → A → result exn (list cairo_call)) (g : A → list cairo_call) l xs :
  (∀ l x, f l x = Ok (l ++ g x)) → fold_res f l xs = Ok (l ++ (xs ≫= g)).
Proof.
  intros Hf. revert l. induction xs as [|x xs IH]; intros l; cbn [fold_res]; [by rewrite app_nil_r|].
  rewrite Hf. cbn [mbind result_bind]. rewrite IH. cbn. by rewrite <- app_assoc.
Qed.

Lemma draw_ticks l xs : fold_res (draw_tick extents s) l xs = Ok (l ++ (xs ≫= tick_calls)).
Proof. apply fold_res_emit. intros k x. unfold draw_tick. by rewrite (proj1 (position_spec x)). Qed.

Lemma draw_subticks l xs : fold_res (draw_subtick s) l xs = Ok (l ++ (xs ≫= subtick_calls)).
Proof. apply fold_res_emit. intros k x. unfold draw_subtick. by rewrite (proj1 (position_spec x)). Qed.
End Marks.

Lemma draw_scale_calls extents s : (1 ≤ delta s)%Z → val (lo s) < val (hi s) →
  ∃ xs ys, draw_scale extents s =
      Ok ([black; SetLineWidth 1] ++ (xs ≫= tick_calls extents s) ++ (ys ≫= subtick_calls s)) ∧
    NoDup xs ∧ NoDup ys ∧
    (∀ x, x ∈ xs ↔ (delta s | x)%Z ∧ val (lo s) < inject_Z x ∧ inject_Z x <= val (hi s)) ∧
    ∀ y, y ∈ ys ↔ (10 ≤ delta s)%Z ∧ (delta s / 10 | y)%Z ∧
      val (lo s) < inject_Z y ∧ inject_Z y <= val (hi s).
Proof.
  intros Hδ Hb. destruct (multiples_spec s (delta s) Hδ) as (xs & Exs & Hnd & Hxs).
  unfold draw_scale. rewrite Exs. cbn [mbind result_bind].
  rewrite draw_ticks by done. cbn [mbind result_bind].
  pose proof (Z.div_mod (delta s) 10). pose proof (Z.mod_pos_bound (delta s) 10).
  case_bool_decide as Hd.
  - destruct (multiples_spec s (delta s / 10) ltac:(lia)) as (ys & -> & Hnd' & Hys).
    cbn [mbind result_bind]. rewrite draw_subticks by done. exists xs, ys.
    rewrite <- (assoc_L (++)). split_and!; [done..|].
    intros y. rewrite Hys. split; [intros ?; split; [lia|done]|by intros []].
  - exists xs, []. cbn. rewrite app_nil_r. split_and!; [done|done|constructor|done|].
    intros y. split; [set_solver|lia].
Qed.

Lemma make_scale_delta lo hi width top s : make_scale lo hi width top = Ok s →
  (1 ≤ delta s)%Z ∧ s = Scale lo hi (delta s) width top.
Proof.
  unfold make_scale. intros Hs.
  destruct (scale_layout lo hi) as [δ|] eqn:E; [|done]. cbn [mbind result_bind] in Hs.
  injection Hs as <-. split; [|done]. cbn [delta]. unfold scale_layout in E.
  destruct (num_sub hi lo) as [n|q].
  - destruct (integer_delta n) as [[_ H]|(_ & d & H & Hd & _)]; rewrite H in E; cbn in E;
      case_bool_decide; simplify_eq; lia.
  - destruct (float_delta q) as [[_ H]|(_ & d & H & Hd)]; rewrite H in E; cbn in E;
      case_bool_decide; simplify_eq; lia.
Qed.

(** [ScaleRenderer]: a scale laid out on a window that is not empty is
    drawn without an exception; each multiple of its delta after the lower
    bound and up to the upper one gets a long mark with its value, each
    multiple of a tenth of the delta a short one, and nothing else does; the
    marks are between the two ends of the scale and in the order of their
    values. *)
Theorem scale_marks (extents : string → Q * Q * Q) (lo_ hi_ width_ : num) (at_top : bool) (s : ScaleRenderer)
    (Hs : make_scale lo_ hi_ width_ at_top = Ok s) (Hb : val lo_ < val hi_) (Hw : 0 <= val width_) :
  let shown x := val lo_ < inject_Z x ∧ inject_Z x <= val hi_ in
  (1 ≤ delta s)%Z ∧ ∃ xs ys,
    draw_scale extents s =
      Ok ([black; SetLineWidth 1] ++ (xs ≫= tick_calls extents s) ++ (ys ≫= subtick_calls s)) ∧
    NoDup xs ∧ NoDup ys ∧
    (∀ x, x ∈ xs ↔ (delta s | x)%Z ∧ shown x) ∧
    (∀ y, y ∈ ys ↔ (10 ≤ delta s)%Z ∧ (delta s / 10 | y)%Z ∧ shown y) ∧
    (∀ x, shown x → 0 <= position s x ∧ position s x <= val width_) ∧
    ∀ x x', (x ≤ x')%Z → position s x <= position s x'.
Proof.
  cbn zeta. destruct (make_scale_delta _ _ _ _ _ Hs) as [Hδ Es]. rewrite Es in *. cbn [delta] in *.
  split; [done|]. set (s' := Scale _ _ _ _ _) in *.
  destruct (draw_scale_calls extents s' Hδ Hb) as (xs & ys & E & Hnd & Hnd' & Hxs & Hys).
  exists xs, ys. split_and!; [done..| |].
  - intros x [H1 H2]. apply (position_bounds s' Hb Hw); cbn; lra.
  - intros x x'. by apply (position_mono s' Hb Hw).
Qed.

Lemma scale_marks_witness :
  ∃ s, make_scale (Int 0) (Float 25) (Int 100) false = Ok s ∧ delta s = 10%Z ∧
    ∃ xs : list Z, (∀ x, x ∈ xs ↔ (10 | x)%Z ∧ 0 < inject_Z x ∧ inject_Z x <= 25).
Proof.
  eexists. split; [vm_compute; reflexivity|]. split; [reflexivity|].
  destruct (scale_marks (λ _, (0, 6, 9)) (Int 0) (Float 25) (Int 100) false
    (Scale (Int 0) (Float 25) 10 (Int 100) false)) as (_ & xs & ys & _ & _ & _ & Hxs & _);
    [vm_compute; reflexivity|done|done|].
  exists xs. exact Hxs.
Defined.

(** The slice of [draw_events] has the event after the window, which is drawn
    right of the pane. *)
Lemma mark_outside_pane :
  ∃ st, draw_events (λ _, (0, 6, 9)) (Int 0) (Int 5) sample_events (Float 60) 5 (Float 10) 14
      (Canvas [] 5 1 (MkColors ∅ [])) = Ok st ∧ Rectangle 78 5 1 1 ∈ calls st.
Proof.
  eexists. split; [vm_compute; reflexivity|].
  apply list_elem_of_lookup. exists 6%nat. vm_compute. reflexivity.
Qed.
