(* ===== verification/Picture.v ===== *)
(** * The pictures of [utils/grid.py] as a whole

    [Drawing] has the drawing methods; here are the height their rows take
    against the one [layout] reserves, the picture [GraphicRenderer.draw] makes
    of its parts, and what the widget shows and saves. *)

From S2P Require Import Prelude PyStr Rat Viewer Timeline Drawing.
From Stdlib Require Import Qround.

Local Open Scope string_scope.
Local Open Scope list_scope.
Local Open Scope Q_scope.

(** ** The height of the drawing *)
Section Height.
Context (extents : string → Q * Q * Q) (start_ end_ : num) (s : layout_sums) (width : num).
Hypothesis Hwindow : ¬ val end_ == val start_.

Lemma column_total x w t : ∃ c, column start_ end_ x w t = Ok c.
Proof.
  unfold column. destruct (num_div_val (num_mul (num_sub t start_) w) (num_sub end_ start_))
    as (q & -> & _); [rewrite num_sub_val; lra|]. cbn. eauto.
Qed.

Lemma draw_marks_total x y w last es : ∃ l, draw_marks extents start_ end_ x y w last es = Ok l.
Proof.
  revert last. induction es as [|e es IH]; intros last; cbn [draw_marks]; [eauto|].
  destruct (column_total x w (Int (at_ e))) as [c ->]. cbn [mbind result_bind].
  case_bool_decide; [|apply IH]. destruct (IH c) as [l ->]. cbn. eauto.
Qed.

Lemma draw_boxes_total x y w last rs cs :
  Forall (coloured cs) rs → ∃ l, draw_boxes start_ end_ x y w last rs cs = Ok (l, cs).
Proof.
  intros Hc. revert last. induction Hc as [|r rs [c Hr] Hc IH]; intros last; cbn [draw_boxes]; [eauto|].
  destruct (column_total x w (shown_start start_ r)) as [c1 ->].
  destruct (column_total x w (shown_end end_ r)) as [c2 ->]. cbn [mbind result_bind].
  case_bool_decide; [|apply IH]. unfold lookup_color. rewrite Hr. cbn [mbind result_bind].
  destruct (IH c2) as [l ->]. cbn. eauto.
Qed.

(** One step of the drawing: it moves [cur_y] down by [d]. *)
Definition moves (cs : Colors) (d : Q) (st : canvas) (r : result exn canvas) : Prop :=
  ∃ st', r = Ok st' ∧ colors st' = cs ∧ cur_y st' == cur_y st + d.

Lemma fold_moves {A} (f : canvas → A → result exn canvas) (d : Q) cs l st :
  (∀ st a, a ∈ l → colors st = cs → moves cs d st (f st a)) → colors st = cs →
  moves cs (inject_Z (Z.of_nat (length l)) * d) st (fold_res f st l).
Proof.
  revert st. induction l as [|a l IH]; intros st Hf Hst; cbn [fold_res].
  { exists st. split_and!; [done..|]. change (inject_Z (Z.of_nat (length []))) with 0. lra. }
  destruct (Hf st a ltac:(by left) Hst) as (st1 & -> & Hc1 & Hy1). cbn [mbind result_bind].
  destruct (IH st1) as (st2 & -> & Hc2 & Hy2); [by intros; apply Hf; [right|]|done|].
  exists st2. split_and!; [done..|]. cbn [length]. rewrite inject_succ, Hy2, Hy1. lra.
Qed.

Lemma event_row_moves cs st ev : colors st = cs →
  moves cs (max_text_height extents + 15) st (event_row extents start_ end_ s width st ev).
Proof.
  intros Hst. unfold event_row, draw_events.
  destruct (get_events_bounds_total ev (val start_) (val end_)) as [[a b] ->].
  cbn [mbind result_bind].
  match goal with |- context [draw_marks ?e ?st ?en ?x ?y ?w ?l ?es] =>
    destruct (draw_marks_total x y w l es) as [k ->] end.
  cbn [mbind result_bind]. eexists. split_and!; [done..|]. cbn. unfold padding. lra.
Qed.

Lemma range_row_moves cs st rs : colors st = cs → Forall (coloured cs) (ranges rs) →
  moves cs (max_text_height extents + 10) st (range_row extents start_ end_ s width st rs).
Proof.
  intros Hst Hc. unfold range_row, draw_ranges.
  destruct (get_ranges_bounds_total rs (val start_) (val end_)) as [[a b] ->].
  cbn [mbind result_bind].
  match goal with |- context [draw_boxes ?st ?en ?x ?y ?w ?l ?es ?c] =>
    destruct (draw_boxes_total x y w l es c) as [k ->] end.
  { cbn. rewrite Hst. unfold py_slice. by apply Forall_take, Forall_drop. }
  cbn [mbind result_bind]. eexists. split_and!; [done..|]. cbn. unfold padding. lra.
Qed.

(** The rows of a timeline, and of all of them. *)
Definition event_rows (ts : Timelines) : Z :=
  Z.of_nat (length (ts ≫= event_int)) + Z.of_nat (length (ts ≫= event_str)).
Definition range_rows (ts : Timelines) : Z := Z.of_nat (length (ts ≫= t_ranges)).

Definition all_coloured (cs : Colors) (ts : Timelines) : Prop :=
  ∀ t rs r, t ∈ ts → rs ∈ t_ranges t → r ∈ ranges rs → coloured cs r.

Definition rows_height (e r : Z) : Q :=
  inject_Z e * (max_text_height extents + 15) + inject_Z r * (max_text_height extents + 10).

Lemma rows_height_add e r e' r' :
  rows_height (e + e') (r + r') == rows_height e r + rows_height e' r'.
Proof. unfold rows_height. rewrite !inject_Z_plus. lra. Qed.

Lemma timeline_moves cs st t : colors st = cs → all_coloured cs [t] →
  moves cs (rows_height (event_rows [t]) (range_rows [t])) st
    (draw_timeline extents start_ end_ s width st t).
Proof.
  intros Hst Hc. unfold draw_timeline.
  destruct (fold_moves (event_row extents start_ end_ s width) (max_text_height extents + 15) cs
    (event_int t) (draw_name extents 5 (t_name t) st)) as (st1 & -> & Hc1 & Hy1);
    [intros; by apply event_row_moves|done|]. cbn [mbind result_bind].
  destruct (fold_moves (event_row extents start_ end_ s width) (max_text_height extents + 15) cs
    (event_str t) st1) as (st2 & -> & Hc2 & Hy2);
    [intros; by apply event_row_moves|done|]. cbn [mbind result_bind].
  destruct (fold_moves (range_row extents start_ end_ s width) (max_text_height extents + 10) cs
    (t_ranges t) st2) as (st3 & -> & Hc3 & Hy3); [|done|].
  { intros st' rs Hrs Hst'. apply range_row_moves; [done|]. apply Forall_forall. intros r Hr.
    apply (Hc t rs r); set_solver. }
  cbn [mbind result_bind]. eexists. split_and!; [done..|]. cbn [cur_y emit].
  rewrite Hy3, Hy2, Hy1. unfold rows_height, event_rows, range_rows. cbn [mbind list_bind].
  rewrite !app_nil_r, inject_Z_plus. cbn. lra.
Qed.

Lemma rows_cons t ts :
  event_rows (t :: ts) = (event_rows [t] + event_rows ts)%Z ∧
  range_rows (t :: ts) = (range_rows [t] + range_rows ts)%Z.
Proof.
  unfold event_rows, range_rows. cbn [mbind list_bind]. rewrite !app_nil_r, !length_app. lia.
Qed.

Lemma timelines_move cs ts st : colors st = cs → all_coloured cs ts →
  moves cs (rows_height (event_rows ts) (range_rows ts)) st
    (fold_res (draw_timeline extents start_ end_ s width) st ts).
Proof.
  revert st. induction ts as [|t ts IH]; intros st Hst Hc; cbn [fold_res].
  { exists st. split_and!; [done..|]. unfold rows_height.
    change (inject_Z (event_rows [])) with 0. change (inject_Z (range_rows [])) with 0. lra. }
  destruct (timeline_moves cs st t Hst) as (st1 & -> & Hc1 & Hy1).
  { intros t' rs r ->%list_elem_of_singleton. apply Hc. by left. }
  cbn [mbind result_bind]. destruct (IH st1 Hc1) as (st2 & -> & Hc2 & Hy2).
  { intros t' rs r Ht'. apply Hc. by right. }
  exists st2. split_and!; [done..|]. destruct (rows_cons t ts) as [-> ->].
  rewrite rows_height_add, Hy2, Hy1. lra.
Qed.
End Height.

(** *** What [layout] counts *)
Lemma layout_timeline_counts extents sums t :
  let s' := layout_timeline extents sums t in
  left_n_lines s' = (left_n_lines sums + 1)%Z ∧
  range_n s' = (range_n sums + range_rows [t])%Z ∧
  (eventint_n s' + eventstr_n s' = eventint_n sums + eventstr_n sums + event_rows [t])%Z.
Proof.
  assert (∀ l s, let s' := foldl (layout_range extents) s l in left_n_lines s' = left_n_lines s ∧
    range_n s' = (range_n s + Z.of_nat (length l))%Z ∧ eventint_n s' = eventint_n s ∧
    eventstr_n s' = eventstr_n s) as H1.
  { induction l as [|a l IH]; intros s; [cbn; lia|]. cbn [foldl]. destruct (IH (layout_range extents s a))
      as (-> & -> & -> & ->). cbn. lia. }
  assert (∀ l s, let s' := foldl (layout_int extents) s l in left_n_lines s' = left_n_lines s ∧
    range_n s' = range_n s ∧ eventint_n s' = (eventint_n s + Z.of_nat (length l))%Z ∧
    eventstr_n s' = eventstr_n s) as H2.
  { induction l as [|a l IH]; intros s; [cbn; lia|]. cbn [foldl]. destruct (IH (layout_int extents s a))
      as (-> & -> & -> & ->). cbn. lia. }
  assert (∀ l s, let s' := foldl (layout_str extents) s l in left_n_lines s' = left_n_lines s ∧
    range_n s' = range_n s ∧ eventint_n s' = eventint_n s ∧
    eventstr_n s' = (eventstr_n s + Z.of_nat (length l))%Z) as H3.
  { induction l as [|a l IH]; intros s; [cbn; lia|]. cbn [foldl]. destruct (IH (layout_str extents s a))
      as (-> & -> & -> & ->). cbn. lia. }
  cbn zeta. unfold layout_timeline.
  destruct (H3 (event_str t) (foldl (layout_int extents) (foldl (layout_range extents)
    (Sums (num_max (left_width sums) (Float (t_width extents (t_name t)))) (right_width sums)
       (left_n_lines sums + 1) (range_n sums) (eventint_n sums) (eventstr_n sums)) (t_ranges t))
    (event_int t))) as (-> & -> & -> & ->).
  edestruct H2 as (-> & -> & -> & ->). edestruct H1 as (-> & -> & -> & ->).
  unfold range_rows, event_rows. cbn. rewrite !app_nil_r. lia.
Qed.

Lemma layout_counts extents ts :
  let s := layout_timelines extents ts in
  left_n_lines s = Z.of_nat (length ts) ∧ range_n s = range_rows ts ∧
  (eventint_n s + eventstr_n s = event_rows ts)%Z.
Proof.
  cbn zeta. unfold layout_timelines.
  assert (∀ s, let s' := foldl (layout_timeline extents) s ts in
    left_n_lines s' = (left_n_lines s + Z.of_nat (length ts))%Z ∧
    range_n s' = (range_n s + range_rows ts)%Z ∧
    (eventint_n s' + eventstr_n s' = eventint_n s + eventstr_n s + event_rows ts)%Z) as H.
  { induction ts as [|t ts IH]; intros s; [cbn; unfold range_rows, event_rows; cbn; lia|].
    cbn [foldl length]. destruct (rows_cons t ts) as [-> ->].
    destruct (IH (layout_timeline extents s t)) as (-> & -> & E).
    destruct (layout_timeline_counts extents s t) as (-> & -> & E'). lia. }
  apply (H (Sums (Int 0) (Int 0) 0 0 0 0)).
Qed.

(** A timeline with a row. *)
Definition has_row (t : Timeline) : Prop := (1 ≤ event_rows [t] + range_rows [t])%Z.

Lemma rows_at_least ts : Forall has_row ts → (Z.of_nat (length ts) ≤ event_rows ts + range_rows ts)%Z.
Proof.
  induction 1 as [|t ts Ht _ IH]; [done|]. destruct (rows_cons t ts) as [-> ->].
  unfold has_row in Ht. cbn [length]. lia.
Qed.

(** Every timeline [read_data] makes has a row: it is made for an entry. *)
Lemma update_named_Forall {A} (P : A → Prop) name_of new f name l :
  Forall P l → (∀ a, P (f a)) → Forall P (update_named name_of new f name l).
Proof.
  intros Hl Hf. induction Hl as [|a l Ha Hl IH]; cbn; [by repeat constructor|].
  case_bool_decide; constructor; auto.
Qed.

Lemma update_named_length {A} name_of (new : A) f name l :
  (1 ≤ length (update_named name_of new f name l))%nat.
Proof. destruct l; cbn; [lia|]. case_bool_decide; cbn; lia. Qed.

Lemma read_data_rows text : Forall has_row (read_data text).2.
Proof.
  unfold read_data. cbn [snd]. unfold sort_timelines. apply Forall_fmap.
  assert (∀ ls st, Forall has_row st.2 → Forall has_row (foldl read_line st ls).2) as H.
  { induction ls as [|l ls IH]; intros st Hst; [done|]. cbn [foldl]. apply IH.
    rewrite read_line_timelines. destruct (entry_of_line l) as [e|]; [|done].
    unfold add_entry, get_timeline. destruct e; apply update_named_Forall; try done; intros t;
      unfold has_row, event_rows, range_rows; cbn; rewrite !app_nil_r;
      match goal with |- context [update_named ?a ?b ?c ?d ?l] =>
        pose proof (update_named_length a b c d l) end; lia. }
  eapply Forall_impl; [apply H; constructor|]. intros t.
  unfold has_row, event_rows, range_rows. cbn. by rewrite !app_nil_r, !length_fmap.
Qed.

Lemma qmax_lub a b c : qmax a b <= c ↔ a <= c ∧ b <= c.
Proof. unfold qmax. qcase; split; intros; [|lra| |lra]; split; lra. Qed.

Lemma le_qmax a b c : c <= qmax a b ↔ c <= a ∨ c <= b.
Proof.
  unfold qmax. qcase; split; intros H'; [by right| |by left|]; destruct H'; lra.
Qed.

Lemma Qnonneg_inject z : (0 ≤ z)%Z → 0 <= inject_Z z.
Proof. intros. change 0 with (inject_Z 0). by rewrite <- Zle_Qle. Qed.

(** The rows against the height reserved, in numbers. *)
Lemma rows_against_height h t e r :
  0 <= h → (0 ≤ t ≤ e + r)%Z → (0 ≤ e)%Z → (0 ≤ r)%Z →
  let rows := inject_Z e * (h + 15) + inject_Z r * (h + 10) in
  rows <= qmax (qmax (inject_Z t * h + inject_Z (t - 1) * 10)
                  (inject_Z (r + e - 1) * 10 + inject_Z (r + e) * h))
            (inject_Z e * (h + 5) + inject_Z r * 10 + inject_Z (r + e - 1) * 10) + 10 ↔
  e = 0%Z ∨ r = 0%Z ∨ h <= 10.
Proof.
  intros Hh Ht He Hr. cbn zeta. rewrite !inject_pred, !inject_Z_plus.
  pose proof (Qnonneg_inject e He) as He'. pose proof (Qnonneg_inject r Hr) as Hr'.
  assert (inject_Z t <= inject_Z e + inject_Z r) as Ht'.
  { rewrite <- inject_Z_plus, <- Zle_Qle. lia. }
  assert (inject_Z t * h <= (inject_Z e + inject_Z r) * h) as Hth by (by apply Qmult_le_compat_r).
  setoid_replace (inject_Z e * (h + 15) + inject_Z r * (h + 10) <=
    qmax (qmax (inject_Z t * h + (inject_Z t - 1) * 10)
       ((inject_Z r + inject_Z e - 1) * 10 + (inject_Z r + inject_Z e) * h))
     (inject_Z e * (h + 5) + inject_Z r * 10 + (inject_Z r + inject_Z e - 1) * 10) + 10)
    with (inject_Z e * (h + 15) + inject_Z r * (h + 10) - 10 <=
    qmax (qmax (inject_Z t * h + (inject_Z t - 1) * 10)
       ((inject_Z r + inject_Z e - 1) * 10 + (inject_Z r + inject_Z e) * h))
     (inject_Z e * (h + 5) + inject_Z r * 10 + (inject_Z r + inject_Z e - 1) * 10))
    using relation iff by (split; lra).
  rewrite !le_qmax. split.
  - intros [[H|H]|H].
    + left. cut (inject_Z e <= inject_Z 0); [rewrite <- Zle_Qle; lia|change (inject_Z 0) with 0; lra].
    + left. cut (inject_Z e <= inject_Z 0); [rewrite <- Zle_Qle; lia|change (inject_Z 0) with 0; lra].
    + destruct (decide (r = 0)%Z) as [|Hr0]; [by right; left|right; right].
      assert (0 < inject_Z r) as Hp by (change 0 with (inject_Z 0); rewrite <- Zlt_Qlt; lia).
      apply Qmult_le_l with (inject_Z r); [done|lra].
  - intros [->|[->|H]].
    + left; right. change (inject_Z 0) with 0. lra.
    + right. change (inject_Z 0) with 0. lra.
    + right. assert (inject_Z r * h <= inject_Z r * 10); [|lra].
      rewrite !(Qmult_comm (inject_Z r)). by apply Qmult_le_compat_r.
Qed.

(** *** The colours [main] looks up before it draws *)
Abbreviation uncoloured tab names := (filter (λ n, tab !! n = None) names).

Lemma uncoloured_insert (tab : gmap string Color) n c (names : list string) :
  n ∉ names → uncoloured (<[n := c]> tab) names = uncoloured tab names.
Proof.
  induction names as [|m names IH]; [done|]. intros [Hm Hn]%not_elem_of_cons.
  rewrite !filter_cons, lookup_insert_ne, IH by done. done.
Qed.

(** There are enough default colours for the names without one, or the lookups
    raise [IndexError]. *)
Lemma lookup_colors_outcome names cs :
  NoDup names →
  if decide (length (uncoloured (table cs) names) ≤ length (defaults cs))%nat
  then ∃ l cs', lookup_colors names cs = Ok (l, cs') ∧ ∀ n, n ∈ names → is_Some (table cs' !! n)
  else lookup_colors names cs = Raise IndexError.
Proof.
  intros Hnd. revert cs. induction Hnd as [|n names Hn Hnd IH]; intros cs.
  { rewrite decide_True by (cbn; lia). exists [], cs. split; [done|]. intros n []%elem_of_nil. }
  cbn [lookup_colors]. rewrite filter_cons. unfold lookup_color.
  destruct (table cs !! n) as [c|] eqn:Et; cbn [mbind result_bind].
  - rewrite (decide_False (P := Some c = None)) by done. specialize (IH cs).
    case_decide; [|by rewrite IH]. destruct IH as (l & cs' & E & Hall). rewrite E.
    eexists _, cs'. split; [done|].
    intros m [->|Hm]%elem_of_cons; [|by apply Hall]. exists c. by eapply lookup_colors_table.
  - rewrite (decide_True (P := None = None)) by done.
    destruct (defaults cs) as [|d ds _] eqn:Ed using rev_ind.
    { cbn [last]. by rewrite decide_False by (cbn; lia). }
    replace (take (pred (length (ds ++ [d]))) (ds ++ [d])) with ds
      by (rewrite length_app, Nat.add_1_r; cbn [pred length]; by rewrite take_app_length).
    rewrite last_snoc, length_app, Nat.add_1_r. cbn [mbind result_bind length].
    specialize (IH (MkColors (<[n := d]> (table cs)) ds)). cbn [table defaults] in IH.
    rewrite uncoloured_insert in IH by done.
    destruct (decide (length (uncoloured (table cs) names) ≤ length ds)%nat) as [H1|H1].
    + rewrite decide_True by lia. destruct IH as (l & cs' & E & Hall). rewrite E.
      eexists _, cs'. split; [done|].
      intros m [->|Hm]%elem_of_cons; [|by apply Hall]. exists d.
      eapply lookup_colors_table; [done|]. cbn. by rewrite lookup_insert_eq.
    + rewrite decide_False by lia. by rewrite IH.
Qed.

Lemma range_values_elem ts t rs r :
  t ∈ ts → rs ∈ t_ranges t → r ∈ ranges rs → r_value r ∈ get_all_range_values ts.
Proof.
  assert (H1 : ∀ rl (vs : gset string), foldl (λ vs r, {[r_value r]} ∪ vs) vs rl = list_to_set (r_value <$> rl) ∪ vs).
  { induction rl as [|a rl IH]; intros vs; cbn; [set_solver|]. rewrite IH. set_solver. }
  assert (H2 : ∀ l (vs : gset string), foldl (λ vs rs, foldl (λ vs r, {[r_value r]} ∪ vs) vs (ranges rs)) vs l =
    list_to_set (r_value <$> (l ≫= ranges)) ∪ vs).
  { induction l as [|a l IH]; intros vs; cbn; [set_solver|]. rewrite IH, H1, fmap_app, list_to_set_app_L. set_solver. }
  assert (H3 : ∀ l (vs : gset string), foldl (λ vs t, foldl (λ vs rs, foldl (λ vs r, {[r_value r]} ∪ vs) vs (ranges rs)) vs (t_ranges t)) vs l =
    list_to_set (r_value <$> (l ≫= λ t, t_ranges t ≫= ranges)) ∪ vs).
  { induction l as [|a l IH]; intros vs; cbn; [set_solver|]. rewrite IH, H2, fmap_app, list_to_set_app_L. set_solver. }
  intros Ht Hrs Hr. unfold get_all_range_values. rewrite H3, elem_of_union, elem_of_list_to_set. left.
  apply list_elem_of_fmap. exists r. split; [done|]. apply list_elem_of_bind. exists t. split; [|done].
  apply list_elem_of_bind. by exists rs.
Qed.

Lemma drawing_coloured (extents : string → Q * Q * Q) (start_ end_ : num) (width : num)
    (ts : Timelines) (cs : Colors) (h := max_text_height extents)
    (s := layout_timelines extents ts)
    (Hwindow : ¬ val end_ == val start_) (Hc : all_coloured cs ts) (Hrows : Forall has_row ts)
    (Hh : 0 <= h) :
  ∃ st, draw_timelines extents start_ end_ s width ts cs = Ok st ∧ colors st = cs ∧
    let bottom := cur_y st - 5 in
    bottom == inject_Z (event_rows ts) * (h + 15) + inject_Z (range_rows ts) * (h + 10) ∧
    (bottom <= data_height extents s ↔ event_rows ts = 0%Z ∨ range_rows ts = 0%Z ∨ h <= 10).
Proof.
  unfold draw_timelines.
  destruct (timelines_move extents start_ end_ s width Hwindow cs ts
    (Canvas (draw_line 0 0 (val width) 0) 5 1 cs)) as (st & -> & Hcs & Hy); [done|done|].
  cbn [mbind result_bind]. eexists. split; [done|]. split; [done|]. cbn [cur_y emit] in *.
  assert (cur_y st - 5 == rows_height extents (event_rows ts) (range_rows ts)) as Hb by (rewrite Hy; lra).
  split; [exact Hb|]. rewrite Hb. unfold data_height, padding.
  destruct (layout_counts extents ts) as (E1 & E2 & E3). fold s in E1, E2, E3.
  rewrite <- (Z.add_assoc (range_n s)), E1, E2, E3.
  apply rows_against_height; [done|pose proof (rows_at_least ts Hrows); lia|..];
    unfold event_rows, range_rows; lia.
Qed.

(** C38: [draw] against [layout], on timelines that have a row each, as those
    [read_data] makes, and in a window that is not empty.  Before it draws,
    [main] looks up a colour for every value of a range, in the order of a
    dictionary: when more of the values have no colour than there are default
    colours left, of six, this raises [IndexError] and nothing is drawn.
    Otherwise, with the colours so looked up, drawing raises nothing and ends,
    and the rows take the height of their texts with the padding; this is at
    most the height [layout] reserved and announced to the other parts exactly
    when the rows are all of events, all of ranges, or the text is no higher
    than the rectangle of a range. *)
Theorem drawing_height (extents : string → Q * Q * Q) (start_ end_ : num) (width : num)
    (ts : Timelines) (cs0 : Colors) (range_values : list string) (h := max_text_height extents)
    (s := layout_timelines extents ts)
    (Hvalues : NoDup range_values ∧ ∀ v, v ∈ range_values ↔ v ∈ get_all_range_values ts)
    (Hwindow : ¬ val end_ == val start_) (Hrows : Forall has_row ts) (Hh : 0 <= h) :
  if decide (length (uncoloured (table cs0) range_values) ≤ length (defaults cs0))%nat
  then ∃ l cs st, lookup_colors range_values cs0 = Ok (l, cs) ∧
    draw_timelines extents start_ end_ s width ts cs = Ok st ∧ colors st = cs ∧
    let bottom := cur_y st - 5 in
    bottom == inject_Z (event_rows ts) * (h + 15) + inject_Z (range_rows ts) * (h + 10) ∧
    (bottom <= data_height extents s ↔ event_rows ts = 0%Z ∨ range_rows ts = 0%Z ∨ h <= 10)
  else lookup_colors range_values cs0 = Raise IndexError.
Proof.
  destruct Hvalues as [Hnd Hvalues]. pose proof (lookup_colors_outcome range_values cs0 Hnd) as H.
  case_decide; [|done]. destruct H as (l & cs & E & Hall).
  destruct (drawing_coloured extents start_ end_ width ts cs) as (st & Hst); [done| |done..|].
  - intros t rs r Ht Hrs Hr. apply Hall, Hvalues. by eapply range_values_elem.
  - by exists l, cs, st.
Qed.

(** Texts of a fixed height. *)
Definition flat (h : Q) : string → Q * Q * Q := λ s, (0, inject_Z (Z.of_nat (String.length s)) * 6, h).

Definition sample_data : Colors * Timelines :=
  read_data ("range node state idle 0 4" +:+ nl +:+ "event-int node queue 7 2" +:+ nl +:+
             "color idle #ff0000" +:+ nl).

(** Seven states and no colours. *)
Definition crowded_data : Colors * Timelines :=
  read_data (foldr (λ v text, "range node state " +:+ v +:+ " 0 4" +:+ nl +:+ text) ""
               ["a"; "b"; "c"; "d"; "e"; "f"; "g"]).

Lemma drawing_height_witness :
  (∃ st, draw_timelines (flat 12) (Int 0) (Float 4) (layout_timelines (flat 12) sample_data.2) (Int 200)
      sample_data.2 sample_data.1 = Ok st ∧ cur_y st - 5 == 49) ∧
  lookup_colors ["a"; "b"; "c"; "d"; "e"; "f"; "g"] crowded_data.1 = Raise IndexError.
Proof.
  assert (Hwindow : ¬ val (Float 4) == val (Int 0)) by (intros H; discriminate H).
  split.
  - assert (Hvalues : NoDup ["idle"] ∧ ∀ v, v ∈ ["idle"] ↔ v ∈ get_all_range_values sample_data.2).
    { split; [by apply (bool_decide_unpack _); vm_compute|]. intros v.
      replace (get_all_range_values sample_data.2) with (list_to_set ["idle"] : gset string)
        by (vm_compute; reflexivity).
      by rewrite elem_of_list_to_set. }
    pose proof (drawing_height (flat 12) (Int 0) (Float 4) (Int 200) sample_data.2 sample_data.1 ["idle"]
      Hvalues Hwindow (read_data_rows _) ltac:(done)) as H. rewrite decide_True in H by (vm_compute; lia).
    destruct H as (l & cs & st & E & Hst & _ & Hb & _).
    exists st. assert (sample_data.1 = cs) as -> by (vm_compute in E; injection E as _ E; exact E).
    split; [exact Hst|]. rewrite Hb. vm_compute. reflexivity.
  - set (values := ["a"; "b"; "c"; "d"; "e"; "f"; "g"]).
    assert (Hvalues : NoDup values ∧ ∀ v, v ∈ values ↔ v ∈ get_all_range_values crowded_data.2).
    { split; [by apply (bool_decide_unpack _); vm_compute|]. intros v.
      replace (get_all_range_values crowded_data.2) with (list_to_set values : gset string)
        by (vm_compute; reflexivity).
      by rewrite elem_of_list_to_set. }
    pose proof (drawing_height (flat 12) (Int 0) (Float 4) (Int 200) crowded_data.2 crowded_data.1 values
      Hvalues Hwindow (read_data_rows _) ltac:(done)) as H. rewrite decide_False in H by (vm_compute; lia).
    exact H.
Defined.

(** With texts of height 12, one range and one event already run below the
    height reserved. *)
Lemma drawing_overflows :
  data_height (flat 12) (layout_timelines (flat 12) sample_data.2) == 47.
Proof. vm_compute. reflexivity. Qed.

(** ** The whole picture *)
Lemma legend_draw_length width s items : length (legend_draw width s items) = length items.
Proof. revert s. induction items as [|i items IH]; intros s; [done|]. cbn. by rewrite IH. Qed.

Lemma draw_legend_total extents width names cs :
  (length names ≤ length cs)%nat → ∃ l, draw_legend extents width names cs = Ok l.
Proof.
  intros Hlen. unfold draw_legend.
  destruct (fold_res_inv (λ (l : list (string * (Q * Q))) (st : list cairo_call * Z),
    ∃ i : nat, st.2 = Z.of_nat i ∧ (i + length l ≤ length cs)%nat)
    (λ st '(name, corner), legend_item extents st name corner cs)
    (zip names (legend_draw width legend_start (legend_items extents names))) ([], 0%Z))
    as ([l n] & -> & _); [|..|cbn; eauto].
  - exists 0%nat. split; [done|]. rewrite length_zip_with. lia.
  - intros [name corner] l [k i] (n & Hn & Hl). cbn [snd length] in *. unfold legend_item.
    cbn [snd]. rewrite Hn, py_index_nat.
    destruct (lookup_lt_is_Some_2 cs n) as [c ->]; [lia|]. cbn [of_option mbind result_bind].
    eexists. split; [done|]. exists (S n). cbn. lia.
Qed.

Section Picture.
Context (extents : string → Q * Q * Q) (first last : Z) (mid bot : ScaleRenderer) (ts : Timelines).
Context (legend : list (string * Color)).

(** [GraphicRenderer.draw]: with the scales laid out on a window and a
    range that are not empty, and the colours known, drawing raises nothing
    and ends, and the zone in which the mouse takes hold of the window
    ([get_selection_rectangle]) is the one left between the two grey rectangles
    of the lower scale. *)
Theorem graphic_drawn (v : viewer) (height : Z) (cs : Colors)
    (Hmid : make_scale (Viewer.r_start v) (Viewer.r_end v)
              (num_sub (Int (width v)) (data_x_start (layout_timelines extents ts))) true = Ok mid)
    (Hbot : make_scale (Int first) (Int last) (Int (bot_width v)) false = Ok bot)
    (Hv : val (Viewer.r_start v) < val (Viewer.r_end v)) (Hfl : (first < last)%Z)
    (Hc : all_coloured cs ts) :
  ∃ l x y w h,
    draw_graphic extents first last mid bot ts legend v height cs = Ok (l, cs) ∧
    get_selection_rectangle first last (data_height extents (layout_timelines extents ts))
      (scale_height extents) (scale_height extents) (legend_items extents legend.*1) v =
      Ok (x, y, w, h) ∧
    Rectangle 0 y (val x) h ∈ l ∧
    ∃ x', x' == val x + val w ∧ Rectangle x' y (inject_Z (width v) - x') h ∈ l.
Proof.
  destruct (make_scale_delta _ _ _ _ _ Hmid) as [Hd1 E1]. destruct (make_scale_delta _ _ _ _ _ Hbot) as [Hd2 E2].
  assert (inject_Z first < inject_Z last) as Hq by (by rewrite <- Zlt_Qlt).
  destruct (draw_legend_total extents (inject_Z (width v)) legend.*1 legend.*2) as [k1 Ek1];
    [by rewrite !length_fmap|].
  destruct (timelines_move extents (Viewer.r_start v) (Viewer.r_end v)
    (layout_timelines extents ts) (Int (width v)) ltac:(lra) cs ts
    (Canvas (draw_line 0 0 (val (Int (width v))) 0) 5 1 cs)) as (st & Est & Hst & _); [done..|].
  destruct (draw_scale_calls extents mid Hd1) as (? & ? & Em & _); [rewrite E1; done|].
  destruct (draw_scale_calls extents bot Hd2) as (? & ? & Eb & _); [rewrite E2; done|].
  assert (∀ x, ∃ p, get_position first last v x = Ok p) as Hpos.
  { intros t. unfold get_position.
    destruct (num_div_val (num_mul (num_sub t (Int first)) (Int (bot_width v))) (num_sub (Int last) (Int first)))
      as (p & E & _); [rewrite num_sub_val; cbn [val]; lra|rewrite E; eauto]. }
  destruct (Hpos (Viewer.r_start v)) as [a Ea], (Hpos (Viewer.r_end v)) as [b Eb'].
  unfold draw_graphic, get_selection_rectangle. rewrite Ek1. cbn [mbind result_bind].
  unfold draw_timelines, data_sums. rewrite Est. cbn [mbind result_bind].
  rewrite Em. cbn [mbind result_bind]. rewrite Ea, Eb'. cbn [mbind result_bind]. rewrite Eb.
  cbn [mbind result_bind colors emit]. rewrite Hst.
  eexists _, _, _, _, _. split; [done|]. split; [done|].
  unfold legend_height, top_legend_height, unused_area. split.
  - repeat (apply elem_of_app; first [left; by left|right]).
  - exists (val b). split; [rewrite num_sub_val; lra|].
    repeat (apply elem_of_app; first [left; by right; left|right]).
Qed.

(** What [output_png] writes is a blank surface: the context it draws with is
    that of the buffer. *)
Lemma png_is_blank g g' surface :
  output_png extents first last mid bot ts legend g = Ok (g', surface) → surface = [].
Proof. unfold output_png. intros H. res_inv. destruct x0. by simplify_eq/=. Qed.

(** [expose] draws when asked to, and shows the buffer otherwise. *)
Lemma expose_redraws area g g' l :
  expose extents first last mid bot ts legend area g = Ok (g', l) →
  force_full_redraw g' = false ∧
  (if force_full_redraw g
   then ∃ s, buffer_surface g' = Some s ∧
     draw_graphic extents first last mid bot ts legend (window g) (widget_height g)
       (widget_colors g) = Ok (s, widget_colors g')
   else g' = g) ∧
  ∃ s, buffer_surface g' = Some s ∧ [SetSourceSurface s; Paint] `sublist_of` l.
Proof.
  unfold expose. intros H.
  apply bind_Ok_inv in H as (g1 & Hg & H). apply bind_Ok_inv in H as (s & Hs & H).
  apply bind_Ok_inv in H as (k & Hk & H). simplify_eq.
  assert (force_full_redraw g' = false ∧ (if force_full_redraw g
   then ∃ s, buffer_surface g' = Some s ∧
     draw_graphic extents first last mid bot ts legend (window g) (widget_height g)
       (widget_colors g) = Ok (s, widget_colors g')
   else g' = g)) as [H1 H2].
  { destruct (force_full_redraw g) eqn:E; [|simplify_eq; by split].
    apply bind_Ok_inv in Hg as ([d cs] & Hd & Hg). simplify_eq. cbn. eauto. }
  split; [done|]. split; [done|]. destruct (buffer_surface g') as [s'|]; [|done]. cbn in Hs. simplify_eq.
  exists s. split; [done|]. apply sublist_inserts_l.
  do 2 apply sublist_skip. apply sublist_nil_l.
Qed.
End Picture.

Lemma graphic_drawn_witness :
  ∃ l x y w h,
    draw_graphic (flat 9) 0 4 (Scale (Int 0) (Int 4) 1 (Float 126) true) (Scale (Int 0) (Int 4) 1 (Int 200) false)
      sample_data.2 [("idle", MkColor 1 0 0)]
      (Viewer (Int 0) (Int 4) 200 200 None false (Int 0) false false None None None None None)
      150 sample_data.1 = Ok (l, sample_data.1) ∧ Rectangle 0 y x h ∈ l ∧ x == 0 ∧ w == 200.
Proof.
  destruct (graphic_drawn (flat 9) 0 4 (Scale (Int 0) (Int 4) 1 (Float 126) true)
    (Scale (Int 0) (Int 4) 1 (Int 200) false) sample_data.2 [("idle", MkColor 1 0 0)]
    (Viewer (Int 0) (Int 4) 200 200 None false (Int 0) false false None None None None None) 150
    sample_data.1) as (l & x & y & w & h & E & Es & Hr & _).
  - vm_compute. reflexivity.
  - vm_compute. reflexivity.
  - done.
  - done.
  - intros t rs r Ht Hrs Hr. vm_compute in Ht. apply list_elem_of_singleton in Ht as ->.
    apply list_elem_of_singleton in Hrs as ->. apply list_elem_of_singleton in Hr as ->.
    eexists. vm_compute. reflexivity.
  - exists l, (val x), y, (val w), h. split_and!; [exact E|exact Hr|..];
      vm_compute in Es; injection Es as <- <- <- <-; vm_compute; reflexivity.
Defined.
