(* ===== verification/SimThread.v ===== *)
(** * The two threads of the visualizer

    [SimulationThread.run] of [src/visualizer/visualizer/core.py] advances the
    simulator while the Gtk thread shows it.  They share a lock, the event [go],
    the flag [quit], a target time and the pause messages; the Gtk thread owns
    the play button, the speed and the timer that calls
    [update_view_timeout].  That handler spins while the simulator is busy and
    runs the Gtk main loop meanwhile, so other handlers, even itself for another
    timer, run nested inside it: the Gtk thread is a stack of frames, each a
    handler with its program counter.  The dialogs of the screenshot run a main
    loop of their own.  Code typed in the IPython shell runs under the lock (the
    [runcode] of [_monkey_patch_ipython]) and may itself call the methods of the
    visualizer.

    [exec] is the transition function on labelled actions, one action per
    access to a shared object; the runs of [step] are the interleavings.  What
    the simulator does in [SimulatorRunUntil] (the time it stops at and the pause
    messages it produces) and whether [update_view] raises are in the labels. *)

From S2P Require Import Prelude Rat.

Local Open Scope Q_scope.

(** ** State *)

(** The program counter of [run]: the statement about to be executed. *)
Inductive sim_pc :=
  | Test                              (** [while not self.quit] *)
  | Wait                              (** [self.go.wait()] *)
  | Clear                             (** [self.go.clear()] *)
  | TestQuit                          (** [if self.quit: break] *)
  | Acquire                           (** [self.lock.acquire()] *)
  | RunUntil                          (** [SimulatorRunUntil] *)
  | Extend (messages : list string)   (** [self.pause_messages.extend] *)
  | IdleAdd                           (** [gobject.idle_add] *)
  | Release                           (** [self.lock.release()] *)
  | Finished.

(** Timers of the main loop are numbered; [sources] pairs the live ones with
    their interval in milliseconds. *)
Record timers := Timers {
  sources : list (nat * Z);
  next_id : nat;
  update_timeout_id : option nat;
  play : bool;
  speed : Q }.

(** Where [update_view_timeout] is; [Unwind] is its [finally] clause on the
    way out with an exception. *)
Inductive view_pc :=
  | TryAcquire | EventsPending | Swap | UpdateView | SetTarget | ReleaseView
  | Unwind | Dialog | Decide.

(** The handlers that take the lock, work and release it. *)
Inductive locked_handler :=
  | update_model | set_nodes_of_interest | begin_node_drag | node_drag_motion
  | tooltip_query | add_information_window | update_ipython_selected_node
  | update_capture_options.

Inductive locked_pc := LAcquire | LBody | LRelease.

Inductive quit_pc := QuitSet | GoSet | Join.

(** The dialogs of [_take_screenshot]. *)
Inductive dialog_pc := FileChooser | ErrorDialog.

(** [Shell] is [runcode], which takes the lock, runs the code and releases it. *)
Inductive frame :=
  | View (id : nat) (pc : view_pc) (pause_messages : list string)
  | Locked (h : locked_handler) (pc : locked_pc)
  | Autoscale
  | Quit (pc : quit_pc)
  | Screenshot (pc : dialog_pc)
  | Shell (pc : locked_pc).

Inductive owner := Sim | Main.

#[export] Instance sim_pc_eq_dec : EqDecision sim_pc.
Proof. solve_decision. Defined.
#[export] Instance view_pc_eq_dec : EqDecision view_pc.
Proof. solve_decision. Defined.
#[export] Instance locked_handler_eq_dec : EqDecision locked_handler.
Proof. solve_decision. Defined.
#[export] Instance locked_pc_eq_dec : EqDecision locked_pc.
Proof. solve_decision. Defined.
#[export] Instance quit_pc_eq_dec : EqDecision quit_pc.
Proof. solve_decision. Defined.
#[export] Instance dialog_pc_eq_dec : EqDecision dialog_pc.
Proof. solve_decision. Defined.
#[export] Instance frame_eq_dec : EqDecision frame.
Proof. solve_decision. Defined.
#[export] Instance owner_eq_dec : EqDecision owner.
Proof. solve_decision. Defined.

(** [now] is the simulator's clock and [viewed] what it showed at the last
    [update_view]. *)
Record clock := Clock { now : Q; target_time : Q; viewed : Q }.

(** [produced], [displayed] and [lost] record the pause messages the
    simulator made, those shown in a dialog and those dropped by an exception. *)
Record messages := Messages {
  produced : list string;
  pending : list string;              (** [self.pause_messages] *)
  displayed : list string;
  lost : list string }.

Record state := State {
  sim : sim_pc;
  frames : list frame;                (** innermost first *)
  lock : option owner;
  go : bool;
  quit : bool;
  idle : nat;                         (** [update_model] calls queued *)
  autoscale : bool;                   (** the 200 ms timer of [start] *)
  time : clock;
  tms : timers;
  msgs : messages }.

Definition set_sim (p : sim_pc) (s : state) : state :=
  State p (frames s) (lock s) (go s) (quit s) (idle s) (autoscale s) (time s) (tms s) (msgs s).
Definition set_frames (f : list frame) (s : state) : state :=
  State (sim s) f (lock s) (go s) (quit s) (idle s) (autoscale s) (time s) (tms s) (msgs s).
Definition set_lock (l : option owner) (s : state) : state :=
  State (sim s) (frames s) l (go s) (quit s) (idle s) (autoscale s) (time s) (tms s) (msgs s).
Definition set_go (b : bool) (s : state) : state :=
  State (sim s) (frames s) (lock s) b (quit s) (idle s) (autoscale s) (time s) (tms s) (msgs s).
Definition set_quit (s : state) : state :=
  State (sim s) (frames s) (lock s) (go s) true (idle s) (autoscale s) (time s) (tms s) (msgs s).
Definition set_idle (n : nat) (s : state) : state :=
  State (sim s) (frames s) (lock s) (go s) (quit s) n (autoscale s) (time s) (tms s) (msgs s).
Definition set_autoscale (s : state) : state :=
  State (sim s) (frames s) (lock s) (go s) (quit s) (idle s) false (time s) (tms s) (msgs s).
Definition set_time (t : clock) (s : state) : state :=
  State (sim s) (frames s) (lock s) (go s) (quit s) (idle s) (autoscale s) t (tms s) (msgs s).
Definition set_timers (t : timers) (s : state) : state :=
  State (sim s) (frames s) (lock s) (go s) (quit s) (idle s) (autoscale s) (time s) t (msgs s).
Definition set_messages (m : messages) (s : state) : state :=
  State (sim s) (frames s) (lock s) (go s) (quit s) (idle s) (autoscale s) (time s) (tms s) m.

(** ** The timer *)
Definition SAMPLE_PERIOD : Q := 1 # 10.

Definition sample_period (t : timers) : Q := SAMPLE_PERIOD * speed t.

Definition timeout_interval (v : Q) : Z := py_int (SAMPLE_PERIOD / qmin v 1 * 1000).

Definition source_remove (id : option nat) (l : list (nat * Z)) : list (nat * Z) :=
  match id with Some i => filter (λ p, p.1 ≠ i) l | None => l end.

Definition start_update_timer (t : timers) : timers :=
  Timers (source_remove (update_timeout_id t) (sources t) ++
            [(next_id t, timeout_interval (speed t))])
    (S (next_id t)) (Some (next_id t)) (play t) (speed t).

Definition on_play_button_toggled (t : timers) : timers :=
  if play t then start_update_timer t
  else Timers (source_remove (update_timeout_id t) (sources t)) (next_id t)
         (update_timeout_id t) (play t) (speed t).

(** Setting the button emits [toggled] when its state changes. *)
Definition set_active (b : bool) (t : timers) : timers :=
  if bool_decide (b = play t) then t
  else on_play_button_toggled
         (Timers (sources t) (next_id t) (update_timeout_id t) b (speed t)).

Definition speed_changed (v : Q) (t : timers) : timers :=
  start_update_timer (Timers (sources t) (next_id t) (update_timeout_id t) (play t) v).

Definition forget_timer (t : timers) : timers :=
  Timers (sources t) (next_id t) None (play t) (speed t).

(** A callback that returns false is removed from the main loop. *)
Definition destroy_source (id : nat) (t : timers) : timers :=
  Timers (source_remove (Some id) (sources t)) (next_id t) (update_timeout_id t)
    (play t) (speed t).

(** [create_gui] calls [_speed_changed], which starts a timer, and [start]
    the simulation thread. *)
Definition init : state :=
  State Test [] None false false 0 true (Clock 0 0 0)
    (speed_changed 1 (Timers [] 1 None false 1)) (Messages [] [] [] []).

(** ** The simulation thread ([SimulationThread.run])

    [SimulatorRunUntil t] returns at once when the clock is past [t], and stops
    at [t] or, for a pause message, earlier. *)
Definition sim_exec (now' : Q) (ms : list string) (s : state) : option state :=
  match sim s with
  | Test => Some (set_sim (if quit s then Finished else Wait) s)
  | Wait => if go s then Some (set_sim Clear s) else None
  | Clear => Some (set_sim TestQuit (set_go false s))
  | TestQuit => Some (set_sim (if quit s then Finished else Acquire) s)
  | Acquire =>
      match lock s with
      | None => Some (set_sim RunUntil (set_lock (Some Sim) s))
      | Some _ => None
      end
  | RunUntil =>
      let t := time s in
      if qle (now t) now' && qle now' (qmax (now t) (target_time t))
      then Some (set_sim (Extend ms)
             (set_time (Clock now' (target_time t) (viewed t))
             (set_messages (Messages (produced (msgs s) ++ ms) (pending (msgs s))
                              (displayed (msgs s)) (lost (msgs s))) s)))
      else None
  | Extend ms =>
      Some (set_sim IdleAdd
        (set_messages (Messages (produced (msgs s)) (pending (msgs s) ++ ms)
                         (displayed (msgs s)) (lost (msgs s))) s))
  | IdleAdd => Some (set_sim Release (set_idle (S (idle s)) s))
  | Release => Some (set_sim Test (set_lock None s))
  | Finished => None
  end.

(** ** The Gtk thread

    [view_exec] is the next statement of [update_view_timeout], called by the
    timer [id], above the frames [fs].  [ok] says whether [update_view] returns
    and [keep] whether the main loop keeps the timer of a callback that raised. *)
Definition view_exec (ok keep : bool) (id : nat) (pc : view_pc) (ms : list string)
    (fs : list frame) (s : state) : option state :=
  let goto pc' ms' := set_frames (View id pc' ms' :: fs) in
  let m := msgs s in
  match pc with
  | TryAcquire =>
      match lock s with
      | None => Some (goto Swap ms (set_lock (Some Main) s))
      | Some _ => Some (goto EventsPending ms s)
      end
  | EventsPending => Some (goto TryAcquire ms s)
  | Swap =>
      Some (goto UpdateView (pending m)
        (set_messages (Messages (produced m) [] (displayed m) (lost m)) s))
  | UpdateView =>
      if ok
      then Some (goto SetTarget ms
             (set_time (Clock (now (time s)) (target_time (time s)) (now (time s))) s))
      else Some (goto Unwind ms s)
  | SetTarget =>
      Some (goto ReleaseView ms
        (set_time (Clock (now (time s)) (now (time s) + sample_period (tms s))
                     (viewed (time s))) s))
  | ReleaseView => Some (goto Dialog ms (set_lock None s))
  | Unwind =>
      Some (set_frames fs (set_lock None
        (set_timers (if keep then tms s else destroy_source id (tms s))
        (set_messages (Messages (produced m) (pending m) (displayed m) (lost m ++ ms)) s))))
  | Dialog =>
      match ms with
      | [] => Some (goto Decide [] s)
      | _ => Some (goto Decide [] (set_timers (set_active false (tms s))
               (set_messages (Messages (produced m) (pending m) (displayed m ++ ms) (lost m)) s)))
      end
  | Decide =>
      if play (tms s) then Some (set_frames fs (set_go true s))
      else Some (set_frames fs (set_timers (destroy_source id (forget_timer (tms s))) s))
  end.

Definition locked_exec (h : locked_handler) (pc : locked_pc) (fs : list frame) (s : state) :
    option state :=
  match pc with
  | LAcquire =>
      match lock s with
      | None => Some (set_frames (Locked h LBody :: fs) (set_lock (Some Main) s))
      | Some _ => None
      end
  | LBody => Some (set_frames (Locked h LRelease :: fs) s)
  | LRelease => Some (set_frames fs (set_lock None s))
  end.

(** [_quit] after it has removed the timer. *)
Definition quit_exec (pc : quit_pc) (fs : list frame) (s : state) : option state :=
  match pc with
  | QuitSet => Some (set_frames (Quit GoSet :: fs) (set_quit s))
  | GoSet => Some (set_frames (Quit Join :: fs) (set_go true s))
  | Join => if bool_decide (sim s = Finished) then Some (set_frames fs s) else None
  end.

(** A dialog waits for the user; [ok] says whether the chosen file can be
    written, or none was chosen. *)
Definition dialog_exec (ok : bool) (pc : dialog_pc) (fs : list frame) (s : state) : option state :=
  match pc with
  | FileChooser => Some (set_frames (if ok then fs else Screenshot ErrorDialog :: fs) s)
  | ErrorDialog => Some (set_frames fs s)
  end.

(** [runcode]; [LBody] runs the code to its end, [exec] has what it can do to
    the visualizer before. *)
Definition runcode (pc : locked_pc) (fs : list frame) (s : state) : option state :=
  match pc with
  | LAcquire =>
      match lock s with
      | None => Some (set_frames (Shell LBody :: fs) (set_lock (Some Main) s))
      | Some _ => None
      end
  | LBody => Some (set_frames (Shell LRelease :: fs) s)
  | LRelease => Some (set_frames fs (set_lock None s))
  end.

Definition main_exec (ok keep : bool) (s : state) : option state :=
  match frames s with
  | [] => None
  | View id pc ms :: fs => view_exec ok keep id pc ms fs s
  | Locked h pc :: fs => locked_exec h pc fs s
  | Autoscale :: fs => Some (set_frames fs s)
  | Quit pc :: fs => quit_exec pc fs s
  | Screenshot pc :: fs => dialog_exec ok pc fs s
  | Shell pc :: fs => runcode pc fs s
  end.

(** The main loop runs at the bottom, inside the [while] loop of
    [update_view_timeout] and inside dialogs.  A timer whose callback is running
    does not fire. *)
Definition dispatching (s : state) : bool :=
  match frames s with
  | [] | View _ EventsPending _ :: _ | Screenshot _ :: _ => true
  | _ => false
  end.

Definition running (f : frame) : list nat := match f with View id _ _ => [id] | _ => [] end.

Inductive event :=
  | Fire (id : nat) | RunIdle | Toggle | SetSpeed (v : Q) | Call (h : locked_handler)
  | FireAutoscale | Delete | TakeScreenshot | RunCode.

Definition push (f : frame) (s : state) : state := set_frames (f :: frames s) s.

Definition dispatch (e : event) (s : state) : option state :=
  match e with
  | Fire id =>
      if bool_decide (id ∈ (sources (tms s)).*1 ∧ id ∉ frames s ≫= running)
      then Some (push (View id TryAcquire []) s) else None
  | RunIdle =>
      match idle s with
      | O => None
      | S n => Some (push (Locked update_model LAcquire) (set_idle n s))
      end
  | Toggle => Some (set_timers (set_active (negb (play (tms s))) (tms s)) s)
  | SetSpeed v =>
      if qle (1 # 100) v && qle v 10 then Some (set_timers (speed_changed v (tms s)) s) else None
  | Call h => Some (push (Locked h LAcquire) s)
  | FireAutoscale => if autoscale s then Some (push Autoscale (set_autoscale s)) else None
  | Delete =>
      let t := tms s in
      Some (push (Quit QuitSet) (set_timers
        (forget_timer (Timers (source_remove (update_timeout_id t) (sources t)) (next_id t)
           (update_timeout_id t) (play t) (speed t))) s))
  | TakeScreenshot => Some (push (Screenshot FileChooser) s)
  | RunCode => Some (push (Shell LAcquire) s)
  end.

(** What the code typed in the shell does to the visualizer while it runs: it
    sets the play button and the speed, and calls methods that take the lock,
    such as [viz.select_node]. *)
Definition typed (e : event) (s : state) : option state :=
  match frames s, e with
  | Shell LBody :: _, (Toggle | SetSpeed _ | Call _) => dispatch e s
  | _, _ => None
  end.

Inductive action :=
  | SimMove (now' : Q) (ms : list string)
  | MainMove (ok keep : bool)
  | Event (e : event)
  | Typed (e : event).

Definition exec (a : action) (s : state) : option state :=
  match a with
  | SimMove now' ms => sim_exec now' ms s
  | MainMove ok keep => main_exec ok keep s
  | Event e => if dispatching s then dispatch e s else None
  | Typed e => typed e s
  end.

Definition step (s s' : state) : Prop := ∃ a, exec a s = Some s'.

Fixpoint run (l : list action) (s : state) : option state :=
  match l with [] => Some s | a :: l' => s' ← exec a s; run l' s' end.

Lemma run_rtc l s s' : run l s = Some s' → rtc step s s'.
Proof.
  revert s; induction l as [|a l IH]; intros s H; simplify_eq/=; [done|].
  destruct (exec a s) as [s1|] eqn:Ha; [|done].
  eapply rtc_l; [by exists a|]. by apply IH.
Qed.

(** ** The invariant *)
Definition sim_critical (p : sim_pc) : bool :=
  match p with RunUntil | Extend _ | IdleAdd | Release => true | _ => false end.

Definition frame_critical (f : frame) : bool :=
  match f with
  | View _ (Swap | UpdateView | SetTarget | ReleaseView | Unwind) _ => true
  | Locked _ (LBody | LRelease) | Shell (LBody | LRelease) => true
  | _ => false
  end.

(** Code typed in the shell has called a method that takes the lock. *)
Definition self_waiting (fs : list frame) : bool :=
  match fs with Locked _ LAcquire :: Shell LBody :: _ => true | _ => false end.

Definition main_critical (fs : list frame) : bool :=
  match fs with f :: _ => frame_critical f || self_waiting fs | [] => false end.

(** The frames under the innermost one are in their [while] loop or in a
    dialog. *)
Definition suspended (f : frame) : Prop :=
  (∃ id, f = View id EventsPending []) ∨ ∃ pc, f = Screenshot pc.

Definition below (fs : list frame) : list frame :=
  if self_waiting fs then tail (tail fs) else tail fs.

Definition carrying (pc : view_pc) : bool :=
  match pc with UpdateView | SetTarget | ReleaseView | Unwind | Dialog => true | _ => false end.

Definition top_ok (s : state) : Prop :=
  match frames s with
  | View _ pc ms :: _ =>
      (carrying pc = false → ms = []) ∧ (pc = SetTarget → viewed (time s) = now (time s))
  | Quit QuitSet :: _ => True
  | Quit GoSet :: _ => quit s = true
  | Quit Join :: _ => quit s = true ∧ (sim s = Wait → go s = true)
  | _ => True
  end.

Definition held (f : frame) : list string := match f with View _ _ ms => ms | _ => [] end.
Definition helper (p : sim_pc) : list string := match p with Extend ms => ms | _ => [] end.

Definition held_by (o : owner) (l : option owner) : bool :=
  match o, l with Sim, Some Sim | Main, Some Main => true | _, _ => false end.

Record lock_inv (s : state) : Prop := LockInv {
  inv_sim : sim_critical (sim s) = held_by Sim (lock s);
  inv_main : main_critical (frames s) = held_by Main (lock s);
  inv_stack : Forall suspended (below (frames s));
  inv_top : top_ok s }.

Record clock_inv (s : state) : Prop := ClockInv {
  inv_speed : (1 # 100) <= speed (tms s) <= 10;
  inv_viewed : viewed (time s) <= now (time s);
  inv_now : now (time s) <= target_time (time s);
  inv_target : target_time (time s) <= viewed (time s) + 1 }.

Definition in_transit (s : state) : list string :=
  (frames s ≫= held) ++ pending (msgs s) ++ helper (sim s).

Record messages_inv (s : state) : Prop := MessagesInv {
  inv_all : produced (msgs s) ≡ₚ displayed (msgs s) ++ lost (msgs s) ++ in_transit s;
  inv_order : lost (msgs s) = [] → produced (msgs s) = displayed (msgs s) ++ in_transit s }.

Lemma init_lock_inv : lock_inv init.
Proof. by split. Qed.

Lemma init_clock_inv : clock_inv init.
Proof. split; cbn; lra. Qed.

Lemma init_messages_inv : messages_inv init.
Proof. by split. Qed.

(** Every case of a step, with the state it leads to computed. *)
Ltac step_cases :=
  match goal with
  | H : exec ?a ?s = Some ?s' |- _ =>
      destruct s as [p fs l g q n au [no ta vi] [src nx uid pl sp] [pr pe di lo]];
      destruct a as [now' ms'|ok keep|e|e];
      unfold exec, sim_exec, main_exec, view_exec, locked_exec, quit_exec, dialog_exec, runcode,
        typed, dispatching, dispatch, push in H; simpl in H;
      repeat (case_match; simplify_eq/=)
  end.

Lemma suspended_view id : suspended (View id EventsPending []).
Proof. left. by exists id. Qed.
Lemma suspended_dialog pc : suspended (Screenshot pc).
Proof. right. by exists pc. Qed.
#[local] Hint Resolve suspended_view suspended_dialog : core.

Ltac frame_cases :=
  repeat match goal with
  | H : Forall suspended (_ :: _) |- _ => inversion_clear H
  | H : suspended ?f |- _ => destruct H as [[? ->]|[? ->]]
  | H : Forall suspended ?fs |- context [main_critical ?fs] => destruct fs; simpl in *
  | H : Forall suspended ?fs |- context [match ?fs with _ => _ end] => destruct fs; simpl in *
  end.

(** A stack of suspended frames. *)
Lemma suspended_stack fs :
  Forall suspended fs → main_critical fs = false ∧ self_waiting fs = false ∧ Forall suspended (below fs).
Proof. intros Hfs. destruct Hfs as [|f fs [[id ->]|[pc ->]] Hfs]; by split_and!. Qed.

Lemma below_suspended fs : Forall suspended fs → Forall suspended (below fs).
Proof. apply suspended_stack. Qed.
#[local] Hint Resolve below_suspended : core.

(** While code of the shell waits for its own lock only the other thread moves. *)
Lemma self_waiting_exec a s s' :
  exec a s = Some s' → self_waiting (frames s) = true → lock s = Some Main →
  ∃ t ms, a = SimMove t ms ∧ frames s' = frames s.
Proof.
  intros H Hw Hl. destruct s as [p fs l g q n au cl t m]; simpl in *.
  destruct fs as [|[| h [] | | | |] [|[| | | | |[]] fs]]; try done. subst l.
  destruct a as [now' ms'|ok keep|e|e]; simpl in H; [|done|done|by destruct e].
  exists now', ms'. split; [done|]. unfold sim_exec in H. by repeat (case_match; simplify_eq/=).
Qed.

(** What the simulation thread may change under the innermost frame. *)
Lemma top_ok_sim s s' :
  frames s' = frames s → quit s' = quit s →
  (main_critical (frames s) = true → now (time s') = now (time s)) → viewed (time s') = viewed (time s) →
  (quit s = true → sim s' = Wait → go s' = true) → top_ok s → top_ok s'.
Proof.
  unfold top_ok. intros -> -> Hnow -> Hgo. destruct (frames s) as [|[id pc ms|h pc| |pc|pc|pc] fs]; try done.
  - intros [Hms Hset]. split; [done|]. intros ->. rewrite Hset by done. symmetry. by apply Hnow.
  - destruct pc; try done. intros [Hq _]. split; [done|]. by apply Hgo.
Qed.

Lemma sim_lock_inv t ms s s' : sim_exec t ms s = Some s' → lock_inv s → lock_inv s'.
Proof.
  intros H [Hs Hm Hst Ht]. pose proof Ht as Ht'.
  destruct s as [p fs l g q n au [no ta vi] tm m]. unfold sim_exec in H. simpl in *.
  destruct l as [[]|], p; simplify_eq/=; repeat (case_match; simplify_eq/=);
    (split; simpl in *; [done|done|done|]);
    (refine (top_ok_sim _ _ _ _ _ _ _ Ht'); simpl; try done; congruence).
Qed.

Lemma step_lock_inv a s s' : exec a s = Some s' → lock_inv s → lock_inv s'.
Proof.
  intros H Hi. destruct (self_waiting (frames s)) eqn:Hw.
  { destruct (self_waiting_exec _ _ _ H Hw) as (t & ms & -> & _).
    - pose proof (inv_main _ Hi) as Hm. unfold main_critical in Hm. destruct (frames s); [done|].
      rewrite Hw, orb_true_r in Hm. by destruct (lock s) as [[]|].
    - by eapply sim_lock_inv. }
  destruct a as [t ms|ok keep|e|e]; [by eapply sim_lock_inv|..]; destruct Hi as [Hs Hm Hst Ht].
  all: unfold below in Hst; rewrite Hw in Hst.
  all: destruct s as [p fs l g q n au [no ta vi] [src nx uid pl sp] [pr pe di lo]];
      unfold exec, main_exec, view_exec, locked_exec, quit_exec, dialog_exec, runcode,
        typed, dispatching, dispatch, push in H; simpl in *.
  all: destruct fs as [|[id pc ms|h pc| |pc|pc|pc] fs]; simpl in *; try done.
  all: try (apply suspended_stack in Hst as Hsu; destruct Hsu as (Hcr & Hsw & Hbe)).
  all: repeat (case_match; simplify_eq/=).
  all: split; unfold top_ok in *; simpl in *; try done.
  all: try (by destruct Hst as [|? ? [[? ->]|[? ->]] Hst]).
  all: try (destruct Ht as [Ht _]; rewrite ?(Ht eq_refl); by split).
  all: try (destruct Ht as [Ht _]; rewrite ?(Ht eq_refl) in * ).
  all: unfold below; simpl; repeat (apply Forall_cons; split); auto.
Qed.

Ltac spec_bools :=
  repeat match goal with
  | H : (_ && _)%bool = true |- _ => apply andb_true_iff in H as [??]
  | H : qle _ _ = true |- _ => apply qle_iff in H
  end.

(** What [top_ok] says of the innermost [update_view_timeout]. *)
Ltac top_facts :=
  try match goal with
  | H : (_ = false → _ = []) ∧ (_ → _) |- _ =>
      let Hn := fresh in let Hv := fresh in destruct H as [Hn Hv];
      try (rewrite (Hn eq_refl) in * ); try (rewrite (Hv eq_refl) in * )
  end.

Lemma speed_set_active b t : speed (set_active b t) = speed t.
Proof. unfold set_active, on_play_button_toggled, start_update_timer. by repeat case_match. Qed.

Lemma qmax_below x y : x <= y → qmax x y <= y.
Proof. intros H. unfold qmax. qcase; lra. Qed.

Lemma step_clock_inv a s s' :
  exec a s = Some s' → lock_inv s → clock_inv s → clock_inv s'.
Proof.
  intros H [_ Hm _ Ht] [Hsp Hv Hn Hg]. step_cases.
  all: try clear Hm; spec_bools; split; simpl in *; rewrite ?speed_set_active; try assumption.
  all: try (pose proof (qmax_below _ _ Hn)).
  all: try (unfold top_ok, sample_period, SAMPLE_PERIOD in *; simpl in *; top_facts).
  all: lra.
Qed.

Lemma held_suspended fs : Forall suspended fs → fs ≫= held = [].
Proof. by induction 1 as [|? fs [[id ->]|[pc ->]]]. Qed.

Lemma step_messages_inv a s s' :
  exec a s = Some s' → lock_inv s → messages_inv s → messages_inv s'.
Proof.
  intros H [_ Hm Hst Ht] [Ha Ho]. step_cases.
  all: unfold top_ok in *; simpl in *.
  all: top_facts.
  all: split; unfold in_transit in *; simpl in *; try assumption.
  all: try (change (list_bind frame string held) with (mbind (M := list) held) in * ).
  all: try (rewrite (held_suspended l0) in * by done).
  all: try (rewrite Ha; solve_Permutation).
  all: try (intros Hl; try apply app_nil in Hl as [Hl ->]; rewrite Ho by done;
            simpl; by rewrite ?app_nil_r, <- ?app_assoc, ?app_nil_r).
Qed.

(** ** Reachable states *)
Record inv (s : state) : Prop := Inv {
  inv_lock : lock_inv s;
  inv_clock : clock_inv s;
  inv_messages : messages_inv s }.

Lemma sim_reachable_inv s : rtc step init s → inv s.
Proof.
  revert s. apply rtc_ind_r.
  - split; [apply init_lock_inv|apply init_clock_inv|apply init_messages_inv].
  - intros s s' _ [a Ha] [Hl Hc Hm].
    split; [by eapply step_lock_inv|by eapply step_clock_inv|by eapply step_messages_inv].
Qed.

(** ** Progress *)

(** The number of moves the simulation thread is from ending once [quit] is
    set, and from releasing the lock while it holds it. *)
Definition sim_measure (p : sim_pc) : nat :=
  match p with
  | Finished => 0 | Test | TestQuit => 1 | Clear | Release => 2
  | Wait | IdleAdd => 3 | Extend _ => 4 | RunUntil => 5 | Acquire => 6
  end.

(** Enabled when the thread is neither waiting for an unset event nor for a
    lock that is held, nor over. *)
Definition sim_ready (s : state) : bool :=
  match sim s with
  | Wait => go s
  | Acquire => match lock s with None => true | Some _ => false end
  | Finished => false
  | _ => true
  end.

Lemma sim_ready_moves s : sim_ready s = true → ∃ s', sim_exec (now (time s)) [] s = Some s'.
Proof.
  intros Hr. unfold sim_exec, sim_ready in *. repeat case_match; simplify_eq; eauto.
  assert (qle (now (time s)) (now (time s)) &&
          qle (now (time s)) (qmax (now (time s)) (target_time (time s))) = true) as Hq; [|congruence].
  apply andb_true_iff. rewrite !qle_iff. pose proof (qmax_spec (now (time s)) (target_time (time s))).
  split; [lra|tauto].
Qed.

Lemma sim_move_measure t ms s s' :
  sim_exec t ms s = Some s' → quit s = true ∨ sim_critical (sim s) = true →
  (sim_measure (sim s') < sim_measure (sim s))%nat ∧ frames s' = frames s ∧ quit s' = quit s.
Proof.
  intros H Hq. unfold sim_exec in H.
  repeat (case_match; simplify_eq/=); split_and!; try done; try lia; destruct Hq; congruence.
Qed.

(** Unless code of the shell waits for its own lock, the Gtk thread is only ever
    blocked by the simulation thread: on the lock the latter holds, or in [join]
    after [quit] was set. *)
Lemma blocked_on_sim s ok keep :
  lock_inv s → frames s ≠ [] → self_waiting (frames s) = false → main_exec ok keep s = None →
  sim_ready s = true ∧ (quit s = true ∨ sim_critical (sim s) = true) ∧ dispatching s = false ∧
  (∀ e, typed e s = None).
Proof.
  intros [Hs Hm Hst Ht] Hf Hw H. unfold main_exec, view_exec, locked_exec, quit_exec, dialog_exec,
    runcode, typed, top_ok, dispatching, sim_ready in *.
  destruct (frames s) as [|[id pc ms|h pc| |pc|pc|pc] fs]; [done|..]; simpl in *.
  - by repeat case_match.
  - destruct pc; try done. simpl in Hm. rewrite Hw in Hm.
    destruct (lock s) as [[]|] eqn:Hl; simpl in *; try done.
    destruct (sim s); naive_solver.
  - done.
  - destruct pc; try done. case_bool_decide as Hfin; [done|]. destruct Ht as [Hq Hgo].
    destruct (sim s); simpl in *; try (by auto); try (by rewrite Hgo).
    destruct (lock s) as [[]|]; simpl in *; by auto.
  - by destruct pc.
  - destruct pc; try done. destruct (lock s) as [[]|] eqn:Hl; simpl in *; try done.
    destruct (sim s); naive_solver.
Qed.

Lemma main_exec_blocked ok keep s : main_exec true true s = None → main_exec ok keep s = None.
Proof. unfold main_exec, view_exec, locked_exec, quit_exec, dialog_exec, runcode. intros H. by repeat case_match. Qed.

(** ** The timer, when no handler runs inside another and the shell sets nothing *)
Definition flat_step (s s' : state) : Prop :=
  ∃ a, exec a s = Some s' ∧ (∀ e, a = Event e ∨ a = Typed e → frames s = []).

Lemma source_remove_known l i :
  (∀ j d, (j, d) ∈ l → j = i) → source_remove (Some i) l = [].
Proof.
  intros H. simpl. apply filter_none. apply Forall_forall. intros [j d] Hin. simpl.
  rewrite (H _ _ Hin). naive_solver.
Qed.

Definition one_timer (t : timers) : Prop :=
  (length (sources t) ≤ 1)%nat ∧ ∀ i d, (i, d) ∈ sources t → update_timeout_id t = Some i.

Lemma one_timer_removed t :
  one_timer t → source_remove (update_timeout_id t) (sources t) = [].
Proof.
  intros [Hlen Hk]. destruct (update_timeout_id t) as [i|].
  - apply source_remove_known. intros j d Hin. specialize (Hk _ _ Hin). naive_solver.
  - simpl. destruct (sources t) as [|[i d] l]; [done|].
    specialize (Hk i d). set_solver.
Qed.

Lemma one_timer_start t : one_timer t → one_timer (start_update_timer t).
Proof.
  intros Ho. unfold start_update_timer. rewrite (one_timer_removed _ Ho).
  split; simpl; [done|]. intros i d. rewrite list_elem_of_singleton. naive_solver.
Qed.

Lemma one_timer_set_active b t : one_timer t → one_timer (set_active b t).
Proof.
  intros Ho. unfold set_active, on_play_button_toggled. case_bool_decide; [done|].
  destruct b; simpl; [by apply one_timer_start|].
  split; simpl; rewrite (one_timer_removed _ Ho); set_solver by lia.
Qed.

Record timer_inv (s : state) : Prop := TimerInv {
  inv_one : one_timer (tms s);
  inv_flat : (length (frames s) ≤ 1)%nat;
  inv_caller : ∀ id pc ms, frames s = [View id pc ms] →
     ∀ i d, (i, d) ∈ sources (tms s) → i = id }.

Lemma sources_set_active_false t i d :
  (i, d) ∈ sources (set_active false t) → (i, d) ∈ sources t.
Proof.
  unfold set_active, on_play_button_toggled, source_remove.
  repeat (case_match || case_bool_decide; simpl); try done.
  rewrite list_elem_of_filter. naive_solver.
Qed.

Lemma one_timer_destroyed id t :
  (∀ i d, (i, d) ∈ sources t → i = id) → sources (destroy_source id t) = [].
Proof. intros H. simpl. by apply source_remove_known. Qed.

Lemma one_timer_none t : sources t = [] → one_timer t.
Proof. intros H. split; rewrite H; simpl; [lia|set_solver]. Qed.

Lemma sim_exec_timers t ms s s' :
  sim_exec t ms s = Some s' → frames s' = frames s ∧ tms s' = tms s.
Proof. unfold sim_exec. intros H. by repeat (case_match; simplify_eq/=). Qed.

(** A frame that goes on without touching the timers, or ends. *)
Lemma timer_inv_goto s s' id pc ms pc' ms' :
  timer_inv s → frames s = [View id pc ms] → tms s' = tms s →
  frames s' = [View id pc' ms'] → timer_inv s'.
Proof.
  intros [Ho Hf Hc] Hfr Htm Hfr'. split; rewrite ?Htm; [done|by rewrite Hfr'|].
  intros id' pc2 ms2 Heq. rewrite Hfr' in Heq. simplify_eq. by eapply Hc.
Qed.

Lemma timer_inv_idle s' :
  one_timer (tms s') → length (frames s') ≤ 1 →
  (∀ id pc ms, frames s' ≠ [View id pc ms]) → timer_inv s'.
Proof. intros Ho Hf Hn. split; [done..|]. intros id pc ms Hs. by destruct (Hn id pc ms). Qed.

Lemma main_exec_timer_inv ok keep s s' :
  main_exec ok keep s = Some s' → timer_inv s → timer_inv s'.
Proof.
  intros H Hi. pose proof Hi as [Ho Hf Hc]. unfold main_exec in H.
  destruct (frames s) as [|f [|]] eqn:Hfr; simpl in *; [done| |lia].
  destruct f as [id pc ms|h pc| |pc|pc|pc].
  - specialize (Hc _ _ _ eq_refl).
    unfold view_exec in H. destruct pc; simplify_eq/=; repeat (case_match; simplify_eq/=);
      try (by eapply timer_inv_goto); try (by apply timer_inv_idle; simpl; [|lia|]).
    + apply timer_inv_idle; [apply one_timer_none, one_timer_destroyed|simpl; lia|done]; done.
    + split; simpl; [by apply one_timer_set_active|lia|].
      intros ??? [= <- <- <-] i d Hin. eapply Hc. by apply sources_set_active_false.
    + apply timer_inv_idle; [apply one_timer_none, one_timer_destroyed|simpl; lia|done]; done.
  - unfold locked_exec in H. destruct pc; simplify_eq/=; repeat (case_match; simplify_eq/=); by apply timer_inv_idle; simpl; [|lia|].
  - simplify_eq/=. by apply timer_inv_idle; simpl; [|lia|].
  - unfold quit_exec in H. destruct pc; simplify_eq/=; repeat (case_match; simplify_eq/=); by apply timer_inv_idle; simpl; [|lia|].
  - unfold dialog_exec in H. destruct pc; simplify_eq/=; repeat (case_match; simplify_eq/=); by apply timer_inv_idle; simpl; [|lia|].
  - unfold runcode in H. destruct pc; simplify_eq/=; repeat (case_match; simplify_eq/=); by apply timer_inv_idle; simpl; [|lia|].
Qed.

Lemma dispatch_timer_inv e s s' :
  frames s = [] → dispatch e s = Some s' → timer_inv s → timer_inv s'.
Proof.
  intros Hfr H [Ho Hf Hc]. unfold dispatch, push in H. rewrite ?Hfr in H.
  destruct e; simplify_eq/=; repeat (case_match; simplify_eq/=); try (by apply timer_inv_idle; simpl; rewrite ?Hfr; simpl; [|lia|]).
  - split; simpl; rewrite ?Hfr; simpl; [done|lia|]. intros ??? [= -> <- <-] i d Hin.
    case_bool_decide as Hb; [|done]. destruct Hb as [Hid _].
    apply list_elem_of_fmap in Hid as ([j d'] & -> & Hj).
    destruct Ho as [_ Hk]. apply Hk in Hin. apply Hk in Hj. naive_solver.
  - apply timer_inv_idle; simpl; rewrite ?Hfr; [by apply one_timer_set_active|simpl; lia|done].
  - apply timer_inv_idle; simpl; rewrite ?Hfr; [|simpl; lia|done].
    unfold speed_changed. by apply one_timer_start.
  - apply timer_inv_idle; simpl; rewrite ?Hfr; [|simpl; lia|done].
    apply one_timer_none. simpl. by apply one_timer_removed.
Qed.

Lemma flat_reachable_timer_inv s : rtc flat_step init s → timer_inv s.
Proof.
  revert s. apply rtc_ind_r.
  - apply timer_inv_idle; [|simpl; lia|done].
    split; simpl; [lia|]. intros i d Hin. set_solver.
  - intros s s' _ (a & H & Hflat) Hi. destruct a as [now' ms'|ok keep|e|e].
    + destruct (sim_exec_timers _ _ _ _ H) as [Hfr Htm]. destruct Hi.
      by split; rewrite ?Hfr, ?Htm.
    + by eapply main_exec_timer_inv.
    + specialize (Hflat _ (or_introl eq_refl)). simpl in H. destruct (dispatching s); [|done].
      by eapply dispatch_timer_inv.
    + specialize (Hflat _ (or_intror eq_refl)). simpl in H. unfold typed in H. by rewrite Hflat in H.
Qed.

(** ** Theorems *)

(** Where the critical frame is. *)
Lemma critical_suspended fs f : Forall suspended fs → f ∈ fs → frame_critical f = false.
Proof. rewrite Forall_forall. intros Hfs Hf. by destruct (Hfs f Hf) as [[id ->]|[pc ->]]. Qed.

Lemma main_critical_iff fs :
  Forall suspended (below fs) →
  main_critical fs = true ↔ ∃ f, f ∈ fs ∧ frame_critical f = true.
Proof.
  unfold below. destruct fs as [|f fs]; [by intros _; split; [|intros (? & ?%elem_of_nil & _)]|].
  unfold main_critical. destruct (self_waiting (f :: fs)) eqn:Hw; intros Hst.
  - rewrite orb_true_r. split; [|done]. intros _.
    destruct f as [|h []| | | |], fs as [|[| | | | |[]] fs]; try done. exists (Shell LBody). set_solver.
  - rewrite orb_false_r. split; [intros; exists f; set_solver|].
    intros (g & [->|Hg]%elem_of_cons & Hc); [done|]. by rewrite (critical_suspended _ _ Hst Hg) in Hc.
Qed.

Lemma critical_position fs i f :
  Forall suspended (below fs) → fs !! i = Some f → frame_critical f = true →
  i = if self_waiting fs then 1%nat else 0%nat.
Proof.
  unfold below. destruct (self_waiting fs) eqn:Hw; intros Hst Hi Hc.
  - destruct fs as [|[|h []| | | |] [|[| | | | |[]] fs]]; try done.
    destruct i as [|[|i]]; simplify_eq/=; [done|].
    apply list_elem_of_lookup_2 in Hi. by rewrite (critical_suspended _ _ Hst Hi) in Hc.
  - destruct fs as [|g fs]; [done|]. destruct i as [|i]; [done|].
    apply (list_elem_of_lookup_2 fs i) in Hi. by rewrite (critical_suspended _ _ Hst Hi) in Hc.
Qed.

(** C5: In every interleaving the simulator is never run by one thread while the
    other reads or updates the model, or runs code of the shell, under the lock:
    the lock belongs to the simulation thread exactly while it is between
    acquire and release, to the Gtk thread exactly while one of its frames is,
    and at most one frame is.  The Gtk thread waits for a lock it holds itself
    only where code typed in the IPython shell, which runs under the lock, has
    called a method that takes it. *)
Theorem sim_lock_exclusive s :
  rtc step init s →
  (sim_critical (sim s) = true ↔ lock s = Some Sim) ∧
  (lock s = Some Main ↔ ∃ f, f ∈ frames s ∧ frame_critical f = true) ∧
  (∀ i j f g, frames s !! i = Some f → frames s !! j = Some g →
     frame_critical f = true → frame_critical g = true → i = j) ∧
  (∀ f fs, frames s = f :: fs → f = Shell LAcquire ∨ (∃ h, f = Locked h LAcquire) →
     (lock s = Some Main ↔ ∃ h fs', f = Locked h LAcquire ∧ fs = Shell LBody :: fs')).
Proof.
  intros Hr. destruct (sim_reachable_inv _ Hr) as [Hi _ _]. pose proof Hi as [Hs Hm Hst _].
  split_and!.
  - rewrite Hs. destruct (lock s) as [[]|]; naive_solver.
  - trans (main_critical (frames s) = true).
    { rewrite Hm. destruct (lock s) as [[]|]; naive_solver. }
    apply main_critical_iff. exact Hst.
  - intros i j f g Hf Hg Hcf Hcg.
    rewrite (critical_position _ _ _ Hst Hf Hcf). by rewrite (critical_position _ _ _ Hst Hg Hcg).
  - intros f fs Hf Hacq. rewrite Hf in Hm. unfold main_critical in Hm.
    assert (frame_critical f = false) as Hc by (by destruct Hacq as [->|[h ->]]).
    rewrite Hc in Hm. cbn [orb] in Hm. split.
    + intros Hl. rewrite Hl in Hm. cbn in Hm. destruct Hacq as [->|[h ->]]; [done|].
      destruct fs as [|[| | | | |[]] fs]; try done. by exists h, fs.
    + intros (h & fs' & -> & ->). cbn in Hm. by destruct (lock s) as [[]|].
Qed.

Lemma self_waiting_lock s : self_waiting (frames s) = true → inv s → lock s = Some Main.
Proof.
  intros Hw [Hi _ _]. pose proof (inv_main _ Hi) as Hm. unfold main_critical in Hm.
  destruct (frames s); [done|]. rewrite Hw, orb_true_r in Hm. by destruct (lock s) as [[]|].
Qed.

Lemma self_waiting_blocked s : self_waiting (frames s) = true → inv s → main_exec true true s = None.
Proof.
  intros Hw Hi. pose proof (self_waiting_lock _ Hw Hi) as Hl. unfold main_exec.
  destruct (frames s) as [|[|h []| | | |] fs]; try done. cbn. by rewrite Hl.
Qed.

(** A call of the shell that waits for its own lock is never answered. *)
Lemma self_waiting_for_ever s s' :
  rtc step init s → self_waiting (frames s) = true → rtc step s s' →
  frames s' = frames s ∧ main_exec true true s' = None.
Proof.
  intros Hr Hw Hs'. enough (frames s' = frames s) as Hfr.
  { split; [done|]. apply self_waiting_blocked; [by rewrite Hfr|]. apply sim_reachable_inv.
    by etrans. }
  revert s' Hs'. apply (rtc_ind_r (λ s', frames s' = frames s)); [done|].
  intros s1 s2 Hs1 [a Ha] Hfr. rewrite <- Hfr in Hw |- *.
  destruct (self_waiting_exec _ _ _ Ha Hw) as (? & ? & _ & ?); [|done].
  apply self_waiting_lock; [done|]. apply sim_reachable_inv. by etrans.
Qed.

(** C6: No handler of the Gtk thread blocks for ever, unless code typed in the
    IPython shell, which runs under the lock, calls a method that takes the lock:
    that call waits for ever, whatever the threads do.  In every other state in
    which the innermost handler cannot move (it waits for the lock, or [_quit]
    waits in [join]) the simulation thread can; whatever moves brings that
    thread closer to releasing the lock or ending, and after at most six of its
    moves the handler goes on. *)
Theorem handlers_progress s :
  rtc step init s → frames s ≠ [] →
  (self_waiting (frames s) = true →
     ∀ s', rtc step s s' → frames s' = frames s ∧ main_exec true true s' = None) ∧
  (self_waiting (frames s) = false →
     (main_exec true true s = None → ∀ a s', exec a s = Some s' →
        (sim_measure (sim s') < sim_measure (sim s))%nat ∧ frames s' = frames s) ∧
     (∃ n s1 s2, (n ≤ 6)%nat ∧ nsteps step n s s1 ∧ frames s1 = frames s ∧
        main_exec true true s1 = Some s2)).
Proof.
  intros Hr Hf. split; intros Hw.
  { intros s' Hs'. by apply self_waiting_for_ever. }
  split.
  { intros Hb a s' Ha.
    destruct (blocked_on_sim s true true (inv_lock _ (sim_reachable_inv _ Hr)) Hf Hw Hb)
      as (_ & Hq & Hd & Hty).
    destruct a as [t ms|ok keep|e|e]; simpl in Ha.
    - by destruct (sim_move_measure _ _ _ _ Ha Hq) as (? & ? & _).
    - by rewrite (main_exec_blocked ok keep _ Hb) in Ha.
    - by rewrite Hd in Ha.
    - by rewrite Hty in Ha. }
  assert (∀ m s, rtc step init s → frames s ≠ [] → self_waiting (frames s) = false →
    (sim_measure (sim s) ≤ m)%nat →
    ∃ n s1 s2, (n ≤ m)%nat ∧ nsteps step n s s1 ∧ frames s1 = frames s ∧
      main_exec true true s1 = Some s2) as Hall.
  { clear s Hr Hf Hw. induction m as [|m IH]; intros s Hr Hf Hw Hle.
    all: destruct (main_exec true true s) as [s2|] eqn:Hb;
      [by exists 0%nat, s, s2; split_and!; [lia|constructor|..]|].
    all: destruct (blocked_on_sim s true true (inv_lock _ (sim_reachable_inv _ Hr)) Hf Hw Hb)
      as (Hrd & Hq & _).
    all: apply sim_ready_moves in Hrd as [s' Hs'].
    all: destruct (sim_move_measure _ _ _ _ Hs' Hq) as (Hlt & Hfr & _); try lia.
    assert (step s s') as Hstep by (by exists (SimMove (now (time s)) [])).
    destruct (IH s') as (n & s1 & s2 & ? & ? & ? & ?); [by eapply rtc_r|congruence|congruence|lia|].
    exists (S n), s1, s2. split_and!; [lia|by econstructor|congruence|done]. }
  apply Hall; [done..|]. destruct (sim s); simpl; lia.
Qed.

(** Schedules for the concrete runs: play, a turn of the timer [id] that is not
    interrupted, the simulation thread up to [SimulatorRunUntil] and back. *)
Definition play_once : list action :=
  Event Toggle :: Event (Fire 2) :: replicate 7 (MainMove true true) ++ replicate 5 (SimMove 0 []).

Definition reached (l : list action) : state := default init (run l init).

Lemma reached_rtc l : run l init = Some (reached l) → rtc step init (reached l).
Proof. apply run_rtc. Qed.

(** [_quit] waiting for the simulation thread, which holds the lock. *)
Definition quitting : list action :=
  play_once ++ SimMove 0 [] :: Event Delete :: replicate 2 (MainMove true true).

(** Code typed in the shell, while the simulator runs, selects a node. *)
Definition typing : list action :=
  play_once ++ [SimMove 0 []; Event RunCode] ++ replicate 3 (SimMove 0 []) ++ [MainMove true true].
Definition selecting : list action := typing ++ [Typed (Call update_ipython_selected_node)].

Lemma running_reached : rtc step init (reached (play_once ++ [SimMove 0 []])).
Proof. apply reached_rtc; vm_compute; reflexivity. Qed.
Lemma selecting_reached : rtc step init (reached selecting).
Proof. apply reached_rtc; vm_compute; reflexivity. Qed.

Lemma sim_lock_exclusive_witness :
  lock (reached (play_once ++ [SimMove 0 []])) = Some Sim ∧ lock (reached selecting) = Some Main ∧
  sim_critical (sim (reached (play_once ++ [SimMove 0 []]))) = true ∧
  ∃ f, f ∈ frames (reached selecting) ∧ frame_critical f = true.
Proof.
  split; [by vm_compute|]. split; [by vm_compute|]. split.
  - apply (sim_lock_exclusive _ running_reached). by vm_compute.
  - apply (sim_lock_exclusive _ selecting_reached). by vm_compute.
Defined.

(** [viz.select_node] in the shell stops the whole visualizer: its
    [_update_ipython_selected_node] takes the lock again. *)
Lemma shell_selects_node :
  frames (reached selecting) = [Locked update_ipython_selected_node LAcquire; Shell LBody] ∧
  ∀ s', rtc step (reached selecting) s' → main_exec true true s' = None.
Proof.
  split; [by vm_compute|]. intros s' Hs'.
  apply (self_waiting_for_ever _ _ selecting_reached); [by vm_compute|done].
Qed.

Lemma handlers_progress_witness :
  main_exec true true (reached quitting) = None ∧
  (∃ n s1 s2, (n ≤ 6)%nat ∧ nsteps step n (reached quitting) s1 ∧
     frames s1 = frames (reached quitting) ∧ main_exec true true s1 = Some s2) ∧
  main_exec true true (reached selecting) = None.
Proof.
  split; [vm_compute; reflexivity|]. split.
  - apply (handlers_progress (reached quitting));
      [apply reached_rtc|..]; vm_compute; [reflexivity|discriminate|reflexivity].
  - apply (handlers_progress (reached selecting) selecting_reached);
      [vm_compute; discriminate|vm_compute; reflexivity|constructor].
Defined.

(** C15: No pause message is lost or shown twice: the messages the simulator
    produced are those displayed, those dropped because [update_view] raised
    and those still on their way (with a frame, in [pause_messages], or in the
    hands of the simulation thread), and unless [update_view] raised they are
    displayed in the order of production. *)
Theorem pause_messages_conserved s :
  rtc step init s →
  produced (msgs s) ≡ₚ displayed (msgs s) ++ lost (msgs s) ++ in_transit s ∧
  (lost (msgs s) = [] → displayed (msgs s) `prefix_of` produced (msgs s)).
Proof.
  intros Hr. destruct (sim_reachable_inv _ Hr) as [_ _ [Ha Ho]]. split; [done|].
  intros Hl. rewrite (Ho Hl). by apply prefix_app_r.
Qed.

(** A message travels from the simulator to a dialog. *)
Definition warned : list action :=
  play_once ++ SimMove (1 # 10) ["stop"%string] :: replicate 3 (SimMove 0 []) ++
  Event (Fire 2) :: replicate 6 (MainMove true true).

Lemma pause_messages_conserved_witness :
  displayed (msgs (reached warned)) = ["stop"%string] ∧
  displayed (msgs (reached warned)) `prefix_of` produced (msgs (reached warned)).
Proof.
  split; [vm_compute; reflexivity|].
  apply (pause_messages_conserved (reached warned)); [apply reached_rtc; vm_compute; reflexivity|vm_compute; reflexivity].
Defined.

(** The view never lags by more than a second of simulated time: the
    simulator's clock is at least what the view showed last and at most one
    second later, and the simulator never runs past the target it was given. *)
Theorem view_lag_bounded s :
  rtc step init s →
  viewed (time s) <= now (time s) ∧ now (time s) <= viewed (time s) + 1 ∧
  now (time s) <= target_time (time s).
Proof.
  intros Hr. destruct (sim_reachable_inv _ Hr) as [_ [_ Hv Hn Ht] _]. split_and!; lra.
Qed.

Lemma view_lag_bounded_witness :
  now (time (reached warned)) == 1 # 10 ∧
  now (time (reached warned)) <= viewed (time (reached warned)) + 1.
Proof.
  split; [vm_compute; reflexivity|]. apply (view_lag_bounded (reached warned)).
  apply reached_rtc; vm_compute; reflexivity.
Defined.

(** As long as no handler is dispatched inside [update_view_timeout], the
    main loop has at most one update timer and [_update_timeout_id] names it,
    so that the play button and [_quit] stop it. *)
Theorem update_timer_unique s :
  rtc flat_step init s →
  (length (sources (tms s)) ≤ 1)%nat ∧
  ∀ i d, (i, d) ∈ sources (tms s) → update_timeout_id (tms s) = Some i.
Proof. intros Hr. by destruct (flat_reachable_timer_inv _ Hr) as [? _ _]. Qed.

Lemma update_timer_unique_witness :
  rtc flat_step init init ∧ (length (sources (tms init)) ≤ 1)%nat.
Proof. split; [done|]. by apply (update_timer_unique init). Defined.

(** With nesting there can be two: the user pauses and changes the speed while
    [update_view_timeout] waits for the simulator; on its way out the handler
    forgets the new timer, and the next start adds another. *)
Definition nested_pause : list action :=
  play_once ++ Event (Fire 2) :: MainMove true true :: Event Toggle :: Event (SetSpeed 2) ::
  replicate 4 (SimMove 0 []) ++ replicate 8 (MainMove true true) ++ [Event Toggle].

Lemma two_update_timers :
  let s := reached nested_pause in
  rtc step init s ∧ frames s = [] ∧ play (tms s) = true ∧ (sources (tms s)).*1 = [3; 4]%nat.
Proof. split; [apply reached_rtc; vm_compute; reflexivity|by vm_compute]. Qed.

(** [autoscale_view] reads the positions without the lock, also while the
    simulator runs. *)
Lemma autoscale_races :
  let s := reached (play_once ++ [Event FireAutoscale]) in
  rtc step init s ∧ frames s = [Autoscale] ∧ sim s = RunUntil.
Proof. split; [apply reached_rtc; vm_compute; reflexivity|by vm_compute]. Qed.

(** The simulated time a timer tick advances, over its real interval before
    truncation to milliseconds: the speed when it is at least one, and the
    square of the speed, not the speed, when it is less. *)
Theorem simulated_rate t :
  0 < speed t →
  let rate := sample_period t / (SAMPLE_PERIOD / qmin (speed t) 1) in
  (1 <= speed t → rate == speed t) ∧ (speed t <= 1 → rate == speed t * speed t).
Proof.
  intros Hs. unfold sample_period, SAMPLE_PERIOD, qmin. simpl. qcase.
  - split; intros; field_simplify; try lra.
  - split; intros.
    + assert (speed t == 1) as -> by lra. reflexivity.
    + field. lra.
Qed.

Lemma simulated_rate_witness :
  let t := Timers [] 1 None true (1 # 2) in
  sample_period t / (SAMPLE_PERIOD / qmin (speed t) 1) == speed t * speed t.
Proof. intros t. by apply (simulated_rate t). Defined.
