(* ===== verification/VizBase.v ===== *)
(** * The base of the visualizer

    [src/visualizer/visualizer/base.py]: the scale between simulation and canvas,
    the traits of device classes, the loading of plugins.
    [svgitem.py]: the size of an icon on the canvas.  [higcontainer.py]: the
    sizes a titled group asks for and hands to its child.

    A class of devices is its name.  Importing a module is a parameter; [rsvg]
    and Gtk are not modelled beyond the natural size of an icon and the
    requests of the child widgets. *)

From S2P Require Import Prelude PyStr Rat.

Local Open Scope Q_scope.

(** ** Coordinates *)
Definition point : Type := Q * Q.

Definition PIXELS_PER_METER : Q := 3.

Definition transform_distance_simulation_to_canvas (d : Q) : Q := d * PIXELS_PER_METER.
Definition transform_point_simulation_to_canvas (p : point) : point :=
  (p.1 * PIXELS_PER_METER, p.2 * PIXELS_PER_METER).
Definition transform_distance_canvas_to_simulation (d : Q) : Q := d / PIXELS_PER_METER.
Definition transform_point_canvas_to_simulation (p : point) : point :=
  (p.1 / PIXELS_PER_METER, p.2 / PIXELS_PER_METER).

Definition point_eq (p q : point) : Prop := p.1 == q.1 ∧ p.2 == q.2.

Lemma transform_distance_inverse d :
  transform_distance_canvas_to_simulation (transform_distance_simulation_to_canvas d) == d ∧
  transform_distance_simulation_to_canvas (transform_distance_canvas_to_simulation d) == d.
Proof.
  unfold transform_distance_canvas_to_simulation, transform_distance_simulation_to_canvas,
    PIXELS_PER_METER. split; field.
Qed.

Lemma transform_point_inverse p :
  point_eq (transform_point_canvas_to_simulation (transform_point_simulation_to_canvas p)) p ∧
  point_eq (transform_point_simulation_to_canvas (transform_point_canvas_to_simulation p)) p.
Proof.
  destruct p as [x y]. unfold point_eq; simpl.
  split; split; apply transform_distance_inverse.
Qed.

(** ** Traits of device classes *)
Record traits := Traits { is_wireless : option bool; is_virtual : bool }.

#[export] Instance traits_eq_dec : EqDecision traits.
Proof. solve_decision. Defined.

(** [NetDeviceTraits(is_wireless, is_virtual)] and its assertion. *)
Definition NetDeviceTraits (w : option bool) (v : bool) : result exn traits :=
  if v || bool_decide (w ≠ None) then Ok (Traits w v) else Raise AssertionError.

Definition well_formed (t : traits) : Prop := is_virtual t = true ∨ is_wireless t ≠ None.

Definition netdevice_traits : gmap string traits := list_to_map
  [("PointToPointNetDevice", Traits (Some false) false);
   ("CsmaNetDevice", Traits (Some false) false);
   ("WifiNetDevice", Traits (Some true) false);
   ("BridgeNetDevice", Traits None true);
   ("LoopbackNetDevice", Traits (Some false) true);
   ("MeshPointDevice", Traits None true);
   ("SubscriberStationNetDevice", Traits (Some true) false);
   ("BaseStationNetDevice", Traits (Some true) false)].

(** The traits, the table after the call, and whether a warning was written. *)
Definition lookup_netdevice_traits (tbl : gmap string traits) (cls : string) :
    result exn (traits * gmap string traits * bool) :=
  match tbl !! cls with
  | Some t => Ok (t, tbl, false)
  | None => t ← NetDeviceTraits (Some true) false; Ok (t, <[cls:=t]> tbl, true)
  end.

Definition traits_table_ok (tbl : gmap string traits) : Prop := map_Forall (λ _, well_formed) tbl.

Lemma NetDeviceTraits_spec w v :
  NetDeviceTraits w v =
    (if decide (v = true ∨ w ≠ None) then Ok (Traits w v) else Raise AssertionError).
Proof. unfold NetDeviceTraits. destruct v, w as [[]|]; by case_decide; naive_solver. Qed.

Lemma netdevice_traits_ok : traits_table_ok netdevice_traits.
Proof.
  unfold traits_table_ok, netdevice_traits. simpl.
  repeat (apply map_Forall_insert_2; [by (left + right)|]). apply map_Forall_empty.
Qed.

(** C39: Looking a device class up always yields traits that satisfy the
    constructor's assertion and keeps the table of such traits; known classes keep
    their entry, an unknown one is taken for a wireless device with one
    warning, and the second lookup is silent and changes nothing. *)
Theorem lookup_netdevice_traits_spec tbl cls :
  traits_table_ok tbl →
  ∃ t tbl' w, lookup_netdevice_traits tbl cls = Ok (t, tbl', w) ∧
    well_formed t ∧ traits_table_ok tbl' ∧
    (∀ c, is_Some (tbl !! c) → tbl' !! c = tbl !! c) ∧
    (w = true ↔ tbl !! cls = None) ∧ (w = true → t = Traits (Some true) false) ∧
    lookup_netdevice_traits tbl' cls = Ok (t, tbl', false).
Proof.
  intros Hok. unfold lookup_netdevice_traits. destruct (tbl !! cls) as [t|] eqn:Ht; simpl.
  - exists t, tbl, false. rewrite Ht. split_and!; try done. by eapply Hok.
  - exists (Traits (Some true) false), (<[cls:=Traits (Some true) false]> tbl), true.
    rewrite lookup_insert_eq. split_and!; try done; [by right|..].
    + apply map_Forall_insert_2; [by right|done].
    + intros c [t Hc]. rewrite lookup_insert_ne; [done|]. intros <-. congruence.
Qed.

Lemma lookup_netdevice_traits_spec_witness :
  traits_table_ok netdevice_traits ∧
  ∃ t tbl' w, lookup_netdevice_traits netdevice_traits "LteNetDevice" = Ok (t, tbl', w) ∧
    well_formed t.
Proof.
  split; [apply netdevice_traits_ok|].
  destruct (lookup_netdevice_traits_spec netdevice_traits "LteNetDevice" netdevice_traits_ok)
    as (t & tbl' & w & H & Hw & _). by exists t, tbl', w.
Defined.

(** ** Plugins *)
Record plugin := Plugin { plugin_init : string; callable : bool }.

Record plugin_state := PluginState {
  plugins : list plugin;
  plugin_modules : gmap string string;      (** name to module *)
  plugins_loaded : bool;
  sys_path : list string;
  stderr : list string }.

(** [__import__(name)]: the module's [register] attribute, if it has one. *)
Inductive imported :=
  | ImportFails                              (** raises [ImportError] *)
  | ImportRaises (e : exn)                   (** raises anything else *)
  | Module (register : option plugin).

Definition register_plugin (f : plugin) (name : string) (module : option string)
    (s : plugin_state) : result exn plugin_state :=
  if callable f
  then Ok (PluginState (plugins s ++ [f])
             (match module with
              | Some m => <[name:=m]> (plugin_modules s)
              | None => plugin_modules s
              end) (plugins_loaded s) (sys_path s) (stderr s))
  else Raise AssertionError.

Section Loading.
Context (import_module : string → imported) (plugins_dir : string).

Definition warn (msg : string) (s : plugin_state) : plugin_state :=
  PluginState (plugins s) (plugin_modules s) (plugins_loaded s) (sys_path s) (stderr s ++ [msg]).

(** The body of the loop over the files of the directory. *)
Definition load_file (s : plugin_state) (filename : string) : result exn plugin_state :=
  let '(name, ext) := splitext filename in
  if bool_decide (ext ≠ ".py") then Ok s
  else match import_module name with
       | ImportFails => Ok (warn ("Could not load plugin " +:+ filename) s)
       | ImportRaises e => Raise e
       | Module None => Ok (warn ("Plugin " +:+ name +:+ " has no 'register' function") s)
       | Module (Some f) => register_plugin f name (Some name) s
       end.

Fixpoint load_files (l : list string) (s : plugin_state) : plugin_state * option exn :=
  match l with
  | [] => (s, None)
  | f :: l' =>
      match load_file s f with
      | Ok s' => load_files l' s'
      | Raise e => (s, Some e)
      end
  end.

Definition set_sys_path (p : list string) (s : plugin_state) : plugin_state :=
  PluginState (plugins s) (plugin_modules s) (plugins_loaded s) p (stderr s).

(** The state after the call, and the exception if one escapes. *)
Definition load_plugins (listdir : list string) (s : plugin_state) : plugin_state * option exn :=
  if plugins_loaded s then (s, None)
  else
    let s1 := PluginState (plugins s) (plugin_modules s) true (plugins_dir :: sys_path s)
                (stderr s) in
    match load_files listdir s1 with
    | (s2, None) => (set_sys_path (sys_path s) s2, None)
    | (s2, Some e) => (s2, Some e)
    end.

(** The plugins a list of files provides. *)
Definition provided (l : list string) : list (string * plugin) :=
  l ≫= λ f,
    let '(name, ext) := splitext f in
    if bool_decide (ext = ".py") then
      match import_module name with Module (Some p) => [(name, p)] | _ => [] end
    else [].

Definition loadable (f : string) : Prop :=
  (splitext f).2 = ".py" →
  match import_module (splitext f).1 with
  | ImportRaises _ => False
  | Module (Some p) => callable p = true
  | _ => True
  end.

Lemma load_files_spec l s :
  Forall loadable l →
  ∃ s', load_files l s = (s', None) ∧ plugins s' = (plugins s ++ (provided l).*2)%list ∧
    sys_path s' = sys_path s ∧ plugins_loaded s' = plugins_loaded s.
Proof.
  intros Hl. revert s. induction Hl as [|f l Hf _ IH]; intros s.
  { exists s. by rewrite app_nil_r. }
  cbn [load_files]. unfold load_file, loadable in *.
  assert (provided (f :: l) = provided [f] ++ provided l)%list as ->
    by (unfold provided; by rewrite <- bind_app).
  rewrite fmap_app. unfold provided at 1. simpl. rewrite app_nil_r.
  destruct (splitext f) as [name ext]. simpl in *.
  destruct (decide (ext = ".py")) as [->|Hne].
  - specialize (Hf eq_refl). rewrite bool_decide_eq_false_2 by tauto.
    rewrite bool_decide_eq_true_2 by done.
    destruct (import_module name) as [|e|[p|]]; [|done| |].
    + destruct (IH (warn ("Could not load plugin " +:+ f) s)) as (s' & H). by exists s'.
    + unfold register_plugin. rewrite Hf.
      destruct (IH (PluginState (plugins s ++ [p]) (<[name:=name]> (plugin_modules s))
        (plugins_loaded s) (sys_path s) (stderr s))) as (s' & -> & Hp & H).
      exists s'. split_and!; [done| |apply H..]. rewrite Hp. simpl. by rewrite <- app_assoc.
    + destruct (IH (warn ("Plugin " +:+ name +:+ " has no 'register' function") s))
        as (s' & H). by exists s'.
  - rewrite bool_decide_eq_true_2 by done. rewrite bool_decide_eq_false_2 by done.
    destruct (IH s) as (s' & H). by exists s'.
Qed.

(** When no plugin raises more than [ImportError], loading registers
    the [register] functions of the Python files of the directory in its order,
    restores [sys.path], and a second call does nothing. *)
Theorem load_plugins_once listdir s :
  plugins_loaded s = false → Forall loadable listdir →
  ∃ s', load_plugins listdir s = (s', None) ∧
    plugins s' = (plugins s ++ (provided listdir).*2)%list ∧
    sys_path s' = sys_path s ∧
    ∀ listdir', load_plugins listdir' s' = (s', None).
Proof.
  intros Hn Hl. unfold load_plugins. rewrite Hn.
  destruct (load_files_spec listdir
    (PluginState (plugins s) (plugin_modules s) true (plugins_dir :: sys_path s) (stderr s)) Hl)
    as (s2 & -> & Hp & _ & Hd).
  eexists. split_and!; [done|done|done|]. intros l'. simpl. by rewrite Hd.
Qed.
End Loading.

(** The exception of a broken plugin leaves the directory in [sys.path]. *)
Lemma broken_plugin_keeps_path :
  let imp := λ _, ImportRaises KeyError in
  let s := PluginState [] ∅ false ["/usr/lib"] [] in
  sys_path (load_plugins imp "plugins" ["olsr.py"] s).1 = ["plugins"; "/usr/lib"] ∧
  (load_plugins imp "plugins" ["olsr.py"] s).2 = Some KeyError.
Proof. done. Qed.

Definition example_import (name : string) : imported :=
  if bool_decide (name = "olsr") then Module (Some (Plugin "register" true))
  else if bool_decide (name = "wifi") then ImportFails else Module None.

Lemma load_plugins_once_witness :
  let s := PluginState [] ∅ false ["/usr/lib"] [] in
  let l := ["olsr.py"; "olsr.pyc"; "wifi.py"; "__init__.py"] in
  ∃ s', load_plugins example_import "plugins" l s = (s', None) ∧
    plugins s' = [Plugin "register" true] ∧ sys_path s' = ["/usr/lib"].
Proof.
  intros s l. destruct (load_plugins_once example_import "plugins" l s eq_refl)
    as (s' & H & Hp & Hs & _); [by repeat constructor|].
  exists s'. split_and!; [done| |done]. rewrite Hp. reflexivity.
Defined.

(** ** Icons ([svgitem.SvgItem]) *)
Record svg_item := Svg {
  svg_x : Q; svg_y : Q; sx : Q; sy : Q;
  handle : Z * Z;                            (** natural width and height *)
  width : Q; height : Q;
  custom_width : option Q; custom_height : option Q }.

Definition SvgItem (x y : Q) (h : Z * Z) : svg_item :=
  Svg x y 1 1 h (inject_Z h.1) (inject_Z h.2) None None.

Definition float_div (a b : Q) : result exn Q :=
  if is_zero b then Raise ZeroDivisionError else Ok (a / b).

Definition size_changed (i : svg_item) : result exn svg_item :=
  let nw := inject_Z (handle i).1 in
  let nh := inject_Z (handle i).2 in
  match custom_width i, custom_height i with
  | None, None =>
      Ok (Svg (svg_x i) (svg_y i) 1 1 (handle i) nw nh None None)
  | Some cw, None =>
      r ← float_div cw nw;
      Ok (Svg (svg_x i) (svg_y i) r r (handle i) cw (nh * r) (Some cw) None)
  | None, Some ch =>
      r ← float_div ch nh;
      Ok (Svg (svg_x i) (svg_y i) r r (handle i) (nw * r) ch None (Some ch))
  | Some cw, Some ch =>
      rx ← float_div cw nw; ry ← float_div ch nh;
      Ok (Svg (svg_x i) (svg_y i) rx ry (handle i) cw ch (Some cw) (Some ch))
  end.

Definition do_set_property (name : string) (v : Q) (i : svg_item) : result exn svg_item :=
  if bool_decide (name = "x") then
    Ok (Svg v (svg_y i) (sx i) (sy i) (handle i) (width i) (height i)
          (custom_width i) (custom_height i))
  else if bool_decide (name = "y") then
    Ok (Svg (svg_x i) v (sx i) (sy i) (handle i) (width i) (height i)
          (custom_width i) (custom_height i))
  else if bool_decide (name = "width") then
    size_changed (Svg (svg_x i) (svg_y i) (sx i) (sy i) (handle i) (width i) (height i)
                    (Some v) (custom_height i))
  else if bool_decide (name = "height") then
    size_changed (Svg (svg_x i) (svg_y i) (sx i) (sy i) (handle i) (width i) (height i)
                    (custom_width i) (Some v))
  else Raise AttributeError.

(** Reading ["width"] puts the natural size back. *)
Definition do_get_property (name : string) (i : svg_item) : result exn (Q * svg_item) :=
  if bool_decide (name = "x") then Ok (svg_x i, i)
  else if bool_decide (name = "y") then Ok (svg_y i, i)
  else if bool_decide (name = "width") then
    let w := inject_Z (handle i).1 in
    Ok (w, Svg (svg_x i) (svg_y i) (sx i) (sy i) (handle i) w (inject_Z (handle i).2)
             (custom_width i) (custom_height i))
  else if bool_decide (name = "height") then Ok (height i, i)
  else Raise AttributeError.

(** The bounds [do_simple_update] sets: left, top, right, bottom. *)
Definition do_simple_update (i : svg_item) : Q * Q * Q * Q :=
  (svg_x i, svg_y i, svg_x i + width i, svg_y i + height i).

Definition do_simple_is_item_at (x y : Q) (i : svg_item) : bool :=
  negb ((qlt x (svg_x i) || qlt (svg_x i + width i) x) ||
        (qlt y (svg_y i) || qlt (svg_y i + height i) y)).

(** The rectangle [do_simple_paint] fills: the natural one, translated and
    scaled. *)
Definition painted (i : svg_item) : Q * Q * Q * Q :=
  (svg_x i, svg_y i, svg_x i + inject_Z (handle i).1 * sx i,
   svg_y i + inject_Z (handle i).2 * sy i).

Definition rsvg_handle_factory (Handle : string → Z * Z) (resource : string)
    (cache : gmap string (Z * Z)) (name : string) : (Z * Z) * gmap string (Z * Z) :=
  match cache !! name with
  | Some h => (h, cache)
  | None => let h := Handle (path_join resource name) in (h, <[name:=h]> cache)
  end.

Definition scaled_ok (i : svg_item) : Prop :=
  width i == inject_Z (handle i).1 * sx i ∧ height i == inject_Z (handle i).2 * sy i.

Lemma float_div_Ok a b r : float_div a b = Ok r → ¬ b == 0 ∧ b * r == a.
Proof.
  unfold float_div, is_zero. destruct (Qeq_bool b 0) eqn:E; [done|].
  intros [= <-]. assert (¬ b == 0) as Hb by (by apply Qeq_bool_neq).
  split; [done|]. by field.
Qed.

Lemma size_changed_ok i i' : size_changed i = Ok i' → scaled_ok i' ∧ handle i' = handle i.
Proof.
  unfold size_changed, scaled_ok. destruct (custom_width i), (custom_height i); intros H;
    res_inv; simpl;
    repeat match goal with H : float_div _ _ = Ok _ |- _ => apply float_div_Ok in H as [? ?] end;
    split; try done; split; lra.
Qed.

Lemma do_set_property_ok name v i i' :
  do_set_property name v i = Ok i' → scaled_ok i → scaled_ok i' ∧ handle i' = handle i.
Proof.
  unfold do_set_property. intros H Hi.
  repeat (case_bool_decide; simplify_eq/=; try done);
    by apply size_changed_ok in H.
Qed.

Lemma float_div_pos c n : (0 < n)%Z → float_div c (inject_Z n) = Ok (c / inject_Z n).
Proof.
  intros Hn. unfold float_div, is_zero. destruct (Qeq_bool _ 0) eqn:E; [|done].
  apply Qeq_bool_iff in E. unfold Qeq, inject_Z in E. simpl in E. lia.
Qed.

Definition svg_property (name : string) : Prop := name ∈ ["x"; "y"; "width"; "height"].

Lemma do_set_property_total name v i :
  (0 < (handle i).1)%Z → (0 < (handle i).2)%Z → svg_property name →
  ∃ i', do_set_property name v i = Ok i'.
Proof.
  intros Hw Hh Hname. unfold do_set_property, size_changed, svg_property in *. set_unfold.
  destruct Hname as [->|[->|[->|[->|[]]]]]; simpl; eauto; repeat case_match; simplify_eq/=;
    rewrite ?(float_div_pos _ _ Hw); simpl; rewrite ?(float_div_pos _ _ Hh); simpl; eauto.
Qed.

Lemma set_properties_ok props i :
  (0 < (handle i).1)%Z → (0 < (handle i).2)%Z → Forall (λ p, svg_property p.1) props →
  scaled_ok i →
  ∃ i', fold_res (λ i (p : string * Q), do_set_property p.1 p.2 i) i props = Ok i' ∧ scaled_ok i'.
Proof.
  intros Hw Hh Hp. revert i Hw Hh. induction Hp as [|[name v] props Hname _ IH]; intros i Hw Hh Hi;
    [by exists i|].
  destruct (do_set_property_total name v i Hw Hh Hname) as [i' Hi'].
  simpl. rewrite Hi'. simpl. destruct (do_set_property_ok _ _ _ _ Hi' Hi) as [Hs Hh'].
  apply IH; [by rewrite Hh'..|done].
Qed.

(** Whatever properties are set, the image is painted exactly over the
    bounds the canvas is told, which are also where the pointer finds the icon;
    nothing fails as long as the image has a natural size. *)
Theorem svg_paint_fits x y h props :
  (0 < h.1)%Z → (0 < h.2)%Z → Forall (λ p, svg_property p.1) props →
  ∃ i, fold_res (λ i (p : string * Q), do_set_property p.1 p.2 i) (SvgItem x y h) props = Ok i ∧
    let '(l, t, r, b) := do_simple_update i in
    let '(l', t', r', b') := painted i in
    l = l' ∧ t = t' ∧ r == r' ∧ b == b' ∧
    ∀ px py, do_simple_is_item_at px py i = true ↔ l <= px <= r ∧ t <= py <= b.
Proof.
  intros Hw Hh Hp.
  destruct (set_properties_ok props (SvgItem x y h)) as (i & Hi & [Hsw Hsh]); [done..| |].
  { split; simpl; lra. }
  exists i. split; [done|]. unfold do_simple_update, painted.
  split_and!; [done|done|lra|lra|].
  intros px py. unfold do_simple_is_item_at. repeat qcase; simpl; split; intros; try done; lra.
Qed.

Lemma svg_paint_fits_witness :
  let props := [("width", 30 : Q); ("x", 5 : Q); ("height", 8 : Q)] in
  Forall (λ p, svg_property p.1) props ∧
  ∃ i, fold_res (λ i (p : string * Q), do_set_property p.1 p.2 i) (SvgItem 0 0 (10, 4)%Z) props
         = Ok i ∧
    width i == 30.
Proof.
  intros props. assert (Forall (λ p, svg_property p.1) props) as Hp.
  { repeat constructor; unfold svg_property; simpl; set_solver. }
  split; [done|].
  destruct (svg_paint_fits 0 0 (10, 4)%Z props) as (i & Hi & _); [done..|].
  exists i. split; [done|]. vm_compute in Hi. injection Hi as <-. reflexivity.
Defined.

(** Reading the width of a scaled icon undoes the scaling of its bounds. *)
Lemma reading_width_resets :
  ∃ i i', do_set_property "width" 30 (SvgItem 0 0 (10, 4)%Z) = Ok i ∧ width i == 30 ∧
    do_get_property "width" i = Ok (10, i') ∧ width i' == 10 ∧ ¬ scaled_ok i'.
Proof.
  eexists _, _. split_and!; [vm_compute; reflexivity|reflexivity|reflexivity|reflexivity|].
  intros [H _]. vm_compute in H. done.
Qed.

(** ** Titled groups ([higcontainer.HIGContainer]) *)
Record rect := Rect { rx : Z; ry : Z; rwidth : Z; rheight : Z }.

(** The requests of the title, the indentation and the child, each a width and
    a height; without a child the request is that of an empty rectangle. *)
Definition do_size_request (title indent : Z * Z) (child : option (Z * Z)) : Z * Z :=
  let c := default (0, 0)%Z child in
  (Z.max title.1 (indent.1 + c.1), title.2 + 6 + Z.max c.2 indent.2)%Z.

(** The rectangles of the title and of the child. *)
Definition do_size_allocate (title indent : Z * Z) (child : option (Z * Z)) (a : rect) :
    rect * option rect :=
  let t := Rect (rx a) (ry a) (Z.min title.1 (rwidth a)) (Z.min title.2 (rheight a)) in
  (t, match child with
      | None => None
      | Some _ => Some (Rect (rx a + indent.1) (ry a + rheight t + 6)
                             (rwidth a - indent.1) (rheight a - 6 - rheight t))
      end).

Definition inside (r a : rect) : Prop :=
  (rx a ≤ rx r ∧ ry a ≤ ry r ∧ rx r + rwidth r ≤ rx a + rwidth a ∧
   ry r + rheight r ≤ ry a + rheight a)%Z.

(** A group that is given at least what it requested gives its title and
    its child at least what they requested, inside its own rectangle, with
    the title six pixels above the child. *)
Theorem higcontainer_fits title indent child a :
  (0 ≤ title.1)%Z → (0 ≤ title.2)%Z → (0 ≤ indent.1)%Z → (0 ≤ indent.2)%Z →
  ((do_size_request title indent (Some child)).1 ≤ rwidth a)%Z →
  ((do_size_request title indent (Some child)).2 ≤ rheight a)%Z →
  ∃ t c, do_size_allocate title indent (Some child) a = (t, Some c) ∧
    rwidth t = title.1 ∧ rheight t = title.2 ∧
    (child.1 ≤ rwidth c ∧ child.2 ≤ rheight c)%Z ∧
    inside t a ∧ inside c a ∧ (ry t + rheight t + 6 = ry c)%Z.
Proof.
  unfold do_size_request, do_size_allocate, inside. simpl. intros.
  eexists _, _. split; [done|]. simpl. lia.
Qed.

Lemma higcontainer_fits_witness :
  do_size_request (60, 14)%Z (16, 14)%Z (Some (100, 40)%Z) = (116, 60)%Z ∧
  ∃ t c, do_size_allocate (60, 14)%Z (16, 14)%Z (Some (100, 40)%Z) (Rect 8 8 116 60) =
    (t, Some c) ∧ (100 ≤ rwidth c)%Z.
Proof.
  split; [done|].
  destruct (higcontainer_fits (60, 14)%Z (16, 14)%Z (100, 40)%Z (Rect 8 8 116 60))
    as (t & c & H & _ & _ & [Hc _] & _); [done..|].
  by exists t, c.
Defined.

(** A group smaller than its request hands its child a negative size. *)
Lemma small_group_negative :
  do_size_allocate (60, 14)%Z (16, 14)%Z (Some (100, 40)%Z) (Rect 0 0 10 10) =
    (Rect 0 0 10 10, Some (Rect 16 16 (-6) (-6))).
Proof. done. Qed.
