(* ===== verification/Scene.v ===== *)
(** * The objects on the canvas of the visualizer

    [Node], [Channel] and [WiredLink] of [src/visualizer/visualizer/core.py]
    (lines 69-346 and 820-843) and [WifiLink] of
    [plugins/wifi_intrastructure_link.py].  Nodes, channels and links refer to
    each other, so they live in one store, the [scene]: a node is its index, a
    channel the identity of its simulator object (the dictionaries
    [Visualizer.nodes] and [channels]), a link its number in order of creation.
    A node's [nlinks] is its Python list [links], of link numbers.

    The canvas items are the properties the code gives them.  The canvas itself,
    [color_parse] and the natural size of an icon are parameters. *)

From S2P Require Import Prelude PyStr Rat VizBase.

Local Open Scope Q_scope.

(** ** Data *)
Record label_item := LabelItem { label_text : string; label_x : Q; label_y : Q }.

Record Node := MkNode {
  center : point;                             (** of the ellipse *)
  nlinks : list nat;
  has_mobility_cache : option bool;           (** [_has_mobility] *)
  selected : bool;
  highlighted : bool;
  color : Z;
  size : Q;
  radius : Q;
  fill_color_rgba : Z;
  line_width : Q;
  stroke_color : string;
  svg : option (svg_item * point);            (** [svg_item], [svg_align_x], [_y] *)
  label : option string;
  label_canvas_item : option label_item }.

Record Channel := MkChannel { ccenter : point; clinks : list nat }.

Inductive endpoint := NodeEnd (index : Z) | ChannelEnd (id : Z).

#[export] Instance endpoint_eq_dec : EqDecision endpoint.
Proof. solve_decision. Defined.

(** A line is drawn between two points once they have been set. *)
Abbreviation line := (option (point * point)).

Inductive link :=
  | Wired (node1 : Z) (node2 : endpoint) (data : line)
  | Wifi (sta ap : option Z) (visible : bool) (points : line).

Record scene := Scene {
  nodes : gmap Z Node;
  channels : gmap Z Channel;
  links : list link }.

Definition with_nodes (m : gmap Z Node) (s : scene) : scene := Scene m (channels s) (links s).
Definition with_channels (m : gmap Z Channel) (s : scene) : scene := Scene (nodes s) m (links s).
Definition with_links (l : list link) (s : scene) : scene := Scene (nodes s) (channels s) l.
Definition alter_node (f : Node → Node) (i : Z) (s : scene) : scene :=
  with_nodes (alter f i (nodes s)) s.

Definition empty_scene : scene := Scene ∅ ∅ [].

(** ** One node *)
Definition DEFAULT_NODE_SIZE : Q := 3.

Definition label_of (n : Node) : option label_item :=
  match label n with
  | None => label_canvas_item n
  | Some t =>
      let l := default (LabelItem t 0 0) (label_canvas_item n) in
      Some (LabelItem t (label_x l) (label_y l))
  end.

(** The properties [_update_appearance] sets on the items of the node. *)
Definition appearance (n : Node) : Node :=
  let sz := transform_distance_simulation_to_canvas (size n) in
  let alpha := match svg n with Some _ => 0x80 | None => 0xff end%Z in
  MkNode (center n) (nlinks n) (has_mobility_cache n) (selected n) (highlighted n)
    (color n) (size n) sz (Z.lor (Z.land (color n) 0xffffff00) alpha)
    (if selected n then sz * (3 # 10) else sz * (15 # 100))
    (if highlighted n then "yellow" else "black") (svg n) (label n) (label_of n).

Definition svg_position (p : point) (i : svg_item) (align : point) : svg_item :=
  Svg (p.1 - (1 - align.1) * width i) (p.2 - (1 - align.2) * height i) (sx i) (sy i)
    (handle i) (width i) (height i) (custom_width i) (custom_height i).

(** [set_position] up to the links, and after them. *)
Definition move (p : point) (n : Node) : Node :=
  MkNode p (nlinks n) (has_mobility_cache n) (selected n) (highlighted n) (color n)
    (size n) (radius n) (fill_color_rgba n) (line_width n) (stroke_color n)
    (match svg n with Some (i, a) => Some (svg_position p i a, a) | None => None end)
    (label n) (label_canvas_item n).

Definition place_label (p : point) (n : Node) : Node :=
  MkNode (center n) (nlinks n) (has_mobility_cache n) (selected n) (highlighted n)
    (color n) (size n) (radius n) (fill_color_rgba n) (line_width n) (stroke_color n)
    (svg n) (label n)
    (match label_canvas_item n with
     | Some l => Some (LabelItem (label_text l) p.1 (p.2 + size n * 3))
     | None => None
     end).

Definition set_nlinks (l : list nat) (n : Node) : Node :=
  MkNode (center n) l (has_mobility_cache n) (selected n) (highlighted n) (color n)
    (size n) (radius n) (fill_color_rgba n) (line_width n) (stroke_color n) (svg n)
    (label n) (label_canvas_item n).

(** The assignments of the setters, before [_update_appearance]. *)
Definition assign_selected (b : bool) (n : Node) : Node :=
  MkNode (center n) (nlinks n) (has_mobility_cache n) b (highlighted n) (color n)
    (size n) (radius n) (fill_color_rgba n) (line_width n) (stroke_color n) (svg n)
    (label n) (label_canvas_item n).
Definition assign_highlighted (b : bool) (n : Node) : Node :=
  MkNode (center n) (nlinks n) (has_mobility_cache n) (selected n) b (color n)
    (size n) (radius n) (fill_color_rgba n) (line_width n) (stroke_color n) (svg n)
    (label n) (label_canvas_item n).
Definition assign_size (x : Q) (n : Node) : Node :=
  MkNode (center n) (nlinks n) (has_mobility_cache n) (selected n) (highlighted n)
    (color n) x (radius n) (fill_color_rgba n) (line_width n) (stroke_color n) (svg n)
    (label n) (label_canvas_item n).
Definition assign_color (c : Z) (n : Node) : Node :=
  MkNode (center n) (nlinks n) (has_mobility_cache n) (selected n) (highlighted n) c
    (size n) (radius n) (fill_color_rgba n) (line_width n) (stroke_color n) (svg n)
    (label n) (label_canvas_item n).
Definition assign_label (t : string) (n : Node) : Node :=
  MkNode (center n) (nlinks n) (has_mobility_cache n) (selected n) (highlighted n)
    (color n) (size n) (radius n) (fill_color_rgba n) (line_width n) (stroke_color n)
    (svg n) (Some t) (label_canvas_item n).
Definition assign_svg (i : svg_item) (align : point) (n : Node) : Node :=
  MkNode (center n) (nlinks n) (has_mobility_cache n) (selected n) (highlighted n)
    (color n) (size n) (radius n) (fill_color_rgba n) (line_width n) (stroke_color n)
    (Some (i, align)) (label n) (label_canvas_item n).
Definition assign_mobility (b : bool) (n : Node) : Node :=
  MkNode (center n) (nlinks n) (Some b) (selected n) (highlighted n) (color n)
    (size n) (radius n) (fill_color_rgba n) (line_width n) (stroke_color n) (svg n)
    (label n) (label_canvas_item n).

(** [Node.__init__]. *)
Definition new_node : Node :=
  appearance (MkNode (0, 0) [] None false false 0x808080ff DEFAULT_NODE_SIZE 0 0 0 ""
                None None None).

Definition new_channel : Channel := MkChannel (0, 0) [].

(** A color given as a name is parsed into three 16-bit channels. *)
Definition pack_color (rgb : Z * Z * Z) : Z :=
  let '(r, g, b) := rgb in
  Z.lor (Z.lor (Z.lor (Z.shiftl (Z.shiftr r 8) 24) (Z.shiftl (Z.shiftr g 8) 16))
           (Z.shiftl (Z.shiftr b 8) 8)) 0xff.

(** ** Positions and links *)

(** The position and the links of a node or channel. *)
Definition end_of (e : endpoint) (s : scene) : option (point * list nat) :=
  match e with
  | NodeEnd i => n ← nodes s !! i; Some (center n, nlinks n)
  | ChannelEnd c => ch ← channels s !! c; Some (ccenter ch, clinks ch)
  end.

Definition get_position (e : endpoint) (s : scene) : option point := fst <$> end_of e s.

Definition line_between (e1 e2 : endpoint) (s : scene) : line :=
  p ← get_position e1 s; q ← get_position e2 s; Some (p, q).

(** A link drawn between the present positions of its ends. *)
Definition refresh (s : scene) (l : link) : link :=
  match l with
  | Wired n1 n2 _ => Wired n1 n2 (line_between (NodeEnd n1) n2 s)
  | Wifi (Some a) (Some b) v _ =>
      Wifi (Some a) (Some b) v (line_between (NodeEnd a) (NodeEnd b) s)
  | _ => l
  end.

(** [WiredLink.update_points] and [WifiLink.update_points]. *)
Definition update_points (i : nat) (s : scene) : scene :=
  with_links (alter (refresh s) i (links s)) s.

Definition update_all_points (ls : list nat) (s : scene) : scene :=
  foldl (λ s i, update_points i s) s ls.

(** [Node.set_position] and [Channel.set_position]. *)
Definition set_position (e : endpoint) (p : point) (s : scene) : scene :=
  match end_of e s with
  | None => s
  | Some (_, ls) =>
      match e with
      | NodeEnd i =>
          alter_node (place_label p) i
            (update_all_points ls (alter_node (move p) i s))
      | ChannelEnd c =>
          update_all_points ls
            (with_channels (<[c := MkChannel p ls]> (channels s)) s)
      end
  end.

(** [Node._update_appearance]; with a label it ends in [_update_position]. *)
Definition update_appearance (i : Z) (s : scene) : scene :=
  match nodes s !! i with
  | None => s
  | Some n =>
      let s1 := alter_node appearance i s in
      match label n with
      | None => s1
      | Some _ => set_position (NodeEnd i) (center n) s1
      end
  end.

Definition set_selected (b : bool) (i : Z) (s : scene) : scene :=
  update_appearance i (alter_node (assign_selected b) i s).
Definition set_highlighted (b : bool) (i : Z) (s : scene) : scene :=
  update_appearance i (alter_node (assign_highlighted b) i s).
Definition set_size (x : Q) (i : Z) (s : scene) : scene :=
  update_appearance i (alter_node (assign_size x) i s).
Definition set_color (c : Z + (Z * Z * Z)) (i : Z) (s : scene) : scene :=
  update_appearance i
    (alter_node (assign_color (match c with inl v => v | inr rgb => pack_color rgb end)) i s).
Definition set_label (t : string) (i : Z) (s : scene) : scene :=
  update_appearance i (alter_node (assign_label t) i s).

(** [set_svg_icon] with the natural size of the image. *)
Definition set_svg_icon (h : Z * Z) (w hgt : option Q) (align : point) (i : Z) (s : scene) :
    result exn scene :=
  match w, hgt with
  | None, None => Raise (ValueError "either width or height must be given")
  | _, _ =>
      match nodes s !! i with
      | None => Ok s
      | Some n =>
          let p := center n in
          let resize name (v : option Q) it :=
            match v with
            | Some v => do_set_property name (transform_distance_simulation_to_canvas v) it
            | None => Ok it
            end in
          it ← resize "width" w (SvgItem p.1 p.2 h);
          it ← resize "height" hgt it;
          Ok (update_appearance i
                (alter_node (assign_svg (svg_position p it align) align) i s))
      end
  end.

(** [Node.has_mobility], which remembers the answer. *)
Definition has_mobility (mobile : Z → bool) (i : Z) (s : scene) : bool * scene :=
  match nodes s !! i with
  | None => (false, s)
  | Some n =>
      match has_mobility_cache n with
      | Some b => (b, s)
      | None => (mobile i, alter_node (assign_mobility (mobile i)) i s)
      end
  end.

(** ** Creating objects ([Visualizer.get_node], [get_channel], [create_link]) *)
Definition get_node (i : Z) (s : scene) : scene :=
  match nodes s !! i with
  | Some _ => s
  | None => with_nodes (<[i := new_node]> (nodes s)) s
  end.

Definition get_channel (c : Z) (s : scene) : scene :=
  match channels s !! c with
  | Some _ => s
  | None => with_channels (<[c := new_channel]> (channels s)) s
  end.

Definition add_end_link (l : nat) (e : endpoint) (s : scene) : scene :=
  match e with
  | NodeEnd i => alter_node (λ n, set_nlinks (nlinks n ++ [l]) n) i s
  | ChannelEnd c =>
      with_channels (alter (λ ch, MkChannel (ccenter ch) (clinks ch ++ [l])) c (channels s)) s
  end.

Definition create_link (n1 : Z) (e2 : endpoint) (s : scene) : scene :=
  let l := length (links s) in
  add_end_link l e2 (add_end_link l (NodeEnd n1)
    (with_links (links s ++ [Wired n1 e2 None]) s)).

(** ** Wireless links ([WifiLink]) *)

(** [list.remove]. *)
Fixpoint list_remove (x : nat) (l : list nat) : option (list nat) :=
  match l with
  | [] => None
  | y :: l' => if decide (x = y) then Some l' else cons y <$> list_remove x l'
  end.

Definition remove_link (l : nat) (i : Z) (s : scene) : result exn scene :=
  match nodes s !! i with
  | None => Ok s
  | Some n =>
      ls ← of_option (ValueError "list.remove(x): x not in list") (list_remove l (nlinks n));
      Ok (alter_node (set_nlinks ls) i s)
  end.

(** [WifiLink(parent, sta, dev)].  The constructor means to hide the link, but
    [set_ap(None)] returns at once, so the group keeps the default, visible. *)
Definition new_wifi_link (sta : Z) (s : scene) : nat * scene :=
  (length (links s), with_links (links s ++ [Wifi (Some sta) None true None]) s).

Definition set_ap (l : nat) (ap : option Z) (s : scene) : result exn scene :=
  match links s !! l with
  | Some (Wifi sta old v d) =>
      if bool_decide (ap = old) then Ok s
      else
        s1 ← match old with Some o => remove_link l o s | None => Ok s end;
        let s2 := with_links (<[l := Wifi sta ap (bool_decide (ap ≠ None)) d]> (links s1)) s1 in
        match ap, sta with
        | None, _ => Ok s2
        | Some a, Some _ => Ok (update_points l (add_end_link l (NodeEnd a) s2))
        | Some _, None => Raise AttributeError
        end
  | _ => Ok s
  end.

Definition destroy (l : nat) (s : scene) : scene :=
  match links s !! l with
  | Some (Wifi _ _ v d) => with_links (<[l := Wifi None None v d]> (links s)) s
  | _ => s
  end.

(** ** What operations keep *)
Definition end_links (e : endpoint) (s : scene) : list nat := default [] (snd <$> end_of e s).

(** Link [i] is in the lists of its ends: a wired link in both, a wireless one in
    that of its access point only, and once. *)
Definition attached (s : scene) (i : nat) (l : link) : Prop :=
  match l with
  | Wired n1 n2 _ => i ∈ end_links (NodeEnd n1) s ∧ i ∈ end_links n2 s
  | Wifi (Some _) ap _ _ =>
      ∀ n, count i (end_links (NodeEnd n) s) = if decide (ap = Some n) then 1%nat else 0%nat
  | Wifi None ap _ _ => ap = None
  end.

(** A wired link is drawn between the positions of its ends. *)
Definition fresh (s : scene) (l : link) : Prop :=
  match l with
  | Wired n1 n2 (Some (p, q)) =>
      get_position (NodeEnd n1) s = Some p ∧ get_position n2 s = Some q
  | _ => True
  end.

Record scene_ok (s : scene) : Prop := SceneOk {
  ok_attached : ∀ i l, links s !! i = Some l → attached s i l;
  ok_fresh : ∀ i l, links s !! i = Some l → fresh s l;
  ok_bound : ∀ e i, i ∈ end_links e s → (i < length (links s))%nat }.

Lemma empty_scene_ok : scene_ok empty_scene.
Proof. by split; [..|intros [] ?; cbn; set_solver]. Qed.

(** [s'] has the objects of [s] where they were, with the same links, and
    perhaps new ones without links. *)
Record same_ends (s s' : scene) : Prop := SameEnds {
  same_links : ∀ e, end_links e s' = end_links e s;
  same_position : ∀ e p, get_position e s = Some p → get_position e s' = Some p }.

#[export] Instance same_ends_po : PreOrder same_ends.
Proof.
  split; [by split|]. intros s1 s2 s3 [H1 H2] [H3 H4].
  split; intros; [by rewrite H3, H1|by apply H4, H2].
Qed.

Lemma same_ends_ok s s' :
  same_ends s s' → links s' = links s → scene_ok s → scene_ok s'.
Proof.
  intros [Hl Hp] Hs [Ha Hf Hb]. split.
  - intros i l Hi. rewrite Hs in Hi. specialize (Ha _ _ Hi).
    unfold attached in *. destruct l as [n1 n2 d|[sta|] ap v d]; [|..|done].
    + by rewrite !Hl.
    + intros n. by rewrite Hl.
  - intros i l Hi. rewrite Hs in Hi. specialize (Hf _ _ Hi).
    unfold fresh in *. destruct l as [n1 n2 [[p q]|]|]; try done. naive_solver.
  - intros e i. rewrite Hl, Hs. apply Hb.
Qed.

Lemma same_ends_links l s : same_ends s (with_links l s).
Proof. split; intros []; done. Qed.

Lemma same_ends_alter f i s :
  (∀ n, center (f n) = center n ∧ nlinks (f n) = nlinks n) → same_ends s (alter_node f i s).
Proof.
  intros Hf. assert (∀ e, end_of e (alter_node f i s) = end_of e s) as He.
  { intros [j|c]; [|done]. unfold end_of, alter_node. simpl.
    destruct (decide (i = j)) as [<-|Hne].
    - rewrite lookup_alter_eq. destruct (nodes s !! i) as [n|]; [|done]. simpl.
      by destruct (Hf n) as [-> ->].
    - by rewrite lookup_alter_ne. }
  split; intros e *; unfold end_links, get_position; by rewrite He.
Qed.

Lemma same_ends_get_node i s : same_ends s (get_node i s).
Proof.
  unfold get_node. destruct (nodes s !! i) eqn:Hi; [done|].
  split; intros [j|c] *; try done; unfold end_links, get_position, end_of; simpl;
    (destruct (decide (i = j)) as [<-|Hne];
     [rewrite lookup_insert_eq, Hi|rewrite lookup_insert_ne by done]; done).
Qed.

Lemma same_ends_get_channel c s : same_ends s (get_channel c s).
Proof.
  unfold get_channel. destruct (channels s !! c) eqn:Hc; [done|].
  split; intros [j|d] *; try done; unfold end_links, get_position, end_of; simpl;
    (destruct (decide (c = d)) as [<-|Hne];
     [rewrite lookup_insert_eq, Hc|rewrite lookup_insert_ne by done]; done).
Qed.

(** *** Drawing *)
Lemma end_of_links e l s : end_of e (with_links l s) = end_of e s.
Proof. by destruct e. Qed.

Lemma refresh_links l s k : refresh (with_links l s) k = refresh s k.
Proof. by destruct k as [? [] ?|[] []]. Qed.

Lemma refresh_idemp s k : refresh s (refresh s k) = refresh s k.
Proof. by destruct k as [|[] []]. Qed.

Lemma update_all_points_spec ls s :
  ∃ ks, update_all_points ls s = with_links ks s ∧ length ks = length (links s) ∧
    ∀ j, ks !! j = (λ k, if decide (j ∈ ls) then refresh s k else k) <$> links s !! j.
Proof.
  unfold update_all_points. revert s. induction ls as [|i ls IH]; intros s; cbn [foldl].
  { exists (links s). split_and!; [by destruct s|done|]. intros j.
    destruct (links s !! j); done. }
  destruct (IH (update_points i s)) as (ks & -> & Hlen & Hks).
  exists ks. split_and!; [done|by rewrite Hlen; apply length_alter|].
  intros j. rewrite Hks. unfold update_points. simpl.
  destruct (decide (i = j)) as [<-|Hne].
  - rewrite list_lookup_alter_eq. destruct (links s !! i) as [k|]; [|done]. simpl.
    rewrite (decide_True (P := i ∈ i :: ls)) by set_solver.
    case_decide; rewrite ?refresh_links, ?refresh_idemp; done.
  - rewrite list_lookup_alter_ne by done. destruct (links s !! j) as [k|]; [|done]. simpl.
    rewrite refresh_links. f_equal. repeat case_decide; set_solver.
Qed.

(** What [refresh] draws depends on positions only. *)
Lemma refresh_positions s s' k :
  (∀ e, get_position e s' = get_position e s) → refresh s' k = refresh s k.
Proof. intros He. unfold refresh, line_between. destruct k as [n1 n2 d|[] []]; by rewrite ?He. Qed.

Lemma end_of_alter_node f i s e :
  end_of e (alter_node f i s) =
    if decide (e = NodeEnd i)
    then (λ n, (center (f n), nlinks (f n))) <$> nodes s !! i else end_of e s.
Proof.
  destruct e as [j|c]; [|done]. unfold end_of, alter_node. simpl.
  destruct (decide (i = j)) as [<-|Hne].
  - rewrite lookup_alter_eq, decide_True by done. by destruct (nodes s !! i).
  - rewrite lookup_alter_ne, decide_False by congruence. done.
Qed.

(** [set_position]: the object moves, every link in its list is redrawn and
    nothing else changes place or loses links. *)
Lemma set_position_spec e p p0 ls s :
  end_of e s = Some (p0, ls) →
  (∀ e', end_of e' (set_position e p s) =
     if decide (e' = e) then Some (p, ls) else end_of e' s) ∧
  length (links (set_position e p s)) = length (links s) ∧
  ∀ j, links (set_position e p s) !! j =
    (λ k, if decide (j ∈ ls) then refresh (set_position e p s) k else k) <$> links s !! j.
Proof.
  intros He. set (t := set_position e p s).
  assert (∃ s1 ks, links s1 = links s ∧ length ks = length (links s1) ∧ links t = ks ∧
    (∀ j, ks !! j = (λ k, if decide (j ∈ ls) then refresh s1 k else k) <$> links s1 !! j) ∧
    (∀ e', end_of e' s1 = if decide (e' = e) then Some (p, ls) else end_of e' s) ∧
    (∀ e', end_of e' t = end_of e' s1)) as (s1 & ks & Hl1 & Hlen & Hlt & Hks & He1 & Het).
  { subst t. unfold set_position. rewrite He. destruct e as [i|c].
    - set (s1 := alter_node (move p) i s).
      destruct (update_all_points_spec ls s1) as (ks & -> & Hlen & Hks).
      exists s1, ks. split_and!; try done.
      + intros e'. unfold s1. rewrite end_of_alter_node. case_decide; [|done].
        unfold end_of in He. destruct (nodes s !! i); [|done]. simpl in *. by simplify_eq.
      + intros e'. rewrite end_of_alter_node. case_decide as Hd; [|by rewrite end_of_links].
        subst e'. unfold end_of. simpl. by destruct (alter (move p) i (nodes s) !! i).
    - set (s1 := with_channels (<[c := MkChannel p ls]> (channels s)) s).
      destruct (update_all_points_spec ls s1) as (ks & -> & Hlen & Hks).
      exists s1, ks. split_and!; try done; try (by intros e'; rewrite end_of_links).
      intros [j|d]; [done|]. unfold end_of, s1. simpl.
      destruct (decide (c = d)) as [<-|Hne].
      + by rewrite lookup_insert_eq, decide_True.
      + by rewrite lookup_insert_ne, decide_False by congruence. }
  split_and!.
  - intros e'. by rewrite Het, He1.
  - by rewrite Hlt, Hlen, Hl1.
  - intros j. rewrite Hlt, Hks, Hl1. destruct (links s !! j) as [k|]; [|done]. simpl.
    case_decide; [|done]. f_equal. symmetry. apply refresh_positions.
    intros e'. unfold get_position. by rewrite Het.
Qed.

Lemma end_links_position e s e' p :
  end_links e' (set_position e p s) = end_links e' s.
Proof.
  destruct (end_of e s) as [[p0 ls]|] eqn:He; [|unfold set_position; by rewrite He].
  destruct (set_position_spec e p p0 ls s He) as [Hend _].
  unfold end_links. rewrite Hend. case_decide; [|done]. subst. by rewrite He.
Qed.

Lemma attached_links s s' i k :
  (∀ e, end_links e s' = end_links e s) → attached s i k → attached s' i k.
Proof.
  intros He. unfold attached. destruct k as [n1 n2 d|[sta|] ap v d]; [|..|done].
  - by rewrite !He.
  - intros Ha n. by rewrite He.
Qed.

Lemma refresh_attached s s' i k : attached s i k → attached s i (refresh s' k).
Proof. by destruct k as [|[] []]. Qed.

Lemma refresh_fresh s k : fresh s (refresh s k).
Proof.
  destruct k as [n1 n2 d|[] []]; [|done..]. simpl. unfold line_between.
  destruct (get_position (NodeEnd n1) s) eqn:H1; simpl; [|done].
  by destruct (get_position n2 s) eqn:H2.
Qed.

Lemma set_position_ok e p s : scene_ok s → scene_ok (set_position e p s).
Proof.
  intros [Ha Hf Hb].
  destruct (end_of e s) as [[p0 ls]|] eqn:He; [|unfold set_position; by rewrite He].
  destruct (set_position_spec e p p0 ls s He) as (Hend & Hlen & Hlk).
  set (t := set_position e p s) in *. split.
  - intros i l Hi. rewrite Hlk in Hi. apply fmap_Some in Hi as (k & Hk & ->).
    assert (attached t i k) by (eapply attached_links, Ha; [intros; apply end_links_position|done]).
    case_decide; [by apply refresh_attached|done].
  - intros i l Hi. rewrite Hlk in Hi. apply fmap_Some in Hi as (k & Hk & ->).
    case_decide as Hin; [apply refresh_fresh|].
    pose proof (Ha _ _ Hk) as Hat. pose proof (Hf _ _ Hk) as Hfr.
    destruct k as [n1 n2 [[q1 q2]|]|]; try done. simpl in *.
    assert (∀ e', i ∈ end_links e' s → get_position e' t = get_position e' s) as Hsame.
    { intros e' Hi. unfold get_position. rewrite Hend. case_decide; [|done]. subst e'.
      unfold end_links in Hi. by rewrite He in Hi. }
    destruct Hat as [H1 H2]. by rewrite !Hsame.
  - intros e' i Hi. rewrite Hlen. apply (Hb e'). by rewrite <- (end_links_position e s e' p).
Qed.

(** After [set_position] every wired link of the object is drawn. *)
Lemma set_position_draws e p s i n1 n2 d :
  scene_ok s → is_Some (end_of (NodeEnd n1) s) → is_Some (end_of n2 s) →
  links (set_position e p s) !! i = Some (Wired n1 n2 d) → e = NodeEnd n1 ∨ e = n2 → d ≠ None.
Proof.
  intros [Ha _ _] H1 H2 Hi He.
  assert (is_Some (end_of e s)) as [[p0 ls] Hls] by (destruct He as [->| ->]; done).
  destruct (set_position_spec e p p0 ls s Hls) as (Hend & _ & Hlk).
  assert (∀ e', is_Some (end_of e' s) → is_Some (get_position e' (set_position e p s))) as Hpos.
  { intros e' [[p' l'] He']. unfold get_position. rewrite Hend. case_decide; [done|].
    by rewrite He'. }
  rewrite Hlk in Hi. apply fmap_Some in Hi as (k & Hk & Heq). specialize (Ha _ _ Hk).
  case_decide as Hin.
  - apply Hpos in H1 as [q1 Hq1]. apply Hpos in H2 as [q2 Hq2].
    destruct k as [m1 m2 d'|[] []]; cbn [refresh] in Heq; try discriminate Heq.
    injection Heq as -> -> ->.
    unfold line_between. by rewrite Hq1, Hq2.
  - subst k. destruct Ha as [Ha1 Ha2]. unfold end_links in *.
    destruct He as [->| ->]; rewrite Hls in *; simpl in *; contradiction.
Qed.

(** *** Every operation keeps the invariant *)
Lemma update_appearance_ok i s : scene_ok s → scene_ok (update_appearance i s).
Proof.
  intros Hs. unfold update_appearance. destruct (nodes s !! i) as [n|]; [|done].
  assert (scene_ok (alter_node appearance i s)) as H1.
  { eapply same_ends_ok; [by apply same_ends_alter|done..]. }
  destruct (label n); [by apply set_position_ok|done].
Qed.

Lemma assign_ok f i s :
  (∀ n, center (f n) = center n ∧ nlinks (f n) = nlinks n) → scene_ok s →
  scene_ok (update_appearance i (alter_node f i s)).
Proof.
  intros Hf Hs. apply update_appearance_ok. eapply same_ends_ok; [by apply same_ends_alter|done..].
Qed.

Lemma update_points_ok i s : scene_ok s → scene_ok (update_points i s).
Proof.
  intros [Ha Hf Hb]. destruct (update_all_points_spec [i] s) as (ks & Ht & Hlen & Hk).
  change (update_all_points [i] s) with (update_points i s) in Ht. rewrite Ht.
  assert (same_ends s (with_links ks s)) as [Hl Hp] by apply same_ends_links.
  assert (∀ e, get_position e (with_links ks s) = get_position e s) as Hpos.
  { intros e. unfold get_position. by rewrite end_of_links. }
  split; simpl.
  - intros j l Hj. rewrite Hk in Hj. apply fmap_Some in Hj as (k & Hkk & ->).
    eapply attached_links; [exact Hl|]. case_decide; [apply refresh_attached|]; by apply Ha.
  - intros j l Hj. rewrite Hk in Hj. apply fmap_Some in Hj as (k & Hkk & ->).
    rewrite <- (refresh_links ks). case_decide; [apply refresh_fresh|].
    specialize (Hf _ _ Hkk). destruct k as [n1 n2 [[]|]|]; [|done..]. simpl in *.
    by rewrite !Hpos.
  - intros e j. rewrite Hl, Hlen. apply Hb.
Qed.

(** Adding a link to the list of an end. *)
Lemma add_end_link_spec l e s :
  links (add_end_link l e s) = links s ∧
  (∀ e', get_position e' (add_end_link l e s) = get_position e' s) ∧
  ∀ e', end_links e' (add_end_link l e s) =
    if decide (e' = e ∧ is_Some (end_of e s)) then (end_links e' s ++ [l])%list
    else end_links e' s.
Proof.
  destruct e as [i|c]; simpl; (split; [done|]).
  - assert (∀ e', end_of e' (alter_node (λ n, set_nlinks (nlinks n ++ [l]) n) i s) =
      if decide (e' = NodeEnd i)
      then prod_map id (λ ls, ls ++ [l])%list <$> end_of e' s else end_of e' s) as He.
    { intros e'. rewrite end_of_alter_node. case_decide; [|done]. subst. unfold end_of.
      by destruct (nodes s !! i). }
    split; intros e'; unfold get_position, end_links; rewrite He; case_decide; subst; simpl.
    + by destruct (nodes s !! i).
    + done.
    + unfold end_of. destruct (nodes s !! i); simpl; case_decide as Hd; naive_solver.
    + by rewrite decide_False by naive_solver.
  - assert (∀ e', end_of e' (with_channels
        (alter (λ ch, MkChannel (ccenter ch) (clinks ch ++ [l])) c (channels s)) s) =
      if decide (e' = ChannelEnd c)
      then prod_map id (λ ls, ls ++ [l])%list <$> end_of e' s else end_of e' s) as He.
    { intros [j|d]; [done|]. unfold end_of. simpl. case_decide as Hd; simplify_eq.
      - rewrite lookup_alter_eq. by destruct (channels s !! c).
      - rewrite lookup_alter_ne by congruence. done. }
    split; intros e'; unfold get_position, end_links; rewrite He; case_decide; subst; simpl.
    + by destruct (channels s !! c).
    + done.
    + unfold end_of. destruct (channels s !! c); simpl; case_decide as Hd; naive_solver.
    + by rewrite decide_False by naive_solver.
Qed.

Lemma add_end_link_incl l e s e' : end_links e' s ⊆ end_links e' (add_end_link l e s).
Proof. destruct (add_end_link_spec l e s) as (_ & _ & ->). case_decide; set_solver. Qed.

Lemma add_end_link_elem l e s e' i :
  i ∈ end_links e' (add_end_link l e s) → i ∈ end_links e' s ∨ i = l.
Proof. destruct (add_end_link_spec l e s) as (_ & _ & ->). case_decide; set_solver. Qed.

Lemma add_end_link_count l e s e' i :
  i ≠ l → count i (end_links e' (add_end_link l e s)) = count i (end_links e' s).
Proof.
  intros Hne. destruct (add_end_link_spec l e s) as (_ & _ & ->). case_decide; [|done].
  rewrite count_app, count_cons, count_nil, decide_False by done. lia.
Qed.

Lemma fresh_positions s s' k :
  (∀ e, get_position e s' = get_position e s) → fresh s k → fresh s' k.
Proof. intros He. destruct k as [n1 n2 [[]|]|]; [|done..]. simpl. by rewrite !He. Qed.

Lemma create_link_ok n1 e2 s :
  is_Some (end_of (NodeEnd n1) s) → is_Some (end_of e2 s) → scene_ok s →
  scene_ok (create_link n1 e2 s).
Proof.
  intros H1 H2 [Ha Hf Hb]. unfold create_link. set (l := length (links s)).
  set (s1 := with_links (links s ++ [Wired n1 e2 None]) s).
  set (s2 := add_end_link l (NodeEnd n1) s1).
  destruct (add_end_link_spec l (NodeEnd n1) s1) as (Hl2 & Hp2 & Hn2).
  destruct (add_end_link_spec l e2 s2) as (Hl3 & Hp3 & Hn3).
  fold s2 in Hl2, Hp2, Hn2. set (s3 := add_end_link l e2 s2) in *.
  assert (∀ e, get_position e s3 = get_position e s) as Hpos.
  { intros e. rewrite Hp3, Hp2. unfold get_position, s1. by rewrite end_of_links. }
  assert (∀ e, end_links e s1 = end_links e s) as Hn1.
  { intros e. unfold end_links, s1. by rewrite end_of_links. }
  assert (is_Some (end_of e2 s2)) as H2'.
  { assert (is_Some (get_position e2 s2)) as [p Hp].
    { rewrite Hp2. unfold get_position, s1. rewrite end_of_links. by apply fmap_is_Some. }
    apply fmap_Some in Hp as (x & -> & _). done. }
  assert (links s3 = links s ++ [Wired n1 e2 None])%list as Hlinks by (by rewrite Hl3, Hl2).
  assert (∀ e, end_links e s ⊆ end_links e s3) as Hincl.
  { intros e i Hi. apply add_end_link_incl, add_end_link_incl. by rewrite Hn1. }
  split.
  - intros i k Hi. rewrite Hlinks in Hi. apply lookup_snoc_Some in Hi as [[Hlt Hi]|[-> <-]].
    + specialize (Ha _ _ Hi).
      destruct k as [m1 m2 d|[sta|] ap v d]; cbn [attached] in Ha |- *; [|..|done].
      * destruct Ha as [Ha1 Ha2]. by split; apply Hincl.
      * intros n. unfold s3, s2. rewrite !add_end_link_count by (unfold l; lia). by rewrite Hn1.
    + simpl. split.
      * apply add_end_link_incl. rewrite Hn2, decide_True.
        -- set_solver.
        -- split; [done|]. unfold s1. by rewrite end_of_links.
      * rewrite Hn3, decide_True by done. set_solver.
  - intros i k Hi. rewrite Hlinks in Hi. apply lookup_snoc_Some in Hi as [[Hlt Hi]|[-> <-]]; [|done].
    eapply fresh_positions; [exact Hpos|by eapply Hf].
  - intros e i Hi. rewrite Hlinks, length_app. simpl.
    apply add_end_link_elem in Hi as [Hi| ->]; [|unfold l; lia].
    apply add_end_link_elem in Hi as [Hi| ->]; [|unfold l; lia].
    rewrite Hn1 in Hi. apply Hb in Hi. lia.
Qed.

(** *** Wireless links *)
Lemma list_remove_spec x l :
  x ∈ l → ∃ l', list_remove x l = Some l' ∧
    ∀ y, (count y l' + (if decide (y = x) then 1 else 0) = count y l)%nat.
Proof.
  induction l as [|y l IH]; intros Hx; [set_solver|]. simpl. case_decide as Hd.
  - subst y. exists l. split; [done|]. intros z. rewrite count_cons. lia.
  - destruct IH as (l' & -> & Hl'); [set_solver|]. exists (y :: l'). split; [done|].
    intros z. rewrite !count_cons, <- (Hl' z). lia.
Qed.

(** [s'] has the same links and places, and the lists of the nodes differ at
    most by occurrences of [l]. *)
Record but_for (l : nat) (s s' : scene) : Prop := ButFor {
  but_position : ∀ e, get_position e s' = get_position e s;
  but_count : ∀ e i, i ≠ l → count i (end_links e s') = count i (end_links e s) }.

Lemma but_for_elem l s s' e i :
  but_for l s s' → i ≠ l → i ∈ end_links e s' ↔ i ∈ end_links e s.
Proof. intros [_ Hc] Hne. by rewrite <- !count_pos, Hc. Qed.

Lemma but_for_attached l s s' i k :
  but_for l s s' → i ≠ l → attached s i k → attached s' i k.
Proof.
  intros Hb Hne. destruct k as [n1 n2 d|[sta|] ap v d]; cbn [attached]; [|..|done].
  - by rewrite !(but_for_elem l s s').
  - intros Ha n. by rewrite (but_count l s s').
Qed.

Lemma but_for_trans l s1 s2 s3 : but_for l s1 s2 → but_for l s2 s3 → but_for l s1 s3.
Proof.
  intros [P1 C1] [P2 C2]. split; intros; [by rewrite P2|by rewrite C2, C1].
Qed.

Lemma but_for_refl_links l ks s : but_for l s (with_links ks s).
Proof. by split; intros []. Qed.

Lemma add_end_link_but l e s : but_for l s (add_end_link l e s).
Proof.
  split; [apply add_end_link_spec|]. intros e' i Hne. by apply add_end_link_count.
Qed.

Lemma remove_link_spec l i s :
  l ∈ end_links (NodeEnd i) s →
  ∃ s', remove_link l i s = Ok s' ∧ links s' = links s ∧ but_for l s s' ∧
    (∀ j, is_Some (nodes s !! j) → is_Some (nodes s' !! j)) ∧
    ∀ j, (count l (end_links (NodeEnd j) s') + (if decide (j = i) then 1 else 0) =
          count l (end_links (NodeEnd j) s))%nat.
Proof.
  intros Hin. unfold remove_link. unfold end_links, end_of in Hin.
  destruct (nodes s !! i) as [n|] eqn:Hn; [|set_solver]. simpl in Hin.
  destruct (list_remove_spec _ _ Hin) as (ls & Hls & Hc). rewrite Hls. simpl.
  eexists. split; [done|]. split; [done|].
  assert (∀ e, end_of e (alter_node (set_nlinks ls) i s) =
    if decide (e = NodeEnd i) then Some (center n, ls) else end_of e s) as He.
  { intros e. rewrite end_of_alter_node. by rewrite Hn. }
  assert (end_of (NodeEnd i) s = Some (center n, nlinks n)) as Hi.
  { unfold end_of. by rewrite Hn. }
  split_and!.
  - split; intros e *; unfold get_position, end_links; rewrite He; case_decide; subst;
      rewrite ?Hi; try done.
    simpl. intros Hne. specialize (Hc i0). rewrite decide_False in Hc by done. lia.
  - intros j. unfold alter_node. simpl. by rewrite lookup_alter_is_Some.
  - intros j. unfold end_links. rewrite He. destruct (decide (j = i)) as [->|Hne].
    + rewrite decide_True, Hi by done. simpl. specialize (Hc l).
      by rewrite decide_True in Hc.
    + rewrite decide_False by congruence. simpl. lia.
Qed.

(** Replacing link [l] and editing only its occurrences keeps the invariant if
    the new link is attached and fresh. *)
Lemma replace_link_ok l k k0 s s' :
  scene_ok s → but_for l s s' → links s' = <[l := k]> (links s) → links s !! l = Some k0 →
  attached s' l k → fresh s' k → scene_ok s'.
Proof.
  intros [Ha Hf Hb] Hbut Hl H0 Hak Hfk.
  assert ((l < length (links s))%nat) as Hlt by (by eapply lookup_lt_Some).
  assert (∀ i k', links s' !! i = Some k' →
    i = l ∧ k' = k ∨ i ≠ l ∧ links s !! i = Some k') as Hcase.
  { intros i k' Hi. rewrite Hl in Hi. destruct (decide (i = l)) as [->|Hne].
    - rewrite list_lookup_insert_eq in Hi by done. naive_solver.
    - rewrite list_lookup_insert_ne in Hi by done. naive_solver. }
  split.
  - intros i k' Hi. destruct (Hcase _ _ Hi) as [[-> ->]|[Hne Hi']]; [done|].
    eapply but_for_attached; [done..|by apply Ha].
  - intros i k' Hi. destruct (Hcase _ _ Hi) as [[-> ->]|[Hne Hi']]; [done|].
    eapply fresh_positions, Hf; [apply Hbut|done].
  - intros e i Hi. rewrite Hl, length_insert. destruct (decide (i = l)) as [->|Hne]; [done|].
    apply (Hb e). by rewrite <- (but_for_elem l s s').
Qed.

Lemma set_ap_ok l ap sta old v d s :
  scene_ok s → links s !! l = Some (Wifi (Some sta) old v d) →
  (∀ a, ap = Some a → is_Some (nodes s !! a)) →
  ∃ s', set_ap l ap s = Ok s' ∧ scene_ok s' ∧ length (links s') = length (links s) ∧
    (∀ j, is_Some (nodes s !! j) → is_Some (nodes s' !! j)) ∧
    ∃ v' d', links s' !! l = Some (Wifi (Some sta) ap v' d') ∧
      (ap ≠ old → v' = bool_decide (ap ≠ None)).
Proof.
  intros Hok Hl Hap. unfold set_ap. rewrite Hl. case_bool_decide as Heq.
  { subst ap. exists s. split_and!; [done..|]. by exists v, d. }
  pose proof (ok_attached _ Hok _ _ Hl) as Hat. cbn [attached] in Hat.
  assert (∃ s1, match old with Some o => remove_link l o s | None => Ok s end = Ok s1 ∧
    links s1 = links s ∧ but_for l s s1 ∧
    (∀ j, is_Some (nodes s !! j) → is_Some (nodes s1 !! j)) ∧
    ∀ j, count l (end_links (NodeEnd j) s1) = 0%nat) as (s1 & -> & Hl1 & Hb1 & Hn1 & Hc1).
  { destruct old as [o|].
    - destruct (remove_link_spec l o s) as (s1 & Hs1 & ? & ? & ? & Hc).
      { rewrite <- count_pos, Hat. rewrite decide_True by done. lia. }
      exists s1. split_and!; [done..|]. intros j. specialize (Hc j). specialize (Hat j).
      rewrite Hat in Hc. repeat case_decide; simplify_eq; lia.
    - exists s. split_and!; [done..|]. intros j. by rewrite Hat. }
  simpl. set (s2 := with_links (<[l := Wifi (Some sta) ap (bool_decide (ap ≠ None)) d]> (links s1)) s1).
  assert ((l < length (links s))%nat) as Hlt by (by eapply lookup_lt_Some).
  assert (but_for l s s2) as Hb2.
  { eapply but_for_trans; [done|apply but_for_refl_links]. }
  assert (∀ j, end_links (NodeEnd j) s2 = end_links (NodeEnd j) s1) as He2 by done.
  destruct ap as [a|].
  - destruct (add_end_link_spec l (NodeEnd a) s2) as (Hl3 & Hp3 & He3).
    set (s3 := add_end_link l (NodeEnd a) s2) in *.
    eexists. split; [done|].
    assert (scene_ok s3) as Hok3.
    { eapply (replace_link_ok l _ _ s s3); [done| |by rewrite Hl3; unfold s2; simpl; rewrite Hl1|done| |done].
      - eapply but_for_trans; [done|apply add_end_link_but].
      - cbn [attached]. intros n. rewrite He3, He2.
        assert (is_Some (end_of (NodeEnd a) s2)) as Hea.
        { destruct (Hn1 a) as [na Hna]; [by apply Hap|]. unfold s2, end_of. simpl.
          rewrite Hna. simpl. eauto. }
        destruct (decide (n = a)) as [->|Hna].
        + rewrite !decide_True by done. rewrite count_app, Hc1, count_cons, decide_True by done. done.
        + rewrite !decide_False by naive_solver. apply Hc1. }
    split_and!.
    + by apply update_points_ok.
    + transitivity (length (links s3)); [apply length_alter|]. rewrite Hl3. unfold s2. simpl.
      by rewrite length_insert, Hl1.
    + intros j Hj. change (is_Some (nodes s3 !! j)). unfold s3, add_end_link, alter_node.
      simpl. rewrite lookup_alter_is_Some. by apply Hn1.
    + eexists _, _. split; [|done].
      transitivity (refresh s3 <$> links s3 !! l); [apply list_lookup_alter_eq|].
      rewrite Hl3. unfold s2. simpl. by rewrite list_lookup_insert_eq by (by rewrite Hl1).
  - exists s2. split; [done|].
    split_and!; [|by unfold s2; simpl; rewrite length_insert, Hl1|done|].
    + eapply (replace_link_ok l _ _ s s2); [done|done|by unfold s2; simpl; rewrite Hl1|done| |done].
      cbn [attached]. intros n. rewrite He2, decide_False by done. apply Hc1.
    + eexists _, _. split; [|done]. unfold s2. simpl. by rewrite list_lookup_insert_eq by (by rewrite Hl1).
Qed.

Lemma destroy_ok l s : scene_ok s → scene_ok (destroy l s).
Proof.
  intros Hok. unfold destroy. destruct (links s !! l) as [[|sta ap v d]|] eqn:Hl; [done| |done].
  eapply (replace_link_ok l); [done|apply but_for_refl_links|done..].
Qed.

Lemma new_wifi_link_ok sta s :
  scene_ok s → scene_ok (new_wifi_link sta s).2.
Proof.
  intros [Ha Hf Hb]. unfold new_wifi_link. simpl.
  set (s' := with_links (links s ++ [Wifi (Some sta) None true None]) s).
  assert (∀ e, end_links e s' = end_links e s) as He by (by intros []).
  split.
  - intros i k Hi. apply lookup_snoc_Some in Hi as [[Hlt Hi]|[-> <-]].
    + eapply attached_links; [done|by apply Ha].
    + cbn [attached]. intros n. rewrite decide_False, He by done. apply count_zero.
      intros Hin. apply Hb in Hin. lia.
  - intros i k Hi. apply lookup_snoc_Some in Hi as [[Hlt Hi]|[-> <-]]; [|done].
    eapply (fresh_positions s); [by intros []|by eapply Hf].
  - intros e i. rewrite He. simpl. rewrite length_app. intros Hi. apply Hb in Hi. simpl. lia.
Qed.

(** ** Runs of operations *)
Inductive scene_op :=
  | OpGetNode (i : Z)
  | OpGetChannel (c : Z)
  | OpCreateLink (n1 : Z) (e2 : endpoint)
  | OpSetPosition (e : endpoint) (p : point)
  | OpSelected (b : bool) (i : Z)
  | OpHighlighted (b : bool) (i : Z)
  | OpSize (x : Q) (i : Z)
  | OpColor (c : Z + (Z * Z * Z)) (i : Z)
  | OpLabel (t : string) (i : Z)
  | OpSvgIcon (h : Z * Z) (w hgt : option Q) (align : point) (i : Z)
  | OpHasMobility (b : bool) (i : Z)
  | OpWifiLink (sta : Z)
  | OpSetAp (l : nat) (ap : option Z)
  | OpDestroy (l : nat)
  | OpUpdatePoints (l : nat).

(** The callers hold the objects they pass, so the ends of a new link and an
    access point exist: [ensure] creates them. *)
Definition ensure (e : endpoint) (s : scene) : scene :=
  match e with NodeEnd i => get_node i s | ChannelEnd c => get_channel c s end.

Definition apply_op (s : scene) (o : scene_op) : result exn scene :=
  match o with
  | OpGetNode i => Ok (get_node i s)
  | OpGetChannel c => Ok (get_channel c s)
  | OpCreateLink n1 e2 => Ok (create_link n1 e2 (ensure e2 (get_node n1 s)))
  | OpSetPosition e p => Ok (set_position e p s)
  | OpSelected b i => Ok (set_selected b i s)
  | OpHighlighted b i => Ok (set_highlighted b i s)
  | OpSize x i => Ok (set_size x i s)
  | OpColor c i => Ok (set_color c i s)
  | OpLabel t i => Ok (set_label t i s)
  | OpSvgIcon h w hgt a i => set_svg_icon h w hgt a i s
  | OpHasMobility b i => Ok (has_mobility (λ _, b) i s).2
  | OpWifiLink sta => Ok (new_wifi_link sta (get_node sta s)).2
  | OpSetAp l ap =>
      set_ap l ap match ap with Some a => get_node a s | None => s end
  | OpDestroy l => Ok (destroy l s)
  | OpUpdatePoints l => Ok (update_points l s)
  end.

Lemma is_Some_get_node i s : is_Some (nodes (get_node i s) !! i).
Proof.
  unfold get_node. destruct (nodes s !! i) eqn:Hi; [by rewrite Hi|].
  simpl. rewrite lookup_insert_eq. done.
Qed.

Lemma is_Some_end_node i s : is_Some (nodes s !! i) → is_Some (end_of (NodeEnd i) s).
Proof. intros [n Hn]. unfold end_of. rewrite Hn. done. Qed.

Lemma is_Some_ensure e s : is_Some (end_of e (ensure e s)).
Proof.
  destruct e as [i|c]; simpl; [apply is_Some_end_node, is_Some_get_node|].
  unfold get_channel. destruct (channels s !! c) eqn:Hc; simpl; [by rewrite Hc|].
  by rewrite lookup_insert_eq.
Qed.

Lemma same_ends_ensure e s : same_ends s (ensure e s) ∧ links (ensure e s) = links s.
Proof.
  destruct e as [i|c]; simpl.
  - split; [apply same_ends_get_node|]. unfold get_node. by destruct (nodes s !! i).
  - split; [apply same_ends_get_channel|]. unfold get_channel. by destruct (channels s !! c).
Qed.

Lemma ensure_ok e s : scene_ok s → scene_ok (ensure e s).
Proof. intros Hs. destruct (same_ends_ensure e s). by eapply same_ends_ok. Qed.

Lemma is_Some_same_ends e s s' :
  same_ends s s' → is_Some (end_of e s) → is_Some (end_of e s').
Proof.
  intros [_ Hp] [[p ls] He]. specialize (Hp e p). unfold get_position in Hp.
  rewrite He in Hp. specialize (Hp eq_refl). apply fmap_Some in Hp as (x & -> & _). done.
Qed.

Lemma set_svg_icon_ok h w hgt a i s s' :
  set_svg_icon h w hgt a i s = Ok s' → scene_ok s → scene_ok s'.
Proof.
  unfold set_svg_icon. intros H Hs.
  destruct w, hgt, (nodes s !! i); try discriminate; res_inv; try done; by apply assign_ok.
Qed.

Lemma has_mobility_ok m i s : scene_ok s → scene_ok (has_mobility m i s).2.
Proof.
  intros Hs. unfold has_mobility. destruct (nodes s !! i) as [n|]; [|done].
  destruct (has_mobility_cache n); [done|].
  eapply same_ends_ok; [by apply same_ends_alter|done..].
Qed.

Lemma set_ap_any_ok l ap s s' :
  (∀ a, ap = Some a → is_Some (nodes s !! a)) →
  set_ap l ap s = Ok s' → scene_ok s → scene_ok s'.
Proof.
  intros Hap H Hok. destruct (links s !! l) as [[|[sta|] old v d]|] eqn:Hl.
  - unfold set_ap in H. rewrite Hl in H. by simplify_eq.
  - destruct (set_ap_ok l ap sta old v d s) as (s2 & Hs2 & Hok2 & _); [done..|].
    rewrite Hs2 in H. by simplify_eq.
  - pose proof (ok_attached _ Hok _ _ Hl) as Hat. cbn [attached] in Hat. subst old.
    unfold set_ap in H. rewrite Hl in H. case_bool_decide; [by simplify_eq|].
    by destruct ap.
  - unfold set_ap in H. rewrite Hl in H. by simplify_eq.
Qed.

Lemma apply_op_ok s o s' : apply_op s o = Ok s' → scene_ok s → scene_ok s'.
Proof.
  intros H Hs. destruct o; simpl in H; res_inv; simplify_eq/=;
    try (by apply assign_ok).
  - by apply (ensure_ok (NodeEnd _)).
  - by apply (ensure_ok (ChannelEnd _)).
  - apply create_link_ok; [|apply is_Some_ensure|by apply ensure_ok, (ensure_ok (NodeEnd _))].
    eapply is_Some_same_ends; [apply same_ends_ensure|]. apply is_Some_end_node, is_Some_get_node.
  - by apply set_position_ok.
  - by eapply set_svg_icon_ok.
  - by apply has_mobility_ok.
  - by apply new_wifi_link_ok, (ensure_ok (NodeEnd _)).
  - eapply set_ap_any_ok; [|exact H|].
    + intros a ->. apply is_Some_get_node.
    + destruct ap; [by apply (ensure_ok (NodeEnd _))|done].
  - by apply destroy_ok.
  - by apply update_points_ok.
Qed.

Lemma apply_ops_ok ops s s' : fold_res apply_op s ops = Ok s' → scene_ok s → scene_ok s'.
Proof.
  revert s. induction ops as [|o ops IH]; intros s H Hs; simpl in H; res_inv; [done|].
  eapply IH; [done|]. by eapply apply_op_ok.
Qed.

(** ** Nodes look like their state *)

(** The items of the node show its size, colour, selection and label, and the
    label is under the node. *)
Definition up_to_date (n : Node) : Prop :=
  appearance n = n ∧
  label_canvas_item n =
    (λ t, LabelItem t (center n).1 ((center n).2 + size n * 3)) <$> label n.

Definition all_up_to_date (s : scene) : Prop := map_Forall (λ _, up_to_date) (nodes s).

Lemma appearance_idemp n : appearance (appearance n) = appearance n.
Proof.
  unfold appearance. simpl. f_equal. unfold label_of. simpl.
  destruct (label n) as [t|]; [|done]. by destruct (label_canvas_item n).
Qed.

(** Moving a node that shows its state, label included. *)
Definition moved (p : point) (n : Node) : Node := place_label p (move p n).

Lemma label_of_appearance n t :
  label n = Some t → ∃ x y, label_canvas_item (appearance n) = Some (LabelItem t x y).
Proof. intros Hl. simpl. unfold label_of. rewrite Hl. eauto. Qed.

Lemma moved_up_to_date p n :
  appearance n = n → (label n = None → label_canvas_item n = None) → up_to_date (moved p n).
Proof.
  intros Ha Hn. assert (∀ t, label n = Some t → ∃ x y, label_canvas_item n = Some (LabelItem t x y))
    as Ht by (intros t Ht; rewrite <- Ha; by apply label_of_appearance).
  destruct n as [c ls hm se hi co sz ra fi lw st sv la lc]. simpl in *.
  unfold up_to_date, moved, appearance, place_label, move, label_of in *. simpl in *.
  destruct la as [t|].
  - destruct (Ht t) as (x & y & ->); [done|]. simpl in *. split; [|done].
    injection Ha as <- <- <- <-. by destruct sv as [[]|].
  - rewrite Hn by done. simpl in *. split; [|done].
    injection Ha as <- <- <- <-. by destruct sv as [[]|].
Qed.

Lemma update_all_points_nodes ls s : nodes (update_all_points ls s) = nodes s.
Proof. by destruct (update_all_points_spec ls s) as (ks & -> & _). Qed.

Lemma set_position_nodes i p s :
  nodes (set_position (NodeEnd i) p s) = alter (moved p) i (nodes s).
Proof.
  unfold set_position, end_of. destruct (nodes s !! i) as [n|] eqn:Hn; simpl.
  - rewrite update_all_points_nodes. simpl. apply map_eq. intros j.
    destruct (decide (i = j)) as [<-|Hne];
      [by rewrite !lookup_alter_eq, Hn|by rewrite !lookup_alter_ne].
  - symmetry. apply map_eq. intros j. destruct (decide (i = j)) as [<-|Hne];
      [by rewrite lookup_alter_eq, Hn|by rewrite lookup_alter_ne].
Qed.

Lemma alter_up_to_date f i (m : gmap Z Node) :
  map_Forall (λ _, up_to_date) m → (∀ n, m !! i = Some n → up_to_date (f n)) →
  map_Forall (λ _, up_to_date) (alter f i m).
Proof.
  intros Hm Hf j n Hj. destruct (decide (i = j)) as [<-|Hne].
  - rewrite lookup_alter_eq in Hj. apply fmap_Some in Hj as (n0 & Hn0 & ->). by apply Hf.
  - rewrite lookup_alter_ne in Hj by done. by eapply Hm.
Qed.

Lemma up_to_date_no_label n : up_to_date n → label n = None → label_canvas_item n = None.
Proof. intros [_ Hl] Hn. by rewrite Hl, Hn. Qed.

Lemma set_position_up_to_date e p s :
  all_up_to_date s → all_up_to_date (set_position e p s).
Proof.
  intros Hs. destruct e as [i|c].
  - unfold all_up_to_date. rewrite set_position_nodes. apply alter_up_to_date; [done|].
    intros n Hn. apply moved_up_to_date; [by eapply Hs|].
    apply up_to_date_no_label. by eapply Hs.
  - unfold all_up_to_date, set_position. destruct (end_of (ChannelEnd c) s) as [[]|]; [|done].
    by rewrite update_all_points_nodes.
Qed.

(** An assignment followed by [_update_appearance]. *)
Lemma assign_up_to_date f i s :
  (∀ n, center (f n) = center n) →
  (∀ n, label (f n) = None → label n = None ∧ label_canvas_item (f n) = label_canvas_item n) →
  all_up_to_date s → all_up_to_date (update_appearance i (alter_node f i s)).
Proof.
  intros Hc Hl Hs. unfold update_appearance, all_up_to_date. simpl. rewrite lookup_alter_eq.
  destruct (nodes s !! i) as [n|] eqn:Hn; simpl; [|by apply alter_up_to_date; [|naive_solver]].
  assert (∀ g : Node → Node, alter g i (alter f i (nodes s)) = alter (g ∘ f) i (nodes s)) as Hcomp.
  { intros g. by rewrite alter_alter_eq. }
  destruct (label (f n)) as [t|] eqn:Ht.
  - rewrite set_position_nodes. simpl. rewrite !alter_alter_eq.
    apply alter_up_to_date; [done|]. intros n' Hn'. rewrite Hn in Hn'. injection Hn' as <-. simpl.
    apply moved_up_to_date; [apply appearance_idemp|]. simpl. by rewrite Ht.
  - simpl. rewrite Hcomp. apply alter_up_to_date; [done|].
    intros n' Hn'. rewrite Hn in Hn'. injection Hn' as <-. simpl.
    destruct (Hl _ Ht) as [Hl1 Hl2]. split; [apply appearance_idemp|].
    simpl. unfold label_of. rewrite Ht, Hl2. simpl. apply up_to_date_no_label; [|done].
    by eapply Hs.
Qed.

Lemma keep_up_to_date f i s :
  (∀ n, up_to_date n → up_to_date (f n)) → all_up_to_date s → all_up_to_date (alter_node f i s).
Proof. intros Hf Hs. apply alter_up_to_date; [done|]. intros n Hn. apply Hf. by eapply Hs. Qed.

Lemma set_nlinks_up_to_date l n : up_to_date n → up_to_date (set_nlinks l n).
Proof.
  intros [Ha Hl]. split; [|done].
  change (set_nlinks l (appearance n) = set_nlinks l n). by rewrite Ha.
Qed.

Lemma get_node_up_to_date i s : all_up_to_date s → all_up_to_date (get_node i s).
Proof.
  intros Hs. unfold get_node. destruct (nodes s !! i); [done|].
  apply map_Forall_insert_2; [by split|done].
Qed.

Lemma ensure_up_to_date e s : all_up_to_date s → all_up_to_date (ensure e s).
Proof.
  destruct e as [i|c]; simpl; [apply get_node_up_to_date|].
  unfold get_channel. by destruct (channels s !! c).
Qed.

Lemma add_end_link_up_to_date l e s : all_up_to_date s → all_up_to_date (add_end_link l e s).
Proof.
  destruct e as [i|c]; simpl; [|done]. apply keep_up_to_date. intros n. apply set_nlinks_up_to_date.
Qed.

Lemma set_ap_up_to_date l ap s s' : set_ap l ap s = Ok s' → all_up_to_date s → all_up_to_date s'.
Proof.
  unfold set_ap. intros H Hs. destruct (links s !! l) as [[|sta old v d]|]; simplify_eq/=; try done.
  case_bool_decide; [by simplify_eq|]. apply bind_Ok_inv in H as (s1 & Hs1 & H).
  assert (all_up_to_date s1) as H1.
  { destruct old as [o|]; [|by simplify_eq]. unfold remove_link in Hs1.
    destruct (nodes s !! o); [|by simplify_eq]. res_inv.
    apply keep_up_to_date; [|done]. intros n'. apply set_nlinks_up_to_date. }
  destruct ap as [a|], sta; try discriminate; injection H as <-; [|done..].
  apply (add_end_link_up_to_date l (NodeEnd a)). done.
Qed.

Lemma apply_op_up_to_date s o s' :
  apply_op s o = Ok s' → all_up_to_date s → all_up_to_date s'.
Proof.
  intros H Hs. destruct o; simpl in H; res_inv; simplify_eq/=;
    try (apply assign_up_to_date; [done|intros ? Hn; by split|done]).
  - by apply get_node_up_to_date.
  - by apply (ensure_up_to_date (ChannelEnd _)).
  - apply add_end_link_up_to_date, (add_end_link_up_to_date _ (NodeEnd _)).
    by apply ensure_up_to_date, get_node_up_to_date.
  - by apply set_position_up_to_date.
  - unfold set_svg_icon in H.
    destruct w, hgt, (nodes s !! i); try discriminate; res_inv; try done;
      (apply assign_up_to_date; [done|intros ? Hn; by split|done]).
  - unfold has_mobility. destruct (nodes s !! i) as [n|] eqn:Hn; [|done].
    destruct (has_mobility_cache n); [done|]. apply keep_up_to_date; [|done].
    intros n' [Ha Hl]. split; [|done].
    change (assign_mobility b (appearance n') = assign_mobility b n'). by rewrite Ha.
  - by apply get_node_up_to_date.
  - eapply set_ap_up_to_date; [exact H|]. destruct ap; [by apply get_node_up_to_date|done].
  - unfold destroy. by repeat case_match.
  - done.
Qed.

(** ** Colours *)
Lemma testbit_ones (n m : Z) : (0 ≤ n)%Z → (0 ≤ m)%Z → Z.testbit (Z.ones n) m = bool_decide (m < n)%Z.
Proof.
  intros Hn Hm. case_bool_decide; [apply Z.ones_spec_low|apply Z.ones_spec_high]; lia.
Qed.

Lemma fill_color_bits (c a : Z) i :
  (a = 0x80 ∨ a = 0xff)%Z → (0 ≤ i)%Z →
  Z.testbit (Z.lor (Z.land c 0xffffff00) a) i =
    if bool_decide (i < 8)%Z then Z.testbit a i
    else if bool_decide (i < 32)%Z then Z.testbit c i else false.
Proof.
  intros Ha Hi. rewrite Z.lor_spec, Z.land_spec.
  change 0xffffff00%Z with (Z.shiftl (Z.ones 24) 8). rewrite Z.shiftl_spec by done.
  assert (8 ≤ i → Z.testbit a i = false)%Z as Hhigh.
  { intros H8. apply Z.bits_above_log2; destruct Ha as [-> | ->]; simpl; lia. }
  case_bool_decide.
  - rewrite (Z.testbit_neg_r _ (i - 8)) by lia. by rewrite andb_false_r.
  - rewrite Hhigh, testbit_ones, orb_false_r by lia.
    case_bool_decide; case_bool_decide; try lia; by rewrite ?andb_true_r, ?andb_false_r.
Qed.

(** Whatever operations ran, every node's items show its state: the fill has
    the red, green and blue of the node's colour and the alpha 0x80 with an icon
    and 0xff without, the radius is the size in pixels, the border is twice as
    thick when the node is selected, and a label stands under the node. *)
Theorem nodes_show_their_state ops s i n :
  fold_res apply_op empty_scene ops = Ok s → nodes s !! i = Some n →
  radius n = size n * 3 ∧
  line_width n = radius n * (if selected n then 3 # 10 else 15 # 100) ∧
  stroke_color n = (if highlighted n then "yellow" else "black") ∧
  (∀ b, (0 ≤ b)%Z → Z.testbit (fill_color_rgba n) b =
     if bool_decide (b < 8)%Z then Z.testbit (match svg n with Some _ => 0x80 | None => 0xff end) b
     else if bool_decide (b < 32)%Z then Z.testbit (color n) b else false) ∧
  (∀ t, label n = Some t →
     label_canvas_item n = Some (LabelItem t (center n).1 ((center n).2 + size n * 3))).
Proof.
  intros Hops Hn.
  assert (all_up_to_date s) as Hs.
  { assert (all_up_to_date empty_scene) as H0 by apply map_Forall_empty.
    revert Hops H0. generalize empty_scene. induction ops as [|o ops IH]; intros s0 Hops H0;
      simpl in Hops; res_inv; [done|]. eapply IH; [done|]. by eapply apply_op_up_to_date. }
  destruct (Hs _ _ Hn) as [Ha Hl]. rewrite <- Ha at 1 2 3 4 5. simpl. split_and!.
  - done.
  - rewrite <- Ha. simpl. by destruct (selected n).
  - rewrite <- Ha at 1. done.
  - intros b Hb. rewrite <- Ha at 1. simpl. apply fill_color_bits; [|done].
    destruct (svg n); auto.
  - intros t Ht. by rewrite Hl, Ht.
Qed.

Definition example_ops : list scene_op :=
  [OpGetNode 0; OpColor (inr (0xffff, 0, 0)%Z) 0; OpSetPosition (NodeEnd 0) (6, 9);
   OpCreateLink 0 (NodeEnd 1); OpCreateLink 1 (ChannelEnd 7); OpLabel "gateway" 1;
   OpSelected true 1; OpSetPosition (NodeEnd 1) (30, 0); OpSetPosition (ChannelEnd 7) (1, 1);
   OpWifiLink 2; OpSetAp 2 (Some 1%Z); OpSvgIcon (10, 4)%Z (Some (5 : Q)) None (1 # 2, 1 # 2) 0;
   OpSetPosition (NodeEnd 0) (0, 0)].

Definition example_scene : scene :=
  match fold_res apply_op empty_scene example_ops with Ok s => s | Raise _ => empty_scene end.

Lemma nodes_show_their_state_witness :
  ∃ n, nodes example_scene !! 1%Z = Some n ∧ line_width n = radius n * (3 # 10) ∧
    label_canvas_item n = Some (LabelItem "gateway" 30 (0 + 3 * 3)).
Proof.
  destruct (nodes example_scene !! 1%Z) as [n|] eqn:Hn; [|vm_compute in Hn; discriminate].
  exists n. split; [done|].
  destruct (nodes_show_their_state example_ops example_scene 1 n) as (_ & Hw & _ & _ & Hl);
    [vm_compute; reflexivity|done|].
  vm_compute in Hn. injection Hn as <-. split; [exact Hw|]. by apply Hl.
Defined.

(** C16: In every scene the operations lead to, a wired link is in the lists of
    both its ends and is drawn, if at all, between their present positions: no
    move leaves a line behind. *)
Theorem links_never_stale ops s i n1 n2 d :
  fold_res apply_op empty_scene ops = Ok s → links s !! i = Some (Wired n1 n2 d) →
  i ∈ end_links (NodeEnd n1) s ∧ i ∈ end_links n2 s ∧
  ∀ p q, d = Some (p, q) → get_position (NodeEnd n1) s = Some p ∧ get_position n2 s = Some q.
Proof.
  intros Hops Hi. destruct (apply_ops_ok _ _ _ Hops empty_scene_ok) as [Ha Hf _].
  specialize (Ha _ _ Hi). specialize (Hf _ _ Hi). destruct Ha as [H1 H2].
  split_and!; [done..|]. by intros p q ->.
Qed.

Lemma links_never_stale_witness :
  links example_scene !! 0%nat = Some (Wired 0 (NodeEnd 1) (Some ((0, 0), (30, 0)))) ∧
  get_position (NodeEnd 1) example_scene = Some (30, 0).
Proof.
  split; [vm_compute; reflexivity|].
  destruct (links_never_stale example_ops example_scene 0 0 (NodeEnd 1) (Some ((0, 0), (30, 0))))
    as (_ & _ & H); [vm_compute; reflexivity..|].
  by apply (H (0, 0) (30, 0)).
Defined.

(** Moving a wireless link to another access point, or to none, never fails
    while the station exists; afterwards the link is in the list of the new
    access point once, in that of no other node, and is shown exactly if there is
    an access point. *)
Theorem set_ap_moves_link ops s l sta old v d ap :
  fold_res apply_op empty_scene ops = Ok s →
  links s !! l = Some (Wifi (Some sta) old v d) → ap ≠ old →
  (∀ a, ap = Some a → is_Some (nodes s !! a)) →
  ∃ s' d', set_ap l ap s = Ok s' ∧
    links s' !! l = Some (Wifi (Some sta) ap (bool_decide (ap ≠ None)) d') ∧
    ∀ n, count l (end_links (NodeEnd n) s') = if decide (ap = Some n) then 1%nat else 0%nat.
Proof.
  intros Hops Hl Hne Hap. pose proof (apply_ops_ok _ _ _ Hops empty_scene_ok) as Hok.
  destruct (set_ap_ok l ap sta old v d s) as (s' & Hs' & Hok' & _ & _ & v' & d' & Hl' & Hv);
    [done..|].
  exists s', d'. rewrite (Hv Hne) in Hl'. split_and!; [done..|].
  apply (ok_attached _ Hok' _ _ Hl').
Qed.

Lemma set_ap_moves_link_witness :
  ∃ s' d', set_ap 2 (Some 0%Z) example_scene = Ok s' ∧
    links s' !! 2%nat = Some (Wifi (Some 2%Z) (Some 0%Z) true d') ∧
    count 2%nat (end_links (NodeEnd 1) s') = 0%nat.
Proof.
  destruct (links example_scene !! 2%nat) as [[|[sta|] old v d]|] eqn:Hl;
    try (vm_compute in Hl; discriminate).
  pose proof Hl as Hl'. vm_compute in Hl'. injection Hl' as Hsta Hold _ _.
  destruct (set_ap_moves_link example_ops example_scene 2 sta old v d (Some 0%Z))
    as (s' & d' & Hs' & Hlk & Hc); [vm_compute; reflexivity|done|by rewrite <- Hold| |].
  { intros a [= <-]. vm_compute. eauto. }
  exists s', d'. split; [done|]. rewrite Hsta. split; [exact Hlk|]. apply (Hc 1%Z).
Defined.

(** A wireless link does not follow its station, which does not list it. *)
Lemma wifi_link_stale :
  ∃ s, fold_res apply_op empty_scene
    [OpWifiLink 0; OpSetAp 0 (Some 1%Z); OpSetPosition (NodeEnd 0) (6, 6)] = Ok s ∧
    links s !! 0%nat = Some (Wifi (Some 0%Z) (Some 1%Z) true (Some ((0, 0), (0, 0)))) ∧
    get_position (NodeEnd 0) s = Some (6, 6).
Proof. eexists. split; [vm_compute; reflexivity|done]. Qed.

(** The new link is meant to be hidden until it has an access point. *)
Lemma new_wifi_link_visible :
  links (new_wifi_link 0 empty_scene).2 = [Wifi (Some 0%Z) None true None].
Proof. done. Qed.

(** An icon whose alignments are between 0 and 1 covers the position of its
    node, is centred on it at 1/2, ends at it at 0 and starts at it at 1. *)
Theorem svg_covers_position p it align :
  let it' := svg_position p it align in
  0 <= width it → 0 <= align.1 <= 1 →
  svg_x it' <= p.1 <= svg_x it' + width it' ∧
  (align.1 == 1 # 2 → p.1 - svg_x it' == svg_x it' + width it' - p.1) ∧
  (align.1 == 0 → svg_x it' + width it' == p.1) ∧ (align.1 == 1 → svg_x it' == p.1).
Proof.
  intros it' Hw [H0 H1]. subst it'. simpl.
  assert (0 <= (1 - align.1) * width it) by (apply Qmult_le_0_compat; lra).
  assert (0 <= align.1 * width it) by (by apply Qmult_le_0_compat).
  split_and!; try lra; intros Ha; rewrite Ha; lra.
Qed.

Lemma svg_covers_position_witness :
  let it' := svg_position (6, 9) (SvgItem 0 0 (10, 4)%Z) (1 # 2, 1 # 2) in
  svg_x it' <= 6 <= svg_x it' + width it'.
Proof.
  intros it'. apply (svg_covers_position (6, 9) (SvgItem 0 0 (10, 4)%Z) (1 # 2, 1 # 2));
    [|split]; vm_compute; discriminate.
Defined.
