(* ===== verification/Transmissions.v ===== *)
(** * Arrows for transmitted and dropped packets

    [Visualizer] of [src/visualizer/visualizer/core.py], lines 902-1053.  At
    every simulation period [do_simulation_periodic_update] appends the samples
    of the simulator to two windows of bounded length.  At every view update
    the samples of a window are summed by transmitter and receiver (by
    transmitter for drops), and each sum is drawn as an arrow with a label.  The
    canvas items are reused: the code takes them from the list of the previous
    update, creates what is missing and keeps what is left over, hidden.

    An arrow and its label are one entry of a store, [arrows], known by its
    number; [tracked] is the list [_transmission_arrows] or [_drop_arrows].  The
    A transmission that was broadcast has no receiver ([receiver] is [None], see
    [TransmissionSample] of [src/visualizer/model/pyviz.h]); the update asks it
    for its identifier all the same.  The
    number printed in a label is kept as a rational, with the side of the arrow
    head.  [math.log] and [math.atan2] on their domain, the clipping of a line to
    the window ([LineClipping] of the simulator) and the conversion from pixels
    are parameters. *)

From S2P Require Import Prelude Rat VizBase Scene.

Local Open Scope Q_scope.

(** ** Windows of samples *)
Record transmission := Transmission { transmitter : Z; receiver : option Z; tx_bytes : Z }.
Record packet_drop := PacketDrop { drop_transmitter : Z; drop_bytes : Z }.

Definition DEFAULT_TRANSMISSIONS_MEMORY : Q := 5.
Definition BITRATE_FONT_SIZE : Q := 10.

Definition smooth_factor (adjustment : Q) : Z := py_int (adjustment * 10).

(** [while len(l) > n: l.pop(0)]; an empty list has nothing to pop. *)
Fixpoint pop_front {A} (n : Z) (l : list A) : result exn (list A) :=
  if bool_decide (py_len l > n)%Z then
    match l with [] => Raise IndexError | _ :: l' => pop_front n l' end
  else Ok l.

Record windows := Windows {
  last_transmissions : list (list transmission);
  last_drops : list (list packet_drop) }.

(** [do_simulation_periodic_update], with the two samples it asks for. *)
Definition do_simulation_periodic_update (adjustment : Q) (w : windows)
    (x : list transmission * list packet_drop) : result exn windows :=
  t ← pop_front (smooth_factor adjustment) (last_transmissions w ++ [x.1]);
  d ← pop_front (smooth_factor adjustment) (last_drops w ++ [x.2]);
  Ok (Windows t d).

(** ** Sums *)

(** The bytes and the number of the samples of each key. *)
Definition add_sample {K} `{Countable K} (m : gmap K (Z * Z)) (x : K * Z) : gmap K (Z * Z) :=
  let '(b, c) := default (0, 0)%Z (m !! x.1) in <[x.1 := (b + x.2, c + 1)%Z]> m.

(** [(transmission.transmitter.GetId(), transmission.receiver.GetId())]. *)
Definition transmission_key (t : transmission) : result exn (Z * Z) :=
  match receiver t with
  | Some r => Ok (transmitter t, r)
  | None => Raise AttributeError
  end.

Definition transmissions_average (w : list (list transmission)) :
    result exn (gmap (Z * Z) (Z * Z)) :=
  fold_res (fold_res (λ m t, k ← transmission_key t; Ok (add_sample m (k, tx_bytes t)))) ∅ w.

Definition drops_average (w : list (list packet_drop)) : gmap Z (Z * Z) :=
  foldl (λ m set, foldl (λ m d, add_sample m (drop_transmitter d, drop_bytes d)) m set) ∅ w.

(** ** Arrows *)
Inductive caption := Rightwards (kbps : Q) | Leftwards (kbps : Q) | Plain (kbps : Q).
Inductive anchor := ANCHOR_S | ANCHOR_N | ANCHOR_DEFAULT.
Inductive matrix_op := Translate (p : point) | Rotate (angle : Q) | Scale (x y : Q).

Record text_item := TextItem {
  text : caption;
  font_size : Z;
  text_anchor : anchor;
  text_pos : point;
  transform : list matrix_op }.

Record arrow := Arrow {
  arrow_visible : bool;
  arrow_width : Q;
  arrow_points : option (point * point);
  label_visible : bool;
  arrow_label : option text_item }.

Record overlay := Overlay { arrows : list arrow; tracked : list nat }.

Definition hide (a : arrow) : arrow :=
  Arrow false (arrow_width a) (arrow_points a) false (arrow_label a).

Definition show (a : arrow) : arrow :=
  Arrow true (arrow_width a) (arrow_points a) (label_visible a) (arrow_label a).

(** A new [Polyline] and [Text]; goocanvas shows new items. *)
Definition new_arrow : arrow := Arrow true 2 None true None.

Definition hide_all (o : overlay) : overlay :=
  Overlay (foldl (λ l i, alter hide i l) (arrows o) (tracked o)) (tracked o).

(** [l.pop()]. *)
Definition pop {A} (l : list A) : option (list A * A) :=
  match reverse l with [] => None | x :: r => Some (reverse r, x) end.

(** The loop that draws the sums.  [old] is [old_arrows], [drawn] [new_arrows]. *)
Record drawing := Drawing {
  dscene : scene;
  store : list arrow;
  old : list nat;
  drawn : list nat }.

(** [old_arrows.pop()] or, when that raises [IndexError], a new arrow. *)
Definition take_arrow (d : drawing) : nat * drawing :=
  match pop (old d) with
  | Some (l, i) => (i, Drawing (dscene d) (store d) l (drawn d))
  | None => (length (store d), Drawing (dscene d) (store d ++ [new_arrow]) [] (drawn d))
  end.

Section Draw.
Context {K : Type} `{Countable K, !DictOrder K}.

(** [nodes_for] are the calls of [get_node] of one round and [draw] the
    properties it gives to the arrow, which it makes visible first. *)
Context (nodes_for : K → scene → scene).
Context (draw : K → Z * Z → scene → result exn arrow).

Definition draw_one (d : drawing) (x : K * (Z * Z)) : drawing * option exn :=
  let s := nodes_for x.1 (dscene d) in
  let '(i, d1) := take_arrow (Drawing s (store d) (old d) (drawn d)) in
  let st := alter show i (store d1) in
  match draw x.1 x.2 s with
  | Raise e => (Drawing s st (old d1) (drawn d1), Some e)
  | Ok a => (Drawing s (<[i := a]> st) (old d1) (drawn d1 ++ [i]), None)
  end.

Fixpoint draw_loop (l : list (K * (Z * Z))) (d : drawing) : drawing * option exn :=
  match l with
  | [] => (d, None)
  | x :: l' =>
      match draw_one d x with
      | (d', None) => draw_loop l' d'
      | (d', Some e) => (d', Some e)
      end
  end.

(** [m.iteritems()]. *)
Definition iteritems (m : gmap K (Z * Z)) : list (K * (Z * Z)) :=
  dict_keys m ≫= λ k, match m !! k with Some v => [(k, v)] | None => [] end.

(** The list kept by the visualizer is the one the loop pops from, so an
    exception leaves it with what had not been popped. *)
Definition draw_view (m : gmap K (Z * Z)) (s : scene) (o : overlay) :
    scene * overlay * option exn :=
  let o := hide_all o in
  let '(d, e) := draw_loop (iteritems m) (Drawing s (arrows o) (tracked o) []) in
  (dscene d,
   Overlay (store d) (match e with None => drawn d ++ old d | Some _ => old d end), e).
End Draw.

Section View.
Context (log : Q → Q) (atan2 : Q → Q → Q) (PI_OVER_2 : Q).
Context (LineClipping : point → point → point → point → point * point).
Context (node_size sample_period : Q).

(** [convert_from_pixels] at the present zoom, and the adjustments. *)
Context (from_pixels : point → point) (hadj vadj : Q) (page : point).

Definition math_log (x : Q) : result exn Q :=
  if qle x 0 then Raise (ValueError "math domain error") else Ok (log x).

Definition line_width_of (bytes count : Z) : result exn Q :=
  r ← float_div (inject_Z bytes / inject_Z count) sample_period;
  l ← math_log r;
  Ok (qmax (1 # 10) (l * (node_size / 5))).

Definition kbps_of (bytes count : Z) : Q :=
  inject_Z (bytes * 8) / 1000 / inject_Z count / sample_period.

Definition label_font : Z := py_int (1 + BITRATE_FONT_SIZE * (node_size / 5)).

Definition get_label_over_line_position (p q : point) : point :=
  let b1 := from_pixels (hadj, vadj) in
  let b2 := from_pixels (hadj + page.1, vadj + page.2) in
  let '(p', q') := LineClipping b1 b2 p q in
  ((p'.1 + q'.1) / 2, (p'.2 + q'.2) / 2).

Definition position_of (i : Z) (s : scene) : point :=
  default (0, 0) (get_position (NodeEnd i) s).

Definition transmission_label (width kbps : Q) (p q : point) : text_item :=
  let angle := atan2 (q.2 - p.2) (q.1 - p.1) in
  let place := get_label_over_line_position p q in
  if qle (- PI_OVER_2) angle && qle angle PI_OVER_2
  then TextItem (Rightwards kbps) label_font ANCHOR_S (0, - width / 2)
         [Translate place; Rotate angle]
  else TextItem (Leftwards kbps) label_font ANCHOR_N (0, width / 2)
         [Translate place; Rotate angle; Scale (-1) (-1)].

Definition transmission_nodes (k : Z * Z) (s : scene) : scene := get_node k.2 (get_node k.1 s).

Definition draw_transmission (k : Z * Z) (x : Z * Z) (s : scene) : result exn arrow :=
  w ← line_width_of x.1 x.2;
  let p := position_of k.1 s in
  let q := position_of k.2 s in
  Ok (Arrow true w (Some (p, q)) true
        (Some (transmission_label w (kbps_of x.1 x.2) p q))).

Definition update_transmissions_view `{!DictOrder (Z * Z)} (w : windows) :
    scene → overlay → scene * overlay * option exn := λ s o,
  match transmissions_average (last_transmissions w) with
  | Ok m => draw_view transmission_nodes draw_transmission m s o
  | Raise e => (s, o, Some e)
  end.

(** A drop is drawn down to the lower edge of the window. *)
Definition edge_y : Q := (from_pixels (0, vadj + page.2)).2.

Definition draw_drop (k : Z) (x : Z * Z) (s : scene) : result exn arrow :=
  w ← line_width_of x.1 x.2;
  let p := position_of k s in
  let q := (p.1, edge_y) in
  Ok (Arrow true w (Some (p, q)) true
        (Some (TextItem (Plain (kbps_of x.1 x.2)) label_font ANCHOR_DEFAULT
                 ((p.1 + q.1) / 2, (p.2 + q.2) / 2) []))).

Definition update_drops_view `{!DictOrder Z} (w : windows) :
    scene → overlay → scene * overlay * option exn :=
  draw_view get_node draw_drop (drops_average (last_drops w)).
End View.

(** ** The windows hold the last samples *)
Definition last_n {A} (n : nat) (l : list A) : list A := drop (length l - n) l.

Lemma pop_front_spec {A} n (l : list A) :
  (0 ≤ n)%Z → pop_front n l = Ok (last_n (Z.to_nat n) l).
Proof.
  intros Hn. induction l as [|x l IH]; cbn [pop_front];
    case_bool_decide as H; unfold py_len in *; simpl length in *; try lia; try done.
  - rewrite IH. unfold last_n. simpl length.
    by replace (S (length l) - Z.to_nat n)%nat with (S (length l - Z.to_nat n)) by lia.
  - unfold last_n. by replace (_ - _)%nat with 0%nat by (simpl length; lia).
Qed.

Lemma last_n_snoc {A} n (l : list A) x : last_n n (last_n n l ++ [x]) = last_n n (l ++ [x]).
Proof.
  unfold last_n. rewrite !length_app, length_drop; simpl.
  destruct n as [|n].
  { rewrite !drop_ge; [done|rewrite length_app; simpl; lia|].
    rewrite length_app, length_drop; simpl; lia. }
  rewrite !drop_app_le by (rewrite ?length_drop; lia).
  rewrite drop_drop. do 2 f_equal. lia.
Qed.

(** A run of periods at one value of the smoothing adjustment. *)
Definition run_periods (adjustment : Q) : list (list transmission * list packet_drop) →
    result exn windows :=
  fold_res (do_simulation_periodic_update adjustment) (Windows [] []).

Lemma smooth_factor_nonneg a : 0 <= a → (0 ≤ smooth_factor a)%Z.
Proof.
  intros Ha. unfold smooth_factor. rewrite py_int_nonneg by lra.
  change 0%Z with (Qfloor 0). apply Qfloor_resp_le. lra.
Qed.

Lemma run_periods_last a xs :
  0 <= a →
  run_periods a xs =
    Ok (Windows (last_n (Z.to_nat (smooth_factor a)) xs.*1)
                (last_n (Z.to_nat (smooth_factor a)) xs.*2)).
Proof.
  intros Ha. unfold run_periods. induction xs as [|x xs IH] using rev_ind; [done|].
  rewrite fold_res_app, IH. simpl. unfold do_simulation_periodic_update; simpl.
  rewrite !pop_front_spec by (by apply smooth_factor_nonneg). simpl.
  by rewrite !fmap_app, !last_n_snoc.
Qed.

(** ** The sums *)
Definition zsum (l : list Z) : Z := foldr Z.add 0%Z l.

Lemma zsum_app l k : zsum (l ++ k) = (zsum l + zsum k)%Z.
Proof. induction l as [|x l IH]; simpl; [done|]. rewrite IH. lia. Qed.

(** What a dictionary of sums holds for a key with the samples [l]. *)
Definition summary (l : list Z) : option (Z * Z) :=
  match l with [] => None | _ => Some (zsum l, py_len l) end.

Lemma summary_snoc l b :
  let '(s, c) := default (0, 0)%Z (summary l) in summary (l ++ [b]) = Some (s + b, c + 1)%Z.
Proof.
  destruct l as [|x l]; [simpl; do 2 f_equal; lia|]. simpl. unfold py_len; simpl.
  rewrite zsum_app, length_app; simpl. do 2 f_equal; lia.
Qed.

Lemma add_sample_sums {K} `{Countable K} (xs : list (K * Z)) k :
  foldl add_sample ∅ xs !! k = summary (filter (λ x, x.1 = k) xs).*2.
Proof.
  induction xs as [|x xs IH] using rev_ind; [done|].
  rewrite foldl_snoc, filter_app, fmap_app. set (m := foldl add_sample ∅ xs) in *.
  unfold add_sample. destruct (decide (x.1 = k)) as [<-|Hk].
  - rewrite filter_cons_True by done. simpl. rewrite IH.
    pose proof (summary_snoc (filter (λ y, y.1 = x.1) xs).*2 x.2) as Hs.
    destruct (default _ _) as [b c]. rewrite Hs. apply lookup_insert_eq.
  - rewrite filter_cons_False by done. simpl. rewrite app_nil_r, <- IH.
    destruct (default _ (m !! x.1)) as [b c]. by rewrite lookup_insert_ne.
Qed.

Lemma foldl_keyed {A K} `{Countable K} (f : A → K * Z) (w : list (list A)) m :
  foldl (λ m set, foldl (λ m t, add_sample m (f t)) m set) m w =
    foldl add_sample m (f <$> concat w).
Proof.
  revert m; induction w as [|set w IH]; intros m; simpl; [done|].
  rewrite IH, fmap_app, foldl_app. f_equal.
  clear. revert m; induction set as [|t set IH]; intros m; simpl; [done|]. by rewrite IH.
Qed.

Lemma filter_keyed {A K} `{EqDecision K} (f : A → K * Z) k (l : list A) :
  (filter (λ x, x.1 = k) (f <$> l)).*2 = snd ∘ f <$> filter (λ t, (f t).1 = k) l.
Proof.
  induction l as [|t l IH]; [done|]. rewrite fmap_cons, !filter_cons.
  case_decide; by rewrite ?fmap_cons, IH.
Qed.

(** The samples of a flow, and of a node, in some periods. *)
Definition flow_bytes (t r : Z) (l : list (list transmission)) : list Z :=
  tx_bytes <$> filter (λ x, (transmitter x, receiver x) = (t, Some r)) (concat l).
Definition dropped_bytes (t : Z) (l : list (list packet_drop)) : list Z :=
  drop_bytes <$> filter (λ x, drop_transmitter x = t) (concat l).

(** No transmission of the window was broadcast. *)
Definition addressed (l : list (list transmission)) : Prop :=
  Forall (λ t, receiver t ≠ None) (concat l).

#[export] Instance addressed_dec l : Decision (addressed l).
Proof. unfold addressed. apply _. Defined.

(** The samples with their keys, as far as they have one. *)
Definition keyed (t : transmission) : option (Z * Z * Z) :=
  r ← receiver t; Some (transmitter t, r, tx_bytes t).

Lemma fold_res_concat {E S A} (f : S → A → result E S) s (l : list (list A)) :
  fold_res (fold_res f) s l = fold_res f s (concat l).
Proof.
  revert s; induction l as [|x l IH]; intros s; [done|]. simpl. rewrite fold_res_app.
  destruct (fold_res f s x); simpl; [apply IH|done].
Qed.

Lemma add_samples_keyed m l :
  fold_res (λ m t, k ← transmission_key t; Ok (add_sample m (k, tx_bytes t))) m l =
    if decide (Forall (λ t, receiver t ≠ None) l) then Ok (foldl add_sample m (omap keyed l))
    else Raise AttributeError.
Proof.
  revert m; induction l as [|[t [r|] b] l IH]; intros m; [done| |].
  - cbn [fold_res]. unfold transmission_key at 1; simpl. rewrite IH.
    rewrite (decide_ext _ (Forall (λ t, receiver t ≠ None) (Transmission t (Some r) b :: l))); [done|].
    rewrite Forall_cons. naive_solver.
  - rewrite decide_False; [done|]. by intros [? _]%Forall_cons.
Qed.

Lemma transmissions_average_spec w :
  transmissions_average w =
    if decide (addressed w) then Ok (foldl add_sample ∅ (omap keyed (concat w)))
    else Raise AttributeError.
Proof. unfold transmissions_average. rewrite fold_res_concat. apply add_samples_keyed. Qed.

Lemma filter_omap_keyed t r l :
  (filter (λ x, x.1 = (t, r)) (omap keyed l)).*2 =
    tx_bytes <$> filter (λ x, (transmitter x, receiver x) = (t, Some r)) l.
Proof.
  induction l as [|[t' [r'|] b] l IH]; [done| |]; simpl.
  - rewrite !filter_cons. destruct (decide ((t', r') = (t, r))) as [[= -> ->]|Hn].
    + rewrite !decide_True by done. simpl. by f_equal.
    + rewrite !decide_False by (simpl; naive_solver). done.
  - rewrite filter_cons_False; [done|naive_solver].
Qed.

Lemma transmissions_average_sums w m t r :
  transmissions_average w = Ok m → m !! (t, r) = summary (flow_bytes t r w).
Proof.
  rewrite transmissions_average_spec. case_decide; [|done]. intros [= <-].
  rewrite add_sample_sums, filter_omap_keyed. done.
Qed.

Lemma drops_average_sums w t : drops_average w !! t = summary (dropped_bytes t w).
Proof.
  unfold drops_average.
  rewrite (foldl_keyed (λ d, (drop_transmitter d, drop_bytes d))), add_sample_sums.
  by rewrite (filter_keyed (λ d, (drop_transmitter d, drop_bytes d))).
Qed.

(** However many periods have passed, with the smoothing adjustment at [a]
    the window holds the last [int(a * 10)] of them, and the sums that the
    arrows show for a pair of nodes, or for a node that dropped packets, are
    the total bytes and the number of its samples in those periods: a key
    without samples is absent, and no older sample is counted.  The sums of
    the pairs are computed unless one of those samples was broadcast. *)
Theorem averages_of_last_periods a xs :
  0 <= a →
  ∃ w, run_periods a xs = Ok w ∧
    let n := Z.to_nat (smooth_factor a) in
    (if decide (addressed (last_n n xs.*1))
     then ∃ m, transmissions_average (last_transmissions w) = Ok m ∧
       ∀ t r, m !! (t, r) = summary (flow_bytes t r (last_n n xs.*1))
     else transmissions_average (last_transmissions w) = Raise AttributeError) ∧
    (∀ t, drops_average (last_drops w) !! t = summary (dropped_bytes t (last_n n xs.*2))).
Proof.
  intros Ha. eexists. split; [by apply run_periods_last|]. cbn zeta; split.
  - simpl. pose proof (transmissions_average_spec (last_n (Z.to_nat (smooth_factor a)) xs.*1)) as Hs.
    case_decide; [|done]. eexists. split; [exact Hs|]. intros t r.
    by apply transmissions_average_sums.
  - intros t. apply drops_average_sums.
Qed.

Definition example_periods : list (list transmission * list packet_drop) :=
  [ ([Transmission 0 None 100; Transmission 0 (Some 1%Z) 300], [PacketDrop 2 40]);
    ([Transmission 1 (Some 0%Z) 50], []);
    ([Transmission 0 (Some 1%Z) 200; Transmission 0 (Some 2%Z) 10], [PacketDrop 2 60]) ].

Lemma averages_of_last_periods_witness :
  ∃ w, run_periods (2 # 10) example_periods = Ok w ∧
    (∃ m, transmissions_average (last_transmissions w) = Ok m ∧ m !! (0, 1)%Z = Some (200, 1)%Z) ∧
    drops_average (last_drops w) !! 2%Z = Some (60, 1)%Z.
Proof.
  destruct (averages_of_last_periods (2 # 10) example_periods) as (w & Hw & Ht & Hd);
    [by vm_compute|].
  exists w. split; [done|]. split; [|by rewrite Hd].
  rewrite decide_True in Ht by (by apply (bool_decide_unpack _)).
  destruct Ht as (m & Hm & Hmr). exists m. by rewrite Hmr.
Defined.

(** ** The arrows *)

(** [tracked] lists the arrows that may be visible, each once. *)
Definition untracked_hidden (l : list nat) (st : list arrow) : Prop :=
  ∀ i a, st !! i = Some a → i ∉ l → arrow_visible a = false ∧ label_visible a = false.

Record overlay_ok (o : overlay) : Prop := OverlayOk {
  ok_distinct : NoDup (tracked o);
  ok_bound : Forall (λ i, (i < length (arrows o))%nat) (tracked o);
  ok_hidden : untracked_hidden (tracked o) (arrows o) }.

Lemma hide_all_spec o :
  overlay_ok o →
  overlay_ok (hide_all o) ∧ length (arrows (hide_all o)) = length (arrows o) ∧
  untracked_hidden [] (arrows (hide_all o)).
Proof.
  intros [Hnd Hb Hh]. unfold hide_all; simpl.
  assert (Hlen := foldl_alter_length hide (tracked o) (arrows o)).
  assert (Hall : untracked_hidden [] (foldl (λ l i, alter hide i l) (arrows o) (tracked o))).
  { intros i a. rewrite foldl_alter_lookup by done.
    destruct (arrows o !! i) as [b|] eqn:Hi; simpl; [|done]. intros [= <-] _.
    case_decide as Ht; [done|]. by apply (Hh i). }
  split_and!; [|done|done]. split; simpl; [done|by rewrite Hlen|].
  intros i a Hi _. apply (Hall i a Hi). set_solver.
Qed.

Lemma pop_snoc {A} (l : list A) x : pop (l ++ [x]) = Some (l, x).
Proof. unfold pop. by rewrite reverse_snoc, reverse_involutive. Qed.

(** The state of the loop: the two lists are disjoint, and what is visible has
    been drawn. *)
Record drawing_ok (d : drawing) : Prop := DrawingOk {
  dr_distinct : NoDup (drawn d ++ old d);
  dr_bound : Forall (λ i, (i < length (store d))%nat) (drawn d ++ old d);
  dr_hidden : untracked_hidden (drawn d) (store d) }.

(** The arrow taken is not among those left or drawn, the store keeps what it
    had, and it grows when nothing was left. *)
Lemma take_arrow_spec d :
  drawing_ok d →
  ∃ i d1, take_arrow d = (i, d1) ∧ dscene d1 = dscene d ∧ drawn d1 = drawn d ∧
    NoDup (drawn d ++ i :: old d1) ∧ Forall (λ j, (j < length (store d1))%nat) (drawn d ++ i :: old d1) ∧
    (∀ j a, store d1 !! j = Some a → j ≠ i → store d !! j = Some a) ∧
    (∀ j, j ∈ drawn d → store d1 !! j = store d !! j) ∧
    old d1 = take (length (old d) - 1) (old d) ∧
    length (store d1) = (length (store d) + (1 - length (old d)))%nat.
Proof.
  destruct d as [s st o dr]. intros [Hnd Hb Hh]; simpl in *.
  destruct o as [|i o _] using rev_ind; unfold take_arrow; simpl.
  - rewrite app_nil_r in *. eexists _, _. split; [reflexivity|]. simpl.
    rewrite length_app; simpl. split_and!; try done; try lia.
    + apply NoDup_app. split_and!; [done| |apply NoDup_singleton].
      intros j Hj. rewrite list_elem_of_singleton. intros ->.
      rewrite Forall_forall in Hb. specialize (Hb _ Hj). lia.
    + apply Forall_app. split; [|by repeat constructor; lia].
      eapply Forall_impl; [done|]. intros j Hj; simpl in *. lia.
    + intros j a Ha Hj. apply lookup_app_Some in Ha as [?|[? Ha]]; [done|].
      apply list_lookup_singleton_Some in Ha as [??]. lia.
    + intros j Hj. rewrite Forall_forall in Hb. apply lookup_app_l, Hb, Hj.
  - rewrite pop_snoc. eexists _, _. split; [reflexivity|]. simpl.
    rewrite length_app; simpl. split_and!; try done; try lia.
    + by rewrite <- (Permutation_cons_append o i) in Hnd.
    + by rewrite <- (Permutation_cons_append o i) in Hb.
    + rewrite take_app_le by lia. by rewrite take_ge by lia.
Qed.

(** Nodes that are on the canvas keep their places. *)
Definition extends (s s' : scene) : Prop :=
  ∀ i p, get_position (NodeEnd i) s = Some p → get_position (NodeEnd i) s' = Some p.

#[export] Instance extends_preorder : PreOrder extends.
Proof. split; [by intros s i p|]. intros s1 s2 s3 H1 H2 i p Hp. by apply H2, H1. Qed.

Lemma get_node_extends i s : extends s (get_node i s).
Proof.
  intros j p. unfold get_node, get_position, end_of. destruct (nodes s !! i) eqn:Hi; [done|].
  simpl. destruct (decide (i = j)) as [->|Hij]; [by rewrite Hi|].
  by rewrite lookup_insert_ne.
Qed.

Lemma get_node_position i s : is_Some (get_position (NodeEnd i) (get_node i s)).
Proof.
  unfold get_node, get_position, end_of. destruct (nodes s !! i) eqn:Hi; simpl.
  - rewrite Hi; simpl. eauto.
  - rewrite lookup_insert_eq; simpl. eauto.
Qed.

Section Iteritems.
Context {K : Type} `{Countable K, !DictOrder K, !DictOrderOk K}.

Lemma iteritems_keys (m : gmap K (Z * Z)) : (iteritems m).*1 = dict_keys m.
Proof.
  unfold iteritems. assert (Hk : ∀ k, k ∈ dict_keys m → is_Some (m !! k)).
  { intros k. by rewrite elem_of_dict_keys. }
  revert Hk. generalize (dict_keys m) as ks. induction ks as [|k ks IH]; intros Hk; [done|].
  simpl. destruct (Hk k) as [v ->]; [set_solver|]. simpl. f_equal. apply IH. set_solver.
Qed.

Lemma elem_of_iteritems (m : gmap K (Z * Z)) k v : (k, v) ∈ iteritems m → m !! k = Some v.
Proof.
  unfold iteritems. rewrite list_elem_of_bind. intros (k' & Hin & _).
  destruct (m !! k') eqn:Hk; set_solver.
Qed.

Lemma length_iteritems (m : gmap K (Z * Z)) : length (iteritems m) = base.size m.
Proof.
  rewrite <- (length_fmap fst), iteritems_keys, dict_keys_perm, length_fmap.
  apply length_map_to_list.
Qed.
End Iteritems.

Section DrawProofs.
Context {K : Type} `{Countable K, !DictOrder K, !DictOrderOk K}.
Context (nodes_for : K → scene → scene) (draw : K → Z * Z → scene → result exn arrow).
Context (nodes_extend : ∀ k s, extends s (nodes_for k s)).
Context (draw_stable : ∀ k v s s', extends (nodes_for k s) s' →
           draw k v s' = draw k v (nodes_for k s)).
Context (draw_visible : ∀ k v s a, draw k v s = Ok a → arrow_visible a = true).

Lemma draw_one_spec d k v a :
  drawing_ok d → draw k v (nodes_for k (dscene d)) = Ok a →
  ∃ i d', draw_one nodes_for draw d (k, v) = (d', None) ∧ drawing_ok d' ∧
    dscene d' = nodes_for k (dscene d) ∧ drawn d' = drawn d ++ [i] ∧
    store d' !! i = Some a ∧ (∀ j, j ∈ drawn d → store d' !! j = store d !! j) ∧
    old d' = take (length (old d) - 1) (old d) ∧
    length (store d') = (length (store d) + (1 - length (old d)))%nat.
Proof.
  intros Hd Ha. unfold draw_one; simpl.
  destruct (take_arrow_spec (Drawing (nodes_for k (dscene d)) (store d) (old d) (drawn d)))
    as (i & d1 & -> & Hs & Hdr & Hnd & Hb & Hrest & Hkeep & Hold & Hlen).
  { destruct Hd. by split. }
  simpl in *. rewrite Ha. eexists i, _. split; [reflexivity|]. simpl. rewrite Hdr.
  assert (Hi : (i < length (store d1))%nat).
  { rewrite Forall_forall in Hb. apply Hb. set_solver. }
  assert (Hni : i ∉ drawn d).
  { apply NoDup_app in Hnd as (_ & Hnd & _). intros Hin. apply (Hnd i Hin). set_solver. }
  rewrite length_insert, length_alter. split_and!; try done.
  - split; simpl; rewrite ?length_insert, ?length_alter, <- ?app_assoc; [done|done|].
    intros j b. rewrite not_elem_of_app, not_elem_of_cons.
    intros Hj (Hjd & Hji & _). rewrite list_lookup_insert_ne, list_lookup_alter_ne in Hj by done.
    apply (dr_hidden _ Hd j b); [by apply Hrest|done].
  - by rewrite list_lookup_insert_eq by (by rewrite length_alter).
  - intros j Hj. assert (i ≠ j) by (by intros <-).
    rewrite list_lookup_insert_ne, list_lookup_alter_ne by done. by apply Hkeep.
Qed.

(** The arrow [i] has been drawn for [x], whose nodes are on the scene [s]. *)
Definition drawn_for (s : scene) (st : list arrow) (x : K * (Z * Z)) (i : nat) : Prop :=
  (∃ s0, extends (nodes_for x.1 s0) s) ∧ ∃ a, draw x.1 x.2 s = Ok a ∧ st !! i = Some a.

Lemma draw_loop_spec l d :
  drawing_ok d → Forall (λ x, ∀ s, is_ok (draw x.1 x.2 s) = true) l →
  ∃ ids d', draw_loop nodes_for draw l d = (d', None) ∧ drawing_ok d' ∧
    drawn d' = drawn d ++ ids ∧ extends (dscene d) (dscene d') ∧
    Forall2 (drawn_for (dscene d') (store d')) l ids ∧
    (∀ j, j ∈ drawn d → store d' !! j = store d !! j) ∧
    old d' = take (length (old d) - length l) (old d) ∧
    length (store d') = (length (store d) + (length l - length (old d)))%nat.
Proof.
  intros Hd Hl. revert d Hd; induction Hl as [|[k v] l Hx Hl IH]; intros d Hd; simpl.
  { exists [], d. rewrite app_nil_r, take_ge by lia. split_and!; try done; simpl; lia. }
  specialize (Hx (nodes_for k (dscene d))); simpl in Hx.
  destruct (draw k v (nodes_for k (dscene d))) as [a|] eqn:Ha; [|done].
  destruct (draw_one_spec d k v a Hd Ha)
    as (i & d1 & -> & Hd1 & Hs1 & Hdr1 & Hst1 & Hkeep1 & Hold1 & Hlen1).
  destruct (IH d1 Hd1) as (ids & d' & -> & Hd' & Hdr & Hext & Hids & Hkeep & Hold & Hlen).
  exists (i :: ids), d'. rewrite Hdr1 in *. rewrite Hs1 in Hext.
  split_and!; try done.
  - by rewrite Hdr, <- app_assoc.
  - by rewrite <- Hext.
  - constructor; [|done]. split; [by eexists|]. exists a; simpl. split.
    + by rewrite (draw_stable _ _ _ _ Hext).
    + rewrite Hkeep; [done|set_solver].
  - intros j Hj. rewrite Hkeep by set_solver. by apply Hkeep1.
  - rewrite Hold, Hold1, take_take, length_take. f_equal. lia.
  - rewrite Hlen, Hlen1, Hold1, length_take. lia.
Qed.

(** When every sum can be drawn: each has an arrow of its own, every other arrow
    is hidden, and arrows are created only for the sums in excess. *)
Lemma draw_view_spec m s o :
  overlay_ok o → (∀ k v s, m !! k = Some v → is_ok (draw k v s) = true) →
  ∃ ids s' o', draw_view nodes_for draw m s o = (s', o', None) ∧ overlay_ok o' ∧
    extends s s' ∧ NoDup ids ∧ Forall2 (drawn_for s' (arrows o')) (iteritems m) ids ∧
    (∀ i a, arrows o' !! i = Some a → arrow_visible a = bool_decide (i ∈ ids)) ∧
    length (arrows o') = (length (arrows o) + (base.size m - length (tracked o)))%nat.
Proof.
  intros Ho Hm. destruct (hide_all_spec o Ho) as (Ho1 & Hlen1 & Hall).
  unfold draw_view. remember (hide_all o) as o1 eqn:Eo1.
  assert (Et : tracked o1 = tracked o) by (by subst).
  destruct (draw_loop_spec (iteritems m) (Drawing s (arrows o1) (tracked o1) []))
    as (ids & d & -> & [Hnd Hb Hh] & Hdr & Hext & Hids & _ & Hold & Hlen).
  { destruct Ho1. by split. }
  { apply Forall_forall. intros [k v] Hx s'. by eapply Hm, elem_of_iteritems. }
  simpl in *. subst ids.
  eexists (drawn d), _, _. split; [reflexivity|]. simpl.
  split_and!; try done.
  - split; simpl; [done|done|]. intros i a Hi Hn. apply (Hh i a Hi). set_solver.
  - by apply NoDup_app in Hnd as (? & _ & _).
  - intros i a Hi. case_bool_decide as Hin; [|by apply (Hh i a Hi)].
    apply list_elem_of_lookup in Hin as [j Hj].
    destruct (Forall2_lookup_r _ _ _ _ _ Hids Hj) as (x & _ & _ & b & Hb' & Hib).
    simplify_eq. by eapply draw_visible.
  - by rewrite Hlen, Hlen1, length_iteritems, Et.
Qed.

(** An exception leaves an arrow on the screen that is no longer tracked. *)
Lemma failed_draw_leaks l d d' e :
  drawing_ok d → draw_loop nodes_for draw l d = (d', Some e) →
  ∃ i a, store d' !! i = Some a ∧ arrow_visible a = true ∧ i ∉ old d'.
Proof.
  revert d; induction l as [|[k v] l IH]; intros d Hd; simpl; [done|].
  destruct (draw k v (nodes_for k (dscene d))) as [a|e'] eqn:Ha.
  - destruct (draw_one_spec d k v a Hd Ha) as (i & d1 & -> & Hd1 & _). by apply IH.
  - unfold draw_one; simpl.
    destruct (take_arrow_spec (Drawing (nodes_for k (dscene d)) (store d) (old d) (drawn d)))
      as (i & d1 & -> & _ & _ & Hnd & Hb & _). { destruct Hd. by split. }
    simpl in *. rewrite Ha. intros [= <- <-]; simpl.
    assert (Hi : (i < length (store d1))%nat).
    { rewrite Forall_forall in Hb. apply Hb. set_solver. }
    apply lookup_lt_is_Some in Hi as [b Hi]. exists i, (show b).
    rewrite list_lookup_alter_eq, Hi. split_and!; [done..|].
    apply NoDup_app in Hnd as (_ & _ & Hnd). by apply NoDup_cons in Hnd as [? _].
Qed.
End DrawProofs.

Lemma position_of_extends i s s' :
  is_Some (get_position (NodeEnd i) s) → extends s s' → position_of i s' = position_of i s.
Proof. intros [p Hp] Hext. unfold position_of. by rewrite Hp, (Hext _ _ Hp). Qed.

(** Every sum of [m] is of at least one byte. *)
Definition positive_sums {K} `{Countable K} (m : gmap K (Z * Z)) : Prop :=
  map_Forall (λ _ v, (0 < v.1)%Z ∧ (0 < v.2)%Z) m.

Section ViewProofs.
Context (log : Q → Q) (atan2 : Q → Q → Q) (PI_OVER_2 : Q).
Context (LineClipping : point → point → point → point → point * point).
Context (node_size sample_period : Q).
Context (from_pixels : point → point) (hadj vadj : Q) (page : point).

Abbreviation width_of := (line_width_of log node_size sample_period).
Abbreviation draw_flow := (draw_transmission log atan2 PI_OVER_2 LineClipping node_size
  sample_period from_pixels hadj vadj page).
Abbreviation label_for := (transmission_label atan2 PI_OVER_2 LineClipping node_size
  from_pixels hadj vadj page).
Abbreviation draw_dropped := (draw_drop log node_size sample_period from_pixels vadj page).

Lemma line_width_ok b c :
  0 < sample_period → (0 < b)%Z → (0 < c)%Z → ∃ w, width_of b c = Ok w ∧ (1 # 10) <= w.
Proof.
  intros Hp Hb Hc. unfold line_width_of, float_div.
  destruct (is_zero sample_period) eqn:Hz; [apply is_zero_spec in Hz; lra|]. simpl.
  unfold math_log. assert (Hr : 0 < inject_Z b / inject_Z c / sample_period).
  { apply Qlt_shift_div_l; [done|]. rewrite Qmult_0_l. apply Qlt_shift_div_l.
    - change 0 with (inject_Z 0). by rewrite <- Zlt_Qlt.
    - rewrite Qmult_0_l. change 0 with (inject_Z 0). by rewrite <- Zlt_Qlt. }
  qcase; [lra|]. simpl. eexists. split; [reflexivity|]. apply qmax_spec.
Qed.

(** What the arrow of a flow shows on the scene [s]. *)
Definition shows_flow (s : scene) (x : Z * Z * (Z * Z)) (a : arrow) : Prop :=
  ∃ p q w, get_position (NodeEnd x.1.1) s = Some p ∧ get_position (NodeEnd x.1.2) s = Some q ∧
    width_of x.2.1 x.2.2 = Ok w ∧ (1 # 10) <= w ∧
    a = Arrow true w (Some (p, q)) true
          (Some (label_for w (kbps_of sample_period x.2.1 x.2.2) p q)).

Definition shows_drop (s : scene) (x : Z * (Z * Z)) (a : arrow) : Prop :=
  ∃ p w, get_position (NodeEnd x.1) s = Some p ∧ width_of x.2.1 x.2.2 = Ok w ∧
    (1 # 10) <= w ∧ arrow_visible a = true ∧ label_visible a = true ∧ arrow_width a = w ∧
    arrow_points a = Some (p, (p.1, edge_y from_pixels vadj page)) ∧
    text <$> arrow_label a = Some (Plain (kbps_of sample_period x.2.1 x.2.2)).

Lemma transmission_nodes_position k s :
  is_Some (get_position (NodeEnd k.1) (transmission_nodes k s)) ∧
  is_Some (get_position (NodeEnd k.2) (transmission_nodes k s)).
Proof.
  unfold transmission_nodes. split; [|apply get_node_position].
  destruct (get_node_position k.1 s) as [p Hp]. exists p. by apply get_node_extends.
Qed.

Lemma transmission_nodes_extends k s : extends s (transmission_nodes k s).
Proof. unfold transmission_nodes. by rewrite <- !get_node_extends. Qed.

Lemma draw_flow_stable k v s s' :
  extends (transmission_nodes k s) s' → draw_flow k v s' = draw_flow k v (transmission_nodes k s).
Proof.
  intros Hext. unfold draw_transmission. destruct (width_of v.1 v.2); simpl; [|done].
  destruct (transmission_nodes_position k s) as [H1 H2].
  by rewrite (position_of_extends _ _ _ H1 Hext), (position_of_extends _ _ _ H2 Hext).
Qed.

Lemma draw_flow_visible k v s a : draw_flow k v s = Ok a → arrow_visible a = true.
Proof. unfold draw_transmission. intros H. res_inv. by simplify_eq. Qed.

Lemma draw_dropped_stable k v s s' :
  extends (get_node k s) s' → draw_dropped k v s' = draw_dropped k v (get_node k s).
Proof.
  intros Hext. unfold draw_drop. destruct (width_of v.1 v.2); simpl; [|done].
  by rewrite (position_of_extends _ _ _ (get_node_position k s) Hext).
Qed.

Lemma draw_dropped_visible k v s a : draw_dropped k v s = Ok a → arrow_visible a = true.
Proof. unfold draw_drop. intros H. res_inv. by simplify_eq. Qed.

Lemma draw_ok_when_positive {K} `{Countable K} (m : gmap K (Z * Z)) k v
    (f : Q → result exn arrow) :
  0 < sample_period → positive_sums m → m !! k = Some v → (∀ w, is_ok (f w) = true) →
  is_ok (width_of v.1 v.2 ≫= f) = true.
Proof.
  intros Hp Hm Hk Hf. destruct (Hm _ _ Hk) as [Hb Hc].
  destruct (line_width_ok _ _ Hp Hb Hc) as (w & -> & _). apply Hf.
Qed.

Lemma drawn_flow s st x i :
  (0 < x.2.1)%Z ∧ (0 < x.2.2)%Z → 0 < sample_period →
  drawn_for transmission_nodes draw_flow s st x i → ∃ a, st !! i = Some a ∧ shows_flow s x a.
Proof.
  intros [Hb Hc] Hp ((s0 & Hext) & a & Ha & Hi). exists a. split; [done|].
  destruct (line_width_ok _ _ Hp Hb Hc) as (w & Hw & Hmin).
  destruct (transmission_nodes_position x.1 s0) as [[p Hpos] [q Hq]].
  apply Hext in Hpos, Hq. exists p, q, w. unfold draw_transmission, position_of in Ha.
  rewrite Hw, Hpos, Hq in Ha. simpl in Ha. split_and!; try done. by simplify_eq.
Qed.

Lemma drawn_drop s st x i :
  (0 < x.2.1)%Z ∧ (0 < x.2.2)%Z → 0 < sample_period →
  drawn_for get_node draw_dropped s st x i → ∃ a, st !! i = Some a ∧ shows_drop s x a.
Proof.
  intros [Hb Hc] Hp ((s0 & Hext) & a & Ha & Hi). exists a. split; [done|].
  destruct (line_width_ok _ _ Hp Hb Hc) as (w & Hw & Hmin).
  destruct (get_node_position x.1 s0) as [p Hpos]. apply Hext in Hpos.
  exists p, w. unfold draw_drop, position_of in Ha.
  rewrite Hw, Hpos in Ha. simpl in Ha. simplify_eq. by split_and!.
Qed.

(** C8: When no transmission of the window was broadcast and those of every
    pair of nodes carry bytes, the update raises no exception and afterwards
    the visible arrows are one per pair of nodes
    with traffic: it joins the present positions of the two nodes, its width
    is at least 0.1 and follows the logarithm of the average rate, its label
    gives that rate.  Every other arrow is hidden, no arrow is used twice or
    forgotten, and arrows are created only when there are more pairs than
    arrows.  Nodes already on the canvas do not move.  With a broadcast in the
    window, whose receiver is missing, the update raises AttributeError before
    it touches an arrow or a node. *)
Theorem arrows_show_transmissions `{!DictOrder (Z * Z), !DictOrderOk (Z * Z)} w s o :
  0 < sample_period → overlay_ok o →
  (∀ m, transmissions_average (last_transmissions w) = Ok m → positive_sums m) →
  let update := update_transmissions_view log atan2 PI_OVER_2 LineClipping node_size
      sample_period from_pixels hadj vadj page w s o in
  if decide (addressed (last_transmissions w)) then
    ∃ m ids s' o', transmissions_average (last_transmissions w) = Ok m ∧
      update = (s', o', None) ∧
      (∀ t r, m !! (t, r) = summary (flow_bytes t r (last_transmissions w))) ∧
      (iteritems m).*1 = dict_keys m ∧ NoDup ids ∧
      Forall2 (λ x i, ∃ a, arrows o' !! i = Some a ∧ shows_flow s' x a) (iteritems m) ids ∧
      (∀ i a, arrows o' !! i = Some a → arrow_visible a = bool_decide (i ∈ ids)) ∧
      overlay_ok o' ∧ extends s s' ∧
      length (arrows o') = (length (arrows o) + (base.size m - length (tracked o)))%nat
  else update = (s, o, Some AttributeError).
Proof.
  intros Hp Ho Hpos update. unfold update, update_transmissions_view.
  pose proof (transmissions_average_spec (last_transmissions w)) as Hm.
  case_decide as Ha; [|by rewrite Hm].
  set (m := foldl _ _ _) in Hm. specialize (Hpos _ Hm). rewrite Hm.
  destruct (draw_view_spec transmission_nodes draw_flow transmission_nodes_extends
    draw_flow_stable draw_flow_visible m s o Ho) as
    (ids & s' & o' & Hrun & Ho' & Hext & Hnd & Hids & Hvis & Hlen).
  { intros k v s0 Hk. by eapply draw_ok_when_positive. }
  exists m, ids, s', o'. split_and!; try done; [|apply iteritems_keys|].
  { intros t r. by apply transmissions_average_sums. }
  eapply Forall2_impl_in; [done|]. intros [k v] i Hx _. apply drawn_flow; [|done].
  by apply (Hpos k), elem_of_iteritems.
Qed.

(** The same for dropped packets, whose arrows point at the lower edge. *)
Lemma arrows_show_drops `{!DictOrder Z, !DictOrderOk Z} w s o :
  0 < sample_period → overlay_ok o → positive_sums (drops_average (last_drops w)) →
  let m := drops_average (last_drops w) in
  ∃ ids s' o', update_drops_view log node_size sample_period from_pixels vadj page w s o
      = (s', o', None) ∧
    (iteritems m).*1 = dict_keys m ∧ NoDup ids ∧
    Forall2 (λ x i, ∃ a, arrows o' !! i = Some a ∧ shows_drop s' x a) (iteritems m) ids ∧
    (∀ i a, arrows o' !! i = Some a → arrow_visible a = bool_decide (i ∈ ids)) ∧
    overlay_ok o' ∧ extends s s' ∧
    length (arrows o') = (length (arrows o) + (base.size m - length (tracked o)))%nat.
Proof.
  intros Hp Ho Hm m.
  destruct (draw_view_spec get_node draw_dropped get_node_extends
    draw_dropped_stable draw_dropped_visible m s o Ho) as
    (ids & s' & o' & Hrun & Ho' & Hext & Hnd & Hids & Hvis & Hlen).
  { intros k v s0 Hk. by eapply draw_ok_when_positive. }
  exists ids, s', o'. split_and!; try done; [apply iteritems_keys|].
  eapply Forall2_impl_in; [done|]. intros [k v] i Hx _. apply drawn_drop; [|done].
  by apply (Hm k), elem_of_iteritems.
Qed.

(** The label of a flow reads from left to right. *)
Lemma label_reads_right (atan2_right : ∀ y x,
    (- PI_OVER_2 <= atan2 y x ∧ atan2 y x <= PI_OVER_2) ↔ 0 <= x) w r p q :
  text (label_for w r p q) = if qle p.1 q.1 then Rightwards r else Leftwards r.
Proof.
  unfold transmission_label. specialize (atan2_right (q.2 - p.2) (q.1 - p.1)).
  pose proof (qle_spec p.1 q.1) as Hq. destruct (qle p.1 q.1);
    destruct (qle (- PI_OVER_2) _ && qle _ PI_OVER_2) eqn:Ha; try done; exfalso.
  - assert (0 <= q.1 - p.1) as H%atan2_right by lra. rewrite <- !qle_iff in H.
    destruct H as [H1 H2]. by rewrite H1, H2 in Ha.
  - apply andb_true_iff in Ha. rewrite !qle_iff in Ha. apply atan2_right in Ha. lra.
Qed.

(** A sum without bytes stops the update: the arrow is visible, and no list of
    the visualizer has it any more. *)
Lemma failed_update_leaks `{!DictOrder (Z * Z), !DictOrderOk (Z * Z)} w s o s' o' e :
  overlay_ok o → addressed (last_transmissions w) →
  update_transmissions_view log atan2 PI_OVER_2 LineClipping node_size
    sample_period from_pixels hadj vadj page w s o = (s', o', Some e) →
  ¬ untracked_hidden (tracked o') (arrows o').
Proof.
  intros Ho Ha. destruct (hide_all_spec o Ho) as ([Hnd Hb _] & _ & Hall).
  unfold update_transmissions_view. rewrite transmissions_average_spec, decide_True by done.
  unfold draw_view. case_match eqn:Hd. simpl.
  intros [= <- <- ->] Hh.
  destruct (failed_draw_leaks transmission_nodes draw_flow transmission_nodes_extends
    draw_flow_stable draw_flow_visible _ (Drawing s (arrows (hide_all o)) (tracked (hide_all o)) [])
    _ _ ltac:(by split) Hd) as (i & a & Hi & Hv & Hn).
  destruct (Hh i a) as [Hf _]; simpl in *; [done..|]. by rewrite Hf in Hv.
Qed.
End ViewProofs.

(** ** Two nodes talking *)
Definition example_windows (receiver : option Z) (bytes : Z) : windows :=
  Windows [[Transmission 0 receiver bytes]; [Transmission 1 (Some 0%Z) 80]] [].

Definition example_update (receiver : option Z) (bytes : Z) (o : overlay) :
    scene * overlay * option exn :=
  @update_transmissions_view (λ x, x) (λ _ x, if qle 0 x then 0 else 3) 2 (λ _ _ p q, (p, q)) 3
    (1 # 10) (λ p, p) 0 0 (600, 450) (@tree_order (Z * Z) _ _) (example_windows receiver bytes)
    empty_scene o.

Definition example_overlay : overlay := Overlay [hide new_arrow] [0%nat].

Lemma example_overlay_ok : overlay_ok example_overlay.
Proof.
  split; simpl; [apply NoDup_singleton|by repeat constructor|].
  intros [|i] a Hi Hn; [|done]. exfalso. apply Hn. set_solver.
Qed.

Lemma arrows_show_transmissions_witness :
  overlay_ok example_overlay ∧
  (∃ ids s' o', example_update (Some 1%Z) 100 example_overlay = (s', o', None) ∧ NoDup ids ∧
    (∀ i a, arrows o' !! i = Some a → arrow_visible a = bool_decide (i ∈ ids)) ∧
    length (arrows o') = 2%nat) ∧
  example_update None 100 example_overlay = (empty_scene, example_overlay, Some AttributeError).
Proof.
  pose proof (λ rc, @arrows_show_transmissions (λ x, x) (λ _ x, if qle 0 x then 0 else 3) 2
    (λ _ _ p q, (p, q)) 3 (1 # 10) (λ p, p) 0 0 (600, 450) (@tree_order (Z * Z) _ _)
    tree_order_ok (example_windows rc 100) empty_scene example_overlay ltac:(by vm_compute)
    example_overlay_ok) as H.
  split_and!; [apply example_overlay_ok| |].
  - destruct (H (Some 1%Z)) as (m & ids & s' & o' & Hm & Hrun & _ & _ & Hnd & _ & Hvis & _ & _
      & Hlen).
    + intros m [= <-]. by apply (bool_decide_unpack _); vm_compute.
    + exists ids, s', o'. split_and!; [exact Hrun|done|done|]. rewrite Hlen.
      injection Hm as <-. vm_compute. done.
  - apply (H None). intros m. done.
Defined.

Lemma zero_bytes_leaves_arrow :
  let '(_, o', e) := example_update (Some 1%Z) 0 example_overlay in
  e = Some (ValueError "math domain error") ∧ ¬ untracked_hidden (tracked o') (arrows o').
Proof.
  pose proof (failed_update_leaks (DictOrder0 := @tree_order (Z * Z) _ _)
    (DictOrderOk0 := tree_order_ok) (λ x, x) (λ _ x, if qle 0 x then 0 else 3) 2
    (λ _ _ p q, (p, q)) 3 (1 # 10) (λ p, p) 0 0 (600, 450) (example_windows (Some 1%Z) 0)
    empty_scene example_overlay) as Hleak.
  unfold example_update. destruct (update_transmissions_view _ _ _ _ _ _ _ _ _ _ _ _ _)
    as [[s' o'] e] eqn:Hrun.
  assert (e = Some (ValueError "math domain error")) as ->.
  { change e with (s', o', e).2. rewrite <- Hrun. vm_compute. reflexivity. }
  split; [done|]. eapply Hleak; [apply example_overlay_ok| |done].
  by repeat constructor.
Qed.
