(* ===== verification/Topology.v ===== *)
(** * From the simulated network to the canvas

    [Visualizer.scan_topology] (lines 745-818), [_update_node_positions]
    (861-875, without the scrolling), and the monitor of wireless links of
    [plugins/wifi_intrastructure_link.py].

    The network of ns-3 objects is a parameter: its nodes in the order of
    [NodeList], each with the position of its mobility model if it has one and
    its devices, and for a channel, named by its identity, the nodes of its
    devices.  Graphviz is the function from the names in the graph to the
    coordinates of their [pos] attributes. *)

From S2P Require Import Prelude PyStr Markup Patch Rat VizBase Scene.
From Stdlib Require Import Ascii.

Local Open Scope Q_scope.

(** ** The network *)
(** [GetChannel] returns nothing for a device that is not connected. *)
Record ns3_device := Device { dev_type : string; dev_channel : option Z }.
Record ns3_node := Ns3Node { mobility : option point; devices : list ns3_device }.

Record network := Network {
  node_list : list ns3_node;
  channel_nodes : Z → list Z }.       (** [GetDevice(i).GetNode().GetId()] *)

Definition get_mobility (net : network) (i : Z) : option point :=
  n ← node_list net !! Z.to_nat i; mobility n.

Definition mobile (net : network) (i : Z) : bool := bool_decide (get_mobility net i ≠ None).

(** ** The graph handed to Graphviz *)
Record graph := Graph { gnames : list string; gedges : list (string * string) }.

Definition add_node (n : string) (g : graph) : graph :=
  Graph (if bool_decide (n ∈ gnames g) then gnames g else gnames g ++ [n]) (gedges g).

Definition add_edge (a b : string) (g : graph) : graph :=
  let g' := add_node b (add_node a g) in Graph (gnames g') (gedges g' ++ [(a, b)]).

Definition name_of (e : endpoint) : string :=
  match e with
  | NodeEnd i => "Node " +:+ pretty i
  | ChannelEnd c => "Channel " +:+ pretty c
  end.

(** [int(s)] on decimal digits with an optional sign. *)
Definition int_of (s : string) : result exn Z :=
  let '(neg, d) := match s with
                   | String "-"%char r => (true, r)
                   | _ => (false, s)
                   end in
  match match_int d with
  | Some (n, "") => Ok (if neg : bool then - Z.of_N n else Z.of_N n)%Z
  | _ => Raise (ValueError "invalid literal for int()")
  end.

(** ** The scan *)
Record scan_state := ScanState {
  sc : scene;
  gr : graph;
  tbl : gmap string traits }.

Definition with_scene (f : scene → scene) (st : scan_state) : scan_state :=
  ScanState (f (sc st)) (gr st) (tbl st).
Definition with_graph (f : graph → graph) (st : scan_state) : scan_state :=
  ScanState (sc st) (f (gr st)) (tbl st).

Definition REPRESENT_CHANNELS_AS_NODES : bool := true.

Section Scan.
Context (net : network).

(** The loop over the other devices of a channel. *)
Definition link_other (nodeI : Z) (st : scan_state) (other : Z) : scan_state :=
  let st1 := with_scene (get_node other) st in
  if bool_decide (other = nodeI) then st1
  else
    let '(st2, both) :=
      if mobile net nodeI then (st1, false)
      else let '(b, s') := has_mobility (mobile net) other (sc st1) in
           (with_scene (λ _, s') st1, negb b) in
    let st3 := if both : bool
               then with_graph (add_edge (name_of (NodeEnd nodeI)) (name_of (NodeEnd other))) st2
               else st2 in
    with_scene (create_link nodeI (NodeEnd other)) st3.

Definition link_others (nodeI c : Z) (st : scan_state) : scan_state :=
  foldl (link_other nodeI) st (channel_nodes net c).

(** A channel of more than two devices. *)
Definition link_channel (nodeI c : Z) (st : scan_state) : scan_state :=
  let st1 := if mobile net nodeI then st
             else with_graph (add_edge (name_of (NodeEnd nodeI)) (name_of (ChannelEnd c))) st in
  with_scene (λ s, create_link nodeI (ChannelEnd c) (get_channel c s)) st1.

Definition scan_device (nodeI : Z) (st : scan_state) (d : ns3_device) : result exn scan_state :=
  '(t, tbl', _) ← lookup_netdevice_traits (tbl st) (dev_type d);
  let st := ScanState (sc st) (gr st) tbl' in
  if bool_decide (is_wireless t = Some true) then Ok st
  else if is_virtual t then Ok st
  else
    (* [channel.GetNDevices()], also when there is no channel *)
    c ← of_option AttributeError (dev_channel d);
    if bool_decide (2 < length (channel_nodes net c))%nat then
      Ok (if REPRESENT_CHANNELS_AS_NODES then link_channel nodeI c st
          else link_others nodeI c st)
    else Ok (link_others nodeI c st).

Definition scan_node (st : scan_state) (x : nat * ns3_node) : result exn scan_state :=
  let '(k, n) := x in
  let nodeI := Z.of_nat k in
  let st1 := with_scene (get_node nodeI) st in
  let st2 := match mobility n with
             | Some p => with_scene (λ s,
                 set_position (NodeEnd nodeI) (transform_point_simulation_to_canvas p)
                   (set_color (inr (0xffff, 0, 0)%Z) nodeI s)) st1
             | None => with_graph (add_node (name_of (NodeEnd nodeI))) st1
             end in
  fold_res (scan_device nodeI) st2 (devices n).

(** [self.nodes[int(node_id)]], [self.channels[int(node_id)]]. *)
Definition find_object (s : scene) (node_type node_id : string) (obj : option endpoint) :
    result exn endpoint :=
  if bool_decide (node_type = "Node") then
    i ← int_of node_id;
    match nodes s !! i with Some _ => Ok (NodeEnd i) | None => Raise KeyError end
  else if bool_decide (node_type = "Channel") then
    c ← int_of node_id;
    match channels s !! c with Some _ => Ok (ChannelEnd c) | None => Raise KeyError end
  else of_option UnboundLocalError obj.

(** Placing a node of the graph where Graphviz put it.  [obj] is the variable
    of that name, which a name of another form would leave as it is. *)
Definition place (pos : string → list Q) (s : scene * option endpoint) (name : string) :
    result exn (scene * option endpoint) :=
  match PyStr.split " "%char name, pos name with
  | [node_type; node_id], [x; y] =>
      obj ← find_object s.1 node_type node_id s.2;
      Ok (set_position obj (x, y) s.1, Some obj)
  | _, _ => Raise (ValueError "unpack")
  end.

Definition scan_topology (layout : graph → string → list Q) (st : scan_state) :
    result exn scan_state :=
  st' ← fold_res scan_node st (imap (λ k n, (k, n)) (node_list net));
  '(s', _) ← fold_res (place (layout (gr st'))) (sc st', None) (gnames (gr st'));
  Ok (ScanState s' (gr st') (tbl st')).

Definition initial_scan : scan_state := ScanState empty_scene (Graph [] []) netdevice_traits.

(** [_update_node_positions]: the mobile nodes follow their models. *)
Definition follow_mobility (s : scene) (i : Z) : scene :=
  let '(b, s') := has_mobility (mobile net) i s in
  if b : bool then
    match get_mobility net i with
    | Some p => set_position (NodeEnd i) (transform_point_simulation_to_canvas p) s'
    | None => s'
    end
  else s'.

Definition update_node_positions `{!DictOrder Z} (s : scene) : scene :=
  foldl follow_mobility s (dict_keys (nodes s)).
End Scan.

(** ** Names *)
Lemma pretty_nonneg z : (0 ≤ z)%Z → pretty z = pretty (Z.to_N z).
Proof. by destruct z. Qed.

Lemma int_of_digits d n : match_int d = Some (n, "") → int_of d = Ok (Z.of_N n).
Proof.
  intros H. unfold int_of. destruct d as [|c s]; [done|].
  by destruct c as [[] [] [] [] [] [] [] []]; rewrite ?H.
Qed.

Lemma int_of_pretty z : (0 ≤ z)%Z → int_of (pretty z) = Ok z.
Proof.
  intros Hz. rewrite (pretty_nonneg z Hz), <- (app_empty_r (pretty _)).
  rewrite (int_of_digits _ (Z.to_N z)); [by rewrite Z2N.id|]. by apply match_int_pretty.
Qed.

Lemma not_numeric_space : not_numeric " "%char.
Proof. split; [done|]. intros n. unfold pretty_N_char. by repeat case_match. Qed.

Definition kind_of (e : endpoint) : string :=
  match e with NodeEnd _ => "Node" | ChannelEnd _ => "Channel" end.
Definition number_of (e : endpoint) : Z := match e with NodeEnd i | ChannelEnd i => i end.

Lemma split_name e : PyStr.split " "%char (name_of e) = [kind_of e; pretty (number_of e)].
Proof.
  assert (PyStr.split " "%char (pretty (number_of e)) = [pretty (number_of e)]) as Hn.
  { apply split_no_sep, pretty_Z_plain, not_numeric_space. }
  assert (name_of e = kind_of e +:+ String " "%char (pretty (number_of e))) as -> by (by destruct e).
  rewrite split_app by (by destruct e). by rewrite Hn.
Qed.

Lemma name_of_inj e1 e2 :
  (0 ≤ number_of e1)%Z → (0 ≤ number_of e2)%Z → name_of e1 = name_of e2 → e1 = e2.
Proof.
  intros H1 H2 Hn. pose proof (split_name e1) as S1. pose proof (split_name e2) as S2.
  rewrite Hn, S2 in S1. injection S1 as Hk Hp.
  assert (number_of e1 = number_of e2) as Heq.
  { pose proof (int_of_pretty _ H1) as I1. pose proof (int_of_pretty _ H2) as I2.
    rewrite <- Hp in I1. congruence. }
  destruct e1, e2; simpl in *; congruence.
Qed.

Lemma find_object_name s e obj :
  (0 ≤ number_of e)%Z → is_Some (end_of e s) →
  find_object s (kind_of e) (pretty (number_of e)) obj = Ok e.
Proof.
  intros Hn [x He]. unfold find_object. destruct e as [i|c]; simpl in *.
  - rewrite int_of_pretty by done. simpl. by destruct (nodes s !! i).
  - rewrite int_of_pretty by done. simpl. by destruct (channels s !! c).
Qed.

(** ** What the scan keeps *)
Definition wire : Type := Z * endpoint.

Definition wire_of (l : link) : list wire :=
  match l with Wired n1 n2 _ => [(n1, n2)] | Wifi _ _ _ _ => [] end.

(** The wired links in order of creation. *)
Definition wires (s : scene) : list wire := links s ≫= wire_of.

Lemma wires_pointwise s s' :
  (∀ j, wire_of <$> links s' !! j = wire_of <$> links s !! j) → wires s' = wires s.
Proof.
  intros H. unfold wires.
  assert (wire_of <$> links s' = wire_of <$> links s) as He.
  { apply list_eq. intros j. rewrite !list_lookup_fmap. apply H. }
  assert (∀ l, l ≫= wire_of = concat (wire_of <$> l)) as Hc.
  { induction l as [|k l IH]; [done|]. cbn. by rewrite <- IH. }
  by rewrite !Hc, He.
Qed.

Lemma wire_of_refresh s k : wire_of (refresh s k) = wire_of k.
Proof. by destruct k as [|[] []]. Qed.

Lemma wires_set_position e p s : wires (set_position e p s) = wires s.
Proof.
  destruct (end_of e s) as [[p0 ls]|] eqn:He; [|unfold set_position; by rewrite He].
  destruct (set_position_spec e p p0 ls s He) as (_ & _ & Hl).
  apply wires_pointwise. intros j. rewrite Hl. destruct (links s !! j) as [k|]; [|done]. simpl.
  case_decide; [by rewrite wire_of_refresh|done].
Qed.

Lemma position_set_position e p e' s :
  e' ≠ e → get_position e' (set_position e p s) = get_position e' s.
Proof.
  intros Hne. destruct (end_of e s) as [[p0 ls]|] eqn:He; [|unfold set_position; by rewrite He].
  destruct (set_position_spec e p p0 ls s He) as (Hend & _).
  unfold get_position. by rewrite Hend, decide_False.
Qed.

Lemma position_set_position_eq e p s :
  is_Some (end_of e s) → get_position e (set_position e p s) = Some p.
Proof.
  intros [[p0 ls] He]. destruct (set_position_spec e p p0 ls s He) as (Hend & _).
  unfold get_position. by rewrite Hend, decide_True.
Qed.

Lemma end_node_is_Some i s : is_Some (end_of (NodeEnd i) s) → is_Some (nodes s !! i).
Proof. unfold end_of. intros [x Hx]. destruct (nodes s !! i); [done|discriminate]. Qed.

Lemma is_Some_position e s : is_Some (end_of e s) ↔ is_Some (get_position e s).
Proof. unfold get_position. by rewrite fmap_is_Some. Qed.

Lemma is_Some_set_position e p e' s :
  is_Some (end_of e' s) → is_Some (end_of e' (set_position e p s)).
Proof.
  rewrite !is_Some_position. destruct (decide (e' = e)) as [->|Hne].
  - intros Hs. rewrite position_set_position_eq; [done|by apply is_Some_position].
  - by rewrite position_set_position.
Qed.

(** Remembered answers of [has_mobility]. *)
Definition cache (i : Z) (s : scene) : option (option bool) := has_mobility_cache <$> nodes s !! i.

Lemma cache_alter f i j s :
  (∀ n, has_mobility_cache (f n) = has_mobility_cache n) →
  cache j (alter_node f i s) = cache j s.
Proof.
  intros Hf. unfold cache, alter_node. simpl. destruct (decide (i = j)) as [<-|Hne].
  - rewrite lookup_alter_eq. destruct (nodes s !! i); [|done]. simpl. by rewrite Hf.
  - by rewrite lookup_alter_ne.
Qed.

Lemma cache_set_position e p j s : cache j (set_position e p s) = cache j s.
Proof.
  destruct e as [i|c].
  - unfold cache. rewrite set_position_nodes. apply (cache_alter (moved p) i j s). done.
  - unfold cache, set_position. destruct (end_of (ChannelEnd c) s) as [[]|]; [|done].
    by rewrite update_all_points_nodes.
Qed.

(** Setting an attribute: nothing but the look of one node changes. *)
Record looks_only (s s' : scene) : Prop := LooksOnly {
  lo_position : ∀ e, get_position e s' = get_position e s;
  lo_wires : wires s' = wires s;
  lo_cache : ∀ j, cache j s' = cache j s;
  lo_ok : scene_ok s → scene_ok s' }.

Lemma set_color_looks c i s : looks_only s (set_color c i s).
Proof.
  unfold set_color. set (f := assign_color _). set (s1 := alter_node f i s).
  assert (∀ g, (∀ n, center (g n) = center n ∧ nlinks (g n) = nlinks n) → ∀ s e,
    get_position e (alter_node g i s) = get_position e s) as Hg.
  { intros g Hg s0 e. unfold get_position. rewrite end_of_alter_node. case_decide; [|done].
    subst. unfold end_of. destruct (nodes s0 !! i) as [n|]; [|done]. simpl. by rewrite (proj1 (Hg n)). }
  assert (looks_only s (alter_node appearance i s1)) as Hl2.
  { split; [|done| |].
    - intros e. unfold s1. by rewrite !Hg.
    - intros j. unfold s1. by rewrite !cache_alter.
    - intros Hs. unfold s1.
      eapply same_ends_ok; [by apply same_ends_alter|done|].
      by eapply same_ends_ok; [apply same_ends_alter|..]. }
  unfold update_appearance. destruct (nodes s1 !! i) as [n|] eqn:Hn.
  - destruct (label n); [|done]. destruct Hl2 as [P W C O]. split.
    + intros e. destruct (decide (e = NodeEnd i)) as [->|Hne].
      * rewrite position_set_position_eq.
        -- unfold s1 in Hn. unfold get_position, end_of. unfold alter_node in Hn. simpl in Hn.
           rewrite lookup_alter_eq in Hn. destruct (nodes s !! i) as [n0|]; [|done]. simpl in *.
           by simplify_eq.
        -- apply is_Some_end_node, lookup_alter_is_Some. by rewrite Hn.
      * by rewrite position_set_position.
    + by rewrite wires_set_position.
    + intros j. by rewrite cache_set_position.
    + intros Hs. by apply set_position_ok, O.
  - split; [|done| |].
    + intros e. unfold s1. by rewrite Hg.
    + intros j. unfold s1. by rewrite cache_alter.
    + intros Hs. unfold s1. by eapply same_ends_ok; [apply same_ends_alter|..].
Qed.

(** ** The invariant of the scan *)
Section ScanProofs.
Context (net : network).

(** What may be in the graph: nodes without mobility, and channels. *)
Definition in_graph (e : endpoint) : Prop :=
  (0 ≤ number_of e)%Z ∧ match e with NodeEnd i => mobile net i = false | ChannelEnd _ => True end.

Definition graph_ok (st : scan_state) : Prop :=
  ∃ es, gnames (gr st) = name_of <$> es ∧ NoDup es ∧
    ∀ e, e ∈ es → in_graph e ∧ is_Some (end_of e (sc st)).

Record scan_ok (st : scan_state) : Prop := ScanOk {
  so_scene : scene_ok (sc st);
  so_cache : ∀ i b, cache i (sc st) = Some (Some b) → b = mobile net i;
  so_graph : graph_ok st }.

(** A step that creates the links [ws] and moves at most [x]. *)
Record grows (x : option endpoint) (ws : list wire) (st st' : scan_state) : Prop := Grows {
  gr_ok : scan_ok st';
  gr_some : ∀ e, is_Some (end_of e (sc st)) → is_Some (end_of e (sc st'));
  gr_pos : ∀ e p, x ≠ Some e → get_position e (sc st) = Some p → get_position e (sc st') = Some p;
  gr_names : gnames (gr st) ⊆ gnames (gr st');
  gr_wires : wires (sc st') = (wires (sc st) ++ ws)%list }.

Lemma grows_refl x st : scan_ok st → grows x [] st st.
Proof. intros H. split; [done..|]. by rewrite app_nil_r. Qed.

Lemma grows_trans x y ws1 ws2 a b c :
  (x = y ∨ x = None) → grows x ws1 a b → grows y ws2 b c → grows y (ws1 ++ ws2) a c.
Proof.
  intros Hx [_ S1 P1 N1 W1] [O2 S2 P2 N2 W2]. split; [done|by auto| |set_solver|].
  - intros e p Hy Hp. apply P2, P1; [done| |done]. by destruct Hx as [->| ->].
  - by rewrite W2, W1, app_assoc.
Qed.

(** A step on the scene alone. *)
Lemma grows_scene x ws f st :
  scan_ok st →
  scene_ok (f (sc st)) →
  (∀ e, is_Some (end_of e (sc st)) → is_Some (end_of e (f (sc st)))) →
  (∀ e p, x ≠ Some e → get_position e (sc st) = Some p → get_position e (f (sc st)) = Some p) →
  (∀ i b, cache i (f (sc st)) = Some (Some b) → cache i (sc st) = Some (Some b) ∨ b = mobile net i) →
  wires (f (sc st)) = (wires (sc st) ++ ws)%list →
  grows x ws st (with_scene f st).
Proof.
  intros [Hs Hc (es & Hn & Hd & He)] Ho Hsome Hpos Hca Hw. split; [|done..].
  split; [done| |].
  - intros i b Hb. destruct (Hca _ _ Hb) as [Hb'| ->]; [by eapply Hc|done].
  - exists es. split_and!; [done..|]. intros e Hin. destruct (He e Hin). auto.
Qed.

Lemma cache_get_node i j s b :
  cache j (get_node i s) = Some (Some b) → cache j s = Some (Some b).
Proof.
  unfold cache, get_node. destruct (nodes s !! i) eqn:Hi; [done|]. simpl.
  destruct (decide (i = j)) as [<-|Hne]; [by rewrite lookup_insert_eq|by rewrite lookup_insert_ne].
Qed.

Lemma grows_ensure x e st : scan_ok st → grows x [] st (with_scene (ensure e) st).
Proof.
  intros H. destruct (same_ends_ensure e (sc st)) as [Hse Hl]. apply grows_scene; [done|..].
  - by apply ensure_ok, so_scene.
  - intros e'. by apply is_Some_same_ends.
  - intros e' p _. apply Hse.
  - intros j b Hb. left. destruct e as [i|c]; [by eapply cache_get_node|].
    revert Hb. simpl. unfold get_channel. by destruct (channels (sc st) !! c).
  - unfold wires. by rewrite Hl, app_nil_r.
Qed.

Lemma grows_create_link x n1 e2 st :
  scan_ok st → is_Some (end_of (NodeEnd n1) (sc st)) → is_Some (end_of e2 (sc st)) →
  grows x [(n1, e2)] st (with_scene (create_link n1 e2) st).
Proof.
  intros H H1 H2. set (s := sc st).
  set (s1 := with_links (links s ++ [Wired n1 e2 None]) s).
  destruct (add_end_link_spec (length (links s)) (NodeEnd n1) s1) as (Hl2 & Hp2 & _).
  set (s2 := add_end_link (length (links s)) (NodeEnd n1) s1) in *.
  destruct (add_end_link_spec (length (links s)) e2 s2) as (Hl3 & Hp3 & _).
  assert (∀ e, get_position e (create_link n1 e2 s) = get_position e s) as Hpos.
  { intros e. unfold create_link. etransitivity; [apply Hp3|]. rewrite Hp2.
    unfold get_position, s1. by rewrite end_of_links. }
  apply grows_scene; [done|..].
  - apply create_link_ok; [done..|]. apply so_scene, H.
  - intros e. by rewrite !is_Some_position, Hpos.
  - intros e p _. by rewrite Hpos.
  - intros i b Hb. left. rewrite <- Hb. symmetry. unfold create_link.
    destruct e2 as [j|c]; simpl; rewrite ?cache_alter by done; try done.
    change (cache i (alter_node (λ n, set_nlinks (nlinks n ++ [length (links s)]) n) n1 s1) =
            cache i s). by rewrite cache_alter.
  - unfold wires, create_link. fold s. change (links (add_end_link (length (links s)) e2 s2) ≫= wire_of =
      (links s ≫= wire_of) ++ [(n1, e2)])%list.
    rewrite Hl3, Hl2. unfold s1. simpl. by rewrite bind_app.
Qed.

Lemma grows_has_mobility x i st :
  scan_ok st → is_Some (nodes (sc st) !! i) →
  (has_mobility (mobile net) i (sc st)).1 = mobile net i ∧
  grows x [] st (with_scene (λ _, (has_mobility (mobile net) i (sc st)).2) st).
Proof.
  intros H [n Hn]. unfold has_mobility. rewrite Hn.
  destruct (has_mobility_cache n) as [b|] eqn:Hc; simpl.
  - split.
    + eapply so_cache; [done|]. unfold cache. by rewrite Hn; simpl; rewrite Hc.
    + destruct st. by apply grows_refl.
  - split; [done|].
    assert (same_ends (sc st) (alter_node (assign_mobility (mobile net i)) i (sc st))) as Hse
      by (by apply same_ends_alter).
    apply (grows_scene x [] (λ _, _)); [done|..].
    + eapply same_ends_ok; [done|done|apply so_scene, H].
    + intros e. by apply is_Some_same_ends.
    + intros e p _. apply Hse.
    + intros j b. unfold cache, alter_node. simpl. destruct (decide (i = j)) as [<-|Hne].
      * rewrite lookup_alter_eq, Hn. simpl. intros [= <-]. by right.
      * rewrite lookup_alter_ne by done. by left.
    + unfold wires. simpl. by rewrite app_nil_r.
Qed.

(** Adding names to the graph. *)
Lemma add_node_ok e st :
  scan_ok st → in_graph e → is_Some (end_of e (sc st)) →
  scan_ok (with_graph (add_node (name_of e)) st) ∧
  gnames (gr st) ⊆ gnames (add_node (name_of e) (gr st)) ∧
  name_of e ∈ gnames (add_node (name_of e) (gr st)).
Proof.
  intros [Hs Hc (es & Hn & Hd & He)] Hg Hex. unfold add_node. simpl.
  case_bool_decide as Hin.
  - split_and!; [|done|done]. split; [done|done|]. exists es.
    unfold with_graph, add_node. simpl. by rewrite bool_decide_eq_true_2 by done.
  - split_and!; [|set_solver|set_solver]. split; [done|done|].
    exists (es ++ [e])%list. unfold with_graph, add_node. simpl.
    rewrite bool_decide_eq_false_2 by done. simpl. split_and!.
    + by rewrite Hn, fmap_app.
    + apply NoDup_app. split_and!; [done| |apply NoDup_singleton].
      intros e' He' ->%list_elem_of_singleton. apply Hin. rewrite Hn.
      by apply list_elem_of_fmap_2.
    + intros e' [He'|He'%list_elem_of_singleton]%elem_of_app; [by apply He|]. by subst.
Qed.

Lemma grows_add_node x e st :
  scan_ok st → in_graph e → is_Some (end_of e (sc st)) →
  grows x [] st (with_graph (add_node (name_of e)) st).
Proof.
  intros H Hg He. destruct (add_node_ok e st H Hg He) as (Ho & Hn & _).
  split; [done..|]. by rewrite app_nil_r.
Qed.

Lemma grows_add_edge x e1 e2 st :
  scan_ok st → in_graph e1 → in_graph e2 →
  is_Some (end_of e1 (sc st)) → is_Some (end_of e2 (sc st)) →
  grows x [] st (with_graph (add_edge (name_of e1) (name_of e2)) st).
Proof.
  intros H G1 G2 H1 H2.
  pose proof (grows_add_node x e1 st H G1 H1) as R1.
  pose proof (grows_add_node x e2 _ (gr_ok _ _ _ _ R1) G2 H2) as R2.
  pose proof (grows_trans x x [] [] _ _ _ (or_introl eq_refl) R1 R2) as [[O1 O2 O3] S P N W].
  split; [|done..]. by split.
Qed.

(** *** The loops *)
Definition default_traits (t : gmap string traits) (cls : string) : traits :=
  default (Traits (Some true) false) (t !! cls).

Lemma lookup_default t cls :
  ∃ t' w, lookup_netdevice_traits t cls = Ok (default_traits t cls, t', w) ∧
    ∀ c, default_traits t' c = default_traits t c.
Proof.
  unfold lookup_netdevice_traits, default_traits. destruct (t !! cls) as [tr|] eqn:Ht; simpl.
  - by exists t, false.
  - eexists _, true. split; [done|]. intros c. destruct (decide (cls = c)) as [<-|Hne].
    + by rewrite lookup_insert_eq, Ht.
    + by rewrite lookup_insert_ne.
Qed.

(** The links a device, a node and the network should get. *)
Definition wired (t : gmap string traits) (cls : string) : bool :=
  let tr := default_traits t cls in
  negb (bool_decide (is_wireless tr = Some true)) && negb (is_virtual tr).

Definition other_wires (i c : Z) : list wire :=
  (λ j, (i, NodeEnd j)) <$> filter (λ j, j ≠ i) (channel_nodes net c).

Definition device_wires (t : gmap string traits) (i : Z) (d : ns3_device) : list wire :=
  if wired t (dev_type d) then
    match dev_channel d with
    | Some c =>
        if bool_decide (2 < length (channel_nodes net c))%nat
        then [(i, ChannelEnd c)] else other_wires i c
    | None => []
    end
  else [].

(** A wired device without channel. *)
Definition disconnected (t : gmap string traits) (d : ns3_device) : bool :=
  wired t (dev_type d) && bool_decide (dev_channel d = None).

Definition node_wires (t : gmap string traits) (x : nat * ns3_node) : list wire :=
  devices x.2 ≫= device_wires t (Z.of_nat x.1).

Definition channel_ok (c : Z) : Prop :=
  (0 ≤ c)%Z ∧ ∀ j, j ∈ channel_nodes net c → (0 ≤ j < Z.of_nat (length (node_list net)))%Z.

Definition device_ok (d : ns3_device) : Prop :=
  match dev_channel d with Some c => channel_ok c | None => True end.

Lemma get_node_ensure j : get_node j = ensure (NodeEnd j).
Proof. done. Qed.

Lemma link_other_grows i j st :
  scan_ok st → (0 ≤ i)%Z → (0 ≤ j)%Z → is_Some (end_of (NodeEnd i) (sc st)) →
  grows None (if decide (j = i) then [] else [(i, NodeEnd j)]) st (link_other net i st j).
Proof.
  intros H Hi0 Hj0 Hi. unfold link_other. rewrite get_node_ensure.
  pose proof (grows_ensure None (NodeEnd j) st H) as R1.
  set (st1 := with_scene (ensure (NodeEnd j)) st) in *. rewrite <- decide_bool_decide.
  destruct (decide (j = i)) as [->|Hne]; [done|].
  pose proof (gr_some _ _ _ _ R1 _ Hi) as Hi1.
  assert (is_Some (end_of (NodeEnd j) (sc st1))) as Hj1
    by exact (is_Some_ensure (NodeEnd j) (sc st)).
  assert (∀ st2, grows None [] st1 st2 →
    grows None [(i, NodeEnd j)] st (with_scene (create_link i (NodeEnd j)) st2)) as Hfin.
  { intros st2 R2. eapply (grows_trans None None []); [by left|exact R1|].
    eapply (grows_trans None None []); [by left|exact R2|].
    apply grows_create_link; [apply R2|by eapply gr_some..]. }
  destruct (mobile net i) eqn:Hm; [apply Hfin, grows_refl, R1|].
  assert (is_Some (nodes (sc st1) !! j)) as Hnj.
  { by apply end_node_is_Some. }
  destruct (grows_has_mobility None j st1 (gr_ok _ _ _ _ R1) Hnj) as [Hb R2].
  destruct (has_mobility (mobile net) j (sc st1)) as [b s']. simpl in Hb, R2. subst b.
  set (st2 := with_scene (λ _, s') st1) in *.
  destruct (mobile net j) eqn:Hmj; simpl; apply Hfin; [done|].
  eapply (grows_trans None None [] []); [by left|exact R2|].
  apply (grows_add_edge None (NodeEnd i) (NodeEnd j) st2);
    [apply R2|by split|by split|by eapply gr_some..].
Qed.

Lemma link_others_grows i js st :
  scan_ok st → (0 ≤ i)%Z → (∀ j, j ∈ js → (0 ≤ j)%Z) → is_Some (end_of (NodeEnd i) (sc st)) →
  grows None ((λ j, (i, NodeEnd j)) <$> filter (λ j, j ≠ i) js) st
    (foldl (link_other net i) st js).
Proof.
  intros H Hi0. revert st H. induction js as [|j js IH]; intros st H Hjs Hi; [by apply grows_refl|].
  pose proof (link_other_grows i j st H Hi0 (Hjs j ltac:(set_solver)) Hi) as R1.
  pose proof (IH _ (gr_ok _ _ _ _ R1) ltac:(set_solver) (gr_some _ _ _ _ R1 _ Hi)) as R2.
  pose proof (grows_trans None None _ _ _ _ _ (or_introl eq_refl) R1 R2) as R.
  rewrite filter_cons. simpl. destruct (decide (j = i)) as [->|Hne].
  - by rewrite decide_False by naive_solver.
  - by rewrite decide_True by done.
Qed.

Lemma link_channel_grows i c st :
  scan_ok st → (0 ≤ i)%Z → (0 ≤ c)%Z → is_Some (end_of (NodeEnd i) (sc st)) →
  grows None [(i, ChannelEnd c)] st (link_channel net i c st).
Proof.
  intros H Hi0 Hc0 Hi. unfold link_channel.
  pose proof (grows_ensure None (ChannelEnd c) st H) as R1.
  set (st1 := with_scene (ensure (ChannelEnd c)) st) in *.
  assert (is_Some (end_of (ChannelEnd c) (sc st1))) as Hc1
    by exact (is_Some_ensure (ChannelEnd c) (sc st)).
  pose proof (gr_some _ _ _ _ R1 _ Hi) as Hi1.
  destruct (mobile net i) eqn:Hm.
  - eapply (grows_trans None None [] [(i, ChannelEnd c)]); [by left|exact R1|].
    apply (grows_create_link None i (ChannelEnd c) st1); [apply R1|done..].
  - pose proof (grows_add_edge None (NodeEnd i) (ChannelEnd c) st1 (gr_ok _ _ _ _ R1)) as R2.
    specialize (R2 (conj Hi0 Hm) (conj Hc0 Logic.I) Hi1 Hc1).
    eapply (grows_trans None None [] [(i, ChannelEnd c)]); [by left|exact R1|].
    eapply (grows_trans None None [] [(i, ChannelEnd c)]); [by left|exact R2|].
    apply (grows_create_link None i (ChannelEnd c)
      (with_graph (add_edge (name_of (NodeEnd i)) (name_of (ChannelEnd c))) st1));
      [apply R2|done..].
Qed.

Lemma grows_table x t st : scan_ok st → grows x [] st (ScanState (sc st) (gr st) t).
Proof. intros H. split; [by destruct H|done..|]. simpl. by rewrite app_nil_r. Qed.

Lemma scan_device_grows i d st :
  scan_ok st → (0 ≤ i)%Z → device_ok d → disconnected (tbl st) d = false →
  is_Some (end_of (NodeEnd i) (sc st)) →
  ∃ st', scan_device net i st d = Ok st' ∧ grows None (device_wires (tbl st) i d) st st' ∧
    ∀ c, default_traits (tbl st') c = default_traits (tbl st) c.
Proof.
  intros H Hi0 Hok Hdis Hi. unfold scan_device, device_wires. unfold disconnected in Hdis.
  unfold device_ok in Hok. unfold wired, other_wires in *.
  destruct (lookup_default (tbl st) (dev_type d)) as (t' & w & -> & Ht'). simpl.
  set (st1 := ScanState (sc st) (gr st) t').
  assert (scan_ok st1) as H1 by (by destruct H).
  assert (∀ ws st', grows None ws st1 st' → grows None ws st st') as Hg.
  { intros ws st' [O S P N W]. by split. }
  assert (∀ js st', tbl (foldl (link_other net i) st' js) = tbl st') as Htf.
  { clear Hdis Hok. induction js as [|j js IH]; intros st'; [done|]. simpl. rewrite IH. unfold link_other.
    case_bool_decide; [done|]. destruct (mobile net i); [done|].
    by destruct (has_mobility _ _ _) as [[] ?]. }
  destruct (bool_decide (is_wireless (default_traits (tbl st) (dev_type d)) = Some true)) eqn:Hw; simpl;
    [exists st1; split; [done|split; [by apply Hg, grows_refl|done]]|].
  destruct (is_virtual _) eqn:Hv; simpl;
    [exists st1; split; [done|split; [by apply Hg, grows_refl|done]]|].
  destruct (dev_channel d) as [c|]; [|by rewrite bool_decide_eq_true_2 in Hdis]. destruct Hok as [Hc0 Hc]. simpl.
  clear Hdis Hw. case_bool_decide as Hlen; eexists; (split; [done|]).
  - split.
    + by apply Hg, link_channel_grows.
    + intros c'. unfold link_channel. by destruct (mobile net i).
  - unfold link_others. split; [|intros c'; by rewrite Htf].
    apply Hg, link_others_grows; [done..| |done]. intros j Hj. by apply Hc.
Qed.

Lemma scan_devices_grow i ds st :
  scan_ok st → (0 ≤ i)%Z → Forall device_ok ds → Forall (λ d, disconnected (tbl st) d = false) ds →
  is_Some (end_of (NodeEnd i) (sc st)) →
  ∃ st', fold_res (scan_device net i) st ds = Ok st' ∧
    grows None (ds ≫= device_wires (tbl st) i) st st' ∧
    ∀ c, default_traits (tbl st') c = default_traits (tbl st) c.
Proof.
  intros H Hi0 Hds. revert st H. induction Hds as [|d ds Hd _ IH]; intros st H Hdis Hi.
  { exists st. split_and!; [done|by apply grows_refl|done]. }
  inversion_clear Hdis as [|?? Hd1 Hd2].
  destruct (scan_device_grows i d st H Hi0 Hd Hd1 Hi) as (st1 & H1 & R1 & T1).
  destruct (IH st1) as (st2 & H2 & R2 & T2); [apply R1| |by eapply gr_some|].
  { eapply Forall_impl; [exact Hd2|]. intros d' <-. unfold disconnected, wired. by rewrite T1. }
  exists st2. cbn [fold_res]. rewrite H1. split_and!; [done| |intros c; by rewrite T2].
  change ((d :: ds) ≫= device_wires (tbl st) i)
    with (device_wires (tbl st) i d ++ (ds ≫= device_wires (tbl st) i))%list.
  assert (ds ≫= device_wires (tbl st1) i = ds ≫= device_wires (tbl st) i) as <-.
  { apply list_bind_ext; [|done]. intros d'. unfold device_wires, wired. by rewrite T1. }
  eapply (grows_trans None None); [by left|done|done].
Qed.

Lemma grows_paint c p i st :
  scan_ok st →
  grows (Some (NodeEnd i)) [] st
    (with_scene (λ s, set_position (NodeEnd i) p (set_color c i s)) st).
Proof.
  intros H. destruct (set_color_looks c i (sc st)) as [P W C O].
  apply grows_scene; [done|..].
  - by apply set_position_ok, O, so_scene.
  - intros e He. apply is_Some_set_position, is_Some_position. rewrite P.
    by apply is_Some_position.
  - intros e q Hne Hq. rewrite position_set_position by congruence. by rewrite P.
  - intros j b. rewrite cache_set_position, C. by left.
  - by rewrite wires_set_position, W, app_nil_r.
Qed.

Definition node_ok (n : ns3_node) : Prop := Forall device_ok (devices n).

Definition node_connected (t : gmap string traits) (n : ns3_node) : Prop :=
  Forall (λ d, disconnected t d = false) (devices n).

Lemma node_connected_traits t t' n :
  (∀ c, default_traits t' c = default_traits t c) → node_connected t n → node_connected t' n.
Proof.
  intros Ht Hn. eapply Forall_impl; [exact Hn|]. intros d <-. unfold disconnected, wired. by rewrite Ht.
Qed.

Lemma get_mobility_nth k n :
  node_list net !! k = Some n → get_mobility net (Z.of_nat k) = mobility n.
Proof. intros Hk. unfold get_mobility. by rewrite Nat2Z.id, Hk. Qed.

Lemma scan_node_grows k n st :
  scan_ok st → node_list net !! k = Some n → node_ok n → node_connected (tbl st) n →
  let i := Z.of_nat k in
  ∃ st', scan_node net st (k, n) = Ok st' ∧
    grows (Some (NodeEnd i)) (node_wires (tbl st) (k, n)) st st' ∧
    (∀ c, default_traits (tbl st') c = default_traits (tbl st) c) ∧
    is_Some (end_of (NodeEnd i) (sc st')) ∧
    (∀ p, mobility n = Some p →
       get_position (NodeEnd i) (sc st') = Some (transform_point_simulation_to_canvas p)) ∧
    (mobility n = None → name_of (NodeEnd i) ∈ gnames (gr st')).
Proof.
  intros H Hk Hok Hcon i. unfold scan_node. fold i. rewrite get_node_ensure.
  pose proof (grows_ensure (Some (NodeEnd i)) (NodeEnd i) st H) as R1.
  set (st1 := with_scene (ensure (NodeEnd i)) st) in *.
  assert (is_Some (end_of (NodeEnd i) (sc st1))) as Hi1
    by exact (is_Some_ensure (NodeEnd i) (sc st)).
  assert (0 ≤ i)%Z as Hi0 by lia.
  assert (∀ st2, grows (Some (NodeEnd i)) [] st1 st2 → tbl st2 = tbl st →
    ∃ st', fold_res (scan_device net i) st2 (devices n) = Ok st' ∧
      grows (Some (NodeEnd i)) (node_wires (tbl st) (k, n)) st st' ∧
      (∀ c, default_traits (tbl st') c = default_traits (tbl st) c) ∧
      is_Some (end_of (NodeEnd i) (sc st')) ∧ grows None (node_wires (tbl st) (k, n)) st2 st')
    as Hdev.
  { intros st2 R2 Ht.
    destruct (scan_devices_grow i (devices n) st2 (gr_ok _ _ _ _ R2) Hi0 Hok) as (st' & Hf & R3 & T).
    { by rewrite Ht. }
    { by eapply gr_some. }
    rewrite Ht in *. exists st'. split_and!; [done| |done| |done].
    - eapply (grows_trans (Some _) (Some _) []); [by left|exact R1|].
      eapply (grows_trans (Some _) (Some _) []); [by left|exact R2|].
      destruct R3 as [O S P N W]. split; try done. intros e p _. by apply P.
    - eapply gr_some; [exact R3|]. by eapply gr_some. }
  destruct (mobility n) as [p|] eqn:Hm.
  - set (q := transform_point_simulation_to_canvas p).
    pose proof (grows_paint (inr (0xffff, 0, 0)%Z) q i st1 (gr_ok _ _ _ _ R1)) as R2.
    destruct (Hdev _ R2 eq_refl) as (st' & Hf & R & T & Hs & R3).
    exists st'. split_and!; [done..| |done]. intros p' [= <-].
    eapply gr_pos; [exact R3|done|].
    apply (position_set_position_eq (NodeEnd i) q). apply is_Some_position.
    rewrite (lo_position _ _ (set_color_looks _ i (sc st1))). by apply is_Some_position.
  - assert (in_graph (NodeEnd i)) as Hg.
    { split; [done|]. unfold mobile. unfold i. rewrite (get_mobility_nth k n Hk), Hm. done. }
    pose proof (grows_add_node (Some (NodeEnd i)) (NodeEnd i) st1 (gr_ok _ _ _ _ R1) Hg Hi1) as R2.
    destruct (Hdev _ R2 eq_refl) as (st' & Hf & R & T & Hs & R3).
    exists st'. split_and!; [done..|]. intros _. eapply gr_names; [exact R3|].
    apply (add_node_ok (NodeEnd i) st1); [apply R1|done..].
Qed.

(** What is true of a node once it has been scanned. *)
Definition scanned (st : scan_state) (k : nat) (n : ns3_node) : Prop :=
  is_Some (end_of (NodeEnd (Z.of_nat k)) (sc st)) ∧
  (∀ p, mobility n = Some p → get_position (NodeEnd (Z.of_nat k)) (sc st) =
     Some (transform_point_simulation_to_canvas p)) ∧
  (mobility n = None → name_of (NodeEnd (Z.of_nat k)) ∈ gnames (gr st)).

Lemma scanned_grows x ws st st' k n :
  grows x ws st st' → x ≠ Some (NodeEnd (Z.of_nat k)) → scanned st k n → scanned st' k n.
Proof.
  intros [_ S P N _] Hx (H1 & H2 & H3). split_and!; auto.
Qed.

Lemma scan_nodes_grow l2 : ∀ l1 st,
  node_list net = (l1 ++ l2)%list → Forall node_ok l2 → Forall (node_connected (tbl st)) l2 →
  scan_ok st →
  (∀ k n, l1 !! k = Some n → scanned st k n) →
  ∃ st', fold_res (scan_node net) st (imap (λ j n, ((length l1 + j)%nat, n)) l2) = Ok st' ∧
    scan_ok st' ∧ (∀ k n, node_list net !! k = Some n → scanned st' k n) ∧
    wires (sc st') = (wires (sc st) ++
      (imap (λ j n, ((length l1 + j)%nat, n)) l2 ≫= node_wires (tbl st)))%list.
Proof.
  induction l2 as [|n l2 IH]; intros l1 st Hl Hok Hcon H Hsc.
  { exists st. rewrite app_nil_r in Hl. rewrite Hl. split_and!; [done..|]. by rewrite app_nil_r. }
  inversion_clear Hok as [|?? Hn Hl2]. inversion_clear Hcon as [|?? Hcn Hcl2].
  assert (node_list net !! length l1 = Some n) as Hk.
  { rewrite Hl, lookup_app_r by lia. by rewrite Nat.sub_diag. }
  destruct (scan_node_grows (length l1) n st H Hk Hn Hcn) as (st1 & H1 & R1 & T1 & Hs1).
  destruct (IH (l1 ++ [n])%list st1) as (st2 & H2 & O2 & S2 & W2).
  - by rewrite <- app_assoc.
  - done.
  - eapply Forall_impl; [exact Hcl2|]. intros m. by apply node_connected_traits.
  - apply R1.
  - intros k m Hkm. apply lookup_snoc_Some in Hkm as [[Hlt Hkm]|[-> ->]]; [|done].
    eapply scanned_grows; [exact R1| |by apply Hsc]. intros [= Heq]. lia.
  - assert (imap (λ j m, ((length l1 + j)%nat, m)) (n :: l2) =
      (length l1, n) :: imap (λ j m, ((length (l1 ++ [n]) + j)%nat, m)) l2) as ->.
    { rewrite imap_cons, Nat.add_0_r. f_equal. apply imap_ext. intros j m _. simpl.
      rewrite length_app. simpl. f_equal. lia. }
    exists st2. cbn [fold_res]. rewrite H1. split_and!; [done..|].
    rewrite W2, (gr_wires _ _ _ _ R1), <- app_assoc. f_equal.
    set (L := imap _ l2). change (((length l1, n) :: L) ≫= node_wires (tbl st))
      with (node_wires (tbl st) (length l1, n) ++ (L ≫= node_wires (tbl st)))%list.
    f_equal. apply list_bind_ext; [|done]. intros [k m]. unfold node_wires. simpl.
    apply list_bind_ext; [|done]. intros d. unfold device_wires, wired. by rewrite T1.
Qed.

(** *** The layout *)

(** Every wired link of [e] is drawn. *)
Definition drawn_at (e : endpoint) (s : scene) : Prop :=
  ∀ i n1 n2 d, links s !! i = Some (Wired n1 n2 d) → e = NodeEnd n1 ∨ e = n2 → d ≠ None.

Lemma linked_end_exists e i s : i ∈ end_links e s → is_Some (end_of e s).
Proof. unfold end_links. destruct (end_of e s); [done|]. simpl. set_solver. Qed.

Lemma wired_ends_exist s i n1 n2 d :
  scene_ok s → links s !! i = Some (Wired n1 n2 d) →
  is_Some (end_of (NodeEnd n1) s) ∧ is_Some (end_of n2 s).
Proof.
  intros Hok Hi. destruct (ok_attached _ Hok _ _ Hi) as [H1 H2].
  split; by eapply linked_end_exists.
Qed.

Lemma drawn_set_position e p s : scene_ok s → drawn_at e (set_position e p s).
Proof.
  intros Hok i n1 n2 d Hi He.
  destruct (wired_ends_exist _ i n1 n2 d (set_position_ok e p s Hok) Hi) as [H1 H2].
  assert (∀ e', is_Some (end_of e' (set_position e p s)) → is_Some (end_of e' s)) as Hback.
  { intros e'. rewrite !is_Some_position. destruct (decide (e' = e)) as [->|Hne].
    - intros _. destruct (end_of e s) as [[p0 ls]|] eqn:Hes.
      + by rewrite <- is_Some_position, Hes.
      + assert (is_Some (end_of e (set_position e p s))) as Hx by (destruct He as [->| ->]; done).
        unfold set_position in Hx. rewrite Hes in Hx. rewrite Hes in Hx. by destruct Hx.
    - by rewrite position_set_position. }
  eapply (set_position_draws e p s i n1 n2 d); [done|by apply Hback..|done|done].
Qed.

Lemma drawn_kept e e' p s : scene_ok s → drawn_at e s → drawn_at e (set_position e' p s).
Proof.
  intros Hok Hd i n1 n2 d Hi He.
  destruct (wired_ends_exist _ i n1 n2 d (set_position_ok e' p s Hok) Hi) as [H1 H2].
  destruct (end_of e' s) as [[p0 ls]|] eqn:Hes; [|unfold set_position in Hi; rewrite Hes in Hi; by eapply Hd].
  destruct (set_position_spec e' p p0 ls s Hes) as (_ & _ & Hl).
  rewrite Hl in Hi. apply fmap_Some in Hi as (k & Hk & Heq). case_decide.
  - apply is_Some_position in H1 as [q1 Hq1]. apply is_Some_position in H2 as [q2 Hq2].
    destruct k as [m1 m2 d'|[] []]; cbn [refresh] in Heq; try discriminate Heq.
    injection Heq as -> -> ->. unfold line_between. by rewrite Hq1, Hq2.
  - subst k. by eapply Hd.
Qed.

Section Layout.
Context (pos : string → list Q).

Record placed (es : list endpoint) (s s' : scene) : Prop := Placed {
  pl_ok : scene_ok s';
  pl_wires : wires s' = wires s;
  pl_some : ∀ e, is_Some (end_of e s) → is_Some (end_of e s');
  pl_cache : ∀ i, cache i s' = cache i s;
  pl_others : ∀ e, e ∉ es → get_position e s' = get_position e s;
  pl_pos : ∀ e x y, e ∈ es → pos (name_of e) = [x; y] → get_position e s' = Some (x, y);
  pl_drawn : ∀ e, e ∈ es → drawn_at e s';
  pl_keeps : ∀ e, drawn_at e s → drawn_at e s' }.

Lemma place_all es : ∀ s obj,
  scene_ok s → NoDup es → (∀ e, e ∈ es → in_graph e ∧ is_Some (end_of e s)) →
  (∀ e, e ∈ es → ∃ x y, pos (name_of e) = [x; y]) →
  ∃ s' obj', fold_res (place pos) (s, obj) (name_of <$> es) = Ok (s', obj') ∧ placed es s s'.
Proof.
  induction es as [|e es IH]; intros s obj Hok Hnd He Hp.
  { exists s, obj. split; [done|]. split; try done; set_solver. }
  apply NoDup_cons in Hnd as [Hin Hnd].
  destruct (He e) as [[Hn0 _] Hs]; [set_solver|]. destruct (Hp e) as (x & y & Hxy); [set_solver|].
  set (s1 := set_position e (x, y) s).
  assert (scene_ok s1) as Hok1 by (by apply set_position_ok).
  destruct (IH s1 (Some e)) as (s' & obj' & Hf & [O W S C Oth P D K]); [done|done| | |].
  { intros e' He'. destruct (He e') as [Hg Hse]; [set_solver|]. split; [done|].
    by apply is_Some_set_position. }
  { intros e' He'. apply Hp. set_solver. }
  exists s', obj'. split.
  - cbn [fmap list_fmap fold_res]. unfold place at 2. rewrite split_name, Hxy. simpl.
    rewrite find_object_name by done. exact Hf.
  - split; [done|..].
    + rewrite W. apply wires_set_position.
    + intros e' Hse. by apply S, is_Some_set_position.
    + intros i. rewrite C. apply cache_set_position.
    + intros e' Hne. rewrite Oth by set_solver. apply position_set_position. set_solver.
    + intros e' x' y' He' Hxy'. destruct (decide (e' = e)) as [->|Hne].
      * rewrite Oth by done. rewrite Hxy in Hxy'. injection Hxy' as <- <-.
        by apply position_set_position_eq.
      * apply P; [set_solver|done].
    + intros e' He'. destruct (decide (e' = e)) as [->|Hne].
      * apply K. by apply drawn_set_position.
      * apply D. set_solver.
    + intros e' Hd. apply K. by apply drawn_kept.
Qed.
End Layout.

(** ** Following the mobility models *)
Record followed (s s' : scene) : Prop := Followed {
  fo_ok : scene_ok s';
  fo_some : ∀ e, is_Some (end_of e s) → is_Some (end_of e s');
  fo_cache : ∀ i b, cache i s' = Some (Some b) → b = mobile net i;
  fo_wires : wires s' = wires s;
  fo_keeps : ∀ e, drawn_at e s → drawn_at e s';
  fo_pos : ∀ e, match e with NodeEnd i => mobile net i = false | ChannelEnd _ => True end →
             get_position e s' = get_position e s }.

Definition shows_mobility (i : Z) (s : scene) : Prop :=
  ∀ p, get_mobility net i = Some p →
    get_position (NodeEnd i) s = Some (transform_point_simulation_to_canvas p) ∧
    drawn_at (NodeEnd i) s.

Lemma follow_mobility_spec s i :
  scene_ok s → (∀ j b, cache j s = Some (Some b) → b = mobile net j) →
  is_Some (nodes s !! i) →
  followed s (follow_mobility net s i) ∧ shows_mobility i (follow_mobility net s i) ∧
  ∀ j, shows_mobility j s → shows_mobility j (follow_mobility net s i).
Proof.
  intros Hok Hc Hi.
  destruct (grows_has_mobility None i (ScanState s (Graph [] []) ∅)) as [Hb [Hok2 Hs2 Hp2 _ Hw2]].
  { split; [done|done|]. exists []. split_and!; [done|constructor|set_solver]. }
  { done. }
  unfold follow_mobility. simpl in *.
  assert (links (has_mobility (mobile net) i s).2 = links s) as Hl.
  { unfold has_mobility. by repeat case_match. }
  assert (∀ e, get_position e (has_mobility (mobile net) i s).2 = get_position e s) as Hpeq.
  { intros e. unfold has_mobility. destruct (nodes s !! i) as [n|]; [|done].
    destruct (has_mobility_cache n); [done|]. simpl. unfold get_position.
    rewrite end_of_alter_node. case_decide; [|done]. subst. unfold end_of.
    by destruct (nodes s !! i). }
  destruct (has_mobility (mobile net) i s) as [b s']. simpl in *. subst b.
  rewrite app_nil_r in Hw2.
  assert (∀ e, drawn_at e s → drawn_at e s') as Hd'.
  { intros e Hd j n1 n2 d. rewrite Hl. apply Hd. }
  assert (followed s s') as F1.
  { split; [apply Hok2|done|apply Hok2|done|done|]. intros e _. apply Hpeq. }
  assert (∀ j, shows_mobility j s → shows_mobility j s') as Hshow.
  { intros j Hj p Hp. destruct (Hj p Hp). split; [by rewrite Hpeq|by apply Hd']. }
  destruct (mobile net i) eqn:Hm; [|split_and!; [done| |done]].
  2: { intros p Hp. unfold mobile in Hm. rewrite Hp in Hm. done. }
  destruct (get_mobility net i) as [p|] eqn:Hg; [|unfold mobile in Hm; by rewrite Hg in Hm].
  set (q := transform_point_simulation_to_canvas p).
  destruct F1 as [O S C W K P]. split_and!.
  - split.
    + by apply set_position_ok.
    + intros e He. by apply is_Some_set_position, S.
    + intros j b. rewrite cache_set_position. apply C.
    + by rewrite wires_set_position.
    + intros e He. apply drawn_kept; [done|]. by apply K.
    + intros e He. rewrite position_set_position; [by apply P|]. intros ->. congruence.
  - intros p' Hp'. rewrite Hg in Hp'. injection Hp' as <-. split; [|by apply drawn_set_position].
    apply position_set_position_eq, S. by apply is_Some_end_node.
  - intros j Hj p' Hp'. destruct (decide (j = i)) as [->|Hne].
    + rewrite Hg in Hp'. injection Hp' as <-. split; [|by apply drawn_set_position].
      apply position_set_position_eq, S. by apply is_Some_end_node.
    + destruct (Hshow j Hj p' Hp') as [H1 H2]. split; [|by apply drawn_kept].
      rewrite position_set_position by congruence. done.
Qed.

Lemma follow_all l : ∀ s,
  scene_ok s → (∀ j b, cache j s = Some (Some b) → b = mobile net j) →
  (∀ i, i ∈ l → is_Some (nodes s !! i)) →
  followed s (foldl (follow_mobility net) s l) ∧
  (∀ i, i ∈ l ∨ shows_mobility i s → shows_mobility i (foldl (follow_mobility net) s l)).
Proof.
  induction l as [|i l IH]; intros s Hok Hc Hl; simpl.
  { split; [by split|]. intros i [Hi|Hi]; [set_solver|done]. }
  destruct (follow_mobility_spec s i Hok Hc (Hl i ltac:(set_solver))) as ([O S C W K P] & Hi & Hk).
  destruct (IH (follow_mobility net s i) O C) as ([O2 S2 C2 W2 K2 P2] & H2).
  { intros j Hj. apply end_node_is_Some, S, is_Some_end_node, Hl. set_solver. }
  split.
  - split; auto.
    + by rewrite W2.
    + intros e He. by rewrite P2, P.
  - intros j [[-> |Hj]%elem_of_cons|Hj]; apply H2; auto.
Qed.
End ScanProofs.

(** ** Theorems *)
Definition network_ok (net : network) : Prop := Forall (node_ok net) (node_list net).

(** Graphviz gives every node of the graph two coordinates. *)
Definition layout_ok (layout : graph → string → list Q) : Prop :=
  ∀ g name, name ∈ gnames g → ∃ x y, layout g name = [x; y].

(** The links the network should get: for each node in order, for each of its
    wired devices, one to the channel or one to each other node on it. *)
Definition network_wires (net : network) : list wire :=
  imap (λ k n, (k, n)) (node_list net) ≫= node_wires net netdevice_traits.

Lemma network_wires_start net n1 n2 :
  (n1, n2) ∈ network_wires net → ∃ k n, n1 = Z.of_nat k ∧ node_list net !! k = Some n.
Proof.
  unfold network_wires. rewrite list_elem_of_bind. intros ([k n] & Hw & Hin).
  apply elem_of_lookup_imap in Hin as (j & m & [= -> ->] & Hm).
  exists j, m. split; [|done]. unfold node_wires in Hw. rewrite list_elem_of_bind in Hw.
  destruct Hw as (d & Hd & _). unfold device_wires, other_wires in Hd. simpl in Hd.
  repeat case_match; set_unfold; naive_solver.
Qed.

Lemma wired_in_wires s i n1 n2 d : links s !! i = Some (Wired n1 n2 d) → (n1, n2) ∈ wires s.
Proof.
  intros Hi. unfold wires. rewrite list_elem_of_bind. exists (Wired n1 n2 d).
  split; [simpl; set_solver|by eapply list_elem_of_lookup_2].
Qed.

Lemma initial_scan_ok net : scan_ok net initial_scan.
Proof.
  split; [apply empty_scene_ok|intros i b; done|].
  exists []. split_and!; [done|constructor|set_solver].
Qed.

(** Every wired device is connected to a channel. *)
Definition connected (net : network) : Prop :=
  Forall (node_connected netdevice_traits) (node_list net).

#[export] Instance connected_dec net : Decision (connected net).
Proof. unfold connected, node_connected. apply _. Defined.

(** The whole scan, in the terms of the invariant. *)
Lemma scan_topology_ok net layout :
  network_ok net → layout_ok layout → connected net →
  ∃ st es s0, scan_topology net layout initial_scan = Ok st ∧
    gnames (gr st) = name_of <$> es ∧ (∀ e, e ∈ es → in_graph net e) ∧
    placed (layout (gr st)) es s0 (sc st) ∧ scene_ok s0 ∧
    wires s0 = network_wires net ∧
    (∀ i b, cache i s0 = Some (Some b) → b = mobile net i) ∧
    ∀ k n, node_list net !! k = Some n →
      is_Some (end_of (NodeEnd (Z.of_nat k)) s0) ∧
      (∀ p, mobility n = Some p → get_position (NodeEnd (Z.of_nat k)) s0 =
         Some (transform_point_simulation_to_canvas p)) ∧
      (mobility n = None → NodeEnd (Z.of_nat k) ∈ es).
Proof.
  intros Hnet Hlay Hcon. unfold scan_topology.
  destruct (scan_nodes_grow net (node_list net) [] initial_scan) as (st & Hf & [Hok Hc Hg] & Hsc & Hw);
    [done|done|done|apply initial_scan_ok|done|].
  change (λ j n, ((length (@nil ns3_node) + j)%nat, n)) with (λ (j : nat) (n : ns3_node), (j, n)) in Hf, Hw.
  rewrite Hf. simpl. destruct Hg as (es & Hn & Hnd & He).
  destruct (place_all net (layout (gr st)) es (sc st) None) as (s' & obj & Hp & Hpl); [done..| |].
  { intros e Hin. apply Hlay. rewrite Hn. by apply list_elem_of_fmap_2. }
  rewrite Hn, Hp. simpl. eexists _, es, (sc st). split; [done|]. split_and!; try done.
  - intros e Hin. by apply He.
  - intros k n Hk. destruct (Hsc k n Hk) as (H1 & H2 & H3). split_and!; [done..|].
    intros Hm. specialize (H3 Hm). rewrite Hn in H3.
    apply list_elem_of_fmap in H3 as (e & Heq & Hin).
    apply name_of_inj in Heq as ->; [done|simpl; lia|]. by apply He.
Qed.

(** What a device does to the scan, whatever its state: it ends it when it is
    disconnected. *)
Lemma scan_device_result net i st d :
  if disconnected (tbl st) d then scan_device net i st d = Raise AttributeError
  else ∃ st', scan_device net i st d = Ok st' ∧
    ∀ c, default_traits (tbl st') c = default_traits (tbl st) c.
Proof.
  unfold scan_device, disconnected, wired.
  destruct (lookup_default (tbl st) (dev_type d)) as (t' & w & -> & Ht'). simpl.
  set (st1 := ScanState (sc st) (gr st) t').
  assert (∀ js st', tbl (foldl (link_other net i) st' js) = tbl st') as Htf.
  { induction js as [|j js IH]; intros st'; [done|]. simpl. rewrite IH. unfold link_other.
    case_bool_decide; [done|]. destruct (mobile net i); [done|].
    by destruct (has_mobility _ _ _) as [[] ?]. }
  destruct (bool_decide (is_wireless _ = _)); simpl; [by exists st1|].
  destruct (is_virtual _); simpl; [by exists st1|].
  destruct (dev_channel d) as [c|]; simpl; [|done].
  case_bool_decide; eexists; (split; [done|]); intros c'.
  - unfold link_channel. by destruct (mobile net i).
  - unfold link_others. by rewrite Htf.
Qed.

Definition same_traits (t t' : gmap string traits) : Prop :=
  ∀ c, default_traits t' c = default_traits t c.

Lemma disconnected_traits t t' d : same_traits t t' → disconnected t' d = disconnected t d.
Proof. intros Ht. unfold disconnected, wired. by rewrite Ht. Qed.

Lemma scan_devices_result net i t ds st :
  same_traits t (tbl st) →
  if decide (Forall (λ d, disconnected t d = false) ds)
  then ∃ st', fold_res (scan_device net i) st ds = Ok st' ∧ same_traits t (tbl st')
  else fold_res (scan_device net i) st ds = Raise AttributeError.
Proof.
  revert st. induction ds as [|d ds IH]; intros st Ht.
  { rewrite decide_True by constructor. by exists st. }
  cbn [fold_res]. pose proof (scan_device_result net i st d) as Hd.
  rewrite (disconnected_traits t) in Hd by done. destruct (disconnected t d) eqn:E.
  - rewrite decide_False by (intros Hall; inversion_clear Hall; congruence). by rewrite Hd.
  - destruct Hd as (st1 & -> & Ht1). simpl. specialize (IH st1).
    assert (same_traits t (tbl st1)) as Htt by (intros c; by rewrite Ht1).
    specialize (IH Htt). destruct (decide (Forall _ ds)) as [Hall|Hall].
    + by rewrite decide_True by by constructor.
    + rewrite decide_False; [done|]. intros Hcons. by inversion_clear Hcons.
Qed.

Lemma scan_nodes_result net t l st :
  same_traits t (tbl st) → ¬ Forall (node_connected t) l.*2 →
  fold_res (scan_node net) st l = Raise AttributeError.
Proof.
  revert st. induction l as [|[k n] l IH]; intros st Ht Hnot.
  { destruct Hnot. constructor. }
  cbn [fold_res scan_node].
  set (st2 := match mobility n with Some p => _ | None => _ end).
  assert (tbl st2 = tbl st) as Hst2 by (unfold st2; by destruct (mobility n)).
  pose proof (scan_devices_result net (Z.of_nat k) t (devices n) st2) as Hd.
  rewrite Hst2 in Hd. specialize (Hd Ht). case_decide as Hall.
  - destruct Hd as (st' & -> & Ht'). simpl. apply IH; [done|]. intros Hl. apply Hnot. by constructor.
  - by rewrite Hd.
Qed.

(** C7: Scanning a network, on a layout that places every node of the graph,
    fails exactly when some wired device has no channel: [GetChannel] then
    returns nothing, and the scan raises AttributeError.  Otherwise it creates
    exactly the links of the wired devices, in order; a node with a mobility
    model stands at its scaled position and every other node where Graphviz put
    its name. *)
Theorem scan_topology_spec net layout :
  network_ok net → layout_ok layout →
  if decide (connected net) then
    ∃ st, scan_topology net layout initial_scan = Ok st ∧
      scene_ok (sc st) ∧ wires (sc st) = network_wires net ∧
      ∀ k n, node_list net !! k = Some n →
        get_position (NodeEnd (Z.of_nat k)) (sc st) =
          match mobility n with
          | Some p => Some (transform_point_simulation_to_canvas p)
          | None =>
              match layout (gr st) (name_of (NodeEnd (Z.of_nat k))) with
              | [x; y] => Some (x, y)
              | _ => None
              end
          end
  else scan_topology net layout initial_scan = Raise AttributeError.
Proof.
  intros Hnet Hlay. destruct (decide (connected net)) as [Hcon|Hcon].
  2: { unfold scan_topology. rewrite (scan_nodes_result net netdevice_traits); [done|done|].
       intros Hall. apply Hcon. unfold connected. revert Hall.
       assert ((imap (λ k n, (k, n)) (node_list net)).*2 = node_list net) as ->; [|done].
       apply list_eq. intros k. rewrite list_lookup_fmap, list_lookup_imap. by destruct (node_list net !! k). }
  destruct (scan_topology_ok net layout Hnet Hlay Hcon)
    as (st & es & s0 & Hst & Hn & Hes & [O W S C Oth P D K] & _ & Hw & _ & Hk).
  exists st. split_and!; [done..|by rewrite W|]. intros k n Hkn.
  destruct (Hk k n Hkn) as (H1 & H2 & H3). destruct (mobility n) as [p|] eqn:Hm.
  - rewrite Oth; [by apply H2|]. intros Hin. destruct (Hes _ Hin) as [_ Hmob].
    unfold mobile in Hmob. by rewrite (get_mobility_nth net k n Hkn), Hm in Hmob.
  - destruct (Hlay (gr st) (name_of (NodeEnd (Z.of_nat k)))) as (x & y & Hxy).
    { rewrite Hn. by apply list_elem_of_fmap_2, H3. }
    rewrite Hxy. by apply P; [apply H3|].
Qed.

(** After the scan and one round of [_update_node_positions] (which
    [autoscale_view] runs at the start) every wired link is drawn, between its
    ends. *)
Theorem all_links_drawn `{!DictOrder Z, !DictOrderOk Z} net layout :
  network_ok net → layout_ok layout → connected net →
  ∃ st, scan_topology net layout initial_scan = Ok st ∧
    let s := update_node_positions net (sc st) in
    wires s = network_wires net ∧
    ∀ i n1 n2 d, links s !! i = Some (Wired n1 n2 d) →
      ∃ p q, d = Some (p, q) ∧ get_position (NodeEnd n1) s = Some p ∧ get_position n2 s = Some q.
Proof.
  intros Hnet Hlay Hcon.
  destruct (scan_topology_ok net layout Hnet Hlay Hcon)
    as (st & es & s0 & Hst & Hn & Hes & [O W S C Oth P D K] & _ & Hw & Hc & Hk).
  exists st. split; [done|]. unfold update_node_positions.
  destruct (follow_all net (dict_keys (nodes (sc st))) (sc st) O) as ([O' S' _ W' K' _] & Hsh).
  { intros j b. rewrite C. apply Hc. }
  { intros i. apply elem_of_dict_keys. }
  cbv zeta. set (s := foldl _ _ _) in *. split; [by rewrite W', W|].
  intros i n1 n2 d Hi.
  assert ((n1, n2) ∈ network_wires net) as (k & n & -> & Hn1)%network_wires_start.
  { rewrite <- Hw, <- W, <- W'. by eapply wired_in_wires. }
  destruct (Hk _ _ Hn1) as (H1 & _ & H3).
  assert (d ≠ None) as Hd.
  { destruct (mobility n) as [p|] eqn:Hm.
    - destruct (Hsh (Z.of_nat k)) with p as [_ Hdr].
      + left. apply elem_of_dict_keys. by apply end_node_is_Some, S.
      + by rewrite (get_mobility_nth net k n Hn1).
      + eapply Hdr; [done|]. by left.
    - eapply (K' (NodeEnd (Z.of_nat k))); [by apply D, H3|done|by left]. }
  destruct d as [[p q]|]; [|done]. exists p, q. split; [done|].
  apply (ok_fresh _ O' _ _ Hi).
Qed.

(** *** A small network: two mobile nodes, one without, a bus and a wireless
    device *)
Definition example_network : network :=
  Network
    [Ns3Node (Some (1, 2)) [Device "CsmaNetDevice" (Some 7%Z); Device "WifiNetDevice" (Some 9%Z)];
     Ns3Node None [Device "CsmaNetDevice" (Some 7%Z); Device "PointToPointNetDevice" (Some 8%Z);
                   Device "LteNetDevice" (Some 9%Z)];
     Ns3Node (Some (5, 5)) [Device "CsmaNetDevice" (Some 7%Z); Device "PointToPointNetDevice" (Some 8%Z)]]
    (λ c, if decide (c = 7)%Z then [0; 1; 2]%Z else if decide (c = 8)%Z then [1; 2]%Z else []).

Definition example_layout (g : graph) (name : string) : list Q :=
  [inject_Z (Z.of_nat (String.length name)); 4].

Lemma example_network_ok : network_ok example_network ∧ layout_ok example_layout.
Proof.
  split.
  - repeat constructor; simpl; try done;
      match goal with H : _ ∈ _ |- _ => cbn in H; set_unfold; lia end.
  - intros g name _. by eexists _, _.
Qed.

Lemma example_connected : connected example_network.
Proof. apply (bool_decide_unpack _). vm_compute. exact Logic.I. Qed.

(** A network device that has not been attached stops the visualizer. *)
Lemma unattached_device_fails :
  let net := Network [Ns3Node None [Device "CsmaNetDevice" None]] (λ _, []) in
  scan_topology net example_layout initial_scan = Raise AttributeError.
Proof. vm_compute. reflexivity. Qed.

Lemma scan_topology_spec_witness :
  ∃ st, scan_topology example_network example_layout initial_scan = Ok st ∧
    wires (sc st) = [(0, ChannelEnd 7); (1, ChannelEnd 7); (1, NodeEnd 2); (2, ChannelEnd 7);
                     (2, NodeEnd 1)]%Z ∧
    get_position (NodeEnd 1) (sc st) = Some (6, 4).
Proof.
  destruct example_network_ok as [Hn Hl].
  pose proof (scan_topology_spec example_network example_layout Hn Hl) as H.
  destruct H as (st & Hst & _ & Hw & Hp).
  exists st. split_and!; [done|rewrite Hw; vm_compute; reflexivity|].
  exact (Hp 1%nat _ eq_refl).
Defined.

Lemma all_links_drawn_witness :
  let _ : DictOrder Z := tree_order in
  ∃ st, scan_topology example_network example_layout initial_scan = Ok st ∧
    wires (update_node_positions example_network (sc st)) = network_wires example_network.
Proof.
  intros ord. destruct example_network_ok as [Hn Hl].
  destruct (@all_links_drawn ord tree_order_ok example_network example_layout Hn Hl example_connected)
    as (st & Hst & Hw & _).
  exists st. split; [exact Hst|exact Hw].
Defined.

(** A point-to-point link is created twice, once from each end, and a channel
    none of whose nodes is in the graph stays at the origin. *)
Lemma link_created_twice :
  filter (λ w, w = (1, NodeEnd 2) ∨ w = (2, NodeEnd 1))%Z (network_wires example_network) =
    [(1, NodeEnd 2); (2, NodeEnd 1)]%Z.
Proof. vm_compute. reflexivity. Qed.

Lemma mobile_channel_at_origin :
  let n := Ns3Node (Some (5, 5)) [Device "CsmaNetDevice" (Some 7%Z)] in
  let net := Network [n; n; n] (λ _, [0; 1; 2]%Z) in
  ∃ st, scan_topology net example_layout initial_scan = Ok st ∧
    get_position (ChannelEnd 7) (sc st) = Some (0, 0).
Proof. eexists. split; [vm_compute; reflexivity|done]. Qed.
