(* ===== verification/WifiMonitor.v ===== *)
(** * The monitor of wireless links

    [WifiLinkMonitor] of [plugins/wifi_intrastructure_link.py]: after the
    topology is scanned it makes one link per station device and records the
    access points by BSSID; after every simulation period it moves the link of
    each station to the access point the station is associated with.

    Parameters: the kind of MAC of each device of a node, and at each period
    whether a station's link is up and its BSSID. *)

From S2P Require Import Prelude PyStr Rat VizBase Scene.

(** A device: its node and its number. *)
Definition device : Type := Z * nat.

Inductive wifi_mac := NotWifi | StaWifiMac | ApWifiMac (bssid : string) | OtherMac.

Record monitor := Monitor {
  access_points : gmap string Z;
  stations : list (device * Z * nat) }.      (** device, node, link *)

Definition new_monitor : monitor := Monitor ∅ [].

Section Monitor.
Context (macs : Z → list wifi_mac).

Definition scan_wifi_device (i : Z) (x : scene * monitor) (kd : nat * wifi_mac) :
    scene * monitor :=
  let '(s, m) := x in
  match kd.2 with
  | NotWifi | OtherMac => (s, m)
  | StaWifiMac =>
      let '(l, s') := new_wifi_link i s in
      (s', Monitor (access_points m) (stations m ++ [((i, kd.1), i, l)]))
  | ApWifiMac b => (s, Monitor (<[b := i]> (access_points m)) (stations m))
  end.

Definition scan_wifi_node (x : scene * monitor) (i : Z) : scene * monitor :=
  foldl (scan_wifi_device i) x (imap (λ k d, (k, d)) (macs i)).

Definition destroy_stations (m : monitor) (s : scene) : scene :=
  foldl (λ s st, destroy st.2 s) s (stations m).

Definition scan_nodes `{!DictOrder Z} (s : scene) (m : monitor) : scene * monitor :=
  foldl scan_wifi_node (destroy_stations m s, new_monitor) (dict_keys (nodes s)).

Section Period.
Context (is_link_up : device → bool) (get_bssid : device → string).

Definition no_bssid : string := "00:00:00:00:00:00".

(** The access point a station is associated with. *)
Definition associated (m : monitor) (d : device) : result exn (option Z) :=
  if negb (is_link_up d) then Ok None
  else if bool_decide (get_bssid d = no_bssid) then Ok None
  else a ← dict_get KeyError (access_points m) (get_bssid d); Ok (Some a).

Definition update_station (m : monitor) (s : scene) (st : device * Z * nat) :
    result exn scene :=
  ap ← associated m st.1.1; set_ap st.2 ap s.

Definition simulation_periodic_update (m : monitor) (s : scene) : result exn scene :=
  fold_res (update_station m) s (stations m).
End Period.

Definition update_view (m : monitor) (s : scene) : scene :=
  foldl (λ s st, update_points st.2 s) s (stations m).
End Monitor.

(** ** The invariant

    Every station has a live link of its own, and every access point is a node. *)
Definition station_link (s : scene) (st : device * Z * nat) : Prop :=
  ∃ ap v d, links s !! st.2 = Some (Wifi (Some st.1.2) ap v d).

Record monitor_ok (m : monitor) (s : scene) : Prop := MonitorOk {
  mo_scene : scene_ok s;
  mo_links : Forall (station_link s) (stations m);
  mo_distinct : NoDup (stations m).*2;
  mo_points : map_Forall (λ _ i, is_Some (nodes s !! i)) (access_points m) }.

Lemma remove_link_links l i s s' : remove_link l i s = Ok s' → links s' = links s.
Proof. unfold remove_link. intros H. destruct (nodes s !! i); [|by simplify_eq]. by res_inv. Qed.

Lemma set_ap_other l ap s s' j :
  set_ap l ap s = Ok s' → j ≠ l → links s' !! j = links s !! j.
Proof.
  unfold set_ap. intros H Hne. destruct (links s !! l) as [[|sta old v d]|]; simplify_eq/=; try done.
  case_bool_decide; [by simplify_eq|]. apply bind_Ok_inv in H as (s1 & Hs1 & H).
  assert (links s1 = links s) as Hl.
  { destruct old as [o|]; [by eapply remove_link_links|by simplify_eq]. }
  destruct ap as [a|]; [destruct sta; [|done]|]; simplify_eq/=.
  - rewrite list_lookup_alter_ne by done. by rewrite list_lookup_insert_ne, Hl by done.
  - by rewrite list_lookup_insert_ne, Hl by done.
Qed.

(** Moving the links of the stations from [l] on. *)
Lemma update_stations_ok up bssid m l : ∀ s,
  scene_ok s → Forall (station_link s) l → NoDup l.*2 →
  map_Forall (λ _ i, is_Some (nodes s !! i)) (access_points m) →
  (∀ st, st ∈ l → is_ok (associated up bssid m st.1.1) = true) →
  ∃ s', fold_res (update_station up bssid m) s l = Ok s' ∧ scene_ok s' ∧
    (∀ j, is_Some (nodes s !! j) → is_Some (nodes s' !! j)) ∧
    (∀ j, j ∉ l.*2 → links s' !! j = links s !! j) ∧
    ∀ st, st ∈ l → ∃ ap v d, associated up bssid m st.1.1 = Ok ap ∧
      links s' !! st.2 = Some (Wifi (Some st.1.2) ap v d).
Proof.
  induction l as [|st l IH]; intros s Hok Hl Hnd Hap Has.
  { exists s. split_and!; try done; set_solver. }
  inversion_clear Hl as [|?? (old & v & d & Hst) Hl']. cbn [fmap list_fmap] in Hnd.
  apply NoDup_cons in Hnd as [Hin Hnd].
  pose proof (Has st ltac:(set_solver)) as Ha.
  destruct (associated up bssid m st.1.1) as [ap|] eqn:Hass; [|done].
  destruct (set_ap_ok st.2 ap st.1.2 old v d s) as (s1 & Hs1 & Hok1 & _ & Hn1 & v' & d' & Hl1 & _);
    [done..| |].
  { intros a ->. unfold associated in Hass. repeat case_match; simplify_eq.
    apply bind_Ok_inv in Hass as (a' & Ha' & [= ->]). unfold dict_get in Ha'.
    destruct (access_points m !! bssid st.1.1) eqn:Hl2; [|done]. simplify_eq/=. by eapply Hap. }
  destruct (IH s1) as (s2 & Hs2 & Hok2 & Hn2 & Ho2 & Hl2); [done| |done| | |].
  { rewrite Forall_forall in Hl' |- *. intros st' Hst'. destruct (Hl' _ Hst') as (a & w & e & He).
    exists a, w, e. rewrite (set_ap_other _ _ _ _ _ Hs1); [done|]. intros Heq. apply Hin.
    rewrite <- Heq. by apply list_elem_of_fmap_2. }
  { intros k i Hk. apply Hn1. by eapply Hap. }
  { intros st' Hst'. apply Has. set_solver. }
  exists s2. cbn [fold_res]. unfold update_station at 2. rewrite Hass. simpl. rewrite Hs1. simpl.
  split_and!; [done|done|by auto| |].
  - intros j Hj. rewrite Ho2 by set_solver. apply (set_ap_other _ _ _ _ _ Hs1). set_solver.
  - intros st' [->|Hst']%elem_of_cons; [|by apply Hl2].
    exists ap, v', d'. split; [done|]. by rewrite Ho2.
Qed.

(** C35: If every associated station names a known access point, the update of a
    period succeeds, keeps the invariant, and leaves the link of each station at
    the access point it is associated with, or at none. *)
Theorem wifi_links_follow_association up bssid m s :
  monitor_ok m s →
  (∀ st, st ∈ stations m → up st.1.1 = true → bssid st.1.1 ≠ no_bssid →
     is_Some (access_points m !! bssid st.1.1)) →
  ∃ s', simulation_periodic_update up bssid m s = Ok s' ∧ monitor_ok m s' ∧
    ∀ st, st ∈ stations m → ∃ v d, links s' !! st.2 = Some (Wifi (Some st.1.2)
      (if up st.1.1 && bool_decide (bssid st.1.1 ≠ no_bssid)
       then access_points m !! bssid st.1.1 else None) v d).
Proof.
  intros [Hok Hl Hnd Hap] Hknown.
  assert (∀ st, st ∈ stations m → associated up bssid m st.1.1 =
    Ok (if up st.1.1 && bool_decide (bssid st.1.1 ≠ no_bssid)
        then access_points m !! bssid st.1.1 else None)) as Has.
  { intros st Hst. specialize (Hknown st Hst). unfold associated, dict_get.
    destruct (up st.1.1); [|done]. simpl. repeat case_bool_decide; try done.
    destruct Hknown as [a ->]; done. }
  destruct (update_stations_ok up bssid m (stations m) s) as (s' & Hs' & Hok' & Hn & _ & Hst');
    [done..| |].
  { intros st Hst. by rewrite Has. }
  exists s'. split_and!; [done| |].
  - split; [done| |done|].
    + apply Forall_forall. intros st Hst. destruct (Hst' _ Hst) as (ap & v & d & _ & H).
      by exists ap, v, d.
    + intros b i Hb. apply Hn. by eapply Hap.
  - intros st Hst. destruct (Hst' _ Hst) as (ap & v & d & Ha & H). rewrite Has in Ha by done.
    injection Ha as <-. by exists v, d.
Qed.

(** An association with an access point that was not scanned is a [KeyError]. *)
Lemma unknown_access_point up bssid m s d i l rest :
  stations m = (d, i, l) :: rest → up d = true → bssid d ≠ no_bssid →
  access_points m !! bssid d = None →
  simulation_periodic_update up bssid m s = Raise KeyError.
Proof.
  intros Hst Hup Hb Hap. unfold simulation_periodic_update. rewrite Hst. simpl.
  unfold update_station, associated. simpl. rewrite Hup. simpl.
  rewrite bool_decide_eq_false_2 by done. unfold dict_get. by rewrite Hap.
Qed.

Lemma scan_device_ok i kd x :
  is_Some (nodes x.1 !! i) → monitor_ok x.2 x.1 →
  monitor_ok (scan_wifi_device i x kd).2 (scan_wifi_device i x kd).1 ∧
  nodes (scan_wifi_device i x kd).1 = nodes x.1.
Proof.
  destruct x as [s m]. simpl. intros Hi [Hok Hl Hnd Hap]. unfold scan_wifi_device.
  destruct kd.2 as [| |b|]; simpl; (split; [|done]); try done.
  - assert (∀ st, station_link s st → (st.2 < length (links s))%nat) as Hlt.
    { intros st (ap & v & d & H). by eapply lookup_lt_Some. }
    split; simpl.
    + by apply (new_wifi_link_ok i s).
    + apply Forall_app. split.
      * eapply Forall_impl; [exact Hl|]. intros st Hst. pose proof (Hlt st Hst) as Hlt'.
        destruct Hst as (ap & v & d & H). exists ap, v, d. simpl.
        by rewrite lookup_app_l by done.
      * constructor; [|done]. exists None, true, None. simpl.
        rewrite lookup_app_r by lia. by rewrite Nat.sub_diag.
    + rewrite fmap_app. apply NoDup_app. split_and!; [done| |apply NoDup_singleton].
      intros j Hj ->%list_elem_of_singleton. apply list_elem_of_fmap in Hj as (st & Heq & Hst).
      rewrite Forall_forall in Hl. specialize (Hlt st (Hl _ Hst)). simpl in Heq. lia.
    + done.
  - split; simpl; [done..|]. by apply map_Forall_insert_2.
Qed.

Lemma scan_wifi_node_ok macs i x :
  is_Some (nodes x.1 !! i) → monitor_ok x.2 x.1 →
  monitor_ok (scan_wifi_node macs x i).2 (scan_wifi_node macs x i).1 ∧
  nodes (scan_wifi_node macs x i).1 = nodes x.1.
Proof.
  unfold scan_wifi_node. generalize (imap (λ k d, (k, d)) (macs i)). intros l. revert x.
  induction l as [|kd l IH]; intros x Hi Hx; [done|]. simpl.
  destruct (scan_device_ok i kd x Hi Hx) as [H1 H2].
  destruct (IH (scan_wifi_device i x kd)) as [H3 H4]; [by rewrite H2|done|].
  split; [done|]. by rewrite H4.
Qed.

Lemma destroy_stations_ok m s :
  scene_ok s → scene_ok (destroy_stations m s) ∧ nodes (destroy_stations m s) = nodes s.
Proof.
  unfold destroy_stations. generalize (stations m). intros l. revert s.
  induction l as [|st l IH]; intros s Hs; [done|]. simpl.
  destruct (IH (destroy st.2 s)) as [H1 H2]; [by apply destroy_ok|].
  split; [done|]. rewrite H2. unfold destroy. by repeat case_match.
Qed.

Lemma scan_nodes_ok `{!DictOrder Z, !DictOrderOk Z} macs s m :
  scene_ok s →
  monitor_ok (scan_nodes macs s m).2 (scan_nodes macs s m).1 ∧
  nodes (scan_nodes macs s m).1 = nodes s.
Proof.
  intros Hs. unfold scan_nodes. destruct (destroy_stations_ok m s Hs) as [H1 H2].
  set (s1 := destroy_stations m s) in *.
  assert (∀ i, i ∈ dict_keys (nodes s) → is_Some (nodes s !! i)) as Hk.
  { intros i. apply elem_of_dict_keys. }
  assert (monitor_ok (s1, new_monitor).2 (s1, new_monitor).1) as H0.
  { split; simpl; [done|constructor|constructor|apply map_Forall_empty]. }
  assert (nodes (s1, new_monitor).1 = nodes s) as Hn by done.
  revert Hk Hn H0. generalize (s1, new_monitor). generalize (dict_keys (nodes s)).
  induction l as [|i l IH]; intros x Hk Hn H0; [done|]. simpl.
  destruct (scan_wifi_node_ok macs i x) as [H3 H4]; [rewrite Hn; apply Hk; set_solver|done|].
  apply IH; [set_solver|by rewrite H4|done].
Qed.

(** Scanning, also again after an earlier scan, gives every station device a
    live link of its own and records only access points that are nodes, so that
    the periodic update starts from a sound state. *)
Theorem scan_nodes_sound `{!DictOrder Z, !DictOrderOk Z} macs s m :
  scene_ok s →
  monitor_ok (scan_nodes macs s m).2 (scan_nodes macs s m).1 ∧
  nodes (scan_nodes macs s m).1 = nodes s.
Proof. apply scan_nodes_ok. Qed.

(** ** A station between two access points *)
Definition wifi_ops : list scene_op := [OpGetNode 0; OpGetNode 1; OpGetNode 2].
Definition wifi_scene : scene :=
  match fold_res apply_op empty_scene wifi_ops with Ok s => s | Raise _ => empty_scene end.
Definition wifi_macs (i : Z) : list wifi_mac :=
  if bool_decide (i = 0)%Z then [NotWifi; StaWifiMac]
  else [ApWifiMac (if bool_decide (i = 1)%Z then "a1" else "a2")].

Lemma wifi_scene_ok : scene_ok wifi_scene.
Proof. apply (apply_ops_ok wifi_ops empty_scene); [vm_compute; reflexivity|apply empty_scene_ok]. Qed.

Lemma scan_nodes_sound_witness :
  let _ : DictOrder Z := tree_order in
  scene_ok wifi_scene ∧
  stations (scan_nodes wifi_macs wifi_scene new_monitor).2 = [((0%Z, 1%nat), 0%Z, 0%nat)] ∧
  monitor_ok (scan_nodes wifi_macs wifi_scene new_monitor).2
    (scan_nodes wifi_macs wifi_scene new_monitor).1.
Proof.
  intros ord. split; [apply wifi_scene_ok|]. split; [vm_compute; reflexivity|].
  exact (proj1 (@scan_nodes_sound ord tree_order_ok wifi_macs wifi_scene new_monitor wifi_scene_ok)).
Defined.

Definition wifi_start : scene * monitor :=
  let _ : DictOrder Z := tree_order in scan_nodes wifi_macs wifi_scene new_monitor.

Lemma wifi_start_ok : monitor_ok wifi_start.2 wifi_start.1.
Proof.
  exact (proj1 (@scan_nodes_ok tree_order tree_order_ok wifi_macs wifi_scene new_monitor
    wifi_scene_ok)).
Qed.

Lemma wifi_links_follow_association_witness :
  let up := λ _ : device, true in
  let bssid := λ _ : device, "a2" in
  ∃ s' v d, simulation_periodic_update up bssid wifi_start.2 wifi_start.1 = Ok s' ∧
    links s' !! 0%nat = Some (Wifi (Some 0%Z) (Some 2%Z) v d).
Proof.
  intros up bssid.
  destruct (wifi_links_follow_association up bssid wifi_start.2 wifi_start.1 wifi_start_ok)
    as (s' & Hs' & _ & H).
  { intros st _ _ _. exists 2%Z. vm_compute. reflexivity. }
  destruct (H ((0%Z, 1%nat), 0%Z, 0%nat)) as (v & d & Hl).
  { assert (stations wifi_start.2 = [((0%Z, 1%nat), 0%Z, 0%nat)]) as -> by (vm_compute; reflexivity).
    set_solver. }
  exists s', v, d. split; [exact Hs'|]. exact Hl.
Defined.

(** The view redraws the links at their present ends. *)
Lemma update_view_draws m s l :
  scene_ok s → l ∈ (stations m).*2 →
  links (update_view m s) !! l = refresh s <$> links s !! l.
Proof.
  intros _ Hl.
  assert (update_view m s = update_all_points (stations m).*2 s) as ->.
  { unfold update_view, update_all_points. generalize (stations m). intros sts. clear Hl.
    revert s. induction sts as [|st sts IH]; intros s; [done|]. simpl. by rewrite IH. }
  destruct (update_all_points_spec (stations m).*2 s) as (ks & -> & _ & Hk). simpl.
  rewrite Hk. destruct (links s !! l); [|done]. simpl. by rewrite decide_True.
Qed.
