(* ===== verification/VizWindow.v ===== *)
(** * The window of the visualizer and its handlers

    [Visualizer] of [src/visualizer/visualizer/core.py]: the selection and the
    nodes of interest (466-477, 1285-1313), panning and zooming (562-619),
    dragging a node (1183-1258), centring and scaling the view (877-893,
    1133-1164), information windows (1315-1324), tooltips (1326-1341) and the
    choice of a screenshot format (1395-1412).

    Gtk is what the handlers ask of it: the pointer, the page sizes, the value
    an adjustment takes when it is set ([clamp]) and the conversion between
    canvas and pixels at a zoom.  Gtk prints an exception raised by a handler and
    goes on, so a handler that raises leaves the state it had reached. *)

From S2P Require Import Prelude PyStr Markup Patch Rat VizBase Scene Topology.
From Stdlib Require Import Ascii.

Local Open Scope Q_scope.

(** ** State *)
Inductive ShowTransmissionsMode := ALL | NONE | SELECTED.

#[export] Instance mode_eq_dec : EqDecision ShowTransmissionsMode.
Proof. solve_decision. Defined.

Record panning_state := Panning {
  initial_mouse_pos : point;
  initial_canvas_pos : point;
  pan_signal : nat }.

Record NodeDragState := Drag {
  canvas0 : point;
  sim0 : point;
  drag_signal : nat }.

(** [pan_handlers] are the connected calls of [_panning_motion], [drag_handlers]
    those of [node_drag_motion] with the node they are connected to. *)
Record viz := Viz {
  scn : scene;
  net : network;
  show_mode : ShowTransmissionsMode;
  selected_node : option Z;
  nodes_of_interest : list Z;
  panning : option panning_state;
  pan_handlers : list nat;
  drag : option NodeDragState;
  drag_handlers : list (Z * nat);
  next_signal : nat;
  hadj : Q;
  vadj : Q;
  zoom : Q;
  information_windows : list nat;
  follow_node : option Z }.

Definition set_scn (s : scene) (v : viz) : viz :=
  Viz s (net v) (show_mode v) (selected_node v) (nodes_of_interest v) (panning v)
    (pan_handlers v) (drag v) (drag_handlers v) (next_signal v) (hadj v) (vadj v) (zoom v)
    (information_windows v) (follow_node v).
Definition set_net (n : network) (v : viz) : viz :=
  Viz (scn v) n (show_mode v) (selected_node v) (nodes_of_interest v) (panning v)
    (pan_handlers v) (drag v) (drag_handlers v) (next_signal v) (hadj v) (vadj v) (zoom v)
    (information_windows v) (follow_node v).
Definition set_mode (m : ShowTransmissionsMode) (v : viz) : viz :=
  Viz (scn v) (net v) m (selected_node v) (nodes_of_interest v) (panning v)
    (pan_handlers v) (drag v) (drag_handlers v) (next_signal v) (hadj v) (vadj v) (zoom v)
    (information_windows v) (follow_node v).
Definition set_selection (i : option Z) (v : viz) : viz :=
  Viz (scn v) (net v) (show_mode v) i (nodes_of_interest v) (panning v)
    (pan_handlers v) (drag v) (drag_handlers v) (next_signal v) (hadj v) (vadj v) (zoom v)
    (information_windows v) (follow_node v).
Definition set_nodes_of_interest (l : list Z) (v : viz) : viz :=
  Viz (scn v) (net v) (show_mode v) (selected_node v) l (panning v)
    (pan_handlers v) (drag v) (drag_handlers v) (next_signal v) (hadj v) (vadj v) (zoom v)
    (information_windows v) (follow_node v).
Definition set_panning (p : option panning_state) (hs : list nat) (n : nat) (v : viz) : viz :=
  Viz (scn v) (net v) (show_mode v) (selected_node v) (nodes_of_interest v) p hs
    (drag v) (drag_handlers v) n (hadj v) (vadj v) (zoom v)
    (information_windows v) (follow_node v).
Definition set_drag (d : option NodeDragState) (hs : list (Z * nat)) (n : nat) (v : viz) : viz :=
  Viz (scn v) (net v) (show_mode v) (selected_node v) (nodes_of_interest v) (panning v)
    (pan_handlers v) d hs n (hadj v) (vadj v) (zoom v)
    (information_windows v) (follow_node v).
Definition set_view (h w z : Q) (v : viz) : viz :=
  Viz (scn v) (net v) (show_mode v) (selected_node v) (nodes_of_interest v) (panning v)
    (pan_handlers v) (drag v) (drag_handlers v) (next_signal v) h w z
    (information_windows v) (follow_node v).
Definition set_windows (l : list nat) (v : viz) : viz :=
  Viz (scn v) (net v) (show_mode v) (selected_node v) (nodes_of_interest v) (panning v)
    (pan_handlers v) (drag v) (drag_handlers v) (next_signal v) (hadj v) (vadj v) (zoom v)
    l (follow_node v).
Definition set_follow (i : option Z) (v : viz) : viz :=
  Viz (scn v) (net v) (show_mode v) (selected_node v) (nodes_of_interest v) (panning v)
    (pan_handlers v) (drag v) (drag_handlers v) (next_signal v) (hadj v) (vadj v) (zoom v)
    (information_windows v) i.

(** ** Selection *)

(** The argument of [select_node], [center_on_node] and [set_follow_node]. *)
Inductive node_arg :=
  | ANs3Node (id : Z) | AInt (i : Z) | ANode (i : Z) | ANone | AOther.

Definition lookup_node (i : Z) (v : viz) : result exn Z :=
  match nodes (scn v) !! i with Some _ => Ok i | None => Raise KeyError end.

Definition set_show_transmissions_mode (m : ShowTransmissionsMode) (v : viz) : viz :=
  let v1 := set_mode m v in
  match show_mode v1 with
  | ALL => set_nodes_of_interest (map Z.of_nat (seq 0 (length (node_list (net v1))))) v1
  | NONE => set_nodes_of_interest [] v1
  | SELECTED =>
      match selected_node v1 with
      | None => set_nodes_of_interest [] v1
      | Some i => set_nodes_of_interest [i] v1
      end
  end.

Definition resolve (a : node_arg) (v : viz) : result exn (option Z) :=
  match a with
  | ANs3Node i | AInt i => j ← lookup_node i v; Ok (Some j)
  | ANode i => Ok (Some i)
  | ANone => Ok None
  | AOther => Raise TypeError
  end.

Definition mark (b : bool) (o : option Z) (v : viz) : viz :=
  match o with Some i => set_scn (set_selected b i (scn v)) v | None => v end.

Definition select_node (a : node_arg) (v : viz) : result exn viz :=
  node ← resolve a v;
  if bool_decide (node = selected_node v) then Ok v
  else
    let v1 := mark false (selected_node v) v in
    let v2 := mark true node (set_selection node v1) in
    Ok (if bool_decide (show_mode v2 = SELECTED)
        then set_nodes_of_interest
               (match selected_node v2 with None => [] | Some i => [i] end) v2
        else v2).

(** Anything else than a node is stored as well, and no node is followed. *)
Definition set_follow_node (a : node_arg) (v : viz) : result exn viz :=
  match a with
  | ANs3Node i => j ← lookup_node i v; Ok (set_follow (Some j) v)
  | ANode i => Ok (set_follow (Some i) v)
  | AInt _ | ANone | AOther => Ok (set_follow None v)
  end.

(** ** Information windows *)
Definition add_information_window (w : nat) (v : viz) : viz :=
  set_windows (information_windows v ++ [w]) v.

Definition remove_information_window (w : nat) (v : viz) : result exn viz :=
  l ← of_option (ValueError "list.remove(x): x not in list")
        (list_remove w (information_windows v));
  Ok (set_windows l v).

(** ** Tooltips

    An item of the canvas is its object, if it has one, and its parent. *)
Inductive item := Root (object : option nat) | Child (object : option nat) (parent : item).

Fixpoint tooltip_object (it : item) : option nat :=
  match it with
  | Root o => o
  | Child (Some o) _ => Some o
  | Child None p => tooltip_object p
  end.

(** ** Screenshots *)
Inductive surface := PSSurface | PDFSurface | SVGSurface.

Definition lower_char (c : ascii) : ascii :=
  let n := nat_of_ascii c in
  if bool_decide (65 ≤ n ∧ n ≤ 90)%nat then ascii_of_nat (n + 32) else c.

Fixpoint lower (s : string) : string :=
  match s with "" => "" | String c s' => String (lower_char c) (lower s') end.

Definition screenshot_surface (file_name : string) : option surface :=
  let extension := lower (splitext file_name).2 in
  if bool_decide (extension = ".eps") then Some PSSurface
  else if bool_decide (extension = ".pdf") then Some PDFSurface
  else if bool_decide (extension = ".svg") then Some SVGSurface
  else None.

Section Handlers.
Context (clamp_h clamp_v : Q → Q) (clamp_zoom : Q → Q).
Context (page : point).
Context (to_pixels from_pixels : Q → point → point).

(** ** Panning and zooming *)
Definition begin_panning (pointer : point) (v : viz) : viz :=
  let n := next_signal v in
  set_panning (Some (Panning pointer (hadj v, vadj v) n)) (pan_handlers v ++ [n]) (S n) v.

Definition end_panning (v : viz) : viz :=
  match panning v with
  | None => v
  | Some p => set_panning None (filter (λ n, n ≠ pan_signal p) (pan_handlers v)) (next_signal v) v
  end.

(** [pointer] is the position of the pointer or of the event. *)
Definition panning_motion (pointer : point) (v : viz) : result exn viz :=
  match panning v with
  | None => Raise AssertionError
  | Some p =>
      let dx := pointer.1 - (initial_mouse_pos p).1 in
      let dy := pointer.2 - (initial_mouse_pos p).2 in
      Ok (set_view (clamp_h ((initial_canvas_pos p).1 - dx))
                   (clamp_v ((initial_canvas_pos p).2 - dy)) (zoom v) v)
  end.

Inductive scroll := SCROLL_UP | SCROLL_DOWN | SCROLL_OTHER.

Definition canvas_scroll_event (d : scroll) (v : viz) : viz * bool :=
  match d with
  | SCROLL_UP => (set_view (hadj v) (vadj v) (clamp_zoom (zoom v * (5 # 4))) v, true)
  | SCROLL_DOWN => (set_view (hadj v) (vadj v) (clamp_zoom (zoom v / (5 # 4))) v, true)
  | SCROLL_OTHER => (v, false)
  end.

Definition canvas_button_press (button : Z) (pointer : point) (v : viz) : viz * bool :=
  if bool_decide (button = 2)%Z then (begin_panning pointer v, true) else (v, false).

Definition canvas_button_release (button : Z) (v : viz) : viz * bool :=
  if bool_decide (button = 2)%Z then (end_panning v, true) else (v, false).

(** The canvas emits a motion event: every connected handler runs, and the
    exceptions are printed and counted. *)
Definition run_pan_handler (pointer : point) (x : viz * nat) (_ : nat) : viz * nat :=
  match panning_motion pointer x.1 with
  | Ok v => (v, x.2)
  | Raise _ => (x.1, S x.2)
  end.

Definition canvas_motion (pointer : point) (v : viz) : viz * nat :=
  foldl (run_pan_handler pointer) (v, 0%nat) (pan_handlers v).

(** ** Dragging a node *)
Definition set_sim_position (i : Z) (p : point) (n : network) : network :=
  Network (alter (λ x, Ns3Node (Some p) (devices x)) (Z.to_nat i) (node_list n))
    (channel_nodes n).

Definition begin_node_drag (i : Z) (pointer : point) (v : viz) : viz :=
  match get_mobility (net v) i with
  | None => v
  | Some pos =>
      match drag v with
      | Some _ => v
      | None =>
          let n := next_signal v in
          set_drag (Some (Drag (from_pixels (zoom v) pointer) pos n))
            (drag_handlers v ++ [(i, n)]) (S n) v
      end
  end.

Definition node_drag_motion (i : Z) (pointer : point) (v : viz) : viz * bool :=
  match get_mobility (net v) i, drag v with
  | None, _ | _, None => (v, false)
  | Some _, Some d =>
      let c := from_pixels (zoom v) pointer in
      let pos := ((sim0 d).1 + transform_distance_canvas_to_simulation (c.1 - (canvas0 d).1),
                  (sim0 d).2 + transform_distance_canvas_to_simulation (c.2 - (canvas0 d).2)) in
      (set_scn (set_position (NodeEnd i) (transform_point_simulation_to_canvas pos) (scn v))
         (set_net (set_sim_position i pos (net v)) v), true)
  end.

Definition end_node_drag (i : Z) (v : viz) : viz :=
  match drag v with
  | None => v
  | Some d =>
      set_drag None (filter (λ h, h ≠ (i, drag_signal d)) (drag_handlers v)) (next_signal v) v
  end.

(** ** Clicks *)
Definition on_root_button_press_event (button : Z) (v : viz) : result exn (viz * bool) :=
  if bool_decide (button = 1)%Z then v' ← select_node ANone v; Ok (v', true) else Ok (v, false).

(** The third button opens the menu of the node. *)
Definition on_node_button_press_event (button i : Z) (pointer : point) (v : viz) :
    result exn (viz * bool) :=
  if bool_decide (button = 1)%Z then v' ← select_node (ANode i) v; Ok (v', true)
  else if bool_decide (button = 3)%Z then Ok (v, true)
  else if bool_decide (button = 2)%Z then Ok (begin_node_drag i pointer v, true)
  else Ok (v, false).

Definition on_node_button_release_event (button i : Z) (v : viz) : viz * bool :=
  if bool_decide (button = 2)%Z then (end_node_drag i v, true) else (v, false).

(** ** The view *)
Definition center_on_node (a : node_arg) (v : viz) : result exn viz :=
  i ← match a with
      | ANs3Node i | AInt i => lookup_node i v
      | ANode i => Ok i
      | ANone | AOther => Raise TypeError
      end;
  match get_position (NodeEnd i) (scn v) with
  | None => Raise KeyError
  | Some c =>
      let px := to_pixels (zoom v) c in
      Ok (set_view (clamp_h (px.1 - page.1 / 2)) (clamp_v (px.2 - page.2 / 2)) (zoom v) v)
  end.

(** [_update_node_positions] also keeps the followed node in the middle. *)
Definition update_position (v : viz) (i : Z) : viz :=
  let '(b, _) := has_mobility (mobile (net v)) i (scn v) in
  let v' := set_scn (follow_mobility (net v) (scn v) i) v in
  match b, get_mobility (net v) i with
  | true, Some pos =>
      if bool_decide (follow_node v = Some i)
      then
        let px := to_pixels (zoom v) (transform_point_simulation_to_canvas pos) in
        set_view (clamp_h (px.1 - page.1 / 2)) (clamp_v (px.2 - page.2 / 2)) (zoom v) v'
      else v'
  | _, _ => v'
  end.

Definition update_positions `{!DictOrder Z} (v : viz) : viz :=
  foldl update_position v (dict_keys (nodes (scn v))).

Definition min_of (f : point → Q) (p : point) (l : list point) : Q :=
  foldl (λ m q, qmin m (f q)) (f p) l.
Definition max_of (f : point → Q) (p : point) (l : list point) : Q :=
  foldl (λ m q, qmax m (f q)) (f p) l.

(** The positions of the nodes, in the order of the dictionary. *)
Definition node_positions `{!DictOrder Z} (s : scene) : list point :=
  dict_keys (nodes s) ≫= λ i,
    match get_position (NodeEnd i) s with Some p => [p] | None => [] end.

(** The state and, unless the view is left alone, the corner [scroll_to] is
    called with. *)
Definition autoscale_view `{!DictOrder Z} (v : viz) : viz * option point :=
  if bool_decide (nodes (scn v) = ∅) then (v, None)
  else
    let v1 := update_positions v in
    match node_positions (scn v1) with
    | [] => (v1, None)
    | p :: ps =>
        let min_x := min_of fst p ps in let min_y := min_of snd p ps in
        let max_x := max_of fst p ps in let max_y := max_of snd p ps in
        let lo := to_pixels (zoom v) (min_x, min_y) in
        let hi := to_pixels (zoom v) (max_x, max_y) in
        let new_dx := (3 # 2) * (hi.1 - lo.1) in
        let new_dy := (3 # 2) * (hi.2 - lo.2) in
        if is_zero new_dx || is_zero new_dy then (v1, None)
        else
          let z := clamp_zoom (qmin (page.1 / new_dx) (page.2 / new_dy)) in
          let v2 := set_view (hadj v1) (vadj v1) z v1 in
          let a := from_pixels z (hadj v1, vadj v1) in
          let b := from_pixels z (hadj v1 + page.1, vadj v1 + page.2) in
          (v2, Some ((min_x + max_x) / 2 - (b.1 - a.1) / 2,
                     (min_y + max_y) / 2 - (b.2 - a.2) / 2))
    end.
End Handlers.

(** ** Attributes that moving a node keeps *)
Section Attributes.
Context {A : Type} (f : Node → A).
Context (f_moved : ∀ p n, f (moved p n) = f n) (f_appearance : ∀ n, f (appearance n) = f n).

Lemma attr_alter g i s j :
  f <$> nodes (alter_node g i s) !! j =
    if decide (i = j) then f ∘ g <$> nodes s !! j else f <$> nodes s !! j.
Proof.
  unfold alter_node. simpl. destruct (decide (i = j)) as [<-|Hne].
  - rewrite lookup_alter_eq. by destruct (nodes s !! i).
  - by rewrite lookup_alter_ne.
Qed.

Lemma attr_set_position e p s j :
  f <$> nodes (set_position e p s) !! j = f <$> nodes s !! j.
Proof.
  destruct e as [i|c].
  - rewrite set_position_nodes. pose proof (attr_alter (moved p) i s j) as H. simpl in H.
    rewrite H. case_decide; [|done]. destruct (nodes s !! j); [|done]. simpl. by rewrite f_moved.
  - unfold set_position. destruct (end_of (ChannelEnd c) s) as [[]|]; [|done].
    by rewrite update_all_points_nodes.
Qed.

Lemma attr_update_appearance i s j :
  f <$> nodes (update_appearance i s) !! j = f <$> nodes s !! j.
Proof.
  unfold update_appearance. destruct (nodes s !! i) as [n|]; [|done].
  assert (f <$> nodes (alter_node appearance i s) !! j = f <$> nodes s !! j) as H.
  { rewrite attr_alter. case_decide; [|done]. destruct (nodes s !! j); [|done]. simpl.
    by rewrite f_appearance. }
  destruct (label n); [by rewrite attr_set_position|done].
Qed.
End Attributes.

Lemma selected_set_selected b i s j :
  selected <$> nodes (set_selected b i s) !! j =
    if decide (i = j) then (λ _, b) <$> nodes s !! j else selected <$> nodes s !! j.
Proof.
  unfold set_selected. rewrite attr_update_appearance by done. by rewrite attr_alter.
Qed.

Lemma selected_has_mobility m i s j :
  selected <$> nodes (has_mobility m i s).2 !! j = selected <$> nodes s !! j.
Proof.
  unfold has_mobility. destruct (nodes s !! i) as [n|] eqn:Hn; [|done].
  destruct (has_mobility_cache n); [done|]. cbn [snd].
  rewrite (attr_alter selected (assign_mobility (m i)) i s j).
  case_decide; [|done]. by destruct (nodes s !! j).
Qed.

Lemma selected_follow n i s j :
  selected <$> nodes (follow_mobility n s i) !! j = selected <$> nodes s !! j.
Proof.
  unfold follow_mobility. pose proof (selected_has_mobility (mobile n) i s j) as H.
  destruct (has_mobility (mobile n) i s) as [b s']. simpl in H.
  destruct b; [|done]. destruct (get_mobility n i); [|done].
  by rewrite attr_set_position.
Qed.

(** ** The selection *)

(** The node marked as selected is the selected one, and the simulator is asked
    for every node, for none, or for the selected one. *)
Record selection_ok (v : viz) : Prop := SelectionOk {
  sel_marked j n : nodes (scn v) !! j = Some n → selected n = true ↔ selected_node v = Some j;
  sel_all : show_mode v = ALL →
    nodes_of_interest v = seqZ 0 (Z.of_nat (length (node_list (net v))));
  sel_none : show_mode v = NONE → nodes_of_interest v = [];
  sel_selected : show_mode v = SELECTED →
    nodes_of_interest v = option_list (selected_node v) }.

(** The same flags, mode, selection and network size. *)
Definition same_selection (v v' : viz) : Prop :=
  (∀ j, selected <$> nodes (scn v') !! j = selected <$> nodes (scn v) !! j) ∧
  show_mode v' = show_mode v ∧ selected_node v' = selected_node v ∧
  nodes_of_interest v' = nodes_of_interest v ∧
  length (node_list (net v')) = length (node_list (net v)).

Lemma same_selection_refl v : same_selection v v.
Proof. by repeat split. Qed.

Lemma same_selection_trans v1 v2 v3 :
  same_selection v1 v2 → same_selection v2 v3 → same_selection v1 v3.
Proof.
  intros (A1 & B1 & C1 & D1 & E1) (A2 & B2 & C2 & D2 & E2). split_and!; congruence.
Qed.

Lemma same_selection_ok v v' : same_selection v v' → selection_ok v → selection_ok v'.
Proof.
  intros (A & B & C & D & E) [H1 Ha Hn Hs]. split; rewrite ?B, ?C, ?D, ?E; auto.
  intros j n Hj. specialize (A j). rewrite Hj in A. symmetry in A.
  apply fmap_Some in A as (n0 & Hn0 & ->). rewrite <- C. rewrite C. by apply H1.
Qed.

Lemma select_node_ok a v v' : select_node a v = Ok v' → selection_ok v → selection_ok v'.
Proof.
  intros H [H1 Ha Hno Hs]. unfold select_node in H. apply bind_Ok_inv in H as (node & _ & H).
  case_bool_decide as Heq; [by simplify_eq|]. injection H as <-.
  set (v1 := mark false (selected_node v) v).
  set (v2 := mark true node (set_selection node v1)).
  assert (∀ b o u, show_mode (mark b o u) = show_mode u ∧ selected_node (mark b o u) = selected_node u ∧
    nodes_of_interest (mark b o u) = nodes_of_interest u ∧ net (mark b o u) = net u) as Hm.
  { intros b [i|] u; done. }
  assert (show_mode v2 = show_mode v ∧ selected_node v2 = node ∧
    nodes_of_interest v2 = nodes_of_interest v ∧ net v2 = net v) as (M & S & N & L).
  { destruct (Hm true node (set_selection node v1)) as (P1 & P2 & P3 & P4).
    destruct (Hm false (selected_node v) v) as (Q1 & _ & Q3 & Q4).
    fold v1 in Q1, Q3, Q4. fold v2 in P1, P2, P3, P4. simpl in P1, P2, P3, P4.
    split_and!; congruence. }
  assert (∀ j n, nodes (scn v2) !! j = Some n → selected n = true ↔ node = Some j) as Hflags.
  { intros j n Hn.
    assert (∀ b o (u : viz) k, selected <$> nodes (scn (mark b o u)) !! k =
      if decide (o = Some k) then (λ _, b) <$> nodes (scn u) !! k
      else selected <$> nodes (scn u) !! k) as Hmk.
    { intros b [i|] u k; simpl; [|done]. rewrite selected_set_selected.
      repeat case_decide; naive_solver. }
    pose proof (Hmk true node (set_selection node v1) j) as E2. fold v2 in E2.
    rewrite Hn in E2. simpl in E2.
    pose proof (Hmk false (selected_node v) v j) as E1. fold v1 in E1.
    destruct (decide (node = Some j)) as [Hd|Hd].
    - destruct (nodes (scn v1) !! j); [|done]. injection E2 as ->. tauto.
    - rewrite E1 in E2. destruct (decide (selected_node v = Some j)) as [Hd'|Hd'].
      + destruct (nodes (scn v) !! j); [|done]. injection E2 as ->. split; [done|]. tauto.
      + destruct (nodes (scn v) !! j) as [n0|] eqn:Hn0; [|done]. injection E2 as ->.
        rewrite (H1 _ _ Hn0). tauto. }
  fold v1 v2. case_bool_decide as Hsel; split; simpl; rewrite ?S; try done; try congruence.
  - rewrite N, M, L. done.
  - rewrite N, M. done.
Qed.

Lemma set_mode_ok m v : selection_ok v → selection_ok (set_show_transmissions_mode m v).
Proof.
  intros [H1 _ _ _]. unfold set_show_transmissions_mode.
  destruct m; simpl; [| |destruct (selected_node v) eqn:Hsel]; split; simpl; try done;
    rewrite ?Hsel; try done; try (by intros j n Hn; rewrite <- Hsel; apply H1).
  intros _. unfold seqZ. rewrite Nat2Z.id. apply list_fmap_ext. intros _ k _. lia.
Qed.

Ltac same_sel := unfold same_selection; split_and!; done.

(** ** All handlers *)
Section Runs.
Context (clamp_h clamp_v : Q → Q) (clamp_zoom : Q → Q) (page : point).
Context (to_pixels from_pixels : Q → point → point) `{!DictOrder Z}.

Inductive handler :=
  | HMode (m : ShowTransmissionsMode)
  | HSelect (a : node_arg)
  | HFollow (a : node_arg)
  | HCenter (a : node_arg)
  | HRootPress (button : Z)
  | HNodePress (button i : Z) (pointer : point)
  | HNodeRelease (button i : Z)
  | HNodeMotion (i : Z) (pointer : point)
  | HCanvasPress (button : Z) (pointer : point)
  | HCanvasRelease (button : Z)
  | HCanvasMotion (pointer : point)
  | HScroll (d : scroll)
  | HAddWindow (w : nat)
  | HRemoveWindow (w : nat)
  | HUpdatePositions
  | HAutoscale.

Definition keep (v : viz) (r : result exn viz) : viz := match r with Ok v' => v' | Raise _ => v end.

Definition run_handler (v : viz) (h : handler) : viz :=
  match h with
  | HMode m => set_show_transmissions_mode m v
  | HSelect a => keep v (select_node a v)
  | HFollow a => keep v (set_follow_node a v)
  | HCenter a => keep v (center_on_node clamp_h clamp_v page to_pixels a v)
  | HRootPress b => keep v (fst <$> on_root_button_press_event b v)
  | HNodePress b i p => keep v (fst <$> on_node_button_press_event from_pixels b i p v)
  | HNodeRelease b i => (on_node_button_release_event b i v).1
  | HNodeMotion i p => (node_drag_motion from_pixels i p v).1
  | HCanvasPress b p => (canvas_button_press b p v).1
  | HCanvasRelease b => (canvas_button_release b v).1
  | HCanvasMotion p => (canvas_motion clamp_h clamp_v p v).1
  | HScroll d => (canvas_scroll_event clamp_zoom d v).1
  | HAddWindow w => add_information_window w v
  | HRemoveWindow w => keep v (remove_information_window w v)
  | HUpdatePositions => update_positions clamp_h clamp_v page to_pixels v
  | HAutoscale => (autoscale_view clamp_h clamp_v clamp_zoom page to_pixels from_pixels v).1
  end.

Definition run_handlers (hs : list handler) (v : viz) : viz := foldl run_handler v hs.

Lemma keep_ok (r : result exn viz) v :
  (∀ v', r = Ok v' → selection_ok v') → selection_ok v → selection_ok (keep v r).
Proof. destruct r; naive_solver. Qed.

Lemma pan_same p v : same_selection v (canvas_motion clamp_h clamp_v p v).1.
Proof.
  unfold canvas_motion. generalize (pan_handlers v). intros l.
  assert (∀ x : viz * nat, same_selection v x.1 →
    same_selection v (foldl (run_pan_handler clamp_h clamp_v p) x l).1) as H.
  { induction l as [|n l IH]; intros x Hx; [done|]. simpl. apply IH.
    unfold run_pan_handler, panning_motion. destruct (panning x.1); [|done].
    eapply same_selection_trans; [exact Hx|same_sel]. }
  apply H, same_selection_refl.
Qed.

Lemma begin_drag_same i p v : same_selection v (begin_node_drag from_pixels i p v).
Proof.
  unfold begin_node_drag. destruct (get_mobility (net v) i), (drag v); same_sel.
Qed.

Lemma drag_motion_same i p v : same_selection v (node_drag_motion from_pixels i p v).1.
Proof.
  unfold node_drag_motion. destruct (get_mobility (net v) i), (drag v); try same_sel.
  split_and!; simpl; try done; [|by rewrite length_alter].
  intros j. by rewrite attr_set_position.
Qed.

Lemma update_position_same v i :
  same_selection v (update_position clamp_h clamp_v page to_pixels v i).
Proof.
  unfold update_position. destruct (has_mobility _ i (scn v)) as [b s].
  assert (same_selection v (set_scn (follow_mobility (net v) (scn v) i) v)) as Hs.
  { split_and!; try done. intros j. apply selected_follow. }
  repeat case_match; try done.
Qed.

Lemma update_positions_same v :
  same_selection v (update_positions clamp_h clamp_v page to_pixels v).
Proof.
  unfold update_positions. generalize (dict_keys (nodes (scn v))). intros l. revert v.
  induction l as [|i l IH]; intros v; [apply same_selection_refl|]. simpl.
  eapply same_selection_trans; [apply update_position_same|apply IH].
Qed.

Lemma autoscale_same v :
  same_selection v (autoscale_view clamp_h clamp_v clamp_zoom page to_pixels from_pixels v).1.
Proof.
  unfold autoscale_view. case_bool_decide; [apply same_selection_refl|]. cbn zeta.
  pose proof (update_positions_same v) as Hs.
  destruct (node_positions _); [done|]. case_match; [done|].
  eapply same_selection_trans; [exact Hs|]. same_sel.
Qed.

Lemma run_handler_ok h v : selection_ok v → selection_ok (run_handler v h).
Proof.
  intros Hv. destruct h; simpl;
    try (eapply same_selection_ok; [|exact Hv]; same_sel).
  - by apply set_mode_ok.
  - apply keep_ok; [|done]. intros v' H. by eapply select_node_ok.
  - apply keep_ok; [|done]. intros v' H. eapply same_selection_ok; [|exact Hv].
    destruct a; simpl in H; res_inv; simplify_eq/=; same_sel.
  - apply keep_ok; [|done]. intros v' H. eapply same_selection_ok; [|exact Hv].
    unfold center_on_node in H. apply bind_Ok_inv in H as (i & _ & H).
    destruct (get_position (NodeEnd i) (scn v)); simplify_eq/=. same_sel.
  - apply keep_ok; [|done]. intros v' H. unfold on_root_button_press_event in H.
    case_bool_decide; simplify_eq/=; [|done]. destruct (select_node ANone v) eqn:Hs; simplify_eq/=.
    by eapply select_node_ok.
  - apply keep_ok; [|done]. intros v' H. unfold on_node_button_press_event in H.
    repeat case_bool_decide; simplify_eq/=; try done.
    + destruct (select_node (ANode i) v) eqn:Hs; simplify_eq/=. by eapply select_node_ok.
    + eapply same_selection_ok; [apply begin_drag_same|done].
  - eapply same_selection_ok; [|exact Hv]. unfold on_node_button_release_event, end_node_drag.
    case_bool_decide; [destruct (drag v)|]; same_sel.
  - eapply same_selection_ok; [|exact Hv]. apply drag_motion_same.
  - eapply same_selection_ok; [|exact Hv]. unfold canvas_button_press. case_bool_decide; same_sel.
  - eapply same_selection_ok; [|exact Hv]. unfold canvas_button_release, end_panning.
    case_bool_decide; [destruct (panning v)|]; same_sel.
  - eapply same_selection_ok; [|exact Hv]. apply pan_same.
  - eapply same_selection_ok; [|exact Hv]. destruct d; same_sel.
  - apply keep_ok; [|done]. intros v' H. eapply same_selection_ok; [|exact Hv].
    unfold remove_information_window in H. res_inv. same_sel.
  - eapply same_selection_ok; [|exact Hv]. apply update_positions_same.
  - eapply same_selection_ok; [|exact Hv]. apply autoscale_same.
Qed.

(** C17: Whatever handlers run, in whatever order and with whatever arguments,
    the node shown as selected is the selected node and no other is, and the
    simulator records the transmissions of exactly the nodes the mode asks for:
    every node of the network in the mode ALL, no node in the mode NONE, the
    selected node (no node, when none is selected) in the mode SELECTED. *)
Theorem selection_consistent hs v :
  selection_ok v →
  let v' := run_handlers hs v in
  (∀ j n, nodes (scn v') !! j = Some n → selected n = true ↔ selected_node v' = Some j) ∧
  NoDup (nodes_of_interest v') ∧
  (∀ i, i ∈ nodes_of_interest v' ↔
     (show_mode v' = ALL ∧ (0 ≤ i < Z.of_nat (length (node_list (net v'))))%Z) ∨
     (show_mode v' = SELECTED ∧ selected_node v' = Some i)).
Proof.
  intros Hv. assert (selection_ok (run_handlers hs v)) as [H1 Ha Hn Hs].
  { unfold run_handlers. revert v Hv. induction hs as [|h hs IH]; intros v Hv; [done|].
    simpl. by apply IH, run_handler_ok. }
  cbn zeta. split; [done|]. destruct (show_mode _).
  - rewrite Ha by done. split; [apply NoDup_seqZ|]. intros i. rewrite elem_of_seqZ.
    split; [left; split; [done|lia]|intros [[_ ?]|[? _]]; [lia|done]].
  - rewrite Hn by done. split; [constructor|]. intros i. rewrite elem_of_nil. naive_solver.
  - rewrite Hs by done. split; [destruct (selected_node _); simpl; [apply NoDup_singleton|constructor]|].
    intros i. destruct (selected_node _); simpl; rewrite ?list_elem_of_singleton, ?elem_of_nil;
      naive_solver.
Qed.
End Runs.

(** ** A window *)
Definition example_viz : viz :=
  Viz (match scan_topology example_network example_layout initial_scan with
       | Ok st => sc st
       | Raise _ => empty_scene
       end)
    example_network ALL None [0; 1; 2]%Z None [] None [] 0 0 0 1 [] None.

Lemma example_viz_ok : selection_ok example_viz.
Proof.
  split; [|done..]. intros j n Hn.
  assert (map_Forall (λ _ n, selected n = false) (nodes (scn example_viz))) as H.
  { apply (bool_decide_eq_true_1 _). vm_compute. reflexivity. }
  specialize (H _ _ Hn). simpl in H. rewrite H. split; [done|]. discriminate.
Qed.

Definition example_handlers : list handler :=
  [HSelect (AInt 0); HMode SELECTED; HNodePress 1 2 (0, 0); HSelect (AInt 9); HUpdatePositions;
   HSelect AOther; HAutoscale].

Lemma selection_consistent_witness :
  let v := @run_handlers id id id (600, 450) (λ _ p, p) (λ _ p, p) tree_order example_handlers
             example_viz in
  selected_node v = Some 2%Z ∧ nodes_of_interest v = [2]%Z ∧ show_mode v = SELECTED ∧
  NoDup (nodes_of_interest v) ∧
  (∀ i, i ∈ nodes_of_interest v ↔
     (show_mode v = ALL ∧ (0 ≤ i < Z.of_nat (length (node_list (net v))))%Z) ∨
     (show_mode v = SELECTED ∧ selected_node v = Some i)).
Proof.
  intros v. do 3 (split; [vm_compute; reflexivity|]).
  apply (@selection_consistent id id id (600, 450) (λ _ p, p) (λ _ p, p) tree_order
    example_handlers example_viz example_viz_ok).
Defined.

(** ** Dragging *)
Section Dragging.
Context (from_pixels : Q → point → point).

Definition dragging (i : Z) (pos0 : point) (c0 : point) (n : nat) (hs : list (Z * nat)) (v : viz) : Prop :=
  drag v = Some (Drag c0 pos0 n) ∧ drag_handlers v = hs ∧ is_Some (get_mobility (net v) i) ∧
  is_Some (nodes (scn v) !! i).

Lemma get_mobility_set i p nw :
  is_Some (get_mobility nw i) → get_mobility (set_sim_position i p nw) i = Some p.
Proof.
  unfold get_mobility, set_sim_position. simpl. intros [q Hq].
  rewrite list_lookup_alter_eq. by destruct (node_list nw !! Z.to_nat i).
Qed.

Lemma drag_motion_step i pos0 c0 n hs ptr v :
  dragging i pos0 c0 n hs v →
  let v' := (node_drag_motion from_pixels i ptr v).1 in
  let c := from_pixels (zoom v) ptr in
  let q := (pos0.1 + (c.1 - c0.1) / 3, pos0.2 + (c.2 - c0.2) / 3) in
  dragging i pos0 c0 n hs v' ∧ zoom v' = zoom v ∧ next_signal v' = next_signal v ∧
  get_mobility (net v') i = Some q ∧
  get_position (NodeEnd i) (scn v') = Some (transform_point_simulation_to_canvas q).
Proof.
  intros (Hd & Hh & Hm & Hn). unfold node_drag_motion. destruct Hm as [m Hm]. rewrite Hm, Hd.
  simpl. unfold dragging. simpl. rewrite get_mobility_set by (by rewrite Hm).
  split_and!; try done.
  - rewrite set_position_nodes. by rewrite lookup_alter_is_Some.
  - apply position_set_position_eq. by apply is_Some_end_node.
Qed.

Lemma drag_motions i pos0 c0 n hs ptrs : ∀ v,
  dragging i pos0 c0 n hs v →
  let v' := foldl (λ v p, (node_drag_motion from_pixels i p v).1) v ptrs in
  dragging i pos0 c0 n hs v' ∧ zoom v' = zoom v ∧ next_signal v' = next_signal v.
Proof.
  induction ptrs as [|p ptrs IH]; intros v Hv; [done|]. simpl.
  destruct (drag_motion_step i pos0 c0 n hs p v Hv) as (H1 & H2 & H3 & _).
  destruct (IH _ H1) as (H4 & H5 & H6). split_and!; congruence || done.
Qed.

(** Dragging a node with the middle button: from the press to the release the
    node follows the pointer, in the simulation by the distance on the canvas
    over the scale and on the canvas by that distance itself; the release
    disconnects the handler the press connected. *)
Theorem drag_moves_node i pos0 ptr0 ptrs ptr v :
  get_mobility (net v) i = Some pos0 → drag v = None → is_Some (nodes (scn v) !! i) →
  Forall (λ h, (h.2 < next_signal v)%nat) (drag_handlers v) →
  let v1 := foldl (λ v p, (node_drag_motion from_pixels i p v).1)
              (begin_node_drag from_pixels i ptr0 v) (ptrs ++ [ptr]) in
  let v2 := end_node_drag i v1 in
  let c := from_pixels (zoom v) ptr in let c0 := from_pixels (zoom v) ptr0 in
  ∃ q p, get_mobility (net v2) i = Some q ∧ get_position (NodeEnd i) (scn v2) = Some p ∧
    point_eq q (pos0.1 + (c.1 - c0.1) / 3, pos0.2 + (c.2 - c0.2) / 3) ∧
    point_eq p (3 * pos0.1 + (c.1 - c0.1), 3 * pos0.2 + (c.2 - c0.2)) ∧
    drag v2 = None ∧ drag_handlers v2 = drag_handlers v.
Proof.
  intros Hm Hd Hn Hfresh. unfold begin_node_drag. rewrite Hm, Hd. cbv zeta.
  set (n := next_signal v). set (c0 := from_pixels (zoom v) ptr0).
  set (hs := (drag_handlers v ++ [(i, n)])%list).
  set (v0 := set_drag _ _ _ v).
  assert (dragging i pos0 c0 n hs v0) as H0 by (by split_and!).
  rewrite foldl_app. simpl.
  destruct (drag_motions i pos0 c0 n hs ptrs v0 H0) as (H1 & Hz & _).
  set (v1 := foldl _ v0 ptrs) in *.
  destruct (drag_motion_step i pos0 c0 n hs ptr v1 H1) as ((Hd1 & Hh1 & _) & _ & _ & Hq & Hp).
  rewrite Hz in Hq, Hp. change (zoom v0) with (zoom v) in Hq, Hp.
  unfold end_node_drag. rewrite Hd1. simpl. eexists _, _. split_and!; [exact Hq|exact Hp|done| |done|].
  - unfold point_eq, transform_point_simulation_to_canvas, PIXELS_PER_METER. simpl. split; field.
  - rewrite Hh1. unfold hs. rewrite filter_app. rewrite (filter_none _ [(i, n)]).
    + rewrite app_nil_r. apply filter_all. eapply Forall_impl; [exact Hfresh|].
      intros [j m] Hlt [= -> ->]. simpl in Hlt. unfold n in Hlt. lia.
    + constructor; [|done]. simpl. tauto.
Qed.

(** A second press during the drag is ignored, and motions after the release,
    too. *)
Lemma drag_guards i j p v d :
  drag v = Some d → begin_node_drag from_pixels j p v = v ∧
  node_drag_motion from_pixels i p (end_node_drag i v) = (end_node_drag i v, false).
Proof.
  intros Hd. unfold begin_node_drag, node_drag_motion, end_node_drag. rewrite Hd.
  split; [by destruct (get_mobility (net v) j)|]. simpl. by destruct (get_mobility (net v) i).
Qed.
End Dragging.

Lemma drag_moves_node_witness :
  let fp := λ _ p, p : point in
  get_mobility (net example_viz) 0 = Some (1, 2) ∧
  ∃ q p, get_mobility (net (end_node_drag 0 (foldl (λ v p, (node_drag_motion fp 0 p v).1)
      (begin_node_drag fp 0 (10, 10) example_viz) [(50, 50); (40, 16)]))) 0 = Some q ∧
    point_eq q (1 + (40 - 10) / 3, 2 + (16 - 10) / 3) ∧
    point_eq p (3 * 1 + (40 - 10), 3 * 2 + (16 - 10)).
Proof.
  intros fp. split; [reflexivity|].
  destruct (drag_moves_node fp 0 (1, 2) (10, 10) [(50, 50)] (40, 16) example_viz)
    as (q & p & Hq & _ & Hqe & Hpe & _).
  - reflexivity.
  - reflexivity.
  - vm_compute. eauto.
  - constructor.
  - exists q, p. split; [exact Hq|]. split; [exact Hqe|exact Hpe].
Defined.

(** ** Panning *)
Section PanningProofs.
Context (clamp_h clamp_v : Q → Q).

(** A press of the middle button on the canvas, any motions and the release
    move the view by the whole way of the pointer, without an exception, and
    leave no handler connected. *)
Theorem panning_moves_view p0 ps p v :
  panning v = None → pan_handlers v = [] →
  let motion := λ (x : viz * nat) q,
    let '(u, e) := canvas_motion clamp_h clamp_v q x.1 in (u, (x.2 + e)%nat) in
  let '(v1, errors) := foldl motion ((canvas_button_press 2 p0 v).1, 0%nat) (ps ++ [p]) in
  let v2 := (canvas_button_release 2 v1).1 in
  errors = 0%nat ∧ panning v2 = None ∧ pan_handlers v2 = [] ∧
  hadj v2 = clamp_h (hadj v - (p.1 - p0.1)) ∧ vadj v2 = clamp_v (vadj v - (p.2 - p0.2)).
Proof.
  intros Hp Hh motion.
  set (st := Panning p0 (hadj v, vadj v) (next_signal v)).
  assert (∀ (x : viz * nat) q, panning x.1 = Some st → pan_handlers x.1 = [next_signal v] →
    panning (motion x q).1 = Some st ∧ pan_handlers (motion x q).1 = [next_signal v] ∧
    (motion x q).2 = x.2 ∧ hadj (motion x q).1 = clamp_h (hadj v - (q.1 - p0.1)) ∧
    vadj (motion x q).1 = clamp_v (vadj v - (q.2 - p0.2))) as Hstep.
  { intros [u e] q Hpu Hhu. simpl in Hpu, Hhu. unfold motion, canvas_motion. simpl.
    rewrite Hhu. simpl. unfold run_pan_handler, panning_motion. simpl. rewrite Hpu. simpl.
    by rewrite Nat.add_0_r. }
  assert (∀ l (x : viz * nat), panning x.1 = Some st → pan_handlers x.1 = [next_signal v] →
    panning (foldl motion x l).1 = Some st ∧ pan_handlers (foldl motion x l).1 = [next_signal v] ∧
    (foldl motion x l).2 = x.2) as Hall.
  { induction l as [|q l IH]; intros x H1 H2; [done|]. simpl.
    destruct (Hstep x q H1 H2) as (H3 & H4 & H5 & _). destruct (IH _ H3 H4) as (? & ? & ->). done. }
  unfold canvas_button_press. simpl. rewrite foldl_app. simpl.
  destruct (Hall ps (begin_panning p0 v, 0%nat)) as (H1 & H2 & H3); [done|by simpl; rewrite Hh|].
  set (x := foldl motion _ ps) in *.
  destruct (Hstep x p H1 H2) as (H4 & H5 & H6 & H7 & H8).
  destruct (motion x p) as [v1 e] eqn:Hm. simpl in *.
  unfold end_panning. rewrite H4. simpl. rewrite H5.
  split_and!; [congruence|done| |done|done].
  rewrite filter_cons_False; [done|]. simpl. tauto.
Qed.

(** A second press before the release (Gtk delivers one for a double click)
    connects a second handler and forgets the first: after the release every
    motion of the pointer over the canvas raises the assertion, for good. *)
Theorem panning_double_press p0 p1 v q :
  panning v = None → pan_handlers v = [] →
  let v' := (canvas_button_release 2 (canvas_button_press 2 p1 (canvas_button_press 2 p0 v).1).1).1 in
  panning v' = None ∧ pan_handlers v' = [next_signal v] ∧
  panning_motion clamp_h clamp_v q v' = Raise AssertionError ∧
  canvas_motion clamp_h clamp_v q v' = (v', 1%nat).
Proof.
  intros Hp Hh. unfold canvas_button_press, canvas_button_release, begin_panning, end_panning.
  simpl. rewrite Hh. simpl.
  assert (filter (λ n, n ≠ S (next_signal v)) [next_signal v; S (next_signal v)] = [next_signal v]) as Hf.
  { rewrite filter_cons_True by lia. rewrite filter_cons_False by tauto. done. }
  unfold canvas_motion, run_pan_handler, panning_motion. simpl. rewrite Hf. done.
Qed.
End PanningProofs.

Lemma panning_moves_view_witness :
  let v1 := (canvas_motion id id (30, 5) (canvas_button_press 2 (10, 10) example_viz).1).1 in
  hadj (canvas_button_release 2 v1).1 == -20 ∧
  hadj (canvas_button_release 2 v1).1 = id (hadj example_viz - (30 - 10)).
Proof.
  intros v1. split; [reflexivity|].
  pose proof (panning_moves_view id id (10, 10) [] (30, 5) example_viz eq_refl eq_refl) as H.
  destruct H as (_ & _ & _ & H & _). exact H.
Defined.

Lemma panning_double_press_witness :
  pan_handlers (canvas_button_release 2
    (canvas_button_press 2 (1, 1) (canvas_button_press 2 (1, 1) example_viz).1).1).1 = [0%nat].
Proof.
  by apply (panning_double_press id id (1, 1) (1, 1) example_viz (0, 0)).
Defined.

(** ** Following a node *)
Section Following.
Context (clamp_h clamp_v clamp_zoom : Q → Q) (page : point).
Context (to_pixels from_pixels : Q → point → point).

Abbreviation update_one := (update_position clamp_h clamp_v page to_pixels).

Lemma scn_update_position v i :
  scn (update_one v i) = follow_mobility (net v) (scn v) i.
Proof.
  unfold update_position. destruct (has_mobility _ i (scn v)). repeat case_match; done.
Qed.

Lemma update_position_rest v i :
  net (update_one v i) = net v ∧ zoom (update_one v i) = zoom v ∧
  follow_node (update_one v i) = follow_node v.
Proof.
  unfold update_position. destruct (has_mobility _ i (scn v)). repeat case_match; done.
Qed.

Lemma scn_foldl_update l v :
  scn (foldl update_one v l) = foldl (follow_mobility (net v)) (scn v) l.
Proof.
  revert v; induction l as [|i l IH]; intros v; [done|]. simpl.
  rewrite IH, scn_update_position. destruct (update_position_rest v i) as [-> _]. done.
Qed.

(** The update of the window moves the nodes as the update of the scene does. *)
Lemma scn_update_positions `{!DictOrder Z} v :
  scn (update_positions clamp_h clamp_v page to_pixels v) = update_node_positions (net v) (scn v).
Proof. apply scn_foldl_update. Qed.

(** The cached answers to [has_mobility] are right. *)
Definition mobility_cached (n : network) (s : scene) : Prop :=
  ∀ j b, cache j s = Some (Some b) → b = mobile n j.

Lemma has_mobility_answer n i s :
  mobility_cached n s → is_Some (nodes s !! i) → (has_mobility (mobile n) i s).1 = mobile n i.
Proof.
  intros Hc [m Hm]. unfold has_mobility. rewrite Hm.
  destruct (has_mobility_cache m) as [b|] eqn:Hb; [|done]. simpl. apply Hc.
  unfold cache. by rewrite Hm; simpl; rewrite Hb.
Qed.

Lemma foldl_centres l i pos v :
  get_mobility (net v) i = Some pos → follow_node v = Some i →
  scene_ok (scn v) → mobility_cached (net v) (scn v) →
  (∀ j, j ∈ l → is_Some (nodes (scn v) !! j)) →
  let px := to_pixels (zoom v) (transform_point_simulation_to_canvas pos) in
  i ∈ l ∨ (hadj v = clamp_h (px.1 - page.1 / 2) ∧ vadj v = clamp_v (px.2 - page.2 / 2)) →
  hadj (foldl update_one v l) = clamp_h (px.1 - page.1 / 2) ∧
  vadj (foldl update_one v l) = clamp_v (px.2 - page.2 / 2).
Proof.
  intros Hpos. revert v Hpos. induction l as [|j l IH]; intros v Hpos Hf Hok Hc Hl px Hi.
  { destruct Hi as [Hi|Hi]; [set_solver|done]. }
  destruct (follow_mobility_spec (net v) (scn v) j Hok Hc (Hl j ltac:(set_solver)))
    as ([O S C _ _ _] & _ & _).
  destruct (update_position_rest v j) as (En & Ez & Ef).
  assert (∀ k, k ∈ l → is_Some (nodes (scn (update_one v j)) !! k)) as Hl'.
  { intros k Hk. rewrite scn_update_position. apply end_node_is_Some, S, is_Some_end_node, Hl.
    set_solver. }
  pose proof (IH (update_one v j)) as IHv. rewrite En, Ez, Ef in IHv.
  apply IHv; [done|done|by rewrite scn_update_position..|done|]. clear IHv IH Hl'.
  destruct (decide (j = i)) as [->|Hji].
  - right. pose proof (has_mobility_answer _ i _ Hc (Hl i ltac:(set_solver))) as Hb.
    unfold update_position. destruct (has_mobility _ i (scn v)) as [b s']. simpl in Hb.
    unfold mobile in Hb. rewrite Hpos in Hb. rewrite bool_decide_eq_true_2 in Hb by done. subst b.
    rewrite Hpos, bool_decide_eq_true_2 by done. done.
  - destruct Hi as [Hi|Hi]; [left; set_solver|right].
    unfold update_position. destruct (has_mobility _ j (scn v)) as [b s'].
    destruct b, (get_mobility (net v) j); try done.
    rewrite bool_decide_eq_false_2 by congruence. done.
Qed.

(** After an update of the positions, a followed mobile node is drawn at the
    place its mobility model gives, and the adjustments have been set so that
    this place, in pixels, is the middle of the page. *)
Theorem followed_node_centred `{!DictOrder Z, !DictOrderOk Z} v i pos :
  scene_ok (scn v) → mobility_cached (net v) (scn v) → is_Some (nodes (scn v) !! i) →
  follow_node v = Some i → get_mobility (net v) i = Some pos →
  let v' := update_positions clamp_h clamp_v page to_pixels v in
  let c := transform_point_simulation_to_canvas pos in
  get_position (NodeEnd i) (scn v') = Some c ∧
  hadj v' = clamp_h ((to_pixels (zoom v) c).1 - page.1 / 2) ∧
  vadj v' = clamp_v ((to_pixels (zoom v) c).2 - page.2 / 2).
Proof.
  intros Hok Hc Hi Hf Hpos v' c. split.
  - unfold v'. rewrite scn_update_positions.
    destruct (follow_all (net v) (dict_keys (nodes (scn v))) (scn v) Hok Hc) as [_ H].
    { intros j. by rewrite elem_of_dict_keys. }
    apply (H i); [left; by apply elem_of_dict_keys|done].
  - apply (foldl_centres _ i pos v); try done; [|left; by apply elem_of_dict_keys].
    intros j. by rewrite elem_of_dict_keys.
Qed.
End Following.

Definition one_node : scene := get_node 0 empty_scene.

Lemma nodes_one_node j : nodes one_node !! j = if decide (j = 0%Z) then Some new_node else None.
Proof.
  change (nodes one_node) with (<[0%Z := new_node]> (∅ : gmap Z Node)).
  rewrite lookup_insert. repeat case_decide; done.
Qed.

Lemma one_node_ok : scene_ok one_node.
Proof.
  split; [done..|]. intros e i Hi. exfalso. revert Hi. unfold end_links, end_of.
  destruct e as [j|c]; [rewrite nodes_one_node; case_decide|]; simpl; set_solver.
Qed.

Definition following_viz : viz :=
  Viz one_node (Network [Ns3Node (Some (7, 9)) []] (λ _, [])) ALL None [0%Z] None [] None [] 0 0 0
    2 [] (Some 0%Z).

Lemma followed_node_centred_witness :
  let v' := @update_positions id id (600, 400) (λ z p, (p.1 * z, p.2 * z)) tree_order
              following_viz in
  mobility_cached (net following_viz) (scn following_viz) ∧
  get_position (NodeEnd 0) (scn v') = Some (7 * 3, 9 * 3) ∧ hadj v' = 7 * 3 * 2 - 600 / 2.
Proof.
  assert (mobility_cached (net following_viz) (scn following_viz)) as Hc.
  { intros j b. unfold cache. change (scn following_viz) with one_node.
    rewrite nodes_one_node. by case_decide. }
  intros v'. split; [exact Hc|].
  destruct (@followed_node_centred id id (600, 400) (λ z p, (p.1 * z, p.2 * z)) tree_order
    tree_order_ok following_viz 0 (7, 9) one_node_ok Hc) as (Hp & Hh & _);
    [by vm_compute; eexists|done|done|].
  split; [exact Hp|exact Hh].
Defined.

(** ** Scaling the view to the nodes *)
Lemma foldl_qmin (f : point → Q) (l : list point) m :
  foldl (λ m q, qmin m (f q)) m l <= m ∧ Forall (λ q, foldl (λ m q, qmin m (f q)) m l <= f q) l ∧
  (foldl (λ m q, qmin m (f q)) m l = m ∨ ∃ q, q ∈ l ∧ foldl (λ m q, qmin m (f q)) m l = f q).
Proof.
  revert m; induction l as [|q l IH]; intros m; simpl; [split_and!; [lra|done|by left]|].
  destruct (IH (qmin m (f q))) as (H1 & H2 & H3).
  destruct (qmin_spec m (f q)) as (M1 & M2 & M3). split_and!; [lra|constructor; [lra|done]|].
  destruct H3 as [H3|(q' & Hq & H3)]; [|right; exists q'; set_solver].
  destruct M3 as [M3|M3]; [left; congruence|right; exists q; split; [set_solver|congruence]].
Qed.

Lemma foldl_qmax (f : point → Q) (l : list point) m :
  m <= foldl (λ m q, qmax m (f q)) m l ∧ Forall (λ q, f q <= foldl (λ m q, qmax m (f q)) m l) l ∧
  (foldl (λ m q, qmax m (f q)) m l = m ∨ ∃ q, q ∈ l ∧ foldl (λ m q, qmax m (f q)) m l = f q).
Proof.
  revert m; induction l as [|q l IH]; intros m; simpl; [split_and!; [lra|done|by left]|].
  destruct (IH (qmax m (f q))) as (H1 & H2 & H3).
  destruct (qmax_spec m (f q)) as (M1 & M2 & M3). split_and!; [lra|constructor; [lra|done]|].
  destruct H3 as [H3|(q' & Hq & H3)]; [|right; exists q'; set_solver].
  destruct M3 as [M3|M3]; [left; congruence|right; exists q; split; [set_solver|congruence]].
Qed.

(** [min(...)] and [max(...)] over the positions bound them and are attained. *)
Lemma min_of_spec f p l :
  (∀ q, q ∈ p :: l → min_of f p l <= f q) ∧ ∃ q, q ∈ p :: l ∧ min_of f p l = f q.
Proof.
  destruct (foldl_qmin f l (f p)) as (H1 & H2 & H3). rewrite Forall_forall in H2.
  split; [intros q [->|Hq]%elem_of_cons; auto|].
  destruct H3 as [H3|(q & Hq & H3)]; [exists p|exists q]; split; try done; set_solver.
Qed.

Lemma max_of_spec f p l :
  (∀ q, q ∈ p :: l → f q <= max_of f p l) ∧ ∃ q, q ∈ p :: l ∧ max_of f p l = f q.
Proof.
  destruct (foldl_qmax f l (f p)) as (H1 & H2 & H3). rewrite Forall_forall in H2.
  split; [intros q [->|Hq]%elem_of_cons; auto|].
  destruct H3 as [H3|(q & Hq & H3)]; [exists p|exists q]; split; try done; set_solver.
Qed.

(** A span of at most two thirds of a page of width [w] around its centre. *)
Lemma span_inside lo hi page z q :
  lo <= q <= hi → 0 < z → (3 # 2) * (hi - lo) * z <= page →
  (lo + hi) / 2 - page / z / 2 + page / z / 6 <= q ∧
  q <= (lo + hi) / 2 - page / z / 2 + page / z * (5 # 6).
Proof.
  intros [Hl Hh] Hz Hfit. assert ((3 # 2) * (hi - lo) <= page / z) as Hw.
  { apply Qle_shift_div_l; done. }
  set (w := page / z) in *. unfold Qdiv. change (/ 2) with (1 # 2). change (/ 6) with (1 # 6). lra.
Qed.

Section Autoscaling.
Context (clamp_h clamp_v clamp_zoom : Q → Q) (page origin : point).
Context (page_pos : 0 < page.1 ∧ 0 < page.2).

(** The zoom adjustment keeps its value between its bounds, and the canvas
    scales about [origin]. *)
Context (zoom_bounds : ∀ x, clamp_zoom x = qmax (1 # 100) (qmin 10 x)).

Definition canvas_to_pixels (z : Q) (p : point) : point :=
  ((p.1 - origin.1) * z, (p.2 - origin.2) * z).
Definition canvas_from_pixels (z : Q) (p : point) : point :=
  (p.1 / z + origin.1, p.2 / z + origin.2).

(** Some nodes differ in the coordinate [f], by less than 66 pages. *)
Definition spread (f : point → Q) (size : Q) (l : list point) : Prop :=
  (∃ p q, p ∈ l ∧ q ∈ l ∧ f p < f q) ∧ ∀ p q, p ∈ l → q ∈ l → f q - f p <= 66 * size.

Lemma spread_span f size p l :
  spread f size (p :: l) → 0 < max_of f p l - min_of f p l ∧
  max_of f p l - min_of f p l <= 66 * size.
Proof.
  intros [(a & b & Ha & Hb & Hab) Hmax].
  destruct (min_of_spec f p l) as [Hmin (c & Hc & Ec)].
  destruct (max_of_spec f p l) as [Hmx (d & Hd & Ed)].
  specialize (Hmin a Ha) as H1. specialize (Hmx b Hb) as H2. specialize (Hmax c d Hc Hd).
  rewrite <- Ec, <- Ed in Hmax. split; [lra|done].
Qed.

Lemma scale_bound size d n :
  0 < size → 0 < d → d <= 66 * size → n == (3 # 2) * d → (1 # 99) <= size / n.
Proof. intros Hs Hd Hm Hn. apply Qle_shift_div_l; lra. Qed.

Lemma scale_fits size d n z : 0 < d → n == (3 # 2) * d → z <= size / n → (3 # 2) * d * z <= size.
Proof.
  intros Hd Hn Hz. rewrite <- Hn, Qmult_comm. assert (0 < n) as Hpos by lra.
  apply (Qmult_le_compat_r _ _ n) in Hz; [|lra]. unfold Qdiv in Hz.
  rewrite <- Qmult_assoc, (Qmult_comm (/ n)), Qmult_inv_r, Qmult_1_r in Hz by lra. done.
Qed.

Lemma scale_exact size d n : 0 < size → 0 < d → n == (3 # 2) * d → d == size / (size / n) * (2 # 3).
Proof. intros Hs Hd Hn. assert (~ size == 0) by lra. assert (~ n == 0) by lra. field_simplify; [lra|done..]. Qed.

(** The part of the canvas that the page shows. *)
Lemma visible_span z q o size : ~ z == 0 → (q + size) / z + o - (q / z + o) == size / z.
Proof. intros Hz. field. done. Qed.

Lemma update_positions_empty `{!DictOrder Z} v :
  nodes (scn v) = ∅ →
  node_positions (scn (update_positions clamp_h clamp_v page canvas_to_pixels v)) = [].
Proof.
  intros Hv. rewrite scn_update_positions. unfold update_node_positions.
  assert (∀ l, foldl (follow_mobility (net v)) (scn v) l = scn v) as ->.
  { induction l as [|i l IH]; [done|]. simpl. rewrite <- IH at 2. f_equal.
    unfold follow_mobility, has_mobility. by rewrite Hv. }
  unfold node_positions. apply elem_of_nil_inv. intros p (i & Hp & _)%list_elem_of_bind.
  unfold get_position, end_of in Hp. rewrite Hv in Hp. by apply elem_of_nil in Hp.
Qed.

(** The zoom [autoscale_view] chooses at zoom 1. *)
Lemma autoscale_zoom a b z :
  (1 # 99) <= a → (1 # 99) <= b → z = clamp_zoom (qmin a b) →
  0 < z ∧ z <= a ∧ z <= b ∧ (z = 10 ∨ z = a ∨ z = b).
Proof.
  intros Ha Hb ->. rewrite zoom_bounds. destruct (qmin_spec a b) as (M1 & M2 & M3).
  set (m := qmin a b) in *. assert ((1 # 99) <= m) by (destruct M3 as [-> | ->]; done).
  assert ((1 # 100) < (1 # 99)) by done.
  clearbody m. destruct (qmin_spec 10 m) as (N1 & N2 & N3). set (n := qmin 10 m) in *.
  clearbody n. destruct (qmax_spec (1 # 100) n) as (P1 & P2 & P3).
  set (z := qmax (1 # 100) n) in *. clearbody z.
  destruct P3 as [-> | ->]; [destruct N3 as [-> | ->]; lra|].
  split_and!; [destruct N3 as [-> | ->]; lra|lra..|].
  destruct N3 as [-> | ->]; [by left|by right].
Qed.

(** The zoom and the corner [autoscale_view] computes. *)
Lemma autoscale_runs `{!DictOrder Z} v p l :
  zoom v = 1 →
  let v1 := update_positions clamp_h clamp_v page canvas_to_pixels v in
  let dx := max_of fst p l - min_of fst p l in
  let dy := max_of snd p l - min_of snd p l in
  node_positions (scn v1) = p :: l → 0 < dx → 0 < dy →
  ∃ nx ny w h, nx == (3 # 2) * dx ∧ ny == (3 # 2) * dy ∧
    let z := clamp_zoom (qmin (page.1 / nx) (page.2 / ny)) in
    (0 < z → w == page.1 / z ∧ h == page.2 / z) ∧
    autoscale_view clamp_h clamp_v clamp_zoom page canvas_to_pixels canvas_from_pixels v =
      (set_view (hadj v1) (vadj v1) z v1,
       Some ((min_of fst p l + max_of fst p l) / 2 - w / 2,
             (min_of snd p l + max_of snd p l) / 2 - h / 2)).
Proof.
  intros Hz v1 dx dy Hps Hdx Hdy. unfold autoscale_view. case_bool_decide as He.
  { unfold v1 in Hps. by rewrite update_positions_empty in Hps. }
  cbn zeta. fold v1. rewrite Hps, Hz. unfold canvas_to_pixels, canvas_from_pixels; cbn [fst snd].
  set (nx := (3 # 2) * ((max_of fst p l - origin.1) * 1 - (min_of fst p l - origin.1) * 1)).
  set (ny := (3 # 2) * ((max_of snd p l - origin.2) * 1 - (min_of snd p l - origin.2) * 1)).
  assert (nx == (3 # 2) * dx) as Hx by (unfold nx, dx; ring).
  assert (ny == (3 # 2) * dy) as Hy by (unfold ny, dy; ring).
  assert (∀ x, 0 < x → is_zero x = false) as Hnz.
  { intros x Hx'. apply not_true_is_false. rewrite is_zero_spec. lra. }
  rewrite !Hnz by lra. cbn [orb]. eexists nx, ny, _, _. split; [done|]. split; [done|].
  split; [|reflexivity]. intros Hzp. split; apply visible_span; lra.
Qed.

(** At zoom 1, when the nodes spread in both directions and over less than
    66 pages, [autoscale_view] scrolls and zooms so that every node lies in the
    middle two thirds of the visible part of the canvas in both directions;
    and unless the zoom has reached its bound of 10, the extreme nodes fill
    these two thirds exactly in one direction. *)
Theorem autoscale_fits `{!DictOrder Z} v :
  zoom v = 1 →
  let ps := node_positions (scn (update_positions clamp_h clamp_v page canvas_to_pixels v)) in
  spread fst page.1 ps → spread snd page.2 ps →
  ∃ v' corner, autoscale_view clamp_h clamp_v clamp_zoom page canvas_to_pixels
      canvas_from_pixels v = (v', Some corner) ∧ node_positions (scn v') = ps ∧
    let w := page.1 / zoom v' in
    let h := page.2 / zoom v' in
    (∀ p, p ∈ ps → corner.1 + w / 6 <= p.1 ∧ p.1 <= corner.1 + w * (5 # 6) ∧
                   corner.2 + h / 6 <= p.2 ∧ p.2 <= corner.2 + h * (5 # 6)) ∧
    (zoom v' = 10 ∨ (∃ p q, p ∈ ps ∧ q ∈ ps ∧ q.1 - p.1 == w * (2 # 3)) ∨
     (∃ p q, p ∈ ps ∧ q ∈ ps ∧ q.2 - p.2 == h * (2 # 3))).
Proof.
  intros Hz ps Hx Hy.
  destruct ps as [|p l] eqn:Eps; [by destruct Hx as [(? & ? & ? & _) _]; set_solver|].
  destruct (spread_span _ _ _ _ Hx) as [Hdx Hmx], (spread_span _ _ _ _ Hy) as [Hdy Hmy].
  destruct (autoscale_runs v p l Hz Eps Hdx Hdy) as (nx & ny & w & h & Hnx & Hny & Hwh & ->).
  destruct page_pos as [Px Py].
  destruct (autoscale_zoom _ _ _ (scale_bound _ _ _ Px Hdx Hmx Hnx)
    (scale_bound _ _ _ Py Hdy Hmy Hny) eq_refl) as (Zp & Zx & Zy & Zeq).
  set (z := clamp_zoom _) in *. destruct (Hwh Zp) as [Hw Hh].
  eexists _, _. split; [reflexivity|]. split; [exact Eps|].
  cbn [zoom set_view fst snd]. split.
  - intros q Hq. destruct (min_of_spec fst p l) as [A _], (max_of_spec fst p l) as [B _].
    destruct (min_of_spec snd p l) as [C _], (max_of_spec snd p l) as [D _].
    destruct (span_inside _ _ _ z q.1 (conj (A q Hq) (B q Hq)) Zp (scale_fits _ _ _ _ Hdx Hnx Zx)).
    destruct (span_inside _ _ _ z q.2 (conj (C q Hq) (D q Hq)) Zp (scale_fits _ _ _ _ Hdy Hny Zy)).
    rewrite Hw, Hh. split_and!; done.
  - destruct Zeq as [?|[Zeq|Zeq]]; [by left|right; left|right; right]; rewrite Zeq.
    + destruct (min_of_spec fst p l) as [_ (a & Ha & Ea)], (max_of_spec fst p l) as [_ (b & Hb & Eb)].
      exists a, b. split_and!; [done..|]. rewrite <- Ea, <- Eb. by apply scale_exact.
    + destruct (min_of_spec snd p l) as [_ (a & Ha & Ea)], (max_of_spec snd p l) as [_ (b & Hb & Eb)].
      exists a, b. split_and!; [done..|]. rewrite <- Ea, <- Eb. by apply scale_exact.
Qed.
End Autoscaling.

Definition spread_check (f : point → Q) (size : Q) (l : list point) : bool :=
  existsb (λ p, existsb (λ q, qlt (f p) (f q)) l) l &&
  forallb (λ p, forallb (λ q, qle (f q - f p) (66 * size)) l) l.

Lemma spread_check_ok f size l : spread_check f size l = true → spread f size l.
Proof.
  unfold spread_check. rewrite andb_true_iff, existsb_exists, forallb_forall.
  intros [(p & Hp & Hq) Hall]. apply existsb_exists in Hq as (q & Hq & Hpq).
  split.
  - exists p, q. rewrite !list_elem_of_In. split_and!; [done..|by apply qlt_iff].
  - intros a b Ha Hb. apply list_elem_of_In in Ha, Hb.
    specialize (Hall a Ha). rewrite forallb_forall in Hall. by apply qle_iff, Hall.
Qed.

Definition zoom_range (x : Q) : Q := qmax (1 # 100) (qmin 10 x).

Definition scaled (z : Q) : viz * option point :=
  @autoscale_view id id zoom_range (60, 45) (canvas_to_pixels (0, 0)) (canvas_from_pixels (0, 0))
    tree_order (set_view 0 0 z example_viz).

Lemma autoscale_fits_witness :
  ∃ v' corner, scaled 1 = (v', Some corner) ∧
    (∀ p, p ∈ @node_positions tree_order (scn v') →
       corner.1 + 60 / zoom v' / 6 <= p.1 ∧ p.1 <= corner.1 + 60 / zoom v' * (5 # 6)).
Proof.
  destruct (@autoscale_fits id id zoom_range (60, 45) (0, 0) ltac:(done) ltac:(done) tree_order
    (set_view 0 0 1 example_viz) eq_refl) as (v' & corner & Hrun & Hps & Hin & _).
  - apply spread_check_ok. vm_compute. reflexivity.
  - apply spread_check_ok. vm_compute. reflexivity.
  - exists v', corner. split; [exact Hrun|]. intros p Hp. rewrite Hps in Hp.
    destruct (Hin p Hp) as (H1 & H2 & _). split; [exact H1|exact H2].
Defined.

(** The sizes in pixels are those at the present zoom, so away from zoom 1 the
    new zoom is off by that factor. *)
Lemma autoscale_compounds :
  0 < zoom (scaled 1).1 ∧ zoom (scaled 4).1 == zoom (scaled 1).1 / 4.
Proof. split; vm_compute; reflexivity. Qed.
