(* ===== verification/Hud.v ===== *)
(** * The axes of the visualizer

    [Axes] of [src/visualizer/visualizer/hud.py]: two scales drawn over the
    canvas, whose divisions follow the part of the canvas in view.  Labels are
    canvas items that are kept and reused; a label is a number in the store
    [items], and [labels] is the list of the same name.  The text of a label is
    the number it prints.

    [math.log10] appears only as [rint(math.log10(x))], the exponent of the power
    of ten nearest to [x] on a logarithmic scale, which is computed here exactly
    ([rint_log10]). *)

From S2P Require Import Prelude Rat VizBase.
From Stdlib Require Import Qpower.

Local Open Scope Q_scope.

(** ** Divisions of an axis *)
Definition pow10 (k : Z) : Q := Qpower 10 k.

(** [rint(math.log10(d))]: the [k] with [10^(k-1/2) <= d < 10^(k+1/2)]. *)
Fixpoint log10_up (fuel : nat) (d : Q) (k : Z) : Z :=
  match fuel with
  | O => k
  | S n => if qle (pow10 (2 * k + 1)) (d * d) then log10_up n d (k + 1) else k
  end.

Fixpoint log10_down (fuel : nat) (d : Q) (k : Z) : Z :=
  match fuel with
  | O => k
  | S n => if qlt (d * d) (pow10 (2 * k - 1)) then log10_down n d (k - 1) else k
  end.

Definition rint_log10 (d : Q) : Z :=
  let n := S (Z.to_nat (Z.log2 (Qnum d) + Z.log2 (Zpos (Qden d)))) in
  log10_down n d (log10_up n d 0).

Definition rint (x : Q) : Z := Qfloor (x + (1 # 2)).

(** One round of the loop: the length of a division and the first mark. *)
Definition division (d : Q) : Q :=
  let div := pow10 (rint_log10 d) in
  if qlt (Qabs (div / 2 - d)) (Qabs (div - d)) then div / 2
  else if qlt (Qabs (div * 2 - d)) (Qabs (div - d)) then div * 2
  else div.

(** [for n in range(5)]; [ndiv] is set but not read again. *)
Fixpoint division_loop (xi d size text_width : Q) (ns : list nat) (st : Q * Q * Z) :
    Q * Q * Z :=
  match ns with
  | [] => st
  | n :: ns' =>
      let '(_, _, ndiv) := st in
      let div := division d in
      let x0 := div * inject_Z (Qceiling (xi / div)) - div in
      division_loop xi d size text_width ns'
        (x0, div, if (1 <? n)%nat then rint (size / text_width) else ndiv)
  end.

Definition compute_divisions (xi xf : Q) : result exn (Q * Q) :=
  if qlt xi xf then
    let dx := xf - xi in
    let '(x0, div, _) := division_loop xi (dx / 5) dx (dx / 5 / 2) (seq 0 5) (0, 0, 5%Z) in
    Ok (x0, div)
  else Raise AssertionError.

(** The values [x] takes in [while x < end: ...; x += div]. *)
Definition marks (x0 div end_ : Q) : result exn (list Q) := float_steps x0 div end_.

(** ** The items *)
Inductive anchor := ANCHOR_S | ANCHOR_W.

Record label := Label {
  label_visible : bool;
  label_text : Q;
  label_font : Z;
  label_anchor : anchor;
  label_at : point }.

(** [goocanvas.Text(...)], before its properties are set. *)
Definition new_label : label := Label true 0 0 ANCHOR_S (0, 0).

Abbreviation path := (list (point * point)).

Record axes := Axes {
  hlines : path;
  vlines : path;
  hlines_width : Q;
  vlines_width : Q;
  lines_visible : bool;
  visible : bool;
  items : list label;
  labels : list nat }.

Definition set_label_visible (b : bool) (l : label) : label :=
  Label b (label_text l) (label_font l) (label_anchor l) (label_at l).

Definition hide_labels (ls : list nat) (its : list label) : list label :=
  foldl (λ its i, alter (set_label_visible false) i its) its ls.

Definition set_visible (b : bool) (a : axes) : axes :=
  Axes (hlines a) (vlines a) (hlines_width a) (vlines_width a) b b
    (if b then items a else hide_labels (labels a) (items a)) (labels a).

(** [get_label]: the first unused label, or a new one; [used] is [self.labels]
    while the axes are drawn. *)
Record pool := Pool { pool_items : list label; unused : list nat; used : list nat }.

Definition get_label (p : pool) : nat * pool :=
  match unused p with
  | [] =>
      let i := length (pool_items p) in
      (i, Pool (pool_items p ++ [new_label]) [] (used p ++ [i]))
  | i :: l =>
      (i, Pool (alter (set_label_visible true) i (pool_items p)) l (used p ++ [i]))
  end.

(** The properties set on a label keep its visibility. *)
Definition set_properties (x : Q) (font : Z) (anc : anchor) (at_ : point) (l : label) : label :=
  Label (label_visible l) x font anc at_.

Definition place_mark (font : Z) (anc : anchor) (at_ : Q → point) (p : pool) (x : Q) : pool :=
  let '(i, p') := get_label p in
  Pool (alter (set_properties x font anc (at_ x)) i (pool_items p')) (unused p') (used p').

Section View.
Context (from_pixels : point → point) (hadj vadj : Q) (page : point).

(** One axis: its divisions between the ends of the view in metres, a tick from
    [foot x] to [at_ x] and a label for each. *)
Definition draw_axis (lo hi : Q) (font : Z) (anc : anchor) (tick : Q → point * point)
    (at_ : Q → point) (p : pool) : result exn (path * pool) :=
  '(x0, div) ← compute_divisions lo hi;
  ms ← marks x0 div hi;
  Ok (tick <$> ms, foldl (place_mark font anc at_) p ms).

(** [update_view].  When an axis cannot be drawn, the labels taken so far stay
    in the list and the unused ones are lost. *)
Definition update_view (zoom : option Q) (a : axes) : axes * option exn :=
  match zoom with
  | None => (a, None)
  | Some zoom =>
      let offset := 10 / zoom in
      let font := py_int (12 / zoom) in
      let '(x1, y1) := from_pixels (hadj, vadj) in
      let '(x2, y2) := from_pixels (hadj + page.1, vadj + page.2) in
      let w := 5 / zoom in
      let p0 := Pool (hide_labels (labels a) (items a)) (labels a) [] in
      let yc := y2 - w / 2 in
      match draw_axis (x1 / PIXELS_PER_METER) (x2 / PIXELS_PER_METER) font ANCHOR_S
              (λ x, ((PIXELS_PER_METER * x, yc - offset), (PIXELS_PER_METER * x, yc)))
              (λ x, (PIXELS_PER_METER * x, yc - offset)) p0 with
      | Raise e =>
          (Axes (hlines a) (vlines a) w (vlines_width a) (lines_visible a) (visible a)
             (pool_items p0) (used p0), Some e)
      | Ok (h, p1) =>
          let hl := ((x1, yc), (x2, yc)) :: h in
          let xc := x1 + w / 2 in
          match draw_axis (y1 / PIXELS_PER_METER) (y2 / PIXELS_PER_METER) font ANCHOR_W
                  (λ y, ((xc, PIXELS_PER_METER * y), (xc + offset, PIXELS_PER_METER * y)))
                  (λ y, (xc + offset, PIXELS_PER_METER * y)) p1 with
          | Raise e =>
              (Axes hl (vlines a) w w (lines_visible a) (visible a) (pool_items p1) (used p1), Some e)
          | Ok (v, p2) =>
              (Axes hl (((xc, y1), (xc, y2)) :: v) w w (lines_visible a) (visible a)
                 (pool_items p2) (used p2 ++ unused p2), None)
          end
      end
  end.

(** The handler of the adjustments. *)
Definition update (zoom : option Q) (a : axes) : axes * option exn :=
  if visible a then update_view zoom a else (a, None).
End View.

(** ** Powers of ten *)
Lemma division_power_pos k : 0 < pow10 k.
Proof. by apply Qpower_0_lt. Qed.

Lemma pow10_plus a b : pow10 (a + b) == pow10 a * pow10 b.
Proof. apply Qpower_plus. done. Qed.

Lemma pow10_le a b : (a ≤ b)%Z → pow10 a <= pow10 b.
Proof. intros. by apply Qpower_le_compat_l. Qed.

Lemma pow10_square k : pow10 (2 * k) == pow10 k * pow10 k.
Proof. replace (2 * k)%Z with (k + k)%Z by lia. apply pow10_plus. Qed.

Lemma pow10_log2 z : (0 < z)%Z → inject_Z z < pow10 (Z.succ (Z.log2 z)).
Proof.
  intros Hz. pose proof (Z.log2_spec z Hz) as [_ H]. pose proof (Z.log2_nonneg z).
  eapply Qlt_le_trans.
  - rewrite <- Zlt_Qlt. exact H.
  - eapply Qle_trans; [rewrite <- Zle_Qle; apply (Z.pow_le_mono_l 2 10); lia|].
    rewrite Zpower_Qpower by lia. apply Qle_refl.
Qed.

Lemma pow10_above d : 0 < d → d < pow10 (Z.succ (Z.log2 (Qnum d))).
Proof.
  intros Hd. destruct d as [n p]. unfold Qlt in Hd; simpl in Hd.
  eapply Qle_lt_trans; [|apply pow10_log2; simpl; lia].
  unfold Qle; simpl. nia.
Qed.

Lemma pow10_below d : 0 < d → pow10 (- Z.succ (Z.log2 (Zpos (Qden d)))) < d.
Proof.
  intros Hd. destruct d as [n p]. unfold Qlt in Hd; simpl in Hd.
  set (m := Z.succ (Z.log2 (Zpos (Qden (n # p))))).
  assert (pow10 (- m) * pow10 m == 1) as Hinv.
  { rewrite <- pow10_plus. replace (- m + m)%Z with 0%Z by lia. done. }
  pose proof (pow10_log2 (Zpos p) ltac:(lia)) as Hp. fold m in Hp. simpl in Hp.
  pose proof (division_power_pos (- m)) as Hpos. pose proof (division_power_pos m).
  assert (1 <= (n # p) * inject_Z (Zpos p)) as H1. { unfold Qle; simpl. nia. }
  apply Qnot_le_lt. intros Hle.
  assert ((n # p) * inject_Z (Zpos p) <= pow10 (- m) * inject_Z (Zpos p)) as H2.
  { apply Qmult_le_compat_r; [done|]. unfold Qle; simpl. lia. }
  assert (pow10 (- m) * inject_Z (Zpos p) < pow10 (- m) * pow10 m) as H3.
  { apply Qmult_lt_l; done. }
  lra.
Qed.

Lemma log10_up_spec n d k :
  d * d < pow10 (2 * (k + Z.of_nat n) + 1) →
  let r := log10_up n d k in
  d * d < pow10 (2 * r + 1) ∧ (r = k ∨ pow10 (2 * r - 1) <= d * d).
Proof.
  revert k; induction n as [|n IH]; intros k H; cbn [log10_up].
  { rewrite Z.add_0_r in H. auto. }
  qcase; [|auto]. destruct (IH (k + 1)%Z) as [H1 H2].
  { by replace (k + 1 + Z.of_nat n)%Z with (k + Z.of_nat (S n))%Z by lia. }
  split; [done|]. right. destruct H2 as [-> |H2]; [|done].
  by replace (2 * (k + 1) - 1)%Z with (2 * k + 1)%Z by lia.
Qed.

Lemma log10_down_spec n d k :
  pow10 (2 * (k - Z.of_nat n) - 1) <= d * d → d * d < pow10 (2 * k + 1) →
  let r := log10_down n d k in pow10 (2 * r - 1) <= d * d ∧ d * d < pow10 (2 * r + 1).
Proof.
  revert k; induction n as [|n IH]; intros k H1 H2; cbn [log10_down].
  { rewrite Z.sub_0_r in H1. done. }
  qcase; [|done]. apply IH.
  - by replace (k - 1 - Z.of_nat n)%Z with (k - Z.of_nat (S n))%Z by lia.
  - by replace (2 * (k - 1) + 1)%Z with (2 * k - 1)%Z by lia.
Qed.

Lemma square_lt a b : 0 < a → a < b → a * a < b * b.
Proof. intros. apply Qlt_trans with (a * b); [by apply Qmult_lt_l|apply Qmult_lt_r; lra]. Qed.

Lemma rint_log10_spec d :
  0 < d →
  let k := rint_log10 d in pow10 (2 * k - 1) <= d * d ∧ d * d < pow10 (2 * k + 1).
Proof.
  intros Hd. unfold rint_log10. set (n := S _). cbn zeta.
  pose proof (pow10_above d Hd) as Ha. pose proof (pow10_below d Hd) as Hb.
  set (a := Z.log2 (Qnum d)) in *. set (b := Z.log2 (Zpos (Qden d))) in *.
  assert (0 ≤ a)%Z by apply Z.log2_nonneg. assert (0 ≤ b)%Z by apply Z.log2_nonneg.
  assert (Z.of_nat n = a + b + 1)%Z as Hn by (unfold n; lia).
  destruct (log10_up_spec n d 0) as [H1 H2].
  { eapply Qlt_le_trans; [by apply (square_lt d), Ha|]. rewrite <- pow10_square.
    apply pow10_le. lia. }
  apply log10_down_spec; [|done]. destruct H2 as [-> |H2].
  - apply Qlt_le_weak. eapply Qle_lt_trans; [|apply square_lt; [apply division_power_pos|exact Hb]].
    rewrite <- pow10_square. apply pow10_le. lia.
  - eapply Qle_trans; [|exact H2]. apply pow10_le. lia.
Qed.

(** ** A division is a fifth of the axis, up to a factor *)
Lemma division_bounds d :
  0 < d → 0 < division d ∧ (6 # 10) * division d < d ∧ d < (16 # 10) * division d.
Proof.
  intros Hd. destruct (rint_log10_spec d Hd) as [H1 H2]. cbn zeta in H1, H2.
  unfold division. set (k := rint_log10 d) in *. set (p := pow10 k).
  assert (0 < p) as Hp by apply division_power_pos.
  assert (pow10 (2 * k - 1) == p * p * (1 # 10)) as E1.
  { unfold Z.sub. rewrite pow10_plus, pow10_square. done. }
  assert (pow10 (2 * k + 1) == p * p * 10) as E2. { rewrite pow10_plus, pow10_square. done. }
  rewrite E1 in H1. rewrite E2 in H2.
  assert ((3 # 10) * p < d) as Hlo.
  { apply Qnot_le_lt. intros Hle. assert (d * d <= (3 # 10) * p * ((3 # 10) * p)) by nra. nra. }
  assert (d < (32 # 10) * p) as Hhi.
  { apply Qnot_le_lt. intros Hle. assert ((32 # 10) * p * ((32 # 10) * p) <= d * d) by nra. nra. }
  unfold Qdiv. change (/ 2) with (1 # 2).
  apply Qabs_case; intros Q1; apply Qabs_case; intros Q2; qcase; try lra;
    repeat (apply Qabs_case; intros ?); try qcase; lra.
Qed.

Lemma division_loop_last xi d size tw n ns st :
  let div := division d in
  ∃ k, division_loop xi d size tw (n :: ns) st =
    (div * inject_Z (Qceiling (xi / div)) - div, div, k).
Proof.
  cbn zeta. revert n st; induction ns as [|m ns IH]; intros n [[x0 v] k].
  { eexists. reflexivity. }
  exact (IH m (division d * inject_Z (Qceiling (xi / division d)) - division d, division d,
    if (1 <? n)%nat then rint (size / tw) else k)).
Qed.

(** The five rounds of the loop compute what one would. *)
Lemma compute_divisions_eq lo hi :
  lo < hi →
  let div := division ((hi - lo) / 5) in
  compute_divisions lo hi = Ok (div * inject_Z (Qceiling (lo / div)) - div, div).
Proof.
  intros H. unfold compute_divisions. rewrite (proj2 (qlt_iff lo hi) H). cbn [seq].
  destruct (division_loop_last lo ((hi - lo) / 5) (hi - lo) ((hi - lo) / 5 / 2) 0 [1; 2; 3; 4]%nat
    (0, 0, 5%Z)) as [k ->].
  reflexivity.
Qed.

Lemma ceiling_bounds lo div :
  0 < div →
  let c := inject_Z (Qceiling (lo / div)) in lo <= div * c ∧ div * c < lo + div.
Proof.
  intros Hdiv c. pose proof (Qle_ceiling (lo / div)) as H1. fold c in H1.
  pose proof (Qceiling_lt (lo / div)) as H2. rewrite inject_pred in H2. fold c in H2.
  assert (lo / div * div == lo) as E by (field; lra).
  apply (Qmult_le_compat_r _ _ div) in H1; [|lra]. rewrite E in H1.
  apply (Qmult_lt_r _ _ div) in H2; [|done]. rewrite E in H2. split; lra.
Qed.

Lemma division_is_nice d :
  ∃ k, division d = pow10 k / 2 ∨ division d = pow10 k ∨ division d = pow10 k * 2.
Proof. unfold division. exists (rint_log10 d). repeat case_match; auto. Qed.

Definition axis_divided (lo hi x0 div : Q) (ms : list Q) : Prop :=
  compute_divisions lo hi = Ok (x0, div) ∧ marks x0 div hi = Ok ms ∧
  (∃ k, div = pow10 k / 2 ∨ div = pow10 k ∨ div = pow10 k * 2) ∧
  (∃ z0, ∀ i a, ms !! i = Some a → a == inject_Z (z0 + Z.of_nat i) * div) ∧
  (∀ z, lo <= inject_Z z * div → inject_Z z * div < hi →
     ∃ i a, ms !! i = Some a ∧ i ≠ 0%nat ∧ a == inject_Z z * div) ∧
  Forall (λ a, lo - div <= a ∧ a < hi) ms ∧
  (4 ≤ length ms ≤ 9)%nat.

Lemma divide_axis lo hi : lo < hi → ∃ x0 div ms, axis_divided lo hi x0 div ms.
Proof.
  intros H. pose proof (compute_divisions_eq lo hi H) as Hc. cbn zeta in Hc.
  set (d := (hi - lo) / 5) in *. assert (d * 5 == hi - lo) as Ed by (unfold d; field).
  destruct (division_bounds d ltac:(lra)) as (Hdiv & Hlo & Hhi).
  destruct (division_is_nice d) as [k Hk]. set (div := division d) in *.
  destruct (ceiling_bounds lo div Hdiv) as [C1 C2]. set (c := Qceiling (lo / div)) in *.
  destruct (float_steps_spec (div * inject_Z c - div) div hi Hdiv) as (ms & Hms & Hl & Hend).
  cbn zeta in C1, C2. exists (div * inject_Z c - div), div, ms.
  assert (∀ i a, ms !! i = Some a → a == inject_Z (c - 1 + Z.of_nat i) * div) as Hmult.
  { intros i a Ha. destruct (Hl i a Ha) as [E _]. rewrite E, inject_Z_plus, inject_pred. ring. }
  split_and!; [done|done|by exists k|by exists (c - 1)%Z| | | |].
  - intros z Hz1 Hz2. assert (c ≤ z)%Z as Hcz.
    { assert (inject_Z (c - 1) * div < inject_Z z * div) as Hlt.
      { rewrite inject_pred. lra. }
      apply Qmult_lt_r in Hlt; [|done]. rewrite <- Zlt_Qlt in Hlt. lia. }
    assert (z < c - 1 + Z.of_nat (length ms))%Z as Hz.
    { apply Z.nle_gt. intros Hge. apply (Qlt_irrefl (inject_Z z * div)).
      eapply Qlt_le_trans; [exact Hz2|]. eapply Qle_trans; [exact Hend|].
      assert (inject_Z (c - 1 + Z.of_nat (length ms)) * div <= inject_Z z * div) as Hle.
      { apply Qmult_le_compat_r; [by rewrite <- Zle_Qle|lra]. }
      rewrite inject_Z_plus, inject_pred in Hle. lra. }
    destruct (lookup_lt_is_Some_2 ms (Z.to_nat (z - (c - 1)))) as [a Ha]; [lia|].
    exists (Z.to_nat (z - (c - 1))), a. split_and!; [done|lia|].
    rewrite (Hmult _ _ Ha). by replace (c - 1 + Z.of_nat (Z.to_nat (z - (c - 1))))%Z with z by lia.
  - apply Forall_lookup. intros i a Ha. destruct (Hl i a Ha) as [E Hlt]. split; [|done].
    rewrite E. assert (0 <= inject_Z (Z.of_nat i) * div); [|lra].
    apply Qmult_le_0_compat; [|lra]. change 0 with (inject_Z 0). rewrite <- Zle_Qle. lia.
  - assert (inject_Z 3 * div < inject_Z (Z.of_nat (length ms)) * div) as Hlt.
    { change (inject_Z 3) with 3. lra. }
    apply Qmult_lt_r in Hlt; [|done]. rewrite <- Zlt_Qlt in Hlt. lia.
  - destruct (length ms) as [|n] eqn:Hn; [lia|].
    destruct (lookup_lt_is_Some_2 ms n) as [a Ha]; [lia|]. destruct (Hl n a Ha) as [E Hlt].
    assert (inject_Z (Z.of_nat n) * div < inject_Z 9 * div) as Hlt'.
    { change (inject_Z 9) with 9. lra. }
    apply Qmult_lt_r in Hlt'; [|done]. rewrite <- Zlt_Qlt in Hlt'. lia.
Qed.

(** For any span of an axis the loop of [_compute_divisions] and the loop
    that draws the marks end.  The marks are consecutive multiples of a
    division of half, one or two times a power of ten; every multiple inside
    the span has its mark, at most one mark lies before it, none after; and
    there are between 4 and 9 of them, at any scale. *)
Theorem axis_marks lo hi :
  lo < hi →
  ∃ x0 div ms, compute_divisions lo hi = Ok (x0, div) ∧ marks x0 div hi = Ok ms ∧
    (∃ k, div = pow10 k / 2 ∨ div = pow10 k ∨ div = pow10 k * 2) ∧
    (∃ z0, ∀ i a, ms !! i = Some a → a == inject_Z (z0 + Z.of_nat i) * div) ∧
    (∀ z, lo <= inject_Z z * div → inject_Z z * div < hi →
       ∃ i a, ms !! i = Some a ∧ i ≠ 0%nat ∧ a == inject_Z z * div) ∧
    Forall (λ a, lo - div <= a ∧ a < hi) ms ∧
    (4 ≤ length ms ≤ 9)%nat.
Proof. apply divide_axis. Qed.

Lemma axis_marks_witness :
  ∃ x0 div ms, compute_divisions (20 # 3) (1000 # 3) = Ok (x0, div) ∧ div == 50 ∧
    marks x0 div (1000 # 3) = Ok ms ∧ length ms = 7%nat ∧ (4 ≤ length ms ≤ 9)%nat.
Proof.
  destruct (axis_marks (20 # 3) (1000 # 3)) as (x0 & div & ms & Hc & Hms & _ & _ & _ & _ & Hlen);
    [done|].
  exists x0, div, ms. split; [done|]. vm_compute in Hc. injection Hc as <- <-.
  split; [done|]. split; [done|]. split; [|done]. vm_compute in Hms. by injection Hms as <-.
Defined.

(** ** Labels *)
Definition only_visible (ls : list nat) (its : list label) : Prop :=
  ∀ i l, its !! i = Some l → i ∉ ls → label_visible l = false.

Record axes_ok (a : axes) : Prop := AxesOk {
  ax_distinct : NoDup (labels a);
  ax_bound : Forall (λ i, (i < length (items a))%nat) (labels a);
  ax_hidden : only_visible (labels a) (items a) }.

Record pool_ok (p : pool) : Prop := PoolOk {
  po_distinct : NoDup (used p ++ unused p);
  po_bound : Forall (λ i, (i < length (pool_items p))%nat) (used p ++ unused p);
  po_hidden : only_visible (used p) (pool_items p) }.

Lemma hide_labels_spec a :
  axes_ok a → pool_ok (Pool (hide_labels (labels a) (items a)) (labels a) []).
Proof.
  intros [Hnd Hb Hh]. split; simpl; [done| |].
  - unfold hide_labels. by rewrite foldl_alter_length.
  - intros i l. unfold hide_labels. rewrite foldl_alter_lookup by done.
    destruct (items a !! i) as [l0|] eqn:Hi; simpl; [|done]. intros [= <-] _.
    case_decide as Hin; [done|]. by apply (Hh i).
Qed.

Lemma place_mark_spec font anc at_ p x :
  pool_ok p →
  ∃ i, let p' := place_mark font anc at_ p x in
    pool_ok p' ∧ used p' = used p ++ [i] ∧ unused p' = drop 1 (unused p) ∧
    pool_items p' !! i = Some (Label true x font anc (at_ x)) ∧
    (∀ j, j ∈ used p → pool_items p' !! j = pool_items p !! j) ∧
    length (pool_items p') = (length (pool_items p) + (1 - length (unused p)))%nat.
Proof.
  destruct p as [its [|i un] us]; intros [Hnd Hb Hh]; unfold place_mark; simpl in *.
  - rewrite app_nil_r in *. exists (length its). rewrite length_alter, length_app; simpl.
    rewrite Forall_forall in Hb. split_and!; try done.
    + split; simpl; rewrite ?app_nil_r, ?length_alter, ?length_app; simpl.
      * apply NoDup_app. split_and!; [done| |apply NoDup_singleton].
        intros j Hj ->%list_elem_of_singleton. specialize (Hb _ Hj). lia.
      * apply Forall_forall. intros j [Hj| ->%list_elem_of_singleton]%elem_of_app; [|lia].
        specialize (Hb _ Hj). lia.
      * intros j l Hj Hn. rewrite not_elem_of_app, list_elem_of_singleton in Hn.
        rewrite list_lookup_alter_ne in Hj by naive_solver.
        apply lookup_app_Some in Hj as [Hj|[? Hj]]; [apply (Hh j l Hj); tauto|].
        apply list_lookup_singleton_Some in Hj as [??]. destruct Hn. lia.
    + rewrite list_lookup_alter_eq, lookup_app_r, Nat.sub_diag by lia. done.
    + intros j Hj. specialize (Hb _ Hj). rewrite list_lookup_alter_ne by lia.
      by apply lookup_app_l.
  - exists i. rewrite !length_alter.
    assert (i ∉ us) as Hi.
    { apply NoDup_app in Hnd as (_ & Hd & _). intros Hin. apply (Hd i Hin). set_solver. }
    assert (i < length its)%nat as Hlt. { rewrite Forall_forall in Hb. apply Hb. set_solver. }
    split_and!; try done; try lia.
    + split; simpl; rewrite ?length_alter, <- ?app_assoc; [done|done|].
      intros j l Hj Hn. rewrite not_elem_of_app, list_elem_of_singleton in Hn.
      rewrite !list_lookup_alter_ne in Hj by naive_solver. apply (Hh j l Hj). tauto.
    + rewrite !list_lookup_alter_eq. apply lookup_lt_is_Some in Hlt as [l ->]. done.
    + intros j Hj. rewrite !list_lookup_alter_ne by (by intros ->). done.
Qed.

Lemma place_marks_spec font anc at_ ms p :
  pool_ok p →
  ∃ ids, let p' := foldl (place_mark font anc at_) p ms in
    pool_ok p' ∧ used p' = used p ++ ids ∧ unused p' = drop (length ms) (unused p) ∧
    Forall2 (λ x i, pool_items p' !! i = Some (Label true x font anc (at_ x))) ms ids ∧
    (∀ j, j ∈ used p → pool_items p' !! j = pool_items p !! j) ∧
    length (pool_items p') = (length (pool_items p) + (length ms - length (unused p)))%nat.
Proof.
  revert p; induction ms as [|x ms IH]; intros p Hp; cbn [foldl].
  { exists []. rewrite app_nil_r. split_and!; [done..|constructor|done|simpl; lia]. }
  destruct (place_mark_spec font anc at_ p x Hp) as (i & Hp1 & Hu1 & Hun1 & Hi1 & Hk1 & Hl1).
  cbn zeta in *. set (p1 := place_mark font anc at_ p x) in *.
  destruct (IH p1 Hp1) as (ids & Hp' & Hu & Hun & Hids & Hk & Hl). cbn zeta in *.
  exists (i :: ids). split_and!; [done| | | | |].
  - by rewrite Hu, Hu1, <- app_assoc.
  - rewrite Hun, Hun1, drop_drop. f_equal.
  - constructor; [|done]. rewrite Hk by (rewrite Hu1; set_solver). done.
  - intros j Hj. rewrite Hk by (rewrite Hu1; set_solver). by apply Hk1.
  - rewrite Hl, Hl1, Hun1, length_drop. simpl length. lia.
Qed.

Section ViewProofs.
Context (from_pixels : point → point) (hadj vadj : Q) (page : point).

(** The label [i] of [its] shows the mark [x], at a place that fits [x]. *)
Definition labelled (its : list label) (coordinate : point → Q) (x : Q) (i : nat) : Prop :=
  ∃ l, its !! i = Some l ∧ label_text l = x ∧ coordinate (label_at l) = PIXELS_PER_METER * x.

Lemma draw_axis_spec lo hi font anc tick at_ coordinate p :
  lo < hi → pool_ok p → (∀ x, coordinate (at_ x) = PIXELS_PER_METER * x) →
  ∃ ms ids h p', draw_axis lo hi font anc tick at_ p = Ok (h, p') ∧ h = tick <$> ms ∧
    (∃ x0 div, axis_divided lo hi x0 div ms) ∧
    pool_ok p' ∧ used p' = used p ++ ids ∧
    unused p' = drop (length ms) (unused p) ∧
    Forall2 (labelled (pool_items p') coordinate) ms ids ∧
    Forall (λ i, label_visible <$> pool_items p' !! i = Some true) ids ∧
    (∀ j, j ∈ used p → pool_items p' !! j = pool_items p !! j).
Proof.
  intros Hlt Hp Hat. destruct (divide_axis lo hi Hlt) as (x0 & div & ms & Hax).
  destruct (place_marks_spec font anc at_ ms p Hp) as (ids & Hp' & Hu & Hun & Hids & Hk & Hlen).
  cbn zeta in *. exists ms, ids, (tick <$> ms), (foldl (place_mark font anc at_) p ms).
  split_and!; try done.
  - unfold draw_axis. destruct Hax as (-> & Hms & _). simpl. by rewrite Hms.
  - by exists x0, div.
  - eapply Forall2_impl; [exact Hids|]. intros x i Hi. eexists. split; [exact Hi|]. split; [done|apply Hat].
  - apply Forall_lookup. intros k i Hk'.
    destruct (Forall2_lookup_r _ _ _ _ _ Hids Hk') as (x & _ & ->). done.
Qed.

(** Whenever the page shows a part of the canvas, updating the axes
    succeeds and afterwards the labels that are visible are exactly those of the
    marks of the two axes, one label for each mark, which prints it and stands
    at its coordinate; the other labels are hidden and kept for reuse.  So at
    most 18 labels are visible, however the view is moved and scaled. *)
Theorem labels_match_marks zoom a x1 y1 x2 y2 :
  axes_ok a →
  from_pixels (hadj, vadj) = (x1, y1) → from_pixels (hadj + page.1, vadj + page.2) = (x2, y2) →
  x1 < x2 → y1 < y2 →
  ∃ a' xs ys ids jds, update_view from_pixels hadj vadj page (Some zoom) a = (a', None) ∧
    axes_ok a' ∧
    (∃ x0 div, axis_divided (x1 / PIXELS_PER_METER) (x2 / PIXELS_PER_METER) x0 div xs) ∧
    (∃ y0 div, axis_divided (y1 / PIXELS_PER_METER) (y2 / PIXELS_PER_METER) y0 div ys) ∧
    Forall2 (labelled (items a') fst) xs ids ∧ Forall2 (labelled (items a') snd) ys jds ∧
    NoDup (ids ++ jds) ∧
    (∀ i l, items a' !! i = Some l → label_visible l = bool_decide (i ∈ ids ++ jds)) ∧
    (8 ≤ length (ids ++ jds) ≤ 18)%nat.
Proof.
  intros Ha E1 E2 Hx Hy. unfold update_view. rewrite E1, E2. cbn zeta.
  assert (∀ u w, u < w → u / PIXELS_PER_METER < w / PIXELS_PER_METER) as Hdiv.
  { intros u w Huw. unfold Qdiv. by apply Qmult_lt_r. }
  destruct (draw_axis_spec (x1 / PIXELS_PER_METER) (x2 / PIXELS_PER_METER) (py_int (12 / zoom))
    ANCHOR_S (λ x, ((PIXELS_PER_METER * x, y2 - 5 / zoom / 2 - 10 / zoom),
                    (PIXELS_PER_METER * x, y2 - 5 / zoom / 2)))
    (λ x, (PIXELS_PER_METER * x, y2 - 5 / zoom / 2 - 10 / zoom)) fst _ (Hdiv _ _ Hx)
    (hide_labels_spec a Ha) ltac:(done))
    as (xs & ids & h & p1 & -> & _ & Hxs & Hp1 & Hu1 & Hun1 & Hids & Hv1 & _).
  destruct (draw_axis_spec (y1 / PIXELS_PER_METER) (y2 / PIXELS_PER_METER) (py_int (12 / zoom))
    ANCHOR_W (λ y, ((x1 + 5 / zoom / 2, PIXELS_PER_METER * y),
                    (x1 + 5 / zoom / 2 + 10 / zoom, PIXELS_PER_METER * y)))
    (λ y, (x1 + 5 / zoom / 2 + 10 / zoom, PIXELS_PER_METER * y)) snd p1 (Hdiv _ _ Hy) Hp1
    ltac:(done))
    as (ys & jds & v & p2 & -> & _ & Hys & Hp2 & Hu2 & Hun2 & Hjds & Hv2 & Hk2).
  simpl in Hu1. rewrite Hu1 in Hu2, Hk2. destruct Hp2 as [Hnd Hb Hh].
  assert (∀ i, i ∈ ids ++ jds → label_visible <$> pool_items p2 !! i = Some true) as Hvis.
  { rewrite Forall_forall in Hv1, Hv2. intros i [Hi|Hi]%elem_of_app; [|auto].
    rewrite Hk2 by done. auto. }
  assert (8 ≤ length (ids ++ jds) ≤ 18)%nat as Hlen.
  { rewrite length_app, <- (Forall2_length _ _ _ Hids), <- (Forall2_length _ _ _ Hjds).
    destruct Hxs as (? & ? & _ & _ & _ & _ & _ & _ & ?), Hys as (? & ? & _ & _ & _ & _ & _ & _ & ?).
    lia. }
  eexists _, xs, ys, ids, jds. split; [reflexivity|]. cbn [items labels].
  split_and!; try done; try lia.
  - split; cbn [items labels]; [done|done|]. intros i l Hi Hn. apply (Hh i l Hi). set_solver.
  - eapply Forall2_impl_in; [exact Hids|]. intros x i _ Hi (l & Hl & Hrest).
    exists l. split; [|done]. by rewrite Hk2.
  - rewrite Hu2 in Hnd. by apply NoDup_app in Hnd as [? _].
  - intros i l Hi. case_bool_decide as Hin.
    + specialize (Hvis i Hin). rewrite Hi in Hvis. by injection Hvis.
    + apply (Hh i l Hi). by rewrite Hu2.
Qed.
End ViewProofs.

(** ** A window of 600 by 450 pixels *)
Definition example_axes : axes := Axes [] [] 0 0 true true [new_label; new_label] [1; 0]%nat.

Lemma example_axes_ok : axes_ok example_axes.
Proof.
  split; simpl; [by apply (bool_decide_unpack _); vm_compute|by repeat constructor; lia|].
  intros [|[|i]] l Hi Hn; [exfalso; apply Hn; set_solver..|done].
Qed.

Definition example_view (a : axes) : axes * option exn :=
  update_view (λ p, p) 0 0 (600, 450) (Some 1) a.

Lemma labels_match_marks_witness :
  axes_ok example_axes ∧
  ∃ a' ids, example_view example_axes = (a', None) ∧ NoDup ids ∧
    (∀ i l, items a' !! i = Some l → label_visible l = bool_decide (i ∈ ids)) ∧
    (8 ≤ length ids ≤ 18)%nat.
Proof.
  split; [apply example_axes_ok|].
  destruct (labels_match_marks (λ p, p) 0 0 (600, 450) 1 example_axes 0 0 (0 + 600) (0 + 450)
    example_axes_ok eq_refl eq_refl ltac:(done) ltac:(done))
    as (a' & xs & ys & ids & jds & Hrun & _ & _ & _ & _ & _ & Hnd & Hvis & Hlen).
  exists a', (ids ++ jds). split_and!; [exact Hrun|done|done|lia|lia].
Defined.

(** Showing the axes again brings the lines back and not the labels, which stay
    hidden until the view is scrolled or scaled. *)
Lemma shown_without_labels :
  let a := set_visible true (set_visible false (example_view example_axes).1) in
  lines_visible a = true ∧ visible a = true ∧ labels a ≠ [] ∧
  Forall (λ l, label_visible l = false) (items a).
Proof.
  split_and!; [vm_compute; reflexivity..|vm_compute; discriminate|].
  apply (bool_decide_unpack _). vm_compute. exact I.
Qed.

(** While the window has no size yet the divisions cannot be computed; the
    labels in use before are lost, so the next update creates new ones. *)
Lemma empty_page_drops_labels :
  let '(a, e) := update_view (λ p, p) 0 0 (0, 0) (Some 1) (example_view example_axes).1 in
  e = Some AssertionError ∧ labels a = [] ∧ length (items a) = 14%nat.
Proof. vm_compute. split_and!; reflexivity. Qed.
