(* ===== verification/VizPlugins.v ===== *)
(** * Information shown about a node

    The windows and tooltips of the visualizer, each a component with its own
    state: [StatisticsCollector] and [ShowInterfaceStatistics]
    ([plugins/interface_statistics.py]), the routing tables
    ([plugins/ipv4_routing_table.py], [plugins/olsr.py]), [ShowLastPackets]
    ([plugins/show_last_packets.py]) and [Node.tooltip_query] ([core.py]
    159-206).  What they read from the simulator is an argument; a table is the
    list of its rows. *)

From S2P Require Import Prelude PyStr Rat VizBase Transmissions.

Local Open Scope Q_scope.

(** The name of an interface: that of the device, or its number. *)
Definition interface_name (FindName : Z → string) (dev : Z) (i : Z) : string :=
  let n := FindName dev in
  if bool_decide (n = "") then "(interface " +:+ pretty i +:+ ")" else n.

(** ** Interface statistics *)
Module Statistics.

Definition NODE_STATISTICS_MEMORY : Z := 10.

Record counters := Counters {
  transmittedPackets : Z;
  transmittedBytes : Z;
  receivedPackets : Z;
  receivedBytes : Z }.

Record NetDevStats := Stats {
  totals : counters;
  txPacketRate : Q;
  rxPacketRate : Q;
  txBitRate : Q;
  rxBitRate : Q }.

(** [node_statistics]: the last samples of each node, one list of counters, one
    per interface, for each period. *)
Abbreviation collector := (gmap Z (list (list counters))).

Definition add_statistics (c : collector) (x : Z * list counters) : result exn collector :=
  l ← pop_front NODE_STATISTICS_MEMORY (default [] (c !! x.1) ++ [x.2]);
  Ok (<[x.1 := l]> c).

Definition simulation_periodic_update (nodes_statistics : list (Z * list counters))
    (c : collector) : result exn collector :=
  fold_res add_statistics c nodes_statistics.

Section Rates.
Context (sample_period : Q).

Definition memory_time : Q := sample_period * inject_Z (NODE_STATISTICS_MEMORY - 1).

(** One turn of the loop over the last sample; [first] is the oldest. *)
Definition rate_of (first : list counters) (x : nat * counters) : result exn NetDevStats :=
  let k := memory_time in
  let s := x.2 in
  old ← of_option IndexError (first !! x.1);
  tp ← float_div (inject_Z (transmittedPackets s - transmittedPackets old)) k;
  rp ← float_div (inject_Z (receivedPackets s - receivedPackets old)) k;
  tb ← float_div (inject_Z ((transmittedBytes s - transmittedBytes old) * 8)) k;
  rb ← float_div (inject_Z ((receivedBytes s - receivedBytes old) * 8)) k;
  Ok (Stats s tp rp tb rb).

Definition get_interface_statistics (c : collector) (nodeId : Z) :
    result exn (list NetDevStats) :=
  match c !! nodeId with
  | None => Ok []
  | Some raw =>
      if bool_decide (py_len raw < NODE_STATISTICS_MEMORY)%Z then Ok []
      else if bool_decide (py_len raw = NODE_STATISTICS_MEMORY) then
        first ← py_index raw 0;
        last ← py_index raw (-1);
        fold_res (λ acc x, s ← rate_of first x; Ok (acc ++ [s])) [] (imap pair last)
      else Raise AssertionError
  end.

(** [ShowInterfaceStatistics.update]: the rows, or the exception that left the
    table as it was. *)
Definition update (FindName : Z → string) (GetDevice : nat → Z) (c : collector) (node_index : Z) :
    result exn (list (string * NetDevStats)) :=
  l ← get_interface_statistics c node_index;
  Ok (imap (λ i s, (interface_name FindName (GetDevice i) (Z.of_nat i), s)) l).
End Rates.

(** *** What the collector holds *)
Definition history (nodeId : Z) (ps : list (list (Z * list counters))) : list (list counters) :=
  (filter (λ x, x.1 = nodeId) (concat ps)).*2.

Definition run_periods : list (list (Z * list counters)) → result exn collector :=
  fold_res (λ c p, simulation_periodic_update p c) ∅.

Lemma fold_statistics (l : list (Z * list counters)) :
  ∃ c, fold_res add_statistics ∅ l = Ok c ∧
    ∀ i, default [] (c !! i) = last_n 10 (filter (λ x, x.1 = i) l).*2.
Proof.
  induction l as [|x l (c & Hc & IH)] using rev_ind; [by exists ∅|].
  rewrite fold_res_app, Hc. simpl. unfold add_statistics.
  rewrite pop_front_spec by done. simpl. eexists. split; [reflexivity|].
  intros i. rewrite filter_app, fmap_app. destruct (decide (x.1 = i)) as [<-|Hi].
  - rewrite lookup_insert_eq, filter_cons_True by done. simpl. by rewrite IH, last_n_snoc.
  - rewrite lookup_insert_ne, filter_cons_False by done. simpl. by rewrite app_nil_r, IH.
Qed.

Lemma run_periods_concat ps : run_periods ps = fold_res add_statistics ∅ (concat ps).
Proof.
  unfold run_periods. generalize (∅ : collector). induction ps as [|p ps IH]; intros c; [done|].
  simpl. rewrite fold_res_app.
  change (simulation_periodic_update p c) with (fold_res add_statistics c p).
  destruct (fold_res add_statistics c p); simpl; [apply IH|done].
Qed.

(** The rates of an interface over the window. *)
Definition stats_between (k : Q) (old s : counters) : NetDevStats :=
  Stats s (inject_Z (transmittedPackets s - transmittedPackets old) / k)
    (inject_Z (receivedPackets s - receivedPackets old) / k)
    (inject_Z ((transmittedBytes s - transmittedBytes old) * 8) / k)
    (inject_Z ((receivedBytes s - receivedBytes old) * 8) / k).

Lemma rate_of_eq sp first n s :
  0 < sp →
  rate_of sp first (n, s) =
    match first !! n with
    | Some old => Ok (stats_between (memory_time sp) old s)
    | None => Raise IndexError
    end.
Proof.
  intros Hsp. unfold rate_of; simpl. destruct (first !! n) as [old|]; [|done]. simpl.
  assert (is_zero (memory_time sp) = false) as Hz.
  { apply not_true_is_false. rewrite is_zero_spec. unfold memory_time.
    change (inject_Z (NODE_STATISTICS_MEMORY - 1)) with 9. lra. }
  unfold float_div. by rewrite Hz.
Qed.

Lemma rates_loop sp first (last : list counters) n acc :
  0 < sp →
  fold_res (λ acc x, s ← rate_of sp first x; Ok (acc ++ [s])) acc
    (imap (λ i s, ((n + i)%nat, s)) last) =
    if decide (length last ≤ length first - n)%nat
    then Ok (acc ++ zip_with (stats_between (memory_time sp)) (drop n first) last)
    else Raise IndexError.
Proof.
  intros Hsp. revert n acc; induction last as [|s last IH]; intros n acc.
  { cbn [length]. rewrite decide_True by lia. by rewrite zip_with_nil_r, app_nil_r. }
  rewrite imap_cons. cbn [fold_res length]. rewrite rate_of_eq, Nat.add_0_r by done.
  destruct (first !! n) as [old|] eqn:Hn; cbn [mbind result_bind].
  - rewrite (imap_ext _ (λ i s0, ((S n + i)%nat, s0))) by (intros; simpl; f_equal; lia).
    rewrite IH. apply lookup_lt_Some in Hn as Hlt. rewrite (drop_S first old n Hn).
    cbn [zip_with]. case_decide; [rewrite decide_True by lia|by rewrite decide_False by lia].
    by rewrite <- app_assoc.
  - apply lookup_ge_None in Hn. by rewrite decide_False by lia.
Qed.

Lemma length_last_n {A} n (l : list A) : length (last_n n l) = (length l `min` n)%nat.
Proof. unfold last_n. rewrite length_drop. lia. Qed.

(** After any sequence of periods in which the simulator reported
    statistics, the window of a node has no rates while fewer than ten samples
    of the node were collected; from then on it has one row per interface, with
    the totals of the last sample and the rates over the last ten samples, that
    is the increments since the tenth last divided by nine sample periods
    (bytes times eight).  Interfaces that did not exist in the tenth last sample
    make the update fail with [IndexError] until they have been sampled ten
    times. *)
Theorem interface_rates sp ps node :
  0 < sp →
  ∃ c, run_periods ps = Ok c ∧
    let h := history node ps in
    ((length h < 10)%nat → get_interface_statistics sp c node = Ok []) ∧
    ((10 ≤ length h)%nat →
       ∃ first last, h !! (length h - 10)%nat = Some first ∧ h !! (length h - 1)%nat = Some last ∧
         get_interface_statistics sp c node =
           if decide (length last ≤ length first)%nat
           then Ok (zip_with (stats_between (sp * 9)) first last)
           else Raise IndexError).
Proof.
  intros Hsp. destruct (fold_statistics (concat ps)) as (c & Hc & Hd).
  exists c. rewrite run_periods_concat. split; [done|]. specialize (Hd node).
  fold (history node ps) in Hd. set (h := history node ps) in *. cbn zeta.
  unfold get_interface_statistics.
  assert (∀ raw, c !! node = Some raw → raw = last_n 10 h) as Hraw.
  { intros raw E. by rewrite E in Hd. }
  split; intros Hlen.
  - destruct (c !! node) as [raw|] eqn:E; [|done]. rewrite (Hraw raw eq_refl).
    rewrite bool_decide_eq_true_2; [done|]. unfold py_len, NODE_STATISTICS_MEMORY.
    rewrite length_last_n. lia.
  - assert (length (last_n 10 h) = 10%nat) as Hl by (rewrite length_last_n; lia).
    destruct (c !! node) as [raw|] eqn:E; [|simpl in Hd; by rewrite <- Hd in Hl].
    rewrite (Hraw raw eq_refl) in *. clear E Hraw Hd.
    rewrite bool_decide_eq_false_2 by (unfold py_len; rewrite Hl; done).
    rewrite bool_decide_eq_true_2 by (unfold py_len; by rewrite Hl).
    destruct (lookup_lt_is_Some_2 h (length h - 10)) as [first Hf]; [lia|].
    destruct (lookup_lt_is_Some_2 h (length h - 1)) as [last Hla]; [lia|].
    exists first, last. split_and!; [done..|].
    assert (last_n 10 h !! 0%nat = Some first) as H0.
    { unfold last_n. by rewrite lookup_drop, Nat.add_0_r. }
    assert (last_n 10 h !! 9%nat = Some last) as H9.
    { unfold last_n. rewrite lookup_drop. by replace (length h - 10 + 9)%nat with (length h - 1)%nat by lia. }
    change 0%Z with (Z.of_nat 0). rewrite py_index_nat, H0. cbn [of_option mbind result_bind].
    destruct (last_n 10 h) as [|x l _] using rev_ind; [done|]. rewrite py_index_last.
    rewrite length_app in Hl. simpl in Hl. rewrite lookup_app_r in H9 by lia.
    replace (9 - length l)%nat with 0%nat in H9 by lia. injection H9 as ->. cbn [mbind result_bind].
    change (imap pair last) with (imap (λ i s, ((0 + i)%nat, s)) last).
    rewrite rates_loop by done. rewrite Nat.sub_0_r, drop_0. done.
Qed.

Definition example_sample (n : Z) : list counters := [Counters (2 * n) (100 * n) n (50 * n)].
Definition example_history : list (list (Z * list counters)) :=
  (λ n : nat, [(0%Z, example_sample (Z.of_nat n)); (1%Z, [])]) <$> seq 1 12.

Lemma interface_rates_witness :
  ∃ c, run_periods example_history = Ok c ∧
    get_interface_statistics (1 # 10) c 0 =
      Ok [Stats (Counters 24 1200 12 600) (18 / ((1 # 10) * 9)) (9 / ((1 # 10) * 9))
            (7200 / ((1 # 10) * 9)) (3600 / ((1 # 10) * 9))].
Proof.
  destruct (interface_rates (1 # 10) example_history 0) as (c & Hc & _ & Hr); [done|].
  exists c. split; [done|]. destruct Hr as (first & last & Hf & Hl & ->); [vm_compute; lia|].
  vm_compute in Hf. vm_compute in Hl. injection Hf as <-. injection Hl as <-. reflexivity.
Defined.

(** An interface added to a running node: its statistics fail at first. *)
Lemma added_interface_fails :
  ∃ c, run_periods (((λ _, [(0%Z, example_sample 1)]) <$> seq 0 9) ++
      [[(0%Z, example_sample 1 ++ example_sample 1)]]) = Ok c ∧
    get_interface_statistics (1 # 10) c 0 = Raise IndexError.
Proof. eexists. split; vm_compute; reflexivity. Qed.
End Statistics.

(** ** Routing tables *)
Module Routing.

Record route := Route { dest : string; gateway : string; interface : Z }.

Inductive protocol :=
  | Ipv4StaticRouting (routes : list route)
  | Ipv4GlobalRouting (routes : list route)
  | Ipv4ListRouting (protocols : list (protocol * Z))
  | OtherRouting.

Record row := Row {
  destination : string;
  next_hop : string;
  row_interface : string;
  row_type : string;
  prio : Z }.

(** What the IPv4 object of a node answers; no device is the loopback. *)
Record ipv4 := Ipv4 { routing : option protocol; net_device : Z → option Z }.

Section Tables.
Context (FindName : Z → string).

Definition route_interface (ip : ipv4) (i : Z) : string :=
  match net_device ip i with
  | None => "lo"
  | Some dev => interface_name FindName dev i
  end.

(** [routing_protocols]: the static and global protocols, with their type and
    priority. *)
Definition listed (x : protocol * Z) : list (list route * string * Z) :=
  match x.1 with
  | Ipv4StaticRouting r => [(r, "static", x.2)]
  | Ipv4GlobalRouting r => [(r, "global", x.2)]
  | _ => []
  end.

Definition routing_protocols (p : protocol) : list (list route * string * Z) :=
  match p with
  | Ipv4StaticRouting r => [(r, "static", 0%Z)]
  | Ipv4ListRouting l => foldl (λ acc x, acc ++ listed x) [] l
  | _ => []
  end.

Definition add_route (ip : ipv4) (ty : string) (pr : Z) (table : list row) (r : route) :
    list row :=
  table ++ [Row (dest r) (gateway r) (route_interface ip (interface r)) ty pr].

(** [ShowIpv4RoutingTable.update]; a node without IPv4 has no such attribute. *)
Definition update_ipv4 (ip : option ipv4) (table : list row) : result exn (list row) :=
  match ip with
  | None => Raise AttributeError
  | Some ip =>
      match routing ip with
      | None => Ok table
      | Some p =>
          match routing_protocols p with
          | [] => Ok table
          | ps => Ok (foldl (λ t x, foldl (add_route ip x.1.2 x.2) t x.1.1) [] ps)
          end
      end
  end.

Record olsr_route := OlsrRoute {
  destAddr : string;
  nextAddr : string;
  olsr_interface : Z;
  distance : Z }.

(** [ShowOlsrRoutingTable.update], given the entries of the OLSR protocol of a
    node with IPv4. *)
Definition update_olsr (olsr : option (list olsr_route)) (ip : ipv4)
    (table : list (string * string * string * Z)) : list (string * string * string * Z) :=
  match olsr with
  | None => table
  | Some rs =>
      foldl (λ t r, t ++ [(destAddr r, nextAddr r, route_interface ip (olsr_interface r),
                           distance r)]) [] rs
  end.

Lemma foldl_append {A B} (f : A → list B) (l : list A) acc :
  foldl (λ acc x, acc ++ f x) acc l = acc ++ (l ≫= f).
Proof.
  revert acc; induction l as [|x l IH]; intros acc; simpl; [by rewrite app_nil_r|].
  by rewrite IH, <- app_assoc.
Qed.

(** The rows of a routing protocol found at priority [pr]. *)
Definition rows_of (ip : ipv4) (x : list route * string * Z) : list row :=
  (λ r, Row (dest r) (gateway r) (route_interface ip (interface r)) x.1.2 x.2) <$> x.1.1.

Lemma add_routes ip ty pr t rs : foldl (add_route ip ty pr) t rs = t ++ rows_of ip (rs, ty, pr).
Proof.
  unfold add_route. rewrite (foldl_append (λ r, [Row _ _ _ ty pr])). done.
Qed.

(** The table lists the routes of the static and global protocols, protocol by
    protocol; when there is none the old rows stay. *)
Lemma routing_table_rows ip p table :
  routing ip = Some p →
  update_ipv4 (Some ip) table =
    Ok (if decide (routing_protocols p = []) then table
        else routing_protocols p ≫= rows_of ip).
Proof.
  intros Hp. unfold update_ipv4. rewrite Hp. case_decide as Hn; [by rewrite Hn|].
  destruct (routing_protocols p) as [|x l] eqn:E; [done|]. f_equal.
  rewrite <- (app_nil_l (_ ≫= rows_of ip)), <- foldl_append. rewrite <- E. clear.
  generalize (@nil row). induction (routing_protocols p) as [|[[rs ty] pr] ps IH]; intros t; [done|].
  simpl. by rewrite add_routes, IH.
Qed.

Lemma routing_protocols_list l : routing_protocols (Ipv4ListRouting l) = l ≫= listed.
Proof. apply (foldl_append listed l []). Qed.
End Tables.

(** A global protocol outside a list is not shown, and the window keeps what it
    displayed before. *)
Lemma lone_global_routing_stale :
  update_ipv4 (λ _, "") (Some (Ipv4 (Some (Ipv4GlobalRouting [Route "10.0.0.0" "0.0.0.0" 1]))
    (λ _, None))) [Row "old" "" "" "" 0] = Ok [Row "old" "" "" "" 0].
Proof. reflexivity. Qed.
End Routing.

(** ** Last packets *)
Module LastPackets.

Inductive capture_mode := PACKET_CAPTURE_FILTER_HEADERS_AND | PACKET_CAPTURE_FILTER_HEADERS_OR.

Record PacketCaptureOptions := Options {
  numLastPackets : Z;
  mode : capture_mode;
  headers : list Z }.

(** A type identifier is a number; [parent] is [GetParent] where [HasParent]. *)
Record TypeIdConfig := Config { name : string; selected : bool; typeid : Z }.

Record sample := Sample {
  time : Q;
  device : option (Z * Z);          (** with [GetIfIndex] *)
  packet_size : Z;
  contents : string }.

(** [PacketList.update]. *)
Definition packet_row (FindName : Z → string) (x : sample) : Q * string * Z * string :=
  let n :=
    match device x with
    | None => "(unknown)"
    | Some (d, i) => interface_name FindName d i
    end in
  (time x, n, packet_size x, contents x).

Definition update_list (FindName : Z → string) (packets : list sample) :
    list (Q * string * Z * string) :=
  foldl (λ t x, t ++ [packet_row FindName x]) [] packets.

Record last_packets := LastPacketsOf { transmitted : list sample; received : list sample;
                                       dropped : list sample }.

Definition update (FindName : Z → string) (p : last_packets) :
    list (Q * string * Z * string) * list (Q * string * Z * string) *
    list (Q * string * Z * string) :=
  (update_list FindName (transmitted p), update_list FindName (received p),
   update_list FindName (dropped p)).

Section Filter.
Context (Header Trailer : Z) (parent : Z → option Z) (GetName : Z → string).

(** [while 1]: up the parents until a header, a trailer or a root. *)
Fixpoint type_is_good (fuel : nat) (tmp : Z) : result exn bool :=
  match fuel with
  | O => Raise Diverges
  | S n =>
      if bool_decide (tmp = Header ∨ tmp = Trailer) then Ok true
      else match parent tmp with
           | Some p => type_is_good n p
           | None => Ok false
           end
  end.

(** The loop over the registered types; [n] bounds the length of a chain of
    parents. *)
Definition add_type (n : nat) (l : list TypeIdConfig) (t : Z) : result exn (list TypeIdConfig) :=
  good ← type_is_good n t;
  if negb good then Ok l
  else if bool_decide (t ∈ [Header; Trailer]) then Ok l
  else Ok (l ++ [Config (GetName t) true t]).

Definition packet_filter_list (n : nat) (registered : list Z) : result exn (list TypeIdConfig) :=
  fold_res (add_type n) [] registered.

(** The window: the list with its check boxes, the AND button and the options
    the simulator was given last. *)
Record window := Window {
  filter_list : list TypeIdConfig;
  op_AND : bool;
  options : PacketCaptureOptions }.

Definition update_capture_options (w : window) : window :=
  Window (filter_list w) (op_AND w)
    (Options 100
       (if op_AND w then PACKET_CAPTURE_FILTER_HEADERS_AND else PACKET_CAPTURE_FILTER_HEADERS_OR)
       (typeid <$> filter (λ c, selected c = true) (filter_list w))).

Definition select (b : bool) (c : TypeIdConfig) : TypeIdConfig := Config (name c) b (typeid c).

Definition sel_all_cb (w : window) : window :=
  update_capture_options (Window (select true <$> filter_list w) (op_AND w) (options w)).
Definition sel_none_cb (w : window) : window :=
  update_capture_options (Window (select false <$> filter_list w) (op_AND w) (options w)).

(** A check box is toggled by the list widget, which then emits [cell-edited]. *)
Definition cell_edited (i : nat) (w : window) : window :=
  update_capture_options
    (Window (alter (λ c, select (negb (selected c)) c) i (filter_list w)) (op_AND w) (options w)).
Definition op_toggled (w : window) : window :=
  update_capture_options (Window (filter_list w) (negb (op_AND w)) (options w)).

(** The constructor; OR is active and every header selected. *)
Definition open_window (n : nat) (registered : list Z) : result exn window :=
  l ← packet_filter_list n registered;
  Ok (update_capture_options (Window l false (Options 100 PACKET_CAPTURE_FILTER_HEADERS_OR []))).

Inductive event := SelAll | SelNone | Edit (i : nat) | ToggleOp.

Definition handle (w : window) (e : event) : window :=
  match e with
  | SelAll => sel_all_cb w
  | SelNone => sel_none_cb w
  | Edit i => cell_edited i w
  | ToggleOp => op_toggled w
  end.

(** *** The filter lists the headers and trailers *)

(** [a] is [t] or one of its ancestors. *)
Definition ancestor : Z → Z → Prop := rtc (λ t p, parent t = Some p).

Definition packet_header (t : Z) : Prop := ancestor t Header ∨ ancestor t Trailer.

(** [depth] measures the chain of parents above a type. *)
Context (depth : Z → nat) (parent_depth : ∀ t p, parent t = Some p → (depth p < depth t)%nat).

Lemma type_is_good_spec n t :
  (depth t < n)%nat → ∃ b, type_is_good n t = Ok b ∧ (b = true ↔ packet_header t).
Proof.
  revert t; induction n as [|n IH]; intros t Hn; [lia|]. cbn [type_is_good].
  case_bool_decide as Hroot.
  { exists true. split; [done|]. split; [|done]. intros _. destruct Hroot as [-> | ->];
      [left|right]; apply rtc_refl. }
  destruct (parent t) as [p|] eqn:Hp.
  - destruct (IH p) as (b & Hb & Hg); [apply parent_depth in Hp; lia|]. exists b. split; [done|].
    rewrite Hg. split.
    + intros [H|H]; [left|right]; by eapply rtc_l.
    + intros [H|H]; apply rtc_inv in H as [->|(p' & Hp' & H)]; simpl in *; try tauto;
        rewrite Hp in Hp'; injection Hp' as <-; [by left|by right].
  - exists false. split; [done|]. split; [done|].
    intros [H|H]; apply rtc_inv in H as [->|(p' & Hp' & H)]; simpl in *; try tauto; congruence.
Qed.

Lemma packet_filter_list_spec n registered :
  Forall (λ t, (depth t < n)%nat) registered →
  ∃ l, packet_filter_list n registered = Ok l ∧ Forall (λ c, selected c = true) l ∧
    Forall (λ c, name c = GetName (typeid c)) l ∧
    (∀ t, t ∈ typeid <$> l ↔ t ∈ registered ∧ packet_header t ∧ t ≠ Header ∧ t ≠ Trailer).
Proof.
  unfold packet_filter_list. induction registered as [|t ts IH] using rev_ind; intros Hd.
  { exists []. split; [done|]. split; [done|]. split; [done|]. set_solver. }
  apply Forall_app in Hd as [Hd Ht]. rewrite Forall_singleton in Ht.
  destruct (IH Hd) as (l & Hl & Hsel & Hname & Hin). rewrite fold_res_app, Hl. simpl.
  unfold add_type. destruct (type_is_good_spec n t Ht) as (b & -> & Hb). simpl.
  destruct b; simpl; [|exists l; split_and!; [done..|]; intros u; rewrite Hin;
    assert (¬ packet_header t) by (by rewrite <- Hb); set_solver].
  assert (packet_header t) by (by apply Hb).
  case_bool_decide as Hroot; simpl.
  - exists l. split_and!; [done..|]. intros u. rewrite Hin. set_solver.
  - exists (l ++ [Config (GetName t) true t]). split_and!.
    + done.
    + apply Forall_app. by split; [|constructor].
    + apply Forall_app. by split; [|constructor].
    + intros u. rewrite fmap_app, elem_of_app, Hin. simpl. set_solver.
Qed.

(** The search through the parents of every registered type ends, the
    filter then offers exactly the registered headers and trailers, all
    selected, and whatever the user does with the buttons and the check boxes
    the options the simulator captures with are those on display: the selected
    types, and AND or OR as the button says. *)
Theorem capture_follows_filter n registered es :
  Forall (λ t, (depth t < n)%nat) registered →
  ∃ w, open_window n registered = Ok w ∧
    Forall (λ c, selected c = true) (filter_list w) ∧
    (∀ t, t ∈ typeid <$> filter_list w ↔
       t ∈ registered ∧ packet_header t ∧ t ≠ Header ∧ t ≠ Trailer) ∧
    let w' := foldl handle w es in
    typeid <$> filter_list w' = typeid <$> filter_list w ∧
    options w' = Options 100
      (if op_AND w' then PACKET_CAPTURE_FILTER_HEADERS_AND else PACKET_CAPTURE_FILTER_HEADERS_OR)
      (typeid <$> filter (λ c, selected c = true) (filter_list w')).
Proof.
  intros Hd. destruct (packet_filter_list_spec n registered Hd) as (l & Hl & Hsel & _ & Hin).
  unfold open_window. rewrite Hl. eexists. split; [reflexivity|]. split; [done|].
  split; [done|]. cbn zeta.
  set (w0 := Window l false (Options 100 PACKET_CAPTURE_FILTER_HEADERS_OR [])).
  induction es as [|e es IH] using rev_ind; [done|]. rewrite foldl_snoc.
  destruct IH as [H1 _]. set (w := foldl handle (update_capture_options w0) es) in *.
  split; [etrans; [|exact H1]|by destruct e]. destruct e; simpl.
  - rewrite <- list_fmap_compose. by apply list_fmap_ext.
  - rewrite <- list_fmap_compose. by apply list_fmap_ext.
  - apply list_eq. intros j. rewrite !list_lookup_fmap.
    destruct (decide (i = j)) as [->|Hj]; [rewrite list_lookup_alter_eq|by rewrite list_lookup_alter_ne].
    by destruct (filter_list w !! j).
  - done.
Qed.
End Filter.

Definition example_parent (t : Z) : option Z :=
  match t with 1 | 2 | 5 => Some 0 | 3 => Some 1 | 4 => Some 3 | 6 => Some 2 | _ => None end%Z.
Definition example_depth (t : Z) : nat :=
  match t with 1 | 2 | 5 => 1%nat | 3 | 6 => 2%nat | 4 => 3%nat | _ => 0%nat end%Z.

Lemma example_parent_depth t p :
  example_parent t = Some p → (example_depth p < example_depth t)%nat.
Proof.
  unfold example_parent. destruct t as [|[[[]|[]|]|[[]|[]|]|]|]; intros [= <-];
    vm_compute; lia.
Qed.

Lemma capture_follows_filter_witness :
  ∃ w, open_window 1 2 example_parent (λ _, "") 4 [0; 1; 2; 3; 4; 5; 6]%Z = Ok w ∧
    headers (options (foldl handle w [Edit 1; ToggleOp])) = [3; 6]%Z ∧
    mode (options (foldl handle w [Edit 1; ToggleOp])) = PACKET_CAPTURE_FILTER_HEADERS_AND.
Proof.
  destruct (capture_follows_filter 1 2 example_parent (λ _, "") example_depth
    example_parent_depth 4 [0; 1; 2; 3; 4; 5; 6]%Z [Edit 1; ToggleOp]) as (w & Hw & _ & _ & _ & Ho).
  { repeat constructor; vm_compute; lia. }
  exists w. split; [done|]. rewrite Ho. vm_compute in Hw. injection Hw as <-.
  split; vm_compute; reflexivity.
Defined.
End LastPackets.

(** ** The tooltip of a node *)
Module Tooltip.

Record device := Device {
  dev_name : string;                 (** [Names.FindName] *)
  dev_type : string;
  ipv4_interface : Z;                (** [GetInterfaceForDevice], -1 for none *)
  ipv6_interface : Z;
  mac : string }.

(** [ipv6_count] is [GetNAddresses], [ipv6_address] [GetAddress]. *)
Record node := Node {
  node_index : Z;
  ipv4_addresses : option (Z → list (string * string));
  ipv6 : option ((Z → nat) * (Z → nat → string * string));
  mobility_model : option string;
  devices : list device }.

Definition show_address (a : string * string) : string := a.1 +:+ "/" +:+ a.2.

Definition addresses_line (v : string) (l : list (string * string)) : string :=
  "    <b>" +:+ v +:+ " Addresses:</b> " +:+ join "; " (show_address <$> l).

(** The loop over the devices: the lines and the variable [ipv4_idx], which is
    not assigned on a node without IPv4. *)
Definition device_lines (n : node) (st : list string * option Z) (x : nat * device) :
    result exn (list string * option Z) :=
  let d := x.2 in
  let lines := st.1 ++ [""; "  <u>NetDevice " +:+ pretty (Z.of_nat x.1) +:+ ":</u>"] ++
    (if bool_decide (dev_name d = "") then [] else ["    <b>Name:</b> " +:+ dev_name d]) ++
    ["    <b>Type:</b> " +:+ dev_type d] in
  let '(lines, ipv4_idx) :=
    match ipv4_addresses n with
    | None => (lines, st.2)
    | Some addresses =>
        let i := ipv4_interface d in
        (if bool_decide (i = -1)%Z then lines
         else lines ++ [addresses_line "IPv4" (addresses i)], Some i)
    end in
  lines ←
    match ipv6 n with
    | None => Ok lines
    | Some (count, address) =>
        let i := ipv6_interface d in
        if bool_decide (i = -1)%Z then Ok lines
        else
          j ← of_option UnboundLocalError ipv4_idx;
          Ok (lines ++ [addresses_line "IPv6" (address i <$> seq 0 (count j))])
    end;
  Ok (lines ++ ["    <b>MAC Address:</b> " +:+ mac d], ipv4_idx).

(** [extra] are the lines the plugins append. *)
Definition tooltip_query (extra : list string) (n : node) : result exn string :=
  let lines := ["<b><u>Node " +:+ pretty (node_index n) +:+ "</u></b>"; ""] ++ extra ++
    match mobility_model n with
    | Some m => ["  <b>Mobility Model</b>: " +:+ m]
    | None => []
    end in
  '(lines, _) ← fold_res (device_lines n) (lines, None) (imap pair (devices n));
  Ok (join nl lines).

(** What the tooltip should say of a device. *)
Definition device_block (n : node) (x : nat * device) : list string :=
  let d := x.2 in
  [""; "  <u>NetDevice " +:+ pretty (Z.of_nat x.1) +:+ ":</u>"] ++
  (if bool_decide (dev_name d = "") then [] else ["    <b>Name:</b> " +:+ dev_name d]) ++
  ["    <b>Type:</b> " +:+ dev_type d] ++
  match ipv4_addresses n with
  | Some addresses =>
      if bool_decide (ipv4_interface d = -1)%Z then []
      else [addresses_line "IPv4" (addresses (ipv4_interface d))]
  | None => []
  end ++
  match ipv6 n with
  | Some (count, address) =>
      if bool_decide (ipv6_interface d = -1)%Z then []
      else [addresses_line "IPv6" (address (ipv6_interface d) <$> seq 0 (count (ipv6_interface d)))]
  | None => []
  end ++
  ["    <b>MAC Address:</b> " +:+ mac d].

Definition header_lines (extra : list string) (n : node) : list string :=
  ["<b><u>Node " +:+ pretty (node_index n) +:+ "</u></b>"; ""] ++ extra ++
  match mobility_model n with
  | Some m => ["  <b>Mobility Model</b>: " +:+ m]
  | None => []
  end.

(** A device with IPv6 on a node without IPv4. *)
Definition ipv6_only (n : node) (d : device) : Prop :=
  ipv4_addresses n = None ∧ ipv6 n ≠ None ∧ ipv6_interface d ≠ (-1)%Z.

(** The count of IPv6 addresses is asked of the IPv4 interface. *)
Definition counts_agree (n : node) (d : device) : Prop :=
  match ipv6 n with
  | Some (count, _) =>
      ipv6_interface d = (-1)%Z ∨ count (ipv4_interface d) = count (ipv6_interface d)
  | None => True
  end.

Ltac same_block :=
  repeat case_bool_decide; try done; simpl; rewrite <- ?app_assoc; simpl; reflexivity.

Lemma device_lines_ok n ls i x :
  ¬ ipv6_only n x.2 → counts_agree n x.2 →
  (ipv4_addresses n = None → i = None) →
  ∃ j, device_lines n (ls, i) x = Ok (ls ++ device_block n x, j) ∧
    (ipv4_addresses n = None → j = None).
Proof.
  unfold ipv6_only, counts_agree, device_lines, device_block. intros Hno Hc Hi. cbn [fst snd].
  destruct (ipv4_addresses n) as [ad|].
  - exists (Some (ipv4_interface x.2)). split; [|done].
    destruct (ipv6 n) as [[count address]|]; cbn [mbind result_bind]; [|same_block].
    destruct (decide (ipv6_interface x.2 = (-1)%Z)) as [H6|H6]; [same_block|].
    destruct Hc as [Hc|Hc]; [done|]. cbn [of_option mbind result_bind]. rewrite Hc. same_block.
  - exists i. split; [|done].
    destruct (ipv6 n) as [[count address]|]; cbn [mbind result_bind]; [|same_block].
    destruct (decide (ipv6_interface x.2 = (-1)%Z)) as [H6|H6]; [same_block|].
    destruct Hno. by split_and!.
Qed.

Lemma device_lines_unbound n ls x :
  ipv6_only n x.2 → device_lines n (ls, None) x = Raise UnboundLocalError.
Proof.
  intros (H4 & H6 & Hi). unfold device_lines. rewrite H4.
  destruct (ipv6 n) as [[count address]|]; [|done]. cbn [mbind result_bind].
  by rewrite bool_decide_eq_false_2.
Qed.

#[export] Instance ipv6_only_dec n d : Decision (ipv6_only n d).
Proof.
  unfold ipv6_only. destruct (ipv4_addresses n); [right; naive_solver|].
  destruct (ipv6 n); [|right; naive_solver].
  destruct (decide (ipv6_interface d = (-1)%Z)); [right|left]; naive_solver.
Defined.

(** The tooltip of a node whose IPv6 interfaces have as many addresses as its
    IPv4 interfaces of the same number lists the node, the lines of the
    plugins, and for every device in order its name, type, addresses and MAC
    address; unless some device has an IPv6 interface and the node no IPv4:
    then the query raises [UnboundLocalError] and shows nothing, because the
    loop reads [ipv4_idx] where it means [ipv6_idx]. *)
Theorem tooltip_lines extra n :
  Forall (counts_agree n) (devices n) →
  tooltip_query extra n =
    if decide (Exists (ipv6_only n) (devices n)) then Raise UnboundLocalError
    else Ok (join nl (header_lines extra n ++ (imap pair (devices n) ≫= device_block n))).
Proof.
  intros Hc. unfold tooltip_query. fold (header_lines extra n).
  generalize (header_lines extra n). intros ls.
  assert (∀ (l : list (nat * device)) ls i, Forall (counts_agree n) l.*2 →
    (ipv4_addresses n = None → i = None) →
    (if decide (Exists (ipv6_only n) l.*2)
     then fold_res (device_lines n) (ls, i) l = Raise UnboundLocalError
     else ∃ j, fold_res (device_lines n) (ls, i) l = Ok (ls ++ (l ≫= device_block n), j))) as Hloop.
  { clear. induction l as [|x l IH]; intros ls i Hc Hi.
    { rewrite decide_False by (by inversion 1). exists i. simpl. by rewrite app_nil_r. }
    rewrite fmap_cons in *. rewrite Forall_cons in Hc. destruct Hc as [Hx Hc].
    destruct (decide (ipv6_only n x.2)) as [Ho|Ho].
    { rewrite decide_True by (apply Exists_cons; by left). cbn [fold_res]. destruct Ho as (H4 & H6).
      rewrite (Hi H4), device_lines_unbound by (by split). done. }
    destruct (device_lines_ok n ls i x Ho Hx Hi) as (j & Hj & Hnone).
    cbn [fold_res]. rewrite Hj. cbn [mbind result_bind].
    specialize (IH (ls ++ device_block n x) j Hc Hnone).
    destruct (decide (Exists (ipv6_only n) l.*2)) as [He|He].
    - by rewrite decide_True by (apply Exists_cons; by right).
    - rewrite decide_False by (by rewrite Exists_cons; intros [?|?]).
      destruct IH as (k & ->). exists k. cbn [mbind list_bind]. by rewrite <- app_assoc. }
  specialize (Hloop (imap pair (devices n)) ls None).
  assert ((imap pair (devices n)).*2 = devices n) as E.
  { rewrite fmap_imap. transitivity (imap (λ _ d, d) (devices n)); [by apply imap_ext|].
    clear. induction (devices n) as [|d l IH]; [done|]. rewrite imap_cons. f_equal. exact IH. }
  rewrite E in Hloop. specialize (Hloop Hc (λ _, eq_refl)).
  case_decide; [by rewrite Hloop|]. destruct Hloop as (j & ->). done.
Qed.

Definition example_node : node :=
  Node 4 None (Some (λ _, 1%nat, λ _ _, ("fe80::1", "64"))) None
    [Device "" "ns3::LoopbackNetDevice" (-1) (-1) "00:00"; Device "" "ns3::CsmaNetDevice" (-1) 1 "00:01"].

Lemma tooltip_lines_witness :
  Forall (counts_agree example_node) (devices example_node) ∧
  tooltip_query [] example_node = Raise UnboundLocalError.
Proof.
  assert (Forall (counts_agree example_node) (devices example_node)) as Hc.
  { constructor; [by left|constructor; [by right|constructor]]. }
  split; [exact Hc|]. rewrite (tooltip_lines [] example_node Hc). vm_compute. reflexivity.
Defined.
End Tooltip.
