(* ===== verification/Console.v ===== *)
(** * The console of the visualizer ([ipython_view.py])

    A text view whose last line is typed by the user and whose other text is
    what was entered and printed before.  [IterableIPShell] runs the lines in
    an IPython shell, [ConsoleView] edits the text buffer, [IPythonView] ties
    the two together.  The text buffer of Gtk and the IPython shell are
    third-party: the classes [TextBuffer] and [IPShell] are what the code calls
    of them, [TextBufferOk] and [IPShellOk] what it relies on. *)

From S2P Require Import Prelude PyStr.
From Stdlib Require Import Ascii.

Local Open Scope string_scope.
Local Open Scope list_scope.
Local Open Scope nat_scope.

(** ** Completion and history ([IterableIPShell]) *)

(** [[\s\{\}\[\]\(\)]]. *)
Definition complete_sep (c : ascii) : bool :=
  is_space c || bool_decide (c ∈ ["{"; "}"; "["; "]"; "("; ")"]%char).

(** [self.complete_sep.split(line)]. *)
Fixpoint sep_split (s : string) : list string :=
  match s with
  | "" => [""]
  | String c s' =>
      if complete_sep c then "" :: sep_split s'
      else match sep_split s' with
           | w :: ws => String c w :: ws
           | [] => [String c ""]
           end
  end.

(** [s[:n]]. *)
Definition str_take (n : nat) (s : string) : string := String.substring 0 n s.
Definition slice_to (s : string) (j : Z) : string := str_take (py_clamp (String.length s) j) s.

(** [for i in range(len(str1))], from [i] on, [n] rounds left. *)
Fixpoint common_loop (n i : nat) (str1 str2 : string) : string :=
  match n with
  | O => str1
  | S n' =>
      if startswith (str_take (S i) str1) str2 then common_loop n' (S i) str1 str2
      else str_take i str1
  end.

Definition _commonPrefix (str1 str2 : string) : string :=
  common_loop (String.length str1) 0 str1 str2.

Definition last_piece (line : string) : string := default "" (last (sep_split line)).

(** The line completed_line, from the possibilities for its last piece. *)
Definition completed_line (line : string) (possibilities : list string) : string :=
  match possibilities with
  | [] => line
  | p :: ps =>
      slice_to line (- Z.of_nat (String.length (last_piece line))) +:+
      foldl _commonPrefix p ps
  end.

(** [s.strip('\n')]. *)
Fixpoint lstrip_nl (s : string) : string :=
  match s with
  | String c s' => if bool_decide (c = newline) then lstrip_nl s' else s
  | "" => ""
  end.
Fixpoint rstrip_nl (s : string) : string :=
  match s with
  | "" => ""
  | String c s' =>
      match rstrip_nl s' with
      | "" => if bool_decide (c = newline) then "" else String c ""
      | r => String c r
      end
  end.
Definition strip_nl (s : string) : string := lstrip_nl (rstrip_nl s).

(** [_getHistory], from the lines entered and [history_level]: the line and
    the new level. *)
Definition _getHistory (ins : list string) (level : Z) : string * Z :=
  match py_index ins level with
  | Ok s => (strip_nl s, level)
  | Raise _ => ("", 0%Z)
  end.

Definition historyBack (ins : list string) (level : Z) : string * Z := _getHistory ins (level - 1).
Definition historyForward (ins : list string) (level : Z) : string * Z := _getHistory ins (level + 1).

(** ** Colours *)

(** [(.*?)m]: up to the first [m] of the line. *)
Fixpoint to_m (s : string) : option (string * string) :=
  match s with
  | "" => None
  | String c s' =>
      if bool_decide (c = "m"%char) then Some ("", s')
      else if bool_decide (c = newline) then None
      else '(tag, r) ← to_m s'; Some (String c tag, r)
  end.

Definition drop_char (c : ascii) (s : string) : string :=
  match s with
  | String d s' => if bool_decide (d = c) then s' else s
  | "" => s
  end.

(** [\x01?\x1b\[(.*?)m\x02?] at the start of the text. *)
Definition match_escape (s : string) : option (string * string) :=
  match drop_char "001" s with
  | String c (String d s') =>
      if bool_decide (c = "027"%char ∧ d = "["%char)
      then '(tag, r) ← to_m s'; Some (tag, drop_char "002" r)
      else None
  | _ => None
  end.

(** [color_pat.split]: the text before the first colour, and every colour
    with the text after it. *)
Fixpoint color_split (fuel : nat) (s : string) : string * list (string * string) :=
  match fuel, s with
  | S fuel', String c s' =>
      match match_escape s with
      | Some (tag, r) => let '(t, l) := color_split fuel' r in ("", (tag, t) :: l)
      | None => let '(t, l) := color_split fuel' s' in (String c t, l)
      end
  | _, _ => (s, [])
  end.

Definition segments_of (text : string) : string * list (string * string) :=
  color_split (String.length text) text.

(** The keys of [ansi_colors], and the tags of the buffer: [__init__] creates one
    for each colour, ['0'] and ['notouch']. *)
Definition ansi_colors : list string :=
  a ← ["0"; "1"]; (λ b, a +:+ ";3" +:+ b) <$> ["0"; "1"; "2"; "3"; "4"; "5"; "6"; "7"].
Definition known_tag (t : string) : Prop := t ∈ "0" :: "notouch" :: ansi_colors.

#[export] Instance known_tag_dec t : Decision (known_tag t) := _.

(** [l.index(x)]. *)
Fixpoint index_of (x : string) (l : list string) : result exn nat :=
  match l with
  | [] => Raise (ValueError "not in list")
  | y :: l' => if decide (y = x) then Ok 0 else i ← index_of x l'; Ok (S i)
  end.

(** ** The text buffer *)

(** The marks the code uses; [StartMark] is the one [write] creates.  [LineStart]
    and [StartMark] stay behind text inserted at them, the two of the cursor
    move on. *)
Inductive text_mark := LineStart | StartMark | InsertMark | SelectionBound.

#[export] Instance text_mark_eq_dec : EqDecision text_mark.
Proof. solve_decision. Defined.

Definition moves_on (m : text_mark) : bool :=
  match m with LineStart | StartMark => false | _ => true end.

(** [edit] is what Gtk itself does with a key, [T] being the edits. *)
Class TextBuffer (B T : Type) := {
  content : B → list ascii;
  offset : B → text_mark → nat;
  notouch : B → nat → bool;
  insert : string → B → B;
  insert_with_tag : string → string → B → B * result exn unit;
  apply_notouch : nat → nat → B → B;
  delete_range : nat → nat → B → B;
  move_mark : text_mark → nat → B → B;
  forward_to_line_end : B → nat → nat;
  edit : T → B → B }.

Definition chars (s : string) : list ascii := String.list_ascii_of_string s.

(** A text without its escape sequences. *)
Definition visible (s : string) : string :=
  let '(t, l) := segments_of s in t +:+ foldr (λ p r, p.2 +:+ r) "" l.

(** The buffer has a tag for every colour of the text. *)
Definition colours_known (s : string) : Prop := Forall known_tag (segments_of s).2.*1.

(** None of its parts is the name of one of its colours. *)
Definition unambiguous (s : string) : Prop :=
  Forall (λ t, t ∉ (segments_of s).2.*1) (segments_of s).2.*2.

(** [s] is inserted at the end. *)
Definition inserted {B T} `{TextBuffer B T} (s : string) (b b' : B) : Prop :=
  content b' = content b ++ chars s ∧
  (∀ m, offset b' m = if decide (offset b m = length (content b) ∧ moves_on m = true)
                      then length (content b') else offset b m) ∧
  ∀ k, k < length (content b) → notouch b' k = notouch b k.

(** Text is inserted with a tag that the buffer has; with another it is an error,
    before or after the text is inserted.  A mark behind deleted text stays
    behind the place of the deletion.
    An edit by the user happens at the cursor; it neither inserts inside text
    marked untouchable nor deletes a character of it. *)
Class TextBufferOk (B T : Type) `{TextBuffer B T} : Prop := {
  offset_in b m : offset b m ≤ length (content b);
  insert_spec s b : inserted s b (insert s b);
  insert_with_tag_spec t s b :
    match insert_with_tag t s b with
    | (b', Ok _) => inserted s b b'
    | (b', Raise _) => b' = b ∨ inserted s b b'
    end;
  insert_known_tag t s b : known_tag t → (insert_with_tag t s b).2 = Ok tt;
  apply_notouch_spec i j b (b' := apply_notouch i j b) :
    content b' = content b ∧ (∀ m, offset b' m = offset b m) ∧
    ∀ k, k < length (content b) → notouch b' k = notouch b k || bool_decide (i ≤ k < j);
  delete_range_spec i j b (b' := delete_range i j b) :
    i ≤ j ≤ length (content b) →
    content b' = take i (content b) ++ drop j (content b) ∧
    (∀ m, offset b m ≤ i → offset b' m = offset b m) ∧
    (∀ m, i ≤ offset b m → i ≤ offset b' m) ∧
    ∀ k, k < i → notouch b' k = notouch b k;
  move_mark_spec m n b (b' := move_mark m n b) :
    n ≤ length (content b) →
    content b' = content b ∧ (∀ m', offset b' m' = if decide (m' = m) then n else offset b m') ∧
    ∀ k, k < length (content b) → notouch b' k = notouch b k;
  line_end_spec b i : i ≤ length (content b) → i ≤ forward_to_line_end b i ≤ length (content b);
  line_end_last b i : newline ∉ drop i (content b) → i ≤ length (content b) →
    forward_to_line_end b i = length (content b);
  edit_spec t b n (b' := edit t b) :
    n ≤ offset b InsertMark → n ≤ offset b SelectionBound → (n = 0 ∨ notouch b (n - 1) = true) →
    n ≤ length (content b') ∧ take n (content b') = take n (content b) ∧
    (offset b LineStart ≤ n → offset b' LineStart = offset b LineStart) ∧
    ∀ k, k < n → notouch b' k = notouch b k }.

(** ** The IPython shell *)

(** What [raw_input] of the console answers to the shell, and what the shell's
    own method, which calls it, does then. *)
Inductive answer := Answer (line : string) | AnswerInterrupt | AnswerError (e : exn).
Inductive reading := Line (line : string) | Interrupted | Failed.

(** An operation of the shell also returns what it prints. *)
Class IPShell (S : Type) := {
  ip_raw_input : bool → answer → S → S * string * reading;
  ip_autoindent : S → bool;
  ip_startup_hook : bool → S → S;
  ip_write : string → S → S * string;
  ip_resetbuffer : S → S;
  ip_prompt_back : S → S;
  ip_no_indent : S → S;
  ip_showtraceback : S → S * string;
  ip_push : string → S → S * string * result exn bool;
  ip_syntax_error : S → bool;
  ip_autoedit_syntax : S → bool;
  ip_edit_syntax_error : S → S * string;
  ip_prompt1 : S → string;
  ip_prompt2 : S → string;
  ip_In : S → list string;
  ip_complete : string → S → list string }.

(** The exceptions of the input function go through the shell's method. *)
Class IPShellOk (S : Type) `{IPShell S} : Prop := {
  raw_input_interrupt b s : (ip_raw_input b AnswerInterrupt s).2 = Interrupted;
  raw_input_error b e s : (ip_raw_input b (AnswerError e) s).2 = Failed }.

(** ** The console ([ConsoleView], [IPythonView]) *)
Section Console.
Context {B T S : Type} `{TextBuffer B T} `{IPShell S}.

(** [redirected]: the standard output of the process is [cout]. *)
Record console := MkConsole {
  buf : B; shell : S; iter_more : bool; history_level : Z; prompt : string;
  interrupt : option bool; cout : string; redirected : bool }.

Definition set_buf (b : B) (c : console) : console :=
  MkConsole b (shell c) (iter_more c) (history_level c) (prompt c) (interrupt c) (cout c) (redirected c).
Definition set_shell (s : S) (c : console) : console :=
  MkConsole (buf c) s (iter_more c) (history_level c) (prompt c) (interrupt c) (cout c) (redirected c).
Definition set_iter_more (b : bool) (c : console) : console :=
  MkConsole (buf c) (shell c) b (history_level c) (prompt c) (interrupt c) (cout c) (redirected c).
Definition set_level (l : Z) (c : console) : console :=
  MkConsole (buf c) (shell c) (iter_more c) l (prompt c) (interrupt c) (cout c) (redirected c).
Definition set_prompt (p : string) (c : console) : console :=
  MkConsole (buf c) (shell c) (iter_more c) (history_level c) p (interrupt c) (cout c) (redirected c).
Definition set_interrupt (i : bool) (c : console) : console :=
  MkConsole (buf c) (shell c) (iter_more c) (history_level c) (prompt c) (Some i) (cout c) (redirected c).
Definition set_cout (o : string) (c : console) : console :=
  MkConsole (buf c) (shell c) (iter_more c) (history_level c) (prompt c) (interrupt c) o (redirected c).
Definition set_redirected (r : bool) (c : console) : console :=
  MkConsole (buf c) (shell c) (iter_more c) (history_level c) (prompt c) (interrupt c) (cout c) r.

(** A method changes the console, and returns or raises. *)
Definition M (A : Type) : Type := console → console * result exn A.

#[local] Instance M_ret : MRet M := λ A a c, (c, Ok a).
#[local] Instance M_bind : MBind M := λ A B' f m c,
  match m c with (c', Ok a) => f a c' | (c', Raise e) => (c', Raise e) end.

Definition gets {A} (f : console → A) : M A := λ c, (c, Ok (f c)).
Definition modify (f : console → console) : M unit := λ c, (f c, Ok tt).
Definition lift {A} (r : result exn A) : M A := λ c, (c, r).
Definition on_buf (f : B → B) : M unit := λ c, (set_buf (f (buf c)) c, Ok tt).

Fixpoint for_each {A} (f : A → M unit) (l : list A) : M unit :=
  match l with
  | [] => mret tt
  | x :: l' => _ ← f x; for_each f l'
  end.

Definition buffer_end (b : B) : nat := length (content b).

(** *** [ConsoleView] *)
Definition insert_tagged (t s : string) : M unit := λ c,
  let '(b, r) := insert_with_tag t s (buf c) in (set_buf b c, r).

(** The loop of [write] over the colours. *)
Fixpoint write_segments (tags segments : list string) : M unit :=
  match tags with
  | [] => mret tt
  | tag :: tags' =>
      i ← lift (index_of tag segments);
      s ← lift (of_option IndexError (segments !! Nat.succ i));
      _ ← insert_tagged tag s;
      write_segments tags' (delete i segments)
  end.

Definition write (text : string) (editable : bool) : M unit :=
  let '(segment, l) := segments_of text in
  _ ← on_buf (λ b, move_mark StartMark (buffer_end b) b);
  _ ← on_buf (insert segment);
  _ ← write_segments l.*1 (l ≫= λ p, [p.1; p.2]);
  if editable then mret tt
  else on_buf (λ b, apply_notouch (offset b StartMark) (buffer_end b) b).

Definition showPrompt (p : string) : M unit :=
  _ ← write p false; on_buf (λ b, move_mark LineStart (buffer_end b) b).

(** The end of the line typed, and the line as far as the end of the buffer. *)
Definition line_end (b : B) : nat := forward_to_line_end b (offset b LineStart).

Definition changeLine (text : string) : M unit :=
  _ ← on_buf (λ b, delete_range (offset b LineStart) (line_end b) b);
  write text true.

Definition current_line (b : B) : string := String.string_of_list_ascii (drop (offset b LineStart) (content b)).
Definition getCurrentLine : M string := gets (λ c, current_line (buf c)).

Definition place_cursor (n : nat) (b : B) : B := move_mark SelectionBound n (move_mark InsertMark n b).

Definition showReturned (text : string) : M unit :=
  _ ← on_buf (λ b, apply_notouch (offset b LineStart) (line_end b) b);
  _ ← write (nl +:+ text) false;
  _ ← (if decide (text = "") then mret tt else write nl false);
  p ← gets prompt;
  _ ← showPrompt p;
  _ ← on_buf (λ b, move_mark LineStart (buffer_end b) b);
  on_buf (λ b, place_cursor (buffer_end b) b).

(** [string]: the key has a text. *)
Definition _onKeypress (string : bool) : M unit :=
  if negb string then mret tt
  else on_buf (λ b,
    let start := offset b LineStart in
    let ins := offset b InsertMark in
    let sel := offset b SelectionBound in
    if decide (start ≤ ins ∧ start ≤ sel) then b
    else if decide (ins < start ∧ sel < start) then place_cursor start b
    else if decide (ins < sel) then move_mark InsertMark start b
    else if decide (sel < ins) then move_mark SelectionBound start b
    else b).

(** *** [IterableIPShell.execute] *)
Definition print (r : S * string) : M unit :=
  modify (λ c, set_cout (cout c +:+ r.2) (set_shell r.1 c)).

(** [IPythonView.raw_input], which the shell calls. *)
Definition raw_input : M answer :=
  i ← gets interrupt;
  match i with
  | None => mret (AnswerError AttributeError)
  | Some true => _ ← modify (set_interrupt false); mret AnswerInterrupt
  | Some false => l ← getCurrentLine; mret (Answer l)
  end.

Definition ask_line : M reading :=
  a ← raw_input;
  more ← gets iter_more;
  s ← gets shell;
  let '(s, out, r) := ip_raw_input more a s in
  _ ← print (s, out); mret r.

Definition on_shell (f : S → S) : M unit := modify (λ c, set_shell (f (shell c)) c).
Definition when_indent (f : S → S) : M unit :=
  on_shell (λ s, if ip_autoindent s then f s else s).

Definition push_line (line : string) : M unit :=
  s ← gets shell;
  let '(s, out, r) := ip_push line s in
  _ ← print (s, out);
  more ← lift r;
  _ ← modify (set_iter_more more);
  s ← gets shell;
  if ip_syntax_error s && ip_autoedit_syntax s then print (ip_edit_syntax_error s) else mret tt.

Definition execute : M unit :=
  _ ← modify (set_level 0);
  _ ← modify (set_redirected true);
  r ← ask_line;
  _ ← match r with
      | Interrupted =>
          s ← gets shell;
          _ ← print (ip_write (nl +:+ "KeyboardInterrupt" +:+ nl) s);
          _ ← on_shell ip_resetbuffer;
          _ ← on_shell ip_prompt_back;
          _ ← when_indent ip_no_indent;
          modify (set_iter_more false)
      | Failed => s ← gets shell; print (ip_showtraceback s)
      | Line l => _ ← when_indent (ip_startup_hook false); push_line l
      end;
  _ ← modify (λ c, if iter_more c then set_prompt (strip (ip_prompt2 (shell c))) c
                   else set_prompt (strip (ip_prompt1 (shell c))) c);
  _ ← modify (λ c, if iter_more c && ip_autoindent (shell c)
                   then set_shell (ip_startup_hook true (shell c)) c else c);
  modify (set_redirected false).

(** *** [IPythonView] *)
Definition _processLine : M unit :=
  _ ← execute;
  rv ← gets cout;
  _ ← showReturned (strip_nl rv);
  modify (set_cout "").

Definition complete (line : string) : M (string * list string) :=
  s ← gets shell;
  let possibilities := ip_complete (last_piece line) s in
  mret (completed_line line possibilities, possibilities).

Definition history (f : list string → Z → string * Z) : M unit :=
  c ← gets id;
  let '(line, level) := f (ip_In (shell c)) (history_level c) in
  _ ← modify (set_level level); changeLine line.

Definition on_tab : M bool :=
  line ← getCurrentLine;
  if decide (strip line = "") then mret false
  else
    '(completed_line, possibilities) ← complete line;
    slice ← (if decide (1 < length possibilities) then
               slice ← getCurrentLine;
               _ ← write nl false;
               _ ← for_each (λ symbol, write (symbol +:+ nl) false) possibilities;
               p ← gets prompt;
               _ ← showPrompt p;
               mret (Some slice)
             else mret None);
    _ ← (if decide (completed_line = "") then
           s ← lift (of_option UnboundLocalError slice); changeLine s
         else changeLine completed_line);
    mret true.

Inductive key := CtrlC | Return | Up | Down | Tab | OtherKey.

#[export] Instance key_eq_dec : EqDecision key.
Proof. solve_decision. Defined.

(** [True] keeps the key from Gtk. *)
Definition keyPress (k : key) : M bool :=
  match k with
  | CtrlC => _ ← modify (set_interrupt true); _ ← _processLine; mret true
  | Return => _ ← _processLine; mret true
  | Up => _ ← history historyBack; mret true
  | Down => _ ← history historyForward; mret true
  | Tab => on_tab
  | OtherKey => mret false
  end.

(** What the user does: a key, which has a text or not, with what Gtk makes of it
    when the handlers leave it, or a move of the cursor and the selection.
    Shift+Insert pastes, for one, and has no text; what is edited with the mouse
    or a menu counts as such a key. *)
Inductive event := Key (k : key) (string : bool) (t : T) | Click (ins sel : nat).

(** The exception of a handler is printed; Gtk then goes on with the key. *)
Definition handle (c : console) (e : event) : console :=
  match e with
  | Key k string t =>
      let '(c, _) := _onKeypress string c in
      let '(c, r) := keyPress k c in
      match r with
      | Ok true => c
      | _ => set_buf (edit t (buf c)) c
      end
  | Click ins sel =>
      set_buf (move_mark SelectionBound (Nat.min sel (buffer_end (buf c)))
                 (move_mark InsertMark (Nat.min ins (buffer_end (buf c))) (buf c))) c
  end.

Definition run (c : console) (es : list event) : console := foldl handle c es.

(** [__init__], on the empty buffer and a new shell: [interrupt] is assigned
    last, after [execute] has read it. *)
Definition open_console (b : B) (s : S) : console * result exn unit :=
  (_ ← execute;
   _ ← modify (set_cout "");
   p ← gets prompt;
   _ ← showPrompt p;
   modify (set_interrupt false))
  (MkConsole b s false 0 "" None "" false).
End Console.

(** ** Lemmas on completion *)
Lemma substring_0 s : String.substring 0 0 s = "".
Proof. by destruct s. Qed.

Lemma str_take_app a b : str_take (String.length a) (a +:+ b) = a.
Proof.
  unfold str_take. induction a as [|c a IH]; [apply substring_0|].
  rewrite str_app_cons. cbn. by rewrite IH.
Qed.

Lemma str_take_all s : str_take (String.length s) s = s.
Proof. rewrite <- (app_empty_r s) at 2. apply str_take_app. Qed.

Lemma str_take_prefix n s : ∃ t, s = str_take n s +:+ t.
Proof.
  revert n. induction s as [|c s IH]; intros [|n]; [by exists ""|by exists ""|by exists (String c s)|].
  destruct (IH n) as [t Ht]. exists t. unfold str_take in *. cbn. rewrite str_app_cons. by rewrite <- Ht.
Qed.

Lemma str_take_length n s : n ≤ String.length s → String.length (str_take n s) = n.
Proof.
  revert n. induction s as [|c s IH]; intros [|n] Hn; cbn in *; [done|lia|done|].
  unfold str_take in *. cbn. rewrite IH; [done|lia].
Qed.

(** The longest prefix two strings share. *)
Lemma common_loop_spec n i str1 str2 :
  i + n = String.length str1 → startswith (str_take i str1) str2 = true →
  let p := common_loop n i str1 str2 in
  startswith p str1 = true ∧ startswith p str2 = true ∧
  ∀ q, startswith q str1 = true → startswith q str2 = true → startswith q p = true.
Proof.
  revert i. induction n as [|n IH]; intros i Hin Hi; cbn zeta; cbn [common_loop].
  - rewrite Nat.add_0_r in Hin. rewrite Hin, str_take_all in Hi. split_and!; [|done|done].
    rewrite <- (app_empty_r str1) at 2. apply startswith_app.
  - destruct (startswith (str_take (S i) str1) str2) eqn:E; [apply IH; [lia|done]|].
    split_and!; [|done|].
    + destruct (str_take_prefix i str1) as [t Ht]. rewrite Ht at 2. apply startswith_app.
    + intros q H1 H2. apply startswith_spec in H1 as [t1 H1], H2 as [t2 H2].
      assert (String.length q ≤ i) as Hq.
      { destruct (decide (String.length q ≤ i)) as [|Hq]; [done|]. exfalso.
        assert (startswith (str_take (S i) str1) str2 = true); [|congruence].
        apply startswith_spec. destruct (str_take_prefix (S i) q) as [r Hr].
        exists (r +:+ t2). rewrite H2. rewrite Hr at 1.
        assert (str_take (S i) str1 = str_take (S i) q) as ->.
        { rewrite H1, Hr at 1. rewrite <- str_app_assoc.
          rewrite <- (str_take_length (S i) q) at 1 by lia. apply str_take_app. }
        by rewrite str_app_assoc. }
      apply startswith_spec. destruct (str_take_prefix i str1) as [r Hr]. rewrite H1 in Hr at 1.
      assert (str_take i str1 = q +:+ str_take (i - String.length q) t1) as ->; [|by eexists].
      rewrite H1. clear -Hq. unfold str_take. revert i Hq.
      induction q as [|c q IH]; intros i Hq; [by rewrite Nat.sub_0_r|].
      destruct i as [|i]; cbn in Hq; [lia|]. rewrite !str_app_cons. cbn. rewrite IH; [done|lia].
Qed.

Lemma commonPrefix_spec str1 str2 (p := _commonPrefix str1 str2) :
  startswith p str1 = true ∧ startswith p str2 = true ∧
  ∀ q, startswith q str1 = true → startswith q str2 = true → startswith q p = true.
Proof.
  apply common_loop_spec; [done|]. unfold str_take. by rewrite substring_0.
Qed.

Lemma startswith_chain p q s : startswith p q = true → startswith q s = true → startswith p s = true.
Proof. intros Hp [t ->]%startswith_spec. by apply startswith_trans. Qed.

Lemma foldl_common p ps (r := foldl _commonPrefix p ps) :
  (∀ s, s ∈ p :: ps → startswith r s = true) ∧
  ∀ q, (∀ s, s ∈ p :: ps → startswith q s = true) → startswith q r = true.
Proof.
  subst r. revert p. induction ps as [|s ps IH]; intros p; cbn [foldl].
  - split.
    + intros s ->%list_elem_of_singleton. rewrite <- (app_empty_r p) at 2. apply startswith_app.
    + intros q Hq. apply Hq. by left.
  - destruct (commonPrefix_spec p s) as (H1 & H2 & H3). destruct (IH (_commonPrefix p s)) as [IH1 IH2].
    split.
    + intros t Ht. assert (startswith (foldl _commonPrefix (_commonPrefix p s) ps) (_commonPrefix p s) = true)
        as Hr by (apply IH1; by left).
      apply elem_of_cons in Ht as [->|[->|Ht]%elem_of_cons].
      * by eapply startswith_chain.
      * by eapply startswith_chain.
      * apply IH1. by right.
    + intros q Hq. apply IH2. intros t [->|Ht]%elem_of_cons; [apply H3; apply Hq; set_solver|].
      apply Hq. by do 2 right.
Qed.

Lemma sep_split_nonempty s : sep_split s ≠ [].
Proof. destruct s as [|c s]; [done|]. cbn. destruct (complete_sep c); [done|]. by destruct (sep_split s). Qed.

Lemma sep_split_single s w : sep_split s = [w] → s = w.
Proof.
  revert w. induction s as [|c s IH]; intros w Hw; cbn [sep_split] in Hw; [by injection Hw|].
  pose proof (sep_split_nonempty s). destruct (complete_sep c); [by destruct (sep_split s)|].
  destruct (sep_split s) as [|v vs]; [done|]. injection Hw as <- ->. f_equal. by apply IH.
Qed.

Lemma sep_split_last s : ∃ h, s = h +:+ last_piece s.
Proof.
  unfold last_piece. induction s as [|c s (h & Hh)]; [by exists ""|].
  pose proof (sep_split_nonempty s) as Hne. pose proof (sep_split_single s) as Hsingle.
  cbn [sep_split]. destruct (sep_split s) as [|w ws]; [done|].
  destruct (complete_sep c); [exists (String c h); rewrite str_app_cons; f_equal; exact Hh|].
  destruct ws as [|w' ws].
  - exists "". rewrite (Hsingle w eq_refl). done.
  - exists (String c h). rewrite str_app_cons. f_equal. exact Hh.
Qed.

(** completion: when the piece under completion is not empty and every
    possibility begins with it, the text before the piece is kept and the piece
    becomes the longest text that all possibilities begin with, so the line
    typed is a prefix of the line shown; without a possibility the line stays. *)
Theorem completed_line_extends (line : string) (possibilities : list string)
    (Hp : ∀ s, s ∈ possibilities → startswith (last_piece line) s = true)
    (Hne : last_piece line ≠ "") :
  ∃ head r, line = head +:+ last_piece line ∧ completed_line line possibilities = head +:+ r ∧
    startswith (last_piece line) r = true ∧
    (possibilities = [] → r = last_piece line) ∧
    (∀ s, s ∈ possibilities → startswith r s = true) ∧
    ∀ q, possibilities ≠ [] → (∀ s, s ∈ possibilities → startswith q s = true) → startswith q r = true.
Proof.
  destruct (sep_split_last line) as [head Hh]. exists head.
  destruct possibilities as [|p ps].
  - exists (last_piece line). split_and!; [done|exact Hh| |done|set_solver|done].
    rewrite <- (app_empty_r (last_piece line)) at 2. apply startswith_app.
  - destruct (foldl_common p ps) as [Hall Hlong]. exists (foldl _commonPrefix p ps).
    split_and!; [exact Hh| |by apply Hlong|done|exact Hall|intros q _; apply Hlong].
    unfold completed_line. f_equal. unfold slice_to.
    assert (0 < String.length (last_piece line)) as Hpos by (destruct (last_piece line); [done|cbn; lia]).
    assert (py_clamp (String.length line) (- Z.of_nat (String.length (last_piece line))) =
            String.length head) as ->.
    { apply (f_equal String.length) in Hh. rewrite str_length_app in Hh.
      unfold py_clamp, py_norm. rewrite bool_decide_eq_true_2 by lia. lia. }
    rewrite Hh at 1. apply str_take_app.
Qed.

Lemma completed_line_extends_witness :
  startswith "print a" (completed_line "print ab" ["abs"; "absolute"]) = true ∧
  completed_line "print ab" ["abs"; "absolute"] = "print abs".
Proof.
  destruct (completed_line_extends "print ab" ["abs"; "absolute"]) as (head & r & _ & E & _).
  - intros s [->|[->|[]%elem_of_nil]%elem_of_cons]%elem_of_cons; reflexivity.
  - done.
  - split; vm_compute; reflexivity.
Defined.

(** After a bracket or a blank the piece is empty, and [line[:-0]] is empty:
    the line is replaced by the completion. *)
Lemma completed_loses_line : completed_line "print(" ["abs"; "absolute"] = "abs".
Proof. reflexivity. Qed.

(** ** Lemmas on the history *)
(** going back [k] times, at most as often as there are entries, shows the
    [k]-th entry from the end; once more shows an empty line and starts again. *)
Definition back (ins : list string) (st : string * Z) : string * Z := historyBack ins st.2.

Lemma back_eq ins st : back ins st = _getHistory ins (st.2 - 1).
Proof. done. Qed.

Lemma history_back ins k :
  (0 < k ≤ length ins → ∃ s, ins !! (length ins - k) = Some s ∧
     Nat.iter k (back ins) ("", 0%Z) = (strip_nl s, (- Z.of_nat k)%Z)) ∧
  Nat.iter (S (length ins)) (back ins) ("", 0%Z) = ("", 0%Z).
Proof.
  assert (∀ k, 0 < k ≤ length ins → ∃ s, ins !! (length ins - k) = Some s ∧
     Nat.iter k (back ins) ("", 0%Z) = (strip_nl s, (- Z.of_nat k)%Z)) as Hk.
  { intros j. induction j as [|j IH]; intros Hj; [lia|].
    destruct (lookup_lt_is_Some_2 ins (length ins - S j)) as [s Hs]; [lia|]. exists s. split; [done|].
    rewrite Nat.iter_succ.
    assert ((Nat.iter j (back ins) ("", 0%Z)).2 = (- Z.of_nat j)%Z) as Hlv.
    { destruct j as [|j]; [done|]. destruct IH as (s' & _ & ->); [lia|done]. }
    rewrite back_eq, Hlv. unfold _getHistory.
    unfold py_index, py_norm. rewrite (bool_decide_eq_true_2 (_ < 0)%Z) by lia.
    rewrite bool_decide_eq_true_2 by lia.
    replace (Z.to_nat (- Z.of_nat j - 1 + Z.of_nat (length ins))) with (length ins - S j) by lia.
    rewrite Hs. cbn. f_equal. lia. }
  split; [apply Hk|]. rewrite Nat.iter_succ.
  assert ((Nat.iter (length ins) (back ins) ("", 0%Z)).2 = (- Z.of_nat (length ins))%Z) as Hlv.
  { destruct (decide (length ins = 0)) as [E|E]; [by rewrite E|].
    destruct (Hk (length ins)) as (s & _ & ->); [lia|done]. }
  rewrite back_eq, Hlv. unfold _getHistory.
  unfold py_index, py_norm. rewrite (bool_decide_eq_true_2 (_ < 0)%Z) by lia.
  by rewrite bool_decide_eq_false_2 by lia.
Qed.

(** Down at a new prompt shows the second entry there is. *)
Lemma forward_shows_oldest : historyForward ["" ; "first"; "second"] 0 = ("first", 1%Z).
Proof. reflexivity. Qed.

(** ** Lemmas on colours *)
(** A text that equals the name of a later colour is taken for it: the search
    for the colour finds the text. *)
Lemma text_taken_for_colour :
  let '(_, l) := segments_of ("" +:+ String "027" "[0m0;31" +:+ String "027" "[0;31mred") in
  l = [("0", "0;31"); ("0;31", "red")] ∧
  index_of "0;31" (delete 0 (l ≫= λ p, [p.1; p.2])) = Ok 0.
Proof. vm_compute. done. Qed.

