(* ===== verification/Transcript.v ===== *)
(** * What the console shows

    [Console] has the methods of the console; here: the conditions under which
    nothing that it has shown is ever changed, and a line that is entered is run.  The methods are
    computations in a state and error monad; [spec] states what one does to the
    text buffer when it returns and when it raises.  Module [ListBuffer] is a
    text buffer with the laws of [TextBufferOk]. *)

From S2P Require Import Prelude PyStr Console.
From Stdlib Require Import Ascii.

Local Open Scope string_scope.
Local Open Scope list_scope.
Local Open Scope nat_scope.

(** ** What is printed stays *)
Section Transcript.
Context {B T S : Type} `{TextBufferOk B T} `{IPShell S}.

#[local] Existing Instance M_ret.
#[local] Existing Instance M_bind.

(** The character before [n] cannot be edited. *)
Definition sealed (b : B) (n : nat) : Prop := n = 0 ∨ notouch b (n - 1) = true.
Definition start_of (b : B) : nat := offset b LineStart.

(** The text above the line typed. *)
Definition transcript (b : B) : list ascii := take (start_of b) (content b).

(** From a buffer with its prompt sealed to another, with more above it. *)
Definition grows (b b' : B) : Prop :=
  sealed b (start_of b) →
  sealed b' (start_of b') ∧ transcript b `prefix_of` transcript b'.

Lemma above_refl b : grows b b.
Proof. intros Hs. by split. Qed.
Lemma above_trans b1 b2 b3 : grows b1 b2 → grows b2 b3 → grows b1 b3.
Proof.
  intros H12 H23 Hs. destruct (H12 Hs) as [Hs2 Hp2]. destruct (H23 Hs2) as [Hs3 Hp3].
  split; [done|]. by etrans.
Qed.

(** What is above the line is untouched. *)
Lemma grows_same b b' :
  start_of b' = start_of b → start_of b ≤ length (content b') →
  take (start_of b) (content b') = take (start_of b) (content b) →
  (∀ k, k < start_of b → notouch b k = true → notouch b' k = true) → grows b b'.
Proof.
  intros Hst Hle Ht Hn Hs. unfold transcript. rewrite Hst, Ht. split; [|done].
  destruct Hs as [Hs|Hs]; [by left|]. destruct (decide (start_of b = 0)); [by left|].
  right. apply Hn; [lia|done].
Qed.

Lemma start_in b : start_of b ≤ length (content b).
Proof. apply offset_in. Qed.

(** *** Text at the end *)
Definition appends (s : list ascii) (b b' : B) : Prop :=
  content b' = content b ++ s ∧ (∀ m, moves_on m = false → offset b' m = offset b m) ∧
  (∀ m, offset b m ≤ offset b' m) ∧
  ∀ k, k < length (content b) → notouch b' k = notouch b k.

Lemma inserted_appends s b b' : inserted s b b' → appends (chars s) b b'.
Proof.
  intros (Hc & Ho & Hn). split_and!; [done| | |done]; intros m.
  - intros Hm. rewrite Ho, decide_False; [done|]. intros [_ E]. congruence.
  - rewrite Ho. case_decide; [|done]. rewrite Hc, length_app.
    pose proof (offset_in b m). lia.
Qed.

Lemma appends_refl b : appends [] b b.
Proof. split_and!; [by rewrite app_nil_r|done|lia|done]. Qed.

Lemma appends_trans s1 s2 b1 b2 b3 : appends s1 b1 b2 → appends s2 b2 b3 → appends (s1 ++ s2) b1 b3.
Proof.
  intros (Hc & Ho & Hm & Hn) (Hc' & Ho' & Hm' & Hn'). split_and!.
  - by rewrite Hc', Hc, (assoc_L (++)).
  - intros m Hf. by rewrite Ho', Ho.
  - intros m. etrans; [apply Hm|apply Hm'].
  - intros k Hk. rewrite Hn', Hn; [done|done|]. rewrite Hc, length_app. lia.
Qed.

(** The same, seen from the line typed. *)
Definition extends (s : list ascii) (b b' : B) : Prop :=
  content b' = content b ++ s ∧ start_of b' = start_of b ∧
  ∀ k, k < length (content b) → notouch b k = true → notouch b' k = true.

Lemma appends_extends s b b' : appends s b b' → extends s b b'.
Proof.
  intros (Hc & Ho & _ & Hn). split_and!; [done|by apply Ho|]. intros k Hk Hk'. by rewrite Hn.
Qed.

Lemma extends_trans s1 s2 b1 b2 b3 : extends s1 b1 b2 → extends s2 b2 b3 → extends (s1 ++ s2) b1 b3.
Proof.
  intros (Hc & Ho & Hn) (Hc' & Ho' & Hn'). split_and!.
  - by rewrite Hc', Hc, (assoc_L (++)).
  - by rewrite Ho', Ho.
  - intros k Hk Hk'. apply Hn'; [rewrite Hc, length_app; lia|auto].
Qed.

Lemma extends_grows s b b' : extends s b b' → grows b b'.
Proof.
  intros (Hc & Ho & Hn). pose proof (start_in b). apply grows_same.
  - done.
  - rewrite Hc, length_app. lia.
  - rewrite Hc. by rewrite take_app_le.
  - intros k Hk Hk'. apply Hn; [lia|done].
Qed.

Lemma move_other_extends m n b : m ≠ LineStart → n ≤ length (content b) → extends [] b (move_mark m n b).
Proof.
  intros Hm Hn. destruct (move_mark_spec m n b Hn) as (Hc & Ho & Hk).
  split_and!; [by rewrite app_nil_r|by unfold start_of; rewrite Ho, decide_False|].
  intros k Hk1 Hk2. by rewrite Hk.
Qed.

Lemma apply_notouch_extends i j b : extends [] b (apply_notouch i j b).
Proof.
  destruct (apply_notouch_spec i j b) as (Hc & Ho & Hk).
  split_and!; [by rewrite app_nil_r|apply Ho|]. intros k Hk1 Hk2. by rewrite Hk, Hk2.
Qed.

Lemma insert_tagged_appends t s (c : @console B S) :
  ∃ s', appends s' (buf c) (buf (insert_tagged t s c).1).
Proof.
  unfold insert_tagged. pose proof (insert_with_tag_spec t s (buf c)) as Hi.
  destruct (insert_with_tag t s (buf c)) as [b' [u|e]].
  - eexists. by apply inserted_appends.
  - destruct Hi as [->|Hi]; eexists; [apply appends_refl|by apply inserted_appends].
Qed.

Lemma write_segments_appends tags segs (c : @console B S) :
  ∃ s', appends s' (buf c) (buf (write_segments tags segs c).1).
Proof.
  revert segs c. induction tags as [|tag tags IH]; intros segs c; [eexists; apply appends_refl|].
  cbn [write_segments]. unfold mbind, M_bind, lift.
  destruct (index_of tag segs) as [i|]; [|eexists; apply appends_refl].
  destruct (segs !! Nat.succ i) as [s|]; cbn [of_option]; [|eexists; apply appends_refl].
  destruct (insert_tagged_appends tag s c) as [s1 Ht1].
  destruct (insert_tagged tag s c) as [c1 [u|e]]; [|by exists s1].
  destruct (IH (delete i segs) c1) as [s2 Ht2]. eexists. by eapply appends_trans.
Qed.

(** *** Specifications: what an operation does to the buffer, and what holds
    when it returns *)
Definition spec {A} (P : B → Prop) (m : @M B S A) (Q : B → Prop) : Prop :=
  ∀ c, P (buf c) → grows (buf c) (buf (m c).1) ∧ ∀ a, (m c).2 = Ok a → Q (buf (m c).1).

Lemma spec_bind {A A'} P Q R (m : @M B S A) (f : A → @M B S A') :
  spec P m Q → (∀ a, spec Q (f a) R) → spec P (m ≫= f) R.
Proof.
  intros Hm Hf c Hc. unfold mbind, M_bind. destruct (Hm c Hc) as [Hg HQ].
  destruct (m c) as [c1 [a|e]]; cbn [fst snd] in *; [|by split].
  destruct (Hf a c1 (HQ a eq_refl)) as [Hg' HR]. split; [by eapply above_trans|done].
Qed.

Lemma spec_weaken {A} (P P' Q Q' : B → Prop) (m : @M B S A) :
  (∀ b, P' b → P b) → (∀ b, Q b → Q' b) → spec P m Q → spec P' m Q'.
Proof. intros HP HQ Hm c Hc. destruct (Hm c (HP _ Hc)) as [Hg HQc]. split; [done|]. eauto. Qed.

(** Operations that leave the buffer alone. *)
Definition pure_op {A} (m : @M B S A) : Prop := ∀ c, buf (m c).1 = buf c.

Lemma spec_pure {A} P (m : @M B S A) : pure_op m → spec P m P.
Proof. intros Hm c Hc. split; [rewrite Hm; apply above_refl|]. intros a _. by rewrite Hm. Qed.

Lemma pure_bind {A A'} (m : @M B S A) (f : A → @M B S A') :
  pure_op m → (∀ a, pure_op (f a)) → pure_op (m ≫= f).
Proof.
  intros Hm Hf c. unfold mbind, M_bind. pose proof (Hm c) as E.
  destruct (m c) as [c1 [a|e]]; cbn [fst] in *; [by rewrite Hf|done].
Qed.

Lemma spec_on_buf (P Q : B → Prop) f : (∀ b, P b → grows b (f b) ∧ Q (f b)) → spec P (on_buf f) Q.
Proof. intros Hf c Hc. destruct (Hf _ Hc). by split. Qed.

Definition any : B → Prop := λ _, True.
(** The last character cannot be edited. *)
Definition end_sealed (b : B) : Prop := sealed b (buffer_end b).


(** [write]: what it appends is above the line only when the mark moves, and
    cannot be edited unless it is meant to be. *)
Lemma write_extends text editable (c : @console B S) (m := write text editable c) :
  ∃ s, extends s (buf c) (buf m.1) ∧
    (∀ k, moves_on k = true → offset (buf c) k ≤ offset (buf m.1) k) ∧
    (m.2 = Ok tt → chars (segments_of text).1 `prefix_of` s ∧
       (editable = false → ∀ k, buffer_end (buf c) ≤ k < buffer_end (buf m.1) →
          notouch (buf m.1) k = true)).
Proof.
  subst m. unfold write. destruct (segments_of text) as [seg l].
  generalize (l ≫= λ p : string * string, [p.1; p.2]) as segs. generalize l.*1 as tags.
  intros tags segs.
  unfold mbind, M_bind, on_buf, set_buf. cbn [buf fst].
  destruct (move_mark_spec StartMark (buffer_end (buf c)) (buf c) (Nat.le_refl _)) as (Hc0 & Ho0 & Hn0).
  assert (extends [] (buf c) (move_mark StartMark (buffer_end (buf c)) (buf c))) as He0
    by (apply move_other_extends; [done|apply Nat.le_refl]).
  set (b0 := move_mark _ _ _) in *.
  pose proof (inserted_appends _ _ _ (insert_spec seg b0)) as Ha1.
  set (c1 := MkConsole (insert seg b0) _ _ _ _ _ _ _).
  destruct (write_segments_appends tags segs c1) as [s2 Ha2].
  destruct (write_segments tags segs c1) as [c2 r]. cbn [fst] in Ha2.
  change (buf c1) with (insert seg b0) in Ha2.
  pose proof (appends_trans _ _ _ _ _ Ha1 Ha2) as Ha3. clear Ha1 Ha2.
  pose proof (extends_trans _ _ _ _ _ He0 (appends_extends _ _ _ Ha3)) as He3.
  assert (∀ k, moves_on k = true → offset (buf c) k ≤ offset (buf c2) k) as Hm3.
  { intros k Hk. destruct Ha3 as (_ & _ & Hm & _). etrans; [|apply Hm].
    rewrite Ho0, decide_False; [done|]. by intros ->. }
  exists (chars seg ++ s2).
  destruct r as [[]|e]; cbn [fst snd buf]; [|split_and!; [exact He3|exact Hm3|discriminate]].
  destruct editable; cbn [mret M_ret fst snd buf].
  { split_and!; [exact He3|exact Hm3|]. intros _. split; [by apply prefix_app_r|done]. }
  pose proof (extends_trans _ _ _ _ _ He3
    (apply_notouch_extends (offset (buf c2) StartMark) (buffer_end (buf c2)) (buf c2))) as He4.
  rewrite app_nil_r in He4. split_and!; [exact He4| |].
  { intros k Hk. destruct (apply_notouch_spec (offset (buf c2) StartMark) (buffer_end (buf c2)) (buf c2))
      as (_ & -> & _). by apply Hm3. }
  intros _. split; [by apply prefix_app_r|].
  intros _ k Hk. destruct (apply_notouch_spec (offset (buf c2) StartMark) (buffer_end (buf c2)) (buf c2))
    as (Hc5 & _ & Hn5). unfold buffer_end at 2 in Hk. rewrite Hc5 in Hk.
  change (length (content (buf c2))) with (buffer_end (buf c2)) in Hk, Hn5. rewrite Hn5 by lia.
  destruct Ha3 as (_ & Ho4 & _).
  rewrite bool_decide_eq_true_2, orb_true_r; [done|].
  rewrite Ho4, Ho0, decide_True by done. done.
Qed.

Lemma write_grows P text editable : spec P (write text editable : @M B S unit) any.
Proof.
  intros c _. split; [|done]. destruct (write_extends text editable c) as (s & He & _).
  by eapply extends_grows.
Qed.

Lemma write_sealed text (P : B → Prop) :
  (∀ b, P b → end_sealed b ∨ (segments_of text).1 ≠ "") →
  spec P (write text false : @M B S unit) end_sealed.
Proof.
  intros HP c Hc. specialize (HP _ Hc).
  destruct (write_extends text false c) as (s & He & _ & Hok).
  split; [by eapply extends_grows|]. intros [] Hr. destruct (Hok Hr) as [Hpre Hall].
  specialize (Hall eq_refl). destruct He as (Hcont & _ & Hn). unfold end_sealed, sealed.
  unfold buffer_end in *. rewrite Hcont, length_app in *.
  destruct (decide (length s = 0)) as [Hz|Hz]; [|right; apply Hall; lia].
  rewrite Hz, Nat.add_0_r in *. destruct HP as [[Hs|Hs]|Hs].
  - by left.
  - destruct (decide (length (content (buf c)) = 0)); [by left|right]. apply Hn; [lia|done].
  - destruct (segments_of text).1; [done|]. apply prefix_length in Hpre. cbn in Hpre. lia.
Qed.
End Transcript.

(** ** The loop of [write] always finds its segments *)
Lemma index_of_spec x l1 l2 : ∃ i, index_of x (l1 ++ x :: l2) = Ok i ∧ i ≤ length l1 ∧
  (l1 ++ x :: l2) !! i = Some x.
Proof.
  induction l1 as [|y l1 IH]; cbn [app index_of].
  - rewrite decide_True by done. exists 0. split_and!; [done|lia|done].
  - destruct (decide (y = x)) as [->|Hy]; [exists 0; split_and!; [done|cbn; lia|done]|].
    destruct IH as (i & -> & Hi & Hl). exists (S i). split_and!; [done|cbn; lia|done].
Qed.

Lemma segments_nl text : (segments_of (nl +:+ text)).1 ≠ "".
Proof.
  unfold segments_of. change (nl +:+ text) with (String newline text). cbn [String.length color_split].
  assert (match_escape (String newline text) = None) as -> by by destruct text.
  by destruct (color_split _ _).
Qed.

Section Events.
Context {B T S : Type} `{TextBufferOk B T} `{IPShell S}.
Implicit Types b : B.

#[local] Existing Instance M_ret.
#[local] Existing Instance M_bind.

(** *** Operations that return *)
Definition total {A} (m : @M B S A) : Prop := ∀ c, ∃ a, (m c).2 = Ok a.

Lemma total_bind {A A'} (m : @M B S A) (f : A → @M B S A') :
  total m → (∀ a, total (f a)) → total (m ≫= f).
Proof.
  intros Hm Hf c. unfold mbind, M_bind. destruct (Hm c) as [a Ha].
  destruct (m c) as [c1 r]. cbn [snd] in Ha. subst r. apply Hf.
Qed.
Lemma total_ret {A} (a : A) : total (mret a). Proof. intros c. by exists a. Qed.
Lemma total_on_buf f : total (on_buf f). Proof. intros c. by exists tt. Qed.
Lemma total_gets {A} (f : console → A) : total (gets f). Proof. intros c. by eexists. Qed.
Lemma total_modify f : total (modify f). Proof. intros c. by exists tt. Qed.

Lemma total_for_each {A} (f : A → @M B S unit) l : (∀ a, total (f a)) → total (for_each f l).
Proof.
  intros Hf. induction l as [|a l IH]; [apply total_ret|]. cbn [for_each].
  apply total_bind; auto.
Qed.

Lemma write_segments_total pre (l : list (string * string)) :
  Forall known_tag l.*1 →
  total (write_segments l.*1 (pre ++ (l ≫= λ p, [p.1; p.2])) : @M B S unit).
Proof.
  revert pre. induction l as [|[tag s] l IH]; intros pre Hk c; [by exists tt|].
  apply Forall_cons in Hk as [Ht Hk].
  set (rest := l ≫= λ p, [p.1; p.2]) in *.
  change (∃ a, (write_segments (tag :: l.*1) (pre ++ tag :: s :: rest) c).2 = Ok a).
  cbn [write_segments].
  destruct (index_of_spec tag pre (s :: rest)) as (i & Ei & Hi & Hl).
  destruct (lookup_lt_is_Some_2 (pre ++ tag :: s :: rest) (Nat.succ i)) as [s' Hs'];
    [rewrite length_app; cbn [length]; unfold Nat.succ; lia|].
  unfold mbind, M_bind, lift. rewrite Ei, Hs'. cbn [of_option].
  unfold insert_tagged. pose proof (insert_known_tag tag s' (buf c) Ht) as Hins.
  destruct (insert_with_tag tag s' (buf c)) as [b' r]. cbn [snd] in Hins. subst r.
  destruct (decide (i = length pre)) as [->|Hne].
  - assert (delete (length pre) (pre ++ tag :: s :: rest) = (pre ++ [s]) ++ rest) as ->.
    { rewrite delete_middle. by rewrite <- (assoc_L (++)). }
    by apply IH.
  - assert (delete i (pre ++ tag :: s :: rest) = (delete i pre ++ [tag; s]) ++ rest) as ->.
    { rewrite <- (assoc_L (++)). cbn [app]. rewrite !delete_take_drop, take_app_le by lia.
      rewrite drop_app_le by lia. by rewrite (assoc_L (++)). }
    by apply IH.
Qed.

Lemma write_total text editable :
  colours_known text → total (write text editable : @M B S unit).
Proof.
  unfold write, colours_known. destruct (segments_of text) as [seg l]. intros Hk.
  apply total_bind; [apply total_on_buf|intros _]. apply total_bind; [apply total_on_buf|intros _].
  apply total_bind; [by apply (write_segments_total [])|intros _].
  destruct editable; [apply total_ret|apply total_on_buf].
Qed.

Lemma changeLine_total t : colours_known t → total (changeLine t : @M B S unit).
Proof. intros Ht. apply total_bind; [apply total_on_buf|intros _]. by apply write_total. Qed.

(** *** Operations that leave the cursor in the line *)
(** The line starts where it did, and the cursor and the selection are in it if
    they were. *)
Definition steady (b b' : B) : Prop :=
  start_of b' = start_of b ∧
  ∀ m, moves_on m = true → start_of b ≤ offset b m → start_of b ≤ offset b' m.

Lemma steady_refl b : steady b b.
Proof. by split. Qed.
Lemma steady_trans b1 b2 b3 : steady b1 b2 → steady b2 b3 → steady b1 b3.
Proof. intros [E Ha] [E' Hb]. split; [congruence|]. rewrite E in Hb. auto. Qed.

Definition steady_op {A} (m : @M B S A) : Prop := ∀ c, steady (buf c) (buf (m c).1).
(** It is so when the operation raises. *)
Definition fails_steady {A} (m : @M B S A) : Prop :=
  ∀ c, is_ok (m c).2 = true ∨ steady (buf c) (buf (m c).1).

Lemma steady_fails {A} (m : @M B S A) : steady_op m → fails_steady m.
Proof. by right. Qed.
Lemma total_fails {A} (m : @M B S A) : total m → fails_steady m.
Proof. intros Hm c. left. by destruct (Hm c) as [a ->]. Qed.
Lemma pure_steady {A} (m : @M B S A) : pure_op m → steady_op m.
Proof. intros Hm c. rewrite Hm. apply steady_refl. Qed.

Lemma steady_bind {A A'} (m : @M B S A) (f : A → @M B S A') :
  steady_op m → (∀ a, steady_op (f a)) → steady_op (m ≫= f).
Proof.
  intros Hm Hf c. unfold mbind, M_bind. pose proof (Hm c) as E.
  destruct (m c) as [c1 [a|e]]; cbn [fst] in *; [|done]. eapply steady_trans; [done|apply Hf].
Qed.

Lemma steady_bind_fails {A A'} (m : @M B S A) (f : A → @M B S A') :
  steady_op m → (∀ a, fails_steady (f a)) → fails_steady (m ≫= f).
Proof.
  intros Hm Hf c. unfold mbind, M_bind. pose proof (Hm c) as E.
  destruct (m c) as [c1 [a|e]]; cbn [fst] in *; [|by right].
  destruct (Hf a c1); [by left|right]. by eapply steady_trans.
Qed.

Lemma fails_bind {A A'} (m : @M B S A) (f : A → @M B S A') :
  fails_steady m → (∀ a, total (f a)) → fails_steady (m ≫= f).
Proof.
  intros Hm Hf c. unfold mbind, M_bind. destruct (Hm c) as [E|E].
  - destruct (m c) as [c1 [a|e]]; [|done]. destruct (Hf a c1) as [a' ->]. by left.
  - destruct (m c) as [c1 [a|e]]; cbn [fst] in *; [|by right].
    left. by destruct (Hf a c1) as [a' ->].
Qed.

Lemma write_steady text editable : steady_op (write text editable : @M B S unit).
Proof.
  intros c. destruct (write_extends text editable c) as (s & (_ & Hs & _) & Hm & _).
  split; [done|]. intros m Hmv Hle. etrans; [exact Hle|]. by apply Hm.
Qed.

Lemma notouch_steady i j : steady_op (on_buf (λ b, apply_notouch (i b) (j b) b) : @M B S unit).
Proof.
  intros c. cbn. destruct (apply_notouch_spec (i (buf c)) (j (buf c)) (buf c)) as (_ & Ho & _).
  split; [apply Ho|]. intros m _. by rewrite Ho.
Qed.

Lemma gets_steady {A} (f : console → A) : steady_op (gets f).
Proof. by apply pure_steady. Qed.

Lemma for_each_steady {A} (f : A → @M B S unit) l :
  (∀ a, steady_op (f a)) → steady_op (for_each f l).
Proof.
  intros Hf. induction l as [|a l IH]; [by apply pure_steady|]. by apply steady_bind.
Qed.

Lemma changeLine_steady t : steady_op (changeLine t : @M B S unit).
Proof.
  apply steady_bind; [|intros _; apply write_steady].
  intros c. cbn. pose proof (offset_in (buf c) LineStart) as Hin.
  destruct (delete_range_spec (start_of (buf c)) (line_end (buf c)) (buf c)) as (_ & Ho & Hm & _).
  { by apply line_end_spec. }
  split; [by apply Ho|]. intros m _. apply Hm.
Qed.

Lemma showPrompt_fails p : fails_steady (showPrompt p : @M B S unit).
Proof.
  apply steady_bind_fails; [apply write_steady|intros _]. apply total_fails, total_on_buf.
Qed.

Lemma showReturned_fails t : fails_steady (showReturned t : @M B S unit).
Proof.
  unfold showReturned.
  apply steady_bind_fails; [apply notouch_steady|intros _].
  apply steady_bind_fails; [apply write_steady|intros _].
  apply steady_bind_fails.
  { destruct (decide (t = "")); [by apply pure_steady|apply write_steady]. }
  intros _. apply steady_bind_fails; [apply gets_steady|intros p].
  apply fails_bind; [apply showPrompt_fails|intros _].
  apply total_bind; [apply total_on_buf|intros _]. apply total_on_buf.
Qed.

(** *** What the methods do to the buffer *)
(** The prompt has just been shown. *)
Definition at_prompt (b : B) : Prop := end_sealed b ∧ start_of b = buffer_end b.

Lemma move_start_spec : spec end_sealed (on_buf (λ b, move_mark LineStart (buffer_end b) b) : @M B S unit) at_prompt.
Proof.
  apply spec_on_buf. intros b Hb.
  destruct (move_mark_spec LineStart (buffer_end b) b (Nat.le_refl _)) as (Hc & Ho & Hn).
  set (b' := move_mark _ _ _) in *.
  assert (buffer_end b' = buffer_end b) as He by (unfold buffer_end; by rewrite Hc).
  assert (start_of b' = buffer_end b) as Hs by (unfold start_of; by rewrite Ho, decide_True).
  assert (end_sealed b') as Hb'.
  { unfold end_sealed. rewrite He. destruct Hb as [Hb|Hb]; [by left|].
    destruct (decide (buffer_end b = 0)); [by left|right].
    rewrite Hn; [done|]. unfold buffer_end in *. lia. }
  split; [|by split; [|congruence]]. intros _. split.
  - unfold sealed. rewrite Hs, <- He. exact Hb'.
  - unfold transcript. rewrite Hs, Hc. unfold buffer_end. rewrite firstn_all. apply prefix_take.
Qed.

Lemma showPrompt_spec p : spec end_sealed (showPrompt p : @M B S unit) at_prompt.
Proof.
  unfold showPrompt. eapply spec_bind; [apply write_sealed; by left|]. intros _. apply move_start_spec.
Qed.

Lemma write_line_spec text : spec any (write (nl +:+ text) false : @M B S unit) end_sealed.
Proof. apply write_sealed. intros b _. right. apply segments_nl. Qed.

Lemma line_end_in b : start_of b ≤ line_end b ≤ length (content b).
Proof. apply line_end_spec, offset_in. Qed.

Lemma changeLine_spec P text : spec P (changeLine text : @M B S unit) any.
Proof.
  unfold changeLine. eapply spec_bind; [|intros _; apply (write_grows any)].
  apply spec_on_buf. intros b _. split; [|done]. pose proof (line_end_in b) as Hin.
  change (offset b LineStart) with (start_of b).
  destruct (delete_range_spec (start_of b) (line_end b) b Hin) as (Hc & Ho & _ & Hn).
  apply grows_same.
  - by apply Ho.
  - rewrite Hc, length_app, length_take. lia.
  - rewrite Hc, take_app_le; [|rewrite length_take; lia]. rewrite take_take.
    by rewrite Nat.min_id.
  - intros k Hk Hk'. by rewrite Hn.
Qed.

Lemma notouch_spec P i j : spec P (on_buf (λ b, apply_notouch (i b) (j b) b) : @M B S unit) any.
Proof. apply spec_on_buf. intros b _. split; [|done]. eapply extends_grows, apply_notouch_extends. Qed.

Lemma move_cursor_grows m n b : m ≠ LineStart → n ≤ length (content b) → grows b (move_mark m n b).
Proof. intros Hm Hn. by eapply extends_grows, move_other_extends. Qed.

Lemma place_cursor_grows n b : n ≤ length (content b) → grows b (place_cursor n b).
Proof.
  intros Hn. unfold place_cursor. apply above_trans with (move_mark InsertMark n b); [by apply move_cursor_grows|].
  apply move_cursor_grows; [done|]. destruct (move_mark_spec InsertMark n b Hn) as (-> & _). done.
Qed.

Lemma showReturned_spec P text : spec P (showReturned text : @M B S unit) any.
Proof.
  unfold showReturned. eapply spec_bind; [apply notouch_spec|intros _].
  eapply spec_bind; [apply write_line_spec|intros _].
  eapply spec_bind with (Q := end_sealed).
  { destruct (decide (text = "")); [by apply spec_pure|]. apply write_sealed. by left. }
  intros _. eapply spec_bind; [by apply spec_pure|intros p].
  eapply spec_bind; [apply showPrompt_spec|intros _].
  eapply spec_bind; [eapply spec_weaken; [|done|apply move_start_spec]; by intros b []|intros _].
  apply spec_on_buf. intros b _. split; [|done]. by apply place_cursor_grows.
Qed.

(** *** Running a line does not touch the buffer *)
Lemma execute_pure : pure_op (execute : @M B S unit).
Proof.
  assert (pure_op (ask_line : @M B S reading)) as Hread.
  { unfold ask_line. apply pure_bind.
    - unfold raw_input. apply pure_bind; [done|]. intros [[]|]; [by apply pure_bind|by apply pure_bind|done].
    - intros ans. apply pure_bind; [done|intros more]. apply pure_bind; [done|intros s].
      destruct (ip_raw_input more ans s) as [[s' o] r]. by apply pure_bind. }
  assert (∀ l, pure_op (push_line l : @M B S unit)) as Hpush.
  { intros l. unfold push_line. apply pure_bind; [done|intros s].
    destruct (ip_push l s) as [[s' o] r]. apply pure_bind; [done|intros _].
    apply pure_bind; [done|intros more]. apply pure_bind; [done|intros _].
    apply pure_bind; [done|intros s2]. by destruct (_ && _). }
  unfold execute. do 2 (apply pure_bind; [done|intros _]). apply pure_bind; [done|intros r].
  apply pure_bind.
  - destruct r as [l| |].
    + by apply pure_bind.
    + by repeat (apply pure_bind; [done|intros ?]).
    + by apply pure_bind.
  - intros _. apply pure_bind; [intros c; cbn; by destruct (iter_more c)|intros _].
    apply pure_bind; [|done]. intros c. cbn. by destruct (_ && _).
Qed.

(** *** Keys *)
(** The cursor and the selection are in the line typed. *)
Definition cursor_after (b : B) : Prop :=
  start_of b ≤ offset b InsertMark ∧ start_of b ≤ offset b SelectionBound.

Lemma place_cursor_offsets n b : n ≤ length (content b) →
  start_of (place_cursor n b) = start_of b ∧
  offset (place_cursor n b) InsertMark = n ∧ offset (place_cursor n b) SelectionBound = n.
Proof.
  intros Hn. unfold place_cursor, start_of.
  destruct (move_mark_spec InsertMark n b Hn) as (Hc & Ho & _).
  destruct (move_mark_spec SelectionBound n (move_mark InsertMark n b)) as (_ & Ho' & _);
    [by rewrite Hc|]. by rewrite !Ho', !Ho.
Qed.

Lemma move_offsets m n b : n ≤ length (content b) → m ≠ LineStart →
  start_of (move_mark m n b) = start_of b ∧ offset (move_mark m n b) m = n ∧
  ∀ m', m' ≠ m → offset (move_mark m n b) m' = offset b m'.
Proof.
  intros Hn Hm. destruct (move_mark_spec m n b Hn) as (_ & Ho & _). unfold start_of.
  rewrite !Ho, decide_False, decide_True by done. split_and!; [done|done|].
  intros m' Hm'. by rewrite Ho, decide_False.
Qed.

Lemma onKeypress_spec : spec any (_onKeypress true : @M B S unit) cursor_after.
Proof.
  unfold _onKeypress. cbn [negb]. apply spec_on_buf. intros b _. pose proof (start_in b) as Hin.
  change (offset b LineStart) with (start_of b). unfold cursor_after.
  destruct (decide (start_of b ≤ offset b InsertMark ∧ start_of b ≤ offset b SelectionBound)) as [Hd|Hd].
  { split; [apply above_refl|done]. }
  destruct (decide (offset b InsertMark < start_of b ∧ offset b SelectionBound < start_of b)) as [Hd2|Hd2].
  { split; [by apply place_cursor_grows|].
    destruct (place_cursor_offsets (start_of b) b Hin) as (-> & -> & ->). lia. }
  destruct (decide (offset b InsertMark < offset b SelectionBound)) as [Hd3|Hd3].
  { split; [by apply move_cursor_grows|].
    destruct (move_offsets InsertMark (start_of b) b Hin ltac:(done)) as (-> & -> & Ho).
    rewrite Ho by done. lia. }
  rewrite decide_True by lia. split; [by apply move_cursor_grows|].
  destruct (move_offsets SelectionBound (start_of b) b Hin ltac:(done)) as (-> & -> & Ho).
  rewrite Ho by done. lia.
Qed.

(** A key that is left to Gtk, or whose handler raises, has left the cursor in
    the line; what is above the line only grows. *)
Definition key_ok_in (m : @M B S bool) (c : @console B S) : Prop :=
  grows (buf c) (buf (m c).1) ∧ ((m c).2 = Ok true ∨ steady (buf c) (buf (m c).1)).
Definition key_ok (m : @M B S bool) : Prop := ∀ c, key_ok_in m c.

Lemma key_ok_true {A} (m : @M B S A) : spec any m any → fails_steady m → key_ok (_ ← m; mret true).
Proof.
  intros Hs Hf c. unfold key_ok_in, mbind, M_bind. destruct (Hs c I) as [Hg _].
  destruct (Hf c) as [Hok|Hst]; destruct (m c) as [c' [a|e]]; cbn [fst snd] in *; try done.
  - by split; [|left].
  - by split; [|left].
  - by split; [|right].
Qed.

Lemma processLine_ok : key_ok (_ ← _processLine; mret true).
Proof.
  apply key_ok_true; unfold _processLine.
  - eapply spec_bind; [apply spec_pure, execute_pure|intros _].
    eapply spec_bind; [by apply spec_pure|intros rv].
    eapply spec_bind; [apply showReturned_spec|intros _]. by apply spec_pure.
  - apply steady_bind_fails; [apply pure_steady, execute_pure|intros _].
    apply steady_bind_fails; [apply gets_steady|intros rv].
    apply fails_bind; [apply showReturned_fails|intros _; apply total_modify].
Qed.

Lemma history_ok f : key_ok (_ ← history f; mret true).
Proof.
  apply key_ok_true; unfold history.
  - eapply spec_bind; [by apply spec_pure|intros c].
    destruct (f _ _) as [line level]. eapply spec_bind; [by apply spec_pure|intros _].
    apply changeLine_spec.
  - apply steady_fails, steady_bind; [apply gets_steady|intros c]. destruct (f _ _) as [line level].
    apply steady_bind; [by apply pure_steady|intros _; apply changeLine_steady].
Qed.

Lemma for_each_spec {A} P (f : A → @M B S unit) l :
  (∀ a, spec P (f a) P) → spec P (for_each f l) P.
Proof.
  intros Hf. induction l as [|a l IH]; cbn [for_each]; [by apply spec_pure|].
  eapply spec_bind; [apply Hf|by intros].
Qed.


(** What Tab puts in the place of the line. *)
Definition redrawn (c : @console B S) : string :=
  let line := current_line (buf c) in
  let new := completed_line line (ip_complete (last_piece line) (shell c)) in
  if decide (new = "") then line else new.

(** The possibilities are shown above a new line; the line is drawn last. *)
Definition list_possibilities (poss : list string) : @M B S unit :=
  _ ← write nl false;
  _ ← for_each (λ symbol, write (symbol +:+ nl) false) poss;
  p ← gets prompt;
  showPrompt p.

Lemma on_tab_eq c :
  on_tab c =
    let line := current_line (buf c) in
    let poss := ip_complete (last_piece line) (shell c) in
    if decide (strip line = "") then (c, Ok false)
    else if decide (1 < length poss)
      then (_ ← list_possibilities poss; _ ← changeLine (redrawn c); mret true) c
    else if decide (completed_line line poss = "") then (c, Raise UnboundLocalError)
    else (_ ← changeLine (redrawn c); mret true) c.
Proof.
  unfold on_tab, list_possibilities, redrawn, complete, getCurrentLine, gets, lift, mbind, M_bind,
    mret, M_ret. cbn [fst snd].
  destruct (decide (strip _ = "")); [done|]. destruct (decide (1 < _)).
  - destruct (write nl false c) as [c1 [[]|]]; [|done].
    destruct (for_each _ _ c1) as [c2 [[]|]]; [|done].
    destruct (showPrompt _ c2) as [c3 [[]|]]; [|done].
    by destruct (decide (completed_line _ _ = "")).
  - by destruct (decide (completed_line _ _ = "")).
Qed.

Lemma list_possibilities_spec poss : spec any (list_possibilities poss) any.
Proof.
  unfold list_possibilities. eapply spec_bind; [apply (write_line_spec "")|intros _].
  eapply spec_bind; [apply for_each_spec; intros a; apply write_sealed; by left|intros _].
  eapply spec_bind; [by apply spec_pure|intros p].
  eapply spec_weaken; [done|by intros b _|apply showPrompt_spec].
Qed.

Lemma list_possibilities_fails poss : fails_steady (list_possibilities poss).
Proof.
  apply steady_bind_fails; [apply write_steady|intros _].
  apply steady_bind_fails; [apply for_each_steady; intros; apply write_steady|intros _].
  apply steady_bind_fails; [apply gets_steady|intros p; apply showPrompt_fails].
Qed.

Lemma on_tab_ok c : colours_known (redrawn c) → key_ok_in on_tab c.
Proof.
  intros Hk. unfold key_ok_in. rewrite on_tab_eq. cbn zeta.
  destruct (decide (strip _ = "")).
  { split; [apply above_refl|right; apply steady_refl]. }
  set (poss := ip_complete _ _). set (t := redrawn c) in *.
  destruct (decide (1 < length poss)).
  - assert (∀ c, (list_possibilities poss ≫= λ _, changeLine t ≫= λ _, mret true) c =
      (_ ← (_ ← list_possibilities poss; changeLine t); mret true) c) as ->.
    { intros c'. unfold mbind, M_bind. by destruct (list_possibilities poss c') as [? []]. }
    apply key_ok_true.
    + eapply spec_bind; [apply list_possibilities_spec|intros _; apply changeLine_spec].
    + apply fails_bind; [apply list_possibilities_fails|intros _; by apply changeLine_total].
  - destruct (decide (completed_line _ _ = "")).
    { split; [apply above_refl|right; apply steady_refl]. }
    apply key_ok_true; [apply changeLine_spec|apply steady_fails, changeLine_steady].
Qed.

Lemma keyPress_ok k c : (k = Tab → colours_known (redrawn c)) → key_ok_in (keyPress k) c.
Proof.
  intros Hk. destruct k; cbn [keyPress].
  - destruct (processLine_ok (set_interrupt true c)) as [Hg Hr]. by split.
  - apply processLine_ok.
  - apply history_ok.
  - apply history_ok.
  - by apply on_tab_ok, Hk.
  - split; [apply above_refl|right; apply steady_refl].
Qed.

Lemma steady_cursor b b' : steady b b' → cursor_after b → cursor_after b'.
Proof. intros [E Hm] [Hi Hs]. split; rewrite E; by apply Hm. Qed.

Lemma edit_grows t b : sealed b (start_of b) → cursor_after b → grows b (edit t b).
Proof.
  intros Hs [H1' H2'] _.
  destruct (edit_spec t b (start_of b) H1' H2' Hs) as (Hlen & Htake & Hst & Hn).
  apply grows_same; [by apply Hst|done|done| |done].
  intros k Hk Hk'. by rewrite Hn.
Qed.

(** The key and what comes before it: when Gtk edits for a key without a text,
    the cursor and the selection are in the line typed; Tab draws a line whose
    colours the buffer knows. *)
Definition event_ok (c : @console B S) (e : event (T:=T)) : Prop :=
  match e with
  | Key k text _ =>
      let c1 := (_onKeypress text c).1 in
      let '(c2, r) := keyPress k c1 in
      (k = Tab → colours_known (redrawn c1)) ∧
      (text = false → r ≠ Ok true → cursor_after (buf c2))
  | Click _ _ => True
  end.

Fixpoint events_ok (c : @console B S) (es : list (event (T:=T))) : Prop :=
  match es with
  | [] => True
  | e :: es' => event_ok c e ∧ events_ok (handle c e) es'
  end.

#[export] Instance cursor_after_dec b : Decision (cursor_after b).
Proof. unfold cursor_after. apply _. Defined.
#[export] Instance colours_known_dec s : Decision (colours_known s).
Proof. unfold colours_known. apply _. Defined.

#[export] Instance event_ok_dec c e : Decision (event_ok c e).
Proof.
  destruct e as [k text t|ins sel]; cbn [event_ok]; [|apply _].
  destruct (keyPress k (_onKeypress text c).1) as [c2 r]. apply _.
Defined.

#[export] Instance events_ok_dec c es : Decision (events_ok c es).
Proof. revert c. induction es as [|e es IH]; intros c; cbn [events_ok]; apply _. Defined.

Lemma events_ok_app c es es' : events_ok c (es ++ es') → events_ok c es ∧ events_ok (run c es) es'.
Proof.
  revert c. induction es as [|e es IH]; intros c; [done|]. cbn.
  intros [He Hes]. destruct (IH _ Hes). by repeat split.
Qed.

Lemma handle_grows c e : event_ok c e → grows (buf c) (buf (handle c e)).
Proof.
  intros Hev Hs. destruct e as [k text t|ins sel]; cbn [handle event_ok] in *.
  - assert (grows (buf c) (buf (_onKeypress text c).1) ∧
            (text = true → cursor_after (buf (_onKeypress text c).1))) as [Hg1 Hcur].
    { destruct text; [|by split; [apply above_refl|]].
      destruct (onKeypress_spec c I) as [Hg HQ]. split; [done|]. intros _. by apply (HQ tt). }
    destruct (_onKeypress text c) as [c1 r1]. cbn [fst] in *.
    destruct (Hg1 Hs) as [Hs1 Hp1].
    destruct (keyPress k c1) as [c2 r2] eqn:Hk. destruct Hev as [Htab Hplain].
    destruct (keyPress_ok k c1 Htab) as [Hg2 Hr2]. rewrite Hk in Hg2, Hr2. cbn [fst snd] in *.
    destruct (Hg2 Hs1) as [Hs2 Hp2].
    destruct (decide (r2 = Ok true)) as [->|Hne]; [split; [done|by etrans]|].
    destruct Hr2 as [Hr2|Hst]; [done|].
    assert (match r2 with Ok true => c2 | _ => set_buf (edit t (buf c2)) c2 end =
            set_buf (edit t (buf c2)) c2) as ->
      by (destruct r2 as [[]|]; done).
    cbn [buf set_buf].
    assert (cursor_after (buf c2)) as Hc2.
    { destruct text; [by eapply steady_cursor, Hcur|by apply Hplain]. }
    destruct (edit_grows t (buf c2) Hs2 Hc2 Hs2) as [Hs3 Hp3].
    split; [done|]. etrans; [exact Hp1|]. by etrans.
  - cbn [buf set_buf]. revert Hs.
    assert (Nat.min ins (buffer_end (buf c)) ≤ length (content (buf c))) as Hi by (unfold buffer_end; lia).
    apply above_trans with (move_mark InsertMark (Nat.min ins (buffer_end (buf c))) (buf c)).
    + by apply move_cursor_grows.
    + apply move_cursor_grows; [done|].
      destruct (move_mark_spec InsertMark _ (buf c) Hi) as (-> & _). unfold buffer_end. lia.
Qed.

Lemma run_grows c es : events_ok c es → grows (buf c) (buf (run c es)).
Proof.
  revert c. induction es as [|e es IH]; intros c; [intros _; apply above_refl|].
  intros [He Hes]. unfold run. cbn [foldl]. eapply above_trans; [by apply handle_grows|by apply IH].
Qed.

Lemma open_sealed b s c : content b = [] → open_console b s = (c, Ok tt) →
  sealed (buf c) (start_of (buf c)).
Proof.
  intros Hb Ho.
  assert (end_sealed b ∧ sealed b (start_of b)) as [He Hs].
  { unfold end_sealed, sealed, buffer_end. rewrite Hb. split; left; [done|].
    pose proof (start_in b) as Hin. rewrite Hb in Hin. cbn in Hin. lia. }
  unfold open_console in Ho.
  match type of Ho with (?m ?c0) = _ => assert (spec end_sealed m at_prompt) as Hspec end.
  { eapply spec_bind; [apply spec_pure, execute_pure|intros _].
    eapply spec_bind; [by apply spec_pure|intros _]. eapply spec_bind; [by apply spec_pure|intros p].
    eapply spec_bind; [apply showPrompt_spec|intros _]. by apply spec_pure. }
  specialize (Hspec (MkConsole b s false 0 "" None "" false) He). rewrite Ho in Hspec.
  by apply Hspec.
Qed.
End Events.

(** ** A buffer with these laws: a list of characters and flags *)
Module ListBuffer.
Record t := MkBuffer { text : list (ascii * bool); marks : text_mark → nat }.

Inductive action := Type_ (s : string) | Backspace.

Definition put (flag : bool) (s : string) : list (ascii * bool) := (λ a, (a, flag)) <$> chars s.
Definition flagged (l : list (ascii * bool)) (k : nat) : bool :=
  match l !! k with Some (_, f) => f | None => false end.
Definition at_mark (b : t) (m : text_mark) : nat := Nat.min (marks b m) (length (text b)).

Definition add (s : string) (b : t) : t :=
  MkBuffer (text b ++ put false s)
    (λ m, if decide (at_mark b m = length (text b) ∧ moves_on m = true)
          then length (text b) + length (chars s) else at_mark b m).

Definition flag_from (i j : nat) (l : list (ascii * bool)) : list (ascii * bool) :=
  imap (λ k p, (p.1, p.2 || bool_decide (i ≤ k < j))) l.

Definition first_newline (l : list ascii) : nat :=
  match list_find (λ a, a = newline) l with Some (i, _) => i | None => length l end.

Definition remove (i j : nat) (b : t) : t :=
  MkBuffer (take i (text b) ++ drop j (text b))
    (λ m, if decide (at_mark b m ≤ i) then at_mark b m
          else if decide (at_mark b m ≤ j) then i else at_mark b m - (j - i)).

Definition do_edit (e : action) (b : t) : t :=
  let p := at_mark b InsertMark in
  match e with
  | Type_ s =>
      if flagged (text b) p then b
      else MkBuffer (take p (text b) ++ put false s ++ drop p (text b))
             (λ m, if decide (at_mark b m < p ∨ (at_mark b m = p ∧ moves_on m = false))
                   then at_mark b m else at_mark b m + length (chars s))
  | Backspace =>
      if decide (p = 0) then b
      else if flagged (text b) (p - 1) then b else remove (p - 1) p b
  end.

#[global] Instance ops : TextBuffer t action := {
  content b := (text b).*1;
  offset := at_mark;
  notouch b := flagged (text b);
  insert := add;
  insert_with_tag t s b :=
    if decide (known_tag t) then (add s b, Ok tt) else (b, Raise (ValueError "unknown tag"));
  apply_notouch i j b := MkBuffer (flag_from i j (text b)) (at_mark b);
  delete_range := remove;
  move_mark m n b := MkBuffer (text b) (λ m', if decide (m' = m) then n else at_mark b m');
  forward_to_line_end b i := i + first_newline (drop i (text b).*1);
  edit := do_edit }.

Lemma put_fst f s : (put f s).*1 = chars s.
Proof. unfold put. induction (chars s) as [|a l IH]; [done|]. cbn. f_equal. apply IH. Qed.

Lemma add_inserted s b : inserted s b (add s b).
Proof.
  assert (length (put false s) = length (chars s)) as Hl by (unfold put; by rewrite length_fmap).
  split_and!; cbn.
  - rewrite fmap_app. f_equal. apply put_fst.
  - intros m. unfold at_mark. cbn. rewrite !length_fmap, length_app, Hl. unfold at_mark.
    repeat case_decide; lia.
  - intros k Hk. unfold flagged. rewrite length_fmap in Hk. by rewrite lookup_app_l.
Qed.

Lemma flagged_take (l1 l2 l3 : list (ascii * bool)) n k :
  k < n → n ≤ length l1 → take n l1 = take n l2 → flagged l1 k = flagged l2 k.
Proof.
  intros Hk Hn E. unfold flagged. rewrite <- (lookup_take_lt l1 n k), E by done.
  by rewrite lookup_take_lt.
Qed.

Lemma marks_keep n (l l' : list (ascii * bool)) :
  n ≤ length l → take n l' = take n l → n ≤ length l' ∧ take n l'.*1 = take n l.*1 ∧
  ∀ k, k < n → flagged l' k = flagged l k.
Proof.
  intros Hn E. assert (n ≤ length l') as Hn'.
  { apply (f_equal length) in E. rewrite !length_take in E. lia. }
  split_and!; [done|by rewrite <- !fmap_take, E|].
  intros k Hk. by apply (flagged_take l' l [] n).
Qed.

Lemma content_length b : length (content b) = length (text b).
Proof. apply length_fmap. Qed.

#[global] Instance laws : TextBufferOk t action.
Proof.
  split.
  - intros b m. rewrite content_length. cbn. unfold at_mark. lia.
  - apply add_inserted.
  - intros tag s b. cbn. destruct (decide (known_tag tag)); [apply add_inserted|by left].
  - intros tag s b Hk. cbn. by rewrite decide_True.
  - intros i j b. cbn. unfold flag_from. split_and!.
    + rewrite fmap_imap. apply list_eq. intros k. rewrite list_lookup_imap, list_lookup_fmap.
      by destruct (text b !! k).
    + intros m. unfold at_mark at 1. cbn. rewrite length_imap. unfold at_mark. lia.
    + intros k Hk. change (k < length (content b)) in Hk. rewrite content_length in Hk.
      unfold flagged. rewrite list_lookup_imap.
      destruct (lookup_lt_is_Some_2 (text b) k Hk) as [[a f] ->]. done.
  - intros i j b b' Hij. unfold b'. rewrite content_length in Hij. cbn. split_and!.
    + by rewrite fmap_app, fmap_take, fmap_drop.
    + intros m Hm. unfold at_mark at 1. cbn. rewrite decide_True by done.
      rewrite length_app, length_take, length_drop. lia.
    + intros m Hm. unfold at_mark at 1. cbn. rewrite length_app, length_take, length_drop.
      repeat case_decide; lia.
    + intros k Hk. unfold flagged. rewrite lookup_app_l by (rewrite length_take; lia).
      by rewrite lookup_take_lt.
  - intros m n b b' Hn. unfold b'. rewrite content_length in Hn. cbn. split_and!; [done| |done].
    intros m'. unfold at_mark at 1. cbn. destruct (decide (m' = m)); [lia|]. unfold at_mark. lia.
  - intros b i Hi. rewrite content_length in *. cbn [forward_to_line_end ops]. split; [lia|]. unfold first_newline.
    destruct (list_find _ _) as [[k a]|] eqn:E.
    + apply list_find_Some in E as (E & _). apply lookup_lt_Some in E.
      rewrite length_drop, length_fmap in E. lia.
    + rewrite length_drop, length_fmap. lia.
  - intros b i Hn Hi. rewrite content_length in *. cbn [forward_to_line_end content ops] in *. unfold first_newline.
    destruct (list_find _ _) as [[k a]|] eqn:E.
    + apply list_find_Some in E as (E & -> & _). destruct Hn. by eapply list_elem_of_lookup_2.
    + rewrite length_drop, length_fmap. lia.
  - intros e b n b' Hins Hsel Hs. unfold b'.
    cbn [content offset notouch edit ops] in *. unfold do_edit. set (p := at_mark b InsertMark) in *.
    assert (p ≤ length (text b)) as Hp by (unfold p, at_mark; lia).
    assert (n ≤ length (text b).*1 ∧ take n (text b).*1 = take n (text b).*1 ∧
      (at_mark b LineStart ≤ n → at_mark b LineStart = at_mark b LineStart) ∧
      ∀ k, k < n → flagged (text b) k = flagged (text b) k) as Hsame by (rewrite length_fmap; split_and!; done || lia).
    destruct e as [s|].
    + destruct (flagged (text b) p); [done|]. cbn [text].
      destruct (marks_keep n (text b) (take p (text b) ++ put false s ++ drop p (text b)))
        as (H1 & H2 & H3); [lia| |].
      { rewrite take_app_le, take_take by (rewrite length_take; lia). f_equal. lia. }
      rewrite length_fmap. split_and!; [done|done| |done].
      intros Hm. unfold at_mark at 1. cbn.
      destruct (decide (at_mark b LineStart < p)); [rewrite decide_True by (by left)|rewrite decide_True by (right; split; [lia|done])];
        lia.
    + destruct (decide (p = 0)); [done|]. destruct (flagged (text b) (p - 1)) eqn:Ef; [done|]. cbn [text].
      assert (n ≤ p - 1) as Hnp.
      { destruct (decide (n = p)) as [->|]; [|lia]. destruct Hs; [lia|congruence]. }
      destruct (marks_keep n (text b) (take (p - 1) (text b) ++ drop p (text b))) as (H1 & H2 & H3);
        [lia| |].
      { rewrite take_app_le, take_take by (rewrite length_take; lia). f_equal. lia. }
      rewrite length_fmap. split_and!; [done|done| |done].
      intros Hm. unfold at_mark at 1. cbn. rewrite decide_True by lia. lia.
Qed.

Definition empty : t := MkBuffer [] (λ _, 0).
End ListBuffer.

(** ** Colours *)
Definition no_escape (s : string) : Prop := contains_char "027" s = false.

Lemma match_escape_none s : no_escape s → match_escape s = None.
Proof.
  unfold no_escape, match_escape. intros Hs.
  assert (contains_char "027" (drop_char "001" s) = false) as Hd.
  { destruct s as [|c s]; [done|]. cbn [drop_char]. case_bool_decide; [|done].
    cbn in Hs. by apply orb_false_iff in Hs as [_ ?]. }
  destruct (drop_char "001" s) as [|c [|d t]]; [done..|].
  cbn [contains_char] in Hd. apply orb_false_iff in Hd as [Hc _].
  rewrite bool_decide_eq_false_2; [done|]. intros [-> _]. by rewrite bool_decide_eq_true_2 in Hc.
Qed.

Lemma segments_plain s : no_escape s → segments_of s = (s, []).
Proof.
  unfold segments_of. generalize (le_n (String.length s)).
  generalize (String.length s) at 2 3 as n. intros n. revert s.
  induction n as [|n IH]; intros s Hn Hs; [by destruct s|].
  destruct s as [|c s]; [done|]. cbn [color_split]. rewrite match_escape_none by done.
  unfold no_escape in *. cbn [contains_char String.length] in *.
  apply orb_false_iff in Hs as [_ Hs]. rewrite IH; [done|lia|done].
Qed.

Lemma visible_plain s : no_escape s → visible s = s ∧ colours_known s ∧ unambiguous s.
Proof.
  intros Hs. unfold visible, colours_known, unambiguous. rewrite segments_plain by done.
  split_and!; [apply app_empty_r|constructor..].
Qed.

Lemma segments_of_nl s :
  segments_of (nl +:+ s) = (nl +:+ (segments_of s).1, (segments_of s).2).
Proof.
  unfold segments_of. change (nl +:+ s) with (String newline s).
  cbn [String.length color_split].
  assert (match_escape (String newline s) = None) as -> by (by destruct s).
  by destruct (color_split (String.length s) s).
Qed.

Lemma visible_nl s : visible (nl +:+ s) = nl +:+ visible s.
Proof.
  unfold visible. rewrite segments_of_nl. destruct (segments_of s) as [t l]. cbn [fst snd].
  by rewrite str_app_assoc.
Qed.

Lemma colours_known_nl s : colours_known (nl +:+ s) ↔ colours_known s.
Proof. unfold colours_known. by rewrite segments_of_nl. Qed.
Lemma unambiguous_nl s : unambiguous (nl +:+ s) ↔ unambiguous s.
Proof. unfold unambiguous. by rewrite segments_of_nl. Qed.

Lemma chars_app a b : chars (a +:+ b) = chars a ++ chars b.
Proof.
  unfold chars. induction a as [|c a IH]; [done|]. rewrite str_app_cons.
  cbn [String.list_ascii_of_string]. by rewrite IH.
Qed.

Section Returned.
Context {B T S : Type} `{TextBufferOk B T} `{IPShellOk S}.
Implicit Types (b : B) (c : @console B S).

#[local] Existing Instance M_ret.
#[local] Existing Instance M_bind.

Lemma index_of_fresh tag pre l : tag ∉ pre → index_of tag (pre ++ tag :: l) = Ok (length pre).
Proof.
  induction pre as [|x pre IH]; intros Hn; cbn [app index_of length].
  - by rewrite decide_True.
  - apply not_elem_of_cons in Hn as [Hx Hn]. rewrite decide_False by done. by rewrite IH.
Qed.

Lemma write_segments_visible l pre c :
  Forall known_tag l.*1 → (∀ s, s ∈ pre ++ l.*2 → s ∉ l.*1) →
  ∃ b', write_segments l.*1 (pre ++ (l ≫= λ p, [p.1; p.2])) c = (set_buf b' c, Ok tt) ∧
    appends (chars (foldr (λ p r, p.2 +:+ r) "" l)) (buf c) b'.
Proof.
  revert pre c. induction l as [|[tag s] l IH]; intros pre c Hk Hu.
  { exists (buf c). split; [by destruct c|apply appends_refl]. }
  apply Forall_cons in Hk as [Ht Hk]. set (rest := l ≫= λ p, [p.1; p.2]) in *.
  change (∃ b', write_segments (tag :: l.*1) (pre ++ tag :: s :: rest) c = (set_buf b' c, Ok tt) ∧
    appends (chars (s +:+ foldr (λ p r, p.2 +:+ r) "" l)) (buf c) b').
  cbn [write_segments]. unfold mbind, M_bind, lift.
  rewrite index_of_fresh by (intros Hin; apply (Hu tag); [set_solver|by left]).
  assert ((pre ++ tag :: s :: rest) !! Nat.succ (length pre) = Some s) as ->.
  { unfold Nat.succ. rewrite lookup_app_r by lia.
    by replace (Datatypes.S (length pre) - length pre) with 1 by lia. }
  cbn [of_option]. unfold insert_tagged.
  pose proof (insert_known_tag tag s (buf c) Ht) as Hok.
  pose proof (insert_with_tag_spec tag s (buf c)) as Hins.
  destruct (insert_with_tag tag s (buf c)) as [b1 [[]|]]; [|done].
  assert (delete (length pre) (pre ++ tag :: s :: rest) = (pre ++ [s]) ++ rest) as ->.
  { rewrite delete_middle. by rewrite <- (assoc_L (++)). }
  destruct (IH (pre ++ [s]) (set_buf b1 c)) as (b2 & -> & Ha); [done| |].
  { intros x Hx Hin. apply (Hu x); [cbn; set_solver|by right]. }
  exists b2. split; [done|]. rewrite chars_app.
  eapply appends_trans; [by apply inserted_appends|exact Ha].
Qed.

Lemma write_visible text editable c : colours_known text → unambiguous text →
  ∃ b', write text editable c = (set_buf b' c, Ok tt) ∧ extends (chars (visible text)) (buf c) b'.
Proof.
  intros Hk Hu. destruct (write_extends text editable c) as (s & He & _).
  unfold write, visible, colours_known, unambiguous in *.
  destruct (segments_of text) as [seg l]. cbn [fst snd] in *.
  set (m := write_segments _ _) in *.
  assert (∃ b', (_ ← on_buf (λ b, move_mark StartMark (buffer_end b) b);
     _ ← on_buf (insert seg); _ ← m;
     if editable then mret tt
     else on_buf (λ b, apply_notouch (offset b StartMark) (buffer_end b) b)) c = (set_buf b' c, Ok tt) ∧
     content b' = content (buf c) ++ chars (seg +:+ foldr (λ p r, p.2 +:+ r) "" l))
    as (b' & E & Hc).
  { set (b0 := move_mark StartMark (buffer_end (buf c)) (buf c)).
    assert (content (insert seg b0) = content (buf c) ++ chars seg) as Hi.
    { destruct (insert_spec seg b0) as [-> _].
      destruct (move_mark_spec StartMark (buffer_end (buf c)) (buf c) (Nat.le_refl _)) as [E _].
      fold b0 in E. by rewrite E. }
    destruct (write_segments_visible l [] (set_buf (insert seg b0) c) Hk) as (b1 & Em & Ha & _).
    { intros x Hx. by apply (proj1 (Forall_forall _ _) Hu). }
    cbn [buf set_buf] in Ha. rewrite Hi in Ha.
    unfold mbind, M_bind, on_buf at 1 2. cbn [buf set_buf]. unfold m. cbn [app] in Em.
    fold b0. change (set_buf (insert seg b0) (set_buf b0 c)) with (set_buf (insert seg b0) c).
    rewrite Em. rewrite chars_app, (assoc_L (++)).
    destruct editable; eexists; (split; [reflexivity|]); [done|].
    match goal with |- content (apply_notouch ?i ?j ?b) = _ => destruct (apply_notouch_spec i j b) as [E _] end.
    by rewrite E. }
  exists b'. rewrite E in He |- *. split; [done|].
  cbn [fst buf set_buf] in He. destruct He as (_ & Hs & Hn). split_and!; [done|done|done].
Qed.

Lemma showPrompt_visible p c : colours_known p → unambiguous p →
  ∃ b', showPrompt p c = (set_buf b' c, Ok tt) ∧
    content b' = content (buf c) ++ chars (visible p) ∧ start_of b' = buffer_end b'.
Proof.
  intros Hk Hu. unfold showPrompt, mbind, M_bind.
  destruct (write_visible p false c Hk Hu) as (b1 & -> & Hc1 & _). unfold on_buf. cbn [buf set_buf].
  destruct (move_mark_spec LineStart (buffer_end b1) b1 (Nat.le_refl _)) as (Hc2 & Ho2 & _).
  exists (move_mark LineStart (buffer_end b1) b1). split; [reflexivity|].
  split; [rewrite Hc2; exact Hc1|].
  unfold start_of. rewrite Ho2, decide_True by done. unfold buffer_end at 2. by rewrite Hc2.
Qed.

Lemma showReturned_visible out c :
  colours_known out → unambiguous out → colours_known (prompt c) → unambiguous (prompt c) →
  ∃ b', showReturned out c = (set_buf b' c, Ok tt) ∧
    content b' = content (buf c) ++
      chars (nl +:+ visible out +:+ (if decide (out = "") then "" else nl) +:+
             visible (prompt c)) ∧
    start_of b' = buffer_end b' ∧ offset b' InsertMark = buffer_end b' ∧
    offset b' SelectionBound = buffer_end b'.
Proof.
  intros Hk Hu Hkp Hup. unfold showReturned, mbind, M_bind, on_buf at 1. 
  set (c0 := set_buf _ c).
  assert (content (buf c0) = content (buf c)) as Hc0.
  { unfold c0. cbn [buf set_buf].
    match goal with |- content (apply_notouch ?i ?j ?b) = _ => apply (apply_notouch_spec i j b) end. }
  destruct (write_visible (nl +:+ out) false c0) as (b1 & -> & Hc1 & _);
    [by apply colours_known_nl|by apply unambiguous_nl|].
  rewrite visible_nl in Hc1.
  assert (∃ b2, (if decide (out = "") then mret tt else write nl false) (set_buf b1 c0) =
                (set_buf b2 (set_buf b1 c0), Ok tt) ∧
     content b2 = content b1 ++ chars (if decide (out = "") then "" else nl)) as (b2 & -> & Hc2).
  { destruct (decide (out = "")); [exists b1; split; [done|by rewrite app_nil_r]|].
    destruct (visible_plain nl) as (Ev & ? & ?); [done|].
    destruct (write_visible nl false (set_buf b1 c0)) as (b2 & -> & Hc2 & _); [done..|].
    rewrite Ev in Hc2. by exists b2. }
  unfold gets. set (c2 := set_buf b2 _). change (prompt c2) with (prompt c).
  destruct (showPrompt_visible (prompt c) c2 Hkp Hup) as (b3 & -> & Hc3 & Hs3).
  unfold on_buf. cbn [buf set_buf].
  destruct (move_mark_spec LineStart (buffer_end b3) b3 (Nat.le_refl _)) as (Hc4 & Ho4 & _).
  set (b4 := move_mark LineStart _ _) in *.
  assert (buffer_end b4 = buffer_end b3) as He4 by (unfold buffer_end; by rewrite Hc4).
  destruct (place_cursor_offsets (buffer_end b4) b4 (Nat.le_refl _)) as (Hs5 & Hi5 & Hj5).
  assert (content (place_cursor (buffer_end b4) b4) = content b4) as Hc5.
  { unfold place_cursor.
    destruct (move_mark_spec InsertMark (buffer_end b4) b4 (Nat.le_refl _)) as (E1 & _).
    destruct (move_mark_spec SelectionBound (buffer_end b4) (move_mark InsertMark (buffer_end b4) b4))
      as (E2 & _); [by rewrite E1|]. by rewrite E2, E1. }
  assert (buffer_end (place_cursor (buffer_end b4) b4) = buffer_end b4) as He5
    by exact (f_equal length Hc5).
  eexists. split; [reflexivity|]. cbn [buf set_buf] in *. rewrite He5. split_and!; [| |done|done].
  - rewrite Hc5, Hc4, Hc3. unfold c2. cbn [buf set_buf]. rewrite Hc2, Hc1, Hc0, !chars_app.
    by rewrite !(assoc_L (++)).
  - rewrite Hs5, He4. unfold start_of. by rewrite Ho4, decide_True.
Qed.
End Returned.

(** ** Theorems on the console *)
Section Theorems.
Context {B T S : Type} `{TextBufferOk B T} `{IPShellOk S}.

(** C18: what the console has shown stays: whatever keys are pressed, however
    the cursor and the selection are moved, and whatever the shell does, prints
    and has for prompts, in colours that the text view knows or not, the text
    above the line typed is never changed; it only grows.  Two conditions: when
    Gtk itself edits for a key that has no text (such as Shift+Insert, or a
    menu), the cursor and the selection are in the line typed, for the console
    does not bring them back then (see [paste_changes_transcript]); and the
    line that Tab draws has no colours but those of the text view. *)
Theorem transcript_kept (b : B) (s : S) (c : console) (es es' : list (event (T:=T)))
    (Hempty : content b = []) (Hopen : open_console b s = (c, Ok tt))
    (Hevents : events_ok c (es ++ es')) :
  transcript (buf (run c es)) `prefix_of` transcript (buf (run (run c es) es')).
Proof.
  pose proof (open_sealed _ _ _ Hempty Hopen) as Hs.
  apply events_ok_app in Hevents as [Hes Hes'].
  destruct (run_grows c es Hes Hs) as [Hs' _].
  by destruct (run_grows (run c es) es' Hes' Hs') as [_ Hp].
Qed.

(** [execute] on a line that the shell takes. *)
Lemma execute_line (c : @console B S) l s1 o1 s2 o2 more :
  interrupt c = Some false →
  ip_raw_input (iter_more c) (Answer (current_line (buf c))) (shell c) = (s1, o1, Line l) →
  ip_push l (if ip_autoindent s1 then ip_startup_hook false s1 else s1) = (s2, o2, Ok more) →
  ip_syntax_error s2 && ip_autoedit_syntax s2 = false →
  execute c =
    (MkConsole (buf c) (if more && ip_autoindent s2 then ip_startup_hook true s2 else s2) more 0
       (strip (if more then ip_prompt2 s2 else ip_prompt1 s2)) (Some false)
       ((cout c +:+ o1) +:+ o2) false, Ok tt).
Proof.
  intros Hi Hr Hp Hsy. destruct c as [b s m lv p i co rd]. cbn in Hi, Hr. subst i.
  unfold execute, ask_line, raw_input, push_line, when_indent, on_shell, print, getCurrentLine, gets, modify,
    lift, mbind, M_bind, mret, M_ret.
  cbn. rewrite Hr. cbn. rewrite Hp. cbn. rewrite Hsy. cbn. destruct more; cbn; [|done].
  by destruct (ip_autoindent s2).
Qed.

(** C19: a line entered is run: Return gives the shell exactly the text after
    the prompt, and then the view has, below what it showed, what the shell
    printed (without its newlines at both ends) and the next prompt, both
    without their escape sequences, with an empty line to type and the cursor
    in it; the history starts again at the end.  This is when no Ctrl-C and no
    older output is pending, the shell returns the line it is given, takes it
    without raising and leaves no syntax error to edit, and what it prints and
    its prompt use the colours of the text view only, with no part of the text
    that reads like one of those colours. *)
Theorem return_runs_line (c : @console B S) (l : string) (s1 s2 : S) (o1 o2 : string) (more : bool)
    (Hint : interrupt c = Some false) (Hout : cout c = "")
    (Hread : ip_raw_input (iter_more c) (Answer (current_line (buf c))) (shell c) = (s1, o1, Line l))
    (Hpush : ip_push l (if ip_autoindent s1 then ip_startup_hook false s1 else s1) = (s2, o2, Ok more))
    (Hsyn : ip_syntax_error s2 && ip_autoedit_syntax s2 = false)
    (p := strip (if more then ip_prompt2 s2 else ip_prompt1 s2)) (out := strip_nl (o1 +:+ o2))
    (Hk : colours_known out) (Hu : unambiguous out)
    (Hkp : colours_known p) (Hup : unambiguous p) :
  ∃ b', keyPress Return c =
      (MkConsole b' (if more && ip_autoindent s2 then ip_startup_hook true s2 else s2) more 0 p
         (Some false) "" false, Ok true) ∧
    content b' = content (buf c) ++
      chars (nl +:+ visible out +:+ (if decide (out = "") then "" else nl) +:+ visible p) ∧
    current_line b' = "" ∧ offset b' InsertMark = length (content b') ∧
    offset b' SelectionBound = length (content b').
Proof.
  cbn [keyPress]. unfold _processLine, mbind, M_bind.
  rewrite (execute_line c l s1 o1 s2 o2 more Hint Hread Hpush Hsyn), Hout.
  unfold gets. change ("" +:+ o1) with o1. cbn [cout]. fold out.
  set (c1 := MkConsole _ _ _ _ _ _ _ _).
  destruct (showReturned_visible out c1 Hk Hu Hkp Hup) as (b' & -> & Hc & Hs & Hi & Hj).
  exists b'. split_and!; [done|exact Hc| |exact Hi|exact Hj].
  unfold current_line. change (offset b' LineStart) with (start_of b').
  rewrite Hs. unfold buffer_end. by rewrite drop_all.
Qed.

(** The constructor runs the shell before [interrupt] is assigned: the error
    is shown as a traceback that nobody sees. *)
Lemma opening_reads_nothing (b : B) (s : S) :
  ∃ c, ask_line (MkConsole b s false 0 "" None "" true) = (c, Ok Failed).
Proof.
  unfold ask_line, raw_input, gets, mbind, M_bind, mret, M_ret. cbn.
  pose proof (raw_input_error false AttributeError s) as Hf.
  destruct (ip_raw_input false (AnswerError AttributeError) s) as [[s' o] r]. cbn in Hf. subst r.
  cbn. eauto.
Qed.
End Theorems.

(** ** A console on a list *)
(** A shell that prints the lines it is given, with a green prompt. *)
#[export] Instance echo_shell : IPShell (list string) := {
  ip_raw_input _ a s := (s, "", match a with Answer l => Line l | AnswerInterrupt => Interrupted
                                           | AnswerError _ => Failed end);
  ip_autoindent _ := false;
  ip_startup_hook _ s := s;
  ip_write t s := (s, t);
  ip_resetbuffer s := s;
  ip_prompt_back s := s;
  ip_no_indent s := s;
  ip_showtraceback s := (s, "Traceback" +:+ nl);
  ip_push l s := (s ++ [l], l +:+ nl, Ok false);
  ip_syntax_error _ := false;
  ip_autoedit_syntax _ := false;
  ip_edit_syntax_error s := (s, "");
  ip_prompt1 _ := String "027" "[0;32m>>>" +:+ String "027" "[0m ";
  ip_prompt2 _ := "...";
  ip_In s := s;
  ip_complete _ _ := ["abs"; "absolute"] }.

#[export] Instance echo_shell_ok : IPShellOk (list string).
Proof. by split. Qed.

Definition type_text (s : string) : event := Key OtherKey true (ListBuffer.Type_ s).
Definition press (k : key) : event := Key k true ListBuffer.Backspace.

Definition opened : @console ListBuffer.t (list string) :=
  (open_console ListBuffer.empty [""]).1.

Definition shown (c : @console ListBuffer.t (list string)) : string :=
  String.string_of_list_ascii (content (buf c)).

Lemma transcript_kept_witness :
  transcript (buf (run opened [type_text "1+1"; press Return; type_text "ab"; press Tab])) `prefix_of`
  transcript (buf (run (run opened [type_text "1+1"; press Return; type_text "ab"; press Tab])
    [Click 0 2; press OtherKey; type_text "x"; press Up; press Return])).
Proof.
  apply (transcript_kept ListBuffer.empty [""] opened); [reflexivity|vm_compute; reflexivity|].
  apply (bool_decide_unpack _). vm_compute. reflexivity.
Defined.

Lemma return_runs_line_witness :
  ∃ b', (keyPress Return (run opened [type_text "1+1"])).1 =
    MkConsole b' ["" ; "1+1"] false 0 (strip (ip_prompt1 [""])) (Some false) "" false ∧
    String.string_of_list_ascii (content b') =
      ">>>1+1" +:+ nl +:+ "1+1" +:+ nl +:+ ">>>".
Proof.
  destruct (return_runs_line (run opened [type_text "1+1"]) "1+1" [""] ["" ; "1+1"] "" ("1+1" +:+ nl) false)
    as (b' & E & Hc & _); [vm_compute; reflexivity..| | | | |];
    try (by apply (bool_decide_unpack _); vm_compute).
  exists b'. rewrite E, Hc. split; vm_compute; reflexivity.
Defined.

(** The line before the possibilities is left editable above the new one. *)
Lemma tab_leaves_line_open :
  let c := run opened [type_text "ab"; press Tab] in
  notouch (buf c) (String.length ">>>") = false ∧ String.length ">>>" < start_of (buf c).
Proof. vm_compute. split; [done|lia]. Qed.

(** In that line a paste with Shift+Insert, which has no text, changes what was
    shown: nothing brings the cursor back. *)
Definition paste (s : string) : event := Key OtherKey false (ListBuffer.Type_ s).

Lemma paste_changes_transcript :
  let c := run opened [type_text "ab"; press Tab] in
  let c' := run c [Click 4 4; paste "x"] in
  String.string_of_list_ascii (transcript (buf c)) =
    ">>>ab" +:+ nl +:+ "abs" +:+ nl +:+ "absolute" +:+ nl +:+ ">>>" ∧
  String.string_of_list_ascii (transcript (buf c')) =
    ">>>axb" +:+ nl +:+ "abs" +:+ nl +:+ "absolute" +:+ nl +:+ ">>>".
Proof. vm_compute. done. Qed.

(** Of a line with a line break, as one that was pasted, Up replaces the part
    before the break only, and adds the line of the history at the end. *)
Lemma pasted_line_kept :
  shown (run opened [type_text "old"; press Return; type_text ("a" +:+ nl +:+ "b"); press Up]) =
  ">>>old" +:+ nl +:+ "old" +:+ nl +:+ ">>>" +:+ nl +:+ "bold".
Proof. vm_compute. reflexivity. Qed.
