(* ===== verification/ModuleScan.v ===== *)
(** * [bindings/python/ns3modulescan.py]: what the scanner of the headers decides

    [pygccxml] and [pybindgen] parse the C++ headers and write the generated
    modules; this file models what the script itself contributes: the path of
    a header inside the build tree, the hook that annotates every definition
    before it is scanned, with its table of special cases, and the sections
    the output is divided into, one per module in dependency order.  A
    definition is the record of the attributes the hook reads; the functions of
    [pygccxml.declarations.templates] are parameters. *)

From S2P Require Import Prelude PyStr Topsort.
From Stdlib Require Import Ascii.

Local Open Scope string_scope.

(** ** [get_ns3_relative_path] *)

(** [os.path.join] applied to a list of arguments. *)
Definition os_path_join (l : list string) : result exn string :=
  match l with [] => Raise TypeError | a :: l => Ok (foldl path_join a l) end.

Fixpoint relative_loop (fuel : nat) (head : string) (l : list string) : result exn string :=
  match fuel with
  | O => Raise Diverges
  | S fuel =>
      if decide (head = "") then Raise AssertionError
      else
        let '(head, tail) := path_split head in
        if decide (tail = "ns3") then os_path_join l
        else relative_loop fuel head (tail :: l)
  end.

Definition get_ns3_relative_path (path : string) : result exn string :=
  relative_loop (S (String.length path)) path [].

(** ** Annotations *)

(** A value of [type_annotations]: a string, [None], [True], or the dictionary
    of parameter annotations. *)
Inductive value : Type :=
  | Text (s : string)
  | Nothing
  | Yes
  | Params (p : gmap string (gmap string string)).

#[export] Instance value_eq_dec : EqDecision value.
Proof. solve_decision. Defined.

Abbreviation annotations := (gmap string value).
Abbreviation params := (gmap string (gmap string string)).

Definition not_owned (arg : string) : annotations :=
  {["params" := Params {[arg := {["transfer_ownership" := "false"]}]}]}.

Definition kept_by_callee : annotations :=
  {["params" := Params {["return" := {["caller_owns_return" := "false"]}]}]}.

Definition type_annotations : gmap string annotations := list_to_map [
  ("::ns3::AttributeChecker",
    {["automatic_type_narrowing" := Text "true"; "allow_subclassing" := Text "false"]});
  ("::ns3::AttributeValue",
    {["automatic_type_narrowing" := Text "true"; "allow_subclassing" := Text "false"]});
  ("::ns3::CommandLine", {["allow_subclassing" := Text "true"]});
  ("::ns3::NscTcpL4Protocol", {["ignore" := Text "true"]});
  ("ns3::RandomVariable::RandomVariable(ns3::RandomVariableBase const & variable) [constructor]",
    {["ignore" := Nothing]});
  ("ns3::RandomVariableBase * ns3::RandomVariable::Peek() const [member function]",
    {["ignore" := Nothing]});
  ("void ns3::RandomVariable::GetSeed(uint32_t * seed) const [member function]",
    {["params" := Params {["seed" := {["direction" := "out"; "array_length" := "6"]}]}]});
  ("bool ns3::TypeId::LookupAttributeByName(std::string name, ns3::TypeId::AttributeInfo * info) const [member function]",
    not_owned "info");
  ("static bool ns3::TypeId::LookupByNameFailSafe(std::string name, ns3::TypeId * tid) [member function]",
    {["ignore" := Nothing]});
  ("bool ns3::TraceSourceAccessor::ConnectWithoutContext(ns3::ObjectBase * obj, ns3::CallbackBase const & cb) const [member function]",
    not_owned "obj");
  ("bool ns3::TraceSourceAccessor::Connect(ns3::ObjectBase * obj, std::string context, ns3::CallbackBase const & cb) const [member function]",
    not_owned "obj");
  ("bool ns3::TraceSourceAccessor::DisconnectWithoutContext(ns3::ObjectBase * obj, ns3::CallbackBase const & cb) const [member function]",
    not_owned "obj");
  ("bool ns3::TraceSourceAccessor::Disconnect(ns3::ObjectBase * obj, std::string context, ns3::CallbackBase const & cb) const [member function]",
    not_owned "obj");
  ("bool ns3::AttributeAccessor::Set(ns3::ObjectBase * object, ns3::AttributeValue const & value) const [member function]",
    not_owned "object");
  ("ns3::EmpiricalVariable::EmpiricalVariable(ns3::RandomVariableBase const & variable) [constructor]",
    {["ignore" := Nothing]});
  ("static ns3::AttributeList * ns3::AttributeList::GetGlobal() [member function]",
    {["caller_owns_return" := Text "false"]});
  ("void ns3::CommandLine::Parse(int argc, char * * argv) const [member function]",
    {["ignore" := Nothing]});
  ("extern void ns3::PythonCompleteConstruct(ns3::Ptr<ns3::Object> object, ns3::TypeId typeId, ns3::AttributeList const & attributes) [free function]",
    {["ignore" := Nothing]});
  ("ns3::Ptr<ns3::Ipv4RoutingProtocol> ns3::Ipv4ListRouting::GetRoutingProtocol(uint32_t index, int16_t & priority) const [member function]",
    {["params" := Params {["priority" := {["direction" := "out"]}]}]});
  ("ns3::Ipv4RoutingTableEntry * ns3::GlobalRouter::GetInjectedRoute(uint32_t i) [member function]",
    kept_by_callee);
  ("ns3::Ipv4RoutingTableEntry * ns3::Ipv4GlobalRouting::GetRoute(uint32_t i) const [member function]",
    kept_by_callee);
  ("::ns3::TestCase", {["ignore" := Text "true"]});
  ("::ns3::TestRunner", {["ignore" := Text "true"]});
  ("::ns3::TestSuite", {["ignore" := Text "true"]}) ].

(** ** [pre_scan_hook] *)

(** The class of a definition of [pygccxml], as far as [isinstance] tells;
    [OtherCalldef] are operators and destructors. *)
Inductive decl_class : Type :=
  | MemberFunction | FreeFunction | Constructor | OtherCalldef
  | ClassDecl | Enumeration | OtherDecl.

#[export] Instance decl_class_eq_dec : EqDecision decl_class.
Proof. solve_decision. Defined.

(** [default_values] are the default values of the arguments, which the hook
    rewrites in place; [text] is [str(definition)]. *)
Record definition := Definition_ {
  cls : decl_class;
  file_name : string;
  text : string;
  parent_name : string;
  name : string;
  demangled_name : string;
  decl_string : string;
  default_values : list (option string) }.

Definition is_member (d : definition) : bool := bool_decide (cls d = MemberFunction).

(** [isinstance(d, calldef_t)]. *)
Definition is_calldef (d : definition) : bool :=
  bool_decide (cls d ∈ [MemberFunction; FreeFunction; Constructor; OtherCalldef]).

(** [isinstance(d, (free_function_t, member_function_t, constructor_t))]. *)
Definition is_callable (d : definition) : bool :=
  bool_decide (cls d ∈ [FreeFunction; MemberFunction; Constructor]).

Definition fix_default (v : option string) : option string :=
  match v with
  | None => None
  | Some s =>
      let s := if decide ("ns3::MilliSeconds( )" = s) then "ns3::MilliSeconds(0)" else s in
      Some (if decide ("ns3::Seconds( )" = s) then "ns3::Seconds(0)" else s)
  end.

(** What a call of the hook leaves behind: the table, which is shared by all
    calls, the two dictionaries of the caller, and the default values of the
    definition. *)
Record hooked := Hooked {
  table : gmap string annotations;
  global_annotations : annotations;
  parameter_annotations : params;
  defaults : list (option string) }.

Definition counted_reference (ga : annotations) : annotations :=
  <["automatic_type_narrowing" := Text "true"]>
  (<["peekref_method" := Text "GetReferenceCount"]>
  (<["decref_method" := Text "Unref"]>
  (<["incref_method" := Text "Ref"]> ga))).

(** [d.update(e)]. *)
Definition update {V} (d e : gmap string V) : gmap string V := e ∪ d.

(** The dictionary that [parameter_annotations.update(value)] reads. *)
Definition params_of (v : value) : result exn params :=
  match v with
  | Params p => Ok p
  | Text s => if decide (s = "") then Ok ∅ else Raise (ValueError "")
  | Nothing | Yes => Raise TypeError
  end.

(** The table driven customization of functions: [params] goes to the
    parameters and is deleted from the entry itself. *)
Definition table_driven (d : definition) (h : hooked) : result exn hooked :=
  match table h !! text d with
  | None => Ok h
  | Some entry =>
      '(pa, entry) ← match entry !! "params" with
                     | Some v =>
                         p ← params_of v;
                         Ok (update (parameter_annotations h) p, delete "params" entry)
                     | None => Ok (parameter_annotations h, entry)
                     end;
      Ok (Hooked (<[text d := entry]> (table h)) (update (global_annotations h) entry) pa
            (defaults h))
  end.

Section hook.
Context (template_args : string → list string).

(** The annotations that precede the classes: the comment, and the members
    with special treatment. *)
Definition member_annotations (ns3_header : string) (d : definition) (ga : annotations) :
    annotations :=
  let ga := <["pygen_comment" := Text (ns3_header +:+ ": " +:+ text d)]> ga in
  let ga :=
    if is_member d && bool_decide (parent_name d = "Object") && bool_decide (name d = "GetObject")
    then if decide (template_args (demangled_name d) = ["ns3::Object"])
         then <["template_instance_names" := Text "ns3::Object=>GetObject"]> ga else ga
    else ga in
  let ga :=
    if is_member d && bool_decide (parent_name d = "Simulator") && startswith "Schedule" (name d)
    then <["ignore" := Nothing]> ga else ga in
  if is_member d && bool_decide (parent_name d = "Simulator") && bool_decide (name d = "Run")
  then <["ignore" := Yes]> ga else ga.

(** The branch of the classes; [true] when the hook returns there. *)
Definition class_annotations (d : definition) (tab : gmap string annotations)
    (ga : annotations) : bool * annotations :=
  if startswith "::ns3::SimpleRefCount<" (decl_string d) then (true, counted_reference ga)
  else if startswith "::ns3::Callback<" (decl_string d) then (true, <["ignore" := Nothing]> ga)
  else if startswith "::ns3::TracedCallback<" (decl_string d)
  then (true, <["ignore" := Nothing]> ga)
  else if startswith "::ns3::Ptr<" (decl_string d) then (true, <["ignore" := Nothing]> ga)
  else match tab !! decl_string d with
       | None => (false, ga)
       | Some entry => (false, update ga entry)
       end.

Definition pre_scan_hook (tab : gmap string annotations) (d : definition)
    (ga : annotations) (pa : params) : result exn hooked :=
  ns3_header ← get_ns3_relative_path (file_name d);
  let ga := member_annotations ns3_header d ga in
  let dv := if is_calldef d then fix_default <$> default_values d else default_values d in
  let '(returned, ga) :=
    if decide (cls d = ClassDecl) then class_annotations d tab ga else (false, ga) in
  if returned : bool then Ok (Hooked tab ga pa dv)
  else if decide (cls d = FreeFunction ∧ name d = "PeekPointer")
  then Ok (Hooked tab (<["ignore" := Nothing]> ga) pa dv)
  else if is_callable d then table_driven d (Hooked tab ga pa dv)
  else Ok (Hooked tab ga pa dv).

(** The parser calls the hook on one definition after another, each with two
    empty dictionaries. *)
Fixpoint scan_definitions (tab : gmap string annotations) (ds : list definition) :
    result exn (list hooked * gmap string annotations) :=
  match ds with
  | [] => Ok ([], tab)
  | d :: ds =>
      h ← pre_scan_hook tab d ∅ ∅;
      '(hs, tab) ← scan_definitions (table h) ds;
      Ok (h :: hs, tab)
  end.
End hook.

(** ** [scan_callback_classes] *)

(** A class of the namespace: its name, [cls.decl_string]. [is_instantiation]
    and [template_parameters] are functions of [templates], [repr] is the
    interpreter's. *)
Definition callback_lines (is_instantiation : string → bool)
    (template_parameters : string → list string) (repr : list string → string)
    (classes : list definition) : result exn string :=
  out ← fold_res (λ out c,
          if negb (startswith "Callback<" (name c)) then Ok out
          else _ ← guard_exn (is_instantiation (decl_string c)) AssertionError;
               Ok (out +:+ "    " +:+ repr (template_parameters (decl_string c)) +:+ "," +:+ nl))
          ("callback_classes = [" +:+ nl) classes;
  Ok (out +:+ "]" +:+ nl).

(** ** The sections of the output *)

(** [ns3_modules] maps a module to its dependencies and its headers. *)
Abbreviation modules := (gmap string (list string * list string)).

Record section := PygenSection {
  section_name : string;
  code_file : string;
  local_customizations : option string }.

Record layout := Layout {
  sections : list section;
  headers_map : gmap string string;
  section_precendences : gmap string Z }.

(** [s.replace(a, b)] for single characters. *)
Fixpoint replace_char (a b : ascii) (s : string) : string :=
  match s with
  | "" => ""
  | String c s => String (if decide (c = a) then b else c) (replace_char a b s)
  end.

Definition section_of (ns3_module : string) : string :=
  "ns3_module_" +:+ replace_char "-" "_" ns3_module.

Section scan.
Context {ord : DictOrder string}.

Definition module_pairs (ns3_modules : modules) (ns3_module_name : string) :
    list (string * string) :=
  match ns3_modules !! ns3_module_name with
  | Some (deps, _) => (λ dep, (dep, ns3_module_name)) <$> merge_sort String.le deps
  | None => []
  end.

Definition module_graph (ns3_modules : modules) : list (string * string) :=
  mjoin (module_pairs ns3_modules <$> merge_sort String.le (dict_keys ns3_modules)).

(** One turn of the loop over [enumerate(sorted_ns3_modules)]. *)
Definition add_section (pygen_file_name : string) (ns3_modules : modules) (l : layout)
    (pm : Z * string) : result exn layout :=
  let '(prec, ns3_module) := pm in
  let s := section_of ns3_module in
  let file_name := path_join (path_split pygen_file_name).1 (s +:+ ".py") in
  '(_, headers) ← dict_get KeyError ns3_modules ns3_module;
  Ok (Layout (sections l ++ [PygenSection s file_name (Some (s +:+ "__local"))])
        (foldl (λ m header, <[header := s]> m) (headers_map l) headers)
        (<[s := prec]> (section_precendences l))).

Definition enumerate {A} (l : list A) : list (Z * A) := imap (λ i x, (Z.of_nat i, x)) l.

Definition make_sections (pygen_file_name : string) (ns3_modules : modules) :
    result (sort_exn string) layout :=
  sorted_ns3_modules ← topsort (module_graph ns3_modules);
  lift_exn (fold_res (add_section pygen_file_name ns3_modules)
              (Layout [PygenSection "__main__" pygen_file_name None] ∅ ∅)
              (enumerate sorted_ns3_modules)).
End scan.

(** *** [MyPygenClassifier] *)
Definition classify (l : layout) (file_name : string) : string :=
  default "__main__" (headers_map l !! basename file_name).

Definition get_section_precedence (l : layout) (section_name : string) : result exn Z :=
  if decide (section_name = "__main__") then Ok (-1)%Z
  else dict_get KeyError (section_precendences l) section_name.

(** ** Paths *)

(** The components of a path: its non-empty pieces, then an empty one if the
    path ends with a slash. *)
Definition pieces (path : string) : list string := filter (λ s, s ≠ "") (split "/" path).

Definition components (path : string) : list string :=
  pieces path ++ (if ends_with_slash path then [""] else []).

(** What follows the last occurrence of [x]. *)
Fixpoint after_last (x : string) (l : list string) : option (list string) :=
  match l with
  | [] => None
  | y :: l =>
      match after_last x l with
      | Some r => Some r
      | None => if decide (y = x) then Some l else None
      end
  end.

Lemma after_last_snoc x l y :
  after_last x (l ++ [y])%list =
  if decide (y = x) then Some [] else (λ r, r ++ [y])%list <$> after_last x l.
Proof.
  induction l as [|z l IH]; cbn [after_last app]; [by case_decide|]. rewrite IH.
  case_decide; [done|]. destruct (after_last x l); cbn; [done|]. by case_decide.
Qed.

Lemma last_component_spec s h t :
  last_component s = (h, t) →
  s = h +:+ t ∧ contains_char "/" t = false ∧ (h = "" ∨ ends_with_slash h = true).
Proof.
  revert h t. induction s as [|c s IH]; intros h t Hs; cbn [last_component] in Hs.
  { injection Hs as <- <-. split_and!; [done..|by left]. }
  destruct (last_component s) as [h' t'] eqn:E. destruct (IH _ _ eq_refl) as (-> & Ht & Hh).
  case_bool_decide as Hh'.
  - subst h'. destruct (decide (c = "/"%char)) as [->|Hc]; injection Hs as <- <-.
    + split_and!; [done..|by right].
    + split_and!; [done| |by left]. cbn [contains_char]. by rewrite bool_decide_eq_false_2.
  - injection Hs as <- <-. split_and!; [done..|right].
    destruct Hh as [?|Hh]; [done|]. by destruct h'.
Qed.

Lemma rstrip_slash_length s : (String.length (rstrip_slash s) ≤ String.length s)%nat.
Proof.
  induction s as [|c s IH]; cbn [rstrip_slash]; [done|].
  destruct (rstrip_slash s); [case_decide|]; cbn in *; lia.
Qed.

Lemma rstrip_slash_ends s : ends_with_slash (rstrip_slash s) = false.
Proof.
  induction s as [|c s IH]; cbn [rstrip_slash]; [done|].
  destruct (rstrip_slash s) eqn:E; [|done].
  case_decide; [done|]. cbn. by rewrite bool_decide_eq_false_2.
Qed.

Lemma ends_with_slash_inv s : ends_with_slash s = true → ∃ s0, s = s0 +:+ "/".
Proof.
  induction s as [|c s IH]; [done|]. destruct s as [|d s]; intros Hs.
  - apply bool_decide_eq_true in Hs as ->. by exists "".
  - destruct (IH Hs) as [s0 ->]. by exists (String c s0).
Qed.

Lemma ends_with_slash_app s t :
  t ≠ "" → contains_char "/" t = false → ends_with_slash (s +:+ t) = false.
Proof.
  intros Hne Ht. induction s as [|c s IH].
  - change ("" +:+ t) with t. destruct (ends_with_slash t) eqn:E; [|done].
    apply ends_with_slash_inv in E as [t0 ->]. rewrite contains_char_app in Ht.
    apply orb_false_iff in Ht as [_ Ht]. done.
  - rewrite str_app_cons. by destruct s, t.
Qed.

Lemma split_app_sep c a b : split c (a +:+ String c b) = (split c a ++ split c b)%list.
Proof.
  induction a as [|d a IH].
  - change ("" +:+ String c b) with (String c b). cbn [split]. by rewrite decide_True.
  - rewrite str_app_cons. cbn [split]. rewrite IH. case_decide; [done|].
    destruct (split c a) eqn:E; [|done]. destruct a; cbn in E; [done|]. case_goal.
Qed.

Lemma pieces_sep a b : pieces (a +:+ String "/" b) = (pieces a ++ pieces b)%list.
Proof. unfold pieces. by rewrite split_app_sep, filter_app. Qed.

Lemma pieces_name t :
  contains_char "/" t = false → pieces t = if decide (t = "") then [] else [t].
Proof.
  intros Ht. unfold pieces. rewrite split_no_sep by done.
  rewrite filter_cons. destruct (decide (t = "")); case_decide; naive_solver.
Qed.

Lemma pieces_join h t :
  ends_with_slash h = true → pieces (h +:+ t) = (pieces h ++ pieces t)%list.
Proof.
  intros [h0 ->]%ends_with_slash_inv. rewrite <- str_app_assoc.
  change ("/" +:+ t) with (String "/" t). rewrite !pieces_sep.
  change (pieces "") with (@nil string). by rewrite app_nil_r.
Qed.

Lemma pieces_rstrip s : pieces (rstrip_slash s) = pieces s.
Proof.
  assert (∃ n, s = rstrip_slash s +:+ Nat.iter n (String "/") "") as [n Hn].
  { induction s as [|c s [n Hn]]; [by exists 0|]. cbn [rstrip_slash].
    destruct (rstrip_slash s) eqn:E.
    - case_decide as Hc; [exists (S n)|exists n]; rewrite Hn at 1; by rewrite ?Hc.
    - exists n. rewrite Hn at 1. done. }
  rewrite Hn at 2. assert (pieces (Nat.iter n (String "/") "") = []) as Hp.
  { clear Hn. induction n as [|n IH]; [done|].
    change (Nat.iter (S n) (String "/") "") with ("" +:+ String "/" (Nat.iter n (String "/") "")).
    by rewrite pieces_sep, IH. }
  destruct n as [|n]; [by rewrite app_empty_r|].
  change (Nat.iter (S n) (String "/") "") with ("" +:+ String "/" (Nat.iter n (String "/") "")) in *.
  rewrite pieces_sep in Hp. change ("" +:+ ?x) with x. rewrite pieces_sep.
  change (pieces "" ++ ?x)%list with x in Hp. by rewrite Hp, app_nil_r.
Qed.

Lemma rstrip_slash_first s :
  rstrip_slash s ≠ "" → startswith "/" (rstrip_slash s) = startswith "/" s.
Proof.
  destruct s as [|c s]; [done|]. cbn [rstrip_slash].
  destruct (rstrip_slash s); [by case_decide|done].
Qed.

Lemma startswith_slash_app h t : h ≠ "" → startswith "/" (h +:+ t) = startswith "/" h.
Proof. destruct h as [|c h]; [done|]. intros _. rewrite str_app_cons. by destruct h, t. Qed.

Lemma path_split_spec p h t :
  p ≠ "" → path_split p = (h, t) →
  contains_char "/" t = false ∧ pieces p = (pieces h ++ pieces t)%list ∧
  ends_with_slash p = bool_decide (t = "") ∧
  (h ≠ "" → startswith "/" h = startswith "/" p) ∧ (h = "" → p = t) ∧
  (h = p ∧ rstrip_slash p = "" ∨ (String.length h < String.length p)%nat) ∧
  (ends_with_slash h = true → rstrip_slash h = "").
Proof.
  unfold path_split. destruct (last_component p) as [h0 t0] eqn:E.
  apply last_component_spec in E as (-> & Ht & Hh). intros Hp [= <- <-].
  assert (pieces (h0 +:+ t0) = (pieces h0 ++ pieces t0)%list) as ->.
  { destruct Hh as [->|Hh]; [done|by apply pieces_join]. }
  assert (ends_with_slash (h0 +:+ t0) = bool_decide (t0 = "")) as ->.
  { case_bool_decide as Ht0; [|by apply ends_with_slash_app]. subst.
    rewrite app_empty_r in *. by destruct Hh as [->|?]. }
  pose proof (str_length_app h0 t0) as Hlen.
  case_bool_decide as Hr.
  - split_and!; [done..| | | |].
    + intros. symmetry. by apply startswith_slash_app.
    + by intros ->.
    + destruct (decide (t0 = "")) as [->|Ht0]; [left; by rewrite app_empty_r|right].
      destruct t0; [done|]. cbn in *. lia.
    + done.
  - assert (h0 ≠ "") as Hh0 by (by intros ->). split_and!; [done| |done|..].
    + by rewrite pieces_rstrip.
    + intros. by rewrite rstrip_slash_first, startswith_slash_app.
    + done.
    + right. destruct Hh as [?|Hh]; [done|]. rewrite Hlen.
      pose proof (rstrip_slash_length h0).
      destruct (decide (String.length (rstrip_slash h0) = String.length h0)); [|lia].
      exfalso. enough (rstrip_slash h0 = h0) as Heq.
      { pose proof (rstrip_slash_ends h0). congruence. }
      clear -e. induction h0 as [|c s IH]; [done|]. cbn [rstrip_slash] in *.
      destruct (rstrip_slash s) eqn:Es.
      * case_decide; destruct s; cbn in e; (lia || done).
      * rewrite IH; [done|]. cbn in *. lia.
    + rewrite rstrip_slash_ends. done.
Qed.

Lemma pieces_slashes p : rstrip_slash p = "" → pieces p = [].
Proof. intros Hp. rewrite <- pieces_rstrip, Hp. done. Qed.

Lemma path_split_slashes p : p ≠ "" → rstrip_slash p = "" → path_split p = (p, "").
Proof.
  intros Hp Hr. destruct (path_split p) as [h t] eqn:E.
  destruct (path_split_spec _ _ _ Hp E) as (Ht & Hpc & He & _ & _ & Hl & _).
  rewrite (pieces_slashes p), (pieces_name t) in Hpc by done. symmetry in Hpc.
  apply app_nil in Hpc as [_ Ht']. case_decide; [|done]. subst t.
  unfold path_split in E. destruct (last_component p) as [h0 t0] eqn:E0.
  apply last_component_spec in E0 as (-> & _ & _). injection E as <- ->.
  rewrite app_empty_r in *. by rewrite bool_decide_eq_true_2.
Qed.

Lemma slashes_absolute p : p ≠ "" → rstrip_slash p = "" → startswith "/" p = true.
Proof.
  destruct p as [|c p]; [done|]. cbn [rstrip_slash]. intros _.
  destruct (rstrip_slash p); [|done]. case_decide; [subst|done]. by destruct p.
Qed.

Lemma os_path_join_pieces l :
  l ≠ [] → Forall (λ s, contains_char "/" s = false) l → "" ∉ removelast l →
  os_path_join l = Ok (join "/" l).
Proof.
  destruct l as [|a l]; [done|]. intros _ Hl Hne. cbn [os_path_join]. f_equal.
  assert (l ≠ [] → a ≠ "" ∧ ends_with_slash a = false) as Ha.
  { intros Hl'. apply Forall_cons in Hl as [Ha _].
    assert (a ≠ "") by (intros ->; apply Hne; destruct l; [done|]; left).
    split; [done|]. by apply (ends_with_slash_app "" a). }
  assert (Forall (λ s, contains_char "/" s = false) l ∧ "" ∉ removelast l) as [Hl' Hne'].
  { apply Forall_cons in Hl as [_ Hl]. split; [done|].
    intros Hin. apply Hne. destruct l; [done|by right]. }
  clear Hl Hne. revert a Ha. induction l as [|b l IH]; intros a Ha; [done|].
  destruct Ha as [Ha1 Ha2]; [done|]. apply Forall_cons in Hl' as [Hb Hl'].
  cbn [foldl]. unfold path_join at 2.
  assert (startswith "/" b = false) as ->.
  { destruct b as [|c b]; [done|]. cbn [contains_char] in Hb.
    apply orb_false_iff in Hb as [Hb _]. cbn [startswith]. by rewrite Hb. }
  rewrite bool_decide_eq_false_2, Ha2 by done. cbn [orb].
  rewrite IH; [|done|intros Hin; apply Hne'; destruct l; [done|by right]|].
  - destruct l as [|c l]; [done|].
    change (join "/" ((a +:+ "/" +:+ b) :: c :: l))
      with ((a +:+ "/" +:+ b) +:+ "/" +:+ join "/" (c :: l)).
    by rewrite <- !str_app_assoc.
  - intros Hl. split; [by destruct a|].
    rewrite str_app_assoc. apply ends_with_slash_app; [|done].
    destruct l; [done|]. intros ->. apply Hne'. left.
Qed.

(** *** The path of a header *)

(** What the loop computes, from the components of the path. *)
Definition relative_path (path : string) : result exn string :=
  match after_last "ns3" (components path) with
  | Some [] => Raise TypeError
  | Some l => Ok (join "/" l)
  | None => Raise (if startswith "/" path then Diverges else AssertionError)
  end.

Lemma after_last_suffix x l r : after_last x l = Some r → ∃ l0, l = (l0 ++ x :: r)%list.
Proof.
  revert r. induction l as [|y l IH]; intros r Hr; [done|]. cbn [after_last] in Hr.
  destruct (after_last x l) as [r'|].
  - injection Hr as <-. destruct (IH _ eq_refl) as [l0 ->]. by exists (y :: l0).
  - case_decide; [|done]. injection Hr as <-. subst. by exists [].
Qed.

Lemma split_names c s : Forall (λ w, contains_char c w = false) (split c s).
Proof.
  induction s as [|d s IH]; cbn [split]; [by repeat constructor|].
  case_decide as Hd; [by constructor|].
  destruct (split c s) as [|w ws]; [|apply Forall_cons in IH as [Hw IH]]; constructor;
    try done; cbn [contains_char]; by rewrite bool_decide_eq_false_2 by congruence.
Qed.

Lemma components_names p : Forall (λ w, contains_char "/" w = false) (components p).
Proof.
  apply Forall_app. split; [|by case_match; repeat constructor].
  apply Forall_forall. intros w [_ Hw]%list_elem_of_filter.
  by eapply (proj1 (Forall_forall _ _) (split_names "/" p)).
Qed.

Lemma components_nonempty p r l0 : components p = (l0 ++ r)%list → "" ∉ removelast r.
Proof.
  assert ("" ∉ pieces p) as Hp by (by intros [? _]%list_elem_of_filter).
  intros Heq. destruct r as [|a r]; [apply not_elem_of_nil|].
  intros Hin. assert ("" ∈ removelast (components p)) as Hc.
  { rewrite Heq, removelast_app by done. apply elem_of_app. by right. }
  unfold components in Hc. destruct (ends_with_slash p).
  - by rewrite removelast_last in Hc.
  - rewrite app_nil_r in Hc. destruct (decide (pieces p = [])) as [Hnil|Hnil].
    + rewrite Hnil in Hc. by apply elem_of_nil in Hc.
    + rewrite (app_removelast_last "" Hnil) in Hp. set_solver.
Qed.

Lemma after_last_slash h :
  (ends_with_slash h = true → rstrip_slash h = "") →
  after_last "ns3" (components h) = after_last "ns3" (pieces h).
Proof.
  unfold components. intros Hh. destruct (ends_with_slash h); [|by rewrite app_nil_r].
  by rewrite pieces_slashes by auto.
Qed.

Lemma relative_loop_slashes fuel head l :
  head ≠ "" → rstrip_slash head = "" → relative_loop fuel head l = Raise Diverges.
Proof.
  intros Hh Hr. revert l. induction fuel as [|fuel IH]; intros l; [done|].
  cbn [relative_loop]. rewrite decide_False by done.
  rewrite path_split_slashes by done. cbn beta iota. by rewrite IH.
Qed.

Lemma relative_loop_spec fuel head l :
  (String.length head < fuel)%nat →
  relative_loop fuel head l =
  match after_last "ns3" (components head) with
  | Some r => os_path_join (r ++ l)
  | None => Raise (if startswith "/" head then Diverges else AssertionError)
  end.
Proof.
  revert head l. induction fuel as [|fuel IH]; intros head l Hlen; [lia|].
  destruct (decide (head = "")) as [->|Hne]; [done|].
  destruct (decide (rstrip_slash head = "")) as [Hr|Hr].
  { rewrite relative_loop_slashes by done. unfold components.
    rewrite (pieces_slashes head), slashes_absolute by done.
    by destruct (ends_with_slash head). }
  cbn [relative_loop]. rewrite decide_False by done.
  destruct (path_split head) as [h t] eqn:E.
  destruct (path_split_spec _ _ _ Hne E) as (Ht & Hp & He & Hs & Hn & Hl & Hh).
  assert (components head = pieces h ++ [t])%list as ->.
  { unfold components. rewrite Hp, He, (pieces_name t) by done.
    destruct (decide (t = "")) as [->|Hd]; [by rewrite app_nil_r|].
    case_bool_decide; [done|]. by rewrite app_nil_r. }
  rewrite after_last_snoc. cbn beta iota. destruct (decide (t = "ns3")) as [Hns3|Hns3]; [done|].
  assert (String.length h < fuel)%nat as Hf by (destruct Hl as [[_ Hl]|Hl]; [done|lia]).
  rewrite IH, after_last_slash by done.
  destruct (after_last "ns3" (pieces h)) as [r|];
    cbn [fmap option_fmap option_map]; [by rewrite <- app_assoc|].
  destruct (decide (h = "")) as [->|Hh']; [|by rewrite Hs].
  rewrite Hn by done. destruct t as [|c t]; [done|].
  cbn [contains_char] in Ht. apply orb_false_iff in Ht as [Ht _].
  cbn [startswith]. by rewrite Ht.
Qed.

Lemma relative_path_eq path fuel :
  (String.length path < fuel)%nat → relative_loop fuel path [] = relative_path path.
Proof.
  intros Hf. rewrite relative_loop_spec by done. unfold relative_path.
  destruct (after_last "ns3" (components path)) as [r|] eqn:E; [|done].
  apply after_last_suffix in E as [l0 E]. rewrite app_nil_r.
  destruct (decide (r = [])) as [->|Hr]; [done|].
  pose proof (components_names path) as Hn. rewrite E in Hn.
  apply Forall_app in Hn as [_ [_ Hn]%Forall_cons].
  rewrite os_path_join_pieces; [by destruct r|done..|].
  apply (components_nonempty path r (l0 ++ ["ns3"])). by rewrite <- app_assoc.
Qed.

(** the path of a header in the tree is what follows the last component
    [ns3] of its path, whatever slashes are doubled or trailing.  A path that
    ends with [ns3] is a [TypeError], a relative path without that component
    an [AssertionError], and an absolute one makes the loop run for ever,
    since [os.path.split] leaves the root as it is; no number of turns beyond
    the length of the path makes a difference. *)
Theorem relative_path_spec path n :
  get_ns3_relative_path path = relative_path path ∧
  relative_loop (S (String.length path) + n) path [] = relative_path path.
Proof. split; apply relative_path_eq; lia. Qed.

(** ** The annotations *)

(** The table is well formed when [params] always holds a dictionary. *)
Definition table_ok (tab : gmap string annotations) : Prop :=
  map_Forall (λ _ e, match e !! "params" with
                     | Some (Params _) | None => True
                     | _ => False
                     end) tab.

#[export] Instance table_ok_dec tab : Decision (table_ok tab).
Proof.
  apply map_Forall_dec. intros ? e. destruct (e !! "params") as [[]|]; apply _.
Defined.

(** The definitions that the hook looks up in the table as functions. *)
Definition reaches_table (d : definition) : bool :=
  is_callable d && negb (bool_decide (cls d = FreeFunction ∧ name d = "PeekPointer")).

Definition table_params (tab : gmap string annotations) (x : string) : params :=
  match tab !! x ≫= (.!! "params") with Some (Params p) => p | _ => ∅ end.

(** The table after the functions of [seen] were scanned. *)
Definition scanned (seen : gset string) (tab tab' : gmap string annotations) : Prop :=
  ∀ x, tab' !! x = (if decide (x ∈ seen) then delete "params" else id) <$> tab !! x.

Section annotate.
Context (template_args : string → list string) (tab : gmap string annotations).
Context (Htab : table_ok tab).
Implicit Types (seen : gset string) (tab : gmap string annotations) (d : definition).

Lemma scanned_lookup seen tab' x :
  scanned seen tab tab' →
  delete "params" <$> tab' !! x = delete "params" <$> tab !! x.
Proof.
  intros Hs. rewrite Hs. destruct (tab !! x) as [e|]; [|done]. cbn [fmap option_fmap option_map].
  case_decide; [by rewrite delete_delete_eq|done].
Qed.

(** A table driven update, in the original table and in a scanned one. *)
Lemma table_driven_step seen tab' d ga ga' dv :
  scanned seen tab tab' → delete "params" ga' = delete "params" ga →
  ∃ h h0, table_driven d (Hooked tab' ga' ∅ dv) = Ok h ∧
    table_driven d (Hooked tab ga ∅ dv) = Ok h0 ∧
    delete "params" (global_annotations h) = delete "params" (global_annotations h0) ∧
    defaults h = dv ∧ defaults h0 = dv ∧
    parameter_annotations h = (if decide (text d ∈ seen) then ∅ else table_params tab (text d)) ∧
    scanned ({[text d]} ∪ seen) tab (table h).
Proof.
  intros Hs Hga. unfold table_driven, table_params. cbn [table global_annotations defaults parameter_annotations].
  pose proof (Hs (text d)) as Hd. rewrite Hd.
  destruct (tab !! text d) as [e|] eqn:E; cbn [fmap option_fmap option_map mbind option_bind].
  2: { eexists _, _. split_and!; [done..| |].
       - cbn. by case_decide.
       - intros x. cbn. rewrite Hs. destruct (decide (x = text d)) as [->|Hx].
         + by rewrite E.
         + by rewrite (decide_ext (x ∈ {[text d]} ∪ seen) (x ∈ seen)) by set_solver. }
  assert (∀ e', e' = delete "params" e →
            scanned ({[text d]} ∪ seen) tab (<[text d := e']> tab')) as Hscan.
  { intros e' -> x. destruct (decide (x = text d)) as [->|Hx].
    - rewrite lookup_insert_eq, E, decide_True by set_solver. done.
    - rewrite lookup_insert_ne by done. rewrite Hs.
      by rewrite (decide_ext (x ∈ {[text d]} ∪ seen) (x ∈ seen)) by set_solver. }
  pose proof (Htab _ _ E) as He. cbn beta in He.
  assert (∀ e1 e2, delete "params" e1 = delete "params" e2 →
    delete "params" (update ga' e1) = delete "params" (update ga e2)) as Hup.
  { intros e1 e2 H12. unfold update. by rewrite !delete_union, H12, Hga. }
  case_decide as Hin; cbn [id].
  - rewrite lookup_delete_eq. cbn [mbind].
    destruct (e !! "params") as [[| | |p]|] eqn:Ep; try done; cbn;
      eexists _, _; (split_and!; [done..| | | | |]); cbn; try done;
      (apply Hup; by rewrite ?delete_delete_eq) || by apply Hscan.
  - destruct (e !! "params") as [[| | |p]|] eqn:Ep; try done; cbn;
      eexists _, _; (split_and!; [done..| | | | |]); cbn; try done.
    + by apply Hup.
    + unfold update. by rewrite (right_id_L ∅ (∪)).
    + by apply Hscan.
    + by apply Hup.
    + apply Hscan. symmetry. by apply delete_id.
Qed.

(** The branch of the classes. *)
Lemma class_annotations_step seen tab' d ga :
  scanned seen tab tab' →
  ∃ ga1 ga2, class_annotations d tab' ga = ((class_annotations d tab ga).1, ga1) ∧
    (class_annotations d tab ga).2 = ga2 ∧ delete "params" ga1 = delete "params" ga2.
Proof.
  intros Hs. unfold class_annotations.
  destruct (startswith "::ns3::SimpleRefCount<" (decl_string d)),
    (startswith "::ns3::Callback<" (decl_string d)),
    (startswith "::ns3::TracedCallback<" (decl_string d)),
    (startswith "::ns3::Ptr<" (decl_string d));
    try (eexists _, _; split; [|split]; reflexivity).
  rewrite Hs. destruct (tab !! decl_string d) as [e|]; cbn [fmap option_fmap option_map];
    eexists _, _; (split; [reflexivity|split; [reflexivity|]]); [|reflexivity].
  cbn [snd]. unfold update. rewrite !delete_union.
  destruct (decide (decl_string d ∈ seen)); [|reflexivity]. by rewrite delete_delete_eq.
Qed.

Definition fresh seen d : Prop := reaches_table d = true ∧ text d ∉ seen.

#[local] Instance fresh_dec seen d : Decision (fresh seen d).
Proof. unfold fresh. apply _. Defined.

Lemma unreached_step seen tab' d ga ga0 dv :
  reaches_table d = false → scanned seen tab tab' →
  delete "params" ga = delete "params" ga0 →
  let h := Hooked tab' ga ∅ dv in
  let h0 := Hooked tab ga0 ∅ dv in
  Ok h = Ok (E := exn) h ∧ Ok h0 = Ok (E := exn) h0 ∧
  delete "params" (global_annotations h) = delete "params" (global_annotations h0) ∧
  defaults h = defaults h0 ∧
  parameter_annotations h = (if decide (fresh seen d) then table_params tab (text d) else ∅) ∧
  scanned ((if reaches_table d then {[text d]} else ∅) ∪ seen) tab (table h).
Proof.
  intros Hr Hs Hga h h0. rewrite Hr, (left_id_L ∅ (∪)).
  rewrite decide_False; [|intros [? _]; congruence]. by split_and!.
Qed.

Lemma hook_step seen tab' d r :
  scanned seen tab tab' → get_ns3_relative_path (file_name d) = Ok r →
  ∃ h h0, pre_scan_hook template_args tab' d ∅ ∅ = Ok h ∧
    pre_scan_hook template_args tab d ∅ ∅ = Ok h0 ∧
    delete "params" (global_annotations h) = delete "params" (global_annotations h0) ∧
    defaults h = defaults h0 ∧
    parameter_annotations h = (if decide (fresh seen d) then table_params tab (text d) else ∅) ∧
    scanned ((if reaches_table d then {[text d]} else ∅) ∪ seen) tab (table h).
Proof.
  intros Hs Hr. unfold pre_scan_hook. rewrite Hr. cbn [mbind result_bind].
  set (ga := member_annotations _ _ _ _). set (dv := if is_calldef d then _ else _).
  destruct (decide (cls d = ClassDecl)) as [Hc|Hc].
  - destruct (class_annotations_step seen tab' d ga Hs) as (ga1 & ga2 & -> & <- & Hga).
    destruct (class_annotations d tab ga) as [b ga2]. cbn [fst snd] in *.
    assert (reaches_table d = false) as Hreach
      by (unfold reaches_table, is_callable; by rewrite Hc).
    rewrite !(decide_False (P := cls d = FreeFunction ∧ name d = _))
      by (rewrite Hc; naive_solver).
    replace (is_callable d) with false by (unfold is_callable; by rewrite Hc).
    destruct b; eexists _, _; by apply (unreached_step seen tab' d ga1 ga2 dv).
  - case_decide as Hp.
    + assert (reaches_table d = false) as Hreach.
      { unfold reaches_table. rewrite (bool_decide_eq_true_2 (_ ∧ _)) by done.
        apply andb_false_r. }
      eexists _, _. by apply (unreached_step seen tab' d (<["ignore" := Nothing]> ga) _ dv).
    + assert (reaches_table d = is_callable d) as Hreach.
      { unfold reaches_table. rewrite (bool_decide_eq_false_2 (_ ∧ _)) by done.
        apply andb_true_r. }
      destruct (is_callable d); [|eexists _, _; by apply (unreached_step seen tab' d ga ga dv)].
      destruct (table_driven_step seen tab' d ga ga dv Hs eq_refl)
        as (h & h0 & -> & -> & Hga & Hdv & Hdv0 & Hpa & Hsc).
      exists h, h0. rewrite Hreach. split_and!; [done..|congruence| |done].
      rewrite Hpa. destruct (decide (text d ∈ seen)).
      * by rewrite decide_False by (by intros [_ ?]).
      * by rewrite decide_True by (by split).
Qed.

(** [d] is the first of the definitions that looks up its entry. *)
Definition first_lookup (ds : list definition) (i : nat) (d : definition) : Prop :=
  reaches_table d = true ∧
  ∀ j d', j < i → ds !! j = Some d' → reaches_table d' = true → text d' ≠ text d.
End annotate.

(** The texts of the definitions that look up their entry. *)
Definition looked_up (ds : list definition) : gset string :=
  list_to_set (text <$> filter (λ d, reaches_table d = true) ds).

Lemma looked_up_cons d ds :
  looked_up (d :: ds) = (if reaches_table d then {[text d]} else ∅) ∪ looked_up ds.
Proof.
  unfold looked_up. rewrite filter_cons.
  destruct (reaches_table d); [by rewrite decide_True|].
  rewrite decide_False by done. by rewrite (left_id_L ∅ (∪)).
Qed.

Lemma scan_definitions_from template_args tab seen tab' ds :
  table_ok tab → scanned seen tab tab' →
  Forall (λ d, is_ok (get_ns3_relative_path (file_name d)) = true) ds →
  ∃ hs tab'', scan_definitions template_args tab' ds = Ok (hs, tab'') ∧
    scanned (looked_up ds ∪ seen) tab tab'' ∧ length hs = length ds ∧
    ∀ i d h, ds !! i = Some d → hs !! i = Some h →
      ∃ h0, pre_scan_hook template_args tab d ∅ ∅ = Ok h0 ∧
        delete "params" (global_annotations h) = delete "params" (global_annotations h0) ∧
        defaults h = defaults h0 ∧
        parameter_annotations h =
          (if decide (reaches_table d = true ∧ text d ∉ looked_up (take i ds) ∪ seen)
           then table_params tab (text d) else ∅).
Proof.
  intros Htab Hs Hds. revert seen tab' Hs.
  induction Hds as [|d ds Hd Hds IH]; intros seen tab' Hs.
  { exists [], tab'. split_and!; [done| |done|done].
    replace (looked_up [] ∪ seen) with seen by set_solver. done. }
  destruct (get_ns3_relative_path (file_name d)) as [r|] eqn:Hr; [|done].
  destruct (hook_step template_args tab Htab seen tab' d r Hs Hr)
    as (h & h0 & Hh & Hh0 & Hga & Hdv & Hpa & Hsc).
  destruct (IH _ _ Hsc) as (hs & tab'' & Hscan & Hsc' & Hlen & Hall).
  exists (h :: hs), tab''. cbn [scan_definitions]. rewrite Hh. cbn [mbind result_bind].
  rewrite Hscan. cbn [mbind result_bind length]. split_and!; [done| |by rewrite Hlen|].
  { rewrite looked_up_cons.
    replace ((if reaches_table d then {[text d]} else ∅) ∪ looked_up ds ∪ seen)
      with (looked_up ds ∪ ((if reaches_table d then {[text d]} else ∅) ∪ seen)); [done|].
    clear. set_solver. }
  intros [|i] d' h' Hi Hi'; cbn in Hi, Hi'.
  - injection Hi as <-. injection Hi' as <-. exists h0. split_and!; [done..|].
    rewrite Hpa. apply decide_ext. cbn [take]. unfold fresh, looked_up. set_solver.
  - destruct (Hall i d' h' Hi Hi') as (h0' & ? & ? & ? & Hp). exists h0'.
    split_and!; [done..|]. rewrite Hp. cbn [take]. rewrite looked_up_cons.
    apply decide_ext. clear. set_solver.
Qed.

(** C30: the hook moves the entry [params] out of the table of special cases
    into the annotations of the parameters and deletes it there.  So over a
    scan of any definitions in the tree, every definition gets the annotations
    it would get on its own, but those of its parameters only if no definition
    with the same text was scanned before; in the end the table has lost
    exactly the [params] of the definitions scanned. *)
Theorem params_once template_args tab ds :
  table_ok tab →
  Forall (λ d, is_ok (get_ns3_relative_path (file_name d)) = true) ds →
  ∃ hs tab', scan_definitions template_args tab ds = Ok (hs, tab') ∧
    length hs = length ds ∧
    (∀ x, tab' !! x = (if decide (x ∈ looked_up ds) then delete "params" else id) <$> tab !! x) ∧
    ∀ i d h, ds !! i = Some d → hs !! i = Some h →
      ∃ h0, pre_scan_hook template_args tab d ∅ ∅ = Ok h0 ∧
        delete "params" (global_annotations h) = delete "params" (global_annotations h0) ∧
        defaults h = defaults h0 ∧
        parameter_annotations h =
          (if decide (reaches_table d = true ∧ text d ∉ looked_up (take i ds))
           then table_params tab (text d) else ∅).
Proof.
  intros Htab Hds.
  destruct (scan_definitions_from template_args tab ∅ tab ds) as (hs & tab' & Hs & Hsc & Hl & Hall);
    [done| |done|].
  { intros x. rewrite decide_False by set_solver. by destruct (tab !! x). }
  exists hs, tab'. split_and!; [done..| |].
  - intros x. rewrite Hsc. f_equal. apply decide_ext. set_solver.
  - intros i d h Hd Hh. destruct (Hall i d h Hd Hh) as (h0 & ? & ? & ? & Hp).
    exists h0. split_and!; [done..|]. rewrite Hp. apply decide_ext. set_solver.
Qed.

(** ** The sections *)

(** [m] declares a dependency on [dep]. *)
Definition depends (ns3_modules : modules) (dep m : string) : Prop :=
  match ns3_modules !! m with Some (deps, _) => dep ∈ deps | None => False end.

Definition headers_of (ns3_modules : modules) (m : string) : list string :=
  default [] (snd <$> ns3_modules !! m).

Section sections.
Context {ord : DictOrder string} `{!@DictOrderOk string _ _ ord}.
Implicit Types (ns3_modules : modules) (m dep h s : string) (ms : list string).

Lemma elem_of_module_graph ns3_modules dep m :
  edge (module_graph ns3_modules) dep m ↔ depends ns3_modules dep m.
Proof.
  unfold edge, module_graph, depends. rewrite list_elem_of_join. split.
  - intros (l & Hin & (m' & -> & _)%list_elem_of_fmap). unfold module_pairs in Hin.
    destruct (ns3_modules !! m') as [[deps hs]|] eqn:E; [|by apply elem_of_nil in Hin].
    apply list_elem_of_fmap in Hin as (dep' & [= <- ->] & Hdep).
    rewrite E. by rewrite merge_sort_Permutation in Hdep.
  - destruct (ns3_modules !! m) as [[deps hs]|] eqn:E; [|done]. intros Hdep.
    exists (module_pairs ns3_modules m). split.
    + unfold module_pairs. rewrite E. apply list_elem_of_fmap. exists dep.
      by rewrite merge_sort_Permutation.
    + apply list_elem_of_fmap. exists m. split; [done|].
      rewrite merge_sort_Permutation. apply elem_of_dict_keys. by eexists.
Qed.

(** The graph does not depend on the order in which the keys are listed. *)
Lemma module_graph_order (ord' : DictOrder string) `{!@DictOrderOk string _ _ ord'} ns3_modules :
  @module_graph ord ns3_modules = @module_graph ord' ns3_modules.
Proof.
  unfold module_graph. f_equal. f_equal.
  apply (StronglySorted_unique String.le); [apply (StronglySorted_merge_sort String.le)..|].
  rewrite !merge_sort_Permutation, (@dict_keys_perm _ _ _ ord), (@dict_keys_perm _ _ _ ord');
    done.
Qed.

Lemma insert_all_lookup {V} (v : V) (hs : list string) (hm : gmap string V) h :
  foldl (λ d header, <[header := v]> d) hm hs !! h =
  if decide (h ∈ hs) then Some v else hm !! h.
Proof.
  revert hm. induction hs as [|x hs IH]; intros hm; cbn [foldl].
  { by rewrite decide_False by apply not_elem_of_nil. }
  rewrite IH. destruct (decide (h ∈ hs)) as [Hin|Hin].
  - by rewrite decide_True by by right.
  - destruct (decide (h = x)) as [->|Hx].
    + by rewrite lookup_insert_eq, decide_True by left.
    + rewrite lookup_insert_ne by done. by rewrite decide_False by set_solver.
Qed.

(** The layout after the sections of [ms], in that order. *)
Record laid_out (f : string) ns3_modules ms (l : layout) : Prop := {
  out_sections : sections l = PygenSection "__main__" f None ::
    ((λ m, PygenSection (section_of m)
             (path_join (path_split f).1 (section_of m +:+ ".py"))
             (Some (section_of m +:+ "__local"))) <$> ms);
  out_headers : ∀ h s, headers_map l !! h = Some s →
    ∃ m, m ∈ ms ∧ h ∈ headers_of ns3_modules m ∧ s = section_of m;
  out_owned : ∀ h m, m ∈ ms → h ∈ headers_of ns3_modules m → is_Some (headers_map l !! h);
  out_precedence : ∀ (i : nat) m, ms !! i = Some m →
    (∀ m', m' ∈ ms → section_of m' = section_of m → m' = m) →
    section_precendences l !! section_of m = Some (Z.of_nat i) }.

Lemma enumerate_snoc {A} (l : list A) x :
  enumerate (l ++ [x])%list = (enumerate l ++ [(Z.of_nat (length l), x)])%list.
Proof. unfold enumerate. rewrite imap_app. cbn. by rewrite Nat.add_0_r. Qed.

Lemma add_section_step f ns3_modules ms l m :
  laid_out f ns3_modules ms l → is_Some (ns3_modules !! m) → m ∉ ms →
  ∃ l', add_section f ns3_modules l (Z.of_nat (length ms), m) = Ok l' ∧
    laid_out f ns3_modules (ms ++ [m]) l'.
Proof.
  intros [Hsec Hhead Hown Hprec] [[deps hs] Hm] Hnew.
  assert (headers_of ns3_modules m = hs) as Hhs by (unfold headers_of; by rewrite Hm).
  unfold add_section, dict_get. rewrite Hm. cbn [of_option mbind result_bind].
  eexists. split; [done|]. split; cbn [sections headers_map section_precendences].
  - by rewrite Hsec, fmap_app.
  - intros h s. rewrite insert_all_lookup. case_decide as Hin.
    + intros [= <-]. exists m. rewrite Hhs. set_solver.
    + intros (m' & ? & ?)%Hhead. exists m'. set_solver.
  - intros h m' [Hin|Hin%list_elem_of_singleton]%elem_of_app Hh; rewrite insert_all_lookup.
    + case_decide; [done|by eapply Hown].
    + subst m'. by rewrite decide_True by by rewrite <- Hhs.
  - intros i m' Hi Huniq. destruct (decide (section_of m' = section_of m)) as [Heq|Hne].
    + assert (m = m') as <- by (apply Huniq; [set_solver|done]).
      rewrite lookup_insert_eq. apply lookup_snoc_Some in Hi as [[_ Hi]|[-> _]]; [|done].
      by apply list_elem_of_lookup_2 in Hi.
    + rewrite lookup_insert_ne by done.
      apply lookup_snoc_Some in Hi as [[? Hi]|[_ <-]]; [|done].
      apply Hprec; [done|]. intros m'' Hin. apply Huniq. set_solver.
Qed.

Lemma add_sections f ns3_modules ms l0 :
  laid_out f ns3_modules [] l0 → NoDup ms → (∀ m, m ∈ ms → is_Some (ns3_modules !! m)) →
  ∃ l, fold_res (add_section f ns3_modules) l0 (enumerate ms) = Ok l ∧
    laid_out f ns3_modules ms l.
Proof.
  intros H0. induction ms as [|m ms IH] using rev_ind; intros Hnd Hk; [by exists l0|].
  apply NoDup_app in Hnd as (Hnd & Hm & _).
  destruct IH as (l & Hl & Hout); [done|intros; apply Hk; set_solver|].
  destruct (add_section_step f ns3_modules ms l m Hout) as (l' & Hl' & Hout');
    [apply Hk; set_solver|intros Hin; apply (Hm m Hin); by left|].
  exists l'. split; [|done]. rewrite enumerate_snoc, fold_res_app, Hl. cbn [mbind result_bind fold_res].
  by rewrite Hl'.
Qed.

Lemma laid_out_start f ns3_modules :
  laid_out f ns3_modules [] (Layout [PygenSection "__main__" f None] ∅ ∅).
Proof. split; cbn; [done|set_solver..|done]. Qed.

Lemma section_of_main m : section_of m ≠ "__main__".
Proof. done. Qed.

(** Where the classifier puts the headers of a module. *)
Lemma classify_owner f ns3_modules ms l m p :
  laid_out f ns3_modules ms l → m ∈ ms → basename p ∈ headers_of ns3_modules m →
  (∀ m', m' ∈ ms → basename p ∈ headers_of ns3_modules m' → m' = m) →
  classify l p = section_of m.
Proof.
  intros Hout Hm Hp Huniq. unfold classify.
  destruct (out_owned _ _ _ _ Hout _ _ Hm Hp) as [s Hs]. rewrite Hs. cbn.
  destruct (out_headers _ _ _ _ Hout _ _ Hs) as (m' & Hm' & Hh & ->).
  by rewrite (Huniq m').
Qed.

(** Every dependency is a module, module names stay apart when their dashes
    become underscores, and no two modules have a header of the same name. *)
Record modules_ok ns3_modules : Prop := {
  ok_deps : ∀ dep m, depends ns3_modules dep m → is_Some (ns3_modules !! dep);
  ok_names : ∀ m m', is_Some (ns3_modules !! m) → is_Some (ns3_modules !! m') →
    section_of m = section_of m' → m = m';
  ok_headers : ∀ h m m', h ∈ headers_of ns3_modules m → h ∈ headers_of ns3_modules m' → m = m' }.

(** A module that depends on another, or on which another depends. *)
Definition connected ns3_modules m : Prop :=
  ∃ m', depends ns3_modules m m' ∨ depends ns3_modules m' m.

Lemma nodes_connected ns3_modules m :
  m ∈ nodes (module_graph ns3_modules) ↔ connected ns3_modules m.
Proof.
  unfold nodes, connected. rewrite elem_of_list_to_set, elem_of_app, !list_elem_of_fmap.
  setoid_rewrite <- elem_of_module_graph. unfold edge. split.
  - intros [([a b] & -> & Hin)|([a b] & -> & Hin)]; eexists; eauto.
  - intros [m' [Hin|Hin]]; [left|right]; by eexists (_, _).
Qed.

Lemma connected_module ns3_modules m :
  modules_ok ns3_modules → connected ns3_modules m → is_Some (ns3_modules !! m).
Proof.
  intros Hok [m' [Hd|Hd]]; [by eapply ok_deps|].
  unfold depends in Hd. by destruct (ns3_modules !! m).
Qed.

Lemma section_precedence f ns3_modules ms l (i : nat) m :
  modules_ok ns3_modules → laid_out f ns3_modules ms l → NoDup ms →
  (∀ m, m ∈ ms → is_Some (ns3_modules !! m)) → ms !! i = Some m →
  get_section_precedence l (section_of m) = Ok (Z.of_nat i).
Proof.
  intros Hok Hout Hnd Hk Hi. unfold get_section_precedence.
  rewrite decide_False by done. unfold dict_get. erewrite out_precedence; [done..|].
  intros m' Hm' Hs. apply list_elem_of_lookup_2 in Hi.
  eapply ok_names; [done|by apply Hk..|done].
Qed.

(** C29: for modules whose dependencies are declared, whose names do not collide
    and that share no header, the sections are laid out exactly when the
    dependencies have no cycle, and otherwise [CycleError] is raised.  Then
    every connected module has a section, its headers are classified there,
    and a header of a dependency has a lower precedence than those of its
    dependents, so that what is generated for it comes first; the headers of a
    module without any dependency or dependent go to the section [__main__]
    with the lowest precedence of all. *)
Theorem sections_follow_dependencies f ns3_modules :
  modules_ok ns3_modules →
  (∃ l, make_sections f ns3_modules = Ok l ∧
     ¬ (∃ m, tc (depends ns3_modules) m m) ∧
     (∀ m p, connected ns3_modules m → basename p ∈ headers_of ns3_modules m →
        classify l p = section_of m) ∧
     (∀ dep m p q, depends ns3_modules dep m →
        basename p ∈ headers_of ns3_modules dep → basename q ∈ headers_of ns3_modules m →
        ∃ i j, get_section_precedence l (classify l p) = Ok i ∧
          get_section_precedence l (classify l q) = Ok j ∧ (-1 < i < j)%Z) ∧
     (∀ m p, ¬ connected ns3_modules m → basename p ∈ headers_of ns3_modules m →
        classify l p = "__main__" ∧ get_section_precedence l (classify l p) = Ok (-1)%Z)) ∨
  (∃ answer np ch, make_sections f ns3_modules = Raise (CycleError answer np ch) ∧
     ∃ m, tc (depends ns3_modules) m m).
Proof.
  intros Hok. unfold make_sections.
  assert (∀ m, tc (edge (module_graph ns3_modules)) m m ↔ tc (depends ns3_modules) m m) as Htc.
  { intros m. split; apply (tc_congruence id); intros ??; apply elem_of_module_graph. }
  destruct (topsort_run (module_graph ns3_modules))
    as (answer & rem & live & st & HK & Hr & Hstuck & ->).
  case_bool_decide as Hl; [left|right].
  2: { do 3 eexists. split; [done|]. destruct (kahn_stuck _ _ _ _ HK Hstuck Hl) as [m Hm].
       exists m. by apply Htc. }
  pose proof (kahn_complete _ _ _ _ HK Hl) as Hall.
  destruct HK as [Hnd Hord _ Hnodes _ _ _].
  assert (∀ m, m ∈ answer → is_Some (ns3_modules !! m)) as Hk.
  { intros m Hm. by apply connected_module, nodes_connected, Hnodes. }
  destruct (add_sections f ns3_modules answer _ (laid_out_start f ns3_modules) Hnd Hk)
    as (l & Hfold & Hout).
  exists l. cbn [mbind result_bind]. rewrite Hfold. split; [done|].
  assert (∀ m p, connected ns3_modules m → basename p ∈ headers_of ns3_modules m →
            classify l p = section_of m) as Hclass.
  { intros m p Hm Hp. eapply classify_owner; [done|by apply Hall, nodes_connected|done|].
    intros m' _ Hp'. by eapply ok_headers. }
  split_and!; [|done| |].
  - intros [m Hm%Htc]. by apply (ordered_acyclic _ _ Hnd Hord Hall); exists m.
  - intros dep m p q Hd Hp Hq.
    rewrite (Hclass dep p), (Hclass m q) by (done || (eexists; eauto)).
    destruct (ordered_before _ _ dep m Hnd Hord) as (i & j & Hij & Hi & Hj).
    { apply Hall, nodes_connected. eexists; eauto. }
    { apply tc_once. by apply elem_of_module_graph. }
    exists (Z.of_nat i), (Z.of_nat j).
    split_and!; [by eapply section_precedence..|lia|lia].
  - intros m p Hm Hp. enough (classify l p = "__main__") as -> by done.
    unfold classify. destruct (headers_map l !! basename p) as [s|] eqn:E; [|done].
    destruct (out_headers _ _ _ _ Hout _ _ E) as (m' & Hm' & Hh & ->).
    destruct Hm. rewrite (ok_headers _ Hok _ _ _ Hp Hh). by apply nodes_connected, Hnodes.
Qed.
End sections.

(** ** Examples and instances *)

Example relative_path_example :
  get_ns3_relative_path "/home/ns3/build/debug/ns3//core/ptr.h" = Ok "core/ptr.h" ∧
  get_ns3_relative_path "build/ns3/" = Ok "" ∧
  get_ns3_relative_path "build/ns3" = Raise TypeError ∧
  get_ns3_relative_path "core/ptr.h" = Raise AssertionError ∧
  get_ns3_relative_path "/usr/include/stdio.h" = Raise Diverges.
Proof. by vm_compute. Qed.

Definition get_seed : definition :=
  Definition_ MemberFunction "/b/ns3/random-variable.h"
    "void ns3::RandomVariable::GetSeed(uint32_t * seed) const [member function]"
    "RandomVariable" "GetSeed" "" "" [Some "ns3::Seconds( )"; None].

Definition get_seed_params : params :=
  {["seed" := {["direction" := "out"; "array_length" := "6"]}]}.

(** The table of the program is well formed, and the second scan of the same
    function finds no parameters. *)
Lemma params_once_witness :
  let run := scan_definitions (λ _, []) type_annotations [get_seed; get_seed] in
  table_ok type_annotations ∧
  (λ r, map parameter_annotations r.1) <$> run = Ok [get_seed_params; ∅] ∧
  (λ r, map defaults r.1) <$> run = Ok (replicate 2 [Some "ns3::Seconds(0)"; None]) ∧
  ∃ hs tab', run = Ok (hs, tab') ∧ length hs = 2 ∧
    (∀ x, tab' !! x = (if decide (x ∈ looked_up [get_seed; get_seed]) then delete "params" else id)
                        <$> type_annotations !! x) ∧
    ∀ i d h, [get_seed; get_seed] !! i = Some d → hs !! i = Some h →
      ∃ h0, pre_scan_hook (λ _, []) type_annotations d ∅ ∅ = Ok h0 ∧
        delete "params" (global_annotations h) = delete "params" (global_annotations h0) ∧
        defaults h = defaults h0 ∧
        parameter_annotations h =
          (if decide (reaches_table d = true ∧ text d ∉ looked_up (take i [get_seed; get_seed]))
           then table_params type_annotations (text d) else ∅).
Proof.
  intros run. assert (table_ok type_annotations) as Htab by (by apply (bool_decide_unpack _); vm_compute).
  split; [exact Htab|split; [|split]].
  - vm_compute. reflexivity.
  - vm_compute. reflexivity.
  - apply (params_once (λ _, []) type_annotations [get_seed; get_seed]); [exact Htab|].
    repeat constructor.
Defined.

Definition sample_modules : modules :=
  {["core" := ([], ["object.h"]); "network" := (["core"], ["node.h"; "packet.h"]);
    "point-to-point" := (["network"; "core"], ["p2p.h"]); "tools" := ([], ["gnuplot.h"])]}.

Lemma sample_modules_ok : modules_ok sample_modules.
Proof.
  assert (∀ m e, sample_modules !! m = Some e →
    (m, e) ∈ [("core", ([], ["object.h"])); ("network", (["core"], ["node.h"; "packet.h"]));
              ("point-to-point", (["network"; "core"], ["p2p.h"])); ("tools", ([], ["gnuplot.h"]))]).
  { intros m e. rewrite <- elem_of_map_to_list. vm_compute map_to_list. set_solver. }
  split.
  - intros dep m Hd. unfold depends in Hd. destruct (sample_modules !! m) as [[deps hs]|] eqn:E; [|done].
    apply H in E. set_unfold. destruct_or!; simplify_eq; set_solver.
  - intros m m' [e He] [e' He'] Hs. apply H in He, He'. set_unfold. destruct_or!; by simplify_eq.
  - intros h m m' Hm Hm'. unfold headers_of in *.
    destruct (sample_modules !! m) as [e|] eqn:E; [|by apply elem_of_nil in Hm].
    destruct (sample_modules !! m') as [e'|] eqn:E'; [|by apply elem_of_nil in Hm'].
    apply H in E, E'. cbn in *. set_unfold. destruct_or!; simplify_eq; set_solver.
Qed.

(** The module [tools] has no dependency: its header has no section of its own. *)
Lemma sections_follow_dependencies_witness :
  let o := @tree_order string _ _ in
  modules_ok sample_modules ∧
  (λ l, (map section_name (sections l), classify l "/b/ns3/gnuplot.h",
         section_precendences l !! "ns3_module_point_to_point")) <$>
    make_sections "out/ns3modulegen.py" sample_modules =
    Ok (["__main__"; "ns3_module_core"; "ns3_module_network"; "ns3_module_point_to_point"],
        "__main__", Some 2%Z) ∧
  ((∃ l, make_sections "out/ns3modulegen.py" sample_modules = Ok l ∧
     ¬ (∃ m, tc (depends sample_modules) m m) ∧
     (∀ m p, connected sample_modules m → basename p ∈ headers_of sample_modules m →
        classify l p = section_of m) ∧
     (∀ dep m p q, depends sample_modules dep m →
        basename p ∈ headers_of sample_modules dep → basename q ∈ headers_of sample_modules m →
        ∃ i j, get_section_precedence l (classify l p) = Ok i ∧
          get_section_precedence l (classify l q) = Ok j ∧ (-1 < i < j)%Z) ∧
     (∀ m p, ¬ connected sample_modules m → basename p ∈ headers_of sample_modules m →
        classify l p = "__main__" ∧ get_section_precedence l (classify l p) = Ok (-1)%Z)) ∨
   (∃ answer np ch, make_sections "out/ns3modulegen.py" sample_modules =
       Raise (CycleError answer np ch) ∧ ∃ m, tc (depends sample_modules) m m)).
Proof.
  intros o. split; [exact sample_modules_ok|split; [vm_compute; reflexivity|]].
  exact (@sections_follow_dependencies o tree_order_ok "out/ns3modulegen.py" sample_modules
           sample_modules_ok).
Defined.

(** A dependency that is not a module, and two names that collide: the headers
    of both are classified alike, and the precedence is that of the last. *)
Lemma missing_module_fails :
  @make_sections tree_order "out.py" {["wifi" := (["network"], [])]} = Raise (Py KeyError).
Proof. vm_compute. reflexivity. Qed.

Lemma colliding_names :
  (λ l, (map section_name (sections l), map_to_list (section_precendences l))) <$>
    @make_sections tree_order "out.py"
      {["csma-cd" := ([], ["a.h"]); "csma_cd" := (["csma-cd"], ["b.h"])]} =
  Ok (["__main__"; "ns3_module_csma_cd"; "ns3_module_csma_cd"],
      [("ns3_module_csma_cd", 1%Z)]).
Proof. vm_compute. reflexivity. Qed.
