(* ===== verification/ModularScan.v ===== *)
(** * [bindings/python/ns3modulescan-modular.py]: the hook of a scan of one module

    The modular scanner runs once per module.  Its hook shares the table of
    special cases with [ModuleScan], but it knows which module every header
    belongs to, and decides which definitions the module generates itself and
    which it imports from another one or ignores. *)

From S2P Require Import Prelude PyStr Topsort ModuleScan.
From Stdlib Require Import Ascii.

Local Open Scope string_scope.

(** ** [get_ns3_relative_path]: like the other, but it notices the root *)
Fixpoint relative_loop (fuel : nat) (head : string) (l : list string) : result exn string :=
  match fuel with
  | O => Raise Diverges
  | S fuel =>
      if decide (head = "") then Raise AssertionError
      else
        let '(new_head, tail) := path_split head in
        if decide (new_head = head) then Raise (ValueError "")
        else if decide (tail = "ns3") then os_path_join l
        else relative_loop fuel new_head (tail :: l)
  end.

Definition get_ns3_relative_path (path : string) : result exn string :=
  relative_loop (S (String.length path)) path [].

(** ** [PreScanHook]

    [templates.is_instantiation], the parameters [templates.split] finds, and
    [find_declaration_from_name], as the file of the declaration found if it
    has a location, are parameters; so is [repr]. *)
Section hook.
Context (template_args : string → list string).
Context (is_instantiation : string → bool) (template_parameters : string → list string).
Context (find_declaration_from_name : string → option string) (repr : string → string).
Context (headers_map : gmap string string) (module : string).

Definition header_module (ns3_header : string) : result exn string :=
  dict_get KeyError headers_map ns3_header.

(** The modules of the arguments of a template, in their order. *)
Definition add_module (acc : list string) (templ : option string) : result exn (list string) :=
  match templ with
  | None => Ok acc
  | Some file =>
      match get_ns3_relative_path file with
      | Raise (ValueError _) => Ok acc
      | Raise e => Raise e
      | Ok h => m ← header_module h; Ok (acc ++ [m])%list
      end
  end.

Definition template_parameters_modules (d : definition) : result exn (list string) :=
  if is_instantiation (decl_string d) then
    fold_res add_module [] (find_declaration_from_name <$> template_parameters (name d))
  else Ok [].

Definition module_of_class (d : definition) (definition_module : string) : result exn string :=
  mods ← template_parameters_modules d;
  Ok (if decide (module ∈ mods) then module else definition_module).

(** The comment and the members with special treatment. *)
Definition member_annotations (ns3_header definition_module : string) (d : definition)
    (ga : annotations) : annotations :=
  let ga := <["pygen_comment" := Text (ns3_header +:+ " (module " +:+ repr definition_module
                                       +:+ "): " +:+ text d)]> ga in
  let ga :=
    if is_member d && bool_decide (parent_name d = "Object") && bool_decide (name d = "GetObject")
    then if decide (template_args (demangled_name d) = ["ns3::Object"])
         then <["template_instance_names" := Text "ns3::Object=>GetObject"]> ga else ga
    else ga in
  let ga :=
    if is_member d && bool_decide (parent_name d = "Simulator") && startswith "Schedule" (name d)
    then <["ignore" := Nothing]> ga else ga in
  if is_member d && bool_decide (parent_name d = "Simulator") && bool_decide (name d = "Run")
  then <["ignore" := Yes]> ga else ga.

Definition fix_default (v : option string) : option string :=
  match v with
  | None => None
  | Some s =>
      if decide (s = "ns3::MilliSeconds( )") then Some "ns3::MilliSeconds(0)"
      else if decide (s = "ns3::Seconds( )") then Some "ns3::Seconds(0)"
      else Some s
  end.

(** The branch of the classes; the module of the definition may change, and
    [true] means that the hook returns there. *)
Definition class_branch (d : definition) (tab : gmap string annotations)
    (definition_module : string) (ga : annotations) : result exn (string * (bool * annotations)) :=
  definition_module ← module_of_class d definition_module;
  let ga :=
    if decide (definition_module = module) then ga
    else <["import_from_module" := Text ("ns." +:+ replace_char "-" "_" definition_module)]> ga in
  Ok (definition_module, class_annotations d tab ga).

(** From the enumerations on. *)
Definition function_branch (d : definition) (definition_module : string) (h : hooked) :
    result exn hooked :=
  let ga := global_annotations h in
  let ga :=
    if decide (cls d = Enumeration ∧ definition_module ≠ module)
    then <["import_from_module" := Text ("ns." +:+ definition_module)]> ga else ga in
  let h' ga := Hooked (table h) ga (parameter_annotations h) (defaults h) in
  if decide (cls d = FreeFunction ∧ definition_module ≠ module)
  then Ok (h' (<["ignore" := Nothing]> ga))
  else if decide (cls d = FreeFunction ∧ name d = "PeekPointer")
  then Ok (h' (<["ignore" := Nothing]> ga))
  else if is_callable d then table_driven d (h' ga)
  else Ok (h' ga).

Definition call (tab : gmap string annotations) (d : definition) (ga : annotations)
    (pa : params) : result exn hooked :=
  match get_ns3_relative_path (file_name d) with
  | Raise (ValueError _) => Ok (Hooked tab ga pa (default_values d))
  | Raise e => Raise e
  | Ok ns3_header =>
      definition_module ← header_module ns3_header;
      let ga := member_annotations ns3_header definition_module d ga in
      let dv := if is_calldef d then fix_default <$> default_values d else default_values d in
      '(definition_module, (returned, ga)) ←
        (if decide (cls d = ClassDecl) then class_branch d tab definition_module ga
         else Ok (definition_module, (false, ga)));
      if returned : bool then Ok (Hooked tab ga pa dv)
      else function_branch d definition_module (Hooked tab ga pa dv)
  end.
End hook.

(** ** Paths *)
Lemma relative_loop_agrees fuel head l :
  (String.length head < fuel)%nat →
  relative_loop fuel head l =
  match ModuleScan.relative_loop fuel head l with
  | Raise Diverges => Raise (ValueError "")
  | r => r
  end.
Proof.
  revert head l. induction fuel as [|fuel IH]; intros head l Hlen; [lia|].
  destruct (decide (head = "")) as [->|Hne]; [done|].
  destruct (decide (rstrip_slash head = "")) as [Hr|Hr].
  { rewrite relative_loop_slashes by done. cbn [relative_loop]. rewrite decide_False by done.
    rewrite path_split_slashes by done. cbn beta iota. by rewrite decide_True. }
  cbn [relative_loop ModuleScan.relative_loop]. rewrite !decide_False by done.
  destruct (path_split head) as [h t] eqn:E.
  destruct (path_split_spec _ _ _ Hne E) as (_ & _ & _ & _ & _ & Hl & _).
  assert (String.length h < String.length head)%nat as Hh by (by destruct Hl as [[_ ?]|?]).
  rewrite decide_False by (intros ->; lia).
  destruct (decide (t = "ns3")); [by destruct l|]. apply IH. lia.
Qed.

(** the modular scanner finds the same path as the other one, but where
    that one would run for ever, on an absolute path outside the tree, it
    raises the [ValueError] its hook catches: it always ends. *)
Theorem modular_relative_path path :
  get_ns3_relative_path path =
    match relative_path path with Raise Diverges => Raise (ValueError "") | r => r end ∧
  get_ns3_relative_path path ≠ Raise Diverges.
Proof.
  assert (get_ns3_relative_path path =
    match relative_path path with Raise Diverges => Raise (ValueError "") | r => r end) as ->.
  { unfold get_ns3_relative_path. rewrite relative_loop_agrees by lia.
    by rewrite relative_path_eq by lia. }
  split; [done|]. by destruct (relative_path path) as [|[]].
Qed.

(** ** Which module generates a definition *)

(** No entry of the table says where to import from. *)
Definition plain_table (tab : gmap string annotations) : Prop :=
  map_Forall (λ _ e, e !! "import_from_module" = None) tab.

#[export] Instance plain_table_dec tab : Decision (plain_table tab).
Proof. apply map_Forall_dec. intros ? e. apply _. Defined.

(** The table has an entry for this text that says to ignore it. *)
Definition table_ignores (tab : gmap string annotations) (x : string) : bool :=
  match tab !! x with Some e => has_key e "ignore" | None => false end.

(** Classes that are wrapped by hand, whatever the table says of them. *)
Definition by_hand (d : definition) : Prop :=
  ∃ template, template ∈ ["Callback"; "TracedCallback"; "Ptr"] ∧
    startswith ("::ns3::" +:+ template +:+ "<") (decl_string d) = true.

#[export] Instance by_hand_dec d : Decision (by_hand d).
Proof.
  refine (cast_if (decide (Exists (λ template,
    startswith ("::ns3::" +:+ template +:+ "<") (decl_string d) = true) ["Callback"; "TracedCallback"; "Ptr"])));
    unfold by_hand; by rewrite <- Exists_exists.
Defined.

(** The definitions that no module generates: the classes wrapped by hand,
    [PeekPointer], and what the table ignores; an instance of [SimpleRefCount]
    is generated even if the table has an entry for it. *)
Definition excluded (tab : gmap string annotations) (d : definition) : Prop :=
  match cls d with
  | ClassDecl => by_hand d ∨ table_ignores tab (decl_string d) = true ∧
                   startswith "::ns3::SimpleRefCount<" (decl_string d) = false
  | FreeFunction => name d = "PeekPointer" ∨ table_ignores tab (text d) = true
  | _ => False
  end.

#[export] Instance excluded_dec tab d : Decision (excluded tab d).
Proof. unfold excluded. destruct (cls d); apply _. Defined.

Lemma class_annotations_keeps tab d ga :
  plain_table tab →
  (class_annotations d tab ga).2 !! "import_from_module" = ga !! "import_from_module".
Proof.
  intros Htab. unfold class_annotations, counted_reference.
  destruct (startswith "::ns3::SimpleRefCount<" (decl_string d)),
    (startswith "::ns3::Callback<" (decl_string d)),
    (startswith "::ns3::TracedCallback<" (decl_string d)),
    (startswith "::ns3::Ptr<" (decl_string d)); cbn [snd];
    try (repeat rewrite lookup_insert_ne by done; done).
  destruct (tab !! decl_string d) as [e|] eqn:E; cbn [snd]; [|done].
  unfold update. rewrite lookup_union, (Htab _ _ E). by destruct (ga !! _).
Qed.

Lemma startswith_trichotomy a b x :
  startswith a x = true → startswith b x = true → startswith a b = true ∨ startswith b a = true.
Proof.
  revert b x. induction a as [|c a IH]; intros b x; [by left|].
  destruct x as [|e x]; [done|]. destruct b as [|d b]; [by right|]. cbn [startswith].
  rewrite !andb_true_iff, !bool_decide_eq_true. intros [<- Ha] [<- Hb].
  destruct (IH b x Ha Hb); [left|right]; done.
Qed.

Lemma counted_not_by_hand d :
  startswith "::ns3::SimpleRefCount<" (decl_string d) = true → ¬ by_hand d.
Proof.
  intros Hc (template & Ht & Hs). destruct (startswith_trichotomy _ _ _ Hc Hs) as [H|H];
    repeat (apply elem_of_cons in Ht as [->|Ht]; [discriminate H|]); by apply elem_of_nil in Ht.
Qed.

Lemma excluded_class tab d :
  cls d = ClassDecl →
  excluded tab d ↔ by_hand d ∨ table_ignores tab (decl_string d) = true ∧
                     startswith "::ns3::SimpleRefCount<" (decl_string d) = false.
Proof. intros Hc. unfold excluded. by rewrite Hc. Qed.

Lemma class_annotations_ignore tab d ga :
  cls d = ClassDecl → ga !! "ignore" = None →
  has_key (class_annotations d tab ga).2 "ignore" = bool_decide (excluded tab d).
Proof.
  intros Hc Hga. rewrite (bool_decide_ext _ _ (excluded_class tab d Hc)).
  unfold class_annotations, counted_reference.
  destruct (startswith "::ns3::SimpleRefCount<" (decl_string d)) eqn:E0.
  { rewrite bool_decide_eq_false_2.
    - cbn [snd]. apply has_key_false. by rewrite !lookup_insert_ne.
    - intros [H|[_ H]]; [by apply (counted_not_by_hand d)|done]. }
  assert (Hhand : ∀ template, template ∈ ["Callback"; "TracedCallback"; "Ptr"] →
    startswith ("::ns3::" +:+ template +:+ "<") (decl_string d) = true →
    bool_decide (by_hand d ∨ table_ignores tab (decl_string d) = true ∧ false = false) = true).
  { intros template Ht Hs. apply bool_decide_eq_true. left. by exists template. }
  assert (Hset : ∀ v, has_key (<["ignore" := v]> ga) "ignore" = true).
  { intros v. unfold has_key. by rewrite lookup_insert_eq. }
  destruct (startswith "::ns3::Callback<" (decl_string d)) eqn:E1;
    [cbn [snd]; by rewrite Hset, (Hhand "Callback") by (set_solver || done)|].
  destruct (startswith "::ns3::TracedCallback<" (decl_string d)) eqn:E2;
    [cbn [snd]; by rewrite Hset, (Hhand "TracedCallback") by (set_solver || done)|].
  destruct (startswith "::ns3::Ptr<" (decl_string d)) eqn:E3;
    [cbn [snd]; by rewrite Hset, (Hhand "Ptr") by (set_solver || done)|].
  assert (Hno : ¬ by_hand d).
  { intros (template & Ht & Hs). repeat (apply elem_of_cons in Ht as [->|Ht];
      [first [exact (eq_true_false_abs _ Hs E1)|exact (eq_true_false_abs _ Hs E2)|exact (eq_true_false_abs _ Hs E3)]|]).
    by apply elem_of_nil in Ht. }
  replace (bool_decide _) with (table_ignores tab (decl_string d)).
  2: { destruct (table_ignores _ _); symmetry; [apply bool_decide_eq_true|apply bool_decide_eq_false]; naive_solver. }
  unfold table_ignores. destruct (tab !! decl_string d) as [e|]; cbn [snd]; [|by apply has_key_false].
  unfold update, has_key. apply bool_decide_ext. rewrite lookup_union, Hga. by destruct (e !! "ignore").
Qed.

Lemma table_driven_keys d tab ga pa dv :
  table_ok tab → ∃ h, table_driven d (Hooked tab ga pa dv) = Ok h ∧
    (ga !! "ignore" = None →
     has_key (global_annotations h) "ignore" = table_ignores tab (text d)) ∧
    (plain_table tab →
     global_annotations h !! "import_from_module" = ga !! "import_from_module").
Proof.
  intros Htab. unfold table_driven, table_ignores. cbn [table global_annotations].
  destruct (tab !! text d) as [e|] eqn:E.
  2: { eexists. split; [done|]. split; [|done]. cbn. intros. by apply has_key_false. }
  pose proof (Htab _ _ E) as He. cbn beta in He.
  assert (∃ e' pa', (pa' ← match e !! "params" with
             | Some v => p ← params_of v; Ok (update pa p, delete "params" e)
             | None => Ok (pa, e)
             end; Ok pa') = Ok (E := exn) (pa', e') ∧
             e' !! "ignore" = e !! "ignore" ∧
             e' !! "import_from_module" = e !! "import_from_module") as (e' & pa' & Heq & Hi & Hm).
  { destruct (e !! "params") as [[| | |p]|]; try done; cbn; do 2 eexists; split_and!; try done;
      by apply lookup_delete_ne. }
  destruct (e !! "params") as [v|]; cbn [parameter_annotations] in *.
  - destruct (params_of v) as [p|]; cbn [mbind result_bind] in *; [|done]. injection Heq as <- <-.
    eexists. split; [done|]. cbn [global_annotations]. unfold update. split.
    + intros Hga. unfold has_key. apply bool_decide_ext. rewrite lookup_union, Hi, Hga.
      destruct (e !! "ignore"); reflexivity.
    + intros Hp. rewrite lookup_union, Hm, (Hp _ _ E). by destruct (ga !! _).
  - cbn [mbind result_bind] in *. injection Heq as <- <-.
    eexists. split; [done|]. cbn [global_annotations]. unfold update. split.
    + intros Hga. unfold has_key. apply bool_decide_ext. rewrite lookup_union, Hga.
      destruct (e !! "ignore"); reflexivity.
    + intros Hp. rewrite lookup_union, (Hp _ _ E). by destruct (ga !! _).
Qed.

Section generates.
Context (template_args : string → list string).
Context (is_instantiation : string → bool) (template_parameters : string → list string).
Context (find_declaration_from_name : string → option string) (repr : string → string).
Context (headers_map : gmap string string) (tab : gmap string annotations).

Abbreviation scan_in m d :=
  (call template_args is_instantiation template_parameters find_declaration_from_name repr
     headers_map m tab d ∅ ∅).

Abbreviation argument_modules d :=
  (template_parameters_modules is_instantiation template_parameters
     find_declaration_from_name headers_map d).

(** The scan of module [m] leaves the definition to [m]: it is neither imported
    nor ignored. *)
Definition generates (m : string) (d : definition) : bool :=
  match scan_in m d with
  | Ok h =>
      negb (has_key (global_annotations h) "import_from_module") &&
      negb (has_key (global_annotations h) "ignore")
  | Raise _ => false
  end.

Lemma member_annotations_other r o d k :
  is_member d = false → k ≠ "pygen_comment" →
  member_annotations template_args repr r o d ∅ !! k = None.
Proof. intros Hm Hk. unfold member_annotations. rewrite !Hm. cbn [andb].
  by rewrite lookup_insert_ne. Qed.

Lemma generates_class m owner mods r d :
  plain_table tab → cls d = ClassDecl →
  get_ns3_relative_path (file_name d) = Ok r → headers_map !! r = Some owner →
  argument_modules d = Ok mods →
  generates m d = bool_decide (m = owner ∨ m ∈ mods) && negb (bool_decide (excluded tab d)).
Proof.
  intros Htab Hc Hr Ho Hmods. unfold generates, call, header_module, dict_get.
  rewrite Hr, Ho. cbn [of_option mbind result_bind].
  rewrite decide_True by done. unfold class_branch, module_of_class.
  rewrite Hmods. cbn [mbind result_bind].
  set (ga0 := member_annotations _ _ _ _ _ _).
  assert (∀ k, k ≠ "pygen_comment" → ga0 !! k = None) as H0.
  { intros k Hk. apply member_annotations_other; [|done]. unfold is_member. by rewrite Hc. }
  set (dm := if decide (m ∈ mods) then m else owner).
  set (ga := if decide (dm = m) then ga0 else _).
  assert (has_key (class_annotations d tab ga).2 "import_from_module"
          = negb (bool_decide (m = owner ∨ m ∈ mods))) as Hkey.
  { unfold has_key. rewrite class_annotations_keeps by done.
    assert (dm = m ↔ m = owner ∨ m ∈ mods) as Hdm by (unfold dm; case_decide; naive_solver).
    unfold ga. destruct (decide (dm = m)) as [Hd|Hd].
    - rewrite H0 by done. by rewrite (bool_decide_eq_true_2 (_ ∨ _)) by tauto.
    - rewrite lookup_insert_eq. by rewrite (bool_decide_eq_false_2 (_ ∨ _)) by tauto. }
  assert (has_key (class_annotations d tab ga).2 "ignore" = bool_decide (excluded tab d)) as Hig.
  { apply class_annotations_ignore; [done|]. unfold ga. destruct (decide (dm = m)); [by apply H0|].
    rewrite lookup_insert_ne by done. by apply H0. }
  destruct (class_annotations d tab ga) as [b ga2]. cbn [snd] in Hkey, Hig.
  unfold function_branch. rewrite Hc.
  rewrite !(decide_False (P := ClassDecl = _ ∧ _)) by naive_solver.
  replace (is_callable d) with false by (unfold is_callable; by rewrite Hc).
  destruct b; cbn [global_annotations]; rewrite Hkey, Hig; by rewrite negb_involutive.
Qed.

Lemma generates_enum m owner r d :
  cls d = Enumeration →
  get_ns3_relative_path (file_name d) = Ok r → headers_map !! r = Some owner →
  generates m d = bool_decide (m = owner).
Proof.
  intros Hc Hr Ho. unfold generates, call, header_module, dict_get.
  rewrite Hr, Ho. cbn [of_option mbind result_bind].
  rewrite decide_False by (by rewrite Hc). cbn [mbind result_bind].
  set (ga0 := member_annotations _ _ _ _ _ _).
  assert (∀ k, k ≠ "pygen_comment" → ga0 !! k = None) as H0.
  { intros k Hk. apply member_annotations_other; [|done]. unfold is_member. by rewrite Hc. }
  unfold function_branch. rewrite Hc.
  rewrite !(decide_False (P := Enumeration = FreeFunction ∧ _)) by naive_solver.
  replace (is_callable d) with false by (unfold is_callable; by rewrite Hc).
  cbn [global_annotations]. destruct (decide (m = owner)) as [->|Hm].
  - rewrite decide_False by naive_solver. rewrite (bool_decide_eq_true_2 (owner = owner)) by done.
    by rewrite !(proj2 (has_key_false _ _)) by by apply H0.
  - rewrite decide_True by naive_solver. rewrite (bool_decide_eq_false_2 (m = owner)) by done.
    unfold has_key at 1. by rewrite lookup_insert_eq.
Qed.

Lemma generates_function m owner r d :
  table_ok tab → plain_table tab → cls d = FreeFunction →
  get_ns3_relative_path (file_name d) = Ok r → headers_map !! r = Some owner →
  generates m d = bool_decide (m = owner) && negb (bool_decide (excluded tab d)).
Proof.
  intros Hok Htab Hc Hr Ho. unfold generates, call, header_module, dict_get.
  rewrite Hr, Ho. cbn [of_option mbind result_bind].
  rewrite decide_False by (by rewrite Hc). cbn [mbind result_bind].
  set (ga0 := member_annotations _ _ _ _ _ _). set (dv := if is_calldef d then _ else _).
  assert (∀ k, k ≠ "pygen_comment" → ga0 !! k = None) as H0.
  { intros k Hk. apply member_annotations_other; [|done]. unfold is_member. by rewrite Hc. }
  unfold function_branch.
  rewrite (decide_False (P := cls d = Enumeration ∧ _)) by (by rewrite Hc; intros [? _]).
  cbn [global_annotations table parameter_annotations defaults].
  assert (Hset : ∀ v, has_key (<["ignore" := v]> ga0) "ignore" = true).
  { intros v. unfold has_key. by rewrite lookup_insert_eq. }
  assert (Hex : bool_decide (excluded tab d) =
    bool_decide (name d = "PeekPointer" ∨ table_ignores tab (text d) = true)).
  { apply bool_decide_ext. unfold excluded. by rewrite Hc. }
  rewrite Hex. destruct (decide (m = owner)) as [->|Hm].
  - rewrite (decide_False (P := _ ∧ owner ≠ owner)) by (by intros [_ ?]).
    rewrite (bool_decide_eq_true_2 (owner = owner)) by done. cbn [andb].
    destruct (decide (name d = "PeekPointer")) as [Hp|Hp].
    { rewrite decide_True by done. cbn [global_annotations]. rewrite Hset, andb_false_r.
      by rewrite bool_decide_eq_true_2 by by left. }
    rewrite (decide_False (P := _ ∧ name d = _)) by (by intros [_ ?]).
    replace (is_callable d) with true by (unfold is_callable; by rewrite Hc).
    destruct (table_driven_keys d tab ga0 ∅ dv Hok) as (h & -> & Hig & Him).
    rewrite Hig by by apply H0. unfold has_key. rewrite Him, H0 by done.
    destruct (table_ignores tab (text d)); [by rewrite (bool_decide_eq_true_2 (_ ∨ _)) by by right|].
    rewrite (bool_decide_eq_false_2 (_ ∨ _)); [done|]. by intros [?|?].
  - rewrite (decide_True (P := _ ∧ owner ≠ m)) by (split; [done|congruence]).
    rewrite (bool_decide_eq_false_2 (m = owner)) by done.
    cbn [global_annotations]. by rewrite Hset, andb_false_r.
Qed.

(** C31: whatever module is being scanned, a class, enumeration or free function
    of the tree is left to exactly one module, the owner of its header: every
    other module imports the class or enumeration, or ignores the function.
    Only an instance of a class template is also generated by the modules that
    own one of its arguments.  The definitions excluded, which are the instances
    of [Callback], [TracedCallback] and [Ptr], [PeekPointer], and the classes and
    functions that the table of special cases ignores, are generated by no
    module; every other definition is, by these. *)
Theorem generated_by_owner m owner mods r d :
  table_ok tab → plain_table tab →
  get_ns3_relative_path (file_name d) = Ok r → headers_map !! r = Some owner →
  (cls d = ClassDecl ∧ argument_modules d = Ok mods ∨
   (cls d = Enumeration ∨ cls d = FreeFunction) ∧ mods = []) →
  generates m d = true ↔ (m = owner ∨ m ∈ mods) ∧ ¬ excluded tab d.
Proof.
  intros Hok Htab Hr Ho Hd.
  assert (generates m d = bool_decide (m = owner ∨ m ∈ mods) && negb (bool_decide (excluded tab d))) as ->.
  { destruct Hd as [[Hc Hm]|[[Hc|Hc] ->]]; [by eapply generates_class|..].
    - erewrite generates_enum by done. rewrite (bool_decide_eq_false_2 (excluded tab d)).
      + rewrite andb_true_r. apply bool_decide_ext. rewrite elem_of_nil. tauto.
      + unfold excluded. rewrite Hc. tauto.
    - erewrite generates_function by done. f_equal. apply bool_decide_ext. rewrite elem_of_nil. tauto. }
  rewrite andb_true_iff, negb_true_iff, bool_decide_eq_true, bool_decide_eq_false. done.
Qed.
End generates.

(** ** Examples and instances *)
Definition sample_headers : gmap string string :=
  {["core/event.h" := "core"; "flow-monitor/probe.h" := "flow-monitor"]}.

Definition probe_class : definition :=
  Definition_ ClassDecl "/b/ns3/core/event.h" "ns3::Holder<ns3::Probe> [class]" "" "Holder<ns3::Probe>"
    "" "::ns3::Holder<ns3::Probe>" [].

Definition probe_enum : definition :=
  Definition_ Enumeration "/b/ns3/flow-monitor/probe.h" "ns3::Mode [enumeration]" "" "Mode" "" "" [].

Definition find_probe (n : string) : option string :=
  if decide (n = "ns3::Probe") then Some "/b/ns3/flow-monitor/probe.h" else None.

Definition test_case_class : definition :=
  Definition_ ClassDecl "/b/ns3/core/event.h" "ns3::TestCase [class]" "" "TestCase"
    "" "ns3::TestCase" [].

(** The template [Holder] of [core] on a class of [flow-monitor] is generated
    by both modules, and by no third one; what the table ignores by none. *)
Lemma generated_by_owner_witness :
  let tab := <["ns3::TestCase" := {["ignore" := Nothing]}]> type_annotations in
  let gen m d := generates (λ _, []) (startswith "::ns3::Holder<") (λ _, ["ns3::Probe"])
                   find_probe id sample_headers tab m d in
  (gen "core" probe_class = true ∧ gen "flow-monitor" probe_class = true ∧
   gen "wifi" probe_class = false) ∧
  gen "core" test_case_class = false.
Proof.
  intros tab gen.
  assert (Hok : table_ok tab) by (by apply (bool_decide_unpack _); vm_compute).
  assert (Hplain : plain_table tab) by (by apply (bool_decide_unpack _); vm_compute).
  pose proof (λ m d mods, generated_by_owner (λ _, []) (startswith "::ns3::Holder<") (λ _, ["ns3::Probe"])
    find_probe id sample_headers tab m "core" mods "core/event.h" d Hok Hplain) as H.
  assert (Hexcl : ¬ excluded tab probe_class) by (apply (bool_decide_unpack _); vm_compute; exact I).
  assert (Hp : cls probe_class = ClassDecl ∧ template_parameters_modules (startswith "::ns3::Holder<")
    (λ _, ["ns3::Probe"]) find_probe sample_headers probe_class = Ok ["flow-monitor"]) by (split; vm_compute; reflexivity).
  split; [split_and!|].
  - apply (H "core" probe_class ["flow-monitor"] eq_refl eq_refl (or_introl Hp)). split; [by left|done].
  - apply (H "flow-monitor" probe_class ["flow-monitor"] eq_refl eq_refl (or_introl Hp)).
    split; [right; by left|done].
  - apply not_true_iff_false. intros Hg.
    apply (H "wifi" probe_class ["flow-monitor"] eq_refl eq_refl (or_introl Hp)) in Hg
      as [[?|?%list_elem_of_singleton] _]; done.
  - apply not_true_iff_false. intros Hg.
    apply (H "core" test_case_class [] eq_refl eq_refl) in Hg as [_ Hno].
    + apply Hno. apply (bool_decide_unpack _). vm_compute. exact I.
    + left. split; vm_compute; reflexivity.
Defined.

(** A class is imported from a module whose dashes became underscores, an
    enumeration from one that keeps them, which no Python module can be called. *)
Lemma enum_import_keeps_dashes :
  let run d := (λ h, global_annotations h !! "import_from_module") <$>
    call (λ _, []) (λ _, false) (λ _, []) find_probe id sample_headers "wifi"
      type_annotations d ∅ ∅ in
  run probe_enum = Ok (Some (Text "ns.flow-monitor")) ∧
  run (Definition_ ClassDecl "/b/ns3/flow-monitor/probe.h" "ns3::Probe [class]" "" "Probe"
         "" "::ns3::Probe" []) = Ok (Some (Text "ns.flow_monitor")).
Proof. split; vm_compute; reflexivity. Qed.
