(* ===== verification/ModuleGen.v ===== *)
(** * [bindings/python/ns3modulegen.py] and its customizations

    The generator of the bindings drives [pybindgen].  Modelled are the parts
    with logic of the repository: the sink of every section
    ([MyMultiSectionFactory]), the classes that [main] takes out of the module
    when a feature is disabled, the type transformation for smart pointers and
    the code that creates an instance of [ns3::Object]
    ([ns3modulegen_core_customizations.py]). *)

From S2P Require Import Prelude PyStr Topsort ModuleScan.
From Stdlib Require Import Ascii.

Local Open Scope string_scope.

(** ** [MyMultiSectionFactory]: the file of every section *)
Definition section_sinks (main_file_name : string) (modules : list string) : gmap string string :=
  foldl (λ sinks module,
           let section_name := "ns3_module_" +:+ replace_char "-" "_" module in
           <[section_name := path_join (path_split main_file_name).1 (section_name +:+ ".cc")]> sinks)
    {["__main__" := main_file_name]} modules.

Definition get_section_code_sink (sinks : gmap string string) (section_name : string) :
    result exn string := dict_get KeyError sinks section_name.

(** ** Disabled features

    A class or enumeration is named by its full name; [registered] are the
    names that [root_module[name]] finds. *)
Record root_module := RootModule {
  registered : gset string;
  classes : list string;
  enums : list string }.

(** [l.remove(x)]: the first occurrence, or [ValueError]. *)
Fixpoint list_remove (x : string) (l : list string) : result exn (list string) :=
  match l with
  | [] => Raise (ValueError "")
  | y :: l => if decide (y = x) then Ok l else r ← list_remove x l; Ok (y :: r)
  end.

Definition module_item (m : root_module) (name : string) : result exn string :=
  if decide (name ∈ registered m) then Ok name else Raise KeyError.

Definition remove_class (m : root_module) (name : string) : result exn root_module :=
  c ← module_item m name;
  cs ← list_remove c (classes m);
  Ok (RootModule (registered m) cs (enums m)).

Definition remove_enum (m : root_module) (name : string) : result exn root_module :=
  e ← module_item m name;
  es ← list_remove e (enums m);
  Ok (RootModule (registered m) (classes m) es).

(** [try: ... except KeyError: pass]. *)
Definition catch_key_error (m : root_module) (r : result exn root_module) :
    result exn root_module :=
  match r with Raise KeyError => Ok m | r => r end.

Definition remove_classes (m : root_module) (clsnames : list string) : result exn root_module :=
  fold_res (λ m clsname, remove_class m ("ns3::" +:+ clsname)) m clsnames.

Definition disable_features (enabled_features : list string) (m : root_module) :
    result exn root_module :=
  m ← (if decide ("GtkConfigStore" ∈ enabled_features) then Ok m
       else catch_key_error m (remove_class m "ns3::GtkConfigStore"));
  m ← (if decide ("SqliteDataOutput" ∈ enabled_features) then Ok m
       else catch_key_error m (remove_class m "ns3::SqliteDataOutput"));
  m ← (if decide ("Threading" ∈ enabled_features) then Ok m
       else remove_classes m ["SystemThread"; "SystemMutex"; "SystemCondition"; "CriticalSection";
              "SimpleRefCount< ns3::SystemThread, ns3::empty, ns3::DefaultDeleter<ns3::SystemThread> >"]);
  m ← (if decide ("EmuNetDevice" ∈ enabled_features) then Ok m
       else m ← remove_classes m ["EmuNetDevice"; "EmuHelper"];
            remove_enum m "ns3::EmuNetDevice::EncapsulationMode");
  m ← (if decide ("RealTime" ∈ enabled_features) then Ok m
       else m ← remove_classes m ["WallClockSynchronizer"; "RealtimeSimulatorImpl"];
            remove_enum m "ns3::RealtimeSimulatorImpl::SynchronizationMode");
  if decide ("TapBridge" ∈ enabled_features) then Ok m
  else m ← remove_classes m ["TapBridge"; "TapBridgeHelper"; "TapBridgeFdReader"];
       remove_enum m "ns3::TapBridge::Mode".

(** ** [SmartPointerTransformation] *)

(** [s[len(p):]] when [s] starts with [p]. *)
Definition cut_prefix (p s : string) : option string :=
  if startswith p s then Some (str_drop (String.length p) s) else None.

Fixpoint cut_suffix (q s : string) : option string :=
  if decide (s = q) then Some ""
  else match s with
       | "" => None
       | String c s => String c <$> cut_suffix q s
       end.

(** [Ptr<([^>]+)>\s*$], at the start of the string. *)
Definition match_ptr (s : string) : option string :=
  rest ← cut_prefix "Ptr<" s;
  match split_once ">" rest with
  | (g, Some after) => if decide (g ≠ "" ∧ strip after = "") then Some g else None
  | (_, None) => None
  end.

(** [self.rx.match(name)]: the second group; the alternatives are tried in
    order. *)
Definition rx_match (name : string) : option string :=
  match cut_prefix "ns3::" name ≫= match_ptr with
  | Some g => Some g
  | None =>
      match cut_prefix "::ns3::" name ≫= match_ptr with
      | Some g => Some g
      | None => match_ptr name
      end
  end.

Definition _get_untransformed_type_traits (name : string) : option string * bool :=
  match rx_match name with
  | None => (None, false)
  | Some g =>
      let name1 := strip g in
      let '(name1, is_const) :=
        match cut_prefix "const " name1 with Some n => (n, true) | None => (name1, false) end in
      let '(name1, is_const) :=
        match cut_suffix " const" name1 with Some n => (n, true) | None => (name1, is_const) end in
      let new_name := name1 +:+ " *" in
      (Some (default new_name (cut_prefix "::" new_name)), is_const)
  end.

(** The C type [create_type_handler] registers, and the type it is transformed
    to.  [orig_ctype[:-2]] drops the pointer. *)
Definition handler_ctype (name : string) : result exn (string * string) :=
  match _get_untransformed_type_traits name with
  | (None, _) => Raise TypeError
  | (Some orig_ctype, is_const) =>
      Ok ((if is_const : bool then "ns3::Ptr< " +:+ drop_last2 orig_ctype +:+ " const >"
           else "ns3::Ptr< " +:+ drop_last2 orig_ctype +:+ " >"), orig_ctype)
  end.

(** ** [ns3_object_instance_creation_function]

    The lines of code it writes.  The first message has two places for its one
    argument, so formatting it is a [TypeError]. *)
Definition ns3_object_instance_creation_function (full_name : string)
    (cannot_be_constructed incomplete_type : bool) (lvalue parameters construct_type_name : string) : result exn (list string) :=
  _ ← guard_exn (bool_decide (lvalue ≠ "")) AssertionError;
  _ ← guard_exn (negb (startswith "None" lvalue)) AssertionError;
  if cannot_be_constructed then Raise TypeError
  else if incomplete_type then Raise (PyException (full_name +:+ " cannot be constructed (incomplete type)"))
  else Ok [lvalue +:+ " = new " +:+ construct_type_name +:+ "(" +:+ parameters +:+ ");";
           lvalue +:+ "->Ref ();"].

(** ** The sinks *)
Lemma sink_lookup f modules s :
  is_Some (section_sinks f modules !! s) ↔ s = "__main__" ∨ s ∈ section_of <$> modules.
Proof.
  unfold section_sinks. set (m0 := {["__main__" := f]} : gmap string string).
  assert (is_Some (m0 !! s) ↔ s = "__main__") as H0.
  { unfold m0. rewrite lookup_singleton_is_Some. naive_solver. }
  rewrite <- H0. clearbody m0. clear H0. revert m0.
  induction modules as [|m modules IH]; intros m0; cbn [foldl fmap list_fmap].
  { set_solver. }
  rewrite IH, elem_of_cons. unfold section_of. destruct (decide (s = "ns3_module_" +:+ replace_char "-" "_" m)) as [->|Hs].
  - rewrite lookup_insert_eq. split; [by right; left|by left].
  - rewrite lookup_insert_ne by done. naive_solver.
Qed.

Lemma laid_out_names f ns3_modules l0 pms l :
  fold_res (add_section f ns3_modules) l0 pms = Ok l →
  (section_name <$> sections l) = ((section_name <$> sections l0) ++ (section_of ∘ snd <$> pms))%list ∧
  Forall (λ pm, is_Some (ns3_modules !! pm.2)) pms.
Proof.
  revert l0. induction pms as [|[i m] pms IH]; intros l0 Hl; cbn [fold_res] in Hl.
  { injection Hl as <-. by rewrite app_nil_r. }
  apply bind_Ok_inv in Hl as (l1 & H1 & Hl). apply IH in Hl as [-> Hall].
  unfold add_section, dict_get in H1. destruct (ns3_modules !! m) as [[deps hs]|] eqn:E; [|done].
  injection H1 as <-. cbn [sections]. rewrite fmap_app, <- app_assoc. split; [done|].
  constructor; [by eexists|done].
Qed.

(** the generator can write every section that the scanner lays out: when
    it is started with all the modules that were scanned, each section has a
    sink. *)
Theorem every_section_has_sink {ord : DictOrder string} f g ns3_modules ms l s :
  make_sections f ns3_modules = Ok l →
  (∀ m, is_Some (ns3_modules !! m) → m ∈ ms) → s ∈ sections l →
  is_ok (get_section_code_sink (section_sinks g ms) (section_name s)) = true.
Proof.
  unfold make_sections. intros Hl Hms Hs.
  apply bind_Ok_inv in Hl as (sorted & _ & Hl). unfold lift_exn in Hl.
  destruct (fold_res _ _ _) as [l'|] eqn:E; [|done]. injection Hl as <-.
  apply laid_out_names in E as [Hn Hall].
  apply (list_elem_of_fmap_2 section_name) in Hs. rewrite Hn in Hs.
  unfold get_section_code_sink, dict_get.
  assert (is_Some (section_sinks g ms !! section_name s)) as [? ->]; [|done].
  apply sink_lookup. apply elem_of_app in Hs as [Hs|Hs].
  - left. by apply list_elem_of_singleton in Hs.
  - right. apply list_elem_of_fmap in Hs as (pm & -> & Hpm). cbn [compose].
    apply list_elem_of_fmap. exists pm.2. split; [done|]. apply Hms.
    by apply (proj1 (Forall_forall _ _) Hall).
Qed.

(** ** What the disabled features take away *)
Definition feature_classes : list (string * list string) := [
  ("GtkConfigStore", ["ns3::GtkConfigStore"]);
  ("SqliteDataOutput", ["ns3::SqliteDataOutput"]);
  ("Threading", ["ns3::SystemThread"; "ns3::SystemMutex"; "ns3::SystemCondition";
    "ns3::CriticalSection";
    "ns3::SimpleRefCount< ns3::SystemThread, ns3::empty, ns3::DefaultDeleter<ns3::SystemThread> >"]);
  ("EmuNetDevice", ["ns3::EmuNetDevice"; "ns3::EmuHelper"]);
  ("RealTime", ["ns3::WallClockSynchronizer"; "ns3::RealtimeSimulatorImpl"]);
  ("TapBridge", ["ns3::TapBridge"; "ns3::TapBridgeHelper"; "ns3::TapBridgeFdReader"]) ].

Definition feature_enums : list (string * string) := [
  ("EmuNetDevice", "ns3::EmuNetDevice::EncapsulationMode");
  ("RealTime", "ns3::RealtimeSimulatorImpl::SynchronizationMode");
  ("TapBridge", "ns3::TapBridge::Mode") ].

(** The names that go when only [enabled] are enabled. *)
Definition disabled_classes (enabled : list string) : list string :=
  mjoin ((filter (λ fc, fc.1 ∉ enabled) feature_classes).*2).

Definition disabled_enums (enabled : list string) : list string :=
  (filter (λ fe, fe.1 ∉ enabled) feature_enums).*2.

Definition optional_classes : list string := ["ns3::GtkConfigStore"; "ns3::SqliteDataOutput"].

(** The module knows each class and enumeration once, and those of the
    features, the two optional classes excepted. *)
Record features_ok (m : root_module) : Prop := {
  ok_classes : NoDup (classes m);
  ok_enums : NoDup (enums m);
  ok_class : ∀ c, c ∈ mjoin feature_classes.*2 → c ∉ optional_classes →
    c ∈ registered m ∧ c ∈ classes m;
  ok_optional : ∀ c, c ∈ optional_classes → c ∈ registered m ↔ c ∈ classes m;
  ok_enum : ∀ e, e ∈ feature_enums.*2 → e ∈ registered m ∧ e ∈ enums m }.

Abbreviation minus l gone := (filter (λ x, x ∉ gone) l).

Lemma minus_minus (l gone gone' : list string) :
  minus (minus l gone) gone' = minus l (gone ++ gone')%list.
Proof. rewrite list_filter_filter. apply list_filter_iff. intros x. set_solver. Qed.

Lemma filter_ext_in {A} (P R : A → Prop) `{∀ x, Decision (P x), ∀ x, Decision (R x)}
    (l : list A) :
  (∀ x, x ∈ l → P x ↔ R x) → filter P l = filter R l.
Proof.
  induction l as [|x l IH]; intros Hl; [done|]. rewrite !filter_cons.
  rewrite IH by (intros; apply Hl; by right). apply decide_ext, Hl. by left.
Qed.

Lemma minus_nil (l : list string) : minus l [] = l.
Proof. apply filter_all, Forall_forall. set_solver. Qed.

Lemma list_remove_minus x l : NoDup l → x ∈ l → list_remove x l = Ok (minus l [x]).
Proof.
  induction 1 as [|y l Hy Hnd IH]; intros Hx; [by apply elem_of_nil in Hx|].
  cbn [list_remove]. rewrite filter_cons. destruct (decide (y = x)) as [->|Hne].
  - rewrite decide_False by set_solver. f_equal. symmetry.
    apply filter_all, Forall_forall. set_solver.
  - rewrite decide_True by set_solver. rewrite IH by set_solver. done.
Qed.

Section features.
Context (m0 : root_module) (Hm0 : features_ok m0).

(** [m0] without some classes and enumerations. *)
Definition without (cs es : list string) : root_module :=
  RootModule (registered m0) (minus (classes m0) cs) (minus (enums m0) es).

Lemma remove_class_without cs es c :
  c ∈ registered m0 → c ∈ classes m0 → c ∉ cs →
  remove_class (without cs es) c = Ok (without (cs ++ [c])%list es).
Proof.
  intros Hr Hc Hn. unfold remove_class, module_item, without. cbn [registered classes enums].
  rewrite decide_True by done. cbn [mbind result_bind].
  rewrite list_remove_minus.
  - cbn [mbind result_bind]. by rewrite minus_minus.
  - apply NoDup_filter, Hm0.
  - apply list_elem_of_filter. done.
Qed.

Lemma remove_enum_without cs es e :
  e ∈ registered m0 → e ∈ enums m0 → e ∉ es →
  remove_enum (without cs es) e = Ok (without cs (es ++ [e])%list).
Proof.
  intros Hr Hc Hn. unfold remove_enum, module_item, without. cbn [registered classes enums].
  rewrite decide_True by done. cbn [mbind result_bind].
  rewrite list_remove_minus.
  - cbn [mbind result_bind]. by rewrite minus_minus.
  - apply NoDup_filter, Hm0.
  - apply list_elem_of_filter. done.
Qed.

Lemma remove_classes_without cs es names :
  NoDup (String.append "ns3::" <$> names) →
  (∀ n, n ∈ names → let c := "ns3::" +:+ n in
     c ∈ registered m0 ∧ c ∈ classes m0 ∧ c ∉ cs) →
  remove_classes (without cs es) names =
    Ok (without (cs ++ (String.append "ns3::" <$> names))%list es).
Proof.
  revert cs. induction names as [|n names IH]; intros cs Hnd Hall; unfold remove_classes;
    cbn [fold_res fmap list_fmap]; [by rewrite app_nil_r|].
  apply NoDup_cons in Hnd as [Hn Hnd].
  destruct (Hall n) as (Hr & Hc & Hcs); [by left|].
  rewrite remove_class_without by done. cbn [mbind result_bind]. unfold remove_classes in IH.
  rewrite IH; [by rewrite <- app_assoc|done|].
  intros n' Hn'. destruct (Hall n') as (Hr' & Hc' & Hcs'); [by right|].
  split_and!; [done..|]. intros [?|Heq%list_elem_of_singleton]%elem_of_app; [done|].
  apply Hn. rewrite <- Heq. by apply (list_elem_of_fmap_2 (String.append "ns3::")).
Qed.

Lemma remove_optional cs es c :
  c ∈ optional_classes → c ∉ cs →
  catch_key_error (without cs es) (remove_class (without cs es) c) = Ok (without (cs ++ [c])%list es).
Proof.
  intros Hc Hcs. destruct (decide (c ∈ registered m0)) as [Hr|Hr].
  - by rewrite remove_class_without by (done || by apply (ok_optional _ Hm0)).
  - unfold remove_class, module_item. cbn [registered without].
    rewrite decide_False by done. cbn [mbind result_bind catch_key_error].
    unfold without. do 2 f_equal. apply filter_ext_in.
    intros x Hx. rewrite elem_of_app, list_elem_of_singleton. split; [|tauto].
    intros Hn [?| ->]; [done|]. by apply Hr, (ok_optional _ Hm0).
Qed.

End features.

Lemma disabled_classes_cons (enabled : list string) f names l :
  mjoin ((filter (λ fc : string * list string, fc.1 ∉ enabled) ((f, names) :: l)).*2) =
  ((if decide (f ∈ enabled) then [] else names) ++
   mjoin ((filter (λ fc : string * list string, fc.1 ∉ enabled) l).*2))%list.
Proof.
  rewrite filter_cons. cbn [fst]. destruct (decide (f ∈ enabled)).
  - by rewrite decide_False by tauto.
  - by rewrite decide_True by done.
Qed.

Lemma disabled_enums_cons (enabled : list string) f e l :
  (filter (λ fe : string * string, fe.1 ∉ enabled) ((f, e) :: l)).*2 =
  ((if decide (f ∈ enabled) then [] else [e]) ++
   (filter (λ fe : string * string, fe.1 ∉ enabled) l).*2)%list.
Proof.
  rewrite filter_cons. cbn [fst]. destruct (decide (f ∈ enabled)).
  - by rewrite decide_False by tauto.
  - by rewrite decide_True by done.
Qed.

Section disable.
Context (m0 : root_module) (Hm0 : features_ok m0) (enabled : list string).

(** The names are those of features, apart from the optional ones and from
    what is gone already. *)
Definition removable (cs names : list string) : Prop :=
  NoDup names ∧
  Forall (λ n, n ∈ mjoin feature_classes.*2 ∧ n ∉ optional_classes ∧ n ∉ cs) names.

Abbreviation ns3_names names := (String.append "ns3::" <$> names).
Abbreviation unless f l := (if decide (f ∈ enabled) then [] else l).

Lemma removable_classes cs es names :
  removable cs (ns3_names names) →
  remove_classes (without m0 cs es) names = Ok (without m0 (cs ++ ns3_names names)%list es).
Proof.
  intros [Hnd Hall]. apply (remove_classes_without m0 Hm0); [done|]. intros n Hn c.
  apply (list_elem_of_fmap_2 (String.append "ns3::")) in Hn.
  destruct (proj1 (Forall_forall _ _) Hall _ Hn) as (Hf & Ho & Hc).
  by destruct (ok_class _ Hm0 _ Hf Ho).
Qed.

(** One feature of [main]: an optional class; classes; classes and an
    enumeration. *)
Lemma optional_step f c cs es :
  c ∈ optional_classes ∧ c ∉ cs →
  (if decide (f ∈ enabled) then Ok (without m0 cs es)
   else catch_key_error (without m0 cs es) (remove_class (without m0 cs es) c)) =
  Ok (without m0 (cs ++ unless f [c])%list es).
Proof.
  intros [Hc Hcs]. case_decide; [by rewrite app_nil_r|]. by apply (remove_optional m0 Hm0).
Qed.

Lemma classes_step f names cs es :
  removable cs (ns3_names names) →
  (if decide (f ∈ enabled) then Ok (without m0 cs es) else remove_classes (without m0 cs es) names) =
  Ok (without m0 (cs ++ unless f (ns3_names names))%list es).
Proof. intros Hr. case_decide; [by rewrite app_nil_r|]. by apply removable_classes. Qed.

Lemma feature_step f names e cs es :
  removable cs (ns3_names names) → e ∈ feature_enums.*2 ∧ e ∉ es →
  (if decide (f ∈ enabled) then Ok (without m0 cs es)
   else m ← remove_classes (without m0 cs es) names; remove_enum m e) =
  Ok (without m0 (cs ++ unless f (ns3_names names))%list (es ++ unless f [e])%list).
Proof.
  intros Hr [He Hes]. case_decide; [by rewrite !app_nil_r|].
  rewrite removable_classes by done. cbn [mbind result_bind].
  destruct (ok_enum _ Hm0 e He) as [??]. by apply (remove_enum_without m0 Hm0).
Qed.

Ltac closed := repeat case_decide; apply (bool_decide_unpack _); vm_compute; reflexivity.

(** on a module that knows the classes of the features, the two optional
    ones excepted, [main] removes exactly the classes and enumerations of the
    features that are not enabled, and keeps the others in their order. *)
Theorem disable_features_exact :
  disable_features enabled m0 =
  Ok (RootModule (registered m0)
        (filter (λ c, c ∉ disabled_classes enabled) (classes m0))
        (filter (λ e, e ∉ disabled_enums enabled) (enums m0))).
Proof.
  assert (disable_features enabled m0 = disable_features enabled (without m0 [] [])) as ->.
  { unfold without. rewrite !minus_nil. by destruct m0. }
  unfold disable_features.
  rewrite optional_step by closed. cbn [mbind result_bind].
  rewrite optional_step by closed. cbn [mbind result_bind].
  rewrite classes_step by closed. cbn [mbind result_bind].
  rewrite feature_step by closed. cbn [mbind result_bind].
  rewrite feature_step by closed. cbn [mbind result_bind].
  rewrite feature_step by closed.
  unfold without, disabled_classes, disabled_enums, feature_classes, feature_enums.
  rewrite !disabled_classes_cons, !disabled_enums_cons.
  cbn [filter list_filter fmap list_fmap mjoin list_join].
  rewrite !app_nil_r, <- !app_assoc. reflexivity.
Qed.
End disable.

(** ** The smart pointers *)

(** The name of a class as it is written between the brackets of [Ptr]. *)
Record class_name (x : string) : Prop := {
  cn_nonempty : x ≠ "";
  cn_closed : contains_char ">" x = false;
  cn_left : lstrip x = x;
  cn_right : rstrip x = x;
  cn_prefix : startswith "const " (x +:+ " const") = false;
  cn_suffix : cut_suffix " const" x = None;
  cn_global : startswith "::" x = false }.

(** The ways to write a pointer to [x], and whether the class is constant. *)
Inductive spelling (x : string) : string → bool → Prop :=
  | Plain : spelling x x false
  | Global : spelling x ("::" +:+ x) false
  | ConstBefore : spelling x ("const " +:+ x) true
  | ConstGlobal : spelling x ("const ::" +:+ x) true
  | ConstAfter : spelling x (x +:+ " const") true
  | GlobalConst : spelling x ("::" +:+ x +:+ " const") true.

Lemma cut_prefix_app p s : cut_prefix p (p +:+ s) = Some s.
Proof.
  unfold cut_prefix. rewrite startswith_app. f_equal. induction p as [|c p IH]; [done|]. apply IH.
Qed.

Lemma cut_suffix_app q s : cut_suffix q (s +:+ q) = Some s.
Proof.
  induction s as [|c s IH].
  - change ("" +:+ q) with q. destruct q; cbn [cut_suffix]; by rewrite decide_True.
  - rewrite str_app_cons. cbn [cut_suffix]. rewrite decide_False, IH; [done|].
    intros Heq%(f_equal String.length). cbn in Heq. rewrite str_length_app in Heq. lia.
Qed.

Lemma match_ptr_app g sp :
  g ≠ "" → contains_char ">" g = false → blank sp → match_ptr ("Ptr<" +:+ g +:+ ">" +:+ sp) = Some g.
Proof.
  intros Hg Hc Hs. unfold match_ptr. rewrite cut_prefix_app. cbn [mbind option_bind].
  change (">" +:+ sp) with (String ">" sp). rewrite split_once_app by done.
  rewrite decide_True; [done|]. split; [done|]. unfold strip. by rewrite Hs.
Qed.

Lemma rx_match_app p g sp :
  p ∈ [""; "ns3::"; "::ns3::"] → g ≠ "" → contains_char ">" g = false → blank sp →
  rx_match (p +:+ "Ptr<" +:+ g +:+ ">" +:+ sp) = Some g.
Proof.
  intros Hp Hg Hc Hs. unfold rx_match.
  pose proof (match_ptr_app g sp Hg Hc Hs) as Hm. set (s := "Ptr<" +:+ _) in *.
  rewrite !elem_of_cons in Hp. destruct Hp as [->|[->|[->|Hp%elem_of_nil]]]; [..|done].
  - change ("" +:+ s) with s. assert (cut_prefix "ns3::" s = None) as -> by done.
    by assert (cut_prefix "::ns3::" s = None) as -> by done.
  - rewrite cut_prefix_app. cbn [mbind option_bind]. by rewrite Hm.
  - assert (cut_prefix "ns3::" ("::ns3::" +:+ s) = None) as -> by done.
    rewrite cut_prefix_app. cbn [mbind option_bind]. by rewrite Hm.
Qed.

Lemma drop_last2_pointer x : drop_last2 (x +:+ " *") = x.
Proof.
  induction x as [|c x IH]; [done|]. rewrite str_app_cons.
  destruct x as [|d [|e x]]; [done|done|]. cbn [drop_last2] in *. by rewrite <- IH at 2.
Qed.

Section pointers.
Context (x : string) (Hx : class_name x).

Lemma cut_global_pointer : cut_prefix "::" (x +:+ " *") = None.
Proof.
  unfold cut_prefix. destruct Hx as [Hne _ _ _ _ _ Hg].
  destruct x as [|a [|b y]]; [done|..].
  - change (startswith "::" (String a "" +:+ " *")) with (bool_decide (":"%char = a) && false).
    by rewrite andb_false_r.
  - rewrite !str_app_cons. cbn [startswith] in *. by rewrite Hg.
Qed.

Lemma cut_const_before s : s = "" ∨ s = " const" → cut_prefix "const " (x +:+ s) = None.
Proof.
  intros Hs. unfold cut_prefix. destruct (startswith "const " (x +:+ s)) eqn:E; [|done].
  destruct Hs as [->| ->]; [|by rewrite (cn_prefix _ Hx) in E].
  rewrite app_empty_r in E. apply (startswith_trans _ _ " const") in E.
  by rewrite (cn_prefix _ Hx) in E.
Qed.

Lemma lstrip_app s : lstrip (x +:+ s) = x +:+ s.
Proof.
  destruct Hx as [Hne _ Hl _ _ _ _]. destruct x as [|c y]; [done|]. rewrite str_app_cons.
  cbn [lstrip] in *. destruct (is_space c); [|done].
  assert (String.length (lstrip y) ≤ String.length y)%nat as Hlen.
  { clear. induction y as [|d y IH]; [done|]. cbn. destruct (is_space d); cbn; lia. }
  rewrite Hl in Hlen. cbn in Hlen. lia.
Qed.

(** The body of a spelling is stripped, closed, and loses its qualifiers. *)
Lemma spelling_body b c :
  spelling x b c →
  b ≠ "" ∧ contains_char ">" b = false ∧ lstrip b = b ∧ rstrip b = b.
Proof.
  destruct Hx as [Hne Hcl Hl Hr _ _ _].
  assert (∀ p, rstrip (p +:+ x) = p +:+ x) as Hrx by (intros p; by rewrite rstrip_app, Hr by by rewrite Hr).
  assert (∀ s, rstrip (s +:+ " const") = s +:+ " const") as Hrc by (intros s; by rewrite rstrip_app).
  intros []; split_and!; try done; try apply Hrx; try apply Hrc; try apply lstrip_app;
    rewrite ?contains_char_app, ?Hcl; try done.
  - by destruct x.
  - change ("::" +:+ x +:+ " const") with (("::" +:+ x) +:+ " const"). apply Hrc.
Qed.

(** The traits, from the stripped body. *)
Definition unqualified (name1 : string) : option string * bool :=
  let '(name1, is_const) :=
    match cut_prefix "const " name1 with Some n => (n, true) | None => (name1, false) end in
  let '(name1, is_const) :=
    match cut_suffix " const" name1 with Some n => (n, true) | None => (name1, is_const) end in
  let new_name := name1 +:+ " *" in
  (Some (default new_name (cut_prefix "::" new_name)), is_const).

Lemma unqualified_spelling b c : spelling x b c → unqualified b = (Some (x +:+ " *"), c).
Proof.
  assert (cut_prefix "const " x = None) as Hcx.
  { rewrite <- (app_empty_r x). apply cut_const_before. by left. }
  assert (cut_suffix " const" ("::" +:+ x) = None) as Hgx.
  { rewrite !str_app_cons. cbn [cut_suffix]. rewrite !decide_False by done.
    change ("" +:+ x) with x. by rewrite (cn_suffix _ Hx). }
  assert (cut_prefix "::" (("::" +:+ x) +:+ " *") = Some (x +:+ " *")) as Hg2.
  { rewrite <- str_app_assoc. apply cut_prefix_app. }
  intros []; unfold unqualified.
  - by rewrite Hcx, (cn_suffix _ Hx), cut_global_pointer.
  - assert (cut_prefix "const " ("::" +:+ x) = None) as -> by done. by rewrite Hgx, Hg2.
  - by rewrite cut_prefix_app, (cn_suffix _ Hx), cut_global_pointer.
  - change ("const ::" +:+ x) with ("const " +:+ ("::" +:+ x)).
    by rewrite cut_prefix_app, Hgx, Hg2.
  - rewrite cut_const_before by by right. by rewrite cut_suffix_app, cut_global_pointer.
  - assert (cut_prefix "const " ("::" +:+ x +:+ " const") = None) as -> by done.
    rewrite str_app_assoc, cut_suffix_app. by rewrite Hg2.
Qed.

Lemma blank_closed s : blank s → contains_char ">" s = false.
Proof.
  unfold blank. induction s as [|c s IH]; [done|]. cbn [rstrip contains_char].
  destruct (rstrip s); [|done]. destruct (is_space c) eqn:E; [|done]. intros _.
  rewrite IH by done. by rewrite bool_decide_eq_false_2 by by intros <-.
Qed.

(** A pointer as it is written: the name space, the spelling of the class and
    blanks inside and after the brackets. *)
Definition written (p pad b pad' sp : string) : string :=
  p +:+ "Ptr<" +:+ (pad +:+ b +:+ pad') +:+ ">" +:+ sp.

Lemma traits_written p pad b pad' sp c :
  spelling x b c → p ∈ [""; "ns3::"; "::ns3::"] → blank pad → blank pad' → blank sp →
  _get_untransformed_type_traits (written p pad b pad' sp) = (Some (x +:+ " *"), c).
Proof.
  intros Hb Hp H1 H2 H3. destruct (spelling_body b c Hb) as (Hne & Hcl & Hl & Hr).
  unfold _get_untransformed_type_traits, written. rewrite rx_match_app; [|done| |
    by rewrite !contains_char_app, Hcl, !blank_closed|done].
  - rewrite strip_blanks by done. by apply unqualified_spelling.
  - destruct pad; [by destruct b|done].
Qed.
End pointers.

(** however a smart pointer to a class is written (with or without name
    space, [const] before or after the class, a leading [::], blanks anywhere
    inside the brackets or behind), the handler is registered for one
    canonical C type that only tells whether the class is constant, and is
    transformed to the plain pointer to the class; registering the canonical
    type itself changes nothing. *)
Theorem pointer_canonical x b c p pad pad' sp :
  class_name x → spelling x b c → p ∈ [""; "ns3::"; "::ns3::"] →
  blank pad → blank pad' → blank sp →
  let ctype := "ns3::Ptr< " +:+ x +:+ (if c then " const >" else " >") in
  handler_ctype (written p pad b pad' sp) = Ok (ctype, x +:+ " *") ∧
  handler_ctype ctype = Ok (ctype, x +:+ " *").
Proof.
  intros Hx Hb Hp H1 H2 H3 ctype.
  assert (∀ name, _get_untransformed_type_traits name = (Some (x +:+ " *"), c) →
            handler_ctype name = Ok (ctype, x +:+ " *")) as Hh.
  { intros name Hn. unfold handler_ctype. rewrite Hn, drop_last2_pointer. by destruct c. }
  split; apply Hh; [by apply traits_written|].
  assert (ctype = written "ns3::" " " (if c then x +:+ " const" else x) " " "") as ->.
  { unfold ctype, written. destruct c; rewrite <- ?str_app_assoc; done. }
  apply traits_written; [done| |set_solver|done..]. destruct c; constructor.
Qed.

(** A template inside the brackets is not recognised. *)
Example pointer_to_template :
  _get_untransformed_type_traits "ns3::Ptr<ns3::Callback<void> >" = (None, false) ∧
  handler_ctype "ns3::Ptr<ns3::Callback<void> >" = Raise TypeError.
Proof. by vm_compute. Qed.

(** What cannot be constructed is reported by a failure to format the report. *)
Lemma cannot_construct_message n incomplete_type p t :
  ns3_object_instance_creation_function n true incomplete_type "retval" p t = Raise TypeError.
Proof. reflexivity. Qed.

(** ** Instances *)
Lemma pointer_canonical_witness :
  let ctype := "ns3::Ptr< " +:+ "ns3::Packet" +:+ " const >" in
  written "::ns3::" " " "const ::ns3::Packet" "" " " = "::ns3::Ptr< const ::ns3::Packet> " ∧
  handler_ctype (written "::ns3::" " " "const ::ns3::Packet" "" " ") = Ok (ctype, "ns3::Packet *") ∧
  handler_ctype ctype = Ok (ctype, "ns3::Packet" +:+ " *").
Proof.
  split; [reflexivity|].
  apply (pointer_canonical "ns3::Packet" ("const ::" +:+ "ns3::Packet") true "::ns3::" " " "" " ").
  - split; first [reflexivity | discriminate].
  - constructor.
  - right. right. left.
  - reflexivity.
  - reflexivity.
  - reflexivity.
Defined.

Definition sample_root : root_module :=
  RootModule (list_to_set ("ns3::Node" :: mjoin feature_classes.*2 ++ feature_enums.*2)
                ∖ {["ns3::GtkConfigStore"]})
    (filter (λ c, c ≠ "ns3::GtkConfigStore") (mjoin feature_classes.*2) ++ ["ns3::Node"])
    feature_enums.*2.

Lemma sample_root_ok : features_ok sample_root.
Proof.
  split.
  - apply (bool_decide_unpack _). vm_compute. reflexivity.
  - apply (bool_decide_unpack _). vm_compute. reflexivity.
  - assert (Forall (λ c, c ∉ optional_classes → c ∈ registered sample_root ∧ c ∈ classes sample_root)
              (mjoin feature_classes.*2)) as Hall.
    { apply (bool_decide_unpack _). vm_compute. reflexivity. }
    intros c. apply (proj1 (Forall_forall _ _) Hall).
  - assert (Forall (λ c, (c ∈ registered sample_root → c ∈ classes sample_root) ∧
              (c ∈ classes sample_root → c ∈ registered sample_root)) optional_classes) as Hall.
    { apply (bool_decide_unpack _). vm_compute. reflexivity. }
    intros c Hc. by apply (proj1 (Forall_forall _ _) Hall).
  - assert (Forall (λ e, e ∈ registered sample_root ∧ e ∈ enums sample_root)
              (feature_enums.*2)) as Hall.
    { apply (bool_decide_unpack _). vm_compute. reflexivity. }
    intros e. apply (proj1 (Forall_forall _ _) Hall).
Qed.

Lemma disable_features_exact_witness :
  features_ok sample_root ∧
  disable_features ["Threading"; "RealTime"; "TapBridge"] sample_root =
  Ok (RootModule (registered sample_root)
        (filter (λ c, c ∉ disabled_classes ["Threading"; "RealTime"; "TapBridge"])
           (classes sample_root))
        (filter (λ e, e ∉ disabled_enums ["Threading"; "RealTime"; "TapBridge"])
           (enums sample_root))).
Proof. split; [exact sample_root_ok|]. exact (disable_features_exact sample_root sample_root_ok _). Defined.

Lemma every_section_has_sink_witness :
  is_ok (get_section_code_sink (section_sinks "out/ns3module.cc" ["core"; "network"; "point-to-point"; "tools"])
           "ns3_module_point_to_point") = true.
Proof.
  destruct (@make_sections tree_order "out/ns3modulegen.py" sample_modules) as [l|e] eqn:E;
    [|vm_compute in E; discriminate E].
  apply (@every_section_has_sink tree_order "out/ns3modulegen.py" "out/ns3module.cc" sample_modules
           ["core"; "network"; "point-to-point"; "tools"] l
           (PygenSection "ns3_module_point_to_point" "out/ns3_module_point_to_point.py"
              (Some "ns3_module_point_to_point__local")) E).
  - intros m [e He]. change (m ∈ ["core"; "network"; "point-to-point"; "tools"]).
    assert (map_Forall (λ m _, m ∈ ["core"; "network"; "point-to-point"; "tools"]) sample_modules) as Hall.
    { apply (bool_decide_unpack _). vm_compute. reflexivity. }
    exact (Hall m e He).
  - vm_compute in E. injection E as <-. cbn [sections]. do 3 right. left.
Defined.
