(* ===== verification/CommandTask.v ===== *)
(** * [waf-tools/command.py]: commands with substituted variables

    A [command] task parses its command line into a pipeline of [ShellCmd],
    substitutes the variables [${...}] in every word, file name, variable of
    the environment and directory, and runs the result.  Evaluating the Python
    expression of a variable is a parameter; a node of waf is the two paths
    the substitution asks it for. *)

From S2P Require Import Prelude PyStr ShellCmd.
From Stdlib Require Import Ascii.

Local Open Scope string_scope.
Local Open Scope list_scope.

Record path_node := PathNode { srcpath : string; bld_abspath : string }.

(** What [eval] returns, as far as [repl] tells: a node, the very list
    [self.inputs] or [self.outputs], another list, a string, [None], or an
    object of another type. *)
Inductive value :=
  | VNode (n : path_node)
  | VInputs
  | VOutputs
  | VList (l : list value)
  | VStr (s : string)
  | VNone
  | VOther.

(** ** [arg_rx]

    A match is [$$], or [${] with a variable, code up to the first closing
    brace of the line, and that brace. *)
Inductive arg_match := Dollar | Subst (var code : string).

Fixpoint word_prefix (s : string) : string * string :=
  match s with
  | "" => ("", "")
  | String c s' =>
      if is_word_char c then let '(w, r) := word_prefix s' in (String c w, r) else ("", s)
  end.

Fixpoint to_brace (s : string) : option (string * string) :=
  match s with
  | "" => None
  | String c s' =>
      if decide (c = "}"%char) then Some ("", s')
      else if decide (c = newline) then None
      else match to_brace s' with
           | Some (code, r) => Some (String c code, r)
           | None => None
           end
  end.

(** The match at the start of the text and what follows it. *)
Definition match_arg (s : string) : option (arg_match * string) :=
  match s with
  | String "$" (String "$" r) => Some (Dollar, r)
  | String "$" (String "{" r) =>
      let '(var, r) := word_prefix r in
      if decide (var = "") then None
      else match to_brace r with
           | Some (code, r) => Some (Subst var code, r)
           | None => None
           end
  | _ => None
  end.

(** The text cut at the matches, from left to right. *)
Fixpoint scan (fuel : nat) (s : string) : list (ascii + arg_match) :=
  match fuel, s with
  | S fuel, String c s' =>
      match match_arg s with
      | Some (m, r) => inr m :: scan fuel r
      | None => inl c :: scan fuel s'
      end
  | _, _ => []
  end.

Section subst.
Context (eval : string → result exn value) (inputs outputs : list path_node).

(** [repl]: the replacement of a match; [None] stands for nothing. *)
Definition repl (m : arg_match) : result exn value :=
  match m with
  | Dollar => Ok (VStr "$")
  | Subst var code =>
      result ← eval (var +:+ code);
      match result with
      | VNode n =>
          if decide (var = "TGT") then Ok (VStr (bld_abspath n))
          else if decide (var = "SRC") then Ok (VStr (srcpath n))
          else Raise (ValueError "Bad subst variable")
      | VInputs =>
          match inputs with
          | [n] => Ok (VStr (srcpath n))
          | _ => Raise (ValueError "${SRC} requested but have multiple sources; which one?")
          end
      | VOutputs =>
          match outputs with
          | [n] => Ok (VStr (bld_abspath n))
          | _ => Raise (ValueError "${TGT} requested but have multiple targets; which one?")
          end
      | VList [v] => Ok v
      | VList _ => Raise AssertionError
      | v => Ok v
      end
  end.

(** All replacements are made first; joining the pieces fails on one that is
    neither a string nor [None]. *)
Definition piece (x : ascii + arg_match) : result exn value :=
  match x with inl c => Ok (VStr (String c "")) | inr m => repl m end.

Definition join_piece (acc : string) (v : value) : result exn string :=
  match v with
  | VStr s => Ok (acc +:+ s)
  | VNone => Ok acc
  | _ => Raise TypeError
  end.

Definition _subst_arg (arg : string) : result exn string :=
  vs ← fold_res (λ acc x, v ← piece x; Ok (acc ++ [v])) [] (scan (String.length arg) arg);
  fold_res join_piece "" vs.

(** ** [run] *)

Definition subst_option (f : option string) : result exn (option string) :=
  match f with None => Ok None | Some s => s ← _subst_arg s; Ok (Some s) end.

(** Only names of files are strings. *)
Definition subst_redirect (r : option redirect) : result exn (option redirect) :=
  match r with Some (File f) => f ← _subst_arg f; Ok (Some (File f)) | r => Ok r end.

Definition subst_words (l : list string) : result exn (list string) :=
  fold_res (λ acc a, a ← _subst_arg a; Ok (acc ++ [a])) [] l.

Definition subst_env {ord : DictOrder string} (e : environ) : result exn environ :=
  fold_res (λ acc name, value ← dict_get KeyError e name; value ← _subst_arg value;
              Ok (<[name := value]> acc)) ∅ (dict_keys e).

Definition subst_command {ord : DictOrder string} (c : Command) : result exn Command :=
  i ← subst_option (cmd_stdin c);
  o ← subst_redirect (cmd_stdout c);
  e ← subst_redirect (cmd_stderr c);
  a ← subst_words (argv c);
  v ← subst_env (env_vars c);
  Ok (MkCommand (name c) a i o e v).

(** [self._subst_arg(None, ...)] is a [TypeError]. *)
Definition subst_node {ord : DictOrder string} (n : node) : result exn node :=
  match n with
  | Cmd c => c ← subst_command c; Ok (Cmd c)
  | Chdir (Some d) => d ← _subst_arg d; Ok (Chdir (Some d))
  | Chdir None => Raise TypeError
  | n => Ok n
  end.

Definition subst_pipeline {ord : DictOrder string} (pl : list node) : result exn (list node) :=
  fold_res (λ acc n, n ← subst_node n; Ok (acc ++ [n])) [] pl.

Definition run {ord : DictOrder string} (exit_code : launch → Z) (startable : launch → bool)
    (readable writable : string → bool) (os_environ : environ) (verbose : bool)
    (tokens : list string) : result exn (option Z) * list launch :=
  match (pl ← parse tokens; subst_pipeline pl) with
  | Ok pl => ShellCmd.run exit_code startable readable writable os_environ verbose pl
  | Raise e => (Raise e, [])
  end.
End subst.

(** The text shown for a task; the paths are those of its nodes. *)
Definition task_str (tokens src tgt : list string) : result exn string :=
  pl ← parse tokens;
  let sep := match tgt with [] => "" | _ => " -> " end in
  Ok ("command (" +:+ get_abbreviated_command pl +:+ "): " +:+ PyStr.join " " src +:+ sep
        +:+ PyStr.join " " tgt +:+ nl).

(** ** Templates: text and variables, as a user writes them *)
Inductive part := Lit (s : string) | Var (var code : string).

Fixpoint escape (s : string) : string :=
  match s with
  | "" => ""
  | String c s' => if decide (c = "$"%char) then String "$" (String "$" (escape s'))
                   else String c (escape s')
  end.

Definition render (p : part) : string :=
  match p with
  | Lit s => escape s
  | Var var code => "${" +:+ var +:+ code +:+ "}"
  end.

Fixpoint render_all (ps : list part) : string :=
  match ps with [] => "" | p :: ps => render p +:+ render_all ps end.

(** The name is a word, and the code starts with another character and holds
    neither a closing brace nor a newline. *)
Definition part_ok (p : part) : bool :=
  match p with
  | Lit _ => true
  | Var var code =>
      not_empty var && all_chars is_word_char var &&
      match code with "" => true | String c _ => negb (is_word_char c) end &&
      negb (contains_char "}" code) && negb (contains_char newline code)
  end.

(** [[f(x) for x in l]]. *)
Fixpoint map_res {E A B} (f : A → result E B) (l : list A) : result E (list B) :=
  match l with
  | [] => Ok []
  | x :: l => v ← f x; vs ← map_res f l; Ok (v :: vs)
  end.

Lemma fold_snoc {E A B} (f : A → result E B) acc l :
  fold_res (λ acc x, v ← f x; Ok (acc ++ [v])) acc l = vs ← map_res f l; Ok (acc ++ vs).
Proof.
  revert acc. induction l as [|x l IH]; intros acc; cbn [fold_res map_res].
  { cbn. by rewrite app_nil_r. }
  destruct (f x) as [v|e]; cbn [mbind result_bind]; [|done]. rewrite IH.
  destruct (map_res f l); cbn [mbind result_bind]; [|done]. by rewrite <- app_assoc.
Qed.

Lemma map_res_app {E A B} (f : A → result E B) l1 l2 :
  map_res f (l1 ++ l2) = vs1 ← map_res f l1; vs2 ← map_res f l2; Ok (vs1 ++ vs2).
Proof.
  induction l1 as [|x l1 IH]; cbn [app map_res mbind result_bind].
  { by destruct (map_res f l2). }
  destruct (f x); cbn [mbind result_bind]; [|done]. rewrite IH.
  destruct (map_res f l1); cbn [mbind result_bind]; [|done].
  by destruct (map_res f l2).
Qed.

Lemma map_res_Forall2 {E A B} (f : A → result E B) l vs :
  map_res f l = Ok vs → Forall2 (λ x v, f x = Ok v) l vs.
Proof.
  revert vs. induction l as [|x l IH]; intros vs Hl; cbn [map_res] in Hl.
  { injection Hl as <-. constructor. }
  destruct (f x) as [v|] eqn:E1; cbn in Hl; [|done].
  destruct (map_res f l) as [vs'|]; cbn in Hl; [|done]. injection Hl as <-.
  constructor; [done|by apply IH].
Qed.

(** *** The matches of a template *)
Fixpoint lit_pieces (s : string) : list (ascii + arg_match) :=
  match s with
  | "" => []
  | String c s' => (if decide (c = "$"%char) then inr Dollar else inl c) :: lit_pieces s'
  end.

Definition part_pieces (p : part) : list (ascii + arg_match) :=
  match p with Lit s => lit_pieces s | Var var code => [inr (Subst var code)] end.

Lemma match_arg_other c s : c ≠ "$"%char → match_arg (String c s) = None.
Proof.
  intros Hc. destruct c as [[] [] [] [] [] [] [] []]; try done; by destruct Hc.
Qed.

Lemma word_prefix_app w s :
  all_chars is_word_char w = true →
  match s with "" => true | String c _ => negb (is_word_char c) end = true →
  word_prefix (w +:+ s) = (w, s).
Proof.
  intros Hw Hs. induction w as [|c w IH].
  - change ("" +:+ s) with s. destruct s as [|c s]; [done|]. cbn [word_prefix].
    by destruct (is_word_char c).
  - cbn [all_chars] in Hw. apply andb_true_iff in Hw as [Hc Hw].
    rewrite str_app_cons. cbn [word_prefix]. by rewrite Hc, IH.
Qed.

Lemma to_brace_app code s :
  contains_char "}" code = false → contains_char newline code = false →
  to_brace (code +:+ "}" +:+ s) = Some (code, s).
Proof.
  induction code as [|c code IH]; intros Hb Hn; [done|].
  cbn [contains_char] in Hb, Hn. apply orb_false_iff in Hb as [Hb1 Hb].
  apply orb_false_iff in Hn as [Hn1 Hn]. rewrite str_app_cons. cbn [to_brace].
  apply bool_decide_eq_false in Hb1, Hn1. rewrite !decide_False by congruence.
  by rewrite IH.
Qed.

Lemma match_var var code s :
  part_ok (Var var code) = true →
  match_arg (render (Var var code) +:+ s) = Some (Subst var code, s).
Proof.
  cbn [part_ok render]. rewrite !andb_true_iff, !negb_true_iff. intros [[[[Hne Hw] Hc] Hb] Hn].
  rewrite <- !str_app_assoc.
  change ("${" +:+ ?x) with (String "$" (String "{" x)). cbn [match_arg]. rewrite word_prefix_app; [|done|by destruct code].
  rewrite decide_False by (intros ->; done).
  by rewrite to_brace_app.
Qed.

Lemma scan_render ps fuel :
  Forall (λ p, part_ok p = true) ps → (String.length (render_all ps) ≤ fuel)%nat →
  scan fuel (render_all ps) = ps ≫= part_pieces.
Proof.
  intros Hps. revert fuel. induction Hps as [|p ps Hp Hps IH]; intros fuel Hf.
  { by destruct fuel. }
  cbn [render_all] in *. rewrite bind_cons. destruct p as [s|var code].
  - cbn [render part_pieces] in *. clear Hp. revert fuel Hf.
    induction s as [|c s IHs]; intros fuel Hf; [by apply IH|]. cbn [escape lit_pieces] in *.
    destruct (decide (c = "$"%char)) as [->|Hc]; rewrite !str_app_cons in *;
      destruct fuel as [|fuel]; cbn [String.length] in Hf; try lia; cbn [scan].
    + cbn [match_arg]. rewrite IHs by lia. done.
    + rewrite match_arg_other by done. rewrite IHs by lia. done.
  - pose proof (match_var var code (render_all ps) Hp) as Hm. cbn [part_pieces app].
    destruct (render (Var var code) +:+ render_all ps) as [|c r] eqn:E; [done|].
    destruct fuel as [|fuel]; [cbn in Hf; lia|]. cbn [scan]. rewrite Hm.
    rewrite IH; [done|]. apply (f_equal String.length) in E.
    rewrite str_length_app in E. cbn [String.length] in E, Hf.
    assert (2 ≤ String.length (render (Var var code)))%nat; [|lia].
    unfold render. rewrite str_length_app. cbn [String.length]. lia.
Qed.

(** ** What a template is replaced by *)
Section spec.
Context (eval : string → result exn value) (inputs outputs : list path_node).

(** What [${variable code}] stands for, or the error it is: a target is its
    path in the build directory, a source its path from the source directory;
    [SRC] and [TGT] alone stand for the only one there is; a list of one element
    stands for the element, and the rest for itself. *)
Inductive stands_for (var code : string) : result exn value → Prop :=
  | eval_fails e : eval (var +:+ code) = Raise e → stands_for var code (Raise e)
  | target_node n : eval (var +:+ code) = Ok (VNode n) → var = "TGT" →
      stands_for var code (Ok (VStr (bld_abspath n)))
  | source_node n : eval (var +:+ code) = Ok (VNode n) → var = "SRC" →
      stands_for var code (Ok (VStr (srcpath n)))
  | other_node n : eval (var +:+ code) = Ok (VNode n) → var ≠ "TGT" → var ≠ "SRC" →
      stands_for var code (Raise (ValueError "Bad subst variable"))
  | only_source n : eval (var +:+ code) = Ok VInputs → inputs = [n] →
      stands_for var code (Ok (VStr (srcpath n)))
  | no_only_source : eval (var +:+ code) = Ok VInputs → length inputs ≠ 1%nat →
      stands_for var code
        (Raise (ValueError "${SRC} requested but have multiple sources; which one?"))
  | only_target n : eval (var +:+ code) = Ok VOutputs → outputs = [n] →
      stands_for var code (Ok (VStr (bld_abspath n)))
  | no_only_target : eval (var +:+ code) = Ok VOutputs → length outputs ≠ 1%nat →
      stands_for var code
        (Raise (ValueError "${TGT} requested but have multiple targets; which one?"))
  | only_element v : eval (var +:+ code) = Ok (VList [v]) → stands_for var code (Ok v)
  | no_only_element l : eval (var +:+ code) = Ok (VList l) → length l ≠ 1%nat →
      stands_for var code (Raise AssertionError)
  | itself v : eval (var +:+ code) = Ok v → v = VNone ∨ v = VOther ∨ (∃ s, v = VStr s) →
      stands_for var code (Ok v).

Definition part_means (p : part) (v : result exn value) : Prop :=
  match p with Lit s => v = Ok (VStr s) | Var var code => stands_for var code v end.

(** The text made of the values: the first failure, or else the strings one
    after the other, where [None] is nothing; another value is a TypeError. *)
Definition value_text (v : value) : option string :=
  match v with VStr s => Some s | VNone => Some "" | _ => None end.

Definition assembled (rs : list (result exn value)) : result exn string :=
  vs ← map_res id rs;
  match mapM value_text vs with
  | Some l => Ok (foldr String.append "" l)
  | None => Raise TypeError
  end.

Lemma repl_stands_for var code : stands_for var code (repl eval inputs outputs (Subst var code)).
Proof.
  cbn [repl]. destruct (eval (var +:+ code)) as [v|e] eqn:E; [|by apply eval_fails].
  cbn [mbind result_bind]. destruct v as [n| | |l|x| |].
  - case_decide as Ht; [by apply target_node|]. case_decide as Hs; [by apply source_node|].
    by eapply other_node.
  - destruct inputs as [|n [|m l]] eqn:El; [..|by apply only_source|];
      apply no_only_source; by rewrite ?El.
  - destruct outputs as [|n [|m l]] eqn:El; [..|by apply only_target|];
      apply no_only_target; by rewrite ?El.
  - destruct l as [|v [|w l]]; [by eapply no_only_element|by apply only_element|].
    by eapply no_only_element.
  - apply itself; eauto.
  - apply itself; eauto.
  - apply itself; eauto.
Qed.

Definition part_value (p : part) : result exn value :=
  match p with
  | Lit s => Ok (VStr s)
  | Var var code => repl eval inputs outputs (Subst var code)
  end.

Lemma parts_mean ps : Forall2 part_means ps (part_value <$> ps).
Proof.
  apply Forall2_fmap_r, Forall_Forall2_diag, Forall_forall. intros [s|var code] _; [done|].
  apply repl_stands_for.
Qed.

Lemma map_res_id {E A B} (f : A → result E B) l : map_res id (f <$> l) = map_res f l.
Proof. induction l as [|x l IH]; [done|]. rewrite fmap_cons. cbn [map_res]. by rewrite IH. Qed.

Lemma join_pieces acc vs :
  fold_res join_piece acc vs =
  match mapM value_text vs with
  | Some l => Ok (acc +:+ foldr String.append "" l)
  | None => Raise TypeError
  end.
Proof.
  revert acc. induction vs as [|v vs IH]; intros acc; cbn [fold_res mapM].
  { change (Ok acc = Ok (acc +:+ "") :> result exn string). by rewrite app_empty_r. }
  destruct v; cbn [join_piece value_text mbind result_bind option_bind]; try done; rewrite IH;
    destruct (mapM value_text vs) as [l|]; cbn; try done; f_equal.
  by rewrite <- str_app_assoc.
Qed.

Abbreviation piece := (piece eval inputs outputs).

Lemma lit_pieces_values s : ∃ vs, map_res piece (lit_pieces s) = Ok vs ∧
  ∀ acc, fold_res join_piece acc vs = Ok (acc +:+ s).
Proof.
  induction s as [|c s (vs & Hvs & Hj)].
  { exists []. split; [done|]. intros acc. by rewrite app_empty_r. }
  exists (VStr (String c "") :: vs). cbn [lit_pieces map_res]. rewrite Hvs. split.
  - by case_decide; subst.
  - intros acc. cbn [fold_res join_piece mbind result_bind]. by rewrite Hj, <- str_app_assoc.
Qed.

Lemma pieces_values ps :
  match map_res part_value ps with
  | Raise e => map_res piece (ps ≫= part_pieces) = Raise e
  | Ok vs => ∃ vs', map_res piece (ps ≫= part_pieces) = Ok vs' ∧
      ∀ acc, fold_res join_piece acc vs' = fold_res join_piece acc vs
  end.
Proof.
  induction ps as [|p ps IH]; [by exists []|]. rewrite bind_cons, map_res_app.
  cbn [map_res]. destruct p as [s|var code]; cbn [part_value part_pieces].
  - destruct (lit_pieces_values s) as (vs1 & -> & Hj1). cbn [mbind result_bind].
    destruct (map_res part_value ps) as [vs|e]; cbn [mbind result_bind].
    + destruct IH as (vs' & -> & Hj). exists (vs1 ++ vs'). split; [done|].
      intros acc. rewrite fold_res_app, Hj1. cbn [mbind result_bind fold_res join_piece].
      apply Hj.
    + by rewrite IH.
  - cbn [map_res CommandTask.piece].
    destruct (repl eval inputs outputs (Subst var code)) as [v|e]; cbn [mbind result_bind]; [|done].
    destruct (map_res part_value ps) as [vs|e]; cbn [mbind result_bind].
    + destruct IH as (vs' & -> & Hj). exists (v :: vs'). split; [done|].
      intros acc. cbn [app fold_res]. destruct (join_piece acc v); cbn [mbind result_bind]; [|done].
      apply Hj.
    + by rewrite IH.
Qed.

(** C33: substitution reads back what a template was made of, where the name of
    each variable is a word and the code after it, which does not go on with a
    word character, holds no closing brace and no newline: text in which every
    dollar is doubled stands for itself, whatever it holds, and every
    [${variable code}] is evaluated once, in order, and replaced by what it
    stands for: the source's path for [SRC], the target's path in the build
    directory for [TGT], the only element of a list, or the string itself
    ([stands_for]).  The first failing evaluation or replacement is the result,
    and only then a value that is no string. *)
Theorem subst_template ps :
  Forall (λ p, part_ok p = true) ps →
  ∃ rs, Forall2 part_means ps rs ∧
    _subst_arg eval inputs outputs (render_all ps) = assembled rs.
Proof.
  intros Hps. exists (part_value <$> ps). split; [apply parts_mean|].
  unfold _subst_arg, assembled. rewrite scan_render by done. rewrite fold_snoc, map_res_id.
  pose proof (pieces_values ps) as Hv.
  destruct (map_res part_value ps) as [vs|e]; cbn [mbind result_bind]; [|by rewrite Hv].
  destruct Hv as (vs' & -> & Hj). cbn [mbind result_bind app]. rewrite Hj, join_pieces.
  by destruct (mapM value_text vs).
Qed.

(** [SRC] and [TGT] stand for the only source or target; with another number
    of them the substitution fails. *)
Lemma subst_src :
  eval "SRC" = Ok VInputs →
  _subst_arg eval inputs outputs "${SRC}" =
    match inputs with
    | [n] => Ok (srcpath n)
    | _ => Raise (ValueError "${SRC} requested but have multiple sources; which one?")
    end.
Proof.
  intros He. change "${SRC}" with (render_all [Var "SRC" ""]).
  unfold _subst_arg. rewrite scan_render by (by repeat constructor).
  rewrite fold_snoc. change ([Var "SRC" ""] ≫= part_pieces) with [inr (A := ascii) (Subst "SRC" "")].
  cbn [map_res CommandTask.piece repl]. change ("SRC" +:+ "") with "SRC".
  rewrite He. by destruct inputs as [|n []].
Qed.
End spec.

(** ** Running a task *)
Section task.
Context (eval : string → result exn value) (inputs outputs : list path_node).
Context {ord : DictOrder string}.
Context (exit_code : launch → Z) (startable : launch → bool).
Context (readable writable : string → bool) (os_environ : environ).

Abbreviation subst_node := (subst_node eval inputs outputs).
Abbreviation subst_pipeline := (subst_pipeline eval inputs outputs).
Abbreviation subst_words := (subst_words eval inputs outputs).

Lemma subst_pipeline_Forall2 pl pl' :
  subst_pipeline pl = Ok pl' → Forall2 (λ n n', subst_node n = Ok n') pl pl'.
Proof.
  unfold CommandTask.subst_pipeline. rewrite fold_snoc. intros H.
  destruct (map_res subst_node pl) as [vs|] eqn:E; [|done]. injection H as <-.
  by apply map_res_Forall2.
Qed.

Lemma subst_redirect_pipe r r' :
  subst_redirect eval inputs outputs r = Ok r' → r' = Some PIPE ↔ r = Some PIPE.
Proof.
  destruct r as [[| |f]|]; cbn [subst_redirect]; intros H; res_inv; simplify_eq; done.
Qed.

(** A command stays a command, whose words are substituted one by one. *)
Lemma subst_node_cases n n' :
  subst_node n = Ok n' →
  match n with
  | Cmd c => ∃ c', n' = Cmd c' ∧ subst_words (argv c) = Ok (argv c') ∧
               (cmd_stdout c' = Some PIPE ↔ cmd_stdout c = Some PIPE)
  | Chdir d => ∃ s s', d = Some s ∧ n' = Chdir (Some s')
  | _ => n' = n
  end.
Proof.
  destruct n as [c|[d|]| | |]; cbn [CommandTask.subst_node]; intros Hn;
    try discriminate Hn; try (injection Hn as <-; done).
  - apply bind_Ok_inv in Hn as (c' & Hc & [= <-]). exists c'. split; [done|].
    unfold subst_command in Hc.
    apply bind_Ok_inv in Hc as (i & _ & Hc). apply bind_Ok_inv in Hc as (o & Ho & Hc).
    apply bind_Ok_inv in Hc as (e & _ & Hc). apply bind_Ok_inv in Hc as (a & Ha & Hc).
    apply bind_Ok_inv in Hc as (v & _ & [= <-]). split; [done|]. by apply subst_redirect_pipe.
  - apply bind_Ok_inv in Hn as (s' & _ & [= <-]). by exists d, s'.
Qed.

(** The substituted pipeline is as one that was parsed. *)
Lemma subst_shape pl pl' :
  Forall2 (λ n n', subst_node n = Ok n') pl pl' → shape pl → shape pl'.
Proof.
  intros H2 Hr. revert pl' H2.
  induction Hr as [c Hc|d|c op rest Hj Hr IH|d rest Hr IH]; intros pl' H2;
    apply Forall2_cons_inv_l in H2 as (n & r1 & Hn%subst_node_cases & H2 & ->).
  - apply Forall2_nil_inv_l in H2 as ->. destruct Hn as (c' & -> & _ & Hp).
    constructor. by rewrite Hp.
  - apply Forall2_nil_inv_l in H2 as ->. destruct Hn as (s & s' & _ & ->). constructor.
  - apply Forall2_cons_inv_l in H2 as (n2 & r2 & Hn2%subst_node_cases & H2 & ->).
    destruct Hn as (c' & -> & _ & Hp).
    assert (n2 = op) as -> by (by destruct op).
    constructor; [|by apply IH]. destruct op; cbn [joins] in *; by rewrite ?Hp.
  - apply Forall2_cons_inv_l in H2 as (n2 & r2 & Hn2%subst_node_cases & H2 & ->).
    destruct Hn as (s & s' & _ & ->). cbn in Hn2. subst n2. constructor. by apply IH.
Qed.

(** The commands of the groups are those of the pipeline. *)
Lemma elem_of_steps pl cwd w c op : (w, c, op) ∈ (steps cwd pl).1 → Cmd c ∈ pl.
Proof.
  revert cwd. induction pl as [pl IH] using (induction_ltof1 _ length). intros cwd Hin.
  destruct pl as [|[c'|[d|]| | |] rest]; try by apply elem_of_nil in Hin.
  - cbn [steps] in Hin. destruct rest as [|op' rest].
    + apply list_elem_of_singleton in Hin as [= _ -> _]. left.
    + specialize (IH rest). destruct (steps cwd rest) as [l e] eqn:Es. cbn [fst] in Hin.
      apply elem_of_cons in Hin as [[= _ -> _]|Hin]; [left|].
      right. right. eapply (IH ltac:(unfold ltof; cbn; lia) cwd). by rewrite Es.
  - cbn [steps] in Hin. destruct rest as [|[| | | |] rest]; try by apply elem_of_nil in Hin.
    right. right. eapply IH; [|done]. unfold ltof. cbn. lia.
  - cbn [steps] in Hin. destruct rest as [|[| | | |] rest]; by apply elem_of_nil in Hin.
Qed.

Lemma elem_of_groups l e acc g op w c :
  (g, op) ∈ to_groups acc l e → (w, c) ∈ g → (w, c) ∈ acc ∨ ∃ o, (w, c, o) ∈ l.
Proof.
  revert acc. induction l as [|[[w' c'] o] l IH]; intros acc Hin Hg; cbn [to_groups] in Hin.
  { apply list_elem_of_singleton in Hin as [= -> _]. by left. }
  assert ((w, c) ∈ acc ++ [(w', c')] → (w, c) ∈ acc ∨ ∃ o0, (w, c, o0) ∈ (w', c', o) :: l) as Hhead.
  { intros [?|Ha%list_elem_of_singleton]%elem_of_app; [by left|].
    injection Ha as -> ->. right. exists o. left. }
  assert (∀ acc', (g, op) ∈ to_groups acc' l e → ((w, c) ∈ acc' → (w, c) ∈ acc ++ [(w', c')]) →
            (w, c) ∈ acc ∨ ∃ o0, (w, c, o0) ∈ (w', c', o) :: l) as Hnext.
  { intros acc' Hin' Hacc. destruct (IH acc' Hin' Hg) as [Ha|[o' Ho]]; [|right; exists o'; by right].
    by apply Hhead, Hacc. }
  destruct o as [[| | | |]|];
    try (apply elem_of_cons in Hin as [[= -> ->]|Hin]; [by apply Hhead|
         by eapply Hnext; [done|intros ?%elem_of_nil]]).
  - by eapply Hnext.
  - apply list_elem_of_singleton in Hin as [= -> _]. by apply Hhead.
Qed.

Lemma elem_of_start_all x l :
  x ∈ (start_all startable readable writable l).2 → x ∈ l.
Proof.
  induction l as [|y l IH]; cbn [start_all]; intros Hx; [done|].
  destruct (obstacle _ _ _ y); [by apply elem_of_nil in Hx|].
  destruct (start_all _ _ _ l) as [e t]. cbn [snd] in *.
  apply elem_of_cons in Hx as [->|Hx]; [left|right; by apply IH].
Qed.

Lemma elem_of_eval_groups verbose gs l :
  l ∈ (eval_groups exit_code startable readable writable os_environ verbose gs).2 →
  ∃ g op wc piped, (g, op) ∈ gs ∧ wc ∈ g ∧ l = process os_environ piped wc.
Proof.
  induction gs as [|[g op] gs IH]; cbn [eval_groups]; intros Hl; [by apply elem_of_nil in Hl|].
  assert (l ∈ processes os_environ g → ∃ g0 op0 wc piped,
    (g0, op0) ∈ (g, op) :: gs ∧ wc ∈ g0 ∧ l = process os_environ piped wc) as Hg.
  { intros Hp. exists g, op. destruct g as [|x g]; [by apply elem_of_nil in Hp|].
    cbn [processes] in Hp. apply elem_of_cons in Hp as [->|Hp].
    - exists x, false. split_and!; [left|left|done].
    - apply list_elem_of_fmap in Hp as (y & -> & Hy). exists y, true.
      split_and!; [left|by right|done]. }
  pose proof (elem_of_start_all l (processes os_environ g)) as Hst.
  destruct (start_all _ _ _ _) as [[e|] t]; cbn [snd] in *; [by apply Hg, Hst|].
  destruct op as [op| |e]; [|by apply Hg, Hst..].
  destruct verbose; [by apply Hg, Hst|].
  destruct (match op with Or => _ | _ => _ end); [by apply Hg, Hst|].
  destruct (eval_groups _ _ _ _ _ _ gs) as [r t']. cbn [snd] in *.
  apply elem_of_app in Hl as [Hl|Hl]; [by apply Hg, Hst|].
  destruct (IH Hl) as (g0 & op0 & wc & piped & Hin & ? & ?). exists g0, op0, wc, piped.
  split_and!; [by right|done..].
Qed.

(** C32: a task either starts nothing, because its command line does not parse
    or one of its substitutions fails, or it runs the groups of the
    substituted pipeline as [ShellCmd] specifies for any pipeline (verbose with
    [waf -v], when the first [&&] or [||] is an error; with the errors of files
    that cannot be opened, of programs that cannot be started and of a last
    [cd], which come after the processes before them have been started), and
    every process started is that of a command of the line with its words
    substituted one by one: a substituted value is never split or taken for an
    operator. *)
Theorem command_task_runs verbose tokens :
  let task := run eval inputs outputs exit_code startable readable writable os_environ
                verbose tokens in
  match (pl ← parse tokens; subst_pipeline pl) with
  | Raise e => task = (Raise e, [])
  | Ok pl' =>
      task = eval_groups exit_code startable readable writable os_environ verbose (groups_of pl') ∧
      ∃ pl, parse tokens = Ok pl ∧
        Forall (λ l, ∃ c, Cmd c ∈ pl ∧ subst_words (argv c) = Ok (l_argv l)) task.2
  end.
Proof.
  intros task. subst task. unfold run. pose proof (parse_shape tokens) as Hsh.
  destruct (parse tokens) as [pl|e]; cbn [mbind result_bind]; [|done].
  destruct (subst_pipeline pl) as [pl'|e] eqn:E; [|done].
  apply subst_pipeline_Forall2 in E. pose proof (subst_shape _ _ E Hsh) as Hsh'.
  assert (ShellCmd.run exit_code startable readable writable os_environ verbose pl' =
    eval_groups exit_code startable readable writable os_environ verbose (groups_of pl')) as Hrun.
  { pose proof (run_loop_groups exit_code startable readable writable os_environ verbose pl' "."
      [] [] Hsh' eq_refl) as H. unfold groups_of. destruct (steps "." pl') as [l e].
    etrans; [exact H|]. by destruct (eval_groups _ _ _ _ _ _ _). }
  split; [exact Hrun|]. exists pl. split; [done|]. rewrite Hrun.
  apply Forall_forall. intros l Hl.
  destruct (elem_of_eval_groups _ _ _ Hl) as (g & op & [w c'] & b & Hg & Hwc & ->).
  unfold groups_of in Hg. destruct (steps "." pl') as [ss e] eqn:Es.
  destruct (elem_of_groups _ _ _ _ _ _ _ Hg Hwc) as [?%elem_of_nil|[o Ho]]; [done|].
  assert (Cmd c' ∈ pl') as Hc' by (eapply (elem_of_steps pl' "."); by rewrite Es).
  apply list_elem_of_lookup in Hc' as [i Hi].
  destruct (Forall2_lookup_r _ _ _ _ _ E Hi) as (n & Hn & Hs%subst_node_cases).
  destruct n as [c|d| | |]; [|naive_solver|done..].
  destruct Hs as (c2 & [= <-] & Hw & _). exists c. split; [by eapply list_elem_of_lookup_2|]. exact Hw.
Qed.
End task.

(** ** Instances *)
Definition sample_eval (e : string) : result exn value :=
  if decide (e = "SRC") then Ok VInputs
  else if decide (e = "TGT") then Ok VOutputs
  else if decide (e = "TGT[0]") then Ok (VNode (PathNode "out.h" "/build/out.h"))
  else if decide (e = "PYTHON") then Ok (VList [VStr "/usr/bin/python && rm"])
  else Raise (PyException "NameError").

Definition sample_in : list path_node := [PathNode "gen.py" "/build/gen.py"].
Definition sample_out : list path_node := [PathNode "out.h" "/build/out.h"].

Lemma subst_template_witness :
  let ps := [Lit "cost: $5 ${"; Var "TGT" "[0]"; Lit "}"] in
  render_all ps = "cost: $$5 $${${TGT[0]}}" ∧
  _subst_arg sample_eval sample_in sample_out (render_all ps) = Ok "cost: $5 ${/build/out.h}" ∧
  ∃ rs, Forall2 (part_means sample_eval sample_in sample_out) ps rs ∧
    _subst_arg sample_eval sample_in sample_out (render_all ps) = assembled rs.
Proof.
  intros ps. split; [reflexivity|split; [vm_compute; reflexivity|]].
  apply (subst_template sample_eval sample_in sample_out ps). repeat constructor.
Defined.

(** The value of [PYTHON] holds an operator, and stays one word; with [-v] the
    task stops at [||]. *)
Lemma command_task_runs_witness :
  let tokens := ["${PYTHON}"; "${SRC}"; ">"; "${TGT}"; "||"; "cd"; "tmp"; "&&"; "true"] in
  let o := @tree_order string _ _ in
  let task v := run sample_eval sample_in sample_out (λ _, 1%Z) (λ _, true) (λ _, true)
                  (λ _, true) ∅ v tokens in
  map l_argv (task false).2 = [["/usr/bin/python && rm"; "gen.py"]; ["true"]] ∧
  (task true).1 = Raise UnboundLocalError ∧
  ∃ pl, parse tokens = Ok pl ∧
    Forall (λ l, ∃ c, Cmd c ∈ pl ∧
      subst_words sample_eval sample_in sample_out (argv c) = Ok (l_argv l)) (task false).2.
Proof.
  intros tokens o task. split; [vm_compute; reflexivity|]. split; [vm_compute; reflexivity|].
  apply (@command_task_runs sample_eval sample_in sample_out o (λ _, 1%Z) (λ _, true)
           (λ _, true) (λ _, true) ∅ false tokens).
Defined.

(** An expression that cannot be evaluated starts nothing. *)
Example unknown_variable :
  @run sample_eval sample_in sample_out tree_order (λ _, 0%Z) (λ _, true) (λ _, true) (λ _, true)
    ∅ false ["rm"; "-rf"; "x"; "&&"; "${PYTHONX}"] = (Raise (PyException "NameError"), []).
Proof. vm_compute. reflexivity. Qed.
