(* ===== verification/MiscTools.v ===== *)
(** * [waf-tools/misc.py]: substitution in [.in] files and [command-output]

    Two task generators of waf.  [subst_func] replaces [@variables@] through
    Python's own formatting, with a dictionary that all tasks of a generator
    share.  [apply_cmd_output] collects the files a command reads and writes
    into the dependencies of its task.  Nodes are found by the build system,
    through parameters. *)

From S2P Require Import Prelude PyStr ShellCmd.
From Stdlib Require Import Ascii.

Local Open Scope string_scope.
Local Open Scope list_scope.

(** ** [subst_func] *)

(** The longest prefix of word characters. *)
Fixpoint word_span (s : string) : string * string :=
  match s with
  | "" => ("", "")
  | String c s' =>
      if is_word_char c then let '(w, r) := word_span s' in (String c w, r) else ("", s)
  end.

(** [m4_re], [@(\w+)@], at the start of the text: the name and the rest. *)
Definition match_m4 (s : string) : option (string * string) :=
  match s with
  | String "@" r =>
      match word_span r with
      | (w, String "@" r') => if decide (w = "") then None else Some (w, r')
      | _ => None
      end
  | _ => None
  end.

(** The text cut at the matches. *)
Fixpoint cut_m4 (fuel : nat) (s : string) : list (ascii + string) :=
  match fuel, s with
  | S fuel, String c s' =>
      match match_m4 s with
      | Some (w, r) => inr w :: cut_m4 fuel r
      | None => inl c :: cut_m4 fuel s'
      end
  | _, _ => []
  end.

Definition m4_pieces (code : string) : list (ascii + string) := cut_m4 (String.length code) code.

(** [code.replace('%', '%%')]. *)
Fixpoint double_percent (s : string) : string :=
  match s with
  | "" => ""
  | String c s => if decide (c = "%"%char) then String "%" (String "%" (double_percent s))
                  else String c (double_percent s)
  end.

(** [m4_re.sub(r'%(\1)s', code)] and [m4_re.findall(code)]. *)
Definition sub_piece (x : ascii + string) : string :=
  match x with inl c => String c "" | inr w => "%(" +:+ w +:+ ")s" end.

Fixpoint concat_str (l : list string) : string :=
  match l with [] => "" | s :: l => s +:+ concat_str l end.

Definition m4_sub (code : string) : string := concat_str (sub_piece <$> m4_pieces code).

Definition m4_findall (code : string) : list string :=
  m4_pieces code ≫= λ x, match x with inl _ => [] | inr w => [w] end.

Fixpoint to_paren (s : string) : option (string * string) :=
  match s with
  | "" => None
  | String c s' =>
      if decide (c = ")"%char) then Some ("", s')
      else match to_paren s' with Some (k, r) => Some (String c k, r) | None => None end
  end.

(** [s % di] for a dictionary: [%%] and [%(key)s].  The other conversions of
    the language do not occur in what [m4_sub] makes, and count as errors. *)
Fixpoint format (fuel : nat) (s : string) (di : gmap string string) : result exn string :=
  match fuel, s with
  | S fuel, String c s' =>
      if decide (c = "%"%char) then
        match s' with
        | String "%" r => t ← format fuel r di; Ok (String "%" t)
        | String "(" r =>
            match to_paren r with
            | Some (key, String "s" r) =>
                v ← dict_get KeyError di key; t ← format fuel r di; Ok (v +:+ t)
            | _ => Raise (ValueError "unsupported format character")
            end
        | _ => Raise (ValueError "unsupported format character")
        end
      else t ← format fuel s' di; Ok (String c t)
  | _, _ => Ok ""
  end.

Section subst_func.
Context (get_flat : string → string) (upper : string → string).

(** [env.get_flat(i) or env.get_flat(i.upper())]. *)
Definition env_value (i : string) : string :=
  if decide (get_flat i = "") then get_flat (upper i) else get_flat i.

(** One task; [di] is the dictionary of the generator, which is the one of the
    task and is filled in place when it is empty. *)
Definition subst_func (code : string) (di : gmap string string) :
    result exn string * gmap string string :=
  let code := double_percent code in
  let s := m4_sub code in
  let di :=
    if decide (di = ∅) then foldl (λ di i, <[i := env_value i]> di) di (m4_findall code) else di in
  (format (String.length s) s di, di).

(** The tasks of one generator, one after the other. *)
Fixpoint subst_tasks (codes : list string) (di : gmap string string) : list (result exn string) :=
  match codes with
  | [] => []
  | code :: codes => let '(out, di) := subst_func code di in out :: subst_tasks codes di
  end.
End subst_func.

(** ** What the substitution should do: each variable by its value, the rest
    as it is *)
Fixpoint direct (lookup : string → option string) (l : list (ascii + string)) : result exn string :=
  match l with
  | [] => Ok ""
  | inl c :: l => t ← direct lookup l; Ok (String c t)
  | inr w :: l => v ← of_option KeyError (lookup w); t ← direct lookup l; Ok (v +:+ t)
  end.

(** *** Doubling the percent signs does not disturb the matches *)
Lemma word_span_double s :
  word_span (double_percent s) = let '(w, r) := word_span s in (w, double_percent r).
Proof.
  induction s as [|c s IH]; [done|]. cbn [double_percent word_span].
  destruct (decide (c = "%"%char)) as [->|Hc].
  - reflexivity.
  - cbn [word_span]. destruct (is_word_char c).
    + rewrite IH. by destruct (word_span s).
    + cbn [double_percent]. by rewrite decide_False.
Qed.

Lemma match_m4_other c s : c ≠ "@"%char → match_m4 (String c s) = None.
Proof. intros Hc. destruct c as [[] [] [] [] [] [] [] []]; try done; by destruct Hc. Qed.

(** After the name: a closing sign, which doubling keeps. *)
Definition after_at (s : string) : option string :=
  match s with String "@" r => Some r | _ => None end.

Lemma after_at_other c s : c ≠ "@"%char → after_at (String c s) = None.
Proof. intros Hc. destruct c as [[] [] [] [] [] [] [] []]; try done; by destruct Hc. Qed.

Lemma after_at_double s : after_at (double_percent s) = double_percent <$> after_at s.
Proof.
  destruct s as [|c s]; [done|]. cbn [double_percent].
  destruct (decide (c = "%"%char)) as [->|Hc]; [done|].
  destruct (decide (c = "@"%char)) as [->|Ha]; [done|]. by rewrite !after_at_other.
Qed.

Lemma match_m4_at r :
  match_m4 (String "@" r) =
  let '(w, r) := word_span r in
  if decide (w = "") then None else (λ r, (w, r)) <$> after_at r.
Proof.
  cbn [match_m4]. destruct (word_span r) as [w r']. destruct r' as [|c r']; [by case_decide|].
  destruct (decide (c = "@"%char)) as [->|Hc]; [done|]. rewrite after_at_other by done.
  destruct c as [[] [] [] [] [] [] [] []]; try (by case_decide); by destruct Hc.
Qed.

Lemma match_m4_double s :
  match_m4 (double_percent s) = (λ '(w, r), (w, double_percent r)) <$> match_m4 s.
Proof.
  destruct s as [|c s]; [done|]. cbn [double_percent].
  destruct (decide (c = "%"%char)) as [->|Hc]; [done|].
  destruct (decide (c = "@"%char)) as [->|Ha]; [|by rewrite !match_m4_other].
  rewrite !match_m4_at, word_span_double. destruct (word_span s) as [w r].
  case_decide; [done|]. rewrite after_at_double. by destruct (after_at r).
Qed.

Lemma word_span_length s w r : word_span s = (w, r) → s = w +:+ r ∧ all_chars is_word_char w = true.
Proof.
  revert w r. induction s as [|c s IH]; intros w r Hs; cbn [word_span] in Hs; [by injection Hs as <- <-|].
  destruct (is_word_char c) eqn:E; [|by injection Hs as <- <-].
  destruct (word_span s) as [w' r']. injection Hs as <- <-. destruct (IH _ _ eq_refl) as [-> Hw].
  split; [done|]. cbn [all_chars]. by rewrite E.
Qed.

Lemma match_m4_spec s w r :
  match_m4 s = Some (w, r) →
  (String.length r < String.length s)%nat ∧ all_chars is_word_char w = true.
Proof.
  destruct s as [|c s]; [done|]. destruct (decide (c = "@"%char)) as [->|Hc];
    [|by rewrite match_m4_other].
  rewrite match_m4_at. destruct (word_span s) as [w' r'] eqn:E. case_decide; [done|].
  apply word_span_length in E as [-> Hw]. destruct r' as [|c r']; [done|].
  destruct (decide (c = "@"%char)) as [->|Hc]; [|by rewrite after_at_other].
  intros [= <- <-]. split; [|done]. cbn [String.length]. rewrite str_length_app. cbn. lia.
Qed.

Definition double_piece (x : ascii + string) : list (ascii + string) :=
  match x with
  | inl c => if decide (c = "%"%char) then [inl c; inl c] else [inl c]
  | inr w => [inr w]
  end.

Lemma double_percent_length s : (String.length s ≤ String.length (double_percent s))%nat.
Proof.
  induction s as [|c s IH]; [done|]. cbn [double_percent]. case_decide; cbn [String.length]; lia.
Qed.

Lemma cut_m4_double s fuel fuel' :
  (String.length s ≤ fuel)%nat → (String.length (double_percent s) ≤ fuel')%nat →
  cut_m4 fuel' (double_percent s) = cut_m4 fuel s ≫= double_piece.
Proof.
  revert s fuel'. induction fuel as [|fuel IH]; intros s fuel' Hf Hf'.
  { destruct s; [|cbn in Hf; lia]. by destruct fuel'. }
  destruct s as [|c s]; [by destruct fuel'|].
  assert (double_percent (String c s) ≠ "") as Hne by (cbn [double_percent]; by case_decide).
  pose proof (match_m4_double (String c s)) as Hm.
  cbn [cut_m4]. destruct (match_m4 (String c s)) as [[w r]|] eqn:E.
  - destruct fuel' as [|fuel']; [destruct (double_percent (String c s)); [done|cbn in Hf'; lia]|].
    destruct (match_m4_spec _ _ _ E) as [Hlen _].
    assert (match_m4 (double_percent (String c s)) = Some (w, double_percent r)) as Hd by done.
    destruct (match_m4_spec _ _ _ Hd) as [Hlen' _].
    destruct (double_percent (String c s)) as [|c' s'] eqn:Ed; [done|].
    cbn [cut_m4]. rewrite Hd, bind_cons. cbn [double_piece app]. f_equal.
    apply IH; [cbn in Hf, Hlen; lia|cbn in Hf', Hlen'; lia].
  - rewrite bind_cons. cbn [double_piece double_percent] in *.
    destruct (decide (c = "%"%char)) as [->|Hc]; cbn [String.length] in *.
    + destruct fuel' as [|[|fuel']]; [lia..|]. cbn [cut_m4].
      rewrite !match_m4_other by done. cbn [app]. do 2 f_equal. apply IH; lia.
    + destruct fuel' as [|fuel']; [lia|]. cbn [cut_m4]. rewrite Hm. cbn [app fmap option_fmap option_map].
      f_equal. apply IH; lia.
Qed.

Lemma m4_pieces_double code :
  m4_pieces (double_percent code) = m4_pieces code ≫= double_piece.
Proof. by apply cut_m4_double. Qed.

Lemma m4_findall_double code : m4_findall (double_percent code) = m4_findall code.
Proof.
  unfold m4_findall. rewrite m4_pieces_double.
  induction (m4_pieces code) as [|[c|w] l IH]; [done|..]; rewrite !bind_cons; cbn [double_piece].
  - rewrite bind_app, IH. by case_decide.
  - rewrite bind_app, IH. done.
Qed.

Lemma cut_m4_words fuel s w : inr w ∈ cut_m4 fuel s → all_chars is_word_char w = true.
Proof.
  revert s. induction fuel as [|fuel IH]; intros s Hin; [by apply elem_of_nil in Hin|].
  destruct s as [|c s]; [by apply elem_of_nil in Hin|]. cbn [cut_m4] in Hin.
  destruct (match_m4 (String c s)) as [[w' r]|] eqn:E;
    apply elem_of_cons in Hin as [Hin|Hin]; [|by eapply IH|done|by eapply IH].
  injection Hin as ->. by eapply match_m4_spec.
Qed.

(** *** Formatting what was doubled *)
Lemma empty_app s : "" +:+ s = s.
Proof. done. Qed.

Lemma to_paren_word w s :
  all_chars is_word_char w = true → to_paren (w +:+ ")" +:+ s) = Some (w, s).
Proof.
  induction w as [|c w IH]; intros Hw; [done|]. cbn [all_chars] in Hw.
  apply andb_true_iff in Hw as [Hc Hw]. rewrite str_app_cons. cbn [to_paren].
  rewrite decide_False by (by intros ->). by rewrite IH.
Qed.

Lemma format_pieces l fuel di :
  (∀ w, inr w ∈ l → all_chars is_word_char w = true) →
  (String.length (concat_str (sub_piece <$> (l ≫= double_piece))) ≤ fuel)%nat →
  format fuel (concat_str (sub_piece <$> (l ≫= double_piece))) di = direct (di !!.) l.
Proof.
  revert fuel. induction l as [|[c|w] l IH]; intros fuel Hw Hf; [by destruct fuel|..].
  - rewrite bind_cons in *. cbn [double_piece direct] in *.
    destruct (decide (c = "%"%char)) as [->|Hc].
    + cbn [app fmap list_fmap sub_piece concat_str] in *. rewrite !str_app_cons, !empty_app in *.
      destruct fuel as [|fuel]; cbn [String.length] in Hf; [lia|]. cbn [format]. rewrite decide_True by done.
      rewrite IH; [done|intros; apply Hw; by right|lia].
    + cbn [app fmap list_fmap sub_piece concat_str] in *. rewrite !str_app_cons, !empty_app in *.
      destruct fuel as [|fuel]; cbn [String.length] in Hf; [lia|]. cbn [format]. rewrite decide_False by done.
      rewrite IH; [done|intros; apply Hw; by right|lia].
  - rewrite bind_cons in *. cbn [double_piece direct app fmap list_fmap sub_piece concat_str] in *.
    rewrite <- !str_app_assoc in *. change ("%(" +:+ ?x) with (String "%" (String "(" x)) in *.
    destruct fuel as [|fuel]; cbn [String.length] in Hf; [lia|]. cbn [format]. rewrite decide_True by done.
    change (")s" +:+ ?x) with (")" +:+ String "s" x). rewrite to_paren_word by (apply Hw; by left).
    unfold dict_get. destruct (di !! w) as [v|]; cbn [of_option mbind result_bind]; [|done].
    rewrite IH; [done|intros; apply Hw; by right|].
    rewrite !str_length_app in Hf. cbn [String.length] in Hf. lia.
Qed.

Lemma direct_ext lookup lookup' l :
  (∀ w, inr w ∈ l → lookup w = lookup' w) → direct lookup l = direct lookup' l.
Proof.
  induction l as [|[c|w] l IH]; intros Hl; [done|..]; cbn [direct].
  - rewrite IH; [done|intros; apply Hl; by right].
  - rewrite Hl by left. rewrite IH; [done|intros; apply Hl; by right].
Qed.

Section subst_spec.
Context (get_flat : string → string) (upper : string → string).

Abbreviation env_value := (env_value get_flat upper).

Lemma fill_lookup names (di : gmap string string) w :
  foldl (λ di i, <[i := env_value i]> di) di names !! w =
  if decide (w ∈ names) then Some (env_value w) else di !! w.
Proof.
  revert di. induction names as [|n names IH]; intros di; cbn [foldl].
  { by rewrite decide_False by apply not_elem_of_nil. }
  rewrite IH. destruct (decide (w ∈ names)) as [Hin|Hin].
  - by rewrite decide_True by by right.
  - destruct (decide (w = n)) as [->|Hn].
    + by rewrite lookup_insert_eq, decide_True by left.
    + rewrite lookup_insert_ne by done. by rewrite decide_False by set_solver.
Qed.

Lemma elem_of_findall code w : w ∈ m4_findall code ↔ inr w ∈ m4_pieces code.
Proof.
  unfold m4_findall. rewrite list_elem_of_bind. split.
  - intros ([c|w'] & Hw & Hx); [by apply elem_of_nil in Hw|].
    by apply list_elem_of_singleton in Hw as ->.
  - intros Hin. exists (inr w). split; [left|done].
Qed.

(** The dictionary a task leaves, and what it writes. *)
Definition filled (code : string) (di : gmap string string) : gmap string string :=
  if decide (di = ∅) then foldl (λ di i, <[i := env_value i]> di) ∅ (m4_findall code) else di.

Lemma subst_func_filled code di :
  subst_func get_flat upper code di = (direct (filled code di !!.) (m4_pieces code), filled code di).
Proof.
  unfold subst_func. rewrite m4_findall_double. unfold m4_sub. rewrite m4_pieces_double.
  assert ((if decide (di = ∅)
           then foldl (λ di i, <[i := env_value i]> di) di (m4_findall code) else di)
          = filled code di) as ->.
  { unfold filled. by case_decide as Hd; [rewrite Hd|]. }
  f_equal. apply format_pieces; [|done]. intros w. apply cut_m4_words.
Qed.

(** The variables of the first text that has any. *)
Definition first_names (codes : list string) : option (list string) :=
  head (filter (λ l, l ≠ []) (m4_findall <$> codes)).

Definition known (codes : list string) (w : string) : option string :=
  match first_names codes with
  | None => Some (env_value w)
  | Some names => if decide (w ∈ names) then Some (env_value w) else None
  end.

Lemma filled_nonempty code di : di ≠ ∅ → filled code di = di.
Proof. intros Hd. unfold filled. by rewrite decide_False. Qed.

Lemma subst_tasks_nonempty codes di :
  di ≠ ∅ → subst_tasks get_flat upper codes di = (λ code, direct (di !!.) (m4_pieces code)) <$> codes.
Proof.
  intros Hd. induction codes as [|code codes IH]; [done|]. cbn [subst_tasks].
  rewrite subst_func_filled, filled_nonempty by done. cbn. by rewrite IH.
Qed.

(** a task replaces each variable of its text by its value and keeps
    everything else, percent signs included: formatting never fails on the
    text itself.  With a dictionary the values are its own, and a variable
    that it lacks is a [KeyError].  Without one, the first task of the
    generator whose text has a variable fixes the set of variables for all
    that follow, since they share the dictionary it fills: they fail with
    [KeyError] on any other variable, whether or not the environment has it. *)
Theorem subst_tasks_spec codes di i code :
  codes !! i = Some code →
  subst_tasks get_flat upper codes di !! i =
    Some (direct (if decide (di = ∅) then known (take i codes) else (di !!.)) (m4_pieces code)).
Proof.
  destruct (decide (di = ∅)) as [->|Hd].
  2: { intros Hi. by rewrite subst_tasks_nonempty, list_lookup_fmap, Hi by done. }
  revert i. induction codes as [|c codes IH]; intros i Hi; [done|]. cbn [subst_tasks].
  rewrite subst_func_filled. cbn beta iota.
  destruct i as [|i].
  - injection Hi as ->. change ((?x :: ?l) !! 0) with (Some x). f_equal. apply direct_ext. intros w Hw.
    unfold filled. rewrite decide_True by done.
    rewrite fill_lookup, decide_True; [done|]. by apply elem_of_findall.
  - change (codes !! i = Some code) in Hi. change ((?x :: ?l) !! S i) with (l !! i).
    change (take (S i) (c :: codes)) with (c :: take i codes).
    destruct (decide (m4_findall c = [])) as [Hn|Hn].
    + unfold filled at 1. rewrite decide_True, Hn by done. cbn [foldl].
      rewrite IH by done. do 2 f_equal. unfold known, first_names.
      rewrite fmap_cons, filter_cons_False by (by intros ?). done.
    + assert (∀ w, filled c ∅ !! w = if decide (w ∈ m4_findall c) then Some (env_value w) else None)
        as Hl by (intros w; unfold filled; rewrite decide_True by done; apply fill_lookup).
      rewrite subst_tasks_nonempty.
      * rewrite list_lookup_fmap, Hi. cbn. f_equal. apply direct_ext. intros w _.
        rewrite Hl. unfold known, first_names. rewrite fmap_cons, filter_cons_True by done. done.
      * destruct (m4_findall c) as [|w l]; [done|]. intros He. specialize (Hl w).
        rewrite He, decide_True in Hl by left. done.
Qed.
End subst_spec.

(** ** [command-output]

    A node of the build has three paths; the templates of the arguments hold
    one [%s], so an argument is the text before it and after it. *)
Record file_node := FileNode { abspath : string; node_srcpath : string; node_bldpath : string }.

#[export] Instance file_node_eq_dec : EqDecision file_node.
Proof. solve_decision. Defined.

Inductive arg_kind := input_file | output_file | input_dir | output_dir.

#[export] Instance arg_kind_eq_dec : EqDecision arg_kind.
Proof. solve_decision. Defined.

Record cmd_arg := CmdArg { kind : arg_kind; arg_name : string; before_s : string; after_s : string }.

Inductive argument := Word (s : string) | Arg (a : cmd_arg).

(** The generator, as [init_cmd_output] completes it. *)
Record cmd_output := CmdOutput {
  command : option string;
  command_is_external : bool;
  gen_argv : list argument;
  stdin : option string;
  stdout : option string;
  stderr : option string;
  hidden_inputs : list string;
  hidden_outputs : list string;
  no_inputs : bool;
  no_outputs : bool;
  cwd : option cmd_arg }.

(** The task; each argument with the node it was found at. *)
Record command_task := CommandTask {
  t_command : string + file_node;
  t_args : list (string + cmd_arg * file_node);
  t_stdin : option file_node;
  t_stdout : option file_node;
  t_stderr : option file_node;
  t_inputs : list file_node;
  t_outputs : list file_node;
  always_run : bool }.

Section command_output.
Context (find_resource find_or_declare find_dir : string → option file_node) (path : string).

(** [arg.find_node(self.path)]: the message for a file that is not found has
    one place for two values, so formatting it is a [TypeError]. *)
Definition find_node (a : cmd_arg) : result exn file_node :=
  of_option TypeError
    match kind a with
    | input_file => find_resource (arg_name a)
    | output_file => find_or_declare (arg_name a)
    | input_dir | output_dir => find_dir (arg_name a)
    end.

(** The loop over [self.argv]. *)
Record collected := Collected {
  c_args : list (string + cmd_arg * file_node);
  c_inputs : list file_node;
  c_outputs : list file_node }.

Definition collect_arg (c : collected) (x : argument) : result exn collected :=
  match x with
  | Word s => Ok (Collected (c_args c ++ [inl s]) (c_inputs c) (c_outputs c))
  | Arg a =>
      n ← find_node a;
      Ok (Collected (c_args c ++ [inr (a, n)])
            (if decide (kind a = input_file) then c_inputs c ++ [n] else c_inputs c)
            (if decide (kind a = output_file) then c_outputs c ++ [n] else c_outputs c))
  end.

Definition not_found (name : string) : exn := WafError ("File " +:+ name +:+ " not found").

Definition find_file (find : string → option file_node) (name : option string) :
    result exn (option file_node) :=
  match name with
  | None => Ok None
  | Some name => n ← of_option (not_found name) (find name); Ok (Some n)
  end.

Definition find_all (find : string → option file_node) (acc : list file_node)
    (names : list string) : result exn (list file_node) :=
  fold_res (λ acc name, n ← of_option (WafError ("File " +:+ name +:+ " not found in dir " +:+ path))
                              (find name); Ok (acc ++ [n])) acc names.

Definition apply_cmd_output (g : cmd_output) : result exn command_task :=
  cmd ← of_option (WafError "command-output missing command") (command g);
  cmd ← (if command_is_external g then Ok (inl cmd)
         else n ← of_option AssertionError (find_resource cmd); Ok (inr n));
  _ ← guard_exn (bool_decide (cwd g = None)) UnboundLocalError;
  c ← fold_res collect_arg (Collected [] [] []) (gen_argv g);
  out ← find_file find_or_declare (stdout g);
  err ← find_file find_or_declare (stderr g);
  inp ← find_file find_resource (stdin g);
  let inputs := c_inputs c ++ option_list inp in
  let outputs := c_outputs c ++ option_list out ++ option_list err in
  inputs ← find_all find_resource inputs (hidden_inputs g);
  outputs ← find_all find_or_declare outputs (hidden_outputs g);
  _ ← guard_exn (bool_decide (inputs ≠ []) || no_inputs g)
        (WafError "command-output objects must have at least one input file or give self.no_inputs");
  _ ← guard_exn (bool_decide (outputs ≠ []) || no_outputs g)
        (WafError "command-output objects must have at least one output file or give self.no_outputs");
  Ok (CommandTask cmd (c_args c) inp out err inputs outputs (bool_decide (inputs = []))).
End command_output.

(** [command_output.run]: the words executed and the files opened.  The task
    always has a directory, that of the variant, so all paths are absolute. *)
Definition get_path (absolute : bool) (an : cmd_arg * file_node) : string :=
  let '(a, n) := an in
  before_s a +:+
  (if absolute then abspath n
   else match kind a with
        | input_file => node_srcpath n
        | output_file => node_bldpath n
        | input_dir | output_dir => abspath n
        end) +:+ after_s a.

Definition popen_argv (has_cwd : bool) (t : command_task) : list string :=
  match t_command t with
  | inl s => s
  | inr n => if has_cwd then abspath n else node_bldpath n
  end ::
  ((λ x, match x with inl s => s | inr an => get_path has_cwd an end) <$> t_args t).

(** *** The dependencies of the task *)
Section dependencies.
Context (find_resource find_or_declare find_dir : string → option file_node) (path : string).

Abbreviation find_node := (find_node find_resource find_or_declare find_dir).
Abbreviation apply := (apply_cmd_output find_resource find_or_declare find_dir path).

(** An argument and what it became. *)
Definition resolved (x : argument) (y : string + cmd_arg * file_node) : Prop :=
  match x, y with
  | Word s, inl s' => s' = s
  | Arg a, inr (a', n) => a' = a ∧ find_node a = Ok n
  | _, _ => False
  end.

(** The nodes of the arguments of one kind. *)
Definition nodes_of (k : arg_kind) (l : list (string + cmd_arg * file_node)) : list file_node :=
  l ≫= λ y, match y with inr (a, n) => if decide (kind a = k) then [n] else [] | inl _ => [] end.

Lemma nodes_of_arg k a n ys :
  nodes_of k (inr (a, n) :: ys) = (if decide (kind a = k) then [n] else []) ++ nodes_of k ys.
Proof. done. Qed.

Lemma collect_args_spec xs c c' :
  fold_res (collect_arg find_resource find_or_declare find_dir) c xs = Ok c' →
  ∃ ys, Forall2 resolved xs ys ∧ c_args c' = c_args c ++ ys ∧
    c_inputs c' = c_inputs c ++ nodes_of input_file ys ∧
    c_outputs c' = c_outputs c ++ nodes_of output_file ys.
Proof.
  revert c. induction xs as [|x xs IH]; intros c Hc; cbn [fold_res] in Hc.
  { injection Hc as <-. exists []. cbn. by rewrite !app_nil_r. }
  apply bind_Ok_inv in Hc as (c1 & H1 & Hc). destruct (IH _ Hc) as (ys & H2 & Ha & Hi & Ho).
  destruct x as [s|a]; cbn [collect_arg] in H1.
  - injection H1 as <-. exists (inl s :: ys). cbn in *.
    split_and!; [by constructor|by rewrite Ha, <- app_assoc|done|done].
  - apply bind_Ok_inv in H1 as (n & Hn & [= <-]). exists (inr (a, n) :: ys).
    cbn [c_args c_inputs c_outputs] in *.
    split_and!; [by constructor|by rewrite Ha, <- app_assoc|rewrite Hi|rewrite Ho];
      rewrite nodes_of_arg.
    + destruct (decide (kind a = input_file)); by rewrite <- ?app_assoc.
    + destruct (decide (kind a = output_file)); by rewrite <- ?app_assoc.
Qed.

Lemma find_all_spec find acc names l :
  find_all path find acc names = Ok l →
  ∃ ns, l = acc ++ ns ∧ Forall2 (λ f n, find f = Some n) names ns.
Proof.
  unfold find_all. revert acc. induction names as [|f names IH]; intros acc Hl; cbn [fold_res] in Hl.
  { injection Hl as <-. exists []. by rewrite app_nil_r. }
  destruct (find f) as [n|] eqn:E; [|done]. cbn in Hl.
  destruct (IH _ Hl) as (ns & -> & H2). exists (n :: ns). rewrite <- app_assoc.
  split; [done|by constructor].
Qed.

Lemma find_file_spec find f r :
  find_file find f = Ok r → r = f ≫= find ∧ (is_Some f → is_Some r).
Proof.
  destruct f as [f|]; cbn; [|by intros [= <-]]. destruct (find f) as [n|]; cbn; [|done].
  by intros [= <-].
Qed.

(** a task of [command-output] depends on every file of the command line
    that it reads and declares every one that it writes: its inputs are the
    nodes of the input arguments, then that of [stdin], then the hidden
    inputs, each where the build finds it, and its outputs likewise with
    [stdout] and [stderr]; the words executed are the arguments in their
    order.  It has an input and an output, unless the generator allows none;
    without inputs it always runs.  A generator with a directory of its own
    makes no task. *)
Theorem cmd_output_dependencies g t :
  apply g = Ok t →
  cwd g = None ∧ Forall2 resolved (gen_argv g) (t_args t) ∧
  (∃ hidden, Forall2 (λ f n, find_resource f = Some n) (hidden_inputs g) hidden ∧
     t_inputs t = nodes_of input_file (t_args t) ++ option_list (stdin g ≫= find_resource) ++ hidden) ∧
  (∃ hidden, Forall2 (λ f n, find_or_declare f = Some n) (hidden_outputs g) hidden ∧
     t_outputs t = nodes_of output_file (t_args t) ++ option_list (stdout g ≫= find_or_declare) ++
       option_list (stderr g ≫= find_or_declare) ++ hidden) ∧
  (t_inputs t = [] → no_inputs g = true ∧ always_run t = true) ∧
  (t_outputs t = [] → no_outputs g = true) ∧
  (is_Some (stdin g) → is_Some (t_stdin t)) ∧ (is_Some (stdout g) → is_Some (t_stdout t)) ∧
  (is_Some (stderr g) → is_Some (t_stderr t)).
Proof.
  unfold apply_cmd_output. intros Ht.
  apply bind_Ok_inv in Ht as (cmd0 & _ & Ht). apply bind_Ok_inv in Ht as (cmd & _ & Ht).
  apply bind_Ok_inv in Ht as (u & Hcwd & Ht). apply bind_Ok_inv in Ht as (c & Hc & Ht).
  apply bind_Ok_inv in Ht as (out & [-> Hout]%find_file_spec & Ht).
  apply bind_Ok_inv in Ht as (err & [-> Herr]%find_file_spec & Ht).
  apply bind_Ok_inv in Ht as (inp & [-> Hinp]%find_file_spec & Ht).
  apply bind_Ok_inv in Ht as (ins & (hi & -> & Hhi)%find_all_spec & Ht).
  apply bind_Ok_inv in Ht as (outs & (ho & -> & Hho)%find_all_spec & Ht).
  apply bind_Ok_inv in Ht as (u1 & Hni & Ht). apply bind_Ok_inv in Ht as (u2 & Hno & [= <-]).
  destruct (collect_args_spec _ _ _ Hc) as (ys & Hys & Ha & Hi & Ho).
  cbn [t_args t_inputs t_outputs t_stdin t_stdout t_stderr always_run c_args c_inputs c_outputs app] in *.
  rewrite Ha, Hi, Ho in *. split_and!; try done.
  - unfold guard_exn in Hcwd.
    destruct (bool_decide _) eqn:E in Hcwd; [by apply bool_decide_eq_true in E|done].
  - exists hi. split; [done|]. by rewrite <- app_assoc.
  - exists ho. split; [done|]. by rewrite <- !app_assoc.
  - intros Hnil. unfold guard_exn in Hni. rewrite Hnil in *. cbn in Hni.
    by destruct (no_inputs g).
  - intros Hnil. unfold guard_exn in Hno. rewrite Hnil in Hno. cbn in Hno.
    by destruct (no_outputs g).
Qed.

(** Whatever else it says, a generator with a directory fails on a variable
    that is not assigned yet. *)
Lemma cwd_unassigned g d :
  cwd g = Some d → command_is_external g = true → is_Some (command g) →
  apply g = Raise UnboundLocalError.
Proof. intros Hc He [cmd Hcmd]. unfold apply_cmd_output. by rewrite Hcmd, He, Hc. Qed.
End dependencies.

(** ** Instances *)
Definition sample_flat (i : string) : string :=
  if decide (i = "VERSION") then "3.12" else if decide (i = "name") then "ns-3" else "".

Definition sample_upper (i : string) : string := if decide (i = "version") then "VERSION" else i.

(** The second text has a variable that the first one lacks: although the
    environment has its value, the second task fails. *)
Lemma subst_tasks_spec_witness :
  let codes := ["v@version@ is 100%"; "@name@-@version@"] in
  subst_tasks sample_flat sample_upper codes ∅ = [Ok "v3.12 is 100%"; Raise KeyError] ∧
  subst_tasks sample_flat sample_upper (reverse codes) ∅ = [Ok "ns-3-3.12"; Ok "v3.12 is 100%"] ∧
  subst_tasks sample_flat sample_upper codes ∅ !! 1 =
    Some (direct (if decide ((∅ : gmap string string) = ∅)
                  then known sample_flat sample_upper (take 1 codes)
                  else ((∅ : gmap string string) !!.)) (m4_pieces "@name@-@version@")).
Proof.
  intros codes. split; [vm_compute; reflexivity|split; [vm_compute; reflexivity|]].
  apply (subst_tasks_spec sample_flat sample_upper codes ∅ 1). reflexivity.
Defined.

Definition sample_find (f : string) : option file_node :=
  if decide (f = "missing") then None else Some (FileNode ("/r/" +:+ f) f ("build/" +:+ f)).

Definition sample_generator : cmd_output :=
  CmdOutput (Some "gen.py") false
    [Word "-o"; Arg (CmdArg output_file "out.cc" "" ""); Arg (CmdArg input_file "in.txt" "--in=" "")]
    None (Some "log") None ["extra.h"] [] false false None.

Lemma cmd_output_dependencies_witness :
  ∃ t, apply_cmd_output sample_find sample_find sample_find "." sample_generator = Ok t ∧
    popen_argv true t = ["/r/gen.py"; "-o"; "/r/out.cc"; "--in=/r/in.txt"] ∧
    map abspath (t_inputs t) = ["/r/in.txt"; "/r/extra.h"] ∧
    map abspath (t_outputs t) = ["/r/out.cc"; "/r/log"] ∧
    cwd sample_generator = None ∧
    (t_outputs t = [] → no_outputs sample_generator = true).
Proof.
  eexists. split; [vm_compute; reflexivity|].
  split; [vm_compute; reflexivity|split; [vm_compute; reflexivity|split; [vm_compute; reflexivity|]]].
  pose proof (cmd_output_dependencies sample_find sample_find sample_find "." sample_generator
    _ ltac:(vm_compute; reflexivity)) as (Hc & _ & _ & _ & _ & Ho & _).
  split; [exact Hc|exact Ho].
Defined.

(** A missing input is reported by a failure to format the report. *)
Lemma missing_input_message :
  apply_cmd_output sample_find sample_find sample_find "."
    (CmdOutput (Some "gen.py") false [Arg (CmdArg input_file "missing" "" "")]
       None None None [] [] true true None) = Raise TypeError.
Proof. vm_compute. reflexivity. Qed.
