(* ===== verification/CreateModule.v ===== *)
(** * The skeleton of a module ([create-module.py]) and its discovery ([src/wscript])

    The script fills templates with the name of the new module and writes them
    below a new directory; [all_modules] of [src/wscript] finds the directories
    of modules.  Both work on the tree of [FileTree].  A call that is refused
    ends the script where it is: [interrupted] is what it leaves. *)

From S2P Require Import Prelude PyStr MiscTools FileTree.
From Stdlib Require Import Ascii.

Local Open Scope string_scope.
Local Open Scope list_scope.
Local Open Scope nat_scope.

(** ** Strings of the language *)
Definition dquote : ascii := "034".

Definition is_lower (c : ascii) : bool :=
  let n := N_of_ascii c in ((97 <=? n) && (n <=? 122))%N.
Definition is_upper (c : ascii) : bool :=
  let n := N_of_ascii c in ((65 <=? n) && (n <=? 90))%N.
Definition upper_char (c : ascii) : ascii :=
  if is_lower c then ascii_of_N (N_of_ascii c - 32) else c.
Definition lower_char (c : ascii) : ascii :=
  if is_upper c then ascii_of_N (N_of_ascii c + 32) else c.

Fixpoint map_chars (f : ascii → ascii) (s : string) : string :=
  match s with "" => "" | String c s => String (f c) (map_chars f s) end.

(** [s.upper()], [s.capitalize()]. *)
Definition upper (s : string) : string := map_chars upper_char s.
Definition capitalize (s : string) : string :=
  match s with "" => "" | String c s => String (upper_char c) (map_chars lower_char s) end.

Definition hex_digit (n : N) : ascii :=
  if (n <? 10)%N then ascii_of_N (48 + n) else ascii_of_N (87 + n).

Definition repr_char (quote c : ascii) : string :=
  if bool_decide (c = quote ∨ c = "\"%char) then String "\" (String c "")
  else if bool_decide (c = "009"%char) then "\t"
  else if bool_decide (c = "010"%char) then "\n"
  else if bool_decide (c = "013"%char) then "\r"
  else
    let n := N_of_ascii c in
    if ((n <? 32) || (127 <=? n))%N
    then "\x" +:+ String (hex_digit (n / 16)) (String (hex_digit (n mod 16)) "")
    else String c "".

Fixpoint repr_body (quote : ascii) (s : string) : string :=
  match s with "" => "" | String c s => repr_char quote c +:+ repr_body quote s end.

(** [repr(s)]. *)
Definition repr (s : string) : string :=
  let quote :=
    if contains_char "'" s && negb (contains_char dquote s) then dquote else "'"%char in
  String quote (repr_body quote s +:+ String quote "").

(** [s % d] for a dictionary: [%%], [%(key)s] and [%(key)r]; the other
    conversions do not occur in the templates, and count as errors.  The fuel
    is the length of [s]. *)
Inductive conversion := Str | Repr.

Definition conversion_of (c : ascii) : option conversion :=
  match c with "s" => Some Str | "r" => Some Repr | _ => None end%char.

Definition convert (k : conversion) (s : string) : string :=
  match k with Str => s | Repr => repr s end.

Fixpoint percent (fuel : nat) (s : string) (d : gmap string string) : result exn string :=
  match fuel, s with
  | S fuel, String c s' =>
      if decide (c = "%"%char) then
        match s' with
        | String "%" r => t ← percent fuel r d; Ok (String "%" t)
        | String "(" r =>
            '(key, r) ← of_option (ValueError "incomplete format key") (to_paren r);
            match r with
            | String c r =>
                k ← of_option (ValueError "unsupported format character") (conversion_of c);
                v ← dict_get KeyError d key;
                t ← percent fuel r d;
                Ok (convert k v +:+ t)
            | "" => Raise (ValueError "incomplete format")
            end
        | _ => Raise (ValueError "unsupported format character")
        end
      else t ← percent fuel s' d; Ok (String c t)
  | _, "" => Ok ""
  | O, _ => Raise Diverges
  end.

Definition percent_format (s : string) (d : gmap string string) : result exn string :=
  percent (String.length s) s d.

(** ** The templates: a backquote stands for the double quote *)
Definition tpl (s : string) : string :=
  map_chars (λ c, if bool_decide (c = "`"%char) then dquote else c) s.

Definition WSCRIPT_TEMPLATE : string := tpl
"# -*- Mode: python; py-indent-offset: 4; indent-tabs-mode: nil; coding: utf-8; -*-

# def options(opt):
#     pass

# def configure(conf):
#     conf.check_nonfatal(header_name='stdint.h', define_name='HAVE_STDINT_H')

def build(bld):
    module = bld.create_ns3_module(%(MODULE)r, ['core'])
    module.source = [
        'model/%(MODULE)s.cc',
        'helper/%(MODULE)s-helper.cc',
        ]

    module_test = bld.create_ns3_module_test_library('%(MODULE)s')
    module_test.source = [
        'test/%(MODULE)s-test-suite.cc',
        ]

    headers = bld.new_task_gen(features=['ns3header'])
    headers.module = %(MODULE)r
    headers.source = [
        'model/%(MODULE)s.h',
        'helper/%(MODULE)s-helper.h',
        ]

    if bld.env.ENABLE_EXAMPLES:
        bld.add_subdirs('examples')

    # bld.ns3_python_bindings()

".

Definition MODEL_CC_TEMPLATE : string := tpl
"/* -*- Mode:C++; c-file-style:`gnu`; indent-tabs-mode:nil; -*- */

#include `%(MODULE)s.h`

namespace ns3 {

/* ... */


}

".

Definition MODEL_H_TEMPLATE : string := tpl
"/* -*- Mode:C++; c-file-style:`gnu`; indent-tabs-mode:nil; -*- */
#ifndef %(INCLUDE_GUARD)s
#define %(INCLUDE_GUARD)s

namespace ns3 {

/* ... */

}

#endif /* %(INCLUDE_GUARD)s */

".

Definition HELPER_CC_TEMPLATE : string := tpl
"/* -*- Mode:C++; c-file-style:`gnu`; indent-tabs-mode:nil; -*- */

#include `%(MODULE)s-helper.h`

namespace ns3 {

/* ... */


}

".

Definition HELPER_H_TEMPLATE : string := tpl
"/* -*- Mode:C++; c-file-style:`gnu`; indent-tabs-mode:nil; -*- */
#ifndef %(INCLUDE_GUARD)s
#define %(INCLUDE_GUARD)s

#include `ns3/%(MODULE)s.h`

namespace ns3 {

/* ... */

}

#endif /* %(INCLUDE_GUARD)s */

".

Definition EXAMPLES_WSCRIPT_TEMPLATE : string := tpl
"# -*- Mode: python; py-indent-offset: 4; indent-tabs-mode: nil; coding: utf-8; -*-

def build(bld):
    obj = bld.create_ns3_program('%(MODULE)s-example', [%(MODULE)r])
    obj.source = '%(MODULE)s-example.cc'

".

Definition EXAMPLE_CC_TEMPLATE : string := tpl
"/* -*- Mode:C++; c-file-style:`gnu`; indent-tabs-mode:nil; -*- */

#include `ns3/core-module.h`
#include `ns3/%(MODULE)s-helper.h`

using namespace ns3;


int 
main (int argc, char *argv[])
{
  bool verbose = true;

  CommandLine cmd;
  cmd.AddValue (`verbose`, `Tell application to log if true`, verbose);

  cmd.Parse (argc,argv);

  /* ... */

  Simulator::Run ();
  Simulator::Destroy ();
  return 0;
}


".

Definition TEST_CC_TEMPLATE : string := tpl
"/* -*- Mode:C++; c-file-style:`gnu`; indent-tabs-mode:nil; -*- */

// Include a header file from your module to test.
#include `ns3/%(MODULE)s.h`

// An essential include is test.h
#include `ns3/test.h`

// Do not put your test classes in namespace ns3.  You may find it useful
// to use the using directive to access the ns3 namespace directly
using namespace ns3;

// This is an example TestCase.
class %(CAPITALIZED)sTestCase1 : public TestCase
{
public:
  %(CAPITALIZED)sTestCase1 ();
  virtual ~%(CAPITALIZED)sTestCase1 ();

private:
  virtual void DoRun (void);
};

// Add some help text to this case to describe what it is intended to test
%(CAPITALIZED)sTestCase1::%(CAPITALIZED)sTestCase1 ()
  : TestCase (`%(CAPITALIZED)s test case (does nothing)`)
{
}

// This destructor does nothing but we include it as a reminder that
// the test case should clean up after itself
%(CAPITALIZED)sTestCase1::~%(CAPITALIZED)sTestCase1 ()
{
}

//
// This method is the pure virtual method from class TestCase that every
// TestCase must implement
//
void
%(CAPITALIZED)sTestCase1::DoRun (void)
{
  // A wide variety of test macros are available in src/core/test.h
  NS_TEST_ASSERT_MSG_EQ (true, true, `true doesn't equal true for some reason`);
  // Use this one for floating point comparisons
  NS_TEST_ASSERT_MSG_EQ_TOL (0.01, 0.01, 0.001, `Numbers are not equal within tolerance`);
}

// The TestSuite class names the TestSuite, identifies what type of TestSuite,
// and enables the TestCases to be run.  Typically, only the constructor for
// this class must be defined
//
class %(CAPITALIZED)sTestSuite : public TestSuite
{
public:
  %(CAPITALIZED)sTestSuite ();
};

%(CAPITALIZED)sTestSuite::%(CAPITALIZED)sTestSuite ()
  : TestSuite (`%(MODULE)s`, UNIT)
{
  AddTestCase (new %(CAPITALIZED)sTestCase1);
}

// Do not forget to allocate an instance of this TestSuite
static %(CAPITALIZED)sTestSuite %(MODULE)sTestSuite;

".

(** ** The command line ([OptionParser] with its only option, [-h]) *)
Fixpoint parse_args (args : list string) : result exn (list string) :=
  match args with
  | [] => Ok []
  | a :: rest =>
      if bool_decide (a = "--") then Ok rest
      else if startswith "--" a then
        (* an abbreviation of [--help], without a value *)
        if startswith a "--help" then Raise (SystemExit 0) else Raise (SystemExit 2)
      else if startswith "-" a && (1 <? String.length a) then
        if startswith "-h" a then Raise (SystemExit 0) else Raise (SystemExit 2)
      else rest ← parse_args rest; Ok (a :: rest)
  end.

(** ** [main] *)
Section main.
Context (sys : system) (cwd : location).

(** [f = file(path, 'wt'); f.write(template % d); f.close()]. *)
Definition write_template (path template : string) (d : gmap string string) : io unit :=
  f ← open_wt sys cwd path;
  s ← lift (percent_format template d);
  fwrite sys f s.

Definition create_module (moduledir modname : string) : io unit :=
  let d : gmap string string := {[ "MODULE" := modname ]} in
  _ ← mkdir sys cwd moduledir;
  _ ← write_template (path_join moduledir "wscript") WSCRIPT_TEMPLATE d;
  let modeldir := path_join moduledir "model" in
  _ ← mkdir sys cwd modeldir;
  _ ← write_template (path_join (path_join moduledir "model") (modname +:+ ".cc"))
        MODEL_CC_TEMPLATE d;
  _ ← write_template (path_join (path_join moduledir "model") (modname +:+ ".h"))
        MODEL_H_TEMPLATE (<["INCLUDE_GUARD" := "__" +:+ upper modname +:+ "_H__"]> d);
  let testdir := path_join moduledir "test" in
  _ ← mkdir sys cwd testdir;
  _ ← write_template (path_join (path_join moduledir "test") (modname +:+ "-test-suite.cc"))
        TEST_CC_TEMPLATE (<["CAPITALIZED" := capitalize modname]> d);
  let helperdir := path_join moduledir "helper" in
  _ ← mkdir sys cwd helperdir;
  _ ← write_template (path_join (path_join moduledir "helper") (modname +:+ "-helper.cc"))
        HELPER_CC_TEMPLATE d;
  _ ← write_template (path_join (path_join moduledir "helper") (modname +:+ "-helper.h"))
        HELPER_H_TEMPLATE (<["INCLUDE_GUARD" := "__" +:+ upper modname +:+ "_HELPER_H__"]> d);
  let examplesdir := path_join moduledir "examples" in
  _ ← mkdir sys cwd examplesdir;
  _ ← write_template (path_join examplesdir "wscript") EXAMPLES_WSCRIPT_TEMPLATE d;
  write_template (path_join (path_join moduledir "examples") (modname +:+ "-example.cc"))
    EXAMPLE_CC_TEMPLATE d.

(** [dirname] is [os.path.dirname(__file__)], [args] the command line without
    the name of the script. *)
Definition main (dirname : string) (args : list string) : io Z :=
  args ← lift (parse_args args);
  match args with
  | [modname] =>
      if contains_char "/" modname then lift (Raise AssertionError) else
      let moduledir := path_join dirname modname in
      there ← os_path_exists sys cwd moduledir;
      if there : bool then mret 2%Z else
      _ ← create_module moduledir modname;
      mret 0%Z
  | _ => mret 1%Z
  end.
End main.

(** ** [all_modules] of [src/wscript]

    [listing] is what [os.listdir('src')] returns, in an order of its own.  The
    guard [dir == 'CVS'] compares the built-in function [dir] and is always
    false. *)
Definition is_module (t : tree) (cwd : location) (dirname : string) : bool :=
  if startswith "." dirname then false else
  let path := path_join "src" dirname in
  if negb (isdir_at t cwd path) then false
  else exists_at t cwd (path_join path "wscript").

Definition all_modules (t : tree) (cwd : location) (listing : list string) : list string :=
  merge_sort String.le (foldl (λ l d, if is_module t cwd d then l ++ [d] else l) [] listing).

(** ** What a new module consists of *)

(** The text of a template; [template_text] below says what it is. *)
Definition filled (template : string) (d : gmap string string) : string :=
  match percent_format template d with Ok s => s | Raise _ => "" end.

Definition module_fields (name : string) : gmap string string := {[ "MODULE" := name ]}.
Definition guard_fields (name suffix : string) : gmap string string :=
  <["INCLUDE_GUARD" := "__" +:+ upper name +:+ suffix]> (module_fields name).
Definition test_fields (name : string) : gmap string string :=
  <["CAPITALIZED" := capitalize name]> (module_fields name).

(** Paths below the directory of the module, in the order of creation. *)
Definition module_entries (name : string) : list (location * tree_entry) :=
  [([], Dir);
   (["wscript"], File (filled WSCRIPT_TEMPLATE (module_fields name)));
   (["model"], Dir);
   (["model"; name +:+ ".cc"], File (filled MODEL_CC_TEMPLATE (module_fields name)));
   (["model"; name +:+ ".h"], File (filled MODEL_H_TEMPLATE (guard_fields name "_H__")));
   (["test"], Dir);
   (["test"; name +:+ "-test-suite.cc"], File (filled TEST_CC_TEMPLATE (test_fields name)));
   (["helper"], Dir);
   (["helper"; name +:+ "-helper.cc"], File (filled HELPER_CC_TEMPLATE (module_fields name)));
   (["helper"; name +:+ "-helper.h"],
      File (filled HELPER_H_TEMPLATE (guard_fields name "_HELPER_H__")));
   (["examples"], Dir);
   (["examples"; "wscript"], File (filled EXAMPLES_WSCRIPT_TEMPLATE (module_fields name)));
   (["examples"; name +:+ "-example.cc"],
      File (filled EXAMPLE_CC_TEMPLATE (module_fields name)))].

(** ** Templates as pieces: characters and fields *)
#[export] Instance conversion_eq_dec : EqDecision conversion.
Proof. solve_decision. Defined.

Abbreviation piece := (ascii + (string * conversion))%type.

Fixpoint pieces (fuel : nat) (s : string) : option (list piece) :=
  match fuel, s with
  | S fuel, String c s' =>
      if decide (c = "%"%char) then
        match s' with
        | String "%" r => ps ← pieces fuel r; Some (inl "%"%char :: ps)
        | String "(" r =>
            '(key, r) ← to_paren r;
            match r with
            | String c r =>
                k ← conversion_of c; ps ← pieces fuel r; Some (inr (key, k) :: ps)
            | "" => None
            end
        | _ => None
        end
      else ps ← pieces fuel s'; Some (inl c :: ps)
  | _, "" => Some []
  | O, _ => None
  end.

Definition template_pieces (template : string) : list piece :=
  default [] (pieces (String.length template) template).

Definition piece_text (d : gmap string string) (p : piece) : string :=
  match p with
  | inl c => String c ""
  | inr (key, k) => convert k (default "" (d !! key))
  end.

Fixpoint fill (d : gmap string string) (ps : list piece) : string :=
  match ps with [] => "" | p :: ps => piece_text d p +:+ fill d ps end.

Definition has_field (d : gmap string string) (p : piece) : bool :=
  match p with inl _ => true | inr (key, _) => has_key d key end.

Lemma percent_fill fuel s d ps :
  pieces fuel s = Some ps → forallb (has_field d) ps = true → percent fuel s d = Ok (fill d ps).
Proof.
  revert s ps. induction fuel as [|fuel IH]; intros s ps; [by destruct s; intros [= <-]|].
  destruct s as [|c s]; [by intros [= <-]|]. cbn [pieces percent].
  assert (Hcons : ∀ p r s', pieces fuel s' = Some r → ps = p :: r →
    forallb (has_field d) ps = true →
    percent fuel s' d = Ok (fill d r) ∧ has_field d p = true).
  { intros p r s' Hr -> [Hp Hps]%andb_true_iff. split; [by apply IH|done]. }
  case_decide as Hc; [|intros (r & Hr & [= <-])%bind_Some Hf;
    destruct (Hcons _ _ _ Hr eq_refl Hf) as [-> _]; done].
  repeat case_match; try done.
  - intros (r & Hr & [= <-])%bind_Some Hf. by destruct (Hcons _ _ _ Hr eq_refl Hf) as [-> _].
  - intros ([key r] & Hk & Hr)%bind_Some Hf. rewrite Hk. cbn [of_option mbind result_bind].
    destruct r as [|c' r]; [done|]. apply bind_Some in Hr as (k & Hcv & Hr). rewrite Hcv.
    apply bind_Some in Hr as (r' & Hr & [= <-]).
    destruct (Hcons _ _ _ Hr eq_refl Hf) as [-> Hfield].
    cbn [has_field] in Hfield. cbn [fill piece_text of_option mbind result_bind].
    unfold dict_get. unfold has_key in Hfield. destruct (d !! key); done.
Qed.

(** The templates with their dictionaries. *)
Definition module_texts (name : string) : list (string * gmap string string) :=
  [(WSCRIPT_TEMPLATE, module_fields name); (MODEL_CC_TEMPLATE, module_fields name);
   (MODEL_H_TEMPLATE, guard_fields name "_H__"); (TEST_CC_TEMPLATE, test_fields name);
   (HELPER_CC_TEMPLATE, module_fields name); (HELPER_H_TEMPLATE, guard_fields name "_HELPER_H__");
   (EXAMPLES_WSCRIPT_TEMPLATE, module_fields name); (EXAMPLE_CC_TEMPLATE, module_fields name)].

Definition complete (x : string * gmap string string) : Prop :=
  pieces (String.length x.1) x.1 = Some (template_pieces x.1) ∧
  forallb (has_field x.2) (template_pieces x.1) = true.

Lemma templates_complete name : Forall complete (module_texts name).
Proof. repeat (apply Forall_cons; split; [split; vm_compute; reflexivity|]). apply Forall_nil. done. Qed.

Lemma format_fill x : complete x → percent_format x.1 x.2 = Ok (fill x.2 (template_pieces x.1)).
Proof. intros [Hp Hf]. by apply percent_fill. Qed.

(** No template lacks a value: the text of each is its pieces, filled. *)
Lemma template_text name x :
  x ∈ module_texts name →
  percent_format x.1 x.2 = Ok (filled x.1 x.2) ∧ filled x.1 x.2 = fill x.2 (template_pieces x.1).
Proof.
  intros Hx. pose proof (templates_complete name) as H. rewrite Forall_forall in H.
  unfold filled. by rewrite format_fill by auto.
Qed.
Lemma format_filled name template d :
  (template, d) ∈ module_texts name → percent_format template d = Ok (filled template d).
Proof. apply (template_text name (template, d)). Qed.

(** From here on the texts are not computed. *)
#[local] Opaque filled.

(** ** Names *)
Lemma append_inj a b c : a +:+ b = a +:+ c → b = c.
Proof. induction a as [|x a IH]; [done|]. rewrite !str_app_cons. intros [= ?]. auto. Qed.

(** A name with a suffix that has more than dots and no slash. *)
Lemma name_suffix name x s :
  contains_char "/" name = false → contains_char "/" s = false → contains_char x s = true →
  x ≠ "."%char → entry_name (name +:+ s).
Proof.
  intros Hn Hs Hx Hdot. split; [|by rewrite contains_char_app, Hn, Hs].
  assert (Hc : contains_char x (name +:+ s) = true) by (rewrite contains_char_app, Hx; apply orb_true_r).
  rewrite !elem_of_cons. intros [E|[E|[E|E]]]; [..|by apply elem_of_nil in E];
    rewrite E in Hc; cbn in Hc; by rewrite ?(bool_decide_eq_false_2 (x = _)) in Hc.
Qed.

(** The names of the entries. *)
Ltac create_name H :=
  first [ split; [by rewrite !not_elem_of_cons; repeat split; auto using not_elem_of_nil|reflexivity]
        | by apply (name_suffix _ "c" _ H)
        | by apply (name_suffix _ "h" _ H) ].

Lemma module_entries_nodup name : NoDup (module_entries name).*1.
Proof.
  unfold module_entries. cbn [fmap list_fmap fst].
  repeat (apply NoDup_cons; split; [|]); [..|apply NoDup_nil; done];
    rewrite ?not_elem_of_cons; repeat split; try apply not_elem_of_nil; try discriminate.
  - intros [= E%append_inj]. done.
  - intros [= E%append_inj]. done.
  - intros [= E]. apply (f_equal (contains_char "-")) in E. rewrite contains_char_app in E.
    by rewrite orb_true_r in E.
Qed.

(** ** Creation *)

Section create.
Context (sys : system) (t : tree) (cwd base : location) (dirname name : string).
Context (Hwf : wf t) (Hdir : dir_path t cwd dirname base) (Hname : entry_name name).
Context (Hnew : t !! (base ++ [name]) = None).

Let loc := base ++ [name].
Let moduledir := path_join dirname name.

(** The tree after [n] of the entries. *)
Definition grown (n : nat) : tree := add_entries loc (take n (module_entries name)) t.

Lemma fresh_entry n p e :
  module_entries name !! n = Some (p, e) → grown n !! (loc ++ p) = None.
Proof.
  intros Hn. unfold grown. rewrite add_entries_other; [by apply wf_below|].
  intros q' <-%app_inv_head ([q f] & Heq & Hq)%list_elem_of_fmap. cbn in Heq. subst q.
  apply list_elem_of_lookup in Hq as [i Hi]. apply lookup_take_Some in Hi as [Hi Hlt].
  pose proof (module_entries_nodup name) as Hnd.
  enough (i = n) by lia.
  eapply (NoDup_lookup _ i n p Hnd); rewrite list_lookup_fmap; [by rewrite Hi|by rewrite Hn].
Qed.

Lemma grown_S n x :
  module_entries name !! n = Some x → grown (S n) = <[loc ++ x.1 := x.2]> (grown n).
Proof. intros Hn. unfold grown. by rewrite (take_S_r _ _ _ Hn), add_entries_snoc. Qed.

Lemma grown_extends n : t ⊆ grown n.
Proof.
  apply map_subseteq_spec. intros l x Hl. unfold grown. rewrite add_entries_other; [done|].
  intros p -> _. unfold loc in Hl. by rewrite wf_below in Hl.
Qed.

Lemma grown_has n i x :
  module_entries name !! i = Some x → i < n → grown n !! (loc ++ x.1) = Some x.2.
Proof.
  intros Hi Hlt. destruct x as [p e]. unfold grown. apply add_entries_new.
  - rewrite fmap_take. pose proof (module_entries_nodup name) as Hnd.
    rewrite <- (take_drop n (module_entries name).*1) in Hnd. by apply NoDup_app in Hnd as [? _].
  - apply list_elem_of_lookup. exists i. by rewrite lookup_take_lt.
Qed.

Lemma moduledir_path n : 0 < n → dir_path (grown n) cwd moduledir (loc ++ []).
Proof.
  intros Hn. split.
  - left. rewrite app_nil_r. apply (resolve_name _ _ _ base); [done|].
    eapply dir_path_mono; [apply grown_extends|done].
  - by apply (grown_has n 0 ([], Dir)).
Qed.

Lemma subdir_path n i d :
  module_entries name !! i = Some ([d], Dir) → 0 < i < n → entry_name d →
  dir_path (grown n) cwd (path_join moduledir d) (loc ++ [d]).
Proof.
  intros Hi Hlt Hd. split.
  - left. apply resolve_name; [done|]. rewrite <- (app_nil_r loc). apply moduledir_path. lia.
  - apply (grown_has n i ([d], Dir)); [done|lia].
Qed.

Lemma mkdir_put n c :
  module_entries name !! n = Some ([c], Dir) → 0 < n → entry_name c →
  mkdir sys cwd (path_join moduledir c) (grown n) = put sys (loc ++ [c]) Dir (grown n).
Proof.
  intros Hn Hpos Hc. unfold mkdir. rewrite (resolve_name _ _ _ (loc ++ [])) by auto using moduledir_path.
  rewrite app_nil_r. pose proof (fresh_entry _ _ _ Hn) as Hfresh. cbn [put].
  destruct (mkdir_refused sys (grown n) (loc ++ [c])); [by rewrite decide_False by (by intros [])|].
  by rewrite decide_True.
Qed.

Lemma write_put n d dp c template di :
  module_entries name !! n = Some (dp ++ [c], File (filled template di)) →
  dir_path (grown n) cwd d (loc ++ dp) → entry_name c → (template, di) ∈ module_texts name →
  write_template sys cwd (path_join d c) template di (grown n) =
    put sys (loc ++ dp ++ [c]) (File (filled template di)) (grown n).
Proof.
  intros Hn Hd Hc Ht. pose proof (fresh_entry _ _ _ Hn) as Hfresh.
  unfold write_template, mbind, io_bind, lift, open_wt, fwrite.
  rewrite (resolve_name _ _ _ _ _ Hc Hd), <- app_assoc. unfold is_dir. rewrite Hfresh.
  rewrite bool_decide_eq_false_2 by done. cbn [orb put].
  destruct (open_refused _ _ _); [done|]. rewrite (format_filled name) by done.
  rewrite lookup_insert_eq. by destruct (written _ _ _ _); rewrite insert_insert_eq.
Qed.

Lemma mkdir_moduledir :
  mkdir sys cwd moduledir (grown 0) = put sys (loc ++ []) Dir (grown 0).
Proof.
  change (grown 0) with t. unfold mkdir, moduledir. rewrite (resolve_name _ _ _ base) by done.
  rewrite app_nil_r. cbn [put]. fold loc. fold loc in Hnew.
  destruct (mkdir_refused sys t loc); [by rewrite decide_False by (by intros [])|].
  by rewrite decide_True.
Qed.

(** The entries from the [n]-th on. *)
Definition put_from (n : nat) : result exn unit * tree :=
  put_entries sys loc (drop n (module_entries name)) (grown n).

Lemma put_last n e (m : io unit) :
  module_entries name !! n = Some e → S n = length (module_entries name) →
  m (grown n) = put sys (loc ++ e.1) e.2 (grown n) → m (grown n) = put_from n.
Proof.
  intros Hn Hlen Hm. unfold put_from. rewrite (drop_S _ _ _ Hn), drop_ge by lia. cbn [put_entries].
  rewrite Hm. by destruct (put _ _ _ _) as [[[]|] ?].
Qed.

Lemma put_next n e (m : io unit) (k : unit → io unit) :
  module_entries name !! n = Some e →
  m (grown n) = put sys (loc ++ e.1) e.2 (grown n) →
  k tt (grown (S n)) = put_from (S n) →
  (m ≫= k) (grown n) = put_from n.
Proof.
  intros Hn Hm Hk. unfold put_from. rewrite (drop_S _ _ _ Hn). cbn [put_entries].
  unfold mbind, io_bind. rewrite Hm.
  destruct (granted sys loc [e] (grown n)) eqn:E.
  - apply put_granted in E as ->. by rewrite <- (grown_S _ _ Hn).
  - by destruct (put_refused loc _ _ _ E) as (x & rest & -> & _).
Qed.

(** The calls of [create_module], one after the other. *)
Ltac create_dir :=
  eapply put_next; [reflexivity|apply mkdir_put; [reflexivity|lia|create_name (proj2 Hname)]|].
Ltac write_file n dp i :=
  apply (write_put n _ dp);
  [ reflexivity
  | first [apply moduledir_path; lia|apply (subdir_path _ i); [reflexivity|lia|create_name (proj2 Hname)]]
  | create_name (proj2 Hname)
  | unfold module_texts; set_solver ].
Ltac written n dp i := eapply put_next; [reflexivity|write_file n dp i|].

(** The script makes the entries of the module, up to the first that is refused. *)
Lemma create_module_put :
  create_module sys cwd moduledir name t = put_entries sys loc (module_entries name) t.
Proof.
  change (create_module sys cwd moduledir name (grown 0) = put_from 0). unfold create_module.
  eapply put_next; [reflexivity|apply mkdir_moduledir|].
  written 1 ([] : location) 0.
  create_dir. written 3 ["model"] 2. written 4 ["model"] 2.
  create_dir. written 6 ["test"] 5.
  create_dir. written 8 ["helper"] 7. written 9 ["helper"] 7.
  create_dir. written 11 ["examples"] 10.
  eapply put_last; [reflexivity..|write_file 12 ["examples"] 10].
Qed.
End create.

(** The entries come after their directories. *)
Lemma entries_placed name n x :
  contains_char "/" name = false → module_entries name !! n = Some x →
  x = ([], Dir) ∧ n = 0 ∨
  ∃ dp c i, x.1 = dp ++ [c] ∧ module_entries name !! i = Some (dp, Dir) ∧ i < n ∧ entry_name c.
Proof.
  intros Hname Hn.
  assert (Hin : ∀ dp c i e, module_entries name !! i = Some (dp, Dir) → i < n →
    entry_name c → x = (dp ++ [c], e) → x = ([], Dir) ∧ n = 0 ∨
    ∃ dp c i, x.1 = dp ++ [c] ∧ module_entries name !! i = Some (dp, Dir) ∧ i < n ∧ entry_name c).
  { intros dp c i e Hi Hlt Hc ->. right. by exists dp, c, i. }
  do 13 (try (destruct n as [|n]; [cbn [lookup list_lookup module_entries] in Hn; injection Hn as E; subst x|])); [by left|..|done];
    [eapply (Hin [] _ 0)|eapply (Hin [] _ 0)|eapply (Hin ["model"] _ 2)|eapply (Hin ["model"] _ 2)
    |eapply (Hin [] _ 0)|eapply (Hin ["test"] _ 5)|eapply (Hin [] _ 0)|eapply (Hin ["helper"] _ 7)
    |eapply (Hin ["helper"] _ 7)|eapply (Hin [] _ 0)|eapply (Hin ["examples"] _ 10)
    |eapply (Hin ["examples"] _ 10)]; try reflexivity; try lia;
    create_name Hname.
Qed.

Section wf.
Context (t : tree) (base : location) (name : string).
Context (Hwf : wf t) (Hbase : t !! base = Some Dir) (Hname : entry_name name).
Context (Hnew : t !! (base ++ [name]) = None).

Lemma wf_put n x e :
  wf (grown t base name n) → module_entries name !! n = Some x →
  wf (<[(base ++ [name]) ++ x.1 := e]> (grown t base name n)).
Proof using All.
  intros IH Hx.
  destruct (entries_placed name n x) as [[-> ->]|(dp & c & i & Hp & Hi & Hlt & Hc)];
    [apply Hname|done|..].
  - rewrite app_nil_r. by apply wf_insert.
  - rewrite Hp, app_assoc. apply wf_insert; [done..| |].
    + by apply (grown_has t base name n i (dp, Dir)).
    + rewrite <- app_assoc. apply (fresh_entry t base name Hwf Hnew n (dp ++ [c]) x.2).
      rewrite Hx. by destruct x; cbn in *; subst.
Qed.

Lemma grown_wf n : n ≤ 13 → wf (grown t base name n).
Proof using All.
  induction n as [|n IH]; intros Hle; [done|].
  destruct (lookup_lt_is_Some_2 (module_entries name) n) as [x Hx]; [cbn; lia|].
  rewrite (grown_S _ _ _ _ _ Hx). apply wf_put; [apply IH; lia|done].
Qed.

Lemma interrupted_wf k e rest :
  module_entries name !! k = Some e → remainder e rest →
  wf (add_entries (base ++ [name]) (take k (module_entries name) ++ rest) t).
Proof using All.
  intros Hk Hr. assert (Hwk : wf (grown t base name k)).
  { apply grown_wf. apply lookup_lt_Some in Hk. cbn in Hk. lia. }
  destruct Hr as [->|(s & s' & n & _ & _ & ->)]; [by rewrite app_nil_r|].
  rewrite add_entries_snoc. cbn [fst snd]. by apply wf_put.
Qed.
End wf.

(** ** The script as a whole *)

(** What one name does in the directory [base]. *)
Definition created (sys : system) (dirname : string) (base : location) (name : string) (t : tree) :
    result exn Z * tree :=
  if contains_char "/" name then (Raise AssertionError, t)
  else if bool_decide (dirname = "" ∧ name = "") then (Raise OSError, t)
  else if bool_decide (name ∈ [""; "."; ".."]) || bool_decide (is_Some (t !! (base ++ [name])))
  then (if stat_refused sys t (path_join dirname name) then Raise OSError else Ok 2%Z, t)
  else match put_entries sys (base ++ [name]) (module_entries name) t with
       | (Ok _, t') => (Ok 0%Z, t')
       | (Raise e, t') => (Raise e, t')
       end.

Lemma take_parent_dir t l n : wf t → t !! l = Some Dir → t !! take n l = Some Dir.
Proof.
  intros Hwf Hl. destruct (decide (length l ≤ n)) as [Hn|Hn]; [by rewrite take_ge|].
  apply (wf_parent t _ (drop n l) Hwf).
  - intros E%(f_equal length). rewrite length_drop in E. cbn in E. lia.
  - rewrite take_drop. by exists Dir.
Qed.

(** The names that stand for directories. *)
Lemma dots_exist t cwd dirname base name :
  wf t → dir_path t cwd dirname base → path_join dirname name ≠ "" → name ∈ [""; "."; ".."] →
  exists_at t cwd (path_join dirname name) = true.
Proof.
  intros Hwf Hdir Hne Hname. pose proof Hdir as [_ Hbase].
  assert (Hs : contains_char "/" name = false).
  { rewrite !elem_of_cons in Hname. by destruct Hname as [->|[->|[->|[]%elem_of_nil]]]. }
  unfold exists_at, entry_at. rewrite (resolve_join _ _ _ base) by done.
  rewrite split_no_sep by done. cbn [walk]. unfold is_dir.
  rewrite (bool_decide_eq_true_2 (_ = Some Dir)) by done.
  cbn [mbind option_bind]. apply bool_decide_eq_true_2. unfold walk_step. case_bool_decide.
  - rewrite Hbase. by exists Dir.
  - rewrite bool_decide_eq_true_2 by set_solver. rewrite take_parent_dir by done. by exists Dir.
Qed.

Lemma exists_name t cwd dirname base name :
  dir_path t cwd dirname base → entry_name name →
  exists_at t cwd (path_join dirname name) = bool_decide (is_Some (t !! (base ++ [name]))).
Proof.
  intros Hdir Hname. unfold exists_at, entry_at. by rewrite (resolve_name _ _ _ base).
Qed.

(** Where something exists already no module is made. *)
Lemma existing_mkdir sys t cwd p name :
  exists_at t cwd p = true → create_module sys cwd p name t = (Raise OSError, t).
Proof.
  unfold exists_at, entry_at. intros Hp%bool_decide_eq_true.
  unfold create_module. unfold mbind at 1, io_bind at 1, mkdir at 1.
  destruct (resolve_path t cwd p) as [l|]; [|done]. cbn [mbind option_bind] in Hp.
  rewrite decide_False; [done|]. intros [E _]. rewrite E in Hp. by destruct Hp.
Qed.

Lemma main_spec sys t cwd dirname base args :
  wf t → dir_path t cwd dirname base →
  main sys cwd dirname args t =
    match parse_args args with
    | Ok [name] => created sys dirname base name t
    | Ok _ => (Ok 1%Z, t)
    | Raise e => (Raise e, t)
    end.
Proof.
  intros Hwf Hdir. unfold main, lift, mbind, io_bind. cbn beta.
  destruct (parse_args args) as [[|name [|]]|]; [done| |done..].
  unfold created. destruct (contains_char "/" name) eqn:Hs; [done|].
  unfold os_path_exists. cbv beta.
  destruct (decide (name ∈ [""; "."; ".."])) as [Hdots|Hdots].
  - rewrite (bool_decide_eq_true_2 _ Hdots). cbn [orb].
    destruct (decide (path_join dirname name = "")) as [E|E].
    + assert (dirname = "" ∧ name = "") as [-> ->].
      { unfold path_join in E. destruct (startswith "/" name) eqn:E1; [by subst|].
        destruct (bool_decide _ || _); destruct dirname; cbn in E; try discriminate E; by rewrite ?E. }
      by destruct (stat_refused _ _ _).
    + pose proof (dots_exist t cwd dirname base name Hwf Hdir E Hdots) as He. rewrite He.
      rewrite bool_decide_eq_false_2 by (intros [-> ->]; by apply E).
      destruct (stat_refused _ _ _); [|done]. cbn [negb andb]. by rewrite existing_mkdir.
  - assert (Hname : entry_name name) by done.
    pose proof (exists_name t cwd dirname base name Hdir Hname) as He. rewrite He.
    rewrite (bool_decide_eq_false_2 (name ∈ _)) by done. cbn [orb].
    rewrite (bool_decide_eq_false_2 (dirname = "" ∧ _)) by (intros [_ ->]; apply Hdots; set_solver).
    case_bool_decide as Hnew.
    + destruct (stat_refused _ _ _); [|done]. cbn [negb andb].
      by rewrite existing_mkdir.
    + apply eq_None_not_Some in Hnew. rewrite andb_false_r, (create_module_put _ _ _ base) by done.
      by destruct (put_entries _ _ _ _) as [[[]|] ?].
Qed.

(** ** The theorems *)

(** What [created] gives, seen from the tree. *)
Definition module_added (base : location) (name : string) (t t' : tree) : Prop :=
  (∀ p e, (p, e) ∈ module_entries name → t' !! (base ++ name :: p) = Some e) ∧
  (∀ p, p ∉ (module_entries name).*1 → t' !! (base ++ name :: p) = None) ∧
  (∀ l, (∀ p, l ≠ base ++ name :: p) → t' !! l = t !! l).

Lemma add_module t base name :
  wf t → t !! (base ++ [name]) = None →
  module_added base name t (add_entries (base ++ [name]) (module_entries name) t).
Proof.
  intros Hwf Hnew. assert (Hsnoc : ∀ p, base ++ name :: p = (base ++ [name]) ++ p).
  { intros p. by rewrite <- app_assoc. }
  split_and!.
  - intros p e Hp. rewrite Hsnoc. by apply add_entries_new; [apply module_entries_nodup|].
  - intros p Hp. rewrite Hsnoc, add_entries_other; [by apply wf_below|]. intros q Hq. by apply app_inv_head in Hq as <-.
  - intros l Hl. apply add_entries_other. intros p -> _. apply (Hl p). by rewrite (Hsnoc p).
Qed.

(** The argument is a name, and nothing of that name is there. *)
Definition ready (base : location) (args : list string) (name : string) (t : tree) : Prop :=
  parse_args args = Ok [name] ∧ entry_name name ∧ t !! (base ++ [name]) = None.

(** The first entries of the module, and what is left of the next one. *)
Definition interrupted (base : location) (name : string) (t t' : tree) : Prop :=
  ∃ k e rest, module_entries name !! k = Some e ∧ remainder e rest ∧
    t' = add_entries (base ++ [name]) (take k (module_entries name) ++ rest) t.

Lemma created_ready sys dirname base name t :
  entry_name name → t !! (base ++ [name]) = None →
  let '(r, t') := created sys dirname base name t in
  if granted sys (base ++ [name]) (module_entries name) t
  then r = Ok 0%Z ∧ t' = add_entries (base ++ [name]) (module_entries name) t
  else (r = Raise OSError ∨ r = Raise IOError) ∧ interrupted base name t t'.
Proof.
  intros [Hdots Hs] Hnew. unfold created. rewrite Hs, Hnew.
  rewrite bool_decide_eq_false_2 by (intros [_ ->]; apply Hdots; set_solver).
  rewrite bool_decide_eq_false_2 by done. rewrite bool_decide_eq_false_2 by (by intros []).
  cbn [orb]. pose proof (put_entries_spec (base ++ [name]) sys (module_entries name) t) as H.
  destruct (granted _ _ _ _); [by rewrite H|].
  destruct H as (k & e & x & rest & Hk & Hx & Hr & ->). split; [naive_solver|]. by exists k, e, rest.
Qed.

Lemma created_other sys dirname base name t :
  ¬ (entry_name name ∧ t !! (base ++ [name]) = None) →
  ∃ r, created sys dirname base name t = (r, t) ∧ r ≠ Ok 0%Z.
Proof.
  intros Hno. unfold created. destruct (contains_char "/" name) eqn:Hs; [by eexists|].
  case_bool_decide; [by eexists|]. case_bool_decide as Hdots; [eexists; split; [done|by case_match]|].
  cbn [orb]. case_bool_decide as Hnew; [eexists; split; [done|by case_match]|]. exfalso. apply Hno.
  split; [done|]. by apply eq_None_not_Some.
Qed.

Lemma parse_single a b : parse_args [a] = Ok [b] → a = b.
Proof. cbn. repeat case_match; naive_solver. Qed.

Lemma ready_cases base args t : (∃ name, ready base args name t) ∨ ¬ ∃ name, ready base args name t.
Proof.
  destruct (parse_args args) as [[|name [|]]|] eqn:Ha;
    [|destruct (decide (entry_name name ∧ t !! (base ++ [name]) = None)) as [Hn|Hn]; [left; by exists name|]|..];
    right; intros (n & E & Hrest); [congruence| |congruence..].
  apply Hn. replace name with n by congruence. done.
Qed.

Lemma main_ready sys t cwd dirname base args name :
  wf t → dir_path t cwd dirname base → ready base args name t →
  let '(r, t') := main sys cwd dirname args t in
  if granted sys (base ++ [name]) (module_entries name) t
  then r = Ok 0%Z ∧ t' = add_entries (base ++ [name]) (module_entries name) t
  else (r = Raise OSError ∨ r = Raise IOError) ∧ interrupted base name t t'.
Proof.
  intros Hwf Hdir (Ha & Hname & Hnew). rewrite (main_spec _ _ _ _ base), Ha by done.
  by apply created_ready.
Qed.

Lemma main_other sys t cwd dirname base args :
  wf t → dir_path t cwd dirname base → (¬ ∃ name, ready base args name t) →
  ∃ r, main sys cwd dirname args t = (r, t) ∧ r ≠ Ok 0%Z.
Proof.
  intros Hwf Hdir Hno. rewrite (main_spec _ _ _ _ base) by done.
  destruct (parse_args args) as [[|name [|]]|] eqn:Ha; try by eexists.
  apply created_other. intros Hn. apply Hno. by exists name.
Qed.

Lemma main_zero sys t cwd dirname base args t' :
  wf t → dir_path t cwd dirname base → main sys cwd dirname args t = (Ok 0%Z, t') →
  ∃ name, parse_args args = Ok [name] ∧ entry_name name ∧ t !! (base ++ [name]) = None ∧
    granted sys (base ++ [name]) (module_entries name) t = true ∧
    t' = add_entries (base ++ [name]) (module_entries name) t.
Proof.
  intros Hwf Hdir Hm. assert (Hr : ∃ name, ready base args name t).
  { rewrite (main_spec _ _ _ _ base) in Hm by done.
    destruct (parse_args args) as [[|name [|]]|] eqn:Ha; try done.
    destruct (decide (entry_name name ∧ t !! (base ++ [name]) = None)); [by exists name|].
    destruct (created_other sys dirname base name t) as (r & E & ?); [done|]. congruence. }
  destruct Hr as [name Hr]. pose proof (main_ready sys t cwd dirname base args name Hwf Hdir Hr) as H.
  rewrite Hm in H. destruct Hr as (? & ? & ?). exists name.
  destruct (granted _ _ _ _); [by destruct H|]. by destruct H as [[|] _].
Qed.

(** C27: the script creates a module as a whole unless the system refuses one of
    its calls.  It returns 0 exactly when its only argument is a name that is
    free in its directory and no call is refused; then all the directories and
    files of the module are there, nothing else is below the new directory, and
    the rest of the tree is as it was.  If the name is free and a call is
    refused, it ends with the exception of that call, and leaves the entries
    made before it, in their order, and perhaps the beginning of the file being
    written: nothing is undone.  Whatever else the command line says, [-h]
    included, which exits with 0, the tree is as it was. *)
Theorem create_module_atomic (sys : system) (t : tree) (cwd base : location) (dirname : string)
    (args : list string) :
  wf t → dir_path t cwd dirname base →
  let '(r, t') := main sys cwd dirname args t in
  let free_of_refusals name := granted sys (base ++ [name]) (module_entries name) t in
  wf t' ∧
  (r = Ok 0%Z ↔ ∃ name, ready base args name t ∧ free_of_refusals name = true) ∧
  (∀ name, ready base args name t → free_of_refusals name = true → module_added base name t t') ∧
  (∀ name, ready base args name t → free_of_refusals name = false →
     (r = Raise OSError ∨ r = Raise IOError) ∧ interrupted base name t t') ∧
  ((¬ ∃ name, ready base args name t) → t' = t) ∧
  (∀ e, parse_args args = Raise e → r = Raise e).
Proof.
  intros Hwf Hdir. destruct (main sys cwd dirname args t) as [r t'] eqn:E. cbv zeta.
  assert (Hparse : ∀ e, parse_args args = Raise e → r = Raise e).
  { intros e Ha. rewrite (main_spec _ _ _ _ base), Ha in E by done. congruence. }
  destruct (ready_cases base args t) as [[name Hr]|Hno].
  - assert (Hone : ∀ n, ready base args n t → n = name).
    { intros n (H1 & _). destruct Hr as (H2 & _). congruence. }
    pose proof (main_ready sys t cwd dirname base args name Hwf Hdir Hr) as H. rewrite E in H.
    pose proof Hr as (_ & Hname & Hnew). destruct Hdir as [_ Hbase].
    destruct (granted _ _ _ _) eqn:Hg; [destruct H as [-> ->]|destruct H as [Hx Hi]]; split_and!.
    + exact (grown_wf t base name Hwf Hbase Hname Hnew 13 (le_n _)).
    + split; [intros _; by exists name|done].
    + intros n ->%Hone _. by apply add_module.
    + intros n ->%Hone. congruence.
    + intros []. by exists name.
    + done.
    + destruct Hi as (k & e & rest & Hk & Hrem & ->). by apply (interrupted_wf t base name Hwf Hbase Hname Hnew k e).
    + split; [intros ->; by destruct Hx|]. intros (n & ->%Hone & Hgn). congruence.
    + intros n ->%Hone. congruence.
    + intros n ->%Hone _. done.
    + intros []. by exists name.
    + done.
  - destruct (main_other sys t cwd dirname base args Hwf Hdir Hno) as (r' & E' & Hr').
    rewrite E in E'. injection E' as <- ->. split_and!; [done| | | |done|done].
    + split; [done|]. intros (n & Hn & _). destruct Hno. by exists n.
    + intros n Hn. destruct Hno. by exists n.
    + intros n Hn. destruct Hno. by exists n.
Qed.

(** What a refusal leaves is in the way of the next run. *)
Lemma interrupted_module_stays sys t t' cwd dirname base name :
  wf t → dir_path t cwd dirname base → ready base [name] name t → interrupted base name t t' → t' ≠ t →
  main sys cwd dirname [name] t' =
    (if stat_refused sys t' (path_join dirname name) then Raise OSError else Ok 2%Z, t').
Proof.
  intros Hwf Hdir (Ha & [Hdots Hs] & Hnew) (k & e & rest & Hk & Hrem & ->) Hne.
  assert (Hdir' : t !! base = Some Dir) by apply Hdir.
  set (t' := add_entries _ _ t) in *.
  assert (Hk0 : k ≠ 0).
  { intros ->. apply Hne. injection Hk as <-. unfold t'.
    destruct Hrem as [->|(s & s' & n & [=] & _)]; done. }
  assert (Hother : ∀ l, l ≠ base ++ [name] → (∀ p, l ≠ base ++ name :: p) → t' !! l = t !! l).
  { intros l _ Hl. unfold t'. apply add_entries_other. intros p -> _. apply (Hl p). by rewrite <- app_assoc. }
  assert (Hsub : t ⊆ t').
  { apply map_subseteq_spec. intros l x Hl. unfold t'. rewrite add_entries_other; [done|].
    intros p -> _. by rewrite wf_below in Hl. }
  rewrite (main_spec _ _ _ _ base);
    [|by apply (interrupted_wf _ _ _ Hwf Hdir' (conj Hdots Hs) Hnew k e)|by eapply dir_path_mono].
  rewrite Ha. unfold created. rewrite Hs.
  rewrite bool_decide_eq_false_2 by (intros [_ ->]; apply Hdots; set_solver).
  rewrite (bool_decide_eq_true_2 (is_Some _)); [by rewrite orb_true_r|].
  destruct k as [|k]; [done|]. exists Dir.
  rewrite <- (app_nil_r (base ++ [name])). unfold t'.
  apply (add_entries_new _ _ _ [] Dir); [|apply elem_of_app; left; by left].
  pose proof (module_entries_nodup name) as Hnd.
  destruct Hrem as [->|(s & s' & n & _ & _ & ->)].
  - rewrite app_nil_r, fmap_take. by eapply sublist_NoDup, sublist_take.
  - rewrite fmap_app, fmap_take. cbn [fmap list_fmap fst].
    rewrite <- take_S_r; [by eapply sublist_NoDup, sublist_take|]. by rewrite list_lookup_fmap, Hk.
Qed.

(** ** Discovery *)

Lemma all_modules_filter t cwd listing :
  all_modules t cwd listing = merge_sort String.le (filter (is_module t cwd) listing).
Proof.
  unfold all_modules. f_equal.
  enough (H : ∀ acc, foldl (λ l d, if is_module t cwd d then l ++ [d] else l) acc listing =
                     acc ++ filter (is_module t cwd) listing) by apply H.
  induction listing as [|d listing IH]; intros acc; [by rewrite app_nil_r|].
  cbn [foldl]. rewrite IH, filter_cons.
  destruct (is_module t cwd d); [|done]. by rewrite <- app_assoc.
Qed.

Lemma is_module_at t cwd src d :
  dir_path t cwd "src" src → entry_name d →
  is_module t cwd d =
    negb (startswith "." d) && bool_decide (t !! (src ++ [d]) = Some Dir) &&
    bool_decide (is_Some (t !! (src ++ [d; "wscript"]))).
Proof.
  intros Hsrc Hd. unfold is_module. destruct (startswith "." d); [done|]. cbn [negb andb].
  unfold isdir_at, exists_at, entry_at. rewrite (resolve_name _ _ _ src) by done. cbn [mbind option_bind].
  case_bool_decide as Hdir; [|done]. cbn [negb andb].
  rewrite (resolve_name _ _ _ (src ++ [d]));
    [|by split; [rewrite !not_elem_of_cons; repeat split; auto using not_elem_of_nil|]|].
  - cbn [mbind option_bind]. by rewrite <- app_assoc.
  - split; [|done]. left. by apply resolve_name.
Qed.

Lemma merge_sort_perm (l l' : list string) : l ≡ₚ l' → merge_sort String.le l = merge_sort String.le l'.
Proof.
  intros Hl. apply (StronglySorted_unique String.le); [apply (StronglySorted_merge_sort String.le)..|].
  by rewrite !merge_sort_Permutation.
Qed.

Lemma wscript_entry name :
  (["wscript"], File (filled WSCRIPT_TEMPLATE (module_fields name))) ∈ module_entries name.
Proof. by apply (list_elem_of_lookup_2 _ 1). Qed.

Lemma examples_entry name :
  (["examples"; "wscript"], File (filled EXAMPLES_WSCRIPT_TEMPLATE (module_fields name)))
  ∈ module_entries name.
Proof. by apply (list_elem_of_lookup_2 _ 11). Qed.

Lemma root_entry name : ([], Dir) ∈ module_entries name.
Proof. by apply (list_elem_of_lookup_2 _ 0). Qed.

(** C28: after a run that creates a module in [src], the scan of [src/wscript]
    finds what it found before and the new module, in alphabetical order,
    whatever the order of [os.listdir]; but a module whose name begins with a
    dot is not found. *)
Theorem created_module_found (sys : system) (t t' : tree) (cwd top src : location) (dirname name : string)
    (before after : list string) :
  wf t → dir_path t cwd dirname src → dir_path t top "src" src →
  main sys cwd dirname [name] t = (Ok 0%Z, t') →
  listing_of t src before → listing_of t' src after →
  all_modules t' top after =
    if startswith "." name then all_modules t top before
    else merge_sort String.le (name :: all_modules t top before).
Proof.
  intros Hwf Hdir Htop Hmain [Hnd Hbefore] [Hnd' Hafter].
  destruct (main_zero _ _ _ _ src _ _ Hwf Hdir Hmain) as (name' & Ha & Hname & Hnew & _ & ->).
  apply parse_single in Ha as <-.
  destruct (add_module t src name Hwf Hnew) as (Hin & _ & Hrest).
  set (t' := add_entries (src ++ [name]) (module_entries name) t) in *.
  assert (Hother : ∀ d p, d ≠ name → t' !! (src ++ d :: p) = t !! (src ++ d :: p)).
  { intros d p Hd. apply Hrest. intros q [=]%app_inv_head. done. }
  assert (Hnot : name ∉ before).
  { rewrite Hbefore, Hnew. by intros []. }
  assert (Hperm : after ≡ₚ name :: before).
  { apply NoDup_Permutation; [done|by apply NoDup_cons|]. intros d. rewrite elem_of_cons, Hafter.
    destruct (decide (d = name)) as [->|Hd].
    - rewrite (Hin _ _ (root_entry name)). split; [by left|by eexists].
    - rewrite Hother by done. rewrite Hbefore. naive_solver. }
  assert (Htop' : dir_path t' top "src" src).
  { eapply dir_path_mono; [apply (grown_extends t src name Hwf Hnew 13)|done]. }
  assert (Hsame : filter (is_module t' top) before = filter (is_module t top) before).
  { assert (Hb : Forall (λ d, is_module t' top d = is_module t top d) before).
    { apply Forall_forall. intros d Hd. assert (d ≠ name) by congruence.
      assert (entry_name d) by by (apply Hbefore in Hd; apply Hwf in Hd as [? _]).
      rewrite !(is_module_at _ _ src) by done. by rewrite !Hother. }
    clear -Hb. induction Hb as [|d l Hd _ IH]; [done|]. by rewrite !filter_cons, IH, Hd. }
  rewrite !all_modules_filter, (merge_sort_perm _ _ (filter_Permutation _ _ _ Hperm)).
  rewrite filter_cons, Hsame, (is_module_at _ _ src) by done.
  rewrite (Hin _ _ (root_entry name)).
  rewrite (Hin _ _ (wscript_entry name)).
  rewrite !bool_decide_eq_true_2 by (done || by eexists).
  destruct (startswith "." name); [done|]. cbn [negb andb]. case_decide; [|done].
  apply merge_sort_perm. by rewrite merge_sort_Permutation.
Qed.

(** ** The sources that the generated scripts name *)

(** A line of a list of sources, [    'name',], or the assignment of the only
    source of an example. *)
Definition source_line (before after : string) : bool :=
  all_chars is_space before && bool_decide (after = ",") ||
  bool_decide (strip before = "obj.source =") && bool_decide (after = "").

Definition listed_source (line : string) : option string :=
  match split "'" line with
  | [before; source; after] => if source_line before after then Some source else None
  | _ => None
  end.

Definition named_sources (text : string) : list string := omap listed_source (split newline text).

(** A name of printable characters without quotes and backslashes. *)
Definition plain_char (c : ascii) : bool :=
  let n := N_of_ascii c in
  (32 <=? n)%N && (n <? 127)%N && negb (bool_decide (c ∈ ["'"; "\"]%char)).

Definition plain_name (name : string) : Prop := all_chars plain_char name = true.

(** *** Splitting commutes with filling *)
Lemma split_prefix c a s :
  contains_char c a = false →
  split c (a +:+ s) = match split c s with w :: ws => (a +:+ w) :: ws | [] => [a] end.
Proof.
  intros Ha. induction a as [|d a IH].
  - change ("" +:+ s) with s. pose proof (split_nonempty c s). by destruct (split c s).
  - cbn [contains_char] in Ha. apply orb_false_iff in Ha as [Hd%bool_decide_eq_false Ha].
    rewrite str_app_cons. cbn [split]. rewrite decide_False by congruence.
    rewrite IH by done. by destruct (split c s).
Qed.

Fixpoint split_pieces (c : ascii) (ps : list piece) : list (list piece) :=
  match ps with
  | [] => [[]]
  | p :: ps =>
      if decide (p = inl c) then [] :: split_pieces c ps
      else match split_pieces c ps with w :: ws => (p :: w) :: ws | [] => [[p]] end
  end.

Definition field_free (d : gmap string string) (c : ascii) (p : piece) : Prop :=
  match p with inl _ => True | inr _ => contains_char c (piece_text d p) = false end.

Lemma split_fill d c ps :
  Forall (field_free d c) ps → split c (fill d ps) = fill d <$> split_pieces c ps.
Proof.
  induction 1 as [|p ps Hp _ IH]; [done|]. cbn [fill split_pieces].
  case_decide as Hc.
  - subst p. change (piece_text d (inl c) +:+ fill d ps) with (String c (fill d ps)).
    cbn [split]. rewrite decide_True by done. by rewrite IH.
  - rewrite split_prefix, IH.
    + destruct (split_pieces c ps); cbn; by rewrite ?app_empty_r.
    + destruct p as [x|]; [|done]. cbn. rewrite orb_false_r. apply bool_decide_eq_false. congruence.
Qed.

Lemma plain_free name c : plain_name name → plain_char c = false → contains_char c name = false.
Proof.
  unfold plain_name. intros Hn Hc. induction name as [|d name IH]; [done|].
  cbn [all_chars contains_char] in *. apply andb_true_iff in Hn as [Hd Hn].
  rewrite IH, orb_false_r by done. apply bool_decide_eq_false. congruence.
Qed.

(** The representation of a plain name is the name between quotes. *)
Lemma repr_plain name : plain_name name → repr name = String "'" (name +:+ String "'" "").
Proof.
  intros Hn. unfold repr.
  assert (Hq : contains_char "'" name = false) by by apply plain_free.
  rewrite Hq. cbn [andb]. f_equal. f_equal. clear Hq.
  unfold plain_name in Hn. induction name as [|c name IH]; [done|]. cbn [all_chars repr_body] in *.
  apply andb_true_iff in Hn as [Hc Hn]. rewrite IH by done.
  unfold plain_char in Hc. apply andb_true_iff in Hc as [[Hlo Hhi]%andb_true_iff Hnq].
  apply negb_true_iff, bool_decide_eq_false in Hnq. unfold repr_char.
  rewrite bool_decide_eq_false_2 by set_solver.
  assert (Hctl : ∀ x, (N_of_ascii x <? 32)%N = true → c ≠ x).
  { intros x Hx ->. apply N.ltb_lt in Hx. apply N.leb_le in Hlo. lia. }
  rewrite !bool_decide_eq_false_2 by by apply Hctl.
  apply N.leb_le in Hlo. apply N.ltb_lt in Hhi.
  rewrite (proj2 (N.ltb_ge _ _)) by lia. by rewrite (proj2 (N.leb_gt _ _)) by lia.
Qed.

(** A representation as pieces of its own. *)
Fixpoint expand (ps : list piece) : list piece :=
  match ps with
  | [] => []
  | inr (key, Repr) :: ps => inl "'"%char :: inr (key, Str) :: inl "'"%char :: expand ps
  | p :: ps => p :: expand ps
  end.

Lemma field_value (d : gmap string string) key : map_Forall (λ _, plain_name) d → plain_name (default "" (d !! key)).
Proof. intros Hd. destruct (d !! key) eqn:E; [by eapply Hd|done]. Qed.

Lemma fill_expand d ps :
  map_Forall (λ _, plain_name) d → fill d (expand ps) = fill d ps.
Proof.
  intros Hd. assert (Hv : ∀ key, plain_name (default "" (d !! key))).
  { intros key. by apply field_value. }
  induction ps as [|[c|[key []]] ps IH]; cbn [expand fill piece_text convert]; rewrite ?IH; [done..|].
  rewrite repr_plain, !str_app_cons, <- str_app_assoc by done. done.
Qed.

(** *** The sources of a template *)
Definition listed_pieces (d : gmap string string) (ps : list piece) : option string :=
  match split_pieces "'" (expand ps) with
  | [before; source; after] =>
      if source_line (fill d before) (fill d after) then Some (fill d source) else None
  | _ => None
  end.

Lemma newline_free d p : map_Forall (λ _, plain_name) d → field_free d newline p.
Proof.
  intros Hd. destruct p as [c|[key k]]; [done|]. pose proof (field_value d key Hd) as Hv.
  cbn [field_free piece_text]. destruct k; cbn [convert]; [by apply plain_free|].
  rewrite repr_plain by done. cbn [contains_char]. rewrite contains_char_app.
  by rewrite plain_free.
Qed.

Lemma quote_free d ps :
  map_Forall (λ _, plain_name) d → Forall (field_free d "'") (expand ps).
Proof.
  intros Hd. assert (Hkey : ∀ key, field_free d "'" (inr (key, Str))).
  { intros key. apply plain_free; [by apply field_value|done]. }
  induction ps as [|[c|[key []]] ps IH]; cbn [expand]; repeat constructor; auto.
Qed.

Lemma listed_source_fill d ps :
  map_Forall (λ _, plain_name) d → listed_source (fill d ps) = listed_pieces d ps.
Proof.
  intros Hd. unfold listed_source, listed_pieces.
  rewrite <- fill_expand, split_fill by (try apply quote_free; done).
  by destruct (split_pieces "'" (expand ps)) as [|? [|? [|? [|]]]].
Qed.

(** The sources of the text are those of its pieces, filled. *)
Lemma named_sources_fill d ps :
  map_Forall (λ _, plain_name) d →
  named_sources (fill d ps) = omap (listed_pieces d) (split_pieces newline ps).
Proof.
  intros Hd. unfold named_sources. rewrite split_fill.
  2: { apply Forall_forall. intros p _. by apply newline_free. }
  induction (split_pieces newline ps) as [|line lines IH]; [done|].
  cbn [fmap list_fmap omap list_omap]. fold (fill d <$> lines). rewrite IH.
  by rewrite listed_source_fill.
Qed.

(** The sources of a module and of its example. *)
Definition module_sources (name : string) : list string :=
  ["model/" +:+ name +:+ ".cc"; "helper/" +:+ name +:+ "-helper.cc";
   "test/" +:+ name +:+ "-test-suite.cc"; "model/" +:+ name +:+ ".h"; "helper/" +:+ name +:+ "-helper.h"].

Lemma module_fields_plain name : plain_name name → map_Forall (λ _, plain_name) (module_fields name).
Proof. intros Hn. by apply map_Forall_singleton. Qed.

Lemma wscript_sources name :
  plain_name name →
  named_sources (filled WSCRIPT_TEMPLATE (module_fields name)) = module_sources name.
Proof.
  intros Hn. destruct (template_text name (WSCRIPT_TEMPLATE, module_fields name)) as [_ E]; [by left|].
  cbn [fst snd] in E. rewrite E, named_sources_fill by by apply module_fields_plain.
  vm_compute. reflexivity.
Qed.

Lemma examples_sources name :
  plain_name name →
  named_sources (filled EXAMPLES_WSCRIPT_TEMPLATE (module_fields name)) = [name +:+ "-example.cc"].
Proof.
  intros Hn. destruct (template_text name (EXAMPLES_WSCRIPT_TEMPLATE, module_fields name)) as [_ E].
  { unfold module_texts. set_solver. }
  cbn [fst snd] in E. rewrite E, named_sources_fill by by apply module_fields_plain.
  vm_compute. reflexivity.
Qed.

(** The places of the sources below the directory of the module. *)
Definition source_places (name : string) : list location :=
  [["model"; name +:+ ".cc"]; ["helper"; name +:+ "-helper.cc"]; ["test"; name +:+ "-test-suite.cc"];
   ["model"; name +:+ ".h"]; ["helper"; name +:+ "-helper.h"]; ["examples"; name +:+ "-example.cc"]].

Lemma not_wscript name s :
  contains_char "." s = true → name +:+ s ≠ "wscript".
Proof.
  intros Hs E. apply (f_equal (contains_char ".")) in E. rewrite contains_char_app, Hs, orb_true_r in E. done.
Qed.

Lemma entry_kinds name :
  Forall (λ x, x.2 = Dir ∨ last x.1 = Some "wscript" ∨ x.1 ∈ source_places name) (module_entries name).
Proof.
  unfold module_entries.
  repeat first [apply Forall_nil; exact I|apply Forall_cons; split];
    first [left; reflexivity|right; left; reflexivity|right; right; cbn [fst]; unfold source_places; set_solver].
Qed.

Lemma source_entries name :
  Forall (λ q, ∃ s, (q, File s) ∈ module_entries name) (source_places name).
Proof.
  unfold source_places.
  repeat first [apply Forall_nil; exact I|apply Forall_cons; split]; eexists.
  - by apply (list_elem_of_lookup_2 _ 3).
  - by apply (list_elem_of_lookup_2 _ 8).
  - by apply (list_elem_of_lookup_2 _ 6).
  - by apply (list_elem_of_lookup_2 _ 4).
  - by apply (list_elem_of_lookup_2 _ 9).
  - by apply (list_elem_of_lookup_2 _ 12).
Qed.

Lemma source_not_wscript name q : q ∈ source_places name → last q ≠ Some "wscript".
Proof.
  intros Hq. enough (H : ∃ d s, q = [d; name +:+ s] ∧ contains_char "." s = true).
  { destruct H as (d & s & -> & Hs). cbn. intros [= E]. by apply (not_wscript name s Hs). }
  unfold source_places in Hq. rewrite !elem_of_cons in Hq.
  destruct_or! Hq; try (by apply elem_of_nil in Hq); subst q; by eexists _, _.
Qed.

Lemma source_files base name t t' q :
  module_added base name t t' →
  (∃ s, t' !! (base ++ name :: q) = Some (File s)) ∧ last q ≠ Some "wscript" ↔ q ∈ source_places name.
Proof.
  intros (Hin & Hout & _). split.
  - intros [[s Hs] Hlast]. destruct (decide (q ∈ (module_entries name).*1)) as [Hq|Hq];
      [|by rewrite Hout in Hs].
    apply list_elem_of_fmap in Hq as ([q' e] & Hq & He). cbn [fst] in Hq. subst q'.
    rewrite (Hin _ _ He) in Hs. injection Hs as ->.
    pose proof (entry_kinds name) as Hk. rewrite Forall_forall in Hk. by destruct (Hk _ He) as [?|[?|?]].
  - intros Hq. split; [|by eapply source_not_wscript].
    pose proof (source_entries name) as Hk. rewrite Forall_forall in Hk.
    destruct (Hk _ Hq) as [s Hs]. exists s. by apply Hin.
Qed.


(** ** Names that the script takes and others do not *)

(** A quote in the name ends the strings of the lists of sources early. *)
Lemma quoted_name_breaks_sources :
  let text := filled WSCRIPT_TEMPLATE (module_fields "it's") in
  parse_args ["it's"] = Ok ["it's"] ∧ entry_name "it's" ∧
  contains "        'model/it's.cc'," text = true ∧ named_sources text = [].
Proof. split_and!; [done|by apply (bool_decide_unpack _)|vm_compute; done..]. Qed.

(** An identifier of C++. *)
Definition identifier_char (c : ascii) : bool :=
  is_lower c || is_upper c || bool_decide (c = "_"%char) ||
  (let n := N_of_ascii c in (48 <=? n) && (n <=? 57))%N.

(** The manual creates [new-module] and says that the skeletons compile; the
    classes of its test suite have a dash in their name. *)
Lemma dashed_name_breaks_test :
  parse_args ["new-module"] = Ok ["new-module"] ∧
  contains "class New-moduleTestSuite : public TestSuite"
    (filled TEST_CC_TEMPLATE (test_fields "new-module")) = true ∧
  all_chars identifier_char "New-moduleTestSuite" = false.
Proof. vm_compute. done. Qed.

(** The class names of a module are identifiers only if its name is made of
    letters, digits and underscores. *)
Lemma test_class_identifier name :
  all_chars identifier_char (capitalize name +:+ "TestSuite") = true →
  all_chars identifier_char name = true.
Proof.
  assert (Happ : ∀ a b, all_chars identifier_char (a +:+ b) = true → all_chars identifier_char a = true).
  { intros a b. induction a as [|c a IH]; [done|]. rewrite str_app_cons. cbn [all_chars].
    intros [-> H]%andb_true_iff. by apply IH. }
  assert (Hup : ∀ c, identifier_char (upper_char c) = identifier_char c) by by intros [[] [] [] [] [] [] [] []].
  assert (Hlow : ∀ c, identifier_char (lower_char c) = identifier_char c) by by intros [[] [] [] [] [] [] [] []].
  intros H%Happ. destruct name as [|c name]; [done|]. cbn [capitalize all_chars] in *.
  rewrite Hup in H. apply andb_true_iff in H as [-> H]. cbn [andb].
  induction name as [|d name IH]; [done|]. cbn [map_chars all_chars] in *. rewrite Hlow in H.
  apply andb_true_iff in H as [-> H]. by apply IH.
Qed.

(** ** A source tree *)
Definition sample_tree : tree := {[
  [] := Dir; ["ns3"] := Dir; ["ns3"; "src"] := Dir;
  ["ns3"; "src"; "create-module.py"] := File "";
  ["ns3"; "src"; "core"] := Dir; ["ns3"; "src"; "core"; "wscript"] := File "";
  ["ns3"; "src"; "wifi"] := Dir; ["ns3"; "src"; "wifi"; "wscript"] := File "";
  ["ns3"; "src"; "CVS"] := Dir; ["ns3"; "src"; "CVS"; "wscript"] := File "";
  ["ns3"; "src"; "old"] := Dir ]}.

Lemma sample_wf : wf sample_tree.
Proof. apply well_formed_wf. vm_compute. done. Qed.

Definition src_dir : location := ["ns3"; "src"].

Lemma sample_script_dir : dir_path sample_tree src_dir "." src_dir.
Proof. split; [left|]; reflexivity. Qed.

Lemma sample_src : dir_path sample_tree ["ns3"] "src" src_dir.
Proof. split; [left|]; reflexivity. Qed.

(** A directory of CVS is taken for a module when it has a script. *)
Lemma cvs_is_module :
  all_modules sample_tree ["ns3"] (listdir sample_tree src_dir) = ["CVS"; "core"; "wifi"].
Proof. vm_compute. reflexivity. Qed.

Example second_run_refused :
  main willing src_dir "." ["wifi"] sample_tree = (Ok 2%Z, sample_tree).
Proof. rewrite (main_spec _ _ _ _ src_dir) by auto using sample_wf, sample_script_dir. reflexivity. Qed.

Definition with_mesh : tree := (main willing src_dir "." ["mesh"] sample_tree).2.

Lemma mesh_created : main willing src_dir "." ["mesh"] sample_tree = (Ok 0%Z, with_mesh).
Proof. unfold with_mesh. rewrite (main_spec _ _ _ _ src_dir) by auto using sample_wf, sample_script_dir. reflexivity. Qed.

Lemma mesh_added : module_added src_dir "mesh" sample_tree with_mesh.
Proof.
  destruct (main_zero _ _ _ _ src_dir _ _ sample_wf sample_script_dir mesh_created)
    as (name & [= <-] & _ & Hnew & _ & ->).
  by apply add_module; [apply sample_wf|].
Qed.

(** A file system where a name has at most 255 characters. *)
Definition short_names : system :=
  System (λ _ _, false) (λ _ l, bool_decide (255 < String.length (List.last l "")))
    (λ _ l, bool_decide (255 < String.length (List.last l ""))) (λ _ _ _, None).

Fixpoint repeat_char (n : nat) (c : ascii) : string :=
  match n with O => "" | S n => String c (repeat_char n c) end.

(** A name of 245 characters is taken; with the suffix of the test suite it is
    too long.  The module is left without its last eight entries. *)
Definition long_name : string := repeat_char 245 "a".

Lemma long_name_ready : ready src_dir [long_name] long_name sample_tree.
Proof. split_and!; [vm_compute; reflexivity|by apply (bool_decide_unpack _); vm_compute|reflexivity]. Qed.

Definition after_long_name : tree := (main short_names src_dir "." [long_name] sample_tree).2.

Lemma create_module_atomic_witness :
  (main willing src_dir "." ["mesh"] sample_tree = (Ok 0%Z, with_mesh) ∧
   wf with_mesh ∧ module_added src_dir "mesh" sample_tree with_mesh) ∧
  interrupted src_dir long_name sample_tree after_long_name ∧
  after_long_name !! (src_dir ++ [long_name; "test"]) = Some Dir ∧
  after_long_name !! (src_dir ++ [long_name; "helper"]) = None.
Proof.
  split; [split; [exact mesh_created|]|split].
  - pose proof (create_module_atomic willing sample_tree src_dir src_dir "." ["mesh"]
                  sample_wf sample_script_dir) as H.
    rewrite mesh_created in H. destruct H as (Hwf & _ & Hadd & _). split; [exact Hwf|].
    apply Hadd; [|by rewrite granted_willing].
    split_and!; [reflexivity|by apply (bool_decide_unpack _); vm_compute|reflexivity].
  - pose proof (create_module_atomic short_names sample_tree src_dir src_dir "." [long_name]
                  sample_wf sample_script_dir) as H.
    unfold after_long_name. destruct (main _ _ _ _ _) as [r t'].
    destruct H as (_ & _ & _ & Hint & _). apply Hint; [exact long_name_ready|].
    vm_compute. reflexivity.
  - split; vm_compute; reflexivity.
Defined.

Lemma created_module_found_witness :
  all_modules with_mesh ["ns3"] (listdir with_mesh src_dir) = ["CVS"; "core"; "mesh"; "wifi"].
Proof.
  rewrite (created_module_found willing sample_tree with_mesh src_dir ["ns3"] src_dir "." "mesh"
             (listdir sample_tree src_dir) _ sample_wf sample_script_dir sample_src mesh_created
             (listdir_listing _ _) (listdir_listing _ _)).
  vm_compute. reflexivity.
Defined.

