(* ===== verification/FlowMon.v ===== *)
(** * [src/flow-monitor/examples/flowmon-parse-results.py]: flow statistics

    The script reads the results of the flow monitor, an element tree that
    [ElementTree] parses, into objects for simulations and flows, and prints
    the rates of every flow.  The flows of a simulation are shared between a
    list and a dictionary, so a position in the list names a flow.  The
    conversion of a text to a float is a parameter, and a float a rational.
    Reading the file piece by piece and the marks of progress are left out. *)

From S2P Require Import Prelude PyStr Rat Patch Report.
From Stdlib Require Import Ascii.

Local Open Scope string_scope.
Local Open Scope list_scope.

(** ** Numbers from text *)

(** [int(s)], and [long(s)], which takes a final [L]: blanks around, a sign,
    which blanks may follow, and decimal digits. *)
Definition text_int (is_long : bool) (s : string) : result exn Z :=
  let s := strip s in
  let '(sign, s) :=
    match s with
    | String c r =>
        if decide (c = "-"%char) then ((-1)%Z, lstrip r)
        else if decide (c = "+"%char) then (1%Z, lstrip r) else (1%Z, s)
    | "" => (1%Z, s)
    end in
  match match_int s with
  | Some (n, r) =>
      if bool_decide (r = "") || (is_long && bool_decide (r = "L" ∨ r = "l"))
      then Ok (sign * Z.of_N n)%Z else Raise (ValueError "invalid literal")
  | None => Raise (ValueError "invalid literal")
  end.

(** An attribute that is read: [None] is no argument for a conversion. *)
Definition attribute (e : element) (name : string) : result exn string :=
  of_option TypeError (get e name).

Definition int_attr (e : element) (name : string) : result exn Z :=
  s ← attribute e name; text_int false s.

Definition long_attr (e : element) (name : string) : result exn Z :=
  s ← attribute e name; text_int true s.

(** [long(el.get(name)[:-2])]. *)
Definition time_attr (e : element) (name : string) : result exn Z :=
  s ← attribute e name; text_int true (drop_last2 s).

(** [parse_time_ns]. *)
Definition parse_time_ns (tm : option string) : result exn Z :=
  tm ← of_option AttributeError tm;
  if endswith "ns" tm then text_int true (drop_last2 tm) else Raise (ValueError tm).

(** [a / b] with [division] imported. *)
Definition true_div (a b : Q) : result exn Q :=
  if is_zero b then Raise ZeroDivisionError else Ok (a / b)%Q.

(** ** The data *)
Record FiveTuple := MkFiveTuple {
  sourceAddress : option string;
  destinationAddress : option string;
  sourcePort : Z;
  destinationPort : Z;
  protocol : Z }.

Record ProbeFlowStats := MkProbeFlowStats {
  probeId : Z; packets : Z; bytes : Z; delayFromFirstProbe : Q }.

Abbreviation bin := (Q * Q * Z)%type.

(** [fiveTuple] is not assigned by the constructor; the probe statistics are
    added later. *)
Record Flow := MkFlow {
  flowId : Z;
  rx_duration : Q;
  hopCount : Q;
  delayMean : option Q;
  packetSizeMean : option Q;
  rxBitrate : option Q;
  txBitrate : option Q;
  packetLossRatio : option Q;
  flowInterruptionsHistogram : option (list bin);
  fiveTuple : option FiveTuple;
  probe_stats_unsorted : list ProbeFlowStats }.

Definition set_tuple (t : FiveTuple) (f : Flow) : Flow :=
  MkFlow (flowId f) (rx_duration f) (hopCount f) (delayMean f) (packetSizeMean f) (rxBitrate f)
    (txBitrate f) (packetLossRatio f) (flowInterruptionsHistogram f) (Some t)
    (probe_stats_unsorted f).

Definition add_stats (s : ProbeFlowStats) (f : Flow) : Flow :=
  MkFlow (flowId f) (rx_duration f) (hopCount f) (delayMean f) (packetSizeMean f) (rxBitrate f)
    (txBitrate f) (packetLossRatio f) (flowInterruptionsHistogram f) (fiveTuple f)
    (probe_stats_unsorted f ++ [s]).

Section parse.
Context (float_of : string → option Q).

Definition text_float (s : string) : result exn Q :=
  of_option (ValueError "could not convert string to float") (float_of s).

Definition float_attr (e : element) (name : string) : result exn Q :=
  s ← attribute e name; text_float s.

Definition read_five_tuple (el : element) : result exn FiveTuple :=
  sport ← int_attr el "sourcePort";
  dport ← int_attr el "destinationPort";
  proto ← int_attr el "protocol";
  Ok (MkFiveTuple (get el "sourceAddress") (get el "destinationAddress") sport dport proto).

Definition read_bin (el : element) : result exn bin :=
  start ← float_attr el "start";
  width ← float_attr el "width";
  count ← int_attr el "count";
  Ok (start, width, count).

Definition read_histogram (el : element) : result exn (list bin) :=
  fold_res (λ bins b, b ← read_bin b; Ok (bins ++ [b])) [] (findall el "bin").

(** [Flow.__init__]. *)
Definition read_flow (el : element) : result exn Flow :=
  id ← int_attr el "flowId";
  rxPackets ← long_attr el "rxPackets";
  _ ← long_attr el "txPackets";
  lastTx ← time_attr el "timeLastTxPacket";
  firstTx ← time_attr el "timeFirstTxPacket";
  let tx_duration := (inject_Z (lastTx - firstTx) * (1 # 1000000000))%Q in
  lastRx ← time_attr el "timeLastRxPacket";
  firstRx ← time_attr el "timeFirstRxPacket";
  let rx_duration := (inject_Z (lastRx - firstRx) * (1 # 1000000000))%Q in
  hops ← (if bool_decide (rxPackets ≠ 0%Z) then
            n ← float_attr el "timesForwarded";
            q ← true_div n (inject_Z rxPackets); Ok (q + 1)%Q
          else Ok (inject_Z (-1000)));
  means ← (if bool_decide (rxPackets ≠ 0%Z) then
             s ← attribute el "delaySum"; d ← text_float (drop_last2 s);
             d ← true_div d (inject_Z rxPackets);
             b ← float_attr el "rxBytes"; b ← true_div b (inject_Z rxPackets);
             Ok (Some (d * (1 # 1000000000))%Q, Some b)
           else Ok (None, None));
  rx ← (if qlt 0 rx_duration then
          b ← long_attr el "rxBytes"; r ← true_div (inject_Z (b * 8)) rx_duration; Ok (Some r)
        else Ok None);
  tx ← (if qlt 0 tx_duration then
          b ← long_attr el "txBytes"; r ← true_div (inject_Z (b * 8)) tx_duration; Ok (Some r)
        else Ok None);
  lost ← float_attr el "lostPackets";
  ratio ← (if bool_decide (rxPackets = 0%Z) then Ok None
           else r ← true_div lost (inject_Z rxPackets + lost)%Q; Ok (Some r));
  hist ← match find el "flowInterruptionsHistogram" with
         | None => Ok None
         | Some h => h ← read_histogram h; Ok (Some h)
         end;
  Ok (MkFlow id rx_duration hops means.1 means.2 rx tx ratio hist None []).

(** ** [Simulation.__init__]

    [flow_map] maps an identifier to the position of the last flow that has
    it. *)
Record Simulation := MkSimulation { flows : list Flow; flow_map : gmap Z nat }.

Definition add_flow (s : Simulation) (flow_el : element) : result exn Simulation :=
  flow ← read_flow flow_el;
  Ok (MkSimulation (flows s ++ [flow]) (<[flowId flow := length (flows s)]> (flow_map s))).

(** An update of [flow_map[flowId]]. *)
Definition on_flow (s : Simulation) (id : Z) (f : Flow → Flow) : result exn Simulation :=
  i ← dict_get KeyError (flow_map s) id;
  Ok (MkSimulation (alter f i (flows s)) (flow_map s)).

Definition classify_flow (s : Simulation) (flow_cls : element) : result exn Simulation :=
  id ← int_attr flow_cls "flowId";
  t ← read_five_tuple flow_cls;
  on_flow s id (set_tuple t).

Definition read_stats (probe : Z) (stats : element) : result exn (Z * ProbeFlowStats) :=
  id ← int_attr stats "flowId";
  n ← int_attr stats "packets";
  b ← long_attr stats "bytes";
  delay ← (if bool_decide (0 < n)%Z then
             d ← parse_time_ns (get stats "delayFromFirstProbeSum");
             true_div (inject_Z d) (inject_Z n)
           else Ok 0%Q);
  Ok (id, MkProbeFlowStats probe n b delay).

Definition add_probe_stats (probe : Z) (s : Simulation) (stats : element) :
    result exn Simulation :=
  '(id, st) ← read_stats probe stats;
  on_flow s id (add_stats st).

Definition add_probe (s : Simulation) (probe_elem : element) : result exn Simulation :=
  probe ← int_attr probe_elem "index";
  fold_res (add_probe_stats probe) s (findall probe_elem "FlowStats").

(** [e.findall('a/b')]. *)
Definition findall_path (e : element) (a b : string) : list element :=
  findall e a ≫= λ c, findall c b.

Definition read_simulation (simulation_el : element) : result exn Simulation :=
  classifier ← match findall simulation_el "Ipv4FlowClassifier" with
               | [c] => Ok c
               | _ => Raise (ValueError "unpack")
               end;
  s ← fold_res add_flow (MkSimulation [] ∅) (findall_path simulation_el "FlowStats" "Flow");
  s ← fold_res classify_flow s (findall classifier "Flow");
  fold_res add_probe s (findall_path simulation_el "FlowProbes" "FlowProbe").
End parse.

(** ** The report of [main]

    A line is the values it prints. *)
Inductive line :=
  | FlowLine (id : Z) (proto : string) (source : option string) (sport : Z)
      (destination : option string) (dport : Z)
  | TxLine (kbit : Q)
  | RxLine (kbit : Q)
  | DelayLine (ms : Q)
  | LossLine (percent : Q).

(** The name of a protocol; the dictionary has no other. *)
Definition proto_name (p : Z) : result exn string :=
  if decide (p = 6%Z) then Ok "TCP" else if decide (p = 17%Z) then Ok "UDP" else Raise KeyError.

(** The prints of one flow, in their order; [None] times a number is a
    [TypeError]. *)
Definition flow_prints (f : Flow) : list (result exn line) :=
  [ (t ← of_option AttributeError (fiveTuple f);
     proto ← proto_name (protocol t);
     Ok (FlowLine (flowId f) proto (sourceAddress t) (sourcePort t) (destinationAddress t)
           (destinationPort t)));
    (r ← of_option TypeError (txBitrate f); Ok (TxLine (r * (1 # 1000))%Q));
    (r ← of_option TypeError (rxBitrate f); Ok (RxLine (r * (1 # 1000))%Q));
    (d ← of_option TypeError (delayMean f); Ok (DelayLine (d * 1000)%Q));
    (p ← of_option TypeError (packetLossRatio f); Ok (LossLine (p * 100)%Q)) ].

(** Print until one fails. *)
Fixpoint print_all (l : list (result exn line)) : list line * result exn unit :=
  match l with
  | [] => ([], Ok tt)
  | Ok x :: l => let '(out, r) := print_all l in (x :: out, r)
  | Raise e :: _ => ([], Raise e)
  end.

Definition report (sims : list Simulation) : list line * result exn unit :=
  print_all (sims ≫= λ sim, flows sim ≫= flow_prints).

(** ** The measures of a flow *)
Section metrics.
Context (float_of : string → option Q).

Lemma true_div_Ok a b q : true_div a b = Ok q → ¬ b == 0 ∧ q = (a / b)%Q.
Proof.
  unfold true_div. destruct (is_zero b) eqn:E; [done|]. intros [= <-]. split; [|done].
  intros Hb. apply is_zero_spec in Hb. congruence.
Qed.

(** a flow of which nothing was received has no mean delay, no mean size,
    no loss ratio and -1000 hops; of one that received packets the loss ratio
    is a proportion below 1, which is 0 just when nothing was lost, and the
    hops are at least 1.  It has a bit rate at the receiver exactly when the
    interval between the first and the last packet received is positive. *)
Theorem flow_metrics el f rx lost :
  read_flow float_of el = Ok f →
  long_attr el "rxPackets" = Ok rx → float_attr float_of el "lostPackets" = Ok lost →
  (rx = 0%Z → hopCount f = inject_Z (-1000) ∧ delayMean f = None ∧ packetSizeMean f = None ∧
     packetLossRatio f = None) ∧
  ((0 < rx)%Z → is_Some (delayMean f) ∧ is_Some (packetSizeMean f) ∧
     ((0 <= lost)%Q → ∃ p, packetLossRatio f = Some p ∧ (0 <= p < 1)%Q ∧ (p == 0 ↔ lost == 0)%Q) ∧
     (∀ n, float_attr float_of el "timesForwarded" = Ok n → (0 <= n)%Q → (1 <= hopCount f)%Q)) ∧
  (is_Some (rxBitrate f) ↔ (0 < rx_duration f)%Q) ∧
  fiveTuple f = None ∧ probe_stats_unsorted f = [].
Proof.
  unfold read_flow. intros Hf Hrx Hlost.
  apply bind_Ok_inv in Hf as (id & _ & Hf). rewrite Hrx in Hf. cbn [mbind result_bind] in Hf.
  apply bind_Ok_inv in Hf as (tx & _ & Hf). apply bind_Ok_inv in Hf as (lastTx & _ & Hf).
  apply bind_Ok_inv in Hf as (firstTx & _ & Hf). apply bind_Ok_inv in Hf as (lastRx & _ & Hf).
  apply bind_Ok_inv in Hf as (firstRx & _ & Hf). apply bind_Ok_inv in Hf as (hops & Hhops & Hf).
  apply bind_Ok_inv in Hf as (means & Hmeans & Hf). apply bind_Ok_inv in Hf as (rxb & Hrxb & Hf).
  apply bind_Ok_inv in Hf as (txb & _ & Hf). rewrite Hlost in Hf. cbn [mbind result_bind] in Hf.
  apply bind_Ok_inv in Hf as (ratio & Hratio & Hf). apply bind_Ok_inv in Hf as (hist & _ & [= <-]).
  cbn [hopCount delayMean packetSizeMean packetLossRatio rxBitrate rx_duration fiveTuple
       probe_stats_unsorted]. split_and!; [| | |done|done].
  - intros ->. cbn in Hhops, Hmeans, Hratio.
    injection Hhops as <-. injection Hmeans as <-. by injection Hratio as <-.
  - intros Hpos. rewrite bool_decide_eq_true_2 in Hhops by lia.
    rewrite bool_decide_eq_true_2 in Hmeans by lia.
    rewrite bool_decide_eq_false_2 in Hratio by lia.
    assert (0 < inject_Z rx)%Q as Hq by (change 0%Q with (inject_Z 0); by rewrite <- Zlt_Qlt).
    apply bind_Ok_inv in Hmeans as (d1 & _ & Hmeans). apply bind_Ok_inv in Hmeans as (d2 & _ & Hmeans).
    apply bind_Ok_inv in Hmeans as (d3 & _ & Hmeans). apply bind_Ok_inv in Hmeans as (b1 & _ & Hmeans).
    apply bind_Ok_inv in Hmeans as (b2 & _ & [= <-]).
    apply bind_Ok_inv in Hratio as (p & [Hp ->]%true_div_Ok & [= <-]).
    split_and!; [by eexists..| |].
    + intros Hl. eexists. split; [done|]. split_and!.
      * apply Qle_shift_div_l; lra.
      * apply Qlt_shift_div_r; lra.
      * split; intros H0; [|rewrite H0; unfold Qdiv; lra].
        rewrite <- (Qmult_div_r lost (inject_Z rx + lost)%Q) by done. rewrite H0. lra.
    + intros n Hn Hn0. rewrite Hn in Hhops. cbn [mbind result_bind] in Hhops.
      apply bind_Ok_inv in Hhops as (q & [_ ->]%true_div_Ok & [= <-]).
      assert (0 <= n / inject_Z rx)%Q by (apply Qle_shift_div_l; lra). lra.
  - pose proof (qlt_spec 0 (inject_Z (lastRx - firstRx) * (1 # 1000000000))%Q) as Hlt.
    destruct (qlt 0 _).
    + apply bind_Ok_inv in Hrxb as (b & _ & Hrxb). apply bind_Ok_inv in Hrxb as (r & _ & [= <-]).
      split; [done|by eexists].
    + injection Hrxb as <-. split; [by intros []|lra].
Qed.
End metrics.

(** ** The report *)

(** Everything that is printed of the flow exists. *)
Definition printable (f : Flow) : Prop :=
  (∃ t, fiveTuple f = Some t ∧ protocol t ∈ [6; 17]%Z) ∧
  is_Some (txBitrate f) ∧ is_Some (rxBitrate f) ∧ is_Some (delayMean f) ∧
  is_Some (packetLossRatio f).

Lemma print_all_app l1 l2 :
  print_all (l1 ++ l2) =
  let '(out, r) := print_all l1 in
  match r with
  | Ok _ => let '(out2, r2) := print_all l2 in (out ++ out2, r2)
  | Raise e => (out, Raise e)
  end.
Proof.
  induction l1 as [|[x|e] l1 IH]; cbn [app print_all]; [by destruct (print_all l2)| |done].
  rewrite IH. destruct (print_all l1) as [out []]; [|done]. by destruct (print_all l2).
Qed.

Lemma print_all_flow f :
  is_ok (print_all (flow_prints f)).2 = true ↔ printable f.
Proof.
  unfold printable, flow_prints, proto_name.
  destruct (fiveTuple f) as [t|]; cbn [of_option mbind result_bind print_all].
  2: { split; [done|]. intros [(t & ? & _) _]. done. }
  destruct (decide (protocol t = 6%Z)) as [Hp|Hp];
    [|destruct (decide (protocol t = 17%Z)) as [Hp'|Hp']];
    cbn [mbind result_bind print_all].
  3: { split; [done|]. intros [(t' & [= <-] & Hin) _]. set_solver. }
  all: assert (∃ t0, Some t = Some t0 ∧ protocol t0 ∈ [6; 17]%Z) as Ht by (exists t; set_solver).
  all: destruct (txBitrate f); [|by split; [|intros (_ & [? ?] & _)]]; cbn.
  all: destruct (rxBitrate f); [|by split; [|intros (_ & _ & [? ?] & _)]]; cbn.
  all: destruct (delayMean f); [|by split; [|intros (_ & _ & _ & [? ?] & _)]]; cbn.
  all: destruct (packetLossRatio f); [|by split; [|intros (_ & _ & _ & _ & [? ?])]]; cbn.
  all: split; [|done]; intros _; split_and!; [done|by eexists..].
Qed.

Lemma print_all_length l :
  let '(ls, r) := print_all l in
  match r with Ok _ => length ls = length l | Raise _ => (length ls < length l)%nat end.
Proof.
  induction l as [|[x|e] l IH]; cbn [print_all length]; [done| |lia].
  destruct (print_all l) as [ls [[]|e]]; cbn [length]; lia.
Qed.

Lemma bind_flows {A B C} (g : A → list B) (h : B → list C) (l : list A) :
  (l ≫= λ x, g x ≫= h) = (l ≫= g) ≫= h.
Proof. induction l as [|x l IH]; [done|]. by rewrite !bind_cons, bind_app, IH. Qed.

(** The prints of one flow, in either case. *)
Lemma print_flow f :
  (printable f ∧ ∃ ls, print_all (flow_prints f) = (ls, Ok tt) ∧ length ls = 5%nat) ∨
  (¬ printable f ∧ ∃ ls e, print_all (flow_prints f) = (ls, Raise e) ∧ (length ls < 5)%nat).
Proof.
  pose proof (print_all_flow f) as Hp. pose proof (print_all_length (flow_prints f)) as Hl.
  destruct (print_all (flow_prints f)) as [ls [[]|e]]; cbn [snd is_ok] in Hp; [left|right].
  - split; [by apply Hp|by exists ls].
  - split; [by rewrite <- Hp|by exists ls, e].
Qed.

Lemma print_flows_ok fs :
  Forall printable fs →
  ∃ ls, print_all (fs ≫= flow_prints) = (ls, Ok tt) ∧ length ls = (5 * length fs)%nat.
Proof.
  induction 1 as [|f fs Hf _ (ls & Hls & Hlen)]; [by exists []|].
  destruct (print_flow f) as [(_ & ls1 & H1 & Hl1)|[? _]]; [|done]. exists (ls1 ++ ls).
  rewrite bind_cons, print_all_app, H1, Hls, length_app. split; [done|]. cbn [length]. lia.
Qed.

Lemma print_flows_stop fs f rest :
  Forall printable fs → ¬ printable f →
  ∃ ls e, print_all ((fs ++ f :: rest) ≫= flow_prints) = (ls, Raise e) ∧
    (5 * length fs ≤ length ls < 5 * length fs + 5)%nat.
Proof.
  intros Hfs Hf. destruct (print_flows_ok fs Hfs) as (ls & Hls & Hlen).
  destruct (print_flow f) as [[? _]|(_ & ls1 & e & H1 & Hl1)]; [done|].
  exists (ls ++ ls1), e. rewrite bind_app, bind_cons, !print_all_app, Hls, H1.
  split; [done|]. rewrite length_app. lia.
Qed.

Lemma first_unprintable fs :
  Forall printable fs ∨ ∃ l f rest, fs = l ++ f :: rest ∧ Forall printable l ∧ ¬ printable f.
Proof.
  induction fs as [|f fs [IH|(l & g & rest & -> & Hl & Hg)]]; [by left|..];
    (destruct (print_flow f) as [[Hf _]|[Hf _]]; [|right; by eexists [], f, _]).
  - left. by constructor.
  - right. exists (f :: l), g, rest. split_and!; [done|by constructor|done].
Qed.

(** the report prints five lines for each flow, in the order of the
    simulations and of their flows, and ends without an exception exactly
    when every flow has a known protocol, both bit rates, a delay and a loss
    ratio; otherwise it stops inside the first flow that lacks one, and the
    flows behind it are never reported. *)
Theorem report_complete sims :
  (is_ok (report sims).2 = true ↔ Forall printable (sims ≫= flows)) ∧
  (Forall printable (sims ≫= flows) →
     length (report sims).1 = (5 * length (sims ≫= flows))%nat) ∧
  ∀ l f rest, sims ≫= flows = l ++ f :: rest → Forall printable l → ¬ printable f →
    ∃ e, (report sims).2 = Raise e ∧
      (5 * length l ≤ length (report sims).1 < 5 * length l + 5)%nat.
Proof.
  unfold report. rewrite bind_flows. generalize (sims ≫= flows) as fs. clear sims.
  intros fs. split_and!.
  - destruct (first_unprintable fs) as [Hfs|(l & f & rest & -> & Hl & Hf)].
    + by destruct (print_flows_ok fs Hfs) as (ls & -> & _).
    + destruct (print_flows_stop l f rest Hl Hf) as (ls & e & -> & _). split; [done|].
      intros [_ [? _]%Forall_cons]%Forall_app. done.
  - intros Hfs. by destruct (print_flows_ok fs Hfs) as (ls & -> & Hlen).
  - intros l f rest -> Hl Hf. destruct (print_flows_stop l f rest Hl Hf) as (ls & e & -> & Hlen).
    by exists e.
Qed.

(** ** The flows of a simulation *)

(** The position of a flow is the last one of its identifier. *)
Definition last_of (fs : list Flow) (i : nat) (f : Flow) : Prop :=
  fs !! i = Some f ∧ ∀ j f', fs !! j = Some f' → flowId f' = flowId f → (j ≤ i)%nat.

Definition map_ok (fs : list Flow) (m : gmap Z nat) : Prop :=
  ∀ id i, m !! id = Some i ↔ ∃ f, last_of fs i f ∧ flowId f = id.

Section simulation.
Context (float_of : string → option Q).

Lemma map_ok_snoc fs m f :
  map_ok fs m → map_ok (fs ++ [f]) (<[flowId f := length fs]> m).
Proof.
  intros Hm id i. destruct (decide (flowId f = id)) as [<-|Hne].
  - rewrite lookup_insert_eq. split.
    + intros [= <-]. exists f. split; [|done]. split; [by apply list_lookup_middle|].
      intros j f' Hj _. apply lookup_lt_Some in Hj. rewrite length_app in Hj. cbn in Hj. lia.
    + intros (f' & [Hi Hl] & Hid). f_equal.
      pose proof (Hl (length fs) f (list_lookup_middle fs [] f _ eq_refl)) as Hle.
      apply lookup_lt_Some in Hi. rewrite length_app in Hi. cbn in Hi.
      assert (length fs ≤ i)%nat by by apply Hle. lia.
  - rewrite lookup_insert_ne by done. rewrite (Hm id i). split; intros (f' & [Hi Hl] & Hid); exists f'.
    + split; [|done]. split; [by apply lookup_app_l_Some|].
      intros j g [Hj|[_ <-]]%lookup_snoc_Some Hg; [by eapply Hl; [apply Hj|]|congruence].
    + split; [|done]. apply lookup_snoc_Some in Hi as [[_ Hi]|[_ <-]]; [|congruence].
      split; [done|]. intros j g Hj. by apply Hl, lookup_app_l_Some.
Qed.

Lemma add_flows els s s' :
  fold_res (add_flow float_of) s els = Ok s' → map_ok (flows s) (flow_map s) →
  map_ok (flows s') (flow_map s') ∧
  ∃ fs, flows s' = flows s ++ fs ∧ Forall2 (λ e f, read_flow float_of e = Ok f) els fs.
Proof.
  revert s. induction els as [|e els IH]; intros s Hs Hm; cbn [fold_res] in Hs.
  { injection Hs as <-. split; [done|]. exists []. by rewrite app_nil_r. }
  apply bind_Ok_inv in Hs as (s1 & H1 & Hs). apply bind_Ok_inv in H1 as (f & Hf & [= <-]).
  destruct (IH _ Hs) as (Hm' & fs & Hfs & H2); [by apply map_ok_snoc|].
  split; [done|]. exists (f :: fs). cbn [flows] in Hfs. rewrite Hfs, <- app_assoc.
  split; [done|by constructor].
Qed.

(** A run of updates, each on the flow that the map names. *)
Definition run_updates (s : Simulation) (us : list (Z * (Flow → Flow))) : result exn Simulation :=
  fold_res (λ s u, on_flow s u.1 u.2) s us.

Lemma run_updates_spec us s s' :
  run_updates s us = Ok s' →
  flow_map s' = flow_map s ∧ Forall (λ u, is_Some (flow_map s !! u.1)) us ∧
  ∀ i, flows s' !! i =
    (λ f, foldl (λ f u, u.2 f) f (filter (λ u, flow_map s !! u.1 = Some i) us)) <$> flows s !! i.
Proof.
  revert s. unfold run_updates. induction us as [|[id g] us IH]; intros s Hs; cbn [fold_res] in Hs.
  { injection Hs as <-. split_and!; [done..|]. intros i. cbn. by destruct (flows s !! i). }
  apply bind_Ok_inv in Hs as (s1 & H1 & Hs). unfold on_flow, dict_get in H1. cbn [fst snd] in H1.
  destruct (flow_map s !! id) as [k|] eqn:Hk; [|done]. injection H1 as <-.
  destruct (IH _ Hs) as (Hm & Hall & Hf). cbn [flow_map flows] in *.
  split_and!; [done|constructor; [by eexists|done]|]. intros i. rewrite Hf, filter_cons.
  cbn [fst]. destruct (decide (k = i)) as [->|Hne].
  - rewrite (decide_True (P := flow_map s !! id = Some i)) by done.
    rewrite list_lookup_alter_eq. by destruct (flows s !! i).
  - rewrite (decide_False (P := flow_map s !! id = Some i)) by (rewrite Hk; congruence).
    by rewrite list_lookup_alter_ne.
Qed.

Definition read_entry (el : element) : result exn (Z * FiveTuple) :=
  id ← int_attr el "flowId"; t ← read_five_tuple el; Ok (id, t).

Lemma classify_updates els s s' :
  fold_res classify_flow s els = Ok s' →
  ∃ cs, Forall2 (λ e c, read_entry e = Ok c) els cs ∧
    run_updates s ((λ c, (c.1, set_tuple c.2)) <$> cs) = Ok s'.
Proof.
  revert s. induction els as [|e els IH]; intros s Hs; cbn [fold_res] in Hs.
  { exists []. split; [constructor|done]. }
  apply bind_Ok_inv in Hs as (s1 & H1 & Hs). destruct (IH _ Hs) as (cs & H2 & Hrun).
  apply bind_Ok_inv in H1 as (id & Hid & H1). apply bind_Ok_inv in H1 as (t & Ht & H1).
  exists ((id, t) :: cs). split.
  - constructor; [|done]. unfold read_entry. by rewrite Hid; cbn; rewrite Ht.
  - unfold run_updates in *. cbn [fmap list_fmap fold_res fst snd]. by rewrite H1.
Qed.

Lemma stats_updates probe els s s' :
  fold_res (add_probe_stats probe) s els = Ok s' →
  ∃ ps, Forall2 (λ e p, read_stats probe e = Ok p) els ps ∧
    run_updates s ((λ p, (p.1, add_stats p.2)) <$> ps) = Ok s'.
Proof.
  revert s. induction els as [|e els IH]; intros s Hs; cbn [fold_res] in Hs.
  { exists []. split; [constructor|done]. }
  apply bind_Ok_inv in Hs as (s1 & H1 & Hs). destruct (IH _ Hs) as (ps & H2 & Hrun).
  apply bind_Ok_inv in H1 as ([id st] & Hst & H1).
  exists ((id, st) :: ps). split; [by constructor|].
  unfold run_updates in *. cbn [fmap list_fmap fold_res fst snd]. by rewrite H1.
Qed.

(** The statistics of a probe. *)
Definition probe_entries (e : element) (ps : list (Z * ProbeFlowStats)) : Prop :=
  ∃ n, int_attr e "index" = Ok n ∧ Forall2 (λ e p, read_stats n e = Ok p) (findall e "FlowStats") ps.

Lemma probes_updates els s s' :
  fold_res add_probe s els = Ok s' →
  ∃ pss, Forall2 probe_entries els pss ∧
    run_updates s ((λ p, (p.1, add_stats p.2)) <$> mjoin pss) = Ok s'.
Proof.
  revert s. induction els as [|e els IH]; intros s Hs; cbn [fold_res] in Hs.
  { exists []. split; [constructor|done]. }
  apply bind_Ok_inv in Hs as (s1 & H1 & Hs). destruct (IH _ Hs) as (pss & H2 & Hrun).
  apply bind_Ok_inv in H1 as (n & Hn & H1). destruct (stats_updates _ _ _ _ H1) as (ps & Hps & Hrun1).
  exists (ps :: pss). split; [constructor; [by exists n|done]|].
  unfold run_updates in *. cbn [mjoin list_join]. rewrite fmap_app, fold_res_app, Hrun1. done.
Qed.

(** The flow with what the classifier and the probes say of its identifier. *)
Definition completed (cs : list (Z * FiveTuple)) (ps : list (Z * ProbeFlowStats)) (f : Flow) : Flow :=
  MkFlow (flowId f) (rx_duration f) (hopCount f) (delayMean f) (packetSizeMean f) (rxBitrate f)
    (txBitrate f) (packetLossRatio f) (flowInterruptionsHistogram f)
    (last (filter (λ c, c.1 = flowId f) cs).*2) (filter (λ p, p.1 = flowId f) ps).*2.

Lemma set_tuples (cs : list (Z * FiveTuple)) f :
  foldl (λ f u, u.2 f) f ((λ c, (c.1, set_tuple c.2)) <$> cs) =
  match last cs.*2 with Some t => set_tuple t f | None => f end.
Proof.
  induction cs as [|c cs IH] using rev_ind; [done|].
  rewrite !fmap_app, foldl_app, IH. cbn. rewrite last_snoc. by destruct (last cs.*2).
Qed.

Lemma add_all_stats (ps : list (Z * ProbeFlowStats)) f :
  foldl (λ f u, u.2 f) f ((λ p, (p.1, add_stats p.2)) <$> ps) =
  MkFlow (flowId f) (rx_duration f) (hopCount f) (delayMean f) (packetSizeMean f) (rxBitrate f)
    (txBitrate f) (packetLossRatio f) (flowInterruptionsHistogram f) (fiveTuple f)
    (probe_stats_unsorted f ++ ps.*2).
Proof.
  revert f. induction ps as [|p ps IH]; intros f; cbn; [by rewrite app_nil_r; destruct f|].
  rewrite IH. cbn. by rewrite <- app_assoc.
Qed.

Lemma filter_updates {A} (g : Z * A → Z * (Flow → Flow)) (m : gmap Z nat) i (l : list (Z * A)) :
  (∀ x, (g x).1 = x.1) →
  filter (λ u, m !! u.1 = Some i) (g <$> l) = g <$> filter (λ x, m !! x.1 = Some i) l.
Proof.
  intros Hg. induction l as [|x l IH]; [done|]. rewrite fmap_cons, !filter_cons, Hg, IH.
  by case_decide.
Qed.

(** Updates of one kind on a flow: those of its identifier, if it is the last
    with it, otherwise none. *)
Lemma updates_of {A} (g : Z * A → Z * (Flow → Flow)) fs m i f l :
  map_ok fs m → fs !! i = Some f → (∀ x, (g x).1 = x.1) →
  (last_of fs i f →
     filter (λ u, m !! u.1 = Some i) (g <$> l) = g <$> filter (λ x, x.1 = flowId f) l) ∧
  (¬ last_of fs i f → filter (λ u, m !! u.1 = Some i) (g <$> l) = []).
Proof.
  intros Hm Hi Hg.
  rewrite filter_updates by done. split; intros Hlast.
  - f_equal. apply list_filter_iff. intros x. rewrite (Hm x.1 i). split.
    + intros (f' & [Hi' _] & Hid). congruence.
    + intros ->. by exists f.
  - rewrite filter_none; [done|]. apply Forall_forall. intros x _ Hx.
    apply (Hm x.1 i) in Hx as (f' & Hl & _). destruct Hl as [Hi' Hl].
    apply Hlast. by simplify_eq.
Qed.

(** C40: a simulation has the flows of the statistics, in their order, with the
    measures of their elements.  What the classifier and the probes say of an
    identifier goes to one flow, the last that has it: its five-tuple is that
    of the last entry, its probe statistics are all entries in the order of
    the file; an entry for an unknown identifier makes reading fail.  With
    other than one classifier nothing is read. *)
Theorem simulation_flows el s :
  read_simulation float_of el = Ok s →
  ∃ classifier fs cs pss,
    findall el "Ipv4FlowClassifier" = [classifier] ∧
    Forall2 (λ e f, read_flow float_of e = Ok f) (findall_path el "FlowStats" "Flow") fs ∧
    Forall2 (λ e c, read_entry e = Ok c) (findall classifier "Flow") cs ∧
    Forall2 probe_entries (findall_path el "FlowProbes" "FlowProbe") pss ∧
    (∀ id, id ∈ cs.*1 ∨ id ∈ (mjoin pss).*1 → id ∈ flowId <$> fs) ∧
    ∀ i, match fs !! i with
         | None => flows s !! i = None
         | Some f => (last_of fs i f → flows s !! i = Some (completed cs (mjoin pss) f)) ∧
                     (¬ last_of fs i f → flows s !! i = Some f)
         end.
Proof.
  unfold read_simulation. intros Hs. apply bind_Ok_inv in Hs as (classifier & Hc & Hs).
  assert (findall el "Ipv4FlowClassifier" = [classifier]) as Hcl.
  { destruct (findall el _) as [|c [|]]; try done. by injection Hc as ->. }
  apply bind_Ok_inv in Hs as (s1 & H1 & Hs). apply bind_Ok_inv in Hs as (s2 & H2 & H3).
  destruct (add_flows _ _ _ H1) as (Hm & fs & Hfs & Hread).
  { intros id i. cbn. split; [done|]. intros (f & [Hi _] & _). done. }
  cbn [flows app] in Hfs. rewrite Hfs in Hm.
  destruct (classify_updates _ _ _ H2) as (cs & Hcs & Hrun2).
  destruct (probes_updates _ _ _ H3) as (pss & Hpss & Hrun3).
  apply run_updates_spec in Hrun2 as (Hm2 & Hall2 & Hf2).
  apply run_updates_spec in Hrun3 as (Hm3 & Hall3 & Hf3). rewrite Hm2 in *. rewrite Hfs in Hf2.
  exists classifier, fs, cs, pss. split_and!; [done..| |].
  - assert (∀ id, is_Some (flow_map s1 !! id) → id ∈ flowId <$> fs) as Hid.
    { intros id [i Hi]. apply (Hm id i) in Hi as (f & [Hf _] & <-).
      apply list_elem_of_fmap. exists f. split; [done|by eapply list_elem_of_lookup_2]. }
    intros id [Hin|Hin]; apply Hid; apply list_elem_of_fmap in Hin as (x & -> & Hx).
    + by apply Forall_fmap, Forall_forall with (x := x) in Hall2.
    + by apply Forall_fmap, Forall_forall with (x := x) in Hall3.
  - intros i. rewrite Hf3, Hf2. destruct (fs !! i) as [f|] eqn:Hi; [|done]. cbn [fmap option_fmap option_map].
    destruct (updates_of (λ c, (c.1, set_tuple c.2)) fs _ i f cs Hm Hi) as [Hy2 Hn2]; [done|].
    destruct (updates_of (λ p, (p.1, add_stats p.2)) fs _ i f (mjoin pss) Hm Hi) as [Hy3 Hn3]; [done|].
    split; intros Hlast.
    + rewrite Hy2, Hy3 by done. rewrite set_tuples, add_all_stats.
      destruct (Forall2_lookup_r _ _ _ _ _ Hread Hi) as (e & _ & He).
      assert (fiveTuple f = None ∧ probe_stats_unsorted f = []) as [Ht Hp].
      { unfold read_flow in He. res_inv. done. }
      unfold completed. destruct (last _); cbn; rewrite ?Ht, ?Hp; done.
    + by rewrite Hn2, Hn3.
Qed.
End simulation.

(** ** Instances *)
Definition sample_float (s : string) : option Q :=
  match match_int s with Some (n, "") => Some (inject_Z (Z.of_N n)) | _ => None end.

Definition flow_element (id rx lost last_rx : string) : element :=
  Element "Flow" None
    [("flowId", id); ("rxPackets", rx); ("txPackets", "4"); ("timeLastTxPacket", "3000000000ns");
     ("timeFirstTxPacket", "+1000000000ns"); ("timeLastRxPacket", last_rx);
     ("timeFirstRxPacket", "1000000000ns"); ("timesForwarded", "3"); ("delaySum", "6000000ns");
     ("rxBytes", "3000"); ("txBytes", "4000"); ("lostPackets", lost)] [].

Definition class_element (id proto : string) : element :=
  Element "Flow" None
    [("flowId", id); ("sourceAddress", "10.0.0.1"); ("destinationAddress", "10.0.0.2");
     ("protocol", proto); ("sourcePort", "9"); ("destinationPort", "90")] [].

Definition sample_results : element :=
  Element "FlowMonitor" None []
    [Element "FlowStats" None []
       [flow_element "1" "3" "1" "5000000000ns"; flow_element "2" "0" "4" "0ns"];
     Element "Ipv4FlowClassifier" None [] [class_element "1" "6"; class_element "2" "17"];
     Element "FlowProbes" None []
       [Element "FlowProbe" None [("index", "0")]
          [Element "FlowStats" None
             [("flowId", "1"); ("packets", "2"); ("bytes", "500"); ("delayFromFirstProbeSum", "8ns")] []]]].

Lemma flow_metrics_witness :
  let el := flow_element "1" "3" "1" "5000000000ns" in
  ∃ f, read_flow sample_float el = Ok f ∧
    (qlt (3 # 4) 1 = true) ∧
    (3%Z = 0%Z → hopCount f = inject_Z (-1000) ∧ delayMean f = None ∧ packetSizeMean f = None ∧
       packetLossRatio f = None) ∧
    ((0 < 3)%Z → is_Some (delayMean f) ∧ is_Some (packetSizeMean f) ∧
       ((0 <= 1)%Q → ∃ p, packetLossRatio f = Some p ∧ (0 <= p < 1)%Q ∧ (p == 0 ↔ 1 == 0)%Q) ∧
       (∀ n, float_attr sample_float el "timesForwarded" = Ok n → (0 <= n)%Q → (1 <= hopCount f)%Q)) ∧
    (is_Some (rxBitrate f) ↔ (0 < rx_duration f)%Q) ∧
    fiveTuple f = None ∧ probe_stats_unsorted f = [].
Proof.
  intros el. destruct (read_flow sample_float el) as [f|] eqn:E; [|vm_compute in E; discriminate E].
  exists f. split; [reflexivity|split; [reflexivity|]].
  apply (flow_metrics sample_float el f 3 1 E); reflexivity.
Defined.

Lemma simulation_flows_witness :
  ∃ s, read_simulation sample_float sample_results = Ok s ∧
    map (λ f, (flowId f, protocol <$> fiveTuple f, map bytes (probe_stats_unsorted f))) (flows s) =
      [(1, Some 6, [500]); (2, Some 17, [])]%Z ∧
    ∃ classifier fs cs pss,
      findall sample_results "Ipv4FlowClassifier" = [classifier] ∧
      Forall2 (λ e f, read_flow sample_float e = Ok f) (findall_path sample_results "FlowStats" "Flow") fs ∧
      Forall2 (λ e c, read_entry e = Ok c) (findall classifier "Flow") cs ∧
      Forall2 probe_entries (findall_path sample_results "FlowProbes" "FlowProbe") pss ∧
      (∀ id, id ∈ cs.*1 ∨ id ∈ (mjoin pss).*1 → id ∈ flowId <$> fs) ∧
      ∀ i, match fs !! i with
           | None => flows s !! i = None
           | Some f => (last_of fs i f → flows s !! i = Some (completed cs (mjoin pss) f)) ∧
                       (¬ last_of fs i f → flows s !! i = Some f)
           end.
Proof.
  destruct (read_simulation sample_float sample_results) as [s|] eqn:E;
    [|vm_compute in E; discriminate E].
  exists s. split; [reflexivity|split].
  - vm_compute in E. injection E as <-. reflexivity.
  - exact (simulation_flows sample_float sample_results s E).
Defined.

(** A flow of which nothing arrived: the report stops after the bit rate of
    the sender. *)
Lemma lost_flow_stops_report :
  match read_simulation sample_float sample_results with
  | Ok s => (length (report [s]).1, (report [s]).2)
  | Raise e => (0%nat, Raise e)
  end = (7%nat, Raise TypeError).
Proof. vm_compute. reflexivity. Qed.
