(* ===== verification/Haystack.v ===== *)
(** * The photo cache of [src/facebook_haystack/haystackStoreController]

    [haystackCacheController.py] reads the addresses of the cache servers from
    a configuration file, connects to the first one and queries and writes it;
    [server.py] answers requests for photos.  The client of the cache and the
    web framework are third-party: the client is a type with its two
    operations, and a reply is what the handler returns to the framework. *)

From S2P Require Import Prelude PyStr Patch FlowMon.
From Stdlib Require Import Ascii.

Local Open Scope string_scope.
Local Open Scope list_scope.

(** ** [getMemcacheServers] *)
Definition server : Type := string * Z.

(** [s.split(c)[i]]. *)
Definition field (c : ascii) (i : nat) (s : string) : result exn string :=
  of_option IndexError (split c s !! i).

Definition parse_server (line : string) : result exn server :=
  value ← field "=" 1 line;
  ip ← field ":" 0 value;
  value ← field "=" 1 line;
  port ← field ":" 1 value;
  port ← text_int false (strip port);
  Ok (strip ip, port).

Definition parse_servers (text : string) : result exn (list server) :=
  fold_res (λ s line, x ← parse_server line; Ok (s ++ [x])) [] (lines text).

(** The file system maps names to contents. *)
Definition getMemcacheServers (fs : gmap string string) (configFile : string) :
    result exn (list server) :=
  text ← of_option IOError (fs !! configFile);
  parse_servers text.

(** ** The controller *)
Section controller.
Context {client photo : Type} (Client : server → client).
Context (client_get : client → string → client * option photo).
Context (client_set : client → string → photo → client).

Record haystackCacheController := Controller {
  memcacheServers : list server; cache : client }.

Definition new_controller (fs : gmap string string) : result exn haystackCacheController :=
  servers ← getMemcacheServers fs "haystackCacheConfig.txt";
  first ← of_option IndexError (servers !! 0);
  Ok (Controller servers (Client first)).

Definition queryMemcache (c : haystackCacheController) (key : string) :
    haystackCacheController * option photo :=
  let '(cl, photo) := client_get (cache c) key in (Controller (memcacheServers c) cl, photo).

Definition writeMemcache (c : haystackCacheController) (key : string) (value : photo) :
    haystackCacheController :=
  Controller (memcacheServers c) (client_set (cache c) key value).

(** ** The routes

    What a handler returns: the photo or [None], or the constant of
    [flask.ext.api.status]. *)
Inductive reply := Body (p : option photo) | Status (code : Z).

Definition getPhoto (c : haystackCacheController) (photo_id : string) :
    haystackCacheController * reply :=
  let '(c, queryResult) := queryMemcache c photo_id in (c, Body queryResult).

Definition writePhoto (c : haystackCacheController) (photo_id : string) :
    haystackCacheController * reply := (c, Status 400).

(** A request to the server. *)
Inductive request := Get (photo_id : string) | Post (photo_id : string).

Definition serve (c : haystackCacheController) (r : request) : haystackCacheController * reply :=
  match r with Get id => getPhoto c id | Post id => writePhoto c id end.

(** What is done with a controller: the routes call it, and its owner may write
    photos into the cache. *)
Inductive action := Request (r : request) | Write (key : string) (value : photo).

Definition act (c : haystackCacheController) (a : action) :
    haystackCacheController * option reply :=
  match a with
  | Request r => let '(c, x) := serve c r in (c, Some x)
  | Write key value => (writeMemcache c key value, None)
  end.

Fixpoint acts (c : haystackCacheController) (l : list action) : haystackCacheController :=
  match l with [] => c | a :: l => acts (act c a).1 l end.
End controller.

#[global] Arguments Request {photo} r.
#[global] Arguments Write {photo} key value.
#[global] Arguments Body {photo} p.
#[global] Arguments Status {photo} code.

(** ** What a cache promises

    A cache may drop what it holds at any time, so it only promises not to
    invent photos: [holds] is what a query may return. *)
Class Memcache {client photo : Type} (client_get : client → string → client * option photo)
    (client_set : client → string → photo → client) := {
  holds : client → string → photo → Prop;
  get_holds c k v : (client_get c k).2 = Some v → holds c k v;
  get_keeps c k k' v : holds (client_get c k).1 k' v → holds c k' v;
  set_holds c k v k' v' : holds (client_set c k v) k' v' → (k', v') = (k, v) ∨ holds c k' v' }.

(** A cache that never forgets. *)
Definition map_get (m : gmap string string) (k : string) : gmap string string * option string :=
  (m, m !! k).
Definition map_set (m : gmap string string) (k v : string) : gmap string string := <[k := v]> m.

#[export] Instance map_memcache : Memcache map_get map_set.
Proof.
  refine {| holds m k v := m !! k = Some v |}; [done|done|].
  unfold map_set. intros m k v k' v'. rewrite lookup_insert_Some.
  intros [[-> ->]|[_ ?]]; auto.
Defined.

Section memcache.
Context `{Memcache client photo client_get client_set}.
Implicit Types c : @haystackCacheController client.
Local Abbreviation run := (acts client_get client_set).
Local Abbreviation step := (act client_get client_set).

Lemma act_holds c a k v :
  holds (cache (step c a).1) k v → a = Write k v ∨ holds (cache c) k v.
Proof.
  destruct a as [[id|id]|key value]; cbn; [| auto |].
  - unfold getPhoto, queryMemcache. destruct (client_get _ _) as [cl p] eqn:E. cbn.
    intros Hh. right. apply (get_keeps (cache c) id). by rewrite E.
  - intros [[= -> ->]|?]%set_holds; auto.
Qed.

Lemma acts_holds c l k v : holds (cache (run c l)) k v → Write k v ∈ l ∨ holds (cache c) k v.
Proof.
  revert c. induction l as [|a l IH]; intros c; cbn; [auto|].
  intros [Hin|[->|Hh]%act_holds]%IH; [left; by right|left; by left|auto].
Qed.

(** whatever requests and writes came before, a request for a photo is
    answered with the photo that the cache held at the start or that was
    written under this very id, or with nothing; and a request to store a
    photo is refused with status 400 and changes nothing. *)
Theorem photos_served_were_stored c l id :
  match (step (run c l) (Request (Get id))).2 with
  | Some (Body (Some p)) => Write id p ∈ l ∨ holds (cache c) id p
  | Some (Body None) => True
  | _ => False
  end ∧
  step (run c l) (Request (Post id)) = (run c l, Some (Status 400)) ∧
  memcacheServers (run c l) = memcacheServers c.
Proof.
  split; [|split; [done|]].
  - cbn. unfold getPhoto, queryMemcache. destruct (client_get _ _) as [cl [p|]] eqn:E; cbn; [|done].
    apply acts_holds. apply get_holds. by rewrite E.
  - revert c. induction l as [|a l IH]; intros c; cbn; [done|]. rewrite IH.
    destruct a as [[?|?]|? ?]; cbn; try done. unfold getPhoto, queryMemcache.
    by destruct (client_get _ _).
Qed.

(** The routes alone never fill the cache. *)
Lemma requests_never_store c rs k v :
  holds (cache (run c (Request <$> rs))) k v → holds (cache c) k v.
Proof.
  intros [Hin|?]%acts_holds; [|done].
  apply list_elem_of_fmap in Hin as (? & [=] & _).
Qed.
End memcache.

Lemma photos_served_were_stored_witness :
  let c := acts map_get map_set (Controller [] ∅) [Write "7" "sea"] in
  (act map_get map_set c (Request (Get "7"))).2 = Some (Body (Some "sea")) ∧
  match (act map_get map_set c (Request (Get "7"))).2 with
  | Some (Body (Some p)) => Write "7" p ∈ [Write "7" "sea"] ∨ holds (∅ : gmap string string) "7" p
  | Some (Body None) => True
  | _ => False
  end.
Proof.
  split; [reflexivity|].
  exact (proj1 (photos_served_were_stored (Controller [] (∅ : gmap string string))
    [Write "7" "sea"] "7")).
Defined.

(** ** The configuration file *)

(** A line as the configuration has it. *)
Definition server_line (name : string) (s : server) : string :=
  name +:+ " = " +:+ s.1 +:+ ":" +:+ pretty s.2 +:+ nl.

Definition config_text (l : list (string * server)) : string :=
  foldr (λ ns t, server_line ns.1 ns.2 +:+ t) "" l.

(** An address that the separators and stripping leave alone. *)
Record address_ok (ip : string) : Prop := {
  ip_equals : contains_char "=" ip = false;
  ip_colon : contains_char ":" ip = false;
  ip_line : contains_char newline ip = false;
  ip_left : lstrip ip = ip;
  ip_right : rstrip ip = ip }.

Definition entry_ok (ns : string * server) : Prop :=
  contains_char "=" ns.1 = false ∧ contains_char newline ns.1 = false ∧
  address_ok ns.2.1 ∧ (0 ≤ ns.2.2)%Z.

(** No separator is printed in a number. *)
Lemma pretty_N_go_none c x s :
  digit c = None → contains_char c s = false → contains_char c (pretty_N_go x s) = false.
Proof.
  intros Hc. revert s. induction (N.lt_wf_0 x) as [x _ IH]; intros s Hs.
  assert (x = 0 ∨ 0 < x)%N as [->|Hx] by lia; [done|].
  rewrite pretty_N_go_step by done. apply IH; [by apply N.div_lt|].
  cbn [contains_char]. rewrite Hs, orb_false_r. apply bool_decide_eq_false. intros ->.
  rewrite digit_pretty in Hc by (by apply N.mod_lt). done.
Qed.

Lemma pretty_N_none c (n : N) : digit c = None → contains_char c (pretty n) = false.
Proof.
  intros Hc. unfold pretty, pretty_N. case_decide; [|by apply pretty_N_go_none].
  cbn [contains_char]. rewrite orb_false_r. apply bool_decide_eq_false. by intros ->.
Qed.

Lemma pretty_port z : (0 ≤ z)%Z → pretty z = pretty (Z.to_N z).
Proof. intros Hz. destruct z; [done|done|lia]. Qed.

Lemma pretty_solid (n : N) : all_chars (λ c, negb (is_space c)) (pretty n) = true.
Proof.
  assert (∀ x s, all_chars (λ c, negb (is_space c)) s = true →
            all_chars (λ c, negb (is_space c)) (pretty_N_go x s) = true) as Hgo.
  { intros x. induction (N.lt_wf_0 x) as [x _ IH]; intros s Hs.
    assert (x = 0 ∨ 0 < x)%N as [->|Hx] by lia; [done|].
    rewrite pretty_N_go_step by done. apply IH; [by apply N.div_lt|]. cbn [all_chars].
    rewrite Hs, andb_true_r. assert (x mod 10 < 10)%N as Hd by by apply N.mod_lt.
    revert Hd. generalize (x mod 10)%N as d. intros d Hd.
    assert (d = 0 ∨ d = 1 ∨ d = 2 ∨ d = 3 ∨ d = 4 ∨ d = 5 ∨ d = 6 ∨ d = 7 ∨ d = 8 ∨ d = 9)%N
      as Hc by lia.
    by repeat destruct Hc as [->|Hc]; [..|rewrite Hc]. }
  unfold pretty, pretty_N. case_decide; [done|]. by apply Hgo.
Qed.

Lemma text_int_port (n : N) : text_int false (strip (pretty n +:+ nl)) = Ok (Z.of_N n).
Proof.
  pose proof (pretty_solid n) as Hs.
  pose proof (match_int_pretty n "" I) as Hm. rewrite app_empty_r in Hm.
  assert (pretty n ≠ "") as Hne by (intros He; by rewrite He in Hm).
  assert (strip (pretty n +:+ nl) = pretty n) as ->.
  { by apply (strip_blanks "" (pretty n) nl); [|done| |apply lstrip_solid|apply rstrip_solid]. }
  unfold text_int. unfold strip. rewrite rstrip_solid, lstrip_solid by done.
  destruct (pretty n) as [|c s] eqn:E; [done|].
  assert (is_Some (digit c)) as [d Hd] by (cbn in Hm; by destruct (digit c); [eexists|]).
  rewrite !decide_False by (by intros ->). rewrite Hm. cbn. by rewrite Z.mul_1_l.
Qed.

Lemma split_once_more c a b :
  contains_char c a = false → contains_char c b = false → split c (a +:+ String c b) = [a; b].
Proof. intros Ha Hb. by rewrite split_app, split_no_sep. Qed.

Lemma parse_server_line ns : entry_ok ns → parse_server (server_line ns.1 ns.2) = Ok ns.2.
Proof.
  destruct ns as [name [ip port]]. intros (Hn & _ & [He Hc Hl Hlt Hrt] & Hp). cbn [fst snd] in *.
  unfold server_line. cbn [fst snd]. rewrite (pretty_port port) by done.
  set (n := Z.to_N port). set (tail := pretty n +:+ nl).
  assert (split "=" (name +:+ " = " +:+ ip +:+ ":" +:+ tail) =
          [name +:+ " "; " " +:+ ip +:+ ":" +:+ tail]) as Hs1.
  { change (" = " +:+ ?x) with (" " +:+ String "=" (" " +:+ x)). rewrite str_app_assoc.
    apply split_once_more; rewrite !contains_char_app, ?Hn, ?He; [done|].
    unfold tail. by rewrite contains_char_app, pretty_N_none. }
  assert (split ":" (" " +:+ ip +:+ ":" +:+ tail) = [" " +:+ ip; tail]) as Hs2.
  { change (":" +:+ tail) with (String ":" tail). rewrite str_app_assoc.
    apply split_once_more; [by rewrite contains_char_app, Hc|].
    unfold tail. by rewrite contains_char_app, pretty_N_none. }
  unfold parse_server, field. rewrite Hs1. cbn [lookup list_lookup of_option mbind result_bind].
  rewrite Hs2. cbn [lookup list_lookup of_option mbind result_bind].
  unfold tail. rewrite text_int_port. cbn [mbind result_bind].
  assert (strip (" " +:+ ip) = ip) as ->.
  { unfold strip. destruct (decide (ip = "")) as [->|Hne]; [done|].
    rewrite rstrip_app by by rewrite Hrt. by rewrite Hrt, lstrip_blank. }
  do 2 f_equal. lia.
Qed.

Lemma lines_config l rest :
  Forall entry_ok l →
  lines (config_text l +:+ rest) = ((λ ns, server_line ns.1 ns.2) <$> l) ++ lines rest.
Proof.
  induction 1 as [|ns l (Hn & Hnl & Hip & Hp) _ IH]; [done|].
  change (config_text (ns :: l)) with (server_line ns.1 ns.2 +:+ config_text l).
  cbn [fmap list_fmap app]. rewrite <- IH, <- (str_app_assoc _ (config_text l) rest).
  generalize (config_text l +:+ rest) as tail. intros tail. unfold server_line.
  rewrite !str_app_assoc, <- (str_app_assoc _ nl tail). apply lines_first.
  rewrite !contains_char_app, Hnl, (ip_line _ Hip), pretty_port by done.
  by rewrite pretty_N_none.
Qed.

Lemma parse_config l acc :
  Forall entry_ok l →
  fold_res (λ s line, x ← parse_server line; Ok (s ++ [x])) acc
    ((λ ns, server_line ns.1 ns.2) <$> l) = Ok (acc ++ l.*2).
Proof.
  intros Hl. revert acc. induction Hl as [|ns l Hns _ IH]; intros acc; [by rewrite app_nil_r|].
  cbn [fmap list_fmap fold_res]. rewrite parse_server_line by done. cbn [mbind result_bind].
  rewrite IH. by rewrite <- app_assoc.
Qed.

(** the servers that a configuration file lists, one per line as a name,
    an equals sign, an address, a colon and a port, are read back in their
    order, whatever the names and however the address is spelled without
    those separators. *)
Theorem servers_roundtrip fs file l :
  Forall entry_ok l → fs !! file = Some (config_text l) →
  getMemcacheServers fs file = Ok l.*2.
Proof.
  intros Hl Hf. unfold getMemcacheServers. rewrite Hf. cbn [of_option mbind result_bind].
  unfold parse_servers. rewrite <- (app_empty_r (config_text l)), lines_config by done.
  rewrite app_nil_r. by apply (parse_config l []).
Qed.

Definition two_servers : list (string * server) :=
  [("cache1", ("10.0.0.1", 11211)); ("cache2", ("cache2.local", 11212))]%Z.

Lemma servers_roundtrip_witness :
  Forall entry_ok two_servers ∧
  getMemcacheServers {["c.txt" := config_text two_servers]} "c.txt" = Ok two_servers.*2.
Proof.
  assert (Forall entry_ok two_servers) as Hok.
  { repeat constructor; cbn; done. }
  split; [exact Hok|].
  apply (servers_roundtrip {["c.txt" := config_text two_servers]} "c.txt" two_servers Hok).
  reflexivity.
Defined.

(** Only the first of them is ever used. *)
Lemma first_server_connected client (Client : server → client) fs servers first :
  getMemcacheServers fs "haystackCacheConfig.txt" = Ok (first :: servers) →
  new_controller Client fs = Ok (Controller (first :: servers) (Client first)).
Proof. intros Hs. unfold new_controller. by rewrite Hs. Qed.

(** A configuration that lists no server stops the controller. *)
Lemma no_server_fails client (Client : server → client) fs :
  fs !! "haystackCacheConfig.txt" = Some "" → new_controller Client fs = Raise IndexError.
Proof. intros Hf. unfold new_controller, getMemcacheServers. by rewrite Hf. Qed.

(** So does a blank line, wherever it stands. *)
Lemma blank_line_fails l rest :
  Forall entry_ok l → parse_servers (config_text l +:+ nl +:+ rest) = Raise IndexError.
Proof.
  intros Hl. unfold parse_servers. rewrite lines_config by done.
  pose proof (lines_first "" rest eq_refl) as Hb. change ("" +:+ ?x) with x in Hb.
  rewrite Hb, fold_res_app, parse_config by done. done.
Qed.
