(* ===== verification/Wscript.v ===== *)
(** * [wscript] and [src/wscript]: which modules and programs are built

    The two scripts declare a task generator for every module, test library,
    program and header list of the simulator, complete the set of enabled
    modules with what they depend on, and take the generators of everything
    else out of the build.  The generators are objects that the groups of the
    build, its cache of names and the loops share, so they are named by their
    position in the list of all that were created.  Of [waflib] the build
    context is modelled ([Build.py] in the waf of the repository); what the
    scripts of the subdirectories declare is a parameter, compiling and
    linking are left out. *)

From S2P Require Import Prelude PyStr Ns3rc.
From Stdlib Require Import Ascii.

Local Open Scope string_scope.
Local Open Scope list_scope.

(** ** Task generators and the build context *)

(** The attributes that the scripts set and read; [None] is an attribute that
    was not assigned.  A test library has the name of its module. *)
Record task_gen := TaskGen {
  tg_name : string;
  features : list string;
  tg_module : option string;
  use : option (list string);
  ns3_module_dependencies : option (list string);
  is_ns3_module : bool;
  test_library_of : option string;
  headers : list string;
  mode : option string }.

Record context := BuildContext {
  gens : list task_gen;
  groups : list (list nat);
  current_group : nat;
  task_gen_cache_names : gmap string nat }.

Definition empty_context : context := BuildContext [] [] 0 ∅.

Definition add_group (b : context) : context :=
  BuildContext (gens b) (groups b ++ [[]]) (length (groups b)) (task_gen_cache_names b).

(** [add_to_group], after [get_group(None)] has made the first group. *)
Definition add_to_group (i : nat) (b : context) : context :=
  let b := match groups b with [] => add_group b | _ => b end in
  BuildContext (gens b) (alter (λ g, g ++ [i]) (current_group b) (groups b)) (current_group b)
    (task_gen_cache_names b).

(** The names are forgotten with every new generator. *)
Definition new_task_gen (g : task_gen) (b : context) : context :=
  add_to_group (length (gens b))
    (BuildContext (gens b ++ [g]) (groups b) (current_group b) ∅).

Definition _get_all_task_gen (b : context) : list nat := mjoin (groups b).

Definition set_gen (f : task_gen → task_gen) (i : nat) (b : context) : context :=
  BuildContext (alter f i (gens b)) (groups b) (current_group b) (task_gen_cache_names b).

(** The names of the generators in the groups; a later one hides an earlier. *)
Definition fill_cache (b : context) : gmap string nat :=
  foldl (λ m i, match gens b !! i with Some g => <[tg_name g := i]> m | None => m end)
    ∅ (_get_all_task_gen b).

Definition get_tgen_by_name (name : string) (b : context) : result exn (context * nat) :=
  let cache := if decide (task_gen_cache_names b = ∅) then fill_cache b
               else task_gen_cache_names b in
  match cache !! name with
  | Some i => Ok (BuildContext (gens b) (groups b) (current_group b) cache, i)
  | None => Raise (WafError ("Could not find a task generator for the name '" +:+ name +:+ "'"))
  end.

(** [l.remove(x)] where [x] is in [l]: the first occurrence. *)
Fixpoint list_remove `{EqDecision A} (x : A) (l : list A) : list A :=
  match l with
  | [] => []
  | y :: l => if decide (y = x) then l else y :: list_remove x l
  end.

(** [_exclude_taskgen]: out of the first group that has it. *)
Fixpoint exclude_group (i : nat) (gs : list (list nat)) : list (list nat) :=
  match gs with
  | [] => []
  | g :: gs => if decide (i ∈ g) then list_remove i g :: gs else g :: exclude_group i gs
  end.

Definition _exclude_taskgen (i : nat) (b : context) : context :=
  BuildContext (gens b) (exclude_group i (groups b)) (current_group b) (task_gen_cache_names b).

(** ** The environment of the build *)
Record environment := Environment {
  ENABLE_TESTS : bool;
  ENABLE_EXAMPLES : bool;
  NS3_ENABLED_MODULES : list string;
  MODULES_NOT_BUILT : list string;
  NS3_MODULES_WITH_TEST_LIBRARIES : list (string * string);
  NS3_ENABLED_MODULE_TEST_LIBRARIES : list string;
  NS3_SCRIPT_DEPENDENCIES : list (string * list string);
  NS3_RUNNABLE_PROGRAMS : list string;
  NS3_RUNNABLE_SCRIPTS : list string }.

Definition set_enabled (l : list string) (e : environment) : environment :=
  Environment (ENABLE_TESTS e) (ENABLE_EXAMPLES e) l (MODULES_NOT_BUILT e)
    (NS3_MODULES_WITH_TEST_LIBRARIES e) (NS3_ENABLED_MODULE_TEST_LIBRARIES e)
    (NS3_SCRIPT_DEPENDENCIES e) (NS3_RUNNABLE_PROGRAMS e) (NS3_RUNNABLE_SCRIPTS e).

Definition add_with_library (p : string * string) (e : environment) : environment :=
  Environment (ENABLE_TESTS e) (ENABLE_EXAMPLES e) (NS3_ENABLED_MODULES e) (MODULES_NOT_BUILT e)
    (NS3_MODULES_WITH_TEST_LIBRARIES e ++ [p]) (NS3_ENABLED_MODULE_TEST_LIBRARIES e)
    (NS3_SCRIPT_DEPENDENCIES e) (NS3_RUNNABLE_PROGRAMS e) (NS3_RUNNABLE_SCRIPTS e).

Definition add_test_library (l : string) (e : environment) : environment :=
  Environment (ENABLE_TESTS e) (ENABLE_EXAMPLES e) (NS3_ENABLED_MODULES e) (MODULES_NOT_BUILT e)
    (NS3_MODULES_WITH_TEST_LIBRARIES e) (NS3_ENABLED_MODULE_TEST_LIBRARIES e ++ [l])
    (NS3_SCRIPT_DEPENDENCIES e) (NS3_RUNNABLE_PROGRAMS e) (NS3_RUNNABLE_SCRIPTS e).

Definition add_script (s : string * list string) (e : environment) : environment :=
  Environment (ENABLE_TESTS e) (ENABLE_EXAMPLES e) (NS3_ENABLED_MODULES e) (MODULES_NOT_BUILT e)
    (NS3_MODULES_WITH_TEST_LIBRARIES e) (NS3_ENABLED_MODULE_TEST_LIBRARIES e)
    (NS3_SCRIPT_DEPENDENCIES e ++ [s]) (NS3_RUNNABLE_PROGRAMS e) (NS3_RUNNABLE_SCRIPTS e).

Definition add_runnable_program (p : string) (e : environment) : environment :=
  Environment (ENABLE_TESTS e) (ENABLE_EXAMPLES e) (NS3_ENABLED_MODULES e) (MODULES_NOT_BUILT e)
    (NS3_MODULES_WITH_TEST_LIBRARIES e) (NS3_ENABLED_MODULE_TEST_LIBRARIES e)
    (NS3_SCRIPT_DEPENDENCIES e) (NS3_RUNNABLE_PROGRAMS e ++ [p]) (NS3_RUNNABLE_SCRIPTS e).

Definition add_runnable_script (s : string) (e : environment) : environment :=
  Environment (ENABLE_TESTS e) (ENABLE_EXAMPLES e) (NS3_ENABLED_MODULES e) (MODULES_NOT_BUILT e)
    (NS3_MODULES_WITH_TEST_LIBRARIES e) (NS3_ENABLED_MODULE_TEST_LIBRARIES e)
    (NS3_SCRIPT_DEPENDENCIES e) (NS3_RUNNABLE_PROGRAMS e) (NS3_RUNNABLE_SCRIPTS e ++ [s]).

(** The lists that [build] empties first. *)
Definition reset_lists (e : environment) : environment :=
  Environment (ENABLE_TESTS e) (ENABLE_EXAMPLES e) (NS3_ENABLED_MODULES e) (MODULES_NOT_BUILT e)
    [] [] [] [] [].

(** ** Configuration: the modules that are enabled *)

(** [conf.env['NS3_ENABLED_MODULES']] can be the very list
    [conf.env['NS3_MODULES']]. *)
Inductive enabled_list := Shared | Own (l : list string).

Record conf_modules := ConfModules { NS3_MODULES : list string; enabled : enabled_list }.

Definition enabled_of (c : conf_modules) : list string :=
  match enabled c with Shared => NS3_MODULES c | Own l => l end.

Definition prefixed (mods : list string) : list string := String.append "ns3-" <$> mods.

(** [modules] is [all_modules] of [src/wscript], [option] the value of
    [--enable-modules] and [config] what [.ns3rc] says. *)
Definition select_modules (modules : list string) (option : option string) (config : config) :
    result exn conf_modules :=
  let all := prefixed (basename <$> modules) in
  let text := default "" option in
  if decide (text = "") then
    first ← of_option IndexError (head (modules_enabled config));
    Ok (ConfModules all (if decide (first = "all_modules") then Shared
                         else Own (prefixed (modules_enabled config))))
  else Ok (ConfModules all (Own (prefixed (split "," text)))).

Definition remove_enabled (name : string) (c : conf_modules) : conf_modules :=
  match enabled c with
  | Shared => ConfModules (list_remove name (NS3_MODULES c)) Shared
  | Own l => ConfModules (NS3_MODULES c) (Own (list_remove name l))
  end.

Definition remove_not_built (c : conf_modules) (not_built : string) : result exn conf_modules :=
  let not_built_name := "ns3-" +:+ not_built in
  if decide (not_built_name ∈ enabled_of c) then
    let c := remove_enabled not_built_name c in
    if decide (enabled_of c = []) then
      Raise (WafError ("Exiting because the " +:+ not_built +:+
               " module can not be built and it was the only one enabled."))
    else Ok c
  else Ok c.

Definition configure_modules (modules : list string) (option : option string) (config : config)
    (not_built : list string) : result exn conf_modules :=
  c ← select_modules modules option config;
  fold_res remove_not_built c not_built.

(** Whether tests or examples are built, and the reason shown. *)
Definition decide_feature (enable disable : bool) (what : string) (config_file_exists value : bool) :
    bool * string :=
  if enable then (true, "option --enable-" +:+ what +:+ " selected")
  else if disable then (false, "option --disable-" +:+ what +:+ " selected")
  else (value, if config_file_exists then "based on configuration file"
               else if value then "defaults to enabled" else "defaults to disabled").

(** The text shown for a check of compiler flags.  The code compares the text
    itself with 28, and in Python 2 any string is greater than a number. *)
Definition flag_message (flags : list string) : string :=
  let flag_str := match flags with
                  | _ :: _ :: _ => "flags " +:+ join " " flags
                  | _ => "flag " +:+ join " " flags
                  end in
  "Checking for compilation " +:+ (String.substring 0 28 flag_str +:+ "...") +:+ " support".

(** ** What the scripts of the subdirectories declare *)
Record state := State { ctx : context; env : environment; all_modules : list string }.

Definition on_ctx (f : context → context) (s : state) : state :=
  State (f (ctx s)) (env s) (all_modules s).

Definition on_env (f : environment → environment) (s : state) : state :=
  State (ctx s) (f (env s)) (all_modules s).

(** The generator that [create_ns3_module] returns, with the libraries that
    the script of the module adds to [use], and the one of its pc file. *)
Definition module_gen (static : bool) (name : string) (dependencies extra : list string) : task_gen :=
  TaskGen ("ns3-" +:+ name) ["cxx"; if static then "cxxstlib" else "cxxshlib"; "ns3module"] None
    (Some (prefixed dependencies ++ extra)) None true None [] None.

Definition pcfile_gen : task_gen :=
  TaskGen "" ["ns3pcfile"] None None None false None [] None.

Definition create_ns3_module (static : bool) (name : string) (dependencies extra : list string)
    (s : state) : state :=
  on_ctx (λ b, new_task_gen pcfile_gen (new_task_gen (module_gen static name dependencies extra) b)) s.

(** [create_ns3_module_test_library] turns a module for the tests into a test
    library; the script of the module may add libraries to its [use] too. *)
Definition to_test_library (name : string) (g : task_gen) : task_gen :=
  TaskGen (tg_name g) (features g ++ ["ns3testlib"]) (tg_module g) (use g)
    (ns3_module_dependencies g) false (Some ("ns3-" +:+ name)) (headers g) (mode g).

Definition create_ns3_module_test_library (static : bool) (name : string) (extra : list string)
    (s : state) : state :=
  let library := length (gens (ctx s)) in
  let s := create_ns3_module static (name +:+ "-test") [name] extra s in
  let s := on_ctx (set_gen (to_test_library name) library) s in
  on_env (add_with_library ("ns3-" +:+ name, "ns3-" +:+ name +:+ "-test")) s.

Definition program_gen (name : string) (dependencies : list string) : task_gen :=
  TaskGen name ["cxx"; "cxxprogram"] None (Some (prefixed dependencies))
    (Some (prefixed dependencies)) false None [] None.

Definition create_ns3_program (name : string) (dependencies : list string) (s : state) : state :=
  on_ctx (new_task_gen (program_gen name dependencies)) s.

(** A program with the suid bit gets a group of its own, and the build returns
    to the group that was current. *)
Definition suid_gen (name : string) : task_gen :=
  TaskGen name ["cxx"; "cxxprogram"] None None None false None [] None.

Definition set_group (i : nat) (b : context) : context :=
  BuildContext (gens b) (groups b) i (task_gen_cache_names b).

Definition create_suid_program (name : string) (s : state) : state :=
  on_ctx (λ b, set_group (current_group b) (new_task_gen (suid_gen name) (add_group b))) s.

Definition register_ns3_script (name : string) (dependencies : list string) (s : state) : state :=
  on_env (add_script (name, prefixed dependencies)) s.

Definition header_gen (module : string) (source : list string) : task_gen :=
  TaskGen "" ["ns3header"] (Some module) None None false None source None.

Definition module_header_gen (module : string) : task_gen :=
  TaskGen "" ["ns3moduleheader"] (Some module) None None false None [] None.

(** [ns3_python_bindings] of a script that has bindings, when these are built;
    [frontend] tells whether there is a file [bindings/<module>.py].  The
    extension module is linked with the modules enabled so far. *)
Definition pymod_gen (module : string) (enabled : list string) : task_gen :=
  TaskGen ("ns3module_" +:+ module) ["cxx"; "cxxshlib"; "pyext"] None (Some enabled)
    None false None [] None.

Definition plain_gen (name : string) (features : list string) (use : option (list string)) :
    task_gen :=
  TaskGen name features None use None false None [] None.

Definition ns3_python_bindings (module : string) (frontend : bool) (s : state) : state :=
  if decide ("ns3-" +:+ module ∈ NS3_ENABLED_MODULES (env s)) then
    let s := if frontend then on_ctx (new_task_gen (plain_gen "" ["copy"] None)) s else s in
    let s := on_ctx (new_task_gen
                       (plain_gen ("pybindgen(ns3 module " +:+ module +:+ ")") ["command"] None)) s in
    on_ctx (new_task_gen (pymod_gen module (NS3_ENABLED_MODULES (env s)))) s
  else s.

(** A call that a script makes; other generators may have libraries, and none of
    the attributes of those above. *)
Inductive declaration :=
  | Module (name : string) (dependencies extra : list string)
  | TestLibrary (name : string) (extra : list string)
  | Headers (module : string) (source : list string)
  | Program (name : string) (dependencies : list string)
  | SuidProgram (name : string)
  | Script (name : string) (dependencies : list string)
  | PythonModule (name : string) (frontend : bool)
  | Other (name : string) (features : list string) (use : option (list string)).

Section build.
Context (static : bool) (scripts : string → list declaration).

Definition declare (s : state) (d : declaration) : state :=
  match d with
  | Module name dependencies extra => create_ns3_module static name dependencies extra s
  | TestLibrary name extra => create_ns3_module_test_library static name extra s
  | Headers module source => on_ctx (new_task_gen (header_gen module source)) s
  | Program name dependencies => create_ns3_program name dependencies s
  | SuidProgram name => create_suid_program name s
  | Script name dependencies => register_ns3_script name dependencies s
  | PythonModule name frontend => ns3_python_bindings name frontend s
  | Other name fs use => on_ctx (new_task_gen (plain_gen name fs use)) s
  end.

Definition add_subdirs (dir : string) (s : state) : state := foldl declare s (scripts dir).

(** ** [build] of [src/wscript] *)
Definition drop_module (l : list string) (not_built : string) : list string :=
  let not_built := if decide (not_built = "ns3tcp" ∨ not_built = "ns3wifi")
                   then "test/" +:+ not_built else not_built in
  list_remove not_built l.

Definition build_src (s : state) : state :=
  let modules := foldl drop_module (all_modules s) (MODULES_NOT_BUILT (env s)) in
  let s := State (ctx s) (env s) modules in
  let s := foldl (λ s m, add_subdirs (path_join "src" m) s) s modules in
  foldl (λ s m, on_ctx (new_task_gen (module_header_gen (basename m))) s) s modules.

(** ** [build] of [wscript]: the enabled modules *)

(** One dependency of a module. *)
Definition add_dep (ms : list string * bool) (dep : string) : list string * bool :=
  let '(modules, changed) := ms in
  if negb (startswith "ns3-" dep) then (modules, changed)
  else if decide (dep ∈ modules) then (modules, changed)
  else (modules ++ [dep], true).

(** The [for] loop, which also visits what is appended to its list. *)
Fixpoint visit_modules (fuel : nat) (b : context) (modules : list string) (i : nat)
    (changed : bool) : result exn (context * list string * bool) :=
  match fuel with
  | O => Raise Diverges
  | S fuel =>
      match modules !! i with
      | None => Ok (b, modules, changed)
      | Some module =>
          '(b, o) ← get_tgen_by_name module b;
          uses ← of_option AttributeError (gens b !! o ≫= use);
          let '(modules, changed) := foldl add_dep (modules, changed) uses in
          visit_modules fuel b modules (S i) changed
      end
  end.

(** The [while] loop. *)
Fixpoint complete_modules (turns fuel : nat) (b : context) (modules : list string) :
    result exn (context * list string) :=
  match turns with
  | O => Raise Diverges
  | S turns =>
      '(b, modules, changed) ← visit_modules fuel b modules 0 false;
      if changed : bool then complete_modules turns fuel b modules else Ok (b, modules)
  end.

(** Room for the modules and everything that a generator uses. *)
Definition visit_fuel (b : context) (modules : list string) : nat :=
  S (length modules + length (gens b ≫= λ g, default [] (use g))).

Definition complete (b : context) (modules : list string) : result exn (context * list string) :=
  complete_modules (visit_fuel b modules) (visit_fuel b modules) b modules.

(** The modules are completed in the list of the environment itself. *)
Definition enable_modules (s : state) : result exn state :=
  match NS3_ENABLED_MODULES (env s) with
  | [] => Ok s
  | modules =>
      '(b, modules) ← complete (ctx s) modules;
      let e := set_enabled modules (env s) in
      let e := if ENABLE_TESTS e then
                 foldl (λ e (ml : string * string),
                          if decide (ml.1 ∈ NS3_ENABLED_MODULES e) then add_test_library ml.2 e else e)
                   e (NS3_MODULES_WITH_TEST_LIBRARIES e)
               else e in
      Ok (State b e (all_modules s))
  end.

(** ** Examples and scratch programs *)

(** A directory as [os.listdir] lists it, and which entries are directories. *)
Definition hidden (name : string) : bool := startswith "." name || bool_decide (name = "CVS").

Definition add_examples_programs (examples : list (string * bool)) (s : state) : state :=
  if ENABLE_EXAMPLES (env s) then
    foldl (λ s (de : string * bool),
             if hidden de.1 then s
             else if de.2 then add_subdirs (path_join "examples" de.1) s else s) s examples
  else s.

Definition strip_ns3 (m : string) : string := str_drop 4 m.

Definition scratch_program (modules : list string) (s : state) (de : string * bool) : state :=
  if hidden de.1 then s
  else if de.2 then create_ns3_program de.1 modules s
  else if endswith ".cc" de.1 then
    create_ns3_program (String.substring 0 (String.length de.1 - 3) de.1) modules s
  else s.

Definition add_scratch_programs (scratch : list (string * bool)) (s : state) : state :=
  foldl (scratch_program (strip_ns3 <$> NS3_ENABLED_MODULES (env s))) s scratch.

(** ** What is taken out of the build *)
Definition set_mode (m : string) (g : task_gen) : task_gen :=
  TaskGen (tg_name g) (features g) (tg_module g) (use g) (ns3_module_dependencies g)
    (is_ns3_module g) (test_library_of g) (headers g) (Some m).

Definition header_of_disabled (feature : string) (modules : list string) (g : task_gen) :
    result exn bool :=
  if decide (feature ∈ features g) then
    module ← of_option AttributeError (tg_module g);
    Ok (bool_decide ("ns3-" +:+ module ∉ modules))
  else Ok false.

(** The body of the loop over all generators, for the one at [i]. *)
Definition filter_gen (modules : list string) (s : state) (i : nat) : result exn state :=
  match gens (ctx s) !! i with
  | None => Ok s
  | Some g =>
      gone ← header_of_disabled "ns3moduleheader" modules g;
      let s := if gone : bool then on_ctx (set_gen (set_mode "remove") i) s else s in
      let s := match ns3_module_dependencies g with
               | Some deps =>
                   if decide (Forall (.∈ modules) deps)
                   then on_env (add_runnable_program (tg_name g)) s
                   else on_ctx (_exclude_taskgen i) s
               | None => s
               end in
      let s := if decide (is_ns3_module g = true ∧ tg_name g ∉ modules)
               then on_ctx (_exclude_taskgen i) s else s in
      let s := match test_library_of g with
               | Some m =>
                   if decide (ENABLE_TESTS (env s) = false ∨ m ∉ modules)
                   then on_ctx (_exclude_taskgen i) s else s
               | None => s
               end in
      gone ← header_of_disabled "ns3header" modules g;
      Ok (if gone : bool then on_ctx (set_gen (set_mode "remove") i) s else s)
  end.

(** The loop runs over a copy of the list of generators. *)
Definition filter_gens (s : state) : result exn state :=
  match NS3_ENABLED_MODULES (env s) with
  | [] => Ok s
  | modules => fold_res (filter_gen modules) s (_get_all_task_gen (ctx s))
  end.

(** ** Scripts and the programs of [utils] *)

(** [modules] is only assigned when some module is enabled. *)
Definition runnable (modules : option (list string)) (dependencies : list string) :
    result exn bool :=
  match dependencies, modules with
  | [], _ => Ok true
  | _, Some modules => Ok (bool_decide (Forall (.∈ modules) dependencies))
  | _, None => Raise UnboundLocalError
  end.

Definition runnable_scripts (s : state) : result exn state :=
  let modules := match NS3_ENABLED_MODULES (env s) with [] => None | l => Some l end in
  e ← fold_res (λ e (sd : string * list string),
                  ok ← runnable modules sd.2;
                  Ok (if ok : bool then add_runnable_script sd.1 e else e))
        (env s) (NS3_SCRIPT_DEPENDENCIES (env s));
  Ok (State (ctx s) e (all_modules s)).

Definition set_use (l : list string) (g : task_gen) : task_gen :=
  TaskGen (tg_name g) (features g) (tg_module g) (Some l) (ns3_module_dependencies g)
    (is_ns3_module g) (test_library_of g) (headers g) (mode g).

(** [build] of [utils/wscript]. *)
Definition build_utils (s : state) : state :=
  let e := env s in
  let i := length (gens (ctx s)) in
  let s := create_ns3_program "test-runner" ["core"] s in
  let s := on_ctx (set_gen (set_use (NS3_ENABLED_MODULES e ++ NS3_ENABLED_MODULE_TEST_LIBRARIES e)) i) s in
  let s := create_ns3_program "bench-simulator" ["core"] s in
  if decide ("ns3-network" ∈ NS3_ENABLED_MODULES e) then
    let s := create_ns3_program "bench-packets" ["network"] s in
    let i := length (gens (ctx s)) in
    let s := create_ns3_program "print-introspected-doxygen" ["network"] s in
    on_ctx (set_gen (set_use (NS3_ENABLED_MODULES e)) i) s
  else s.

(** [build], where the option [--enable-modules], which belongs to the
    configuration, stops it with a warning. *)
Definition build (option_enable_modules : bool) (examples scratch : list (string * bool))
    (s : state) : result exn state :=
  if option_enable_modules then Ok s
  else
    let s := on_env reset_lists s in
    let s := build_src s in
    s ← enable_modules s;
    let s := add_scratch_programs scratch (add_examples_programs examples s) in
    s ← filter_gens s;
    s ← runnable_scripts s;
    Ok (build_utils (add_subdirs "bindings/python" s)).

(** ** [apply_ns3moduleheader]

    The task that writes the header of a module, or removes it; a node is the
    name of its file.  [self] is the generator. *)
Record header_task := HeaderTask { ht_module : string; ht_mode : string; ht_inputs : list string;
  ht_header : string }.

Definition module_headers (module : string) (b : context) : bool * list string :=
  foldl (λ fh i,
           match gens b !! i with
           | Some g => if decide ("ns3header" ∈ features g ∧ tg_module g = Some module)
                       then (true, fh.2 ++ (basename <$> headers g)) else fh
           | None => fh
           end) (false, []) (_get_all_task_gen b).

Definition apply_ns3moduleheader (self : task_gen) (b : context) :
    result exn (context * option header_task) :=
  module ← of_option AttributeError (tg_module self);
  let '(found_the_module, all_headers_inputs) := module_headers module b in
  if negb found_the_module then
    Raise (WafError ("error finding headers for module " +:+ module))
  else match all_headers_inputs with
  | [] => Ok (b, None)
  | _ =>
      match get_tgen_by_name ("ns3-" +:+ module) b with
      | Raise (WafError _) => Ok (b, None)
      | Raise e => Raise e
      | Ok (b, _) =>
          Ok (b, Some (HeaderTask module (default "install" (mode self)) all_headers_inputs
                         (module +:+ "-module.h")))
      end
  end.
End build.
