(* ===== verification/WscriptModules.v ===== *)
(** * The enabled modules of a build

    [Wscript.complete] adds to the modules selected in the configuration what
    they depend on, in a list that grows under the loop that visits it.  Here:
    it ends, and its result is the closure of the selection. *)

From S2P Require Import Prelude PyStr Ns3rc Wscript.

Local Open Scope string_scope.
Local Open Scope list_scope.
Local Open Scope nat_scope.

(** ** What a module uses *)

(** The generator that a name stands for, whatever is cached. *)
Definition lookup_gen (b : context) (m : string) : option nat := fill_cache b !! m.

Definition uses_of (b : context) (m : string) : result exn (list string) :=
  match lookup_gen b m with
  | Some o => of_option AttributeError (gens b !! o ≫= use)
  | None => Raise (WafError ("Could not find a task generator for the name '" +:+ m +:+ "'"))
  end.

Definition is_ns3 (d : string) : bool := startswith "ns3-" d.

(** One module depends on another. *)
Definition depends (b : context) (m d : string) : Prop :=
  ∃ uses, uses_of b m = Ok uses ∧ d ∈ uses ∧ is_ns3 d = true.

Definition reachable (b : context) (selected : list string) (m : string) : Prop :=
  ∃ r, r ∈ selected ∧ rtc (depends b) r m.

(** [b'] is [b], its names cached or not. *)
Definition same (b b' : context) : Prop :=
  gens b' = gens b ∧ groups b' = groups b ∧ current_group b' = current_group b ∧
  (task_gen_cache_names b' = ∅ ∨ task_gen_cache_names b' = fill_cache b).

Lemma get_tgen_same b b' m :
  same b b' →
  get_tgen_by_name m b' =
    match lookup_gen b m with
    | Some o => Ok (BuildContext (gens b) (groups b) (current_group b) (fill_cache b), o)
    | None => Raise (WafError ("Could not find a task generator for the name '" +:+ m +:+ "'"))
    end.
Proof.
  destruct b' as [gs grs cur cache]. intros (Hg & Hgr & Hc & Hcache). cbn in *. subst.
  unfold get_tgen_by_name, lookup_gen. cbn [gens groups current_group task_gen_cache_names].
  assert ((if decide (cache = ∅) then fill_cache (BuildContext (gens b) (groups b) (current_group b) cache)
           else cache) = fill_cache b) as ->; [|done].
  case_decide as Hd; [done|]. by destruct Hcache.
Qed.

Lemma same_cached b : same b (BuildContext (gens b) (groups b) (current_group b) (fill_cache b)).
Proof. split_and!; [done..|by right]. Qed.

(** ** One round over the list *)
Section closure.
Context (b : context) (selected : list string).

(** Everything that some generator uses. *)
Definition universe : list string := gens b ≫= λ g, default [] (use g).

Lemma uses_universe m uses : uses_of b m = Ok uses → uses ⊆ universe.
Proof.
  unfold uses_of. destruct (lookup_gen b m) as [o|]; [|done].
  destruct (gens b !! o) as [g|] eqn:Eg; [|done]. cbn. destruct (use g) as [u|] eqn:Eu; [|done].
  intros [= <-] d Hd. apply list_elem_of_bind. exists g. rewrite Eu.
  split; [done|]. by eapply list_elem_of_lookup_2.
Qed.

Lemma add_deps_spec uses ms ch :
  ∃ new, foldl add_dep (ms, ch) uses = (ms ++ new, ch || bool_decide (new ≠ [])) ∧
    NoDup new ∧ (∀ d, d ∈ new → d ∈ uses ∧ is_ns3 d = true ∧ d ∉ ms) ∧
    (∀ d, d ∈ uses → is_ns3 d = true → d ∈ ms ++ new).
Proof.
  revert ms ch. induction uses as [|u uses IH]; intros ms ch; cbn [foldl].
  { exists []. rewrite app_nil_r, bool_decide_eq_false_2, orb_false_r by naive_solver.
    split_and!; [done|constructor|by intros d ?%elem_of_nil..]. }
  unfold add_dep at 2. fold (is_ns3 u). destruct (is_ns3 u) eqn:Eu; cbn [negb].
  - destruct (decide (u ∈ ms)) as [Hin|Hin].
    + destruct (IH ms ch) as (new & -> & Hnd & Hnew & Hall). exists new.
      split_and!; [done|done|set_solver|]. intros d [->|Hd]%elem_of_cons Hns; set_solver.
    + destruct (IH (ms ++ [u]) true) as (new & -> & Hnd & Hnew & Hall). exists (u :: new).
      rewrite <- app_assoc in *. cbn [app] in *. split_and!.
      * rewrite (bool_decide_eq_true_2 (u :: new ≠ [])) by done. by rewrite orb_true_r.
      * constructor; [|done]. intros Hu. apply Hnew in Hu. set_solver.
      * intros d [->|Hd]%elem_of_cons; [set_solver|]. apply Hnew in Hd. set_solver.
      * intros d [->|Hd]%elem_of_cons Hns; [set_solver|]. by apply Hall.
  - destruct (IH ms ch) as (new & -> & Hnd & Hnew & Hall). exists new.
    split_and!; [done|done|set_solver|]. intros d [->|Hd]%elem_of_cons Hns; [congruence|set_solver].
Qed.

(** What holds of the list at any time. *)
Record completed (ms : list string) (added : list string) : Prop := {
  completed_app : ms = selected ++ added;
  completed_nodup : NoDup added;
  completed_new : ∀ d, d ∈ added → d ∉ selected ∧ d ∈ universe;
  completed_reachable : ∀ m, m ∈ ms → reachable b selected m }.

Lemma completed_start : completed selected [].
Proof.
  split; [by rewrite app_nil_r|constructor|set_solver|].
  intros m Hm. exists m. split; [done|apply rtc_refl].
Qed.

Lemma completed_length ms added :
  completed ms added → length ms ≤ length selected + length universe.
Proof.
  intros [-> Hnd Hnew _]. rewrite length_app. apply Nat.add_le_mono_l.
  apply submseteq_length. apply NoDup_submseteq; [done|]. intros d Hd. by apply Hnew.
Qed.

Lemma completed_step ms added m uses new ch ch' :
  completed ms added → m ∈ ms → uses_of b m = Ok uses →
  foldl add_dep (ms, ch) uses = (ms ++ new, ch') →
  NoDup new → (∀ d, d ∈ new → d ∈ uses ∧ is_ns3 d = true ∧ d ∉ ms) →
  completed (ms ++ new) (added ++ new).
Proof.
  intros [-> Hnd Hnew Hr] Hm Hu _ Hnd' Hn. split.
  - by rewrite app_assoc.
  - apply NoDup_app. split_and!; [done| |done]. intros d Hd Hd'. apply Hn in Hd'. set_solver.
  - intros d [Hd|Hd]%elem_of_app; [by apply Hnew|]. destruct (Hn d Hd) as (Hdu & _ & Hdm).
    split; [set_solver|]. by apply (uses_universe m uses).
  - intros d [Hd|Hd]%elem_of_app; [by apply Hr|]. destruct (Hn d Hd) as (Hdu & Hns & _).
    destruct (Hr m Hm) as (r & Hrs & Hrtc). exists r. split; [done|].
    eapply rtc_r; [done|]. by exists uses.
Qed.

(** The dependencies of a module are in the list. *)
Definition closed_at (ms : list string) (m : string) : Prop :=
  ∃ uses, uses_of b m = Ok uses ∧ ∀ d, d ∈ uses → is_ns3 d = true → d ∈ ms.

Lemma visit_spec fuel b' ms added i ch :
  same b b' → completed ms added → i ≤ length ms →
  length selected + length universe < fuel + i →
  match visit_modules fuel b' ms i ch with
  | Ok (b'', ms', ch') => same b b'' ∧ ∃ new, completed ms' (added ++ new) ∧ ms' = ms ++ new ∧
      ch' = ch || bool_decide (new ≠ []) ∧
      ∀ j m, i ≤ j → ms' !! j = Some m → closed_at ms' m
  | Raise e => ∃ m, reachable b selected m ∧ uses_of b m = Raise e
  end.
Proof.
  revert b' ms added i ch. induction fuel as [|fuel IH]; intros b' ms added i ch Hb Hc Hi Hf.
  { apply completed_length in Hc. lia. }
  cbn [visit_modules]. destruct (ms !! i) as [m|] eqn:Em.
  2: { split; [done|]. exists []. rewrite !app_nil_r, bool_decide_eq_false_2, orb_false_r by naive_solver.
       split_and!; [done|done|done|]. intros j m Hj Hm.
       apply lookup_lt_Some in Hm. apply lookup_ge_None in Em. lia. }
  assert (m ∈ ms) as Hm by by eapply list_elem_of_lookup_2.
  rewrite (get_tgen_same b) by done. pose proof (eq_refl (uses_of b m)) as Hu. unfold uses_of at 1 in Hu.
  destruct (lookup_gen b m) as [o|].
  2: { exists m. split; [by apply (completed_reachable _ _ Hc)|done]. }
  cbn [mbind result_bind]. cbn [gens]. destruct (gens b !! o ≫= use) as [uses|] eqn:Euse.
  2: { exists m. split; [by apply (completed_reachable _ _ Hc)|done]. }
  cbn [of_option mbind result_bind] in *. symmetry in Hu.
  destruct (add_deps_spec uses ms ch) as (new & Hfold & Hnd & Hnew & Hall).
  rewrite Hfold. pose proof (completed_step _ _ _ _ _ _ _ Hc Hm Hu Hfold Hnd Hnew) as Hc'.
  specialize (IH _ _ _ (S i) (ch || bool_decide (new ≠ [])) (same_cached b) Hc').
  apply lookup_lt_Some in Em as Hlt.
  specialize (IH ltac:(rewrite length_app; lia) ltac:(lia)).
  destruct (visit_modules _ _ _ _ _) as [[[b'' ms'] ch']|e]; [|done].
  destruct IH as (Hb'' & new' & Hc'' & -> & -> & Hcl). split; [done|].
  exists (new ++ new'). rewrite <- !app_assoc in *. split_and!; [done|done| |].
  - rewrite <- orb_assoc. f_equal. destruct new; [done|]. destruct new'; done.
  - intros j x Hj Hx. destruct (decide (j = i)) as [->|Hne]; [|apply (Hcl j); [lia|done]].
    rewrite lookup_app_l in Hx by done. rewrite Em in Hx. injection Hx as <-.
    exists uses. split; [done|]. intros d Hd Hns. rewrite app_assoc. apply elem_of_app. left. by apply Hall.
Qed.

Lemma add_deps_closed uses ms ch :
  (∀ d, d ∈ uses → is_ns3 d = true → d ∈ ms) → foldl add_dep (ms, ch) uses = (ms, ch).
Proof.
  intros Hall. destruct (add_deps_spec uses ms ch) as (new & -> & _ & Hnew & _).
  destruct new as [|d new]; [|set_solver].
  by rewrite app_nil_r, bool_decide_eq_false_2, orb_false_r by naive_solver.
Qed.

Lemma visit_closed fuel b' ms i :
  same b b' → (∀ m, m ∈ ms → closed_at ms m) → i ≤ length ms → length ms < fuel + i →
  ∃ b'', same b b'' ∧ visit_modules fuel b' ms i false = Ok (b'', ms, false).
Proof.
  revert b' i. induction fuel as [|fuel IH]; intros b' i Hb Hcl Hi Hf; [lia|].
  cbn [visit_modules]. destruct (ms !! i) as [m|] eqn:Em; [|by exists b'].
  destruct (Hcl m) as (uses & Hu & Hall); [by eapply list_elem_of_lookup_2|].
  rewrite (get_tgen_same b) by done. unfold uses_of in Hu.
  destruct (lookup_gen b m) as [o|]; [|done]. cbn [mbind result_bind gens].
  destruct (gens b !! o ≫= use) as [uses'|]; [|done]. cbn [of_option mbind result_bind] in *. injection Hu as ->.
  rewrite add_deps_closed by done. apply lookup_lt_Some in Em.
  apply IH; [apply same_cached|done|lia|lia].
Qed.

Lemma closed_reachable ms added m :
  completed ms added → (∀ m, m ∈ ms → closed_at ms m) → reachable b selected m → m ∈ ms.
Proof.
  intros [-> _ _ _] Hcl (r & Hr & Hrtc).
  assert (r ∈ selected ++ added) as Hin by set_solver. clear Hr.
  induction Hrtc as [|x y z (uses & Hu & Hd & Hns) _ IH]; [done|]. apply IH.
  destruct (Hcl x Hin) as (uses' & Hu' & Hall). rewrite Hu in Hu'. injection Hu' as <-.
  by apply Hall.
Qed.

Lemma complete_result b' :
  same b b' →
  match complete b' selected with
  | Ok (b'', ms) => same b b'' ∧ ∃ added, completed ms added ∧ ∀ m, m ∈ ms → closed_at ms m
  | Raise e => ∃ m, reachable b selected m ∧ uses_of b m = Raise e
  end.
Proof.
  intros Hb. unfold complete, visit_fuel. replace (gens b') with (gens b) by (by destruct Hb).
  fold universe. remember (length selected + length universe) as n eqn:Hn.
  cbn [complete_modules].
  pose proof (visit_spec (S n) b' selected [] 0 false Hb completed_start) as Hv.
  specialize (Hv ltac:(lia) ltac:(lia)).
  destruct (visit_modules (S n) b' selected 0 false) as [[[b1 ms] ch]|e]; [|done].
  destruct Hv as (Hb1 & new & Hc & Hms & -> & Hcl). cbn [app] in Hc.
  assert (∀ m, m ∈ ms → closed_at ms m) as Hcl'.
  { intros m [j Hj]%list_elem_of_lookup. apply (Hcl j m); [lia|done]. }
  cbn [orb mbind result_bind]. case_bool_decide as Hnew; [|split; [done|by exists new]].
  assert (∃ k, n = S k) as [k ->].
  { destruct n as [|k] eqn:En; [|by exists k]. destruct new as [|d new]; [done|].
    pose proof (completed_length _ _ Hc) as Hl. rewrite Hms, length_app in Hl.
    cbn [length] in Hl. lia. }
  cbn [complete_modules].
  destruct (visit_closed (S (S k)) b1 ms 0 Hb1 Hcl') as (b2 & Hb2 & ->); [lia| |].
  { pose proof (completed_length _ _ Hc). lia. }
  split; [done|]. by exists new.
Qed.
End closure.

(** C24: completing the selected modules always ends.  The modules enabled are
    then exactly those that a selected one depends on, directly or not; the
    selection comes first and in its order, nothing is added twice, and every
    module enabled has a generator whose libraries of the simulator are enabled
    too.  It fails only with the error of a module that is needed and has no
    generator, or one that is no module, program or library. *)
Theorem enabled_modules_closure b selected :
  task_gen_cache_names b = ∅ →
  match complete b selected with
  | Ok (_, ms) =>
      (∀ m, m ∈ ms ↔ reachable b selected m) ∧
      (NoDup selected → NoDup ms) ∧ selected `prefix_of` ms ∧
      (∀ m, m ∈ ms → ∃ uses, uses_of b m = Ok uses ∧ filter (λ d, is_ns3 d = true) uses ⊆ ms)
  | Raise e => e ≠ Diverges ∧ ∃ m, reachable b selected m ∧ uses_of b m = Raise e
  end.
Proof.
  intros Hcache. assert (same b b) as Hb by (split_and!; [done..|by left]).
  pose proof (complete_result b selected b Hb) as Hc.
  destruct (complete b selected) as [[b' ms]|e].
  - destruct Hc as (_ & added & Hc & Hcl). split_and!.
    + intros m. split; [apply (completed_reachable _ _ _ _ Hc)|by eapply closed_reachable].
    + intros Hnd. destruct Hc as [-> Ha Hn _]. apply NoDup_app. split_and!; [done| |done].
      intros x Hx Hx'. by destruct (Hn x Hx').
    + destruct Hc as [-> _ _ _]. by exists added.
    + intros m Hm. destruct (Hcl m Hm) as (uses & Hu & Hall). exists uses. split; [done|].
      intros d [Hns Hd]%list_elem_of_filter. by apply Hall.
  - split; [|done]. destruct Hc as (m & _ & Hu). intros ->. unfold uses_of in Hu.
    destruct (lookup_gen b m) as [o|]; [|done]. by destruct (gens b !! o ≫= use).
Qed.

(** ** A small tree *)
Definition sample_scripts (dir : string) : list declaration :=
  if decide (dir = "src/core") then
    [Module "core" [] ["RT"]; TestLibrary "core" ["RT"]; Headers "core" ["model/object.h"];
     PythonModule "core" false]
  else if decide (dir = "src/network") then
    [Module "network" ["core"] []; TestLibrary "network" []; Headers "network" ["model/node.h"];
     PythonModule "network" true]
  else if decide (dir = "src/wifi") then
    [Module "wifi" ["network"] []; Headers "wifi" ["model/wifi-phy.h"]; SuidProgram "tap-creator"]
  else if decide (dir = "src/loop") then [Module "loop" ["loop"; "missing"] []]
  else if decide (dir = "examples/tutorial") then
    [Program "first" ["core"; "network"]; Script "first.py" ["core"];
     Program "wifi-ap" ["wifi"]; Script "wifi-ap.py" ["core"; "wifi"]]
  else if decide (dir = "bindings/python") then [Other "" ["command"] None]
  else [].

Definition sample_state (selected modules : list string) : state :=
  State empty_context (Environment true true selected [] [] [] [] [] []) modules.

Definition sample_tree (modules : list string) : context :=
  ctx (build_src false sample_scripts (sample_state [] modules)).

Lemma enabled_modules_closure_witness :
  ∃ b ms, complete (sample_tree ["core"; "network"; "wifi"]) ["ns3-network"] = Ok (b, ms) ∧
    ms = ["ns3-network"; "ns3-core"] ∧
    ∀ m, m ∈ ms ↔ reachable (sample_tree ["core"; "network"; "wifi"]) ["ns3-network"] m.
Proof.
  pose proof (enabled_modules_closure (sample_tree ["core"; "network"; "wifi"]) ["ns3-network"]) as H.
  destruct (complete (sample_tree ["core"; "network"; "wifi"]) ["ns3-network"]) as [[b ms]|] eqn:E.
  - assert (ms = ["ns3-network"; "ns3-core"]) as -> by (vm_compute in E; by injection E).
    do 2 eexists. split; [reflexivity|]. split; [reflexivity|]. apply H. reflexivity.
  - exfalso. vm_compute in E. discriminate.
Defined.

(** A dependency that no script declares stops the build. *)
Lemma missing_dependency :
  complete (sample_tree ["core"; "loop"]) ["ns3-core"; "ns3-loop"] =
    Raise (WafError "Could not find a task generator for the name 'ns3-missing'").
Proof. vm_compute. reflexivity. Qed.

(** ** The configuration *)

(** The list of enabled modules is replaced in place. *)
Definition with_enabled (l : list string) (c : conf_modules) : conf_modules :=
  match enabled c with
  | Shared => ConfModules l Shared
  | Own _ => ConfModules (NS3_MODULES c) (Own l)
  end.

Lemma remove_enabled_with name c :
  remove_enabled name c = with_enabled (list_remove name (enabled_of c)) c.
Proof. unfold remove_enabled, with_enabled, enabled_of. by destruct (enabled c). Qed.

Lemma enabled_with l c : enabled_of (with_enabled l c) = l.
Proof. unfold with_enabled, enabled_of. by destruct (enabled c). Qed.

Lemma with_with l l' c : with_enabled l (with_enabled l' c) = with_enabled l c.
Proof. unfold with_enabled. by destruct (enabled c). Qed.

Lemma with_self c : with_enabled (enabled_of c) c = c.
Proof. unfold with_enabled, enabled_of. by destruct c as [ms []]. Qed.

Lemma list_remove_neq (x : string) l : NoDup l → list_remove x l = filter (.≠ x) l.
Proof.
  induction 1 as [|y l Hy Hnd IH]; [done|]. cbn [list_remove]. rewrite filter_cons.
  destruct (decide (y = x)) as [->|Hne].
  - rewrite decide_False by naive_solver. symmetry. apply filter_all, Forall_forall. naive_solver.
  - rewrite decide_True by done. by rewrite IH.
Qed.

Lemma remove_not_built_eq c n :
  let name := "ns3-" +:+ n in
  let rest := list_remove name (enabled_of c) in
  remove_not_built c n =
    if decide (name ∈ enabled_of c) then
      if decide (rest = []) then
        Raise (WafError ("Exiting because the " +:+ n +:+
                 " module can not be built and it was the only one enabled."))
      else Ok (with_enabled rest c)
    else Ok c.
Proof. cbn zeta. unfold remove_not_built. by rewrite remove_enabled_with, enabled_with. Qed.

Lemma remove_all_spec not_built c :
  NoDup (enabled_of c) → enabled_of c ≠ [] →
  let left := filter (λ m, m ∉ prefixed not_built) (enabled_of c) in
  if decide (left = []) then ∃ msg, fold_res remove_not_built c not_built = Raise (WafError msg)
  else fold_res remove_not_built c not_built = Ok (with_enabled left c).
Proof.
  revert c. induction not_built as [|n ns IH]; intros c Hnd Hne left; unfold left; clear left.
  { cbn [fold_res prefixed fmap list_fmap]. rewrite filter_all; [|apply Forall_forall; set_solver].
    rewrite decide_False by done. by rewrite with_self. }
  cbn [fold_res]. rewrite remove_not_built_eq. set (name := "ns3-" +:+ n).
  assert (filter (λ m, m ∉ prefixed (n :: ns)) (enabled_of c) =
          filter (λ m, m ∉ prefixed ns) (filter (.≠ name) (enabled_of c))) as Hf.
  { rewrite list_filter_filter. apply list_filter_iff. intros x. unfold prefixed.
    rewrite fmap_cons, not_elem_of_cons. unfold name. naive_solver. }
  destruct (decide (name ∈ enabled_of c)) as [Hin|Hin].
  - rewrite list_remove_neq, Hf by done.
    destruct (decide (filter (.≠ name) (enabled_of c) = [])) as [Hnil|Hnil].
    + rewrite Hnil. cbn. by eexists.
    + cbn [mbind result_bind].
      specialize (IH (with_enabled (filter (.≠ name) (enabled_of c)) c)).
      cbn zeta in IH. rewrite !enabled_with, with_with in IH. apply IH; [by apply NoDup_filter|done].
  - cbn [mbind result_bind]. rewrite Hf.
    rewrite (filter_all (.≠ name) (enabled_of c)) by (apply Forall_forall; naive_solver).
    by apply IH.
Qed.

(** the configuration enables the modules of [--enable-modules] or else
    those of [.ns3rc], without the ones that cannot be built, in their order;
    when none is left it stops.  When all modules are enabled the list is the
    list of all modules itself, which then loses the same ones. *)
Theorem configure_modules_spec modules option config not_built c :
  select_modules modules option config = Ok c → NoDup (enabled_of c) → enabled_of c ≠ [] →
  let left := filter (λ m, m ∉ prefixed not_built) (enabled_of c) in
  if decide (left = []) then
    ∃ msg, configure_modules modules option config not_built = Raise (WafError msg)
  else ∃ c', configure_modules modules option config not_built = Ok c' ∧ enabled_of c' = left ∧
    NS3_MODULES c' = match enabled c with Shared => left | Own _ => prefixed (basename <$> modules) end.
Proof.
  intros Hs Hnd Hne. cbn zeta. unfold configure_modules. rewrite Hs. cbn [mbind result_bind].
  assert (NS3_MODULES c = prefixed (basename <$> modules)) as Hall.
  { unfold select_modules in Hs. destruct (decide _).
    - destruct (head _); [|done]. by injection Hs as <-.
    - by injection Hs as <-. }
  pose proof (remove_all_spec not_built c Hnd Hne) as Hr. cbn zeta in Hr.
  destruct (decide _); [done|]. eexists. split; [exact Hr|]. split; [apply enabled_with|].
  unfold with_enabled. by destruct (enabled c).
Qed.

Lemma configure_modules_spec_witness :
  let config := Config false ["all_modules"] false false in
  let left := filter (λ m, m ∉ prefixed ["wifi"]) ["ns3-core"; "ns3-wifi"] in
  if decide (left = []) then
    ∃ msg, configure_modules ["core"; "wifi"] None config ["wifi"] = Raise (WafError msg)
  else ∃ c', configure_modules ["core"; "wifi"] None config ["wifi"] = Ok c' ∧ enabled_of c' = left ∧
    NS3_MODULES c' = left.
Proof.
  apply (configure_modules_spec ["core"; "wifi"] None (Config false ["all_modules"] false false)
    ["wifi"] (ConfModules ["ns3-core"; "ns3-wifi"] Shared)); [reflexivity| |discriminate].
  apply (bool_decide_eq_true_1 _). vm_compute. reflexivity.
Defined.

(** The text of a check always ends in dots, however short the flag. *)
Lemma flag_message_dots :
  flag_message ["-Wall"] = "Checking for compilation flag -Wall... support".
Proof. reflexivity. Qed.
