(* ===== verification/WscriptBuild.v ===== *)
(** * What a build keeps

    The generators of disabled modules, of their test libraries and of the
    programs that need them are taken out of the build.  Here: the loop over all
    generators does exactly that, and nothing that is kept needs a library that
    is not, but for [bench-simulator]. *)

From S2P Require Import Prelude PyStr Ns3rc Wscript WscriptModules.

Local Open Scope string_scope.
Local Open Scope list_scope.
Local Open Scope nat_scope.

Abbreviation all_ids := _get_all_task_gen.

(** ** How the scripts make the build grow *)

(** The attributes go together: a module is no program and no test library,
    and a test library uses its module. *)
Record gen_ok (g : task_gen) : Prop := {
  gen_module : is_ns3_module g = true →
    ns3_module_dependencies g = None ∧ test_library_of g = None;
  gen_library : ∀ m, test_library_of g = Some m →
    ns3_module_dependencies g = None ∧ ∃ extra, use g = Some (m :: extra);
  gen_program : ∀ deps, ns3_module_dependencies g = Some deps → use g = Some deps }.

(** What a script adds to a test library, and what its other generators use, are
    no libraries of the simulator. *)
Definition foreign (uses : list string) : Prop := Forall (λ u, is_ns3 u = false) uses.

Definition foreign_uses (d : declaration) : Prop :=
  match d with
  | TestLibrary _ extra => foreign extra
  | Other _ _ (Some uses) => foreign uses
  | _ => True
  end.

Definition foreign_scripts (scripts : string → list declaration) : Prop :=
  ∀ dir, Forall foreign_uses (scripts dir).

(** What a generator that is neither a module nor a program uses of the
    simulator: its module, or what is in [enabled]. *)
Record uses_ok (enabled : list string) (g : task_gen) : Prop := {
  library_uses m extra : test_library_of g = Some m → use g = Some (m :: extra) → foreign extra;
  other_uses uses u : is_ns3_module g = false → test_library_of g = None →
    ns3_module_dependencies g = None → use g = Some uses → u ∈ uses → is_ns3 u = true →
    u ∈ enabled }.

Definition declared_ok (scripts : string → list declaration) (enabled : list string)
    (g : task_gen) : Prop :=
  gen_ok g ∧ (foreign_scripts scripts → uses_ok enabled g).

Definition cur_ok (b : context) : Prop := current_group b < Nat.max 1 (length (groups b)).

(** Every library listed has a generator. *)
Definition libs_ok (s : state) : Prop :=
  ∀ m l, (m, l) ∈ NS3_MODULES_WITH_TEST_LIBRARIES (env s) →
    ∃ g, g ∈ gens (ctx s) ∧ tg_name g = l ∧ test_library_of g = Some m.

(** What the declarations leave alone in the environment. *)
Definition same_lists (e e' : environment) : Prop :=
  ENABLE_TESTS e' = ENABLE_TESTS e ∧ NS3_ENABLED_MODULES e' = NS3_ENABLED_MODULES e ∧
  NS3_ENABLED_MODULE_TEST_LIBRARIES e' = NS3_ENABLED_MODULE_TEST_LIBRARIES e ∧
  NS3_RUNNABLE_PROGRAMS e' = NS3_RUNNABLE_PROGRAMS e ∧
  NS3_RUNNABLE_SCRIPTS e' = NS3_RUNNABLE_SCRIPTS e.

(** New generators join the groups, and those before stay what and where they
    are. *)
Record grows (P : task_gen → Prop) (s s' : state) (new : list task_gen) : Prop := {
  grows_gens : gens (ctx s') = gens (ctx s) ++ new;
  grows_ok : Forall P new;
  grows_all : cur_ok (ctx s) → cur_ok (ctx s') ∧
    all_ids (ctx s') ≡ₚ all_ids (ctx s) ++ seq (length (gens (ctx s))) (length new);
  grows_cache : task_gen_cache_names (ctx s) = ∅ → task_gen_cache_names (ctx s') = ∅;
  grows_lists : same_lists (env s) (env s');
  grows_libs : libs_ok s → libs_ok s' }.

Lemma build_grows_refl P s : grows P s s [].
Proof.
  split; [by rewrite app_nil_r|done| |done|by repeat split|done].
  intros H. cbn. by rewrite app_nil_r.
Qed.

Lemma build_grows_trans P s s1 s2 n1 n2 :
  grows P s s1 n1 → grows P s1 s2 n2 → grows P s s2 (n1 ++ n2).
Proof.
  intros [Hg Hok Ha Hc Hl Hlib] [Hg' Hok' Ha' Hc' Hl' Hlib']. split.
  - by rewrite Hg', Hg, <- app_assoc.
  - by apply Forall_app.
  - intros Hcur. destruct (Ha Hcur) as [Hcur1 HA]. destruct (Ha' Hcur1) as [Hcur2 HA'].
    split; [done|]. rewrite HA', HA, Hg, !length_app, seq_app, <- app_assoc. done.
  - auto.
  - destruct Hl as (?&?&?&?&?), Hl' as (?&?&?&?&?). repeat split; congruence.
  - auto.
Qed.

Lemma grows_enabled P s s' new :
  grows P s s' new → NS3_ENABLED_MODULES (env s') = NS3_ENABLED_MODULES (env s).
Proof. intros [_ _ _ _ Hl _]. apply Hl. Qed.

(** A loop whose turns grow the build, with some list of modules enabled. *)
Lemma grows_fold P {A} (f : state → A → state) (l : list A) enabled s :
  NS3_ENABLED_MODULES (env s) = enabled →
  (∀ s x, x ∈ l → NS3_ENABLED_MODULES (env s) = enabled → ∃ new, grows P s (f s x) new) →
  ∃ new, grows P s (foldl f s l) new.
Proof.
  revert s. induction l as [|x l IH]; intros s He Hf; cbn [foldl].
  { eexists. apply build_grows_refl. }
  destruct (Hf s x) as [n1 H1]; [by left|done|].
  destruct (IH (f s x)) as [n2 H2]; [by rewrite (grows_enabled _ _ _ _ H1)| |].
  { intros. apply Hf; [by right|done]. }
  eexists. by eapply build_grows_trans.
Qed.

Lemma join_alter (i c : nat) (gs : list (list nat)) :
  c < length gs → mjoin (alter (λ g, g ++ [i]) c gs) ≡ₚ mjoin gs ++ [i].
Proof.
  revert c. induction gs as [|g gs IH]; intros c Hc; cbn [length] in Hc; [lia|].
  destruct c as [|c]; cbn.
  - rewrite <- !app_assoc. f_equiv. apply Permutation_app_comm.
  - rewrite <- app_assoc. f_equiv. apply IH. lia.
Qed.

Lemma add_to_group_all i b :
  cur_ok b → cur_ok (add_to_group i b) ∧ all_ids (add_to_group i b) ≡ₚ all_ids b ++ [i].
Proof.
  unfold add_to_group, all_ids, cur_ok. intros Hcur.
  destruct (groups b) as [|g gs] eqn:E; cbn [groups current_group add_group].
  - rewrite E. split; [cbn; lia|done].
  - rewrite E. cbn [groups current_group length] in *. split.
    + rewrite length_alter. cbn [length]. lia.
    + apply join_alter. cbn [length]. lia.
Qed.

Lemma new_gen_grows (P : task_gen → Prop) g s : P g → grows P s (on_ctx (new_task_gen g) s) [g].
Proof.
  intros Hg. split; [| | | |by repeat split|].
  - unfold on_ctx, new_task_gen, add_to_group. cbn [ctx]. by destruct (groups _).
  - by constructor.
  - intros Hcur. cbn [ctx on_ctx]. unfold new_task_gen.
    apply (add_to_group_all (length (gens (ctx s)))
      (BuildContext (gens (ctx s) ++ [g]) (groups (ctx s)) (current_group (ctx s)) ∅)). done.
  - intros _. unfold on_ctx, new_task_gen, add_to_group. cbn [ctx]. by destruct (groups _).
  - intros Hl m l Hin. destruct (Hl m l Hin) as (h & Hh & Hn). exists h. split; [|done].
    unfold on_ctx, new_task_gen, add_to_group. cbn [ctx]. destruct (groups _); cbn; set_solver.
Qed.

Lemma module_gen_ok static name deps extra : gen_ok (module_gen static name deps extra).
Proof. by split. Qed.

Lemma program_gen_ok name deps : gen_ok (program_gen name deps).
Proof. split; [done|done|]. by intros deps' [= <-]. Qed.

#[export] Hint Resolve module_gen_ok program_gen_ok : pydb.

(** A generator without attributes. *)
Lemma plain_gen_ok name fs m uses src :
  gen_ok (TaskGen name fs m uses None false None src None).
Proof. by split. Qed.
#[export] Hint Resolve plain_gen_ok : pydb.

Section kinds.
Context (scripts : string → list declaration) (enabled : list string).
Abbreviation dok := (declared_ok scripts enabled).

Lemma module_declared_ok static name deps extra : dok (module_gen static name deps extra).
Proof. split; [auto with pydb|]. intros _. by split. Qed.

Lemma program_declared_ok name deps : dok (program_gen name deps).
Proof. split; [auto with pydb|]. intros _. by split. Qed.

Lemma library_declared_ok static name deps extra :
  (foreign_scripts scripts → foreign extra) →
  dok (to_test_library name (module_gen static deps [name] extra)).
Proof.
  intros Hf. split.
  - split; [done| |done]. intros m [= <-]. split; [done|]. by exists extra.
  - intros Hs. split; [|done]. intros m extra' [= <-] [= <-]. by apply Hf.
Qed.

Lemma plain_declared_ok name fs m uses src :
  (foreign_scripts scripts →
   ∀ u, u ∈ default [] uses → is_ns3 u = true → u ∈ enabled) →
  dok (TaskGen name fs m uses None false None src None).
Proof.
  intros Hf. split; [apply plain_gen_ok|]. intros Hs. split; [done|].
  intros uses' u _ _ _ Hu. simpl in Hu. subst uses. by apply Hf.
Qed.

Lemma useless_declared_ok name fs m src : dok (TaskGen name fs m None None false None src None).
Proof. apply plain_declared_ok. by intros _ u ?%elem_of_nil. Qed.

Lemma create_module_grows static name deps extra s :
  grows dok s (create_ns3_module static name deps extra s) [module_gen static name deps extra; pcfile_gen].
Proof.
  set (s1 := on_ctx (new_task_gen (module_gen static name deps extra)) s).
  change (grows dok s (on_ctx (new_task_gen pcfile_gen) s1) ([module_gen static name deps extra] ++ [pcfile_gen])).
  apply (build_grows_trans dok s s1); apply new_gen_grows;
    [apply module_declared_ok|apply useless_declared_ok].
Qed.

Lemma new_gen_gens g b : gens (new_task_gen g b) = gens b ++ [g].
Proof. unfold new_task_gen, add_to_group. by destruct (groups b). Qed.

Lemma test_library_grows static name extra s :
  (foreign_scripts scripts → foreign extra) →
  grows dok s (create_ns3_module_test_library static name extra s)
    [to_test_library name (module_gen static (name +:+ "-test") [name] extra); pcfile_gen].
Proof.
  intros Hf.
  pose proof (create_module_grows static (name +:+ "-test") [name] extra s) as [Hg Hok Ha Hc Hl Hlib].
  set (lib := to_test_library _ _).
  assert (gens (ctx (create_ns3_module_test_library static name extra s)) =
          gens (ctx s) ++ [lib; pcfile_gen]) as Hgens.
  { unfold create_ns3_module_test_library. cbn [on_env on_ctx ctx set_gen gens] in *. rewrite Hg.
    rewrite alter_app_r_alt by done. by rewrite Nat.sub_diag. }
  split; [done| |done|done|done|].
  - apply Forall_cons. split; [by apply library_declared_ok|].
    apply Forall_singleton, useless_declared_ok.
  - intros Hlibs m l Hin. rewrite Hgens. cbn in Hin. apply elem_of_app in Hin as [Hin|Hin].
    + destruct (Hlibs m l Hin) as (g & Hin' & Hn). exists g. split; [set_solver|done].
    + apply list_elem_of_singleton in Hin as [= -> ->]. exists lib. split; [set_solver|done].
Qed.

Lemma suid_grows name s : grows dok s (create_suid_program name s) [suid_gen name].
Proof.
  unfold create_suid_program, on_ctx, add_group, new_task_gen, add_to_group. cbn [groups gens].
  assert (groups (ctx s) ++ [[]] ≠ []) as Hne by (by destruct (groups (ctx s))).
  destruct (groups (ctx s) ++ [[]]) as [|g gs] eqn:E; [done|]. rewrite <- E.
  unfold set_group. cbn [gens groups current_group task_gen_cache_names].
  split; cbn [ctx env gens groups current_group task_gen_cache_names]; [done| | |done|done|].
  - apply Forall_singleton, useless_declared_ok.
  - unfold cur_ok, all_ids. cbn [groups current_group]. intros Hcur.
    rewrite join_alter by (rewrite length_app; cbn; lia). split.
    + rewrite length_alter, length_app. cbn. lia.
    + cbn. by rewrite join_app, app_nil_r.
  - intros Hl m l Hin. destruct (Hl m l Hin) as (h & Hh & Hn). exists h. split; [|done].
    cbn. set_solver.
Qed.

Lemma bindings_grow module frontend s :
  NS3_ENABLED_MODULES (env s) = enabled →
  ∃ new, grows dok s (ns3_python_bindings module frontend s) new.
Proof.
  intros He. unfold ns3_python_bindings. destruct (decide _); [|eexists; apply build_grows_refl].
  set (s1 := if frontend then _ else s).
  assert (∃ n1, grows dok s s1 n1) as [n1 H1].
  { unfold s1. destruct frontend; eexists; [|apply build_grows_refl].
    apply new_gen_grows, useless_declared_ok. }
  eexists. eapply build_grows_trans; [exact H1|].
  eapply (build_grows_trans _ _ (on_ctx (new_task_gen (plain_gen _ ["command"] None)) s1)).
  - apply new_gen_grows, useless_declared_ok.
  - apply new_gen_grows. apply plain_declared_ok. intros _ u Hu _. simpl in Hu.
    cbn [env on_ctx] in Hu. by rewrite (grows_enabled _ _ _ _ H1), He in Hu.
Qed.
End kinds.

Section tree.
Context (static : bool) (scripts : string → list declaration) (enabled : list string).
Abbreviation dok := (declared_ok scripts enabled).

Lemma declare_grows s d dir :
  d ∈ scripts dir → NS3_ENABLED_MODULES (env s) = enabled →
  ∃ new, grows dok s (declare static s d) new.
Proof.
  intros Hd He.
  assert (foreign_scripts scripts → foreign_uses d) as Hf.
  { intros Hs. by apply (proj1 (Forall_forall _ _) (Hs dir)). }
  destruct d as [| | | | | | |name fs uses]; cbn [declare].
  - eexists. apply create_module_grows.
  - eexists. by apply test_library_grows.
  - eexists. apply new_gen_grows, useless_declared_ok.
  - eexists. apply new_gen_grows, program_declared_ok.
  - eexists. apply suid_grows.
  - exists []. unfold register_ns3_script, on_env.
    split; cbn [ctx env]; [by rewrite app_nil_r|done| |done|done|done].
    intros. by rewrite app_nil_r.
  - by apply bindings_grow.
  - eexists. apply new_gen_grows, plain_declared_ok. intros Hs u Hu Hns. specialize (Hf Hs).
    destruct uses as [uses|]; [|by apply elem_of_nil in Hu].
    pose proof (proj1 (Forall_forall _ _) Hf u Hu). simpl in *. congruence.
Qed.

Lemma add_subdirs_grows dir s :
  NS3_ENABLED_MODULES (env s) = enabled →
  ∃ new, grows dok s (add_subdirs static scripts dir s) new.
Proof.
  intros He. apply (grows_fold dok _ _ enabled); [done|].
  intros s' d Hd He'. by eapply declare_grows.
Qed.

Lemma examples_grow examples s :
  NS3_ENABLED_MODULES (env s) = enabled →
  ∃ new, grows dok s (add_examples_programs static scripts examples s) new.
Proof.
  intros He. unfold add_examples_programs. destruct (ENABLE_EXAMPLES _); [|eexists; apply build_grows_refl].
  apply (grows_fold dok _ _ enabled); [done|]. intros s' de _ He'.
  destruct (hidden de.1); [eexists; apply build_grows_refl|].
  destruct de.2; [by apply add_subdirs_grows|eexists; apply build_grows_refl].
Qed.

Lemma scratch_grow scratch s : ∃ new, grows dok s (add_scratch_programs scratch s) new.
Proof.
  apply (grows_fold dok _ _ (NS3_ENABLED_MODULES (env s))); [done|].
  intros s' de _ _. unfold scratch_program.
  destruct (hidden de.1), de.2, (endswith ".cc" de.1);
    try (eexists; apply build_grows_refl); eexists; apply new_gen_grows, program_declared_ok.
Qed.

Lemma grows_modules s l : grows dok s (State (ctx s) (env s) l) [].
Proof. destruct (build_grows_refl dok s). by split. Qed.

Lemma build_src_grows s :
  NS3_ENABLED_MODULES (env s) = enabled →
  ∃ new, grows dok s (build_src static scripts s) new.
Proof.
  intros He. unfold build_src. set (modules := foldl drop_module _ _).
  pose proof (grows_modules s modules) as H0.
  destruct (grows_fold dok (λ s m, add_subdirs static scripts (path_join "src" m) s) modules enabled
    (State (ctx s) (env s) modules)) as [n1 H1]; [done|by intros; apply add_subdirs_grows|].
  edestruct (grows_fold dok (λ s m, on_ctx (new_task_gen (module_header_gen (basename m))) s) modules
    enabled) as [n2 H2].
  { by rewrite (grows_enabled _ _ _ _ H1). }
  { intros. eexists. apply new_gen_grows, useless_declared_ok. }
  eexists. eapply build_grows_trans; [apply H0|]. eapply build_grows_trans; [apply H1|apply H2].
Qed.
End tree.

(** ** The enabled modules in the environment *)
Definition add_library_of (e : environment) (ml : string * string) : environment :=
  if decide (ml.1 ∈ NS3_ENABLED_MODULES e) then add_test_library ml.2 e else e.

Lemma test_libraries_spec (ws : list (string * string)) e :
  let e' := foldl add_library_of e ws in
  ENABLE_TESTS e' = ENABLE_TESTS e ∧ NS3_ENABLED_MODULES e' = NS3_ENABLED_MODULES e ∧
  NS3_MODULES_WITH_TEST_LIBRARIES e' = NS3_MODULES_WITH_TEST_LIBRARIES e ∧
  NS3_SCRIPT_DEPENDENCIES e' = NS3_SCRIPT_DEPENDENCIES e ∧
  NS3_RUNNABLE_PROGRAMS e' = NS3_RUNNABLE_PROGRAMS e ∧
  NS3_RUNNABLE_SCRIPTS e' = NS3_RUNNABLE_SCRIPTS e ∧
  NS3_ENABLED_MODULE_TEST_LIBRARIES e' = NS3_ENABLED_MODULE_TEST_LIBRARIES e ++
    (filter (λ ml, ml.1 ∈ NS3_ENABLED_MODULES e) ws).*2.
Proof.
  revert e. induction ws as [|[m l] ws IH]; intros e e'; unfold e'; cbn [foldl].
  { by rewrite app_nil_r. }
  destruct (IH (add_library_of e (m, l))) as (-> & -> & -> & -> & -> & -> & ->).
  unfold add_library_of. cbn [fst]. rewrite filter_cons. cbn [fst].
  destruct (decide _); cbn; [|by split_and!].
  split_and!; try done. by rewrite <- app_assoc.
Qed.

Lemma enable_modules_spec s s2 :
  enable_modules s = Ok s2 → NS3_ENABLED_MODULES (env s) ≠ [] →
  task_gen_cache_names (ctx s) = ∅ → NS3_ENABLED_MODULE_TEST_LIBRARIES (env s) = [] →
  same (ctx s) (ctx s2) ∧
  (∃ added, completed (ctx s) (NS3_ENABLED_MODULES (env s)) (NS3_ENABLED_MODULES (env s2)) added) ∧
  (∀ m, m ∈ NS3_ENABLED_MODULES (env s2) → closed_at (ctx s) (NS3_ENABLED_MODULES (env s2)) m) ∧
  (∀ l, l ∈ NS3_ENABLED_MODULE_TEST_LIBRARIES (env s2) → ENABLE_TESTS (env s) = true ∧
     ∃ m, m ∈ NS3_ENABLED_MODULES (env s2) ∧ (m, l) ∈ NS3_MODULES_WITH_TEST_LIBRARIES (env s)) ∧
  ENABLE_TESTS (env s2) = ENABLE_TESTS (env s) ∧
  NS3_MODULES_WITH_TEST_LIBRARIES (env s2) = NS3_MODULES_WITH_TEST_LIBRARIES (env s) ∧
  NS3_SCRIPT_DEPENDENCIES (env s2) = NS3_SCRIPT_DEPENDENCIES (env s) ∧
  NS3_RUNNABLE_PROGRAMS (env s2) = NS3_RUNNABLE_PROGRAMS (env s) ∧
  NS3_RUNNABLE_SCRIPTS (env s2) = NS3_RUNNABLE_SCRIPTS (env s).
Proof.
  unfold enable_modules. intros Hs Hne Hcache Hlibs.
  destruct (NS3_ENABLED_MODULES (env s)) as [|m0 sel] eqn:Esel; [done|]. rewrite <- Esel in *.
  apply bind_Ok_inv in Hs as ([b ms] & Hc & Hs).
  assert (same (ctx s) (ctx s)) as Hsame by (split_and!; [done..|by left]).
  pose proof (complete_result (ctx s) (NS3_ENABLED_MODULES (env s)) (ctx s) Hsame) as Hr.
  rewrite Hc in Hr. destruct Hr as (Hb & added & Hcomp & Hcl).
  set (e := set_enabled ms (env s)) in *.
  set (e' := if ENABLE_TESTS e then foldl add_library_of e (NS3_MODULES_WITH_TEST_LIBRARIES e) else e).
  assert (s2 = State b e' (all_modules s)) as -> by (by injection Hs as <-).
  cbn [ctx env].
  assert (ENABLE_TESTS e' = ENABLE_TESTS e ∧ NS3_ENABLED_MODULES e' = ms ∧
    NS3_MODULES_WITH_TEST_LIBRARIES e' = NS3_MODULES_WITH_TEST_LIBRARIES e ∧
    NS3_SCRIPT_DEPENDENCIES e' = NS3_SCRIPT_DEPENDENCIES e ∧
    NS3_RUNNABLE_PROGRAMS e' = NS3_RUNNABLE_PROGRAMS e ∧
    NS3_RUNNABLE_SCRIPTS e' = NS3_RUNNABLE_SCRIPTS e ∧
    ∀ l, l ∈ NS3_ENABLED_MODULE_TEST_LIBRARIES e' → ENABLE_TESTS e = true ∧
      ∃ m, m ∈ ms ∧ (m, l) ∈ NS3_MODULES_WITH_TEST_LIBRARIES e) as (Ht & Hm & Hw & Hsc & Hp & Hrs & Hl).
  { unfold e'. destruct (ENABLE_TESTS e) eqn:Et.
    2: { split_and!; try done. unfold e. cbn. rewrite Hlibs. by intros l ?%elem_of_nil. }
    destruct (test_libraries_spec (NS3_MODULES_WITH_TEST_LIBRARIES e) e)
      as (H1 & H2 & H3 & H4 & H5 & H6 & H7).
    split_and!; [by rewrite <- Et|done..|]. intros l Hin. split; [done|].
    rewrite H7 in Hin. unfold e in Hin. cbn in Hin. rewrite Hlibs in Hin.
    apply list_elem_of_fmap in Hin as ([m l'] & -> & [Hm Hin]%list_elem_of_filter). by exists m. }
  rewrite Hm. split_and!; try done. by exists added.
Qed.

(** ** The loop over all generators *)
Section filter.
Context (tests : bool) (modules : list string).

(** The generator is of a program whose modules are enabled. *)
Definition program_runs (g : task_gen) : bool :=
  match ns3_module_dependencies g with
  | Some deps => bool_decide (Forall (.∈ modules) deps)
  | None => false
  end.

(** What a generator must satisfy to be kept. *)
Definition kept (g : task_gen) : bool :=
  match ns3_module_dependencies g with
  | Some deps => bool_decide (Forall (.∈ modules) deps)
  | None => true
  end &&
  (negb (is_ns3_module g) || bool_decide (tg_name g ∈ modules)) &&
  match test_library_of g with Some m => tests && bool_decide (m ∈ modules) | None => true end.

(** A generator but for its mode. *)
Definition no_mode (g : task_gen) : task_gen := set_mode "" g.

Definition excl (i : nat) (gs : list (list nat)) : list (list nat) := filter (.≠ i) <$> gs.

Lemma list_remove_filter (i : nat) (g : list nat) : NoDup g → list_remove i g = filter (.≠ i) g.
Proof.
  induction 1 as [|j g Hj Hnd IH]; [done|]. cbn [list_remove]. rewrite filter_cons.
  destruct (decide (j = i)) as [->|Hne].
  - rewrite decide_False by naive_solver. symmetry. apply filter_all, Forall_forall. naive_solver.
  - rewrite decide_True by done. by rewrite IH.
Qed.

Lemma filter_absent (i : nat) (g : list nat) : i ∉ g → filter (.≠ i) g = g.
Proof. intros Hi. apply filter_all, Forall_forall. naive_solver. Qed.

Lemma exclude_group_excl i gs : NoDup (mjoin gs) → exclude_group i gs = excl i gs.
Proof.
  induction gs as [|g gs IH]; intros Hnd; [done|].
  change (mjoin (g :: gs)) with (g ++ mjoin gs) in Hnd. apply NoDup_app in Hnd as (Hg & Hd & Hgs).
  cbn [exclude_group excl fmap list_fmap]. destruct (decide (i ∈ g)) as [Hi|Hi].
  - rewrite list_remove_filter by done. f_equal. unfold excl.
    assert (∀ h, h ∈ gs → filter (.≠ i) h = h) as Hh.
    { intros h Hh. apply filter_absent. intros Hih. apply (Hd i Hi).
      apply list_elem_of_join. by exists h. }
    clear -Hh. induction gs as [|h gs IH]; [done|]. cbn.
    rewrite Hh by left. rewrite <- IH; [done|]. intros. apply Hh. by right.
  - rewrite filter_absent by done. f_equal. by apply IH.
Qed.

Lemma excl_join i gs : mjoin (excl i gs) = filter (.≠ i) (mjoin gs).
Proof.
  induction gs as [|g gs IH]; [done|].
  change (mjoin (excl i (g :: gs))) with (filter (.≠ i) g ++ mjoin (excl i gs)).
  change (mjoin (g :: gs)) with (g ++ mjoin gs). by rewrite filter_app, IH.
Qed.

Lemma excl_idem i gs : excl i (excl i gs) = excl i gs.
Proof.
  unfold excl. rewrite <- list_fmap_compose. apply list_fmap_ext. intros _ g _. cbn.
  rewrite list_filter_filter. apply list_filter_iff. naive_solver.
Qed.

Lemma kept_no_mode g : kept (no_mode g) = kept g.
Proof. done. Qed.

Lemma exclude_again i gs : NoDup (mjoin gs) → exclude_group i (excl i gs) = excl i gs.
Proof.
  intros Hnd. rewrite exclude_group_excl; [apply excl_idem|].
  rewrite excl_join. by apply NoDup_filter.
Qed.

Lemma no_mode_alter m i (gs : list task_gen) :
  no_mode <$> alter (set_mode m) i gs = no_mode <$> gs.
Proof. revert i. induction gs as [|g gs IH]; intros [|i]; [done..|]. cbn. by f_equal. Qed.

(** Steps that touch the groups only, or nothing of what follows. *)
Definition keep_group (b : bool) (i : nat) (gs : list (list nat)) : list (list nat) :=
  if b then gs else exclude_group i gs.

Record stepped (s s' : state) (gs : list (list nat)) (e : environment) : Prop := {
  stepped_groups : groups (ctx s') = gs;
  stepped_gens : no_mode <$> gens (ctx s') = no_mode <$> gens (ctx s);
  stepped_current : current_group (ctx s') = current_group (ctx s);
  stepped_env : env s' = e;
  stepped_modules : all_modules s' = all_modules s }.

Lemma stepped_trans s s1 s2 gs1 gs2 e1 e2 :
  stepped s s1 gs1 e1 → stepped s1 s2 gs2 e2 → stepped s s2 gs2 e2.
Proof. intros [] []. split; congruence. Qed.

Lemma mark_step (gone : bool) i s :
  stepped s (if gone then on_ctx (set_gen (set_mode "remove") i) s else s)
    (groups (ctx s)) (env s).
Proof. destruct gone; split; try done. apply no_mode_alter. Qed.

Lemma drop_step (P : Prop) `{Decision P} i s :
  stepped s (if decide P then on_ctx (_exclude_taskgen i) s else s)
    (keep_group (bool_decide (¬ P)) i (groups (ctx s))) (env s).
Proof.
  unfold keep_group. destruct (decide P); [rewrite bool_decide_eq_false_2 by tauto
                                          |rewrite bool_decide_eq_true_2 by tauto]; by split.
Qed.

Definition deps_kept (g : task_gen) : bool :=
  match ns3_module_dependencies g with
  | Some deps => bool_decide (Forall (.∈ modules) deps)
  | None => true
  end.

Definition library_kept (g : task_gen) : bool :=
  match test_library_of g with Some m => tests && bool_decide (m ∈ modules) | None => true end.

Lemma program_step g i s :
  stepped s
    match ns3_module_dependencies g with
    | Some deps => if decide (Forall (.∈ modules) deps)
                   then on_env (add_runnable_program (tg_name g)) s
                   else on_ctx (_exclude_taskgen i) s
    | None => s
    end (keep_group (deps_kept g) i (groups (ctx s)))
    (if program_runs g then add_runnable_program (tg_name g) (env s) else env s).
Proof.
  unfold deps_kept, program_runs, keep_group. destruct (ns3_module_dependencies g) as [deps|]; [|by split].
  destruct (decide (Forall (.∈ modules) deps)) as [Hd|Hd];
    [rewrite bool_decide_eq_true_2 by done|rewrite bool_decide_eq_false_2 by done]; by split.
Qed.

Lemma library_step g i s :
  ENABLE_TESTS (env s) = tests →
  stepped s
    match test_library_of g with
    | Some m => if decide (ENABLE_TESTS (env s) = false ∨ m ∉ modules)
                then on_ctx (_exclude_taskgen i) s else s
    | None => s
    end (keep_group (library_kept g) i (groups (ctx s))) (env s).
Proof.
  intros Ht. unfold library_kept. destruct (test_library_of g) as [m|]; [|by split].
  assert (tests && bool_decide (m ∈ modules) =
          bool_decide (¬ (ENABLE_TESTS (env s) = false ∨ m ∉ modules))) as ->.
  { rewrite Ht. destruct (decide (m ∈ modules)) as [Hm|Hm];
      [rewrite (bool_decide_eq_true_2 (m ∈ modules)) by done
      |rewrite (bool_decide_eq_false_2 (m ∈ modules)) by done];
      rewrite ?andb_true_r, ?andb_false_r; symmetry;
      [destruct tests; [apply bool_decide_eq_true|apply bool_decide_eq_false]; naive_solver
      |apply bool_decide_eq_false; naive_solver]. }
  apply drop_step.
Qed.

Lemma keep_three b1 b2 b3 i gs :
  NoDup (mjoin gs) →
  keep_group b3 i (keep_group b2 i (keep_group b1 i gs)) =
  if b1 && b2 && b3 then gs else excl i gs.
Proof.
  intros Hnd. unfold keep_group.
  destruct b1, b2, b3; cbn;
    rewrite ?(exclude_group_excl i gs Hnd), ?(exclude_again i gs Hnd); done.
Qed.

(** One turn. *)
Lemma filter_gen_spec s s' i g :
  filter_gen modules s i = Ok s' → gens (ctx s) !! i = Some g →
  NoDup (all_ids (ctx s)) → ENABLE_TESTS (env s) = tests →
  stepped s s' (if kept g then groups (ctx s) else excl i (groups (ctx s)))
    (if program_runs g then add_runnable_program (tg_name g) (env s) else env s).
Proof.
  intros Hs Hg Hnd Ht. unfold filter_gen in Hs. rewrite Hg in Hs.
  apply bind_Ok_inv in Hs as (gone1 & _ & Hs). apply bind_Ok_inv in Hs as (gone2 & _ & Hs).
  injection Hs as <-.
  pose proof (mark_step gone1 i s) as H1. revert H1.
  generalize (if gone1 then on_ctx (set_gen (set_mode "remove") i) s else s) as s1. intros s1 H1.
  pose proof (stepped_trans _ _ _ _ _ _ _ H1 (program_step g i s1)) as H2. revert H2.
  generalize (match ns3_module_dependencies g with
    | Some deps => if decide (Forall (.∈ modules) deps)
                   then on_env (add_runnable_program (tg_name g)) s1
                   else on_ctx (_exclude_taskgen i) s1
    | None => s1
    end) as s2. intros s2 H2.
  pose proof (stepped_trans _ _ _ _ _ _ _ H2
    (drop_step (is_ns3_module g = true ∧ tg_name g ∉ modules) i s2)) as H3. revert H3.
  generalize (if decide (is_ns3_module g = true ∧ tg_name g ∉ modules)
              then on_ctx (_exclude_taskgen i) s2 else s2) as s3. intros s3 H3.
  assert (ENABLE_TESTS (env s3) = tests) as Ht3.
  { rewrite (stepped_env _ _ _ _ H3), (stepped_env _ _ _ _ H2), (stepped_env _ _ _ _ H1).
    by destruct (program_runs g). }
  pose proof (stepped_trans _ _ _ _ _ _ _ H3 (library_step g i s3 Ht3)) as H4. revert H4.
  generalize (match test_library_of g with
    | Some m => if decide (ENABLE_TESTS (env s3) = false ∨ m ∉ modules)
                then on_ctx (_exclude_taskgen i) s3 else s3
    | None => s3
    end) as s4. intros s4 H4.
  pose proof (stepped_trans _ _ _ _ _ _ _ H4 (mark_step gone2 i s4)) as H5.
  rewrite (stepped_groups _ _ _ _ H4), (stepped_groups _ _ _ _ H3), (stepped_groups _ _ _ _ H2),
    (stepped_groups _ _ _ _ H1), keep_three in H5 by done.
  rewrite (stepped_env _ _ _ _ H4), (stepped_env _ _ _ _ H3), (stepped_env _ _ _ _ H2),
    (stepped_env _ _ _ _ H1) in H5.
  assert (kept g = deps_kept g && bool_decide (¬ (is_ns3_module g = true ∧ tg_name g ∉ modules))
                   && library_kept g) as ->; [|done].
  unfold kept, deps_kept, library_kept. f_equal. f_equal.
  destruct (is_ns3_module g); cbn.
  - apply bool_decide_ext. split; [naive_solver|]. intros Hn. by destruct (decide (tg_name g ∈ modules)); [|destruct Hn].
  - symmetry. apply bool_decide_eq_true. by intros [? _].
Qed.

(** The whole loop, over any list of generators; [gs] is what they are. *)
Lemma filter_gens_spec gs l s s' :
  fold_res (filter_gen modules) s l = Ok s' →
  no_mode <$> gens (ctx s) = no_mode <$> gs → (∀ i, i ∈ l → i < length gs) →
  NoDup (all_ids (ctx s)) → ENABLE_TESTS (env s) = tests →
  stepped s s'
    ((λ g, filter (λ i, i ∉ l ∨ from_option kept true (gs !! i) = true) g) <$> groups (ctx s))
    (foldl (λ e p, add_runnable_program p e) (env s)
       (l ≫= λ i, match gs !! i with
                  | Some g => if program_runs g then [tg_name g] else []
                  | None => []
                  end)).
Proof.
  revert s. induction l as [|i l IH]; intros s Hs Hgs Hl Hnd Ht; cbn [fold_res] in Hs.
  { injection Hs as <-. split; [|done|done|done|done]. symmetry.
    etrans; [apply list_fmap_ext|apply list_fmap_id].
    intros _ g _. apply filter_all, Forall_forall. intros. left. by apply not_elem_of_nil. }
  apply bind_Ok_inv in Hs as (s1 & H1 & Hs).
  destruct (lookup_lt_is_Some_2 gs i) as [g' Hg']; [apply Hl; by left|].
  assert (∃ g, gens (ctx s) !! i = Some g ∧ no_mode g = no_mode g') as (g & Hg & Heq).
  { assert ((no_mode <$> gens (ctx s)) !! i = Some (no_mode g')) as Hi
      by by rewrite Hgs, list_lookup_fmap, Hg'.
    rewrite list_lookup_fmap in Hi. destruct (gens (ctx s) !! i) as [g|]; [|done].
    exists g. split; [done|]. by apply (inj Some) in Hi. }
  pose proof (filter_gen_spec _ _ _ _ H1 Hg Hnd Ht) as Hst.
  assert (kept g = kept g' ∧ program_runs g = program_runs g' ∧ tg_name g = tg_name g') as (Hk & Hp & Hn).
  { destruct g, g'. unfold no_mode, set_mode in Heq. cbn in Heq. by injection Heq as -> -> -> -> -> -> -> ->. }
  rewrite Hk, Hp, Hn in Hst.
  specialize (IH s1 Hs). rewrite (stepped_gens _ _ _ _ Hst) in IH.
  specialize (IH Hgs ltac:(intros; apply Hl; by right)).
  assert (NoDup (all_ids (ctx s1))) as Hnd1.
  { unfold all_ids. rewrite (stepped_groups _ _ _ _ Hst). destruct (kept g'); [done|].
    rewrite excl_join. by apply NoDup_filter. }
  specialize (IH Hnd1). rewrite (stepped_env _ _ _ _ Hst) in IH.
  specialize (IH ltac:(by destruct (program_runs g'))).
  pose proof (stepped_trans _ _ _ _ _ _ _ Hst IH) as H. 
  rewrite bind_cons, Hg'. rewrite foldl_app.
  assert (foldl (λ e p, add_runnable_program p e) (env s) (if program_runs g' then [tg_name g'] else [])
    = if program_runs g' then add_runnable_program (tg_name g') (env s) else env s) as -> by (by destruct (program_runs g')).
  assert (((λ g, filter (λ j, j ∉ i :: l ∨ from_option kept true (gs !! j) = true) g) <$> groups (ctx s)) =
    ((λ g, filter (λ j, j ∉ l ∨ from_option kept true (gs !! j) = true) g) <$> groups (ctx s1))) as ->; [|done].
  rewrite (stepped_groups _ _ _ _ Hst). destruct (kept g') eqn:Ek.
  - apply list_fmap_ext. intros _ h _. apply list_filter_iff. intros j. rewrite not_elem_of_cons.
    split; [tauto|]. intros [Hj|Hj]; [|tauto]. destruct (decide (j = i)) as [->|]; [|tauto].
    right. by rewrite Hg'.
  - unfold excl. rewrite <- list_fmap_compose. apply list_fmap_ext. intros _ h _. cbn.
    rewrite list_filter_filter. apply list_filter_iff. intros j. rewrite not_elem_of_cons.
    destruct (decide (j = i)) as [->|]; [|tauto]. rewrite Hg'. cbn. rewrite Ek. naive_solver.
Qed.
End filter.

Lemma grows_weaken (P Q : task_gen → Prop) s s' new :
  (∀ g, P g → Q g) → grows P s s' new → grows Q s s' new.
Proof. intros HPQ []. split; try done. by eapply Forall_impl. Qed.

(** A program whose libraries are set afterwards. *)
Lemma program_use_grows name deps l s :
  grows (λ _, True) s
    (on_ctx (set_gen (set_use l) (length (gens (ctx s)))) (create_ns3_program name deps s))
    [set_use l (program_gen name deps)].
Proof.
  destruct (new_gen_grows (λ _, True) (program_gen name deps) s I) as [Hg Hok Ha Hc Hl Hlib].
  assert (gens (ctx (on_ctx (set_gen (set_use l) (length (gens (ctx s)))) (create_ns3_program name deps s)))
          = gens (ctx s) ++ [set_use l (program_gen name deps)]) as Hgens.
  { unfold create_ns3_program. cbn [on_ctx ctx set_gen gens] in *. rewrite Hg.
    rewrite alter_app_r_alt by done. by rewrite Nat.sub_diag. }
  split; [exact Hgens|by apply Forall_singleton|exact Ha|exact Hc|exact Hl|].
  intros Hlibs m x Hin. destruct (Hlibs m x Hin) as (g & Hin' & Hn). exists g.
  split; [|done]. rewrite Hgens. set_solver.
Qed.

(** The programs of [utils]. *)
Definition utils_ok (modules libraries : list string) (g : task_gen) : Prop :=
  (tg_name g = "test-runner" ∧ use g = Some (modules ++ libraries)) ∨
  (tg_name g = "bench-simulator" ∧ use g = Some ["ns3-core"]) ∨
  ("ns3-network" ∈ modules ∧ (use g = Some ["ns3-network"] ∨ use g = Some modules)).

Lemma build_utils_grows s (modules := NS3_ENABLED_MODULES (env s))
    (libraries := NS3_ENABLED_MODULE_TEST_LIBRARIES (env s)) :
  ∃ new, grows (λ _, True) s (build_utils s) new ∧
    Forall (utils_ok modules libraries) new ∧
    head new = Some (set_use (modules ++ libraries) (program_gen "test-runner" ["core"])).
Proof.
  unfold build_utils. fold modules libraries.
  pose proof (program_use_grows "test-runner" ["core"] (modules ++ libraries) s) as H1.
  revert H1. generalize (on_ctx (set_gen (set_use (modules ++ libraries)) (length (gens (ctx s))))
    (create_ns3_program "test-runner" ["core"] s)) as s1. intros s1 H1.
  pose proof (new_gen_grows (λ _, True) (program_gen "bench-simulator" ["core"]) s1 I) as H2.
  pose proof (build_grows_trans _ _ _ _ _ _ H1 H2) as H3. fold (create_ns3_program "bench-simulator" ["core"] s1) in *.
  assert (utils_ok modules libraries
    (set_use (modules ++ libraries) (program_gen "test-runner" ["core"]))) as U1 by by left.
  assert (utils_ok modules libraries (program_gen "bench-simulator" ["core"])) as U2
    by by right; left.
  destruct (decide ("ns3-network" ∈ modules)); [|by eexists; split; [exact H3|repeat constructor]].
  eexists. split_and!.
  - eapply build_grows_trans; [exact H3|]. eapply build_grows_trans;
      [apply (new_gen_grows (λ _, True) (program_gen "bench-packets" ["network"]) _ I)|].
    apply program_use_grows.
  - repeat (apply Forall_cons; split); [done|done|..|done]; right; right; (split; [done|]);
      [by left|by right].
  - done.
Qed.

(** The script of [bindings/python] declares nothing of the simulator. *)
Definition only_others (scripts : string → list declaration) : Prop :=
  Forall (λ d, match d with Other _ _ _ => True | _ => False end) (scripts "bindings/python").

Definition python_ok (scripts : string → list declaration) (g : task_gen) : Prop :=
  foreign_scripts scripts → only_others scripts →
  ∀ uses u, use g = Some uses → u ∈ uses → is_ns3 u = false.

Lemma python_grows static scripts s :
  ∃ new, grows (python_ok scripts) s (add_subdirs static scripts "bindings/python" s) new.
Proof.
  apply (grows_fold _ _ _ (NS3_ENABLED_MODULES (env s))); [done|]. intros s1 d Hd He.
  destruct (declare_grows static scripts _ s1 d _ Hd He) as [new Hn].
  assert ((match d with Other _ _ _ => True | _ => False end → False) →
    ∃ new, grows (python_ok scripts) s1 (declare static s1 d) new) as Hno.
  { intros Hd'. exists new. eapply grows_weaken; [|exact Hn]. intros g _ _ Ho. destruct Hd'.
    by apply (proj1 (Forall_forall _ _) Ho). }
  destruct d as [| | | | | | |name fs uses]; try (by apply Hno).
  eexists. apply new_gen_grows. intros Hs _ uses' u Hu Hin. simpl in Hu. subst uses.
  pose proof (proj1 (Forall_forall _ _) (Hs "bindings/python") _ Hd) as Hf.
  by apply (proj1 (Forall_forall _ _) Hf).
Qed.

Lemma declared_ok_mono scripts l l' g :
  l ⊆ l' → declared_ok scripts l g → declared_ok scripts l' g.
Proof. intros Hl [Hg Hu]. split; [done|]. intros Hs. destruct (Hu Hs). split; eauto. Qed.

(** ** Scripts *)
Lemma scripts_fold ms (l : list (string * list string)) e e' :
  fold_res (λ e (sd : string * list string),
              ok ← runnable (Some ms) sd.2;
              Ok (if ok : bool then add_runnable_script sd.1 e else e)) e l = Ok e' →
  e' = foldl (λ e s, add_runnable_script s e) e (filter (λ sd, Forall (.∈ ms) sd.2) l).*1.
Proof.
  revert e. induction l as [|[x deps] l IH]; intros e He; cbn [fold_res] in He; [by injection He|].
  assert (runnable (Some ms) deps = Ok (bool_decide (Forall (.∈ ms) deps))) as Hr.
  { destruct deps; [|done]. by rewrite bool_decide_eq_true_2. }
  cbn [snd fst] in He. rewrite Hr in He. cbn [mbind result_bind] in He.
  rewrite filter_cons. cbn [snd]. case_bool_decide as Hd.
  - rewrite decide_True by done. by apply IH.
  - rewrite decide_False by done. by apply IH.
Qed.

Lemma add_scripts_fields (l : list string) e :
  let e' := foldl (λ e s, add_runnable_script s e) e l in
  NS3_ENABLED_MODULES e' = NS3_ENABLED_MODULES e ∧
  NS3_ENABLED_MODULE_TEST_LIBRARIES e' = NS3_ENABLED_MODULE_TEST_LIBRARIES e ∧
  NS3_RUNNABLE_PROGRAMS e' = NS3_RUNNABLE_PROGRAMS e ∧
  NS3_RUNNABLE_SCRIPTS e' = NS3_RUNNABLE_SCRIPTS e ++ l.
Proof.
  revert e. induction l as [|x l IH]; intros e e'; unfold e'; cbn [foldl]; [by rewrite app_nil_r|].
  destruct (IH (add_runnable_script x e)) as (-> & -> & -> & ->). cbn. by rewrite <- app_assoc.
Qed.

Lemma add_programs_fields (l : list string) e :
  let e' := foldl (λ e p, add_runnable_program p e) e l in
  NS3_ENABLED_MODULES e' = NS3_ENABLED_MODULES e ∧
  NS3_ENABLED_MODULE_TEST_LIBRARIES e' = NS3_ENABLED_MODULE_TEST_LIBRARIES e ∧
  NS3_SCRIPT_DEPENDENCIES e' = NS3_SCRIPT_DEPENDENCIES e ∧
  NS3_RUNNABLE_PROGRAMS e' = NS3_RUNNABLE_PROGRAMS e ++ l ∧
  NS3_RUNNABLE_SCRIPTS e' = NS3_RUNNABLE_SCRIPTS e.
Proof.
  revert e. induction l as [|x l IH]; intros e e'; unfold e'; cbn [foldl]; [by rewrite app_nil_r|].
  destruct (IH (add_runnable_program x e)) as (-> & -> & -> & -> & ->). cbn. by rewrite <- app_assoc.
Qed.

Lemma runnable_scripts_spec s s' :
  runnable_scripts s = Ok s' → NS3_ENABLED_MODULES (env s) ≠ [] →
  ctx s' = ctx s ∧ NS3_ENABLED_MODULES (env s') = NS3_ENABLED_MODULES (env s) ∧
  NS3_ENABLED_MODULE_TEST_LIBRARIES (env s') = NS3_ENABLED_MODULE_TEST_LIBRARIES (env s) ∧
  NS3_RUNNABLE_PROGRAMS (env s') = NS3_RUNNABLE_PROGRAMS (env s) ∧
  NS3_RUNNABLE_SCRIPTS (env s') = NS3_RUNNABLE_SCRIPTS (env s) ++
    (filter (λ sd, Forall (.∈ NS3_ENABLED_MODULES (env s)) sd.2) (NS3_SCRIPT_DEPENDENCIES (env s))).*1.
Proof.
  unfold runnable_scripts. intros Hs Hne. apply bind_Ok_inv in Hs as (e & He & [= <-]).
  cbn [ctx env]. split; [done|].
  destruct (NS3_ENABLED_MODULES (env s)) as [|m ms] eqn:Em; [done|].
  apply scripts_fold in He as ->. rewrite <- Em. apply add_scripts_fields.
Qed.

(** ** A whole build *)
Section build.
Context (static : bool) (scripts : string → list declaration).
Context (examples scratch : list (string * bool)) (s s' s2 : state).
Context (Hempty : ctx s = empty_context) (Hselected : NS3_ENABLED_MODULES (env s) ≠ []).

(** The tree of modules, and everything that was declared before the loop. *)
Definition tree : state := build_src static scripts (on_env reset_lists s).
Definition declared : state :=
  add_scratch_programs scratch (add_examples_programs static scripts examples s2).

Context (Henabled : enable_modules tree = Ok s2).
Context (Hbuild : build static scripts false examples scratch s = Ok s').

Lemma tree_facts :
  cur_ok (ctx tree) ∧ all_ids (ctx tree) ≡ₚ seq 0 (length (gens (ctx tree))) ∧
  Forall (declared_ok scripts (NS3_ENABLED_MODULES (env s))) (gens (ctx tree)) ∧ task_gen_cache_names (ctx tree) = ∅ ∧ libs_ok tree ∧
  ENABLE_TESTS (env tree) = ENABLE_TESTS (env s) ∧
  NS3_ENABLED_MODULES (env tree) = NS3_ENABLED_MODULES (env s) ∧
  NS3_ENABLED_MODULE_TEST_LIBRARIES (env tree) = [] ∧
  NS3_RUNNABLE_PROGRAMS (env tree) = [] ∧ NS3_RUNNABLE_SCRIPTS (env tree) = [].
Proof.
  unfold tree. destruct (build_src_grows static scripts (NS3_ENABLED_MODULES (env s))
    (on_env reset_lists s)) as [new [Hg Hok Ha Hc Hl Hlib]]; [done|].
  assert (ctx (on_env reset_lists s) = empty_context) as He by done. rewrite He in Hg, Ha, Hc.
  change (gens empty_context) with (@nil task_gen) in Hg, Ha. rewrite app_nil_l in Hg. rewrite Hg.
  destruct Ha as [Hcur Hall]; [unfold cur_ok; cbn; lia|].
  split; [done|]. split; [exact Hall|]. split; [done|]. split; [by apply Hc|].
  split; [|exact Hl]. apply Hlib. intros m l Hin. by apply elem_of_nil in Hin.
Qed.

Lemma declared_grows :
  ∃ new, grows (declared_ok scripts (NS3_ENABLED_MODULES (env s2))) s2 declared new.
Proof.
  destruct (examples_grow static scripts (NS3_ENABLED_MODULES (env s2)) examples s2) as [n1 H1];
    [done|].
  destruct (scratch_grow scripts (NS3_ENABLED_MODULES (env s2)) scratch
    (add_examples_programs static scripts examples s2)) as [n2 H2].
  eexists. by eapply build_grows_trans.
Qed.

Lemma enabled_facts :
  same (ctx tree) (ctx s2) ∧
  (∃ added, completed (ctx tree) (NS3_ENABLED_MODULES (env s)) (NS3_ENABLED_MODULES (env s2)) added) ∧
  (∀ m, m ∈ NS3_ENABLED_MODULES (env s2) → closed_at (ctx tree) (NS3_ENABLED_MODULES (env s2)) m) ∧
  (∀ l, l ∈ NS3_ENABLED_MODULE_TEST_LIBRARIES (env s2) → ENABLE_TESTS (env s) = true ∧
     ∃ m, m ∈ NS3_ENABLED_MODULES (env s2) ∧ (m, l) ∈ NS3_MODULES_WITH_TEST_LIBRARIES (env tree)) ∧
  ENABLE_TESTS (env s2) = ENABLE_TESTS (env s) ∧
  NS3_RUNNABLE_PROGRAMS (env s2) = [] ∧ NS3_RUNNABLE_SCRIPTS (env s2) = [] ∧
  NS3_ENABLED_MODULES (env s2) ≠ [].
Proof.
  destruct tree_facts as (_ & _ & _ & Hc & _ & Ht & Hm & Hl & Hp & Hs).
  destruct (enable_modules_spec tree s2 Henabled) as (H1 & H2 & H3 & H4 & H5 & _ & _ & H8 & H9);
    [by rewrite Hm|done|done|].
  rewrite Hm, Ht in *. split_and!; try done; [congruence..|].
  destruct H2 as [added [-> _ _ _]]. by destruct (NS3_ENABLED_MODULES (env s)).
Qed.

Abbreviation modules := (NS3_ENABLED_MODULES (env s2)).

(** What [declared] has. *)
Lemma declared_facts :
  cur_ok (ctx declared) ∧ all_ids (ctx declared) ≡ₚ seq 0 (length (gens (ctx declared))) ∧
  Forall (declared_ok scripts modules) (gens (ctx declared)) ∧ libs_ok declared ∧ same_lists (env s2) (env declared) ∧
  ∃ new, gens (ctx declared) = gens (ctx tree) ++ new.
Proof.
  destruct declared_grows as [new [Hg Hok Ha Hc Hl Hlib]].
  destruct tree_facts as (Hcur & Hall & Hoks & _ & Hlibs & _).
  destruct enabled_facts as ((Hsg & Hsgr & Hscur & _) & _).
  assert (cur_ok (ctx s2)) as Hcur2 by (unfold cur_ok in *; by rewrite Hsgr, Hscur).
  assert (all_ids (ctx s2) = all_ids (ctx tree)) as Hall2 by (unfold all_ids; by rewrite Hsgr).
  destruct (Ha Hcur2) as [Hcur' Hall']. split_and!; [done| | | |done|].
  - by rewrite Hall', Hall2, Hall, Hg, Hsg, length_app, seq_app.
  - rewrite Hg, Hsg. apply Forall_app. split; [|done]. eapply Forall_impl; [exact Hoks|].
    intros g. apply declared_ok_mono. destruct enabled_facts as (_ & (added & [-> _ _ _]) & _).
    apply list_subseteq_app_l. done.
  - apply Hlib. intros m l Hin. rewrite Hsg. apply Hlibs.
    destruct (enable_modules_spec tree s2 Henabled) as (_&_&_&_&_& Hw & _);
      destruct tree_facts as (_ & _ & _ & Hc0 & _ & _ & Hm & Hl0 & _); [by rewrite Hm|done|done|].
    by rewrite <- Hw.
  - exists new. by rewrite Hg, Hsg.
Qed.

(** The steps after the loop. *)
Lemma built :
  ∃ f, filter_gens declared = Ok f ∧ ∃ r, runnable_scripts f = Ok r ∧
    s' = build_utils (add_subdirs static scripts "bindings/python" r).
Proof.
  unfold build in Hbuild. fold tree in Hbuild. rewrite Henabled in Hbuild.
  cbn [mbind result_bind] in Hbuild. fold declared in Hbuild.
  apply bind_Ok_inv in Hbuild as (f & Hf & Hr). apply bind_Ok_inv in Hr as (r & Hr & [= <-]).
  eauto.
Qed.

Abbreviation gs := (gens (ctx declared)).
Abbreviation keeps := (kept (ENABLE_TESTS (env s)) modules).

Lemma filtered f :
  filter_gens declared = Ok f →
  stepped declared f
    ((λ g, filter (λ i, i ∉ all_ids (ctx declared) ∨ from_option keeps true (gs !! i) = true) g) <$>
       groups (ctx declared))
    (foldl (λ e p, add_runnable_program p e) (env declared)
       (all_ids (ctx declared) ≫= λ i,
          match gs !! i with
          | Some g => if program_runs modules g then [tg_name g] else []
          | None => []
          end)).
Proof.
  destruct declared_facts as (_ & Hall & _ & _ & (Ht & Hm & _) & _).
  destruct enabled_facts as (_ & _ & _ & _ & Ht2 & _ & _ & Hne).
  unfold filter_gens. rewrite Hm. destruct modules as [|m ms] eqn:Em; [done|]. rewrite <- Em.
  intros Hf. apply (filter_gens_spec (ENABLE_TESTS (env s)) _ gs _ _ _ Hf); [done| | |].
  - intros i Hi. rewrite Hall in Hi. apply elem_of_seq in Hi. lia.
  - rewrite Hall. apply NoDup_seq.
  - by rewrite Ht, Ht2.
Qed.

(** What the last steps add. *)
Lemma finished r :
  cur_ok (ctx r) →
  ∃ new, gens (ctx (build_utils (add_subdirs static scripts "bindings/python" r))) =
           gens (ctx r) ++ new ∧
    all_ids (ctx (build_utils (add_subdirs static scripts "bindings/python" r))) ≡ₚ
      all_ids (ctx r) ++ seq (length (gens (ctx r))) (length new) ∧
    same_lists (env r) (env (build_utils (add_subdirs static scripts "bindings/python" r))) ∧
    Forall (λ g, python_ok scripts g ∨
      utils_ok (NS3_ENABLED_MODULES (env r)) (NS3_ENABLED_MODULE_TEST_LIBRARIES (env r)) g) new ∧
    set_use (NS3_ENABLED_MODULES (env r) ++ NS3_ENABLED_MODULE_TEST_LIBRARIES (env r))
      (program_gen "test-runner" ["core"]) ∈ new.
Proof.
  intros Hcur. destruct (python_grows static scripts r) as [n1 H1].
  destruct (build_utils_grows (add_subdirs static scripts "bindings/python" r))
    as (n2 & H2 & Hu & Hh).
  pose proof (grows_ok _ _ _ _ H1) as Hp.
  apply (grows_weaken _ (λ _, True)) in H1; [|done].
  destruct (grows_lists _ _ _ _ H1) as (_ & Hm & Hl & _). rewrite Hm, Hl in Hh, Hu.
  destruct (build_grows_trans _ _ _ _ _ _ H1 H2) as [Hg _ Ha _ Hls _].
  exists (n1 ++ n2). split_and!; [done|by apply Ha|done| |].
  { apply Forall_app. split; eapply Forall_impl; [exact Hp|by left|exact Hu|by right]. }
  apply elem_of_app. right. destruct n2 as [|x n2]; [done|]. injection Hh as ->. left.
Qed.

Lemma result_facts :
  NS3_ENABLED_MODULES (env s') = modules ∧
  NS3_ENABLED_MODULE_TEST_LIBRARIES (env s') = NS3_ENABLED_MODULE_TEST_LIBRARIES (env s2) ∧
  (∃ rest, no_mode <$> gens (ctx s') = (no_mode <$> gs) ++ rest) ∧
  (∀ i g, gs !! i = Some g → i ∈ all_ids (ctx s') ↔ keeps g = true) ∧
  NS3_RUNNABLE_PROGRAMS (env s') =
    (all_ids (ctx declared) ≫= λ i, match gs !! i with
       | Some g => if program_runs modules g then [tg_name g] else []
       | None => []
       end) ∧
  NS3_RUNNABLE_SCRIPTS (env s') =
    (filter (λ sd, Forall (.∈ modules) sd.2) (NS3_SCRIPT_DEPENDENCIES (env declared))).*1 ∧
  (∀ i g, length gs ≤ i → gens (ctx s') !! i = Some g → i ∈ all_ids (ctx s') ∧
     (python_ok scripts g ∨
      utils_ok modules (NS3_ENABLED_MODULE_TEST_LIBRARIES (env s2)) g)) ∧
  ∃ i g, gens (ctx s') !! i = Some g ∧ i ∈ all_ids (ctx s') ∧ tg_name g = "test-runner" ∧
    use g = Some (modules ++ NS3_ENABLED_MODULE_TEST_LIBRARIES (env s2)).
Proof.
  destruct built as (f & Hf & r & Hr & Hs').
  destruct declared_facts as (Hcur & Hall & _ & _ & (_ & Hm & Hl & Hp & Hsc) & _).
  destruct enabled_facts as (_ & _ & _ & _ & _ & Hp2 & Hsc2 & Hne).
  destruct (filtered f Hf) as [Hfg Hfgens Hfcur Hfenv _].
  match type of Hfenv with _ = foldl _ _ ?l =>
    destruct (add_programs_fields l (env declared)) as (Ha1 & Ha2 & Ha3 & Ha4 & Ha5) end.
  rewrite <- Hfenv in Ha1, Ha2, Ha3, Ha4, Ha5.
  destruct (runnable_scripts_spec f r Hr) as (Hrc & Hr1 & Hr2 & Hr3 & Hr4); [by rewrite Ha1, Hm|].
  rewrite Ha1, Hm, Ha3, Ha5, Hsc, Hsc2 in Hr4. rewrite Ha4, Hp, Hp2 in Hr3.
  assert (cur_ok (ctx r)) as Hcurr.
  { unfold cur_ok in *. rewrite Hrc, Hfcur, Hfg, length_fmap. done. }
  destruct (finished r Hcurr) as (new & Hng & Hna & (_ & Hn1 & Hn2 & Hn3 & Hn4) & Hlate & Htr).
  rewrite <- Hs' in *. rewrite Hrc in Hng, Hna.
  assert (length (gens (ctx f)) = length gs) as Hlen.
  { apply (f_equal length) in Hfgens. by rewrite !length_fmap in Hfgens. }
  split_and!.
  - by rewrite Hn1, Hr1, Ha1, Hm.
  - by rewrite Hn2, Hr2, Ha2, Hl.
  - exists (no_mode <$> new). by rewrite Hng, fmap_app, Hfgens.
  - intros i g Hg. apply lookup_lt_Some in Hg as Hlt. rewrite Hna, elem_of_app, elem_of_seq, Hlen.
    unfold all_ids at 1. rewrite Hfg. rewrite list_elem_of_join.
    setoid_rewrite list_elem_of_fmap.
    assert (i ∈ all_ids (ctx declared)) as Hi by (rewrite Hall; apply elem_of_seq; lia).
    pose proof Hi as Hi'. unfold all_ids in Hi. apply list_elem_of_join in Hi as (h & Hih & Hh).
    split.
    + intros [(h' & Hin & (h'' & -> & _))|?]; [|lia].
      apply list_elem_of_filter in Hin as [[?|Hk] _]; [done|]. by rewrite Hg in Hk.
    + intros Hk. left. eexists. split; [|by exists h]. apply list_elem_of_filter.
      split; [right|done]. by rewrite Hg.
  - by rewrite Hn3, Hr3.
  - by rewrite Hn4, Hr4.
  - intros i g Hi Hg. rewrite Hng in Hg. rewrite lookup_app_r in Hg by lia. rewrite Hlen in Hg.
    rewrite Hr1, Ha1, Hm, Hr2, Ha2, Hl in Hlate. split.
    + rewrite Hna. apply elem_of_app. right. apply elem_of_seq. rewrite Hlen.
      apply lookup_lt_Some in Hg. lia.
    + by eapply (Forall_lookup_1 _ _ _ _ Hlate).
  - rewrite Hr1, Ha1, Hm, Hr2, Ha2, Hl in Htr.
    apply list_elem_of_lookup in Htr as [k Hk].
    exists (length gs + k). eexists. split_and!.
    + rewrite Hng, lookup_app_r by lia. rewrite Hlen. replace (_ + k - _) with k by lia. exact Hk.
    + rewrite Hna. apply elem_of_app. right. apply elem_of_seq. rewrite Hlen.
      apply lookup_lt_Some in Hk. lia.
    + done.
    + done.
Qed.
End build.

(** ** What the build is made of *)

(** The names of the programs of [b] whose modules are enabled, in the order of
    the groups. *)
Definition runnable_names (modules : list string) (b : context) : list string :=
  all_ids b ≫= λ i,
    match gens b !! i with
    | Some g => if program_runs modules g then [tg_name g] else []
    | None => []
    end.

Lemma build_enables static scripts examples scratch s s' :
  build static scripts false examples scratch s = Ok s' →
  ∃ s2, enable_modules (tree static scripts s) = Ok s2.
Proof.
  unfold build. fold (tree static scripts s). intros Hb.
  apply bind_Ok_inv in Hb as (s2 & Hs2 & _). by exists s2.
Qed.

(** C26: a build enables exactly the modules that the configured ones depend on.
    Of what the scripts of the modules and examples and the scratch directory
    declare, that is before the loop that filters the generators, it keeps a
    program when all its modules are enabled, a module when it is enabled, a
    test library when tests are built and its module is enabled, and every
    other generator; the runnable programs and scripts that it records for
    [test.py] are those of them whose modules are all enabled, in their order.
    What [bindings/python] and [utils] declare after the loop, [test-runner]
    and [bench-simulator] among it, is all kept, whatever is enabled, and is
    not recorded. *)
Theorem build_selects static scripts examples scratch s s' :
  ctx s = empty_context → NS3_ENABLED_MODULES (env s) ≠ [] →
  build static scripts false examples scratch s = Ok s' →
  let modules := NS3_ENABLED_MODULES (env s') in
  (∀ m, m ∈ modules ↔ reachable (ctx (tree static scripts s)) (NS3_ENABLED_MODULES (env s)) m) ∧
  ∃ s2, enable_modules (tree static scripts s) = Ok s2 ∧
    let d := declared static scripts examples scratch s2 in
    (∀ i g, gens (ctx d) !! i = Some g →
       i ∈ all_ids (ctx s') ↔ kept (ENABLE_TESTS (env s)) modules g = true) ∧
    (∀ i, length (gens (ctx d)) ≤ i < length (gens (ctx s')) → i ∈ all_ids (ctx s')) ∧
    NS3_RUNNABLE_PROGRAMS (env s') = runnable_names modules (ctx d) ∧
    NS3_RUNNABLE_SCRIPTS (env s') =
      (filter (λ sd, Forall (.∈ modules) sd.2) (NS3_SCRIPT_DEPENDENCIES (env d))).*1.
Proof.
  intros He Hne Hb. destruct (build_enables _ _ _ _ _ _ Hb) as [s2 H2].
  destruct (result_facts static scripts examples scratch s s' s2 He Hne H2 Hb)
    as (Hm & _ & _ & Hk & Hp & Hsc & Hlate & _).
  destruct (enabled_facts static scripts s s2 He Hne H2) as (_ & (added & Hc) & Hcl & _).
  cbn zeta. rewrite Hm. split.
  - intros m. split; [apply (completed_reachable _ _ _ _ Hc)|by eapply closed_reachable].
  - exists s2. split_and!; try done. intros i [Hi Hlt].
    apply lookup_lt_is_Some in Hlt as [g Hg]. by eapply Hlate.
Qed.

(** A generator of that name is part of the build. *)
Definition provided (b : context) (u : string) : Prop :=
  ∃ j h, gens b !! j = Some h ∧ j ∈ all_ids b ∧ tg_name h = u.

Lemma fold_cache_spec (b : context) ids (m : gmap string nat) name o :
  foldl (λ m i, match gens b !! i with Some g => <[tg_name g := i]> m | None => m end) m ids
    !! name = Some o →
  m !! name = Some o ∨ o ∈ ids ∧ ∃ g, gens b !! o = Some g ∧ tg_name g = name.
Proof.
  revert m. induction ids as [|i ids IH]; intros m Ho; cbn [foldl] in Ho; [by left|].
  apply IH in Ho as [Ho|(Hin & Hg)]; [|right; split; [by right|done]].
  destruct (gens b !! i) as [g|] eqn:Eg; [|by left].
  apply lookup_insert_Some in Ho as [[<- <-]|[_ ?]]; [|by left].
  right. split; [left|by exists g].
Qed.

Lemma lookup_gen_spec b m o :
  lookup_gen b m = Some o → o ∈ all_ids b ∧ ∃ g, gens b !! o = Some g ∧ tg_name g = m.
Proof.
  unfold lookup_gen, fill_cache. intros [Ho|?]%fold_cache_spec; [|done]. by rewrite lookup_empty in Ho.
Qed.

(** The names enabled are names of modules, and two modules have two names. *)
Definition names_modules (b : context) (m : string) : bool :=
  from_option is_ns3_module false (lookup_gen b m ≫= (gens b !!.)).

Lemma names_modules_inv b m :
  names_modules b m = true →
  ∃ o g, lookup_gen b m = Some o ∧ gens b !! o = Some g ∧ is_ns3_module g = true ∧ tg_name g = m.
Proof.
  unfold names_modules. destruct (lookup_gen b m) as [o|] eqn:Eo; [|done].
  destruct (lookup_gen_spec _ _ _ Eo) as (_ & g & Hg & Hn).
  change (Some o ≫= ?f) with (f o). cbv beta. rewrite Hg. intros Hm. by exists o, g.
Qed.

Definition module_names (b : context) : list string :=
  tg_name <$> filter (λ g, is_ns3_module g = true) (gens b).

Lemma distinct_modules (gs : list task_gen) i j g h :
  NoDup (tg_name <$> filter (λ g, is_ns3_module g = true) gs) →
  gs !! i = Some g → gs !! j = Some h → is_ns3_module g = true → is_ns3_module h = true →
  tg_name g = tg_name h → i = j.
Proof.
  revert i j. induction gs as [|x gs IH]; intros i j Hnd Hi Hj Hg Hh Hn; [done|].
  rewrite filter_cons in Hnd.
  assert (∀ k y, gs !! k = Some y → is_ns3_module y = true →
            tg_name y ∈ tg_name <$> filter (λ g, is_ns3_module g = true) gs) as Hin.
  { intros k y Hk Hy. apply (list_elem_of_fmap_2 tg_name), list_elem_of_filter. split; [done|].
    by eapply list_elem_of_lookup_2. }
  destruct i as [|i], j as [|j]; [done|..]; cbn in Hi, Hj.
  - injection Hi as ->. rewrite decide_True in Hnd by done. apply NoDup_cons in Hnd as [Hx _].
    destruct Hx. rewrite Hn. by eapply Hin.
  - injection Hj as ->. rewrite decide_True in Hnd by done. apply NoDup_cons in Hnd as [Hx _].
    destruct Hx. rewrite <- Hn. by eapply Hin.
  - f_equal. eapply IH; [|done..]. destruct (decide (is_ns3_module x = true)); [|done].
    by apply NoDup_cons in Hnd as [_ ?].
Qed.

Section links.
Context (static : bool) (scripts : string → list declaration).
Context (examples scratch : list (string * bool)) (s s' s2 : state).
Context (He : ctx s = empty_context) (Hne : NS3_ENABLED_MODULES (env s) ≠ []).
Context (H2 : enable_modules (tree static scripts s) = Ok s2).
Context (Hb : build static scripts false examples scratch s = Ok s').

Abbreviation d := (declared static scripts examples scratch s2).
Abbreviation modules := (NS3_ENABLED_MODULES (env s2)).
Abbreviation keeps := (kept (ENABLE_TESTS (env s)) modules).

(** A generator of the tree that is kept is part of the build. *)
Lemma kept_provided o g :
  gens (ctx (tree static scripts s)) !! o = Some g → keeps g = true →
  provided (ctx s') (tg_name g).
Proof.
  intros Ho Hk.
  destruct (declared_facts static scripts examples scratch s s2 He Hne H2)
    as (_ & _ & _ & _ & _ & new & Hg).
  destruct (result_facts static scripts examples scratch s s' s2 He Hne H2 Hb)
    as (_ & _ & (rest & Hr) & Hkeep & _).
  assert (gens (ctx d) !! o = Some g) as Hd by (rewrite Hg; by apply lookup_app_l_Some).
  apply (Hkeep o g Hd) in Hk as Hin.
  assert ((no_mode <$> gens (ctx s')) !! o = Some (no_mode g)) as Hn.
  { rewrite Hr. apply lookup_app_l_Some. by rewrite list_lookup_fmap, Hd. }
  rewrite list_lookup_fmap in Hn. destruct (gens (ctx s') !! o) as [h|] eqn:Eh; [|done].
  exists o, h. split_and!; [done|done|]. apply (inj Some) in Hn.
  by apply (f_equal tg_name) in Hn.
Qed.

Lemma kept_module g :
  gen_ok g → is_ns3_module g = true → keeps g = bool_decide (tg_name g ∈ modules).
Proof.
  intros [Hm _ _] Hg. destruct (Hm Hg) as [H1 H3]. unfold kept. rewrite H1, H3, Hg. cbn.
  by rewrite andb_true_r.
Qed.

Lemma kept_library g m :
  gen_ok g → test_library_of g = Some m →
  keeps g = ENABLE_TESTS (env s) && bool_decide (m ∈ modules).
Proof.
  intros [Hm Hl _] Hg. destruct (Hl m Hg) as [H1 _]. unfold kept. rewrite H1, Hg.
  destruct (is_ns3_module g) eqn:E; [|done]. destruct (Hm eq_refl). congruence.
Qed.

Lemma module_provided m :
  names_modules (ctx (tree static scripts s)) m = true → m ∈ modules → provided (ctx s') m.
Proof.
  intros (o & g & _ & Hg & Hmod & Hn)%names_modules_inv Hm.
  rewrite <- Hn in Hm |- *. apply (kept_provided o); [done|].
  rewrite kept_module; [by apply bool_decide_eq_true| |done].
  destruct (tree_facts static scripts s He) as (_ & _ & Hok & _).
  by apply (Forall_lookup_1 _ _ _ _ Hok Hg).
Qed.

Lemma library_provided l :
  l ∈ NS3_ENABLED_MODULE_TEST_LIBRARIES (env s2) → provided (ctx s') l.
Proof.
  intros Hl. destruct (enabled_facts static scripts s s2 He Hne H2) as (_ & _ & _ & Hlibs & _).
  destruct (Hlibs l Hl) as (Ht & m & Hm & Hw).
  destruct (tree_facts static scripts s He) as (_ & _ & Hok & _ & Hlo & _).
  destruct (Hlo m l Hw) as (g & [o Ho]%list_elem_of_lookup & <- & Hlib).
  apply (kept_provided o); [done|]. rewrite (kept_library g m); [|apply (Forall_lookup_1 _ _ _ _ Hok Ho)|done].
  rewrite Ht. by apply bool_decide_eq_true.
Qed.

(** What a kept generator uses is enabled. *)
Lemma kept_uses i g uses u :
  Forall (λ m, names_modules (ctx (tree static scripts s)) m = true) modules →
  NoDup (module_names (ctx d)) → foreign_scripts scripts →
  gens (ctx d) !! i = Some g → keeps g = true → use g = Some uses →
  u ∈ uses → is_ns3 u = true → u ∈ modules.
Proof.
  intros Hmods Hnd Hfor Hg Hk Hu Huin Hns.
  destruct (declared_facts static scripts examples scratch s s2 He Hne H2)
    as (_ & _ & Hok & _ & _ & new & Hgens).
  destruct (Forall_lookup_1 _ _ _ _ Hok Hg) as [Hgok Huses]. specialize (Huses Hfor).
  destruct (is_ns3_module g) eqn:Hm.
  { rewrite kept_module in Hk by done. apply bool_decide_eq_true in Hk.
    destruct (enabled_facts static scripts s s2 He Hne H2) as (_ & _ & Hcl & _).
    destruct (Hcl _ Hk) as (uses' & Hu' & Hall). unfold uses_of in Hu'.
    pose proof (proj1 (Forall_forall _ _) Hmods _ Hk) as Hnm.
    apply names_modules_inv in Hnm as (o & h & Ho & Hh & Hmod & Hn).
    rewrite Ho, Hh in Hu'. change (Some h ≫= use) with (use h) in Hu'.
    assert (gens (ctx d) !! o = Some h) as Hd by (rewrite Hgens; by apply lookup_app_l_Some).
    assert (i = o) as -> by (eapply distinct_modules; [exact Hnd|done..]).
    assert (h = g) as -> by congruence. rewrite Hu in Hu'. injection Hu' as <-. by apply Hall. }
  destruct (test_library_of g) as [m|] eqn:Hl.
  { rewrite (kept_library g m) in Hk by done. apply andb_true_iff in Hk as [_ Hk%bool_decide_eq_true].
    destruct (gen_library _ Hgok m Hl) as (_ & extra & Hu'). rewrite Hu in Hu'. injection Hu' as ->.
    apply elem_of_cons in Huin as [->|Hin]; [done|].
    pose proof (library_uses _ _ Huses m extra Hl Hu) as Hf.
    pose proof (proj1 (Forall_forall _ _) Hf u Hin). simpl in *. congruence. }
  destruct (ns3_module_dependencies g) as [deps|] eqn:Hdeps.
  - unfold kept in Hk. rewrite Hdeps in Hk. apply andb_true_iff in Hk as [Hk _].
    apply andb_true_iff in Hk as [Hk%bool_decide_eq_true _].
    pose proof (gen_program _ Hgok deps Hdeps) as Hu'. rewrite Hu in Hu'. injection Hu' as ->.
    by apply (proj1 (Forall_forall _ _) Hk).
  - by eapply (other_uses _ _ Huses).
Qed.

(** A generator of the build, at the place where it was declared. *)
Lemma built_declared i g :
  gens (ctx s') !! i = Some g → i < length (gens (ctx d)) →
  ∃ h, gens (ctx d) !! i = Some h ∧ use h = use g.
Proof.
  intros Hg [h Hh]%lookup_lt_is_Some. exists h. split; [done|].
  destruct (result_facts static scripts examples scratch s s' s2 He Hne H2 Hb)
    as (_ & _ & (rest & Hr) & _).
  assert ((no_mode <$> gens (ctx s')) !! i = Some (no_mode h)) as Hn.
  { rewrite Hr. apply lookup_app_l_Some. by rewrite list_lookup_fmap, Hh. }
  rewrite list_lookup_fmap, Hg in Hn. apply (inj Some) in Hn.
  by apply (f_equal use) in Hn.
Qed.
End links.

(** C25: only one link of a build can miss a library of the simulator.  When the
    modules enabled are modules indeed, with distinct names, and the scripts use
    no library of the simulator but through modules, programs, test libraries of
    their modules and python bindings (those of [bindings/python] none at all),
    then every generator that is kept, of whatever kind, uses only libraries
    that are part of the build themselves, except [bench-simulator], which uses
    ns3-core even when that is not enabled.  [test-runner] is linked with all
    enabled modules and their test libraries, which are all part of the
    build. *)
Theorem no_library_missing static scripts examples scratch s s' :
  ctx s = empty_context → NS3_ENABLED_MODULES (env s) ≠ [] →
  build static scripts false examples scratch s = Ok s' →
  foreign_scripts scripts → only_others scripts →
  Forall (λ m, names_modules (ctx (tree static scripts s)) m = true) (NS3_ENABLED_MODULES (env s')) →
  ∃ s2, enable_modules (tree static scripts s) = Ok s2 ∧
    let d := declared static scripts examples scratch s2 in
    (NoDup (module_names (ctx d)) →
     ∀ i g uses u, gens (ctx s') !! i = Some g → i ∈ all_ids (ctx s') → use g = Some uses →
       u ∈ uses → is_ns3 u = true →
       provided (ctx s') u ∨
       (tg_name g = "bench-simulator" ∧ u = "ns3-core" ∧ "ns3-core" ∉ NS3_ENABLED_MODULES (env s'))) ∧
    ∃ i g uses, gens (ctx s') !! i = Some g ∧ i ∈ all_ids (ctx s') ∧ tg_name g = "test-runner" ∧
      use g = Some uses ∧ NS3_ENABLED_MODULES (env s') ⊆ uses ∧
      ∀ u, u ∈ uses → provided (ctx s') u.
Proof.
  intros He Hne Hb Hfor Honly Hmods. destruct (build_enables _ _ _ _ _ _ Hb) as [s2 H2]. exists s2.
  split; [done|]. cbn zeta.
  destruct (result_facts static scripts examples scratch s s' s2 He Hne H2 Hb)
    as (Hm & _ & _ & Hk & _ & _ & Hlate & i & g & Hg & Hin & Hn & Hu).
  rewrite Hm in Hmods |- *.
  assert (∀ m, m ∈ NS3_ENABLED_MODULES (env s2) → provided (ctx s') m) as Hmod.
  { intros m Hum. eapply module_provided; try done. by apply (proj1 (Forall_forall _ _) Hmods). }
  assert (∀ u, u ∈ NS3_ENABLED_MODULES (env s2) ++ NS3_ENABLED_MODULE_TEST_LIBRARIES (env s2) →
    provided (ctx s') u) as Hall.
  { intros u [Hum|Hul]%elem_of_app; [by apply Hmod|by eapply library_provided]. }
  split.
  - intros Hnd j h uses u Hh Hj Hus Hu' Hns.
    destruct (decide (j < length (gens (ctx (declared static scripts examples scratch s2))))) as [Hlt|Hge].
    + destruct (built_declared static scripts examples scratch s s' s2 He Hne H2 Hb j h Hh Hlt)
        as (h' & Hh' & Hu2). apply (Hk j h' Hh') in Hj. left. apply Hmod.
      eapply (kept_uses static scripts examples scratch s s2 He Hne H2 j h'); try done. congruence.
    + destruct (Hlate j h ltac:(lia) Hh) as (_ & [Hpy|[[_ E]|[[E1 E2]|[Hnet [E|E]]]]]).
      * by rewrite (Hpy Hfor Honly uses u Hus Hu') in Hns.
      * left. apply Hall. congruence.
      * rewrite Hus in E2. injection E2 as ->. apply list_elem_of_singleton in Hu' as ->.
        destruct (decide ("ns3-core" ∈ NS3_ENABLED_MODULES (env s2))); [left; by apply Hmod|by right].
      * rewrite Hus in E. injection E as ->. apply list_elem_of_singleton in Hu' as ->.
        left. by apply Hmod.
      * left. apply Hmod. congruence.
  - exists i, g, (NS3_ENABLED_MODULES (env s2) ++ NS3_ENABLED_MODULE_TEST_LIBRARIES (env s2)).
    split_and!; [done..|set_solver|done].
Qed.

(** ** On a small tree *)
Definition sample_examples : list (string * bool) := [("tutorial", true)].

Definition sample_scratch : list (string * bool) :=
  [("scratch-simulator.cc", false); ("README", false); (".svn", true)].

Definition sample_start : state := sample_state ["ns3-network"] ["core"; "network"; "wifi"].

Definition built_sample : state :=
  match build false sample_scripts false sample_examples sample_scratch sample_start with
  | Ok s => s
  | Raise _ => sample_start
  end.

Lemma sample_build_ok :
  build false sample_scripts false sample_examples sample_scratch sample_start = Ok built_sample.
Proof. vm_compute. reflexivity. Qed.

Lemma build_selects_witness :
  NS3_ENABLED_MODULES (env built_sample) = ["ns3-network"; "ns3-core"] ∧
  NS3_RUNNABLE_PROGRAMS (env built_sample) = ["first"; "scratch-simulator"] ∧
  NS3_RUNNABLE_SCRIPTS (env built_sample) = ["first.py"] ∧
  ∀ m, m ∈ NS3_ENABLED_MODULES (env built_sample) ↔
    reachable (ctx (tree false sample_scripts sample_start)) (NS3_ENABLED_MODULES (env sample_start)) m.
Proof.
  split; [vm_compute; reflexivity|]. split; [vm_compute; reflexivity|].
  split; [vm_compute; reflexivity|].
  apply (build_selects false sample_scripts sample_examples sample_scratch sample_start built_sample);
    [reflexivity|discriminate|exact sample_build_ok].
Defined.

Lemma sample_foreign : foreign_scripts sample_scripts ∧ only_others sample_scripts.
Proof.
  split; [|unfold only_others; vm_compute; by repeat constructor].
  intros dir. unfold sample_scripts. repeat case_decide; repeat constructor.
Qed.

Lemma no_library_missing_witness :
  ∃ i g uses, gens (ctx built_sample) !! i = Some g ∧ tg_name g = "test-runner" ∧
    use g = Some uses ∧ ["ns3-network"; "ns3-core"] ⊆ uses ∧
    ∀ u, u ∈ uses → provided (ctx built_sample) u.
Proof.
  destruct sample_foreign as [Hf Ho].
  destruct (no_library_missing false sample_scripts sample_examples sample_scratch sample_start
    built_sample) as (s2 & _ & _ & H);
    [reflexivity|discriminate|exact sample_build_ok|exact Hf|exact Ho| |].
  - apply (bool_decide_eq_true_1 _). vm_compute. reflexivity.
  - destruct H as (i & g & uses & Hg & _ & Hn & Hu & Hsub & Hall). exists i, g, uses.
    split; [exact Hg|]. split; [exact Hn|]. split; [exact Hu|]. split; [|exact Hall].
    assert (NS3_ENABLED_MODULES (env built_sample) = ["ns3-network"; "ns3-core"]) as <-
      by (vm_compute; reflexivity).
    exact Hsub.
Defined.

(** In a build of a module that does not depend on ns3-core, [bench-simulator] is
    built and the library it needs is not. *)
Definition alone_scripts (dir : string) : list declaration :=
  if decide (dir = "src/core") then [Module "core" [] []]
  else if decide (dir = "src/alone") then [Module "alone" [] []] else [].

Definition built_alone : result exn state :=
  build false alone_scripts false [] [] (sample_state ["ns3-alone"] ["core"; "alone"]).

Definition is_provided (b : context) (u : string) : bool :=
  existsb (λ j, from_option (λ h, bool_decide (tg_name h = u)) false (gens b !! j)) (all_ids b).

Lemma provided_is b u : provided b u → is_provided b u = true.
Proof.
  intros (j & h & Hj & Hin & Hn). apply existsb_exists. exists j.
  split; [by apply list_elem_of_In|]. rewrite Hj. by apply bool_decide_eq_true.
Qed.

Lemma bench_simulator_misses_core :
  ∃ s' i g, built_alone = Ok s' ∧ gens (ctx s') !! i = Some g ∧ i ∈ all_ids (ctx s') ∧
    tg_name g = "bench-simulator" ∧ use g = Some ["ns3-core"] ∧ ¬ provided (ctx s') "ns3-core".
Proof.
  destruct built_alone as [s'|] eqn:E; [|vm_compute in E; discriminate].
  assert (s' = match built_alone with Ok s' => s' | Raise _ => sample_state [] [] end) as ->
    by by rewrite E.
  do 3 eexists. split; [done|].
  split; [by vm_compute; instantiate (2 := 7)|].
  split; [by apply (bool_decide_unpack _); vm_compute|]. split; [done|]. split; [done|].
  intros H%provided_is. vm_compute in H. discriminate.
Qed.

(** The bindings of a module that is enabled as a dependency only are skipped:
    [ns3_python_bindings] looks at the list before it is completed. *)
Lemma dependency_bindings_skipped :
  "ns3-core" ∈ NS3_ENABLED_MODULES (env built_sample) ∧
  filter (startswith "ns3module_") (tg_name <$> gens (ctx built_sample)) = ["ns3module_network"].
Proof. split; [by apply (bool_decide_unpack _); vm_compute|vm_compute; reflexivity]. Qed.

(** The module header of a disabled module is meant to be removed, but by then
    the generator of the module is out of the build, so that
    [apply_ns3moduleheader] returns before it creates the task: a header left by
    an earlier build stays. *)
Lemma disabled_header_stays :
  ∃ i g, gens (ctx built_sample) !! i = Some g ∧ features g = ["ns3moduleheader"] ∧
    tg_module g = Some "wifi" ∧ mode g = Some "remove" ∧
    snd <$> apply_ns3moduleheader g (ctx built_sample) = Ok None.
Proof. exists 19. eexists. split; [vm_compute; reflexivity|]. vm_compute. by split_and!. Qed.

Lemma enabled_header_written :
  ∃ i g, gens (ctx built_sample) !! i = Some g ∧ tg_module g = Some "network" ∧
    snd <$> apply_ns3moduleheader g (ctx built_sample) =
      Ok (Some (HeaderTask "network" "install" ["node.h"] "network-module.h")).
Proof. exists 18. eexists. split; [vm_compute; reflexivity|]. vm_compute. by split_and!. Qed.
